(* ===== verification/_CoqProject ===== *)
-Q . S2P
Prelude.v
FtBuffer.v
BHeap.v
BinForest.v
BHeapRefine.v
BHeapDelete.v
HeapSpec.v
PrioQueue.v
Task.v
Srp.v
Edf.v
Kernel.v
RtDomain.v
RtInv.v
EdfDomain.v
Partitioned.v
Frames.v
PsnEdf.v
EdfFm.v
EdfFmSched.v
Sliced.v
SliceInv.v
SliceSched.v
EdfWm.v
Cd.v
Hime.v
Budget.v
Examples.v
Syscalls.v
Admission.v
GlobalEdf.v
GlobalInv.v
GlobalSched.v
GlobalCpu.v
GlobalTask.v
GlobalExamples.v
NpsF.v
NpsInv.v
NpsServer.v
NpsTask.v
NpsSched.v
NpsTime.v
NpsOwner.v
NpsMain.v
NpsSetup.v
NpsStart.v
NpsExamples.v
NpsScenarios.v
Pfair.v
PfairSub.v
PfairInv.v
PfairLink.v
PfairTop.v
PfairQuantum.v
PfairAdvance.v
PfairNext.v
PfairTask.v
PfairTick.v
PfairMachine.v
PfairStart.v
PfairExamples.v
Fmlp.v
FmlpPsn.v
FmlpExamples.v
Fdso.v
FdsoSem.v
Sync.v
SchedClass.v
JobCalls.v
GlueExamples.v
