(* ===== verification/Prelude.v ===== *)
(** * The scheduling core of LITMUS^RT, verified

    LITMUS^RT (src/litmus2010) extends the Linux 2.6.34 kernel with real-time
    scheduling.  A scheduler is a plugin, a table of callbacks; the core hands
    it scheduling decisions, ticks, new, waking, blocking and exiting tasks.
    The plugins keep their tasks in real-time domains, ready and release queues
    that are binomial heaps of tasks ordered by deadline.  This repository adds
    semi-partitioned plugins, which move the jobs of some tasks between
    processors, to the partitioned and global ones of LITMUS^RT.

    ** The program and the files that model it

    - Heaps.  BHeap.v is src/litmus2010/litmus/bheap.c at the level of its
      pointers.  BinForest.v has the same functions on trees.  BHeapRefine.v and
      BHeapDelete.v prove that the pointer program computes what the functions
      on trees compute, HeapSpec.v states the contract, and PrioQueue.v is the
      interface ([PrioQueue], [PrioQueueLaws]) its clients are developed
      against.
    - Tasks and time.  Task.v: rt_param.h, the accessors of litmus.h, and
      jobs.c.  Edf.v: [edf_higher_prio] and the range of deadlines in which it
      is an order.
    - The shared kernel state.  Kernel.v: tasks, domains, timers, the clock;
      [preempt_if_preemptable] and budget.c.  Budget.v: what the enforcement
      timers guarantee.
    - Real-time domains.  RtDomain.v: rt_domain.c and rt_domain.h.  RtInv.v: the
      invariant of the queues and the effect of every operation.  EdfDomain.v:
      both at the EDF order.
    - Partitioned EDF.  Partitioned.v: what the plugins with one domain per
      processor share.  PsnEdf.v: sched_psn_edf.c.
    - EDF-fm.  EdfFm.v, EdfFmSched.v: sched_edf_fm.c.
    - Sliced jobs.  Sliced.v: the code that sched_edf_wm.c, sched_cd.c and
      sched_hime.c share; EdfWm.v, Cd.v and Hime.v: what they differ in, as
      instances of [slice_plugin].  SliceInv.v, SliceSched.v: the life of a sliced
      job and the scheduling decisions, proved once against [SliceLaws].
    - Global and clustered EDF.  GlobalEdf.v: sched_gsn_edf.c and sched_cedf.c,
      written once over [gplugin].  GlobalInv.v, GlobalSched.v, GlobalCpu.v,
      GlobalTask.v: the invariant of links, heaps and queues, the preemption
      check, the scheduling decision, and the other callbacks.
    - NPS-F.  NpsF.v and NpsSetup.v: sched_npsf.c, the callbacks and the
      configuration.  Frames.v, NpsInv.v, NpsServer.v, NpsTask.v, NpsSched.v: the
      servers and their tasks.  NpsTime.v: slots and the switching timer.
      NpsOwner.v, NpsMain.v: which processor executes a server.  NpsStart.v:
      what the add_server system call sets up.
    - PD^2.  Pfair.v: sched_pfair.c, whose heaps are the ready queues of domains.
      PfairSub.v: subtask windows and priorities.  PfairInv.v, PfairLink.v,
      PfairTop.v: the queues, linking and [schedule_subtasks].  PfairQuantum.v,
      PfairAdvance.v, PfairNext.v: the quantum.  PfairTask.v: the callbacks.
      PfairTick.v, PfairMachine.v: ticks on all processors, interleaved.
      PfairStart.v: initialisation and activation.
    - The stack resource policy.  Srp.v: srp.c.
    - FMLP semaphores.  Fmlp.v: fmlp.c, over the callbacks of the plugin
      ([PiPlugin], [PiPluginLaws]).  FmlpPsn.v: the callbacks of PSN-EDF, with
      queues in which tasks inherit priorities.
    - Shared objects.  Fdso.v: fdso.c, over the operations of the object types
      ([FdsoOps], [FdsoLaws]).  FdsoSem.v: FMLP and SRP semaphores as such types.
    - Around the plugins.  SchedClass.v: sched_litmus.c, over the callbacks of
      the plugin ([SchedPlugin]).  Sync.v: sync.c, and the completions of
      kernel/sched.c.  JobCalls.v: the job system calls of litmus.c.
    - Feather-Trace.  FtBuffer.v: feather_buffer.h, and the read side of
      ftdev.c, with writers and reader interleaved at every access to memory.
    - System calls.  Syscalls.v: litmus.c, the plugin registry, ctrldev.c and the
      places in kernel/sched.c and kernel/fork.c that call them.  Admission.v:
      the system calls together with the admission test of EDF-WM.
    - Concrete states.  Examples.v, Admission.v, GlobalExamples.v,
      NpsExamples.v, NpsScenarios.v, PfairExamples.v, FmlpExamples.v, FdsoSem.v
      and GlueExamples.v run the definitions on small machines and instantiate
      the theorems there.

    ** How code becomes definitions

    A C function is a computation in the monad [M S] below: it reads and writes
    the state [S] and may fault, at a [BUG_ON], a NULL pointer or an index out
    of range.  The state of the plugins is [world] (Kernel.v): the tasks as a
    function from addresses to [task_struct], the domains, the release heaps,
    and the state of the plugin.  Callbacks run with their lock held and
    interrupts off and are one step; Feather-Trace, which has no locks, is
    modelled as a step relation on single accesses, as is [pfair_tick] between
    the quanta it schedules under its lock, and [npsf_schedule], which takes
    several locks in turn, as a step relation on what runs under each.  The tasks
    that use FMLP semaphores are interleaved at their system calls, where they
    suspend, and with anything the rest of the kernel may do.
    Times are 64-bit words with their wrap-around written out.  The clock is a
    parameter of the run: [elapse] lists how much time passes before each read.
    Allocators, timers and other code of the Linux kernel appear as arguments or
    as part of the state.

    ** What the theorems show

    - Heaps: every operation terminates, does not fault, adds, removes or merges
      exactly the items it should, and returns an item no other item beats
      (HeapSpec.v).
    - Domains: a task is in one queue, at most; queues are ordered; release
      heaps are armed, sorted, and hold the jobs of their release time (RtInv.v).
    - Partitioned, sliced and EDF-fm plugins: [schedule] picks a task no ready
      task of the processor beats, loses no task, migrates jobs to where their
      next slice or job belongs, and keeps the invariant; every reachable state
      of PSN-EDF satisfies it, and no callback faults there.
    - Global plugins: the preemption check ends and leaves the jobs with the
      highest priorities linked; [schedule] runs the linked task, which runs
      nowhere else.
    - NPS-F: the head of a server is its best task; no two processors execute
      one server, however their calls interleave; [npsf_schedule] executes the
      reserve whose part of the slot it is, or keeps its own while another
      processor has not handed the server over; the switching timer is set to
      the end of the reserve.
    - PD^2: subtasks have the windows and group deadlines of PD^2; a quantum
      links the tasks with the highest priorities among those whose windows are
      open; however the processors' ticks interleave, the quanta are scheduled
      in order and once, and a quantum that is claimed can be scheduled.
    - SRP: no task finds a semaphore it opened locked by another task.
    - FMLP: a semaphore implements a FIFO lock; no two tasks own it, no wake-up
      is lost and no call faults.
    - Shared objects: reference counts are exact, descriptors refer to live
      objects, and opening finds the object of the given name or creates it.
    - Scheduling class and releases: a job is charged the time it runs; a
      migration waits 10 ms at most; a synchronous release gives all waiting tasks
      their jobs.
    - Feather-Trace: the interleaved buffer refines a bounded FIFO queue that
      drops records when full.
    - System calls: a real-time task owns its memory and was admitted with its
      present parameters; plugins change only without real-time tasks.
    - Errors: where the code does not do what it means to, a theorem says what
      it does (the theorems of kind error in the manifest).

    ** Bounds and fuel

    Loops over pointers carry fuel: the number of nodes plus one for the heap
    ([loop_fuel]), one round per processor plus one for the preemption check,
    two rounds per processor plus one for the links of a PD^2 quantum, the
    number of slices for the loops over slices, the number of clock readings to
    come for the NPS-F timer.  The theorems prove that the fuel suffices: they
    show a result, not only what holds if there is one.
    [time_ok] asks that the clock, the deadlines and one more period stay below
    2^63 nanoseconds (292 years), beyond which deadlines are not ordered.  Quanta of
    PD^2 are numbered below 2^62, and machines have fewer than 2000 processors.

    ** Not modelled

    - The priority inheritance callbacks of GSN-EDF, which reorder queued tasks in
      place; in the states of the plugins' own theorems no task inherits a priority
      ([no_inheritance]).  The theorems of FmlpPsn.v are about inheritance.
    - The computation of clusters from the cache topology in
      [cedf_activate_plugin], proc files, tracing macros, and initialisation
      beyond what is listed above.
    - The rest of Linux, and the user-space library and tools, which only call
      the system calls. *)

From stdpp Require Import sorting.
From stdpp Require Export base option numbers gmap list.

(** ** A state monad with failure

    Kernel code reads and writes shared state and can stop the machine: a NULL
    or dangling pointer faults, a [BUG_ON] whose condition holds halts.  A
    computation over the state [S] that returns an [A] is a function to
    [option (A * S)]; [None] is a fault.  The instances give it stdpp's monad
    notations. *)
Definition M (S A : Type) : Type := S -> option (A * S).

Global Instance M_ret S : MRet (M S) := fun A a s => Some (a, s).
Global Instance M_bind S : MBind (M S) := fun A B k c s =>
  match c s with Some (a, s') => k a s' | None => None end.

Definition fault {S A} : M S A := fun _ => None.
Definition gets {S A} (f : S -> A) : M S A := fun s => Some (f s, s).
Definition modify {S} (f : S -> S) : M S unit := fun s => Some (tt, f s).
Definition of_option {S A} (o : option A) : M S A :=
  match o with Some a => mret a | None => fault end.
Definition BUG_ON {S} (b : bool) : M S unit := if b then fault else mret tt.
Definition when {S} (b : bool) (c : M S unit) : M S unit := if b then c else mret tt.

Section MonadLemmas.
Context {S A B : Type}.

Lemma bind_ok (c : M S A) (k : A -> M S B) s a s' :
  c s = Some (a, s') -> (c ≫= k) s = k a s'.
Proof. intros H. unfold mbind, M_bind. by rewrite H. Qed.

Lemma bind_inv (c : M S A) (k : A -> M S B) s r :
  (c ≫= k) s = Some r -> exists a s', c s = Some (a, s') /\ k a s' = Some r.
Proof. unfold mbind, M_bind. destruct (c s) as [[a s']|]; [eauto|done]. Qed.

Lemma bind_fault (c : M S A) (k : A -> M S B) s :
  c s = None -> (c ≫= k) s = None.
Proof. intros H. unfold mbind, M_bind. by rewrite H. Qed.

End MonadLemmas.

(** ** Weakest preconditions

    [wp c Φ s]: run in state [s], the computation [c] does not fault and its
    result and final state satisfy [Φ]. *)
Definition wp {S A} (c : M S A) (Φ : A -> S -> Prop) (s : S) : Prop :=
  match c s with Some (a, s') => Φ a s' | None => False end.

Section WP.
Context {S A B : Type}.
Implicit Types (c : M S A) (Φ : A -> S -> Prop) (s : S).

Lemma wp_run c Φ s : wp c Φ s <-> exists a s', c s = Some (a, s') /\ Φ a s'.
Proof.
  unfold wp. destruct (c s) as [[a s']|]; [|naive_solver].
  split; [eauto|]. intros (? & ? & [= <- <-] & ?). done.
Qed.

Lemma wp_bind c (k : A -> M S B) (Ψ : B -> S -> Prop) s :
  wp (c ≫= k) Ψ s <-> wp c (fun a => wp (k a) Ψ) s.
Proof. unfold wp, mbind, M_bind. by destruct (c s) as [[? ?]|]. Qed.

Lemma wp_mono c Φ Ψ s : wp c Φ s -> (forall a s', Φ a s' -> Ψ a s') -> wp c Ψ s.
Proof. unfold wp. destruct (c s) as [[? ?]|]; auto. Qed.

Lemma wp_and c Φ Ψ s : wp c Φ s -> wp c Ψ s -> wp c (fun a s' => Φ a s' /\ Ψ a s') s.
Proof. unfold wp. by destruct (c s) as [[? ?]|]. Qed.

Lemma wp_ret (a : A) Φ s : wp (mret a) Φ s <-> Φ a s.
Proof. done. Qed.

Lemma wp_gets (f : S -> A) Φ s : wp (gets f) Φ s <-> Φ (f s) s.
Proof. done. Qed.

Lemma wp_modify (f : S -> S) (Φ : unit -> S -> Prop) s : wp (modify f) Φ s <-> Φ tt (f s).
Proof. done. Qed.

Lemma wp_BUG_ON (b : bool) (Φ : unit -> S -> Prop) s : wp (BUG_ON b) Φ s <-> b = false /\ Φ tt s.
Proof. destruct b; unfold wp; simpl; naive_solver. Qed.

Lemma wp_when (b : bool) (c : M S unit) (Φ : unit -> S -> Prop) s :
  wp (when b c) Φ s <-> (if b then wp c Φ s else Φ tt s).
Proof. by destruct b. Qed.

Lemma wp_of_option (o : option A) Φ s : wp (of_option o) Φ s <-> exists a, o = Some a /\ Φ a s.
Proof. destruct o; unfold wp; simpl; naive_solver. Qed.

Lemma wp_if (b : bool) (c d : M S A) Φ s :
  wp (if b then c else d) Φ s <-> (if b then wp c Φ s else wp d Φ s).
Proof. by destruct b. Qed.

End WP.

(** Run the computation under [wp] up to the next call that has its own lemma. *)
Ltac wp_step :=
  lazymatch goal with
  | |- wp (mbind _ _) _ _ => apply wp_bind
  | |- wp (mret _) _ _ => apply wp_ret
  | |- wp (gets _) _ _ => apply wp_gets
  | |- wp (modify _) _ _ => apply wp_modify
  | |- wp (BUG_ON _) _ _ => apply wp_BUG_ON; split
  | |- wp (of_option _) _ _ => apply wp_of_option
  end.
Ltac wp_steps := repeat wp_step.

(** The same as rewriting rules, for hypotheses. *)
Create HintDb wp.
#[export] Hint Rewrite @wp_bind @wp_ret @wp_gets @wp_modify @wp_BUG_ON @wp_when @wp_of_option : wp.

(** ** Frames

    [frames R c]: whenever [c] returns, the states before and after are related
    by [R].  For a preorder this is compositional, so what a computation leaves
    alone follows from what its steps leave alone; the components add the frames
    of their operations to the database [litmus]. *)
Definition frames {S A} (R : S -> S -> Prop) (c : M S A) : Prop :=
  forall s a s', c s = Some (a, s') -> R s s'.

Section Frames.
Context {S A B : Type} (R : S -> S -> Prop) `{!PreOrder R}.

Lemma frames_ret (a : A) : frames R (mret a).
Proof. by intros s b s' [= <- <-]. Qed.
Lemma frames_fault : frames R (fault (A:=A)).
Proof. done. Qed.
Lemma frames_gets (f : S -> A) : frames R (gets f).
Proof. by intros s b s' [= <- <-]. Qed.
Lemma frames_of_option (o : option A) : frames R (of_option o).
Proof. destruct o; [apply frames_ret|done]. Qed.
Lemma frames_BUG_ON b : frames R (BUG_ON b).
Proof. destruct b; [done|]. by intros s [] s' [= <-]. Qed.
Lemma frames_modify f : (forall s, R s (f s)) -> frames R (modify f).
Proof. intros HR s [] s' [= <-]. apply HR. Qed.
Lemma frames_when b c : frames R c -> frames R (when b c).
Proof. destruct b; [done|]. by intros _ s [] s' [= <-]. Qed.
Lemma frames_bind (c : M S A) (k : A -> M S B) :
  frames R c -> (forall a, frames R (k a)) -> frames R (c ≫= k).
Proof. intros Hc Hk s b s'' (a & s' & E1 & E2)%bind_inv. transitivity s'; [by eapply Hc|by eapply Hk]. Qed.

Lemma wp_frames (c : M S A) (Φ : A -> S -> Prop) s :
  wp c Φ s -> frames R c -> wp c (fun a s' => Φ a s' /\ R s s') s.
Proof. intros (a & s' & E & HΦ)%wp_run Hf. apply wp_run. exists a, s'. split; [done|]. split; [done|by eapply Hf]. Qed.

End Frames.

Create HintDb litmus.
#[export] Hint Resolve frames_ret frames_fault frames_gets frames_of_option frames_BUG_ON : litmus.
#[export] Hint Extern 0 (PreOrder _) => apply _ : litmus.

(** Splits a computation into its steps and looks up their frames. *)
Ltac frames_tac :=
  repeat first
    [ progress intros
    | solve [eauto with litmus]
    | apply frames_bind; [apply _|..]
    | apply frames_when; [apply _|..]
    | lazymatch goal with
      | |- frames _ (match ?x with _ => _ end) => destruct x
      | |- frames _ (if ?x then _ else _) => destruct x
      end ].

(** Runs of a computation: a result and a state, or a fault. *)
Declare Scope litmus_scope.
Delimit Scope litmus_scope with litmus.
Notation "c '@' s '⇓' r" := (c s = Some r) (at level 70, s at next level, no associativity, only parsing) : litmus_scope.
Notation "c '@' s '⇑'" := (c s = None) (at level 70, s at next level, no associativity, only parsing) : litmus_scope.

(** ** Machine integers

    [lt_t] is an unsigned 64-bit integer; [unsigned int] is 32 bits wide.  The
    kernel is built with [-fno-strict-overflow], so signed arithmetic wraps. *)
Definition two32 : Z := 4294967296.
Definition two63 : Z := 9223372036854775808.
Definition two64 : Z := 18446744073709551616.
Definition UINT_MAX : Z := 4294967295.

Definition u32 (x : Z) : Z := x `mod` two32.
Definition u64 (x : Z) : Z := x `mod` two64.
(** The value of a 64-bit word read as [long long]. *)
Definition s64 (x : Z) : Z := (if u64 x <? two63 then u64 x else u64 x - two64)%Z.

Definition is_u32 (x : Z) : Prop := (0 <= x < two32)%Z.
Definition is_u64 (x : Z) : Prop := (0 <= x < two64)%Z.

(** ** Strict weak orders

    The priority functions of the kernel answer "does the first beat the
    second".  They are orders only on part of their domain (time wraps), so the
    laws are relative to a set [D] of values. *)
Record swo_on {V} (D : V -> Prop) (lt : V -> V -> bool) : Prop := {
  swo_irrefl a : D a -> lt a a = false;
  swo_trans a b c : D a -> D b -> D c -> lt a b = true -> lt b c = true -> lt a c = true;
  swo_neg_trans a b c :
    D a -> D b -> D c -> lt a b = false -> lt b c = false -> lt a c = false
}.

Section StrictWeakOrder.
Context {V : Type} {D : V -> Prop} {lt : V -> V -> bool}.

Lemma swo_asym : swo_on D lt -> forall a b, D a -> D b -> lt a b = true -> lt b a = false.
Proof.
  intros O a b Ha Hb H. destruct (lt b a) eqn:E; [|done].
  pose proof (swo_trans _ _ O a b a Ha Hb Ha H E).
  rewrite (swo_irrefl _ _ O a Ha) in *. done.
Qed.

Lemma swo_on_weaken (D' : V -> Prop) :
  swo_on D lt -> (forall v, D' v -> D v) -> swo_on D' lt.
Proof. intros [I T N] H. split; naive_solver. Qed.

End StrictWeakOrder.

(** ** Lists *)
Lemma sorted_impl {A} (R R' : A -> A -> Prop) l :
  (forall x y, x ∈ l -> y ∈ l -> R x y -> R' x y) -> StronglySorted R l -> StronglySorted R' l.
Proof.
  intros HR Hs. induction Hs as [|a l Hs IH Ha]; constructor.
  - apply IH. intros x y Hx Hy. apply HR; by right.
  - rewrite Forall_forall in *. intros y Hy. apply HR; [by left|by right|by apply Ha].
Qed.

Lemma sorted_middle {A} (R : A -> A -> Prop) l1 x l2 :
  StronglySorted R (l1 ++ l2) -> Forall (fun y => R y x) l1 -> Forall (R x) l2 ->
  StronglySorted R (l1 ++ x :: l2).
Proof.
  induction l1 as [|a l1 IH]; simpl; intros Hs H1 H2.
  - by constructor.
  - apply StronglySorted_inv in Hs as [Hs Ha]. apply Forall_cons in H1 as [Hax H1].
    constructor; [by apply IH|]. apply Forall_app in Ha as [? ?]. apply Forall_app. split; [done|].
    by constructor.
Qed.

Lemma sorted_filter {A} (R : A -> A -> Prop) (S : A -> Prop) `{forall x, Decision (S x)} l :
  StronglySorted R l -> StronglySorted R (filter S l).
Proof.
  induction 1 as [|a l Hs IH Ha]; [constructor|]. rewrite filter_cons. case_decide; [|done].
  constructor; [done|]. rewrite Forall_forall in *. intros x [_ Hx]%list_elem_of_filter. auto.
Qed.

Lemma filter_id {A} (S : A -> Prop) `{forall x, Decision (S x)} (l : list A) : Forall S l -> filter S l = l.
Proof. induction 1 as [|a l Ha _ IH]; [done|]. rewrite filter_cons, decide_True by done. by rewrite IH. Qed.

(** Every two neighbours of the list are related, as a loop over [i] and
    [i + 1] tests it. *)
Fixpoint pairwise {A} (ok : A -> A -> bool) (l : list A) : bool :=
  match l with
  | a :: ((b :: _) as l') => ok a b && pairwise ok l'
  | _ => true
  end.

Lemma pairwise_iff {A} (ok : A -> A -> bool) l :
  pairwise ok l = true <-> forall i a b, l !! i = Some a -> l !! S i = Some b -> ok a b = true.
Proof.
  induction l as [|x [|y l] IH].
  - done.
  - simpl. split; [|done]. intros _ i a b _ Hb. by destruct i.
  - change (pairwise ok (x :: y :: l)) with (ok x y && pairwise ok (y :: l)). rewrite andb_true_iff, IH. split.
    + intros [Hxy Hl] [|i] a b; simpl; [by intros [= <-] [= <-]|apply Hl].
    + intros Hl. split; [by apply (Hl 0)|]. intros i. apply (Hl (S i)).
Qed.

Lemma forallb_Forall {A} (f : A -> bool) l : forallb f l = true <-> Forall (fun a => f a = true) l.
Proof.
  rewrite Forall_forall, forallb_forall. split; intros Hl a Ha; apply Hl; by apply list_elem_of_In.
Qed.

Local Open Scope Z_scope.

Definition sum_Z (l : list Z) : Z := foldr Z.add 0 l.

Lemma sum_Z_app l k : sum_Z (l ++ k) = sum_Z l + sum_Z k.
Proof. unfold sum_Z. induction l as [|a l IH]; simpl; [done|]. rewrite IH. lia. Qed.

Lemma sum_Z_nonneg l : Forall (fun d => 0 <= d) l -> 0 <= sum_Z l.
Proof. unfold sum_Z. induction 1; simpl; lia. Qed.

(** A running total kept in an unsigned 64-bit word. *)
Lemma foldl_u64 {A} (f : A -> Z) l z : foldl (fun tmp s => u64 (tmp + f s)) (u64 z) l = u64 (z + sum_Z (f <$> l)).
Proof.
  revert z. induction l as [|a l IH]; intros z; csimpl.
  - by rewrite Z.add_0_r.
  - assert (u64 (u64 z + f a) = u64 (z + f a)) as -> by (unfold u64; by rewrite Zplus_mod_idemp_l).
    rewrite IH. f_equal. change (sum_Z (f a :: (f <$> l))) with (f a + sum_Z (f <$> l)). lia.
Qed.
