(* ===== verification/FtBuffer.v ===== *)
(** * Feather-Trace buffers (include/litmus/feather_buffer.h)

    A ring buffer of fixed-size records with many writers and one reader and no
    locks.  A writer takes a credit from [free_count], then a ticket from
    [write_idx], marks its slot busy, fills it byte by byte and marks it ready;
    the reader copies the slot at [read_idx] when it is ready, frees it and
    gives the credit back.

    The functions are given twice: as the code reads, for a caller that is not
    interrupted ([ft_buffer_start_write] ... [ft_buffer_copy_to_user]), and
    split at each access to shared memory ([writer_step], [reader_step]), for the
    interleavings of any number of writers with the reader ([ft_step]).  The
    theorems: every interleaving is one of the bounded ticket queue [q_step],
    and without interleaving the buffer is a bounded FIFO. *)
From Stdlib Require Import Init.Byte.
From S2P Require Import Prelude.
Local Open Scope Z_scope.

Definition SLOT_FREE : Z := 0.
Definition SLOT_BUSY : Z := 1.
Definition SLOT_READY : Z := 2.

(** The value of an [int] after wrapping arithmetic. *)
Definition s32 (x : Z) : Z := let y := u32 x in if y <? two32 / 2 then y else y - two32.

(** [atomic_add_return (1, v) - 1] and [atomic_sub_return (1, v) + 1]: the value
    returned and the value left in memory. *)
Definition fetch_and_inc (v : Z) : Z * Z := (s32 (s32 (v + 1) - 1), s32 (v + 1)).
Definition fetch_and_dec (v : Z) : Z * Z := (s32 (s32 (v - 1) + 1), s32 (v - 1)).

(** [slots] and [buffer_mem] are arrays: a byte per slot, and [slot_size] bytes
    per record, indexed from the start of the array. *)
Record ft_buffer := mk_ft_buffer {
  slot_count : Z;
  slot_size : Z;
  free_count : Z;
  write_idx : Z;
  read_idx : Z;
  slots : Z -> Z;
  buffer_mem : Z -> byte;
  failed_writes : Z }.

Definition set_free_count v b := mk_ft_buffer (slot_count b) (slot_size b) v (write_idx b)
  (read_idx b) (slots b) (buffer_mem b) (failed_writes b).
Definition set_write_idx v b := mk_ft_buffer (slot_count b) (slot_size b) (free_count b) v
  (read_idx b) (slots b) (buffer_mem b) (failed_writes b).
Definition set_read_idx v b := mk_ft_buffer (slot_count b) (slot_size b) (free_count b)
  (write_idx b) v (slots b) (buffer_mem b) (failed_writes b).
Definition set_slot i v b := mk_ft_buffer (slot_count b) (slot_size b) (free_count b)
  (write_idx b) (read_idx b) (fun j => if j =? i then v else slots b j) (buffer_mem b)
  (failed_writes b).
Definition store_byte a x b := mk_ft_buffer (slot_count b) (slot_size b) (free_count b)
  (write_idx b) (read_idx b) (slots b) (fun j => if j =? a then x else buffer_mem b j)
  (failed_writes b).
Definition set_failed_writes v b := mk_ft_buffer (slot_count b) (slot_size b) (free_count b)
  (write_idx b) (read_idx b) (slots b) (buffer_mem b) v.

(** The [n] bytes of memory from address [a] on. *)
Definition load (m : Z -> byte) (a n : Z) : list byte :=
  map (fun i => m (a + Z.of_nat i)) (seq 0 (Z.to_nat n)).

(** ** The functions, uninterrupted *)

(** The loop that frees the slots writes [slots[0] ... slots[count - 1]]. *)
Definition init_ft_buffer (count size : Z) (slots0 : Z -> Z) (mem : Z -> byte)
    : option ft_buffer :=
  if (count =? 0) || negb (UINT_MAX `mod` count =? u32 (count - 1)) then None
  else Some (mk_ft_buffer count size (s32 count) 0 0
               (fun i => if (0 <=? i) && (i <? count) then SLOT_FREE else slots0 i) mem 0).

(** The result is the pointer handed out, as an offset into [buffer_mem]; no
    pointer is the return value 0. *)
Definition ft_buffer_start_write (b : ft_buffer) : ft_buffer * option Z :=
  let '(free, c) := fetch_and_dec (free_count b) in
  let b := set_free_count c b in
  if free <=? 0 then
    let b := set_free_count (fetch_and_inc (free_count b)).2 b in
    (set_failed_writes (u32 (fetch_and_inc (failed_writes b)).2) b, None)
  else
    let '(i, c) := fetch_and_inc (write_idx b) in
    let b := set_write_idx (u32 c) b in
    let idx := u32 i `mod` slot_count b in
    (set_slot idx SLOT_BUSY b, Some (u32 (idx * slot_size b))).

Definition ft_buffer_finish_write (ptr : Z) (b : ft_buffer) : ft_buffer :=
  set_slot (u32 (ptr / slot_size b)) SLOT_READY b.

Definition ft_buffer_read (b : ft_buffer) : ft_buffer * option (list byte) :=
  if u32 (free_count b) =? slot_count b then (b, None)
  else
    let idx := read_idx b `mod` slot_count b in
    if slots b idx =? SLOT_READY then
      let v := load (buffer_mem b) (u32 (idx * slot_size b)) (slot_size b) in
      let b := set_slot idx SLOT_FREE b in
      let b := set_read_idx (u32 (read_idx b + 1)) b in
      (set_free_count (fetch_and_inc (free_count b)).2 b, Some v)
    else (b, None).

(** [uncopied] is the result of [copy_to_user]: the number of bytes it could not
    copy.  The return value is the code's; the record goes to user space. *)
Definition ft_buffer_copy_to_user (uncopied : Z) (b : ft_buffer)
    : ft_buffer * Z * option (list byte) :=
  if negb (u32 (free_count b) =? slot_count b) then
    let idx := read_idx b `mod` slot_count b in
    if slots b idx =? SLOT_READY then
      if uncopied =? 0 then
        let v := load (buffer_mem b) (u32 (idx * slot_size b)) (slot_size b) in
        let b := set_slot idx SLOT_FREE b in
        let b := set_read_idx (u32 (read_idx b + 1)) b in
        (set_free_count (fetch_and_inc (free_count b)).2 b, 1, Some v)
      else (b, uncopied, None)
    else (b, 0, None)
  else (b, 0, None).

(** ** The functions, one access to shared memory at a time *)

(** What a writer has done so far: nothing; taken a credit, with the count it
    saw; given it back; taken a ticket; marked its slot and received the pointer
    it now fills. *)
Inductive wpc :=
  | w_idle
  | w_credit (free : Z)
  | w_refused
  | w_ticket (idx : Z)
  | w_filling (ptr : Z).

(** The reader: idle; past the test for an empty buffer; copying, with the bytes
    copied; has freed the slot; has advanced [read_idx]. *)
Inductive rpc :=
  | r_idle
  | r_slot (idx : Z)
  | r_copying (idx : Z) (acc : list byte)
  | r_freed
  | r_advanced.

(** What an observer of the buffer sees of a step. *)
Inductive event :=
  | e_tau
  | e_reserve (t : nat)
  | e_publish (t : nat) (v : list byte)
  | e_read (v : list byte).

Definition writer_step (t : nat) (b : ft_buffer) (s : wpc) : ft_buffer * wpc * event :=
  match s with
  | w_idle =>
      let '(free, c) := fetch_and_dec (free_count b) in
      (set_free_count c b, w_credit free, e_tau)
  | w_credit free =>
      if free <=? 0 then (set_free_count (fetch_and_inc (free_count b)).2 b, w_refused, e_tau)
      else
        let '(i, c) := fetch_and_inc (write_idx b) in
        (set_write_idx (u32 c) b, w_ticket (u32 i `mod` slot_count b), e_reserve t)
  | w_refused =>
      (set_failed_writes (u32 (fetch_and_inc (failed_writes b)).2) b, w_idle, e_tau)
  | w_ticket idx =>
      (set_slot idx SLOT_BUSY b, w_filling (u32 (idx * slot_size b)), e_tau)
  | w_filling ptr =>
      (ft_buffer_finish_write ptr b, w_idle,
       e_publish t (load (buffer_mem b) ptr (slot_size b)))
  end.

Definition reader_step (b : ft_buffer) (s : rpc) : ft_buffer * rpc * event :=
  match s with
  | r_idle =>
      if u32 (free_count b) =? slot_count b then (b, r_idle, e_tau)
      else (b, r_slot (read_idx b `mod` slot_count b), e_tau)
  | r_slot idx =>
      if slots b idx =? SLOT_READY then (b, r_copying idx [], e_tau) else (b, r_idle, e_tau)
  | r_copying idx acc =>
      if Z.of_nat (length acc) <? slot_size b then
        (b, r_copying idx
              (acc ++ [buffer_mem b (u32 (idx * slot_size b) + Z.of_nat (length acc))]), e_tau)
      else (set_slot idx SLOT_FREE b, r_freed, e_read acc)
  | r_freed => (set_read_idx (u32 (read_idx b + 1)) b, r_advanced, e_tau)
  | r_advanced => (set_free_count (fetch_and_inc (free_count b)).2 b, r_idle, e_tau)
  end.

(** A buffer shared by the writers [ws] and a reader. *)
Record ft_sys := mk_ft_sys { buf : ft_buffer; ws : list wpc; reader : rpc }.

(** Any writer or the reader makes its next access; a writer that was handed a
    pointer may also store any byte of its record, in any order. *)
Inductive ft_step : ft_sys -> event -> ft_sys -> Prop :=
  | step_writer b l r t s b' s' e :
      l !! t = Some s -> writer_step t b s = (b', s', e) ->
      ft_step (mk_ft_sys b l r) e (mk_ft_sys b' (<[t := s']> l) r)
  | step_fill b l r t ptr i x :
      l !! t = Some (w_filling ptr) -> 0 <= i < slot_size b ->
      ft_step (mk_ft_sys b l r) e_tau (mk_ft_sys (store_byte (ptr + i) x b) l r)
  | step_reader b l r b' r' e :
      reader_step b r = (b', r', e) ->
      ft_step (mk_ft_sys b l r) e (mk_ft_sys b' l r').

Inductive ft_run : ft_sys -> list event -> ft_sys -> Prop :=
  | run_nil s : ft_run s [] s
  | run_snoc s es s1 e s2 : ft_run s es s1 -> ft_step s1 e s2 -> ft_run s (es ++ [e]) s2.

(** The interleaving of a schedule: [Some t] is a step of writer [t], [None] of the
    reader. *)
Definition ft_exec1 (who : option nat) (s : ft_sys) : list event * ft_sys :=
  match who with
  | None => let '(b, r, e) := reader_step (buf s) (reader s) in ([e], mk_ft_sys b (ws s) r)
  | Some t =>
      match ws s !! t with
      | Some w => let '(b, w, e) := writer_step t (buf s) w in ([e], mk_ft_sys b (<[t := w]> (ws s)) (reader s))
      | None => ([], s)
      end
  end.

Definition ft_exec (sched : list (option nat)) (s : ft_sys) : list event * ft_sys :=
  foldl (fun '(es, s) who => let '(e, s) := ft_exec1 who s in (es ++ e, s)) ([], s) sched.

(** ** The contract: a queue of at most [n] tickets

    A ticket is taken by a writer in turn, gets its record when the writer
    publishes it, and the records leave in the order of the tickets, each once
    and complete. *)
Notation tickets := (list (nat * option (list byte))).

Inductive q_step (n : Z) : tickets -> event -> tickets -> Prop :=
  | q_tau q : q_step n q e_tau q
  | q_reserve q t :
      Z.of_nat (length q) < n -> q_step n q (e_reserve t) (q ++ [(t, None)])
  | q_publish q1 t v q2 :
      q_step n (q1 ++ (t, None) :: q2) (e_publish t v) (q1 ++ (t, Some v) :: q2)
  | q_read t v q : q_step n ((t, Some v) :: q) (e_read v) q.

Inductive q_run (n : Z) : tickets -> list event -> tickets -> Prop :=
  | q_nil q : q_run n q [] q
  | q_snoc q es q1 e q2 : q_run n q es q1 -> q_step n q1 e q2 -> q_run n q (es ++ [e]) q2.

(** ** Arithmetic of the counters *)

Lemma s32_small x : - (two32 / 2) <= x < two32 / 2 -> s32 x = x.
Proof.
  intros Hx. change (two32 / 2) with 2147483648 in Hx. unfold s32, u32. change (two32 / 2) with 2147483648.
  destruct (decide (0 <= x)) as [H0|H0].
  - rewrite Z.mod_small by (unfold two32; lia). destruct (Z.ltb_spec x 2147483648); lia.
  - assert (x `mod` two32 = x + two32) as E
      by (symmetry; apply (Z.mod_unique _ _ (-1)); unfold two32; lia).
    rewrite E. unfold two32. destruct (Z.ltb_spec (x + 4294967296) 2147483648); lia.
Qed.

Lemma u32_s32 x : u32 (s32 x) = u32 x.
Proof.
  unfold s32. destruct (_ <? _); unfold u32; [by rewrite Zmod_mod|].
  rewrite Zminus_mod, Z_mod_same_full, Z.sub_0_r, !Zmod_mod. done.
Qed.

Lemma u32_range x : 0 <= u32 x < two32.
Proof. apply Z.mod_pos_bound. done. Qed.

Lemma u32_id x : 0 <= x < two32 -> u32 x = x.
Proof. intros. by apply Z.mod_small. Qed.

Lemma u32_add_l x y : u32 (u32 x + y) = u32 (x + y).
Proof. unfold u32. by rewrite Zplus_mod_idemp_l. Qed.

(** [fetch_and_inc] and [fetch_and_dec] on a counter away from the ends of the
    [int] range. *)
Lemma fetch_and_inc_small v :
  - 2147483648 <= v < 2147483647 -> fetch_and_inc v = (v, v + 1).
Proof.
  intros Hv. unfold fetch_and_inc. rewrite (s32_small (v + 1)) by (change (two32 / 2) with 2147483648; lia).
  replace (v + 1 - 1) with v by lia. rewrite s32_small by (change (two32 / 2) with 2147483648; lia). done.
Qed.

Lemma fetch_and_dec_small v :
  - 2147483648 < v < 2147483648 -> fetch_and_dec v = (v, v - 1).
Proof.
  intros Hv. unfold fetch_and_dec. rewrite (s32_small (v - 1)) by (change (two32 / 2) with 2147483648; lia).
  replace (v - 1 + 1) with v by lia. rewrite s32_small by (change (two32 / 2) with 2147483648; lia). done.
Qed.

(** On an index, incremented as an [int] and read as [unsigned int]. *)
Lemma fetch_and_inc_u32 x :
  u32 (fetch_and_inc (u32 x)).1 = u32 x /\ u32 (fetch_and_inc (u32 x)).2 = u32 (x + 1).
Proof.
  unfold fetch_and_inc; simpl. rewrite !u32_s32, u32_add_l. split; [|done].
  unfold u32. rewrite Zminus_mod. change (s32 (x `mod` two32 + 1) `mod` two32) with (u32 (s32 (u32 x + 1))).
  rewrite u32_s32, u32_add_l. unfold u32. rewrite <- Zminus_mod. f_equal. lia.
Qed.

(** Why the slot count must divide [UINT_MAX + 1]: the slot of an index survives
    the wrap-around of the index. *)
Lemma slot_wraps n x : 0 < n -> (n | two32) -> u32 x `mod` n = x `mod` n.
Proof.
  intros Hn [k Hk]. unfold u32. rewrite Hk.
  rewrite (Z.div_mod x (k * n)) at 2; [|unfold two32 in Hk; lia].
  replace (k * n * (x `div` (k * n)) + x `mod` (k * n))
    with (x `mod` (k * n) + (k * (x `div` (k * n))) * n) by ring.
  by rewrite Z_mod_plus_full.
Qed.

Lemma slot_inj n r i j : 0 < n -> 0 <= i < n -> 0 <= j < n -> (r + i) `mod` n = (r + j) `mod` n -> i = j.
Proof.
  intros Hn Hi Hj H.
  assert ((r + i - (r + j)) `mod` n = 0) as E by (rewrite Zminus_mod, H, Z.sub_diag; done).
  replace (r + i - (r + j)) with (i - j) in E by lia.
  apply Z.mod_divide in E as [k Hk]; [|lia]. assert (k = 0) by nia. lia.
Qed.

(** ** Counting the writers in a state *)
Section Count.
Context (f : wpc -> Z).

Definition total (l : list wpc) : Z := sum_Z (f <$> l).

Lemma total_insert l t s s' :
  l !! t = Some s -> total (<[t := s']> l) = total l - f s + f s'.
Proof.
  intros Ht. unfold total.
  rewrite (insert_take_drop l t s') by (by eapply lookup_lt_Some).
  rewrite <- (take_drop_middle l t s Ht) at 3. rewrite !fmap_app, !sum_Z_app. csimpl.
  unfold sum_Z; simpl. lia.
Qed.

End Count.

Lemma total_mono (f g : wpc -> Z) l : (forall s, f s <= g s) -> total f l <= total g l.
Proof.
  intros Hfg. induction l as [|s l IH]; [done|]. unfold total, sum_Z in *. csimpl. pose proof (Hfg s). lia.
Qed.

Lemma total_nonneg (f : wpc -> Z) l : (forall s, 0 <= f s) -> 0 <= total f l.
Proof. intros Hf. apply sum_Z_nonneg, Forall_fmap, Forall_true. intros s. apply Hf. Qed.

Lemma total_length (f : wpc -> Z) l : (forall s, f s <= 1) -> total f l <= Z.of_nat (length l).
Proof.
  intros Hf. induction l as [|s l IH]; [done|]. unfold total, sum_Z in *. csimpl. pose proof (Hf s). lia.
Qed.

(** ** The simulation relation *)

(** The shape of a buffer that [k] writers can share: [init_ft_buffer] accepts
    the slot count, the memory is addressable with 32 bits, and the credits in
    flight fit into an [int]. *)
Record shape (b : ft_buffer) (k : Z) : Prop := {
  shape_pos : 0 < slot_count b;
  shape_div : (slot_count b | two32);
  shape_int : slot_count b + k < 2147483647;
  shape_size : 0 < slot_size b;
  shape_mem : slot_count b * slot_size b <= two32 }.

(** Credits: taken and not yet turned into a ticket or given back; the ones that
    will become a ticket; the one the reader owes. *)
Definition credit (s : wpc) : Z := match s with w_credit _ => 1 | _ => 0 end.
Definition granted (s : wpc) : Z := match s with w_credit f => if 0 <? f then 1 else 0 | _ => 0 end.
Definition lag (r : rpc) : Z := match r with r_freed | r_advanced => 1 | _ => 0 end.
Definition behind (r : rpc) : Z := match r with r_freed => 1 | _ => 0 end.

(** The counters, with [R] records read and the tickets [q] in flight. *)
Record counts (b : ft_buffer) (l : list wpc) (r : rpc) (R : Z) (q : tickets) : Prop := {
  counts_read : read_idx b = u32 (R - behind r);
  counts_write : write_idx b = u32 (R + Z.of_nat (length q));
  counts_free : free_count b = slot_count b - Z.of_nat (length q) - lag r - total credit l;
  counts_room : Z.of_nat (length q) + lag r + total granted l <= slot_count b }.

Definition slot_of (b : ft_buffer) (R : Z) (j : nat) : Z := (R + Z.of_nat j) `mod` slot_count b.

Definition holds (s : wpc) : bool := match s with w_ticket _ | w_filling _ => true | _ => false end.

(** What the ticket of writer [t] looks like in slot [i]. *)
Definition entry (b : ft_buffer) (l : list wpc) (i : Z) (t : nat) (o : option (list byte)) : Prop :=
  match o with
  | None => (l !! t = Some (w_ticket i) /\ slots b i = SLOT_FREE) \/
            (l !! t = Some (w_filling (i * slot_size b)) /\ slots b i = SLOT_BUSY)
  | Some v => slots b i = SLOT_READY /\ load (buffer_mem b) (i * slot_size b) (slot_size b) = v
  end.

Definition reading (b : ft_buffer) (r : rpc) (R : Z) (q : tickets) : Prop :=
  match r with
  | r_slot idx => idx = slot_of b R 0
  | r_copying idx acc => idx = slot_of b R 0 /\
      exists t v q', q = (t, Some v) :: q' /\ acc = take (length acc) v
  | _ => True
  end.

(** The slots. *)
Record content (b : ft_buffer) (l : list wpc) (R : Z) (q : tickets) : Prop := {
  content_entry j t o : q !! j = Some (t, o) -> entry b l (slot_of b R j) t o;
  content_holds t s : l !! t = Some s -> holds s = true -> exists j, q !! j = Some (t, None);
  content_blank i : 0 <= i < slot_count b -> (forall j, (j < length q)%nat -> slot_of b R j <> i) ->
                    slots b i = SLOT_FREE }.

Record sim (s : ft_sys) (R : Z) (q : tickets) : Prop := {
  sim_shape : shape (buf s) (Z.of_nat (length (ws s)));
  sim_counts : counts (buf s) (ws s) (reader s) R q;
  sim_content : content (buf s) (ws s) R q;
  sim_reading : reading (buf s) (reader s) R q }.

Section Slots.
Context {b : ft_buffer} {k : Z} (Hb : shape b k).

Lemma slot_of_range R j : 0 <= slot_of b R j < slot_count b.
Proof. apply Z.mod_pos_bound, (shape_pos _ _ Hb). Qed.

Lemma slot_of_inj R i j :
  Z.of_nat i < slot_count b -> Z.of_nat j < slot_count b -> slot_of b R i = slot_of b R j -> i = j.
Proof. intros Hi Hj E. pose proof (shape_pos _ _ Hb). apply slot_inj in E; lia. Qed.

Lemma ptr_small i : 0 <= i < slot_count b -> u32 (i * slot_size b) = i * slot_size b.
Proof. intros Hi. destruct Hb. apply u32_id. nia. Qed.

Lemma ptr_slot i : 0 <= i < slot_count b -> u32 (i * slot_size b / slot_size b) = i.
Proof.
  intros Hi. destruct Hb. rewrite Z.div_mul by lia. apply u32_id.
  assert (slot_count b <= slot_count b * slot_size b) by nia. lia.
Qed.

End Slots.

Lemma load_ext m m' a n : (forall i, 0 <= i < n -> m (a + i) = m' (a + i)) -> load m a n = load m' a n.
Proof.
  intros Hm. unfold load. apply map_ext_in. intros i Hi%in_seq. apply Hm. lia.
Qed.

Lemma load_length m a n : 0 <= n -> Z.of_nat (length (load m a n)) = n.
Proof. intros. unfold load. rewrite length_map, length_seq. lia. Qed.

Lemma load_lookup m a n i : 0 <= Z.of_nat i < n -> load m a n !! i = Some (m (a + Z.of_nat i)).
Proof.
  intros Hi. unfold load. change (@map ?A ?B ?f ?l) with (@fmap list _ A B f l).
  rewrite list_lookup_fmap, lookup_seq_lt by lia. done.
Qed.

(** ** The steps preserve the relation *)

Lemma content_moves b l R q t s s' :
  content b l R q -> l !! t = Some s -> holds s = false -> holds s' = false ->
  content b (<[t := s']> l) R q.
Proof.
  intros [He Hh Hk] Ht Hs Hs'. split; [| |done].
  - intros j u o Hj. specialize (He j u o Hj). destruct o as [v|]; [done|]. simpl in *.
    assert (u <> t) by (intros ->; destruct He as [[E _]|[E _]]; simplify_eq/=).
    rewrite list_lookup_insert_ne by done. done.
  - intros u s0 Hu Hs0. apply list_lookup_insert_Some in Hu as [(-> & <- & _)|[? ?]]; [congruence|]. eauto.
Qed.

Lemma content_reserve b l k R q t s :
  shape b k -> content b l R q -> l !! t = Some s -> holds s = false ->
  Z.of_nat (length q) < slot_count b ->
  content b (<[t := w_ticket (slot_of b R (length q))]> l) R (q ++ [(t, None)]).
Proof.
  intros Hb [He Hh Hk] Ht Hs Hq. pose proof (lookup_lt_Some _ _ _ Ht) as Hlt. split.
  - intros j u o Hj. apply lookup_app_Some in Hj as [Hj|[Hle Hj]].
    + specialize (He j u o Hj). destruct o as [v|]; [done|]. simpl in *.
      assert (u <> t) by (intros ->; destruct He as [[E _]|[E _]]; simplify_eq/=).
      rewrite list_lookup_insert_ne by done. done.
    + apply list_lookup_singleton_Some in Hj as [E [= <- <-]]. assert (j = length q) as -> by lia.
      left. rewrite list_lookup_insert_eq by done. split; [done|].
      apply Hk; [apply (slot_of_range Hb)|]. intros i Hi E'. apply (slot_of_inj Hb) in E'; lia.
  - intros u s0 Hu Hs0. apply list_lookup_insert_Some in Hu as [(<- & _ & _)|[? Hu]].
    + exists (length q). by rewrite lookup_app_r, Nat.sub_diag by lia.
    + destruct (Hh u s0 Hu Hs0) as [j Hj]. exists j. by apply lookup_app_l_Some.
  - intros i Hi Hj. apply Hk; [done|]. intros j Hlt'. apply Hj. rewrite length_app. simpl. lia.
Qed.

(** A writer owns the slot of its ticket alone. *)
Lemma entry_owner b l k R q i j t t' :
  shape b k -> content b l R q -> Z.of_nat (length q) <= slot_count b ->
  q !! i = Some (t, None) -> q !! j = Some (t', None) -> t = t' -> i = j.
Proof.
  intros Hb Hc Hq Hi Hj ->. pose proof (content_entry _ _ _ _ Hc _ _ _ Hi) as Ei.
  pose proof (content_entry _ _ _ _ Hc _ _ _ Hj) as Ej. simpl in Ei, Ej.
  apply lookup_lt_Some in Hi, Hj. apply (slot_of_inj Hb R); [lia..|].
  pose proof (shape_size _ _ Hb). destruct Ei as [[Ei _]|[Ei _]], Ej as [[Ej _]|[Ej _]]; rewrite Ei in Ej; simplify_eq; nia.
Qed.

(** The writer of ticket [j] marks its slot. *)
Lemma content_mark b l k R q j t s s' x o :
  shape b k -> Z.of_nat (length q) <= slot_count b -> content b l R q ->
  q !! j = Some (t, None) -> l !! t = Some s -> (holds s' = true -> o = None) ->
  entry (set_slot (slot_of b R j) x b) (<[t := s']> l) (slot_of b R j) t o ->
  content (set_slot (slot_of b R j) x b) (<[t := s']> l) R (<[j := (t, o)]> q).
Proof.
  intros Hb Hq Hc Hj Ht Ho He. pose proof (lookup_lt_Some _ _ _ Hj) as Hlt. split.
  - intros i u p Hi. apply list_lookup_insert_Some in Hi as [(-> & [= <- <-] & _)|[Hne Hi]]; [done|].
    pose proof (content_entry _ _ _ _ Hc _ _ _ Hi) as Ei. pose proof (lookup_lt_Some _ _ _ Hi).
    assert (slot_of b R i <> slot_of b R j) as Hs by (intros E; apply (slot_of_inj Hb) in E; lia).
    change (slot_of (set_slot (slot_of b R j) x b)) with (slot_of b).
    destruct p as [v|]; simpl in *; rewrite (proj2 (Z.eqb_neq _ _)) by done; [done|].
    assert (t <> u) by (intros ->; by pose proof (entry_owner _ _ _ _ _ _ _ _ _ Hb Hc Hq Hj Hi eq_refl)).
    by rewrite list_lookup_insert_ne by done.
  - intros u s0 Hu Hs0. apply list_lookup_insert_Some in Hu as [(<- & -> & _)|[Hne Hu]].
    + exists j. rewrite list_lookup_insert_eq by done. by rewrite Ho.
    + destruct (content_holds _ _ _ _ Hc _ _ Hu Hs0) as [i Hi]. exists i.
      rewrite list_lookup_insert_ne; [done|]. intros ->. congruence.
  - intros i Hi Hblank. rewrite length_insert in Hblank. simpl.
    rewrite (proj2 (Z.eqb_neq _ _)) by (intros ->; by apply (Hblank j)). by apply (content_blank _ _ _ _ Hc).
Qed.

(** A writer stores a byte of its record. *)
Lemma content_fill b l k R q t ptr i x :
  shape b k -> Z.of_nat (length q) <= slot_count b -> content b l R q ->
  l !! t = Some (w_filling ptr) -> 0 <= i < slot_size b -> content (store_byte (ptr + i) x b) l R q.
Proof.
  intros Hb Hq Hc Ht Hi. destruct (content_holds _ _ _ _ Hc _ _ Ht eq_refl) as [j Hj].
  pose proof (content_entry _ _ _ _ Hc _ _ _ Hj) as [[? _]|[E Hbusy]]; [congruence|].
  rewrite Ht in E. injection E as ->. split; [|apply (content_holds _ _ _ _ Hc)|apply (content_blank _ _ _ _ Hc)].
  intros j' u o Hj'. pose proof (content_entry _ _ _ _ Hc _ _ _ Hj') as Ee. destruct o as [v|]; [|done].
  destruct Ee as [Hr <-]. split; [done|]. simpl. apply load_ext. intros i' Hi'.
  change (slot_of (store_byte _ x b)) with (slot_of b).
  destruct (Z.eqb_spec (slot_of b R j' * slot_size b + i') (slot_of b R j * slot_size b + i)) as [E|]; [|done].
  assert (slot_of b R j' = slot_of b R j) as Es by nia. unfold SLOT_READY, SLOT_BUSY in *. congruence.
Qed.

Lemma slot_of_succ b R j : slot_of b (R + 1) j = slot_of b R (S j).
Proof. unfold slot_of. f_equal. lia. Qed.

(** The reader frees the slot of the oldest ticket. *)
Lemma content_pop b l k R t v q :
  shape b k -> Z.of_nat (S (length q)) <= slot_count b -> content b l R ((t, Some v) :: q) ->
  content (set_slot (slot_of b R 0) SLOT_FREE b) l (R + 1) q.
Proof.
  intros Hb Hq Hc. split.
  - intros j u o Hj. pose proof (lookup_lt_Some _ _ _ Hj).
    pose proof (content_entry _ _ _ _ Hc (S j) u o Hj) as He.
    assert (slot_of b R (S j) <> slot_of b R 0) as Hs by (intros E; apply (slot_of_inj Hb) in E; lia).
    change (slot_of (set_slot (slot_of b R 0) SLOT_FREE b)) with (slot_of b). rewrite slot_of_succ.
    destruct o as [w|]; simpl in *; by rewrite (proj2 (Z.eqb_neq _ _)) by done.
  - intros u s Hu Hs. destruct (content_holds _ _ _ _ Hc _ _ Hu Hs) as [[|j] Hj]; [done|]. by exists j.
  - intros i Hi Hblank. simpl. destruct (Z.eqb_spec i (slot_of b R 0)) as [|Hne]; [done|].
    apply (content_blank _ _ _ _ Hc); [done|]. intros [|j] Hj; [congruence|].
    rewrite <- slot_of_succ. apply Hblank. simpl in Hj. lia.
Qed.

(** Only the fields read by a part of the relation matter to it. *)
Lemma shape_cong b b' k : shape b k -> slot_count b' = slot_count b -> slot_size b' = slot_size b -> shape b' k.
Proof. intros [] E1 E2. split; by rewrite ?E1, ?E2. Qed.

Lemma content_cong b b' l R q :
  content b l R q -> slot_count b' = slot_count b -> slot_size b' = slot_size b ->
  slots b' = slots b -> buffer_mem b' = buffer_mem b -> content b' l R q.
Proof.
  intros [He Hh Hk] E1 E2 E3 E4. assert (slot_of b' = slot_of b) as E5 by (unfold slot_of; by rewrite E1).
  split; unfold entry in *; rewrite ?E1, ?E2, ?E3, ?E4, ?E5; done.
Qed.

Lemma granted_range s : 0 <= granted s <= credit s.
Proof. destruct s; simpl; try lia. destruct (0 <? _); lia. Qed.

Lemma credit_range s : 0 <= credit s <= 1.
Proof. destruct s; simpl; lia. Qed.

Lemma granted_total l : 0 <= total granted l.
Proof. apply total_nonneg. intros s. apply granted_range. Qed.

Lemma lag_range r : 0 <= lag r <= 1.
Proof. destruct r; simpl; lia. Qed.

Lemma reading_app b r R q q' : reading b r R q -> reading b r R (q ++ q').
Proof. destruct r; simpl; try done. intros [-> (t & v & q0 & -> & Ha)]. split; [done|]. by exists t, v, (q0 ++ q'). Qed.

Lemma reading_insert b r R q j t v :
  q !! j = Some (t, None) -> reading b r R q -> reading b r R (<[j := (t, Some v)]> q).
Proof.
  destruct r; simpl; try done. intros Hj [-> (u & w & q0 & -> & Ha)]. split; [done|].
  destruct j as [|j]; [done|]. by exists u, w, (<[j := (t, Some v)]> q0).
Qed.

Section Steps.
Context (b : ft_buffer) (l : list wpc) (r : rpc) (R : Z) (q : tickets).
Hypothesis Hsim : sim (mk_ft_sys b l r) R q.

Lemma sim_room : Z.of_nat (length q) + lag r + total granted l <= slot_count b.
Proof. apply (counts_room _ _ _ _ _ (sim_counts _ _ _ Hsim)). Qed.

Lemma tickets_fit : Z.of_nat (length q) <= slot_count b.
Proof. pose proof sim_room. pose proof (granted_total l). pose proof (lag_range r). lia. Qed.

(** [free_count] stays away from the ends of the [int] range. *)
Lemma free_range : - 2147483648 < free_count b < 2147483647.
Proof.
  destruct (sim_shape _ _ _ Hsim) as [? ? ? ? ?]. pose proof tickets_fit. pose proof (lag_range r).
  pose proof (counts_free _ _ _ _ _ (sim_counts _ _ _ Hsim)) as E; simpl in *.
  assert (0 <= total credit l <= Z.of_nat (length l)); [|lia]. split.
  - apply total_nonneg. apply credit_range.
  - apply total_length. apply credit_range.
Qed.

(** A step of a writer that changes counters only and neither takes nor gives up
    a ticket. *)
Lemma sim_counters b' t s s' :
  l !! t = Some s -> holds s = false -> holds s' = false ->
  slot_count b' = slot_count b -> slot_size b' = slot_size b -> slots b' = slots b ->
  buffer_mem b' = buffer_mem b -> read_idx b' = read_idx b -> write_idx b' = write_idx b ->
  free_count b' = free_count b + credit s - credit s' ->
  granted s' - granted s <= slot_count b - (Z.of_nat (length q) + lag r + total granted l) ->
  sim (mk_ft_sys b' (<[t := s']> l) r) R q.
Proof.
  intros Ht Hs Hs' E1 E2 E3 E4 E5 E6 E7 Hg. destruct Hsim as [Hb [Cr Cw Cf Cc] Hc Hr]; simpl in *.
  split; simpl.
  - rewrite length_insert. by apply (shape_cong b).
  - split; rewrite ?E1, ?E5, ?E6, ?E7, ?(total_insert _ _ _ _ _ Ht); [done..| |]; lia.
  - apply (content_cong b); [|done..]. by eapply content_moves.
  - unfold reading, slot_of in *. by rewrite E1.
Qed.

End Steps.

Definition simulates (n : Z) (R : Z) (q : tickets) (e : event) (s' : ft_sys) : Prop :=
  exists q' R', q_step n q e q' /\ sim s' R' q' /\ slot_count (buf s') = n.

Section WriterSteps.
Context (b : ft_buffer) (l : list wpc) (r : rpc) (R : Z) (q : tickets) (t : nat).
Hypothesis Hsim : sim (mk_ft_sys b l r) R q.

Lemma sim_credit b' s' e :
  l !! t = Some w_idle -> writer_step t b w_idle = (b', s', e) ->
  simulates (slot_count b) R q e (mk_ft_sys b' (<[t := s']> l) r).
Proof.
  intros Ht. cbn [writer_step]. pose proof (free_range _ _ _ _ _ Hsim). rewrite fetch_and_dec_small by lia.
  intros [= <- <- <-]. exists q, R. split_and!; [constructor| |done].
  eapply sim_counters; eauto; simpl; try lia.
  destruct (sim_counts _ _ _ Hsim) as [_ _ Cf _]; simpl in *.
  assert (total granted l <= total credit l) by (apply total_mono; apply granted_range).
  destruct (Z.ltb_spec 0 (free_count b)); pose proof (sim_room _ _ _ _ _ Hsim); lia.
Qed.

Lemma sim_granted free b' s' e :
  l !! t = Some (w_credit free) -> writer_step t b (w_credit free) = (b', s', e) ->
  simulates (slot_count b) R q e (mk_ft_sys b' (<[t := s']> l) r).
Proof.
  intros Ht. cbn [writer_step]. destruct (Z.leb_spec free 0) as [Hf|Hf].
  - pose proof (free_range _ _ _ _ _ Hsim). rewrite fetch_and_inc_small by lia.
    intros [= <- <- <-]. exists q, R. split_and!; [constructor| |done].
    eapply sim_counters; eauto; simpl; try lia. rewrite (proj2 (Z.ltb_ge 0 free)) by done.
    pose proof (sim_room _ _ _ _ _ Hsim). lia.
  - pose proof (tickets_fit _ _ _ _ _ Hsim). destruct Hsim as [Hb [Cr Cw Cf Cc] Hc Hr]; cbn [buf ws reader] in *.
    pose proof (fetch_and_inc_u32 (R + Z.of_nat (length q))) as [E1 E2]. rewrite <- Cw in E1, E2.
    destruct (fetch_and_inc (write_idx b)) as [i c]; simpl in *. intros [= <- <- <-].
    assert (0 < granted (w_credit free)) as Hg by (simpl; destruct (Z.ltb_spec 0 free); lia).
    pose proof (total_insert granted l t (w_credit free) w_idle Ht) as Et.
    change (granted w_idle) with 0 in Et.
    pose proof (granted_total (<[t:=w_idle]> l)). pose proof (lag_range r).
    exists (q ++ [(t, None)]), R. split_and!; [constructor; lia| |done].
    rewrite E1, Cw, slot_wraps by apply Hb. fold (slot_of b R (length q)).
    split; simpl; [rewrite length_insert; by apply (shape_cong b)| | |].
    + split; simpl; rewrite ?length_app, ?(total_insert _ _ _ _ _ Ht); simpl; [done| | |].
      * rewrite E2. f_equal. lia.
      * lia.
      * simpl granted in Hg. lia.
    + apply (content_cong b); [|done..]. eapply content_reserve; eauto. lia.
    + by apply reading_app.
Qed.

Lemma sim_refused b' s' e :
  l !! t = Some w_refused -> writer_step t b w_refused = (b', s', e) ->
  simulates (slot_count b) R q e (mk_ft_sys b' (<[t := s']> l) r).
Proof.
  intros Ht [= <- <- <-]. exists q, R. split_and!; [constructor| |done].
  eapply sim_counters; eauto; simpl; try lia. pose proof (sim_room _ _ _ _ _ Hsim). lia.
Qed.

(** The writer with ticket [j] changes its slot only. *)
Lemma sim_mark j s s' x o :
  l !! t = Some s -> q !! j = Some (t, None) -> credit s = 0 -> granted s = 0 -> credit s' = 0 ->
  granted s' = 0 -> (holds s' = true -> o = None) ->
  entry (set_slot (slot_of b R j) x b) (<[t := s']> l) (slot_of b R j) t o ->
  reading b r R (<[j := (t, o)]> q) ->
  sim (mk_ft_sys (set_slot (slot_of b R j) x b) (<[t := s']> l) r) R (<[j := (t, o)]> q).
Proof.
  intros Ht Hj C1 C2 C3 C4 Ho He Hr. pose proof (tickets_fit _ _ _ _ _ Hsim) as Hq.
  destruct Hsim as [Hb [Cr Cw Cf Cc] Hc _]; simpl in *. split; simpl.
  - rewrite length_insert. by apply (shape_cong b).
  - split; simpl; rewrite ?length_insert, ?(total_insert _ _ _ _ _ Ht); [done..|lia|lia].
  - by eapply content_mark.
  - done.
Qed.

Lemma sim_busy idx b' s' e :
  l !! t = Some (w_ticket idx) -> writer_step t b (w_ticket idx) = (b', s', e) ->
  simulates (slot_count b) R q e (mk_ft_sys b' (<[t := s']> l) r).
Proof.
  intros Ht [= <- <- <-]. pose proof (sim_shape _ _ _ Hsim) as Hb. pose proof (sim_content _ _ _ Hsim) as Hc.
  simpl in *. destruct (content_holds _ _ _ _ Hc _ _ Ht eq_refl) as [j Hj].
  pose proof (content_entry _ _ _ _ Hc _ _ _ Hj) as [[E _]|[? _]]; [|congruence].
  rewrite Ht in E. injection E as ->. exists q, R. split_and!; [constructor| |done].
  rewrite (ptr_small Hb) by apply (slot_of_range Hb).
  rewrite <- (list_insert_id q j (t, None)) by done.
  eapply sim_mark; eauto.
  - right. simpl. rewrite list_lookup_insert_eq, Z.eqb_refl by (by eapply lookup_lt_Some). done.
  - rewrite list_insert_id by done. apply Hsim.
Qed.

Lemma sim_publish ptr b' s' e :
  l !! t = Some (w_filling ptr) -> writer_step t b (w_filling ptr) = (b', s', e) ->
  simulates (slot_count b) R q e (mk_ft_sys b' (<[t := s']> l) r).
Proof.
  intros Ht [= <- <- <-]. pose proof (sim_shape _ _ _ Hsim) as Hb. pose proof (sim_content _ _ _ Hsim) as Hc.
  simpl in *. destruct (content_holds _ _ _ _ Hc _ _ Ht eq_refl) as [j Hj].
  pose proof (content_entry _ _ _ _ Hc _ _ _ Hj) as [[? _]|[E _]]; [congruence|].
  rewrite Ht in E. injection E as ->. unfold ft_buffer_finish_write.
  rewrite (ptr_slot Hb) by apply (slot_of_range Hb).
  eexists (<[j := (t, Some _)]> q), R. split_and!; [| |done].
  - rewrite insert_take_drop by (by eapply lookup_lt_Some).
    rewrite <- (take_drop_middle q j _ Hj) at 1. constructor.
  - eapply sim_mark; eauto; [done| |].
    + split; [|done]. simpl. by rewrite Z.eqb_refl.
    + apply reading_insert; [done|]. apply Hsim.
Qed.

Lemma writer_sim s b' s' e :
  l !! t = Some s -> writer_step t b s = (b', s', e) ->
  simulates (slot_count b) R q e (mk_ft_sys b' (<[t := s']> l) r).
Proof.
  destruct s; [apply sim_credit|apply sim_granted|apply sim_refused|apply sim_busy|apply sim_publish].
Qed.

Lemma fill_sim ptr i x :
  l !! t = Some (w_filling ptr) -> 0 <= i < slot_size b ->
  simulates (slot_count b) R q e_tau (mk_ft_sys (store_byte (ptr + i) x b) l r).
Proof.
  intros Ht Hi. exists q, R. split_and!; [constructor| |done]. pose proof (tickets_fit _ _ _ _ _ Hsim) as Hq.
  destruct Hsim as [Hb [Cr Cw Cf Cc] Hc Hr]; simpl in *. split; simpl.
  - by apply (shape_cong b).
  - by split.
  - by eapply content_fill.
  - done.
Qed.

End WriterSteps.

(** A step of the reader that leaves the tickets alone. *)
Lemma sim_reader b l R q b' r r' :
  sim (mk_ft_sys b l r) R q -> slot_count b' = slot_count b -> slot_size b' = slot_size b ->
  slots b' = slots b -> buffer_mem b' = buffer_mem b -> write_idx b' = write_idx b ->
  read_idx b' = u32 (R - behind r') -> free_count b' = free_count b + lag r - lag r' ->
  lag r' <= lag r -> reading b r' R q -> sim (mk_ft_sys b' l r') R q.
Proof.
  intros [Hb [Cr Cw Cf Cc] Hc Hr] E1 E2 E3 E4 E5 E6 E7 Hlag Hread; simpl in *. split; simpl.
  - by apply (shape_cong b).
  - split; rewrite ?E1, ?E5, ?E6, ?E7; [done..|lia|lia].
  - by apply (content_cong b).
  - unfold reading, slot_of in *. by rewrite E1.
Qed.

Lemma sim_look b l R q b' r' e :
  sim (mk_ft_sys b l r_idle) R q -> reader_step b r_idle = (b', r', e) ->
  simulates (slot_count b) R q e (mk_ft_sys b' l r').
Proof.
  intros Hsim. simpl. pose proof (sim_counts _ _ _ Hsim) as [Cr _ _ _]; simpl in *.
  destruct (_ =? _); intros [= <- <- <-]; exists q, R; (split_and!; [constructor| |done]); [done|].
  eapply sim_reader; eauto; simpl; try lia. rewrite Cr, Z.sub_0_r, slot_wraps by apply Hsim.
  unfold slot_of. f_equal. simpl. lia.
Qed.

(** A slot that reads ready at the head is the published record of the oldest
    ticket. *)
Lemma ready_head b l R q k :
  shape b k -> content b l R q -> slots b (slot_of b R 0) = SLOT_READY ->
  exists t q', q = (t, Some (load (buffer_mem b) (slot_of b R 0 * slot_size b) (slot_size b))) :: q'.
Proof.
  intros Hb Hc Hs. destruct q as [|[t o] q'].
  - rewrite (content_blank _ _ _ _ Hc) in Hs; [done|apply (slot_of_range Hb)|simpl; lia].
  - pose proof (content_entry _ _ _ _ Hc 0%nat t o eq_refl) as He. destruct o as [v|].
    + destruct He as [_ <-]. eauto.
    + unfold SLOT_READY in Hs. destruct He as [[_ E]|[_ E]]; rewrite E in Hs; done.
Qed.

Lemma sim_check b l R q idx b' r' e :
  sim (mk_ft_sys b l (r_slot idx)) R q -> reader_step b (r_slot idx) = (b', r', e) ->
  simulates (slot_count b) R q e (mk_ft_sys b' l r').
Proof.
  intros Hsim. simpl. pose proof (sim_counts _ _ _ Hsim) as [Cr _ _ _]; simpl in *.
  pose proof (sim_reading _ _ _ Hsim) as E; simpl in E. subst idx.
  destruct (Z.eqb_spec (slots b (slot_of b R 0)) SLOT_READY) as [Hs|_]; intros [= <- <- <-];
    exists q, R; (split_and!; [constructor| |done]); eapply sim_reader; eauto; simpl; try lia; try done.
  destruct (ready_head _ _ _ _ _ (sim_shape _ _ _ Hsim) (sim_content _ _ _ Hsim) Hs) as (t & q' & Eq).
  split; [done|]. eauto 6.
Qed.

Lemma sim_copy b l R q idx acc b' r' e :
  sim (mk_ft_sys b l (r_copying idx acc)) R q -> reader_step b (r_copying idx acc) = (b', r', e) ->
  simulates (slot_count b) R q e (mk_ft_sys b' l r').
Proof.
  intros Hsim. simpl. pose proof (tickets_fit _ _ _ _ _ Hsim) as Hq.
  pose proof Hsim as [Hb [Cr Cw Cf Cc] Hc (-> & t & v & q' & -> & Ha)]; simpl in *.
  pose proof (content_entry _ _ _ _ Hc 0%nat t (Some v) eq_refl) as [Hs Hv].
  pose proof (shape_size _ _ Hb) as Hz. pose proof (slot_of_range Hb R 0) as Hi.
  destruct (Z.ltb_spec (Z.of_nat (length acc)) (slot_size b)) as [Hl|Hl]; intros [= <- <- <-].
  - exists ((t, Some v) :: q'), R. split_and!; [constructor| |done].
    eapply sim_reader; eauto; simpl; try lia. split; [done|]. exists t, v, q'. split; [done|].
    rewrite length_app, (ptr_small Hb) by done. simpl. rewrite Nat.add_1_r.
    rewrite <- Hv at 1. erewrite take_S_r; [|by apply load_lookup; lia]. by rewrite Hv, <- Ha.
  - assert (acc = v) as ->.
    { rewrite Ha. apply take_ge. pose proof (load_length (buffer_mem b) (slot_of b R 0 * slot_size b) (slot_size b)).
      rewrite Hv in *. lia. }
    exists q', (R + 1). split_and!; [constructor| |done]. split; simpl.
    + by apply (shape_cong b).
    + split; simpl; [rewrite Cr; f_equal; lia|rewrite Cw; f_equal; lia|lia..].
    + by eapply content_pop.
    + done.
Qed.

Lemma reader_sim b l R q r b' r' e :
  sim (mk_ft_sys b l r) R q -> reader_step b r = (b', r', e) ->
  simulates (slot_count b) R q e (mk_ft_sys b' l r').
Proof.
  destruct r as [|idx|idx acc| |]; [apply sim_look|apply sim_check|apply sim_copy| |];
    intros Hsim [= <- <- <-]; exists q, R; (split_and!; [constructor| |done]);
    pose proof (sim_counts _ _ _ Hsim) as [Cr _ _ _]; simpl in Cr.
  - eapply sim_reader; eauto; simpl; try lia. rewrite Cr, u32_add_l. f_equal. lia.
  - pose proof (free_range _ _ _ _ _ Hsim).
    assert (s32 (free_count b + 1) = free_count b + 1) by (apply s32_small; change (two32 / 2) with 2147483648; lia).
    eapply sim_reader; eauto; simpl; lia.
Qed.

Lemma step_sim s R q e s' : sim s R q -> ft_step s e s' -> simulates (slot_count (buf s)) R q e s'.
Proof.
  intros Hs Hstep. destruct Hstep.
  - by eapply writer_sim.
  - by eapply fill_sim.
  - by eapply reader_sim.
Qed.

Lemma ft_exec_run sched s : ft_run s (ft_exec sched s).1 (ft_exec sched s).2.
Proof.
  unfold ft_exec. induction sched as [|who sched IH] using rev_ind; [constructor|].
  rewrite foldl_snoc. destruct (foldl _ _ sched) as [es s']; simpl in *.
  destruct who as [t|]; simpl.
  - destruct (ws s' !! t) as [w|] eqn:Ew; [|by rewrite app_nil_r].
    destruct (writer_step t (buf s') w) as [[b' w'] e] eqn:E. destruct s' as [b l r]; simpl in *.
    econstructor; [done|]. by econstructor.
  - destruct (reader_step (buf s') (reader s')) as [[b' r'] e] eqn:E. destruct s' as [b l r]; simpl in *.
    econstructor; [done|]. by econstructor.
Qed.

(** ** Initialisation *)

(** [k] idle writers and an idle reader. *)
Definition quiet_sys (b : ft_buffer) (k : nat) : ft_sys := mk_ft_sys b (replicate k w_idle) r_idle.

Lemma init_ft_buffer_some count size sl m b :
  0 <= count < two32 -> init_ft_buffer count size sl m = Some b ->
  0 < count /\ (count | two32) /\ slot_count b = count /\ slot_size b = size /\ write_idx b = 0 /\
  read_idx b = 0 /\ free_count b = s32 count /\ (forall i, 0 <= i < count -> slots b i = SLOT_FREE).
Proof.
  intros Hc. unfold init_ft_buffer. destruct (Z.eqb_spec count 0) as [|H0]; [done|]. simpl.
  rewrite (u32_id (count - 1)) by lia.
  destruct (Z.eqb_spec (UINT_MAX `mod` count) (count - 1)) as [E|]; [|done]. intros [= <-]. simpl.
  split_and!; try done; [lia| |].
  - apply Z.mod_divide; [lia|]. change two32 with (UINT_MAX + 1).
    rewrite Zplus_mod, E, Zplus_mod_idemp_r. replace (count - 1 + 1) with count by lia. apply Z_mod_same_full.
  - intros i [H1 H2]. apply Z.leb_le in H1. apply Z.ltb_lt in H2. by rewrite H1, H2.
Qed.

Lemma total_idle (f : wpc -> Z) k : f w_idle = 0 -> total f (replicate k w_idle) = 0.
Proof. intros Hf. unfold total, sum_Z. induction k; csimpl; lia. Qed.

Lemma init_sim count size sl m b k :
  0 <= count < two32 -> init_ft_buffer count size sl m = Some b -> count + Z.of_nat k < 2147483647 ->
  0 < size -> count * size <= two32 -> sim (quiet_sys b k) 0 [].
Proof.
  intros Hc Hi Hk Hs Hm. apply init_ft_buffer_some in Hi as (H1 & H2 & E1 & E2 & E3 & E4 & E5 & H3); [|done].
  split; simpl.
  - rewrite length_replicate. by split; rewrite ?E1, ?E2.
  - split; simpl; rewrite ?E1, ?E3, ?E4, ?E5, ?total_idle by done; [done..| |lia].
    rewrite s32_small by (change (two32 / 2) with 2147483648; lia). lia.
  - split; [done| |].
    + intros t s Ht Hh. apply lookup_replicate in Ht as [-> _]. done.
    + intros i Hi _. rewrite E1 in Hi. auto.
  - done.
Qed.

(** C13: The lock-free trace buffer refines a bounded queue of tickets.  Start
    from a buffer that [init_ft_buffer] accepts, with records that fit into 32-bit
    addresses, shared by [k] writers and one reader.  Then whatever the
    interleaving of their accesses to shared memory - including writers that are
    refused, and indices that wrap around - what an observer sees is a run of the
    ticket queue: at most [slot_count] tickets are out, each writer fills its own,
    and the records are read in the order of the tickets, each once and only
    after it was published in full. *)
Theorem ft_buffer_refines count size sl m b k es s :
  0 <= count < two32 -> init_ft_buffer count size sl m = Some b -> count + Z.of_nat k < 2147483647 ->
  0 < size -> count * size <= two32 -> ft_run (quiet_sys b k) es s -> exists q, q_run count [] es q.
Proof.
  intros Hc Hi Hk Hs Hm Hrun. pose proof (init_sim _ _ _ _ _ _ Hc Hi Hk Hs Hm) as H0.
  apply init_ft_buffer_some in Hi as (_ & _ & E & _); [|done].
  enough (exists q R, q_run count [] es q /\ sim s R q /\ slot_count (buf s) = count) by naive_solver.
  remember (quiet_sys b k) as s0 eqn:E0. induction Hrun as [s|s es s1 e s2 Hrun IH Hstep]; subst.
  - exists [], 0. split_and!; [constructor|done|done].
  - destruct (IH eq_refl H0) as (q & R & Hq & Hsim & En).
    destruct (step_sim _ _ _ _ _ Hsim Hstep) as (q' & R' & Hstep' & Hsim' & En').
    rewrite En in *. exists q', R'. split_and!; [by econstructor|done|done].
Qed.

(** ** Without interleaving: a bounded FIFO *)

(** The three accesses of [ft_buffer_start_write], one after the other. *)
Lemma start_write_steps t b b1 s1 e1 b2 s2 e2 b3 s3 e3 :
  writer_step t b w_idle = (b1, s1, e1) -> writer_step t b1 s1 = (b2, s2, e2) ->
  writer_step t b2 s2 = (b3, s3, e3) ->
  ft_buffer_start_write b = (b3, match s3 with w_filling ptr => Some ptr | _ => None end).
Proof.
  unfold ft_buffer_start_write. cbn [writer_step]. destruct (fetch_and_dec (free_count b)) as [free c].
  intros [= <- <- <-]. cbn [writer_step]. destruct (free <=? 0).
  - intros [= <- <- <-] [= <- <- <-]. done.
  - intros [= <- <- <-] [= <- <- <-]. done.
Qed.

(** A writer stores the record [v] at [a]. *)
Fixpoint store_bytes (a : Z) (v : list byte) (b : ft_buffer) : ft_buffer :=
  match v with
  | [] => b
  | x :: v => store_bytes (a + 1) v (store_byte a x b)
  end.

(** A trace event: reserve, fill, publish; [false] when the buffer is full. *)
Definition log_record (v : list byte) (b : ft_buffer) : ft_buffer * bool :=
  match ft_buffer_start_write b with
  | (b, Some ptr) => (ft_buffer_finish_write ptr (store_bytes ptr v b), true)
  | (b, None) => (b, false)
  end.

Lemma store_bytes_size v : forall a b, slot_size (store_bytes a v b) = slot_size b.
Proof. induction v as [|x v IH]; intros a b; simpl; [done|]. by rewrite IH. Qed.

Lemma store_bytes_below v : forall a b i, i < a -> buffer_mem (store_bytes a v b) i = buffer_mem b i.
Proof.
  induction v as [|x v IH]; intros a b i Hi; simpl; [done|]. rewrite IH by lia. simpl.
  by rewrite (proj2 (Z.eqb_neq i a)) by lia.
Qed.

Lemma load_store_bytes v : forall a b, load (buffer_mem (store_bytes a v b)) a (Z.of_nat (length v)) = v.
Proof.
  induction v as [|x v IH]; intros a b; [done|]. unfold load. rewrite Nat2Z.id. simpl. f_equal.
  - rewrite Z.add_0_r, store_bytes_below by lia. simpl. by rewrite Z.eqb_refl.
  - rewrite <- seq_shift, map_map. etrans; [|apply (IH (a + 1) (store_byte a x b))]. unfold load.
    rewrite Nat2Z.id. apply map_ext. intros i. f_equal. lia.
Qed.

Lemma store_bytes_sim v : forall l r R q t ptr i b,
  sim (mk_ft_sys b l r) R q -> l !! t = Some (w_filling ptr) -> 0 <= i ->
  i + Z.of_nat (length v) <= slot_size b ->
  exists R', sim (mk_ft_sys (store_bytes (ptr + i) v b) l r) R' q.
Proof.
  induction v as [|x v IH]; intros l r R q t ptr i b Hs Ht Hi Hv; simpl in *; [eauto|].
  destruct (fill_sim _ _ _ _ _ _ Hs ptr i x Ht) as (q' & R' & Hq & Hs' & _); [lia|].
  inversion Hq; subst. replace (ptr + i + 1) with (ptr + (i + 1)) by lia.
  eapply (IH l r R' q' t); [done|done|lia|simpl; lia].
Qed.

(** The buffer is not being accessed and holds the records [vs], oldest first. *)
Definition records (b : ft_buffer) (vs : list (list byte)) : Prop :=
  exists R, sim (quiet_sys b 1) R (map (fun v => (0%nat, Some v)) vs).

Lemma publish_last n (q : tickets) t v q' :
  Forall (fun e => is_Some e.2) q -> q_step n (q ++ [(t, None)]) (e_publish t v) q' -> q' = q ++ [(t, Some v)].
Proof.
  intros Hq Hs. inversion Hs as [| |q1 t0 v0 q2 E|]; subst. destruct q2 as [|x q2 _] using rev_ind.
  - apply app_inj_2 in E as [-> _]; [done|done].
  - replace (q1 ++ (t, None) :: q2 ++ [x]) with ((q1 ++ (t, None) :: q2) ++ [x]) in E
      by (by rewrite <- app_assoc).
    apply app_inj_2 in E as [<- _]; [|done]. apply Forall_app in Hq as [_ Hq].
    apply Forall_cons in Hq as [[? ?] _]. done.
Qed.

Lemma writer_refuse t b free :
  free <= 0 -> writer_step t b (w_credit free) =
  (set_free_count (fetch_and_inc (free_count b)).2 b, w_refused, e_tau).
Proof. intros H%Z.leb_le. cbn [writer_step]. by rewrite H. Qed.

Lemma writer_accept t b free :
  0 < free -> writer_step t b (w_credit free) =
  (set_write_idx (u32 (fetch_and_inc (write_idx b)).2) b,
   w_ticket (u32 (fetch_and_inc (write_idx b)).1 `mod` slot_count b), e_reserve t).
Proof. intros H%Z.leb_gt. cbn [writer_step]. by rewrite H. Qed.

Section Fifo.
Context (b : ft_buffer) (vs : list (list byte)).
Hypothesis Hrec : records b vs.

Lemma records_free : free_count b = slot_count b - Z.of_nat (length vs).
Proof.
  destruct Hrec as [R Hs]. destruct (sim_counts _ _ _ Hs) as [_ _ E _]. simpl in E.
  rewrite length_map in E. change (total credit [w_idle]) with 0 in E. lia.
Qed.

Lemma records_bound : 0 < slot_count b < 2147483647 /\ Z.of_nat (length vs) <= slot_count b.
Proof.
  destruct Hrec as [R Hs]. destruct (sim_shape _ _ _ Hs) as [? _ ? _ _]. simpl in *.
  pose proof (tickets_fit _ _ _ _ _ Hs) as Hq. rewrite length_map in Hq. lia.
Qed.

(** A writer that takes a credit sees the number of free slots. *)
Lemma records_dec : exists c, writer_step 0 b w_idle = (set_free_count c b, w_credit (free_count b), e_tau).
Proof.
  cbn [writer_step]. rewrite fetch_and_dec_small; [eauto|].
  rewrite records_free. pose proof records_bound. lia.
Qed.

Lemma log_full v :
  Z.of_nat (length vs) = slot_count b -> exists b', log_record v b = (b', false) /\ records b' vs /\
  failed_writes b' = u32 (failed_writes b + 1).
Proof.
  intros Hfull. pose proof records_free as Hf. pose proof records_dec as Ed. destruct Hrec as [R Hs].
  destruct Ed as [c E0]. destruct (sim_credit _ _ _ _ _ 0%nat Hs _ _ _ eq_refl E0) as (q1 & R1 & H1 & S1 & Eb).
  assert (writer_step 0 (set_free_count c b) (w_credit (free_count b)) = _) as E by (apply writer_refuse; lia).
  destruct (writer_sim _ _ _ _ _ 0%nat S1 _ _ _ _ eq_refl E) as (q2 & R2 & H2 & S2 & _).
  destruct (writer_sim _ _ _ _ _ 0%nat S2 _ _ _ _ eq_refl eq_refl) as (q3 & R3 & H3 & S3 & _).
  inversion H1; inversion H2; inversion H3; subst. eexists. split_and!; [|by exists R3|].
  - unfold log_record. by rewrite (start_write_steps 0 b _ _ _ _ _ _ _ _ _ E0 E eq_refl).
  - simpl. by rewrite u32_s32.
Qed.

Lemma log_room v :
  Z.of_nat (length vs) < slot_count b -> Z.of_nat (length v) = slot_size b ->
  exists b', log_record v b = (b', true) /\ records b' (vs ++ [v]).
Proof.
  intros Hroom Hv. pose proof records_free as Hf. pose proof records_dec as Ed. destruct Hrec as [R Hs].
  destruct Ed as [c E0]. destruct (sim_credit _ _ _ _ _ 0%nat Hs _ _ _ eq_refl E0) as (q1 & R1 & H1 & S1 & Eb).
  assert (writer_step 0 (set_free_count c b) (w_credit (free_count b)) = _) as E by (apply writer_accept; lia).
  destruct (writer_sim _ _ _ _ _ 0%nat S1 _ _ _ _ eq_refl E) as (q2 & R2 & H2 & S2 & _).
  destruct (writer_sim _ _ _ _ _ 0%nat S2 _ _ _ _ eq_refl eq_refl) as (q3 & R3 & H3 & S3 & _).
  inversion H1; inversion H3; subst q1 q3. clear H1 H3.
  inversion H2 as [|? ? _|? ? ? ?|]; subst q2.
  eapply (store_bytes_sim v) with (t := 0%nat) (i := 0) in S3 as [R4 S4]; [|done|lia|simpl; lia].
  rewrite Z.add_0_r in S4.
  destruct (writer_sim _ _ _ _ _ 0%nat S4 _ _ _ _ eq_refl eq_refl) as (q5 & R5 & H5 & S5 & _).
  eexists. split.
  - unfold log_record. by rewrite (start_write_steps 0 b _ _ _ _ _ _ _ _ _ E0 E eq_refl).
  - exists R5. apply publish_last in H5.
    + rewrite store_bytes_size in H5. cbn [slot_size set_slot set_write_idx set_free_count] in H5.
      rewrite <- Hv, load_store_bytes in H5. rewrite H5 in S5. by rewrite map_app.
    + apply Forall_map, Forall_true. simpl. eauto.
Qed.

End Fifo.

Lemma read_empty b : records b [] -> ft_buffer_read b = (b, None).
Proof.
  intros Hrec. pose proof (records_free _ _ Hrec) as E. pose proof (records_bound _ _ Hrec).
  unfold ft_buffer_read. rewrite u32_id by (simpl in E; unfold two32; lia).
  by rewrite (proj2 (Z.eqb_eq _ _)) by (simpl in E; lia).
Qed.

(** What the reader finds in a buffer that holds a record. *)
Lemma records_head b v vs R :
  sim (quiet_sys b 1) R (map (fun v => (0%nat, Some v)) (v :: vs)) ->
  u32 (free_count b) <> slot_count b /\ read_idx b `mod` slot_count b = slot_of b R 0 /\
  slots b (slot_of b R 0) = SLOT_READY /\
  load (buffer_mem b) (u32 (slot_of b R 0 * slot_size b)) (slot_size b) = v.
Proof.
  intros Hs. assert (records b (v :: vs)) as Hrec by (by exists R).
  pose proof (records_free _ _ Hrec) as E. pose proof (records_bound _ _ Hrec) as [? ?]. simpl in E.
  pose proof (sim_shape _ _ _ Hs) as Hb. destruct (sim_counts _ _ _ Hs) as [Cr _ _ _]. simpl in *.
  destruct (content_entry _ _ _ _ (sim_content _ _ _ Hs) 0%nat 0%nat (Some v) eq_refl) as [Hr Hv].
  rewrite (ptr_small Hb) by apply (slot_of_range Hb). split_and!; [|rewrite Cr, slot_wraps by apply Hb|done..].
  - rewrite u32_id by (unfold two32; lia). lia.
  - unfold slot_of. by f_equal.
Qed.

Lemma read_first b v vs :
  records b (v :: vs) -> exists b', ft_buffer_read b = (b', Some v) /\ records b' vs.
Proof.
  intros Hrec. pose proof (records_free _ _ Hrec) as Ef. pose proof (records_bound _ _ Hrec) as [? ?]. simpl in *.
  destruct Hrec as [R Hs]. destruct (records_head _ _ _ _ Hs) as (E1 & E2 & E3 & E4).
  unfold ft_buffer_read. rewrite (proj2 (Z.eqb_neq _ _)) by done. rewrite E2, E3, E4. simpl.
  rewrite s32_small by (change (two32 / 2) with 2147483648; lia). eexists. split; [done|].
  destruct Hs as [Hb [Cr Cw Cf Cc] Hc _]; simpl in *. rewrite length_map in *. exists (R + 1). split; simpl.
  - by apply (shape_cong b).
  - split; simpl; rewrite ?length_map; [rewrite Cr, u32_add_l; f_equal; lia|rewrite Cw; f_equal; lia|lia..].
  - eapply content_cong; [eapply content_pop; [done| |done]; rewrite length_map; lia|done..].
  - done.
Qed.

(** Used without interleaving, the buffer is a FIFO of at most [slot_count]
    records: logging a record that fits appends it, byte for byte; on a full
    buffer it is refused, the content is untouched and [failed_writes] is
    incremented; reading an empty buffer reports no data; and reading returns
    the oldest record and removes it. *)
Theorem ft_fifo b vs v :
  records b vs -> Z.of_nat (length v) = slot_size b ->
  (Z.of_nat (length vs) < slot_count b ->
   exists b', log_record v b = (b', true) /\ records b' (vs ++ [v])) /\
  (Z.of_nat (length vs) = slot_count b ->
   exists b', log_record v b = (b', false) /\ records b' vs /\
              failed_writes b' = u32 (failed_writes b + 1)) /\
  match vs with
  | [] => ft_buffer_read b = (b, None)
  | u :: vs' => exists b', ft_buffer_read b = (b', Some u) /\ records b' vs'
  end.
Proof.
  intros Hrec Hv. split_and!.
  - intros. by apply log_room.
  - intros. by apply log_full.
  - destruct vs; [by apply read_empty|by apply read_first].
Qed.

(** [ft_buffer_copy_to_user] on a buffer that holds a record.  When user
    space takes the whole record it does what [ft_buffer_read] does and returns
    1.  When the copy faults, the record stays, and the return value is the
    positive number of bytes that were not copied; its comment announces a
    negative value, which is also what [ftdev_read] tests for. *)
Theorem copy_to_user_result b v vs uncopied :
  records b (v :: vs) ->
  ft_buffer_copy_to_user uncopied b =
  if uncopied =? 0 then let '(b', r) := ft_buffer_read b in (b', 1, r) else (b, uncopied, None).
Proof.
  intros [R Hs]. destruct (records_head _ _ _ _ Hs) as (E1 & E2 & E3 & _).
  unfold ft_buffer_copy_to_user, ft_buffer_read. rewrite (proj2 (Z.eqb_neq _ _)) by done. simpl.
  rewrite E2, E3. simpl. by destruct (uncopied =? 0).
Qed.

(** ** A buffer of two records of one byte *)

Definition ex_buffer : ft_buffer :=
  mk_ft_buffer 2 1 2 0 0 (fun i => if (0 <=? i) && (i <? 2) then SLOT_FREE else 7) (fun _ => x00) 0.

(** Two writers take the two slots, a third is refused; the one with the
    first ticket publishes first and the reader copies its record while the other
    still fills. *)
Definition ex_schedule : list (option nat) :=
  [Some 0; Some 1; Some 2; Some 1; Some 0; Some 1; Some 1; None; None; Some 0; Some 2; Some 0;
   None; None; None; None; None; None]%nat.

Lemma ft_buffer_refines_witness :
  exists q, q_run 2 [] [e_tau; e_tau; e_tau; e_reserve 1; e_reserve 0; e_tau; e_publish 1 [x00]; e_tau; e_tau;
                        e_tau; e_tau; e_publish 0 [x00]; e_tau; e_read [x00]; e_tau; e_tau; e_tau; e_tau]%nat q.
Proof.
  exact (ft_buffer_refines 2 1 (fun _ => 7) (fun _ => x00) ex_buffer 3 _ _ ltac:(done) eq_refl ltac:(done)
           ltac:(done) ltac:(done) (ft_exec_run ex_schedule (quiet_sys ex_buffer 3))).
Defined.

Lemma ex_records : records ex_buffer [].
Proof. exists 0. by apply (init_sim 2 1 (fun _ => 7) (fun _ => x00)). Qed.

Lemma ft_fifo_witness : exists b', log_record [x41] ex_buffer = (b', true) /\ records b' [[x41]].
Proof. exact (proj1 (ft_fifo ex_buffer [] [x41] ex_records eq_refl) ltac:(done)). Defined.

Lemma ex_records1 : records (log_record [x41] ex_buffer).1 [[x41]].
Proof.
  destruct (log_room _ _ ex_records [x41]) as (b' & E & Hr); [done|done|]. by rewrite E.
Qed.

Lemma copy_to_user_result_witness :
  exists b, ft_buffer_copy_to_user 1 b = (b, 1, None) /\ records b [[x41]].
Proof.
  exists (log_record [x41] ex_buffer).1. split; [|apply ex_records1].
  exact (copy_to_user_result _ [x41] [] 1 ex_records1).
Defined.
