(* ===== verification/BHeap.v ===== *)
(** * Binomial heaps, as written: src/litmus2010/litmus/bheap.c

    The heap of the C program at the level of its pointers.  A [mem] holds the
    nodes (address to [struct bheap_node]) and the pointer variables that
    [bheap_node.ref] points to (in the kernel: the field [heap_node] of each
    task).  Every C function is one computation over [mem]; a [struct bheap]
    is passed in and the updated one returned.  NULL is [None], and reading or
    writing through it faults.  The [while] loops carry fuel; the entry points
    use [loop_fuel], the number of nodes of the memory plus one. *)

From S2P Require Import Prelude.

(** Addresses of nodes and of pointer variables. *)
Abbreviation ptr := positive (only parsing).
Abbreviation loc := positive (only parsing).

(** [#define NOT_IN_HEAP UINT_MAX] *)
Definition NOT_IN_HEAP : Z := UINT_MAX.

Record bheap_node (V : Type) : Type := mk_node {
  parent : option ptr;
  next   : option ptr;
  child  : option ptr;
  degree : Z;            (* unsigned int *)
  value  : V;            (* void* *)
  ref    : loc           (* struct bheap_node** *)
}.
Arguments mk_node {V}.
Arguments parent {V}.
Arguments next {V}.
Arguments child {V}.
Arguments degree {V}.
Arguments value {V}.
Arguments ref {V}.

Record bheap : Type := mk_bheap { head : option ptr; min : option ptr }.

Record mem (V : Type) : Type := mk_mem {
  nodes : gmap ptr (bheap_node V);
  vars  : gmap loc ptr
}.
Arguments mk_mem {V}.
Arguments nodes {V}.
Arguments vars {V}.

(** [typedef int ( *bheap_prio_t)(struct bheap_node* a, struct bheap_node* b)] *)
Definition bheap_prio_t (V : Type) : Type := bheap_node V -> bheap_node V -> bool.

Section Access.
Context {V : Type}.

(** [p->field] and [p->field = x]: both fault on NULL and on an address that
    holds no node. *)
Definition load (p : option ptr) : M (mem V) (bheap_node V) := fun m =>
  n ← (p ≫= fun a => nodes m !! a); Some (n, m).

Definition store (p : option ptr) (f : bheap_node V -> bheap_node V) : M (mem V) unit := fun m =>
  a ← p; n ← nodes m !! a;
  Some (tt, mk_mem (<[a := f n]> (nodes m)) (vars m)).

(** [*r] and [*r = p] for a pointer variable. *)
Definition load_var (r : loc) : M (mem V) ptr := fun m =>
  p ← vars m !! r; Some (p, m).
Definition store_var (r : loc) (p : ptr) : M (mem V) unit := fun m =>
  Some (tt, mk_mem (nodes m) (<[r := p]> (vars m))).

Definition set_parent (x : option ptr) (n : bheap_node V) : bheap_node V :=
  mk_node x (next n) (child n) (degree n) (value n) (ref n).
Definition set_next (x : option ptr) (n : bheap_node V) : bheap_node V :=
  mk_node (parent n) x (child n) (degree n) (value n) (ref n).
Definition set_child (x : option ptr) (n : bheap_node V) : bheap_node V :=
  mk_node (parent n) (next n) x (degree n) (value n) (ref n).
Definition set_degree (x : Z) (n : bheap_node V) : bheap_node V :=
  mk_node (parent n) (next n) (child n) x (value n) (ref n).
Definition set_value (x : V) (n : bheap_node V) : bheap_node V :=
  mk_node (parent n) (next n) (child n) (degree n) x (ref n).
Definition set_ref (x : loc) (n : bheap_node V) : bheap_node V :=
  mk_node (parent n) (next n) (child n) (degree n) (value n) x.

(** A bound on the iterations of every loop below. *)
Definition loop_fuel (m : mem V) : nat := S (size (nodes m)).

End Access.

Section Operations.
Context {V : Type}.
Variable higher_prio : bheap_prio_t V.

Definition bheap_init : bheap := mk_bheap None None.

Definition bheap_node_init (_h : loc) (v : V) : M (mem V) unit :=
  h ← load_var _h;
  store (Some h) (fun _ => mk_node None None None NOT_IN_HEAP v _h).

Definition bheap_node_in_heap (h : bheap_node V) : bool :=
  negb (degree h =? NOT_IN_HEAP)%Z.

Definition bheap_empty (heap : bheap) : bool :=
  bool_decide (head heap = None) && bool_decide (min heap = None).

(** make child a subtree of root *)
Definition __bheap_link (root child_ : option ptr) : M (mem V) unit :=
  store child_ (set_parent root);;
  r ← load root;
  store child_ (set_next (child r));;
  store root (set_child child_);;
  store root (fun n => set_degree (u32 (degree n + 1)) n).

(** [pos] of [__bheap_merge] points to the local [head] ([None]) or to the
    field [next] of a node ([Some p]). *)
Definition store_pos (pos : option ptr) (x : option ptr) (head_ : option ptr)
  : M (mem V) (option ptr) :=
  match pos with
  | None => mret x
  | Some p => store (Some p) (set_next x);; mret head_
  end.

Fixpoint __bheap_merge_loop (fuel : nat) (head_ pos a b : option ptr)
  : M (mem V) (option ptr) :=
  match fuel with
  | O => fault
  | S fuel =>
      match a, b with
      | Some pa, Some pb =>
          na ← load a; nb ← load b;
          if (degree na <? degree nb)%Z then
            head_ ← store_pos pos a head_;
            na ← load a;
            __bheap_merge_loop fuel head_ a (next na) b
          else
            head_ ← store_pos pos b head_;
            nb ← load b;
            __bheap_merge_loop fuel head_ b a (next nb)
      | Some _, None => store_pos pos a head_
      | None, _ => store_pos pos b head_
      end
  end.

(** merge root lists *)
Definition __bheap_merge (a b : option ptr) : M (mem V) (option ptr) :=
  fuel ← gets loop_fuel;
  __bheap_merge_loop fuel None None a b.

Fixpoint __bheap_reverse_loop (fuel : nat) (h tail_ : option ptr)
  : M (mem V) (option ptr) :=
  match fuel with
  | O => fault
  | S fuel =>
      n ← load h;
      match next n with
      | None => store h (set_next tail_);; mret h
      | Some nx =>
          store h (set_next tail_);;
          store (Some nx) (set_parent None);;
          __bheap_reverse_loop fuel (Some nx) h
      end
  end.

(** reverse a linked list of nodes. also clears parent pointer *)
Definition __bheap_reverse (h : option ptr) : M (mem V) (option ptr) :=
  match h with
  | None => mret None
  | Some _ =>
      store h (set_parent None);;
      fuel ← gets loop_fuel;
      __bheap_reverse_loop fuel h None
  end.

Fixpoint __bheap_min_loop (fuel : nat) (prev node _prev cur : option ptr)
  : M (mem V) (option ptr * option ptr) :=
  match fuel with
  | O => fault
  | S fuel =>
      match cur with
      | None => mret (prev, node)
      | Some _ =>
          nc ← load cur; nn ← load node;
          let '(prev, node) :=
            if higher_prio nc nn then (_prev, cur) else (prev, node) in
          __bheap_min_loop fuel prev node cur (next nc)
      end
  end.

(** Returns the pair ( *prev, *node). *)
Definition __bheap_min (heap : bheap) : M (mem V) (option ptr * option ptr) :=
  match head heap with
  | None => mret (None, None)
  | Some _ =>
      n ← load (head heap);
      fuel ← gets loop_fuel;
      __bheap_min_loop fuel None (head heap) (head heap) (next n)
  end.

Fixpoint __bheap_union_loop (fuel : nat) (h1 prev x next_ : option ptr)
  : M (mem V) (option ptr) :=
  match fuel with
  | O => fault
  | S fuel =>
      match next_ with
      | None => mret h1
      | Some _ =>
          nx ← load x; nn ← load next_;
          skip ←
            (if negb (degree nx =? degree nn)%Z then mret true
             else match next nn with
                  | None => mret false
                  | Some _ => nnn ← load (next nn); mret (degree nnn =? degree nx)%Z
                  end);
          if (skip : bool) then
            (* nothing to do, advance *)
            __bheap_union_loop fuel h1 x next_ (next nn)
          else if higher_prio nx nn then
            (* x becomes the root of next *)
            store x (set_next (next nn));;
            __bheap_link x next_;;
            nx ← load x;
            __bheap_union_loop fuel h1 prev x (next nx)
          else
            (* next becomes the root of x *)
            h1 ← match prev with
                 | Some _ => store prev (set_next next_);; mret h1
                 | None => mret next_
                 end;
            __bheap_link next_ x;;
            nn ← load next_;
            __bheap_union_loop fuel h1 prev next_ (next nn)
      end
  end.

Definition __bheap_union (heap : bheap) (h2 : option ptr) : M (mem V) bheap :=
  match h2 with
  | None => mret heap
  | Some _ =>
      match head heap with
      | None => mret (mk_bheap h2 (min heap))
      | Some _ =>
          h1 ← __bheap_merge (head heap) h2;
          x ← load h1;
          fuel ← gets loop_fuel;
          h1 ← __bheap_union_loop fuel h1 None h1 (next x);
          mret (mk_bheap h1 (min heap))
      end
  end.

(** [prev->next = node->next] or [heap->head = node->next]; then the children
    of [node] are merged back (the common tail of [__bheap_extract_min] and
    [bheap_delete]). *)
Definition unlink_root (heap : bheap) (prev node : option ptr) : M (mem V) bheap :=
  n ← load node;
  heap ← match prev with
         | Some _ => store prev (set_next (next n));; mret heap
         | None => mret (mk_bheap (next n) (min heap))
         end;
  n ← load node;
  rev ← __bheap_reverse (child n);
  __bheap_union heap rev.

Definition __bheap_extract_min (heap : bheap) : M (mem V) (option ptr * bheap) :=
  '(prev, node) ← __bheap_min heap;
  match node with
  | None => mret (None, heap)
  | Some _ => heap ← unlink_root heap prev node; mret (node, heap)
  end.

(** [node->child = NULL; node->parent = NULL; node->next = NULL;
    node->degree = 0;] *)
Definition reset_node (node : option ptr) : M (mem V) unit :=
  store node (set_child None);;
  store node (set_parent None);;
  store node (set_next None);;
  store node (set_degree 0).

(** insert (and reinitialize) a node into the heap *)
Definition bheap_insert (heap : bheap) (node : ptr) : M (mem V) bheap :=
  reset_node (Some node);;
  swap ← match min heap with
         | None => mret false
         | Some _ =>
             n ← load (Some node); nm ← load (min heap); mret (higher_prio n nm)
         end;
  if (swap : bool) then
    (* swap min cache *)
    reset_node (min heap);;
    heap ← __bheap_union heap (min heap);
    mret (mk_bheap (head heap) (Some node))
  else
    __bheap_union heap (Some node).

Definition bheap_uncache_min (heap : bheap) : M (mem V) bheap :=
  match min heap with
  | Some mn => bheap_insert (mk_bheap (head heap) None) mn
  | None => mret heap
  end.

(** merge addition into target; returns (target, addition) *)
Definition bheap_union (target addition : bheap) : M (mem V) (bheap * bheap) :=
  (* first insert any cached minima, if necessary *)
  target ← bheap_uncache_min target;
  addition ← bheap_uncache_min addition;
  target ← __bheap_union target (head addition);
  (* this is a destructive merge *)
  mret (target, mk_bheap None (min addition)).

Definition bheap_peek (heap : bheap) : M (mem V) (option ptr * bheap) :=
  heap ← match min heap with
         | Some _ => mret heap
         | None =>
             '(mn, heap) ← __bheap_extract_min heap;
             mret (mk_bheap (head heap) mn)
         end;
  mret (min heap, heap).

Definition bheap_take (heap : bheap) : M (mem V) (option ptr * bheap) :=
  heap ← match min heap with
         | Some _ => mret heap
         | None =>
             '(mn, heap) ← __bheap_extract_min heap;
             mret (mk_bheap (head heap) mn)
         end;
  let node := min heap in
  let heap := mk_bheap (head heap) None in
  match node with
  | Some _ => store node (set_degree NOT_IN_HEAP);; mret (node, heap)
  | None => mret (node, heap)
  end.

(** The body shared by the two bubble-up loops: exchange the values and the
    references of [parent_] and [node]. *)
Definition swap_with_parent (parent_ node : ptr) : M (mem V) unit :=
  np ← load (Some parent_); nn ← load (Some node);
  let tmp := value np in
  store (Some parent_) (set_value (value nn));;
  store (Some node) (set_value tmp);;
  (* swap references *)
  store_var (ref np) node;;
  store_var (ref nn) parent_;;
  let tmp_ref := ref np in
  store (Some parent_) (set_ref (ref nn));;
  store (Some node) (set_ref tmp_ref).

Fixpoint bheap_decrease_loop (fuel : nat) (node : ptr) (parent_ : option ptr)
  : M (mem V) bool :=
  match fuel with
  | O => fault
  | S fuel =>
      match parent_ with
      | None => mret false
      | Some p =>
          nn ← load (Some node); np ← load parent_;
          if higher_prio nn np then
            swap_with_parent p node;;
            (* step up *)
            n ← load (Some p);
            bheap_decrease_loop fuel p (parent n)
          else mret true
      end
  end.

Definition bheap_decrease (node : ptr) : M (mem V) bool :=
  n ← load (Some node);
  fuel ← gets loop_fuel;
  bheap_decrease_loop fuel node (parent n).

(** Returns the node the bubbled-up value ended in. *)
Fixpoint bheap_delete_up (fuel : nat) (node : ptr) (parent_ : option ptr)
  : M (mem V) ptr :=
  match fuel with
  | O => fault
  | S fuel =>
      match parent_ with
      | None => mret node
      | Some p =>
          swap_with_parent p node;;
          n ← load (Some p);
          bheap_delete_up fuel p (parent n)
      end
  end.

(** [while (pos != node) { prev = pos; pos = pos->next; }] *)
Fixpoint bheap_delete_find (fuel : nat) (node : ptr) (prev pos : option ptr)
  : M (mem V) (option ptr) :=
  match fuel with
  | O => fault
  | S fuel =>
      if bool_decide (pos = Some node) then mret prev
      else n ← load pos; bheap_delete_find fuel node pos (next n)
  end.

Definition bheap_delete (heap : bheap) (node : ptr) : M (mem V) bheap :=
  '(node, heap) ←
    (if bool_decide (min heap <> Some node) then
       (* bubble up *)
       n ← load (Some node);
       fuel ← gets loop_fuel;
       node ← bheap_delete_up fuel node (parent n);
       (* now delete: first find prev *)
       prev ← bheap_delete_find fuel node None (head heap);
       (* we have prev, now remove node *)
       heap ← unlink_root heap prev (Some node);
       mret (node, heap)
     else mret (node, mk_bheap (head heap) None));
  store (Some node) (set_degree NOT_IN_HEAP);;
  mret heap.

(** allocate a heap node for value and insert into the heap; [hn] is the
    result of [bheap_node_alloc] and [hn_var] the address of the local [hn] *)
Definition bheap_add (heap : bheap) (v : V) (hn : option ptr) (hn_var : loc)
  : M (mem V) (bool * bheap) :=
  match hn with
  | Some p =>
      store_var hn_var p;;
      bheap_node_init hn_var v;;
      heap ← bheap_insert heap p;
      mret (true, heap)
  | None => mret (false, heap)
  end.

(** [bheap_node_free] returns the node to its cache. *)
Definition bheap_node_free (p : ptr) : M (mem V) unit :=
  modify (fun m => mk_mem (delete p (nodes m)) (vars m)).

Definition bheap_take_del (heap : bheap) : M (mem V) (option V * bheap) :=
  '(hn, heap) ← bheap_take heap;
  match hn with
  | Some p =>
      n ← load hn;
      bheap_node_free p;;
      mret (Some (value n), heap)
  | None => mret (None, heap)
  end.

End Operations.

(** A run: insert four values, then take them out in priority order. *)
Section Example.

Let order : bheap_prio_t Z := fun a b => (value a <? value b)%Z.

Definition example_mem : mem Z :=
  mk_mem (list_to_map ((fun k => (k, mk_node None None None NOT_IN_HEAP (Zpos k) k))
                         <$> [1; 2; 3; 4; 5]%positive))
         (list_to_map ((fun k => (k, k)) <$> [1; 2; 3; 4; 5]%positive)).

Definition take_value (h : bheap) : M (mem Z) (Z * bheap) :=
  '(p, h) ← bheap_take order h;
  n ← load p;
  mret (value n, h).

(** Deleting value 4 moves other values between nodes, so the values are read
    back, not the addresses. *)
Definition example_run : M (mem Z) (list Z) :=
  let h0 := bheap_init in
  h ← bheap_insert order h0 4%positive;
  h ← bheap_insert order h 2%positive;
  h ← bheap_insert order h 5%positive;
  '(a, h) ← bheap_peek order h;
  h ← bheap_insert order h 1%positive;
  h ← bheap_insert order h 3%positive;
  h ← bheap_delete order h 4%positive;
  '(b, h) ← take_value h;
  '(c, h) ← take_value h;
  '(d, h) ← take_value h;
  '(e, h) ← take_value h;
  mret [b; c; d; e].

Example example_run_order :
  fst <$> example_run example_mem = Some [1; 2; 3; 5]%Z.
Proof. vm_compute. reflexivity. Qed.

End Example.
