(* ===== verification/BinForest.v ===== *)
(** * Binomial heaps, abstractly

    What src/litmus2010/litmus/bheap.c computes, on trees instead of pointers:
    a heap is a list of trees plus the cached minimum.  A tree node keeps the
    address and the [ref] of the C node it stands for, so that [BHeapRefine]
    can relate each pointer operation to the function here.  The file proves
    what the functions promise: no element is lost or invented, the heap order
    is kept, a peek or take returns an element no other element beats, and the
    root list keeps the binomial shape. *)

From S2P Require Import Prelude BHeap.
From stdpp Require Import sorting.

#[warnings="-register-all"] Inductive tree (V : Type) : Type :=
  Node (p : positive) (v : V) (r : positive) (cs : list (tree V)).
Arguments Node {V}.

Section Tree.
Context {V : Type}.
Implicit Types (t c x : tree V) (ts cs a b : list (tree V)).

Lemma tree_ind' (P : tree V -> Prop) :
  (forall p v r cs, Forall P cs -> P (Node p v r cs)) -> forall t, P t.
Proof.
  intros H. fix IH 1. intros [p v r cs]. apply H.
  induction cs as [|c cs IHcs]; constructor; [apply IH | apply IHcs].
Qed.

Definition root_ptr t : positive := match t with Node p _ _ _ => p end.
Definition root_val t : V := match t with Node _ v _ _ => v end.
Definition root_ref t : positive := match t with Node _ _ r _ => r end.
Definition children t : list (tree V) := match t with Node _ _ _ cs => cs end.
Definition deg t : nat := length (children t).

(** A node of the heap: its address, its value, its [ref]. *)
Definition cell : Type := positive * V * positive.
Definition cell_ptr (c : cell) : positive := c.1.1.
Definition cell_val (c : cell) : V := c.1.2.
Definition cell_ref (c : cell) : positive := c.2.

Fixpoint cells t : list cell :=
  match t with Node p v r cs => (p, v, r) :: concat (map cells cs) end.
Definition fcells ts : list cell := concat (map cells ts).

Definition elems t : list V := cell_val <$> cells t.
Definition felems ts : list V := cell_val <$> fcells ts.
Definition addrs t : list positive := cell_ptr <$> cells t.
Definition faddrs ts : list positive := cell_ptr <$> fcells ts.

Definition single (c : cell) : tree V := Node (cell_ptr c) (cell_val c) (cell_ref c) [].

(** [__bheap_link] *)
Definition link (root child_ : tree V) : tree V :=
  Node (root_ptr root) (root_val root) (root_ref root) (child_ :: children root).

(** [__bheap_merge] *)
Fixpoint merge a : list (tree V) -> list (tree V) :=
  fix aux b :=
    match a, b with
    | [], _ => b
    | _, [] => a
    | x :: a', y :: b' =>
        if decide (deg x < deg y) then x :: merge a' b else y :: aux b'
    end.

Section Prio.
Variable prio : V -> V -> bool.

(** the loop of [__bheap_union] *)
Fixpoint coalesce x ts : list (tree V) :=
  match ts with
  | [] => [x]
  | y :: ts' =>
      if decide (deg x <> deg y \/ (deg <$> list.head ts') = Some (deg x)) then x :: coalesce y ts'
      else if prio (root_val x) (root_val y) then coalesce (link x y) ts'
      else coalesce (link y x) ts'
  end.

(** [__bheap_union] *)
Definition union a b : list (tree V) :=
  match b, a with
  | [], _ => a
  | _, [] => b
  | _, _ => match merge a b with
            | [] => []
            | x :: ts => coalesce x ts
            end
  end.

(** the loop of [__bheap_min]: the roots before the best one, the best root,
    the roots after it *)
Fixpoint split_min (pre : list (tree V)) (best : tree V) (mid ts : list (tree V))
  : list (tree V) * tree V * list (tree V) :=
  match ts with
  | [] => (pre, best, mid)
  | c :: ts' =>
      if prio (root_val c) (root_val best) then split_min (pre ++ best :: mid) c [] ts'
      else split_min pre best (mid ++ [c]) ts'
  end.

(** [__bheap_extract_min] *)
Definition extract_min ts : option (tree V) * list (tree V) :=
  match ts with
  | [] => (None, [])
  | t :: ts' =>
      let '(pre, best, post) := split_min [] t [] ts' in
      (Some best, union (pre ++ post) (reverse (children best)))
  end.

End Prio.
End Tree.

(** A position inside a tree: the frames from a subtree up to the root. *)
Record frame (V : Type) : Type := mk_frame {
  fr_ptr : positive; fr_val : V; fr_ref : positive;
  fr_left : list (tree V); fr_right : list (tree V)
}.
Arguments mk_frame {V}.
Arguments fr_ptr {V}.
Arguments fr_val {V}.
Arguments fr_ref {V}.
Arguments fr_left {V}.
Arguments fr_right {V}.

Section Zipper.
Context {V : Type}.

Definition fill (f : frame V) (t : tree V) : tree V :=
  Node (fr_ptr f) (fr_val f) (fr_ref f) (fr_left f ++ t :: fr_right f).
Definition plug (ctx : list (frame V)) (t : tree V) : tree V := foldl (fun t f => fill f t) t ctx.

(** [swap_with_parent]: the values and references of a node and its parent
    change places. *)
Definition swap_up (f : frame V) (t : tree V) : tree V :=
  Node (fr_ptr f) (root_val t) (root_ref t)
    (fr_left f ++ Node (root_ptr t) (fr_val f) (fr_ref f) (children t) :: fr_right f).

(** the bubble-up loop of [bheap_delete] *)
Definition bubble (ctx : list (frame V)) (t : tree V) : tree V :=
  foldl (fun t f => swap_up f t) t ctx.

(** the bubble-up loop of [bheap_decrease] *)
Fixpoint bubble_while (prio : V -> V -> bool) (ctx : list (frame V)) (t : tree V)
  : list (frame V) * tree V :=
  match ctx with
  | [] => ([], t)
  | f :: ctx' =>
      if prio (root_val t) (fr_val f) then bubble_while prio ctx' (swap_up f t)
      else (ctx, t)
  end.

(** The position of a node that satisfies [P]; [locate_in] searches the children
    of a node. *)
Definition locate_in (loc : tree V -> option (list (frame V) * tree V))
    (p : positive) (v : V) (r : positive) :=
  fix go (lft cs : list (tree V)) : option (list (frame V) * tree V) :=
    match cs with
    | [] => None
    | c :: cs' =>
        match loc c with
        | Some (ctx, s) => Some (ctx ++ [mk_frame p v r lft cs'], s)
        | None => go (lft ++ [c]) cs'
        end
    end.

Fixpoint locate (P : tree V -> bool) (t : tree V) : option (list (frame V) * tree V) :=
  if P t then Some ([], t)
  else match t with Node p v r cs => locate_in (locate P) p v r [] cs end.

Fixpoint flocate (P : tree V -> bool) (left ts : list (tree V))
  : option (list (tree V) * list (frame V) * tree V * list (tree V)) :=
  match ts with
  | [] => None
  | t :: ts' =>
      match locate P t with
      | Some (ctx, s) => Some (left, ctx, s, ts')
      | None => flocate P (left ++ [t]) ts'
      end
  end.

End Zipper.

(** ** The heap: root list and cached minimum *)
Record fheap (V : Type) : Type := mk_fheap {
  trees : list (tree V);
  fmin  : option (positive * V * positive)
}.
Arguments mk_fheap {V}.
Arguments trees {V}.
Arguments fmin {V}.

Section FHeap.
Context {V : Type}.
Variable prio : V -> V -> bool.
Implicit Types h : fheap V.

Definition fh_cells h : list (positive * V * positive) := option_list (fmin h) ++ fcells (trees h).
Definition fh_elems h : list V := cell_val <$> fh_cells h.

Definition fh_init : fheap V := mk_fheap [] None.

(** [bheap_insert] *)
Definition fh_insert h (c : positive * V * positive) : fheap V :=
  match fmin h with
  | Some m =>
      if prio (cell_val c) (cell_val m)
      then mk_fheap (union prio (trees h) [single m]) (Some c)
      else mk_fheap (union prio (trees h) [single c]) (Some m)
  | None => mk_fheap (union prio (trees h) [single c]) None
  end.

(** [bheap_uncache_min] *)
Definition fh_uncache_min h : fheap V :=
  match fmin h with
  | Some m => fh_insert (mk_fheap (trees h) None) m
  | None => h
  end.

(** [bheap_union] *)
Definition fh_union h1 h2 : fheap V :=
  mk_fheap (union prio (trees (fh_uncache_min h1)) (trees (fh_uncache_min h2))) None.

(** Fill the cache, as [bheap_peek] and [bheap_take] do first. *)
Definition fh_cache_min h : fheap V :=
  match fmin h with
  | Some _ => h
  | None =>
      let '(best, ts) := extract_min prio (trees h) in
      mk_fheap ts ((fun t => (root_ptr t, root_val t, root_ref t)) <$> best)
  end.

(** [bheap_peek] *)
Definition fh_peek h : option (positive * V * positive) * fheap V :=
  (fmin (fh_cache_min h), fh_cache_min h).

(** [bheap_take] *)
Definition fh_take h : option (positive * V * positive) * fheap V :=
  (fmin (fh_cache_min h), mk_fheap (trees (fh_cache_min h)) None).

(** [bheap_delete] of the node at a given position of the root list *)
Definition fh_delete_at (left : list (tree V)) (ctx : list (frame V)) (s : tree V)
    (right : list (tree V)) (m : option (positive * V * positive)) : fheap V :=
  mk_fheap (union prio (left ++ right) (reverse (children (bubble ctx s)))) m.

(** [bheap_delete] of the node that holds a value; [None] when no node of the
    heap does *)
Definition fh_delete (P : V -> bool) h : option (fheap V) :=
  if match fmin h with Some m => P (cell_val m) | None => false end
  then Some (mk_fheap (trees h) None)
  else '(lft, ctx, s, rgt) ← flocate (fun t => P (root_val t)) [] (trees h);
       Some (fh_delete_at lft ctx s rgt (fmin h)).

End FHeap.

(** ** Elements are kept *)
Section Elements.
Context {V : Type}.
Variable prio : V -> V -> bool.
Implicit Types (t x y : tree V) (ts a b : list (tree V)).

Lemma fcells_cons t ts : fcells (t :: ts) = cells t ++ fcells ts.
Proof. done. Qed.

Lemma fcells_app a b : fcells (a ++ b) = fcells a ++ fcells b.
Proof. unfold fcells. by rewrite map_app, concat_app. Qed.

Lemma cells_Node p v r cs : cells (V:=V) (Node p v r cs) = (p, v, r) :: fcells cs.
Proof. done. Qed.

Lemma cells_children t :
  cells t = (root_ptr t, root_val t, root_ref t) :: fcells (children t).
Proof. by destruct t. Qed.

Lemma fcells_perm a b : a ≡ₚ b -> fcells a ≡ₚ fcells b.
Proof.
  induction 1; rewrite ?fcells_cons; [done| by f_equiv | | by etrans].
  by rewrite !(assoc_L (++)), (comm (++) (cells _)).
Qed.

Lemma fcells_reverse ts : fcells (reverse ts) ≡ₚ fcells ts.
Proof. apply fcells_perm, reverse_Permutation. Qed.

Lemma cells_link x y : cells (link x y) ≡ₚ cells x ++ cells y.
Proof.
  destruct x as [p v r cs]. unfold link; simpl. f_equiv.
  by rewrite (comm (++)).
Qed.

Lemma merge_nil_l b : merge [] b = b.
Proof. by destruct b. Qed.

Lemma merge_nil_r a : merge a [] = a.
Proof. by destruct a. Qed.

Lemma merge_cons x y a b :
  merge (x :: a) (y :: b) =
  if decide (deg x < deg y) then x :: merge a (y :: b) else y :: merge (x :: a) b.
Proof. done. Qed.

(** Induction along the two-sided recursion of [merge]. *)
Lemma merge_induction (P : list (tree V) -> list (tree V) -> Prop) :
  (forall b, P [] b) -> (forall x a, P (x :: a) []) ->
  (forall x a y b, deg x < deg y -> P a (y :: b) -> P (x :: a) (y :: b)) ->
  (forall x a y b, ~ deg x < deg y -> P (x :: a) b -> P (x :: a) (y :: b)) ->
  forall a b, P a b.
Proof.
  intros H1 H2 H3 H4. induction a as [|x a IHa]; [done|].
  induction b as [|y b IHb]; [done|].
  destruct (decide (deg x < deg y)); auto.
Qed.

Lemma merge_perm a b : merge a b ≡ₚ a ++ b.
Proof.
  revert a b. apply merge_induction; [intros b; by rewrite merge_nil_l| |intros x a y b Hd IH..].
  - intros x a. by rewrite merge_nil_r, app_nil_r.
  - rewrite merge_cons. case_decide; [|done]. by rewrite IH.
  - rewrite merge_cons. case_decide; [done|]. by rewrite IH, Permutation_middle.
Qed.

Lemma coalesce_cells x ts : fcells (coalesce prio x ts) ≡ₚ cells x ++ fcells ts.
Proof.
  revert x. induction ts as [|y ts IH]; intros x; [done|]. cbn [coalesce].
  case_decide; [by rewrite fcells_cons, IH|].
  destruct (prio _ _); rewrite IH, cells_link, fcells_cons, (assoc_L (++)); [done|].
  by rewrite (comm (++) (cells y)).
Qed.

Lemma union_cells a b : fcells (union prio a b) ≡ₚ fcells a ++ fcells b.
Proof.
  unfold union. destruct b as [|y b]; [by rewrite app_nil_r|].
  destruct a as [|x a]; [done|].
  destruct (merge (x :: a) (y :: b)) as [|z ts] eqn:E.
  - pose proof (merge_perm (x :: a) (y :: b)) as P. rewrite E in P.
    by apply Permutation_nil_cons in P.
  - rewrite coalesce_cells, <- fcells_cons, <- E, <- fcells_app.
    apply fcells_perm, merge_perm.
Qed.

Lemma split_min_eq pre best mid ts pre' best' post :
  split_min prio pre best mid ts = (pre', best', post) ->
  pre' ++ best' :: post = pre ++ best :: mid ++ ts.
Proof.
  revert pre best mid. induction ts as [|c ts IH]; intros pre best mid; simpl.
  - intros [= -> -> ->]. by rewrite app_nil_r.
  - destruct (prio _ _); intros ->%IH; by rewrite <- ?(assoc_L (++)).
Qed.

Lemma extract_min_cells ts t ts' :
  extract_min prio ts = (Some t, ts') ->
  fcells ts ≡ₚ (root_ptr t, root_val t, root_ref t) :: fcells ts'.
Proof.
  unfold extract_min. destruct ts as [|t0 ts]; [done|].
  destruct (split_min _ _ _ _ _) as [[pre best] post] eqn:E. intros [= -> <-].
  apply split_min_eq in E. simpl in E. rewrite <- E, union_cells, fcells_reverse.
  rewrite !fcells_app, fcells_cons, (cells_children t). simpl.
  by rewrite <- Permutation_middle, <- !(assoc_L (++)), (comm (++) (fcells post)).
Qed.

Lemma extract_min_None ts ts' : extract_min prio ts = (None, ts') -> ts = [] /\ ts' = [].
Proof. unfold extract_min. destruct ts; [naive_solver|]. by destruct (split_min _ _ _ _ _) as [[??]?]. Qed.

(** Bubbling moves values but keeps the multiset of values. *)
Lemma elems_Node p v r cs : elems (V:=V) (Node p v r cs) = v :: felems cs.
Proof. done. Qed.

Lemma felems_app a b : felems (a ++ b) = felems a ++ felems b.
Proof. unfold felems. by rewrite fcells_app, fmap_app. Qed.

Lemma felems_cons t ts : felems (t :: ts) = elems t ++ felems ts.
Proof. unfold felems. by rewrite fcells_cons, fmap_app. Qed.

Lemma elems_swap_up f t : elems (swap_up f t) ≡ₚ elems (fill f t).
Proof.
  destruct t as [p v r cs]. unfold swap_up, fill. cbn [root_val root_ref root_ptr children].
  rewrite !elems_Node, !felems_app, !felems_cons, !elems_Node.
  rewrite <- !app_comm_cons, <- !Permutation_middle. constructor.
Qed.

Lemma elems_fill_perm f s t : elems s ≡ₚ elems t -> elems (fill f s) ≡ₚ elems (fill f t).
Proof. intros H. unfold fill. rewrite !elems_Node, !felems_app, !felems_cons. by rewrite H. Qed.

Lemma elems_plug_perm ctx s t : elems s ≡ₚ elems t -> elems (plug ctx s) ≡ₚ elems (plug ctx t).
Proof. revert s t. induction ctx as [|f ctx IH]; simpl; auto using elems_fill_perm. Qed.

Lemma elems_bubble ctx t : elems (bubble ctx t) ≡ₚ elems (plug ctx t).
Proof.
  revert t. induction ctx as [|f ctx IH]; intros t; [done|]. simpl. rewrite IH.
  apply elems_plug_perm, elems_swap_up.
Qed.

Lemma root_val_bubble ctx t : root_val (bubble ctx t) = root_val t.
Proof. revert t. induction ctx as [|f ctx IH]; intros t; [done|]. simpl. by rewrite IH. Qed.

(** [locate] finds a position whenever one exists, and what it finds is there. *)
Lemma locate_Some (P : tree V -> bool) t ctx s :
  locate P t = Some (ctx, s) -> plug ctx s = t /\ P s = true.
Proof.
  revert ctx s. induction t as [p v r cs IH] using tree_ind'. intros ctx s. simpl.
  destruct (P _) eqn:E; [by intros [= <- <-]|].
  change cs with ([] ++ cs) at 2. generalize (@nil (tree V)). clear E.
  induction IH as [|c cs Hc _ IHcs]; intros l; [done|]. simpl.
  destruct (locate P c) as [[ctx' s']|].
  - intros [= <- ->]. destruct (Hc _ _ eq_refl) as [Hp ?]. split; [|done].
    unfold plug in *. rewrite foldl_app. simpl. by rewrite Hp.
  - intros [Hp ?]%IHcs. split; [|done]. by rewrite <- (assoc_L (++)) in Hp.
Qed.

Lemma flocate_Some (P : tree V -> bool) lft ts l ctx s r :
  flocate P lft ts = Some (l, ctx, s, r) ->
  l ++ plug ctx s :: r = lft ++ ts /\ P s = true.
Proof.
  revert lft. induction ts as [|t ts IH]; intros lft; [done|]. simpl.
  destruct (locate P t) as [[ctx' s']|] eqn:E.
  - intros [= -> -> -> ->]. apply locate_Some in E as [-> ?]. done.
  - intros [Hp ?]%IH. by rewrite <- (assoc_L (++)) in Hp.
Qed.

End Elements.

(** ** Heap order *)
Section Order.
Context {V : Type} (D : V -> Prop) (prio : V -> V -> bool).
Hypothesis O : swo_on D prio.
Implicit Types (t x y : tree V) (ts a b : list (tree V)).

(** No child beats its parent, and every value is in [D]. *)
Inductive heap_ord : tree V -> Prop :=
  heap_ord_node p v r cs :
    D v -> Forall (fun c => prio (root_val c) v = false) cs -> Forall heap_ord cs ->
    heap_ord (Node p v r cs).

Lemma heap_ord_inv t :
  heap_ord t ->
  D (root_val t) /\ Forall (fun c => prio (root_val c) (root_val t) = false) (children t)
  /\ Forall heap_ord (children t).
Proof. by inversion 1. Qed.

Lemma heap_ord_D t : heap_ord t -> Forall D (elems t).
Proof.
  induction t as [p v r cs IH] using tree_ind'. intros (HD & _ & Hcs)%heap_ord_inv.
  rewrite elems_Node. constructor; [done|]. simpl in Hcs.
  induction IH as [|c cs Hc _ IHcs]; [constructor|].
  apply Forall_cons in Hcs as [? ?]. rewrite felems_cons. apply Forall_app; auto.
Qed.

(** The root of an ordered tree is beaten by no element. *)
Lemma heap_ord_root t : heap_ord t -> Forall (fun e => prio e (root_val t) = false) (elems t).
Proof.
  induction t as [p v r cs IH] using tree_ind'. intros (HD & Hr & Hcs)%heap_ord_inv.
  rewrite elems_Node. simpl in *. constructor; [by apply (swo_irrefl _ _ O)|].
  induction IH as [|c cs Hc _ IHcs]; [constructor|].
  apply Forall_cons in Hcs as [Hoc ?], Hr as [Hrc ?]. rewrite felems_cons.
  apply Forall_app; split; [|auto].
  specialize (Hc Hoc). pose proof (heap_ord_D c Hoc) as HDc.
  rewrite Forall_forall in Hc, HDc. apply Forall_forall. intros e He.
  apply (swo_neg_trans _ _ O e (root_val c) v); auto.
  by apply heap_ord_inv in Hoc as [? _].
Qed.

Lemma felems_ord_D ts : Forall heap_ord ts -> Forall D (felems ts).
Proof.
  induction 1; [constructor|]. rewrite felems_cons. apply Forall_app; auto using heap_ord_D.
Qed.

Lemma felems_ord_root ts v :
  D v -> Forall heap_ord ts -> Forall (fun c => prio (root_val c) v = false) ts ->
  Forall (fun e => prio e v = false) (felems ts).
Proof.
  intros HD Ho. induction Ho as [|t ts Ht _ IH]; [constructor|].
  intros [Hr ?]%Forall_cons. rewrite felems_cons. apply Forall_app; split; [|auto].
  pose proof (heap_ord_root t Ht) as He. pose proof (heap_ord_D t Ht) as HDt.
  rewrite Forall_forall in *. intros e Hin.
  apply (swo_neg_trans _ _ O e (root_val t) v); auto. by apply heap_ord_inv in Ht as [? _].
Qed.

Lemma link_ord x y :
  heap_ord x -> heap_ord y -> prio (root_val y) (root_val x) = false -> heap_ord (link x y).
Proof.
  intros (?&?&?)%heap_ord_inv Hy Hp. constructor; [done|by constructor..].
Qed.

Lemma coalesce_ord x ts :
  heap_ord x -> Forall heap_ord ts -> Forall heap_ord (coalesce prio x ts).
Proof.
  intros Hx Hts. revert x Hx. induction Hts as [|y ts Hy _ IH]; intros x Hx; [by constructor|].
  cbn [coalesce]. case_decide; [by constructor; auto|].
  pose proof (heap_ord_inv _ Hx) as [? _]. pose proof (heap_ord_inv _ Hy) as [? _].
  destruct (prio (root_val x) (root_val y)) eqn:E; apply IH, link_ord; auto.
  by apply (swo_asym O).
Qed.

Lemma merge_Forall (P : tree V -> Prop) a b : Forall P a -> Forall P b -> Forall P (merge a b).
Proof. intros. rewrite merge_perm. by apply Forall_app. Qed.

Lemma union_ord a b :
  Forall heap_ord a -> Forall heap_ord b -> Forall heap_ord (union prio a b).
Proof.
  intros Ha Hb. unfold union. destruct b as [|y b], a as [|x a]; try done.
  pose proof (merge_Forall _ _ _ Ha Hb) as Hm. destruct (merge _ _); [done|].
  apply Forall_cons in Hm as [? ?]. by apply coalesce_ord.
Qed.

Lemma split_min_best pre best mid ts pre' best' post :
  D (root_val best) -> Forall (fun c => D (root_val c)) (pre ++ mid ++ ts) ->
  Forall (fun c => prio (root_val c) (root_val best) = false) (pre ++ mid) ->
  split_min prio pre best mid ts = (pre', best', post) ->
  Forall (fun c => prio (root_val c) (root_val best') = false) (pre' ++ post).
Proof.
  revert pre best mid. induction ts as [|c ts IH]; intros pre best mid HD HDs Hb; simpl.
  - intros [= -> -> ->]. done.
  - rewrite !Forall_app, Forall_cons in HDs. destruct HDs as (? & ? & HDc & ?).
    rewrite Forall_app in Hb. destruct Hb as [? ?].
    destruct (prio (root_val c) (root_val best)) eqn:E; apply IH; try done.
    + rewrite !Forall_app, Forall_cons. by repeat split.
    + pose proof (swo_asym O _ _ HDc HD E) as Eb.
      rewrite app_nil_r, Forall_app, Forall_cons, !Forall_forall in *.
      repeat split; [|done|]; intros e He;
        apply (swo_neg_trans _ _ O _ (root_val best)); auto.
    + rewrite !Forall_app, Forall_singleton. by repeat split.
    + rewrite !Forall_app, Forall_singleton. by repeat split.
Qed.

Lemma extract_min_ord ts t ts' :
  Forall heap_ord ts -> extract_min prio ts = (Some t, ts') ->
  D (root_val t) /\ Forall heap_ord ts' /\ Forall (fun e => prio e (root_val t) = false) (felems ts').
Proof.
  intros Ho E. unfold extract_min in E. destruct ts as [|t0 ts]; [done|].
  destruct (split_min _ _ _ _ _) as [[pre best] post] eqn:Es. injection E as -> <-.
  pose proof (split_min_eq _ _ _ _ _ _ _ _ Es) as Hl. simpl in Hl.
  assert (Forall (fun c => D (root_val c)) (t0 :: ts)) as HD.
  { eapply Forall_impl; [exact Ho|]. by intros ? [? _]%heap_ord_inv. }
  assert (Forall (fun c => prio (root_val c) (root_val t) = false) (pre ++ post)) as Hb.
  { apply Forall_cons in HD as [? ?]. eapply (split_min_best [] t0 [] ts); [done|done|constructor|exact Es]. }
  rewrite <- Hl, Forall_app, Forall_cons in Ho. destruct Ho as (Hpre & Ht & Hpost).
  destruct (heap_ord_inv _ Ht) as (HDt & Hc & Hoc).
  assert (Forall heap_ord (union prio (pre ++ post) (reverse (children t)))) as Hu.
  { apply union_ord; [by apply Forall_app|]. by rewrite Forall_reverse. }
  split_and!; [done..|].
  unfold felems. rewrite union_cells, fcells_reverse, <- fcells_app.
  apply felems_ord_root; [done| |by apply Forall_app].
  rewrite !Forall_app. by repeat split.
Qed.

(** Replacing a subtree by one with the same root value keeps the order. *)
Lemma fill_ord_replace f s t :
  root_val s = root_val t -> heap_ord t -> heap_ord (fill f s) -> heap_ord (fill f t).
Proof.
  intros Hv Ht (?&Hr&Ho)%heap_ord_inv. unfold fill in *. simpl in *.
  rewrite Forall_app, Forall_cons in Hr, Ho. destruct Hr as (?&?&?), Ho as (?&?&?).
  constructor; [done|..]; rewrite Forall_app, Forall_cons, <- ?Hv; by repeat split.
Qed.

Lemma plug_ord_sub ctx s : heap_ord (plug ctx s) -> heap_ord s.
Proof.
  revert s. induction ctx as [|f ctx IH]; intros s; simpl; [done|].
  intros (?&_&Ho)%IH%heap_ord_inv. simpl in Ho. by apply Forall_app in Ho as [_ [? _]%Forall_cons].
Qed.

Lemma plug_ord_replace ctx s t :
  root_val s = root_val t -> heap_ord t -> heap_ord (plug ctx s) -> heap_ord (plug ctx t).
Proof.
  revert s t. induction ctx as [|f ctx IH]; intros s t Hv Ht; simpl; [done|].
  intros Hs. apply (IH (fill f s)); [done| |done].
  apply (fill_ord_replace f s); [done..|]. by apply (plug_ord_sub ctx).
Qed.

(** After the bubble-up of [bheap_delete], whatever value arrives at the root,
    the subtrees of the root are in order. *)
Lemma bubble_ord ctx t p w r :
  heap_ord (plug ctx (Node p w r (children t))) ->
  Forall heap_ord (children (bubble ctx t)).
Proof.
  revert t p w r. induction ctx as [|f ctx IH]; intros t p w r; simpl.
  - by intros (_&_&?)%heap_ord_inv.
  - intros H. apply (IH (swap_up f t) (fr_ptr f) (fr_val f) (fr_ref f)).
    pose proof (plug_ord_sub _ _ H) as (HDf & Hr & Ho)%heap_ord_inv.
    apply (plug_ord_replace ctx (fill f (Node p w r (children t)))); [done| |done].
    simpl in *. rewrite Forall_app, Forall_cons in Hr, Ho.
    destruct Hr as (?&Hw&?), Ho as (?&Hn&?). simpl in Hw.
    apply heap_ord_inv in Hn as (HDw & Hc & Hoc). simpl in *.
    constructor; [done|..]; rewrite Forall_app, Forall_cons; split_and!; try done.
    + by apply (swo_irrefl _ _ O).
    + constructor; [done| |done]. rewrite Forall_forall in *. intros c Hin.
      apply (swo_neg_trans _ _ O _ w); auto. by specialize (Hoc c Hin) as [? _]%heap_ord_inv.
Qed.

End Order.

#[global] Arguments union {V} prio a b : simpl never.
#[global] Arguments fcells {V} ts : simpl never.
#[global] Arguments felems {V} ts : simpl never.
#[global] Arguments single {V} c : simpl never.
#[global] Arguments extract_min {V} prio ts : simpl never.

(** ** What the heap operations promise *)
Section Contract.
Context {V : Type} (D : V -> Prop) (prio : V -> V -> bool).
Hypothesis O : swo_on D prio.
Implicit Types h : fheap V.

(** Ordered trees, and a cached minimum that nothing in the trees beats. *)
Definition fh_wf h : Prop :=
  Forall (heap_ord D prio) (trees h) /\
  match fmin h with
  | Some c => D (cell_val c) /\ Forall (fun e => prio e (cell_val c) = false) (felems (trees h))
  | None => True
  end.

Lemma fh_wf_init : fh_wf fh_init.
Proof. split; [constructor|done]. Qed.

Lemma fh_wf_D h : fh_wf h -> Forall D (fh_elems h).
Proof.
  intros [Ht Hm]. unfold fh_elems, fh_cells. rewrite fmap_app. apply Forall_app; split.
  - destruct (fmin h); [|constructor]. apply Forall_singleton. tauto.
  - by eapply felems_ord_D.
Qed.

Lemma heap_ord_single c : D (cell_val c) -> heap_ord D prio (single c).
Proof. intros. by constructor. Qed.

Lemma insert_trees_ord h c :
  D (cell_val c) -> Forall (heap_ord D prio) (trees h) ->
  Forall (heap_ord D prio) (union prio (trees h) [single c]).
Proof. intros. apply union_ord; [done..|]. apply Forall_singleton. by apply heap_ord_single. Qed.

Lemma union_single_cells (ts : list (tree V)) c :
  fcells (union prio ts [single c]) ≡ₚ c :: fcells ts.
Proof. rewrite union_cells. destruct c as [[p v] r]. simpl. by rewrite (comm (++)). Qed.

Lemma union_single_elems (ts : list (tree V)) c :
  felems (union prio ts [single c]) ≡ₚ cell_val c :: felems ts.
Proof. unfold felems. by rewrite union_single_cells. Qed.

Lemma fh_insert_cells h c : fh_cells (fh_insert prio h c) ≡ₚ c :: fh_cells h.
Proof.
  unfold fh_insert, fh_cells. destruct (fmin h) as [m|]; [destruct (prio _ _)|]; simpl;
    rewrite union_single_cells; [done|constructor|done].
Qed.

Lemma fh_insert_elems h c : fh_elems (fh_insert prio h c) ≡ₚ cell_val c :: fh_elems h.
Proof. unfold fh_elems. by rewrite fh_insert_cells. Qed.

Lemma fh_insert_wf h c : D (cell_val c) -> fh_wf h -> fh_wf (fh_insert prio h c).
Proof.
  intros HD [Ht Hm]. unfold fh_insert, fh_wf.
  destruct (fmin h) as [m|] eqn:Em; simpl; [|by split; [apply insert_trees_ord|]].
  destruct Hm as [HDm Hm]. pose proof (felems_ord_D _ _ _ Ht) as HDs.
  destruct (prio (cell_val c) (cell_val m)) eqn:E; simpl;
    (split; [by apply insert_trees_ord|]); (split; [done|]);
    rewrite union_single_elems, Forall_cons; (split; [|try done]); try done.
  - by apply (swo_asym O).
  - rewrite Forall_forall in *. intros e He.
    apply (swo_neg_trans _ _ O e (cell_val m)); auto. by apply (swo_asym O).
Qed.

Lemma fh_uncache_cells h : fh_cells (fh_uncache_min prio h) ≡ₚ fh_cells h.
Proof.
  unfold fh_uncache_min. destruct (fmin h) eqn:E; [|done].
  rewrite fh_insert_cells. unfold fh_cells. by rewrite E.
Qed.

Lemma fh_uncache_fmin h : fmin (fh_uncache_min prio h) = None.
Proof. unfold fh_uncache_min. destruct (fmin h) eqn:E; done. Qed.

Lemma fh_uncache_wf h : fh_wf h -> fh_wf (fh_uncache_min prio h).
Proof.
  intros [Ht Hm]. unfold fh_uncache_min. destruct (fmin h) eqn:E; [|by split; [|rewrite E]].
  apply fh_insert_wf; [tauto|by split].
Qed.

Lemma fh_union_cells h1 h2 :
  fh_cells (fh_union prio h1 h2) ≡ₚ fh_cells h1 ++ fh_cells h2.
Proof.
  rewrite <- (fh_uncache_cells h1), <- (fh_uncache_cells h2).
  unfold fh_cells, fh_union. rewrite !fh_uncache_fmin. simpl. apply union_cells.
Qed.

Lemma fh_union_elems h1 h2 :
  fh_elems (fh_union prio h1 h2) ≡ₚ fh_elems h1 ++ fh_elems h2.
Proof. unfold fh_elems. by rewrite fh_union_cells, fmap_app. Qed.

Lemma fh_union_wf h1 h2 : fh_wf h1 -> fh_wf h2 -> fh_wf (fh_union prio h1 h2).
Proof.
  intros [H1 _]%fh_uncache_wf [H2 _]%fh_uncache_wf. split; [|done]. by apply union_ord.
Qed.

Lemma fh_cache_cells h : fh_cells (fh_cache_min prio h) ≡ₚ fh_cells h.
Proof.
  unfold fh_cache_min, fh_cells. destruct (fmin h) eqn:E; [by rewrite E|].
  destruct (extract_min prio (trees h)) as [[t|] ts] eqn:Ex; simpl.
  - symmetry. by apply (extract_min_cells prio).
  - by apply extract_min_None in Ex as [-> ->].
Qed.

Lemma fh_cache_wf h : fh_wf h -> fh_wf (fh_cache_min prio h).
Proof.
  intros [Ht Hm]. unfold fh_cache_min. destruct (fmin h) eqn:E; [by split; [|rewrite E]|].
  destruct (extract_min prio (trees h)) as [[t|] ts] eqn:Ex.
  - destruct (extract_min_ord _ _ O _ _ _ Ht Ex) as (?&?&?). by split.
  - apply extract_min_None in Ex as [_ ->]. by split; [constructor|].
Qed.

(** The cache is filled unless the heap is empty. *)
Lemma fh_cache_empty h : fmin (fh_cache_min prio h) = None -> fh_cells h = [].
Proof.
  unfold fh_cache_min, fh_cells. destruct (fmin h) eqn:E; [by rewrite E|].
  destruct (extract_min prio (trees h)) as [[t|] ts] eqn:Ex; [done|]. intros _.
  by apply extract_min_None in Ex as [-> _].
Qed.

Lemma fh_cache_best h c :
  fh_wf h -> fmin (fh_cache_min prio h) = Some c ->
  Forall (fun e => prio e (cell_val c) = false) (fh_elems h).
Proof.
  intros W E. pose proof (fh_cache_wf h W) as [_ Hm]. rewrite E in Hm. destruct Hm as [HD Hm].
  unfold fh_elems. rewrite <- fh_cache_cells. unfold fh_cells. rewrite E. simpl.
  constructor; [by apply (swo_irrefl _ _ O)|done].
Qed.

Lemma fh_take_cells h c h' : fh_take prio h = (Some c, h') -> fh_cells h ≡ₚ c :: fh_cells h'.
Proof. intros [= E <-]. rewrite <- fh_cache_cells. unfold fh_cells. by rewrite E. Qed.

Lemma fh_take_wf h : fh_wf h -> fh_wf (fh_take prio h).2.
Proof. intros [? _]%fh_cache_wf. by split. Qed.

Lemma fh_delete_at_wf (l r : list (tree V)) ctx s c :
  fh_wf (mk_fheap (l ++ plug ctx s :: r) c) -> fh_wf (fh_delete_at prio l ctx s r c).
Proof.
  intros [Ht Hm]. simpl in Ht, Hm. rewrite Forall_app, Forall_cons in Ht. destruct Ht as (Hl & Hs & Hr).
  assert (Forall (heap_ord D prio) (children (bubble ctx s))) as Hb.
  { destruct s as [p v r' cs]. by apply (bubble_ord _ _ O _ _ p v r'). }
  split; simpl.
  - apply union_ord; [done|by apply Forall_app|by rewrite Forall_reverse].
  - destruct c as [m|]; [|done]. destruct Hm as [? Hm]. split; [done|].
    rewrite felems_app, felems_cons in Hm.
    unfold felems at 1. rewrite union_cells, fcells_reverse, fmap_app.
    fold (felems (l ++ r)) (felems (children (bubble ctx s))). rewrite felems_app.
    rewrite !Forall_app in Hm |- *. destruct Hm as (?&Hb'&?). repeat split; try done.
    rewrite <- elems_bubble in Hb'. unfold elems in Hb'. rewrite cells_children in Hb'.
    by apply Forall_cons in Hb' as [_ ?].
Qed.

Lemma fh_drop_min_wf h : fh_wf h -> fh_wf (mk_fheap (trees h) None).
Proof. by intros [? _]. Qed.

Lemma fh_delete_wf P h h' : fh_wf h -> fh_delete prio P h = Some h' -> fh_wf h'.
Proof.
  intros Hw. unfold fh_delete.
  destruct (match fmin h with Some m => _ | None => false end);
    [intros [= <-]; by apply fh_drop_min_wf|].
  destruct (flocate _ [] (trees h)) as [[[[l ctx] s] r]|] eqn:E; [|done]. intros [= <-].
  apply flocate_Some in E as [El _]. apply fh_delete_at_wf. simpl in El. rewrite El. by destruct h.
Qed.

(** Deleting the node of a position removes exactly the value found there. *)
Lemma fh_delete_at_elems (l r : list (tree V)) ctx s :
  felems (l ++ plug ctx s :: r)
  ≡ₚ root_val s :: felems (union prio (l ++ r) (reverse (children (bubble ctx s)))).
Proof.
  unfold felems at 2. rewrite union_cells, fcells_reverse, fmap_app.
  fold (felems (l ++ r)) (felems (children (bubble ctx s))).
  rewrite !felems_app, felems_cons, <- elems_bubble.
  unfold elems. rewrite cells_children, fmap_cons. cbn [cell_val fst snd].
  rewrite root_val_bubble. fold (felems (children (bubble ctx s))).
  rewrite <- app_comm_cons, <- Permutation_middle, <- (assoc_L (++)).
  by rewrite (comm (++) (felems r)).
Qed.

Lemma fh_delete_elems P h h' :
  fh_delete prio P h = Some h' -> exists v, P v = true /\ fh_elems h ≡ₚ v :: fh_elems h'.
Proof.
  unfold fh_delete, fh_elems, fh_cells. intros H.
  destruct (fmin h) as [m|] eqn:Em; [destruct (P (cell_val m)) eqn:EP|].
  1: { injection H as <-. by exists (cell_val m). }
  all: destruct (flocate _ [] (trees h)) as [[[[l ctx] s] r]|] eqn:E; [|done];
    injection H as <-; apply flocate_Some in E as [El ?]; simpl in El;
    exists (root_val s); (split; [done|]); rewrite !fmap_app; fold (felems (trees h));
    rewrite <- El, fh_delete_at_elems; simpl; first [done | constructor].
Qed.

Lemma locate_total (P : V -> bool) (t : tree V) v :
  v ∈ elems t -> P v = true -> is_Some (locate (fun t => P (root_val t)) t).
Proof.
  intros Hv HP. revert Hv. induction t as [p w r cs IH] using tree_ind'. rewrite elems_Node.
  simpl. destruct (P w) eqn:Ew; [by eauto|].
  intros [->|Hv]%elem_of_cons; [congruence|].
  generalize (@nil (tree V)). induction IH as [|c cs Hc _ IHcs]; intros l.
  - by apply elem_of_nil in Hv.
  - simpl. rewrite felems_cons in Hv. destruct (locate _ c) as [[ctx s]|] eqn:El; [by eauto|].
    apply elem_of_app in Hv as [Hv|Hv]; [by destruct (Hc Hv)|by apply IHcs].
Qed.

Lemma flocate_total (P : V -> bool) (lft ts : list (tree V)) v :
  v ∈ felems ts -> P v = true -> is_Some (flocate (fun t => P (root_val t)) lft ts).
Proof.
  intros Hv HP. revert lft Hv. induction ts as [|t ts IH]; intros lft; [by intros ?%elem_of_nil|].
  rewrite felems_cons. simpl. destruct (locate _ t) as [[ctx s]|] eqn:El; [by eauto|].
  intros [Hv|Hv]%elem_of_app; [|by apply IH].
  by destruct (locate_total P t v Hv HP) as [? ?]; simplify_eq.
Qed.

(** A deletion succeeds whenever the heap has an element to delete. *)
Lemma fh_delete_total (P : V -> bool) h v :
  v ∈ fh_elems h -> P v = true -> is_Some (fh_delete prio P h).
Proof.
  unfold fh_delete, fh_elems, fh_cells. rewrite fmap_app. intros Hv HP.
  destruct (fmin h) as [m|] eqn:Em; [destruct (P (cell_val m)) eqn:EP; [by eauto|]|].
  all: apply elem_of_app in Hv as [Hv|Hv];
    [simpl in Hv; try (apply list_elem_of_singleton in Hv; congruence);
     by apply elem_of_nil in Hv|].
  all: destruct (flocate_total P [] (trees h) v Hv HP) as [[[[l ctx] s] r] E];
    rewrite E; eauto.
Qed.

End Contract.

(** ** Binomial shape

    A tree of rank [k] has children of ranks [k-1], ..., [0]; the roots of a
    heap have strictly increasing ranks.  Hence a tree of rank [k] holds [2^k]
    nodes and a heap of [n] nodes has at most [log2 n + 1] roots. *)
Inductive binom {V} : nat -> tree V -> Prop :=
  | binom_node k p v r cs : binoms k cs -> binom k (Node p v r cs)
with binoms {V} : nat -> list (tree V) -> Prop :=
  | binoms_nil : binoms 0 []
  | binoms_cons k t cs : binom k t -> binoms k cs -> binoms (S k) (t :: cs).

Scheme binom_mut := Induction for binom Sort Prop
  with binoms_mut := Induction for binoms Sort Prop.

Section Shape.
Context {V : Type} (prio : V -> V -> bool).
Implicit Types (t x y : tree V) (ts a b : list (tree V)).

Definition bforest ts : Prop :=
  Forall (fun t => binom (deg t) t) ts /\ StronglySorted lt (deg <$> ts).

Lemma binoms_length k cs : binoms (V:=V) k cs -> length cs = k.
Proof. revert cs. induction k; inversion 1; simpl; auto. Qed.

Lemma binom_deg k t : binom k t -> deg t = k.
Proof. inversion 1; subst. by apply binoms_length. Qed.

Lemma binoms_Forall k cs : binoms (V:=V) k cs -> Forall (fun t => binom (deg t) t) cs.
Proof.
  revert cs. induction k as [|k IH]; inversion 1; subst; constructor; auto.
  match goal with H : binom k _ |- _ => by rewrite (binom_deg _ _ H) end.
Qed.

Lemma binoms_degs k cs : binoms (V:=V) k cs -> deg <$> cs = reverse (seq 0 k).
Proof.
  revert cs. induction k as [|k IH]; inversion 1; subst; [done|].
  rewrite seq_S, reverse_app. simpl. f_equal; [by apply binom_deg|auto].
Qed.

(** A tree of rank [k] holds [2^k] nodes. *)
Lemma binom_size k t : binom k t -> length (cells t) = 2 ^ k.
Proof.
  revert k t. apply (binom_mut V (fun k t _ => length (cells t) = 2 ^ k)
    (fun k cs _ => S (length (fcells cs)) = 2 ^ k)).
  - intros k p v r cs _ IH. by rewrite cells_Node.
  - done.
  - intros k t cs _ IHt _ IHcs. rewrite fcells_cons, length_app. simpl. lia.
Qed.

Lemma link_binom x y k : binom k x -> binom k y -> binom (S k) (link x y).
Proof. inversion 1; subst. intros. constructor. by constructor. Qed.

Lemma link_binom_deg x y :
  binom (deg x) x -> binom (deg y) y -> deg x = deg y -> binom (deg (link x y)) (link x y).
Proof. intros Hx Hy E. apply (link_binom x y (deg x)); [done|by rewrite E]. Qed.

(** How often a rank occurs among the roots. *)
Definition rank_count (k : nat) ts : nat := length (filter (fun d => d = k) (deg <$> ts)).

Lemma rank_count_cons k t ts :
  rank_count k (t :: ts) = (if decide (deg t = k) then 1 else 0) + rank_count k ts.
Proof. unfold rank_count. rewrite fmap_cons, filter_cons. by case_decide. Qed.

Lemma rank_count_app k a b : rank_count k (a ++ b) = rank_count k a + rank_count k b.
Proof. unfold rank_count. by rewrite fmap_app, filter_app, length_app. Qed.

Lemma rank_count_perm k a b : a ≡ₚ b -> rank_count k a = rank_count k b.
Proof. intros H. unfold rank_count. by rewrite H. Qed.

Lemma rank_count_gt k ts : Forall (fun t => k < deg t) ts -> rank_count k ts = 0.
Proof.
  induction 1 as [|t ts Ht _ IH]; [done|]. rewrite rank_count_cons, IH. case_decide; lia.
Qed.

Lemma strict_rank_count k ts : StronglySorted lt (deg <$> ts) -> rank_count k ts <= 1.
Proof.
  induction ts as [|t ts IH]; [unfold rank_count; simpl; lia|]. rewrite fmap_cons, rank_count_cons.
  inversion 1 as [|? ? Hs Hf]; subst. case_decide as E; [|by apply IH].
  rewrite (rank_count_gt k); [lia|]. subst k. by rewrite Forall_fmap in Hf.
Qed.

Lemma merge_sorted a b :
  StronglySorted lt (deg <$> a) -> StronglySorted lt (deg <$> b) ->
  StronglySorted le (deg <$> merge a b).
Proof.
  assert (forall ts, StronglySorted lt (deg <$> ts) -> StronglySorted le (deg <$> ts)) as W.
  { induction ts as [|t ts IH]; [constructor|]. inversion 1; subst. constructor; [by apply IH|].
    eapply Forall_impl; [done|]. intros; lia. }
  assert (forall n ts, Forall (fun t => n <= deg t) ts -> Forall (le n) (deg <$> ts)) as F.
  { intros. by rewrite Forall_fmap. }
  revert a b. apply (merge_induction (fun a b => StronglySorted lt (deg <$> a) ->
    StronglySorted lt (deg <$> b) -> StronglySorted le (deg <$> merge a b)));
    [intros b; rewrite merge_nil_l; auto|
    intros x a; rewrite merge_nil_r; auto|intros x a y b Hd IH Ha Hb..];
    rewrite merge_cons; case_decide; try done; rewrite fmap_cons.
  - inversion Ha as [|? ? Ha' Hx]; subst. constructor; [by apply IH|].
    apply F. rewrite merge_perm, Forall_app, Forall_cons.
    inversion Hb as [|? ? _ Hy]; subst. rewrite Forall_fmap in Hx, Hy.
    split_and!; [|lia|]; eapply Forall_impl; try done; simpl; intros; lia.
  - inversion Hb as [|? ? Hb' Hy]; subst. constructor; [by apply IH|].
    apply F. rewrite merge_perm, Forall_app, Forall_cons.
    inversion Ha as [|? ? _ Hx]; subst. rewrite Forall_fmap in Hx, Hy.
    split_and!; [lia|..]; eapply Forall_impl; try done; simpl; intros; lia.
Qed.

(** Sorted root lists, seen through [rank_count]. *)
Definition roots_sorted ts : Prop := StronglySorted le (deg <$> ts).

Lemma roots_sorted_cons x ts :
  roots_sorted (x :: ts) <-> Forall (fun t => deg x <= deg t) ts /\ roots_sorted ts.
Proof.
  unfold roots_sorted. rewrite fmap_cons. split.
  - inversion 1; subst. by rewrite Forall_fmap in *.
  - intros [? ?]. constructor; [done|]. by rewrite Forall_fmap.
Qed.

Lemma rank_count_sorted_0 k y ts : roots_sorted (y :: ts) -> k < deg y -> rank_count k (y :: ts) = 0.
Proof.
  intros [H _]%roots_sorted_cons Hk. apply rank_count_gt. constructor; [done|].
  eapply Forall_impl; [exact H|]. simpl. intros; lia.
Qed.

Lemma rank_count_0_gt y ts :
  roots_sorted (y :: ts) -> rank_count (deg y) ts = 0 -> Forall (fun t => deg y < deg t) ts.
Proof.
  intros [H _]%roots_sorted_cons H0. rewrite Forall_forall in *. intros t Ht.
  specialize (H t Ht). destruct (decide (deg t = deg y)) as [E|]; [|lia]. exfalso.
  apply list_elem_of_split in Ht as (l1 & l2 & ->).
  rewrite rank_count_app, rank_count_cons in H0. case_decide; lia.
Qed.

Lemma rank_count_head x y ts :
  roots_sorted (x :: y :: ts) ->
  (deg x = deg y /\ rank_count (deg x) (y :: ts) = S (rank_count (deg x) ts)) \/
  (deg x < deg y /\ rank_count (deg x) (y :: ts) = 0).
Proof.
  intros [Hxy Hs]%roots_sorted_cons. apply Forall_cons in Hxy as [Hxy _].
  destruct (decide (deg y = deg x)) as [E|E].
  - left. rewrite rank_count_cons, decide_True by done. lia.
  - right. assert (deg x < deg y) by lia. split; [done|]. by apply rank_count_sorted_0.
Qed.

(** The loop advances unless [x] meets exactly one other tree of its rank. *)
Lemma coalesce_skip_count x y ts :
  roots_sorted (x :: y :: ts) ->
  (deg x <> deg y \/ deg <$> list.head ts = Some (deg x)) <-> rank_count (deg x) (y :: ts) <> 1.
Proof.
  intros Hs. destruct (rank_count_head x y ts Hs) as [[E ->]|[E ->]]; [|split; [lia|lia]].
  apply roots_sorted_cons in Hs as [_ Hs]. rewrite E in *. destruct ts as [|z ts].
  - unfold rank_count. simpl. intuition congruence.
  - simpl. destruct (rank_count_head y z ts Hs) as [[E' ->]|[E' ->]].
    + split; [lia|]. intros _. right. by rewrite E'.
    + split; [|lia]. intros [?|[= ?]]; lia.
Qed.

(** The union loop: from sorted roots in which no rank occurs more than twice
    after [x], it makes a forest whose ranks start at that of [x], or above it
    when [x] meets exactly one other tree of its rank. *)
Lemma coalesce_bforest x ts :
  binom (deg x) x -> Forall (fun t => binom (deg t) t) ts ->
  roots_sorted (x :: ts) -> (forall k, rank_count k ts <= 2) ->
  bforest (coalesce prio x ts) /\
  Forall (fun t => deg x + (if decide (rank_count (deg x) ts = 1) then 1 else 0) <= deg t)
    (coalesce prio x ts).
Proof.
  revert x. induction ts as [|y ts IH]; intros x Hx Hts Hs Hc.
  { cbn. repeat constructor; [done|]. unfold rank_count. simpl. lia. }
  apply Forall_cons in Hts as [Hy Hts].
  assert (forall k, rank_count k ts <= 2) as Hc'.
  { intros k. specialize (Hc k). rewrite rank_count_cons in Hc. lia. }
  specialize (Hc (deg x)). pose proof (rank_count_head x y ts Hs) as Hd.
  assert (roots_sorted (y :: ts)) as Hs' by (by apply roots_sorted_cons in Hs as [_ ?]).
  cbn [coalesce]. case_decide as Hskip; rewrite coalesce_skip_count in Hskip by done.
  - rewrite decide_False by done. destruct (IH y Hy Hts Hs' Hc') as [[Hb Hsb] Hlow].
    assert (Forall (fun t => deg x < deg t) (coalesce prio y ts)) as Hgt.
    { eapply Forall_impl; [exact Hlow|]. simpl. intros t Ht.
      destruct Hd as [[E Hn]|[E _]]; [|lia]. rewrite E in *.
      rewrite decide_True in Ht by lia. lia. }
    split; [split; [by constructor|rewrite fmap_cons; constructor; [done|by rewrite Forall_fmap]]|].
    constructor; [lia|]. eapply Forall_impl; [exact Hgt|]. simpl. intros; lia.
  - assert (rank_count (deg x) (y :: ts) = 1) as H1 by lia. rewrite decide_True by done.
    destruct Hd as [[E Hn]|[_ ?]]; [|lia]. rewrite Hn in H1. injection H1 as H0.
    assert (forall z, deg z = S (deg x) -> binom (deg z) z ->
      bforest (coalesce prio z ts) /\ Forall (fun t => deg x + 1 <= deg t) (coalesce prio z ts)) as Hz.
    { intros z Hdz Hbz. destruct (IH z Hbz Hts) as [? Hlow]; [|done|].
      - rewrite E in H0. pose proof (rank_count_0_gt y ts Hs' H0) as Hgt.
        apply roots_sorted_cons in Hs' as [_ ?]. apply roots_sorted_cons. split; [|done].
        eapply Forall_impl; [exact Hgt|]. simpl. intros; lia.
      - split; [done|]. eapply Forall_impl; [exact Hlow|]. simpl. intros; lia. }
    destruct (prio _ _); apply Hz; try (by apply link_binom_deg); unfold link, deg in *; simpl; lia.
Qed.

Lemma union_bforest a b : bforest a -> bforest b -> bforest (union prio a b).
Proof.
  intros [Ha Hsa] [Hb Hsb]. unfold union. destruct b as [|y b], a as [|x a]; try done.
  pose proof (merge_sorted _ _ Hsa Hsb) as Hs.
  pose proof (merge_Forall _ _ _ Ha Hb) as Hf.
  assert (forall k, rank_count k (merge (x :: a) (y :: b)) <= 2) as Hc.
  { intros k. rewrite (rank_count_perm _ _ _ (merge_perm _ _)), rank_count_app.
    pose proof (strict_rank_count k _ Hsa). pose proof (strict_rank_count k _ Hsb). lia. }
  destruct (merge (x :: a) (y :: b)) as [|z ts]; [split; constructor|].
  apply Forall_cons in Hf as [? ?]. apply coalesce_bforest; try done. intros k. specialize (Hc k). rewrite rank_count_cons in Hc. lia.
Qed.

Lemma bforest_remove l t r : bforest (l ++ t :: r) -> binom (deg t) t /\ bforest (l ++ r).
Proof.
  unfold bforest. rewrite !Forall_app, Forall_cons, !fmap_app, fmap_cons.
  intros [(?&?&?) Hs]. split_and!; try done. clear -Hs.
  induction l as [|x l IH]; simpl in *; inversion Hs; subst; [done|].
  constructor; [by apply IH|].
  match goal with H : Forall _ _ |- _ => rewrite Forall_app, Forall_cons in H end.
  rewrite Forall_app. naive_solver.
Qed.

Lemma children_bforest t : binom (deg t) t -> bforest (reverse (children t)).
Proof.
  destruct t as [p v r cs]. simpl. inversion 1 as [? ? ? ? ? Hcs]; subst. split.
  - rewrite Forall_reverse. by eapply binoms_Forall.
  - rewrite fmap_reverse, (binoms_degs _ _ Hcs), reverse_involutive. clear.
    generalize (deg (Node p v r cs)) 0. intros n. induction n as [|n IH]; intros m; simpl; constructor.
    + apply IH.
    + apply Forall_forall. intros k Hk%elem_of_seq. lia.
Qed.

Lemma extract_min_bforest ts t ts' :
  bforest ts -> extract_min prio ts = (Some t, ts') -> bforest ts'.
Proof.
  unfold extract_min. destruct ts as [|t0 ts]; [done|]. intros Hb.
  destruct (split_min _ _ _ _ _) as [[pre best] post] eqn:Es. intros [= -> <-].
  apply split_min_eq in Es. simpl in Es. rewrite <- Es in Hb.
  apply bforest_remove in Hb as [? ?]. apply union_bforest; [done|by apply children_bforest].
Qed.

(** Bubbling keeps the shape: only values and references move. *)
Lemma swap_up_binom f t k : binom k (fill f t) -> binom k (swap_up f t).
Proof.
  inversion 1 as [? p v r cs Hcs]; subst. constructor. clear -Hcs.
  revert Hcs. generalize (fr_left f). intros l. revert k. induction l as [|x l IH]; intros k; simpl;
    inversion 1; subst; constructor; auto.
  match goal with H : binom _ t |- _ => inversion H; subst end. by constructor.
Qed.

Lemma plug_binom_replace ctx s t k :
  (forall j, binom j s -> binom j t) -> binom k (plug ctx s) -> binom k (plug ctx t).
Proof.
  revert s t. induction ctx as [|f ctx IH]; intros s t H; simpl; [by auto|].
  apply IH. intros j. inversion 1 as [? p v r cs Hcs]; subst. constructor. clear -Hcs H.
  revert j Hcs. generalize (fr_left f). intros l. induction l as [|x l IHl]; intros j; simpl;
    inversion 1; subst; constructor; auto.
Qed.

Lemma bubble_binom ctx t k : binom k (plug ctx t) -> binom k (bubble ctx t).
Proof.
  revert t. induction ctx as [|f ctx IH]; intros t; simpl; [done|]. intros H. apply IH.
  eapply plug_binom_replace; [|exact H]. intros j. apply swap_up_binom.
Qed.

Lemma single_bforest c : bforest [single (V:=V) c].
Proof. split; repeat constructor. Qed.

(** Every operation of the heap keeps the shape. *)
Lemma fh_insert_bforest h c : bforest (trees h) -> bforest (trees (fh_insert prio h c)).
Proof.
  intros. unfold fh_insert. destruct (fmin h); [destruct (prio _ _)|];
    apply union_bforest; auto using single_bforest.
Qed.

Lemma fh_uncache_bforest h : bforest (trees h) -> bforest (trees (fh_uncache_min prio h)).
Proof. intros. unfold fh_uncache_min. destruct (fmin h); [by apply fh_insert_bforest|done]. Qed.

Lemma fh_cache_bforest h : bforest (trees h) -> bforest (trees (fh_cache_min prio h)).
Proof.
  intros. unfold fh_cache_min. destruct (fmin h); [done|].
  destruct (extract_min _ _) as [[t|] ts] eqn:E; simpl; [by eapply extract_min_bforest|].
  apply extract_min_None in E as [_ ->]. split; constructor.
Qed.

Lemma fh_delete_at_bforest (l r : list (tree V)) ctx s c :
  bforest (l ++ plug ctx s :: r) -> bforest (trees (fh_delete_at prio l ctx s r c)).
Proof.
  intros [Hp%bubble_binom ?]%bforest_remove. apply union_bforest; [done|].
  apply children_bforest. by rewrite (binom_deg _ _ Hp).
Qed.

Lemma fh_delete_bforest P h h' :
  bforest (trees h) -> fh_delete prio P h = Some h' -> bforest (trees h').
Proof.
  intros Hb. unfold fh_delete. case_match; [by intros [= <-]|].
  destruct (flocate _ _ _) as [[[[l ctx] s] r]|] eqn:E; [|done]. intros [= <-].
  apply flocate_Some in E as [El _]. simpl in El. rewrite <- El in Hb. by apply fh_delete_at_bforest.
Qed.

Lemma fh_union_bforest h1 h2 :
  bforest (trees h1) -> bforest (trees h2) -> bforest (trees (fh_union prio h1 h2)).
Proof. intros. apply union_bforest; by apply fh_uncache_bforest. Qed.

(** A forest of [k] trees holds at least [2^k - 1] values: the loops over the
    root list take logarithmically many steps. *)
Lemma bforest_from_size k ts :
  bforest ts -> Forall (fun t => k <= deg t) ts -> 2 ^ (k + length ts) <= 2 ^ k + length (fcells ts).
Proof.
  revert k. induction ts as [|t ts IH]; intros k [Hb Hs] Hk; [simpl; rewrite Nat.add_0_r; lia|].
  apply Forall_cons in Hb as [Hbt Hb], Hk as [Hkt Hk]. simpl in Hs. apply StronglySorted_inv in Hs as [Hs Hlt].
  rewrite fcells_cons, length_app, (binom_size _ _ Hbt).
  specialize (IH (S (deg t))). rewrite Forall_fmap in Hlt.
  assert (2 ^ (S (deg t) + length ts) <= 2 ^ (S (deg t)) + length (fcells ts)) as H
    by (apply IH; [by split|exact Hlt]).
  cbn [length]. assert (2 ^ k <= 2 ^ deg t) by (apply Nat.pow_le_mono_r; lia).
  rewrite !Nat.pow_add_r in *. simpl in *. nia.
Qed.

Lemma bforest_log ts : bforest ts -> 2 ^ length ts <= S (length (fcells ts)).
Proof.
  intros Hb. pose proof (bforest_from_size 0 ts Hb) as H. simpl in H. apply H.
  apply Forall_forall. intros. lia.
Qed.

End Shape.
