(* ===== verification/BHeapRefine.v ===== *)
(** * The pointer heap implements the abstract heap

    [hrepr m h fh]: in memory [m], the [struct bheap] [h] of
    src/litmus2010/litmus/bheap.c represents the abstract heap [fh].  Every
    operation of [BHeap], run on a represented heap, terminates without a
    fault and leaves the heap that the operation of [BinForest] computes;
    nodes outside the heap are untouched. *)

From S2P Require Import Prelude BHeap BinForest.

#[global] Arguments merge {V} a b : simpl never.
#[global] Typeclasses Opaque addrs faddrs.

(** ** Steps of the machine *)
Section Steps.
Context {V : Type}.
Implicit Types (m : mem V) (n : bheap_node V).

Definition upd m (p : positive) n : mem V := mk_mem (<[p := n]> (nodes m)) (vars m).

Lemma load_bind {B} (k : bheap_node V -> M (mem V) B) m p n :
  nodes m !! p = Some n -> (x ← load (Some p); k x) m = k n m.
Proof. intros H. unfold mbind, M_bind, load. simpl. by rewrite H. Qed.

Lemma store_bind {B} (f : bheap_node V -> bheap_node V) (k : unit -> M (mem V) B) m p n :
  nodes m !! p = Some n -> (x ← store (Some p) f; k x) m = k tt (upd m p (f n)).
Proof. intros H. unfold mbind, M_bind, store. simpl. by rewrite H. Qed.

Lemma store_ok (f : bheap_node V -> bheap_node V) m p n :
  nodes m !! p = Some n -> store (Some p) f m = Some (tt, upd m p (f n)).
Proof. intros H. unfold store. simpl. by rewrite H. Qed.

Lemma gets_bind {A B} (f : mem V -> A) (k : A -> M (mem V) B) m :
  (x ← gets f; k x) m = k (f m) m.
Proof. done. Qed.

Lemma mret_bind {A B} (a : A) (k : A -> M (mem V) B) m : (x ← mret a; k x) m = k a m.
Proof. done. Qed.

Lemma bind_assoc {A B C} (c : M (mem V) A) (f : A -> M (mem V) B) (g : B -> M (mem V) C) m :
  (y ← (x ← c; f x); g y) m = (x ← c; y ← f x; g y) m.
Proof. unfold mbind, M_bind. by destruct (c m) as [[? ?]|]. Qed.

(** What an operation on the nodes [S] may change. *)
Definition frame_eq (S : list positive) m m' : Prop :=
  (forall p, p ∉ S -> nodes m' !! p = nodes m !! p) /\
  vars m' = vars m /\ dom (nodes m') = dom (nodes m).

Lemma frame_eq_refl S m : frame_eq S m m.
Proof. done. Qed.

Lemma frame_eq_trans S m1 m2 m3 : frame_eq S m1 m2 -> frame_eq S m2 m3 -> frame_eq S m1 m3.
Proof.
  intros (H1&V1&D1) (H2&V2&D2). split_and!; [|congruence|congruence].
  intros p Hp. rewrite H2, H1; done.
Qed.

Lemma frame_eq_weaken S S' m m' : S ⊆ S' -> frame_eq S m m' -> frame_eq S' m m'.
Proof. intros HS (H&?&?). split_and!; [|done..]. intros p Hp. apply H. set_solver. Qed.

Lemma frame_eq_upd S m p n n' : nodes m !! p = Some n -> p ∈ S -> frame_eq S m (upd m p n').
Proof.
  intros Hn HS. split_and!; [|done|].
  - intros q Hq. simpl. rewrite lookup_insert_ne; set_solver.
  - simpl. rewrite dom_insert_lookup_L; [done|by eauto].
Qed.

Lemma frame_eq_size S m m' : frame_eq S m m' -> size (nodes m') = size (nodes m).
Proof. intros (_&_&D). by rewrite <- !size_dom, D. Qed.

End Steps.

(** ** Representation of trees and root lists *)
Section Repr.
Context {V : Type}.
Implicit Types (N : gmap positive (bheap_node V)) (t : tree V) (ts : list (tree V)).

(** The address of the first root, or [last] for an empty list. *)
Definition hd_or (last : option positive) ts : option positive :=
  match ts with [] => last | t :: _ => Some (root_ptr t) end.

Definition tree_node (par nxt : option positive) t : bheap_node V :=
  mk_node par nxt (hd_or None (children t)) (Z.of_nat (deg t)) (root_val t) (root_ref t).

(** [t] is laid out in [N], with parent [par] and successor [nxt]. *)
Fixpoint trepr N (par nxt : option positive) t : Prop :=
  N !! root_ptr t = Some (tree_node par nxt t) /\
  match t with
  | Node p v r cs =>
      (fix go (cs : list (tree V)) : Prop :=
         match cs with
         | [] => True
         | c :: cs' => trepr N (Some p) (hd_or None cs') c /\ go cs'
         end) cs
  end.

(** The list [ts] is laid out in [N]; its last node points to [last]. *)
Fixpoint frepr N (par last : option positive) ts : Prop :=
  match ts with
  | [] => True
  | t :: ts' => trepr N par (hd_or last ts') t /\ frepr N par last ts'
  end.

Lemma trepr_eq N par nxt t :
  trepr N par nxt t <->
  N !! root_ptr t = Some (tree_node par nxt t) /\
  frepr N (Some (root_ptr t)) None (children t).
Proof.
  destruct t as [p v r cs]. simpl. f_equiv.
  induction cs as [|c cs IH]; simpl; [done|]. by rewrite IH.
Qed.

Lemma frepr_app N par last a b :
  frepr N par last (a ++ b) <-> frepr N par (hd_or last b) a /\ frepr N par last b.
Proof.
  induction a as [|t a IH]; simpl; [naive_solver|]. rewrite IH.
  assert (hd_or last (a ++ b) = hd_or (hd_or last b) a) as -> by (by destruct a). naive_solver.
Qed.

Lemma addrs_eq t : addrs t = root_ptr t :: faddrs (children t).
Proof. by destruct t. Qed.
Lemma faddrs_nil : faddrs (V:=V) [] = [].
Proof. done. Qed.
Lemma faddrs_cons t ts : faddrs (t :: ts) = addrs t ++ faddrs ts.
Proof. unfold faddrs. by rewrite fcells_cons, fmap_app. Qed.
Lemma faddrs_app (a b : list (tree V)) : faddrs (a ++ b) = faddrs a ++ faddrs b.
Proof. unfold faddrs. by rewrite fcells_app, fmap_app. Qed.

(** Only the addresses of the tree matter. *)
Lemma trepr_frame N N' par nxt t :
  (forall p, p ∈ addrs t -> N' !! p = N !! p) -> trepr N par nxt t -> trepr N' par nxt t.
Proof.
  revert par nxt. induction t as [p v r cs IH] using tree_ind'. intros par nxt HN.
  rewrite !trepr_eq. cbn [children root_ptr]. intros [Hp Hcs]. rewrite addrs_eq in HN.
  cbn [children root_ptr] in HN. split; [rewrite HN; [done|set_solver]|].
  assert (forall q, q ∈ faddrs cs -> N' !! q = N !! q) as HN' by set_solver.
  clear Hp HN. revert HN' Hcs. generalize (@None positive) as last. intros last.
  induction IH as [|c cs Hc _ IHcs]; intros HN'; [done|]. simpl. rewrite faddrs_cons in HN'.
  intros [H1 H2]. split; [apply Hc; [set_solver|done]|apply IHcs; [set_solver|done]].
Qed.

Lemma frepr_frame N N' par last ts :
  (forall p, p ∈ faddrs ts -> N' !! p = N !! p) -> frepr N par last ts -> frepr N' par last ts.
Proof.
  revert last. induction ts as [|t ts IH]; intros last HN; [done|]. rewrite faddrs_cons in HN. simpl.
  intros [H1 H2]. split; [eapply trepr_frame; [|done]; set_solver|apply IH; [set_solver|done]].
Qed.

Lemma trepr_insert_ne N p n par nxt t :
  p ∉ addrs t -> trepr N par nxt t -> trepr (<[p := n]> N) par nxt t.
Proof. intros Hp. apply trepr_frame. intros q Hq. rewrite lookup_insert_ne; set_solver. Qed.

Lemma frepr_insert_ne N p n par last ts :
  p ∉ faddrs ts -> frepr N par last ts -> frepr (<[p := n]> N) par last ts.
Proof. intros Hp. apply frepr_frame. intros q Hq. rewrite lookup_insert_ne; set_solver. Qed.

Lemma trepr_root N par nxt t : trepr N par nxt t -> N !! root_ptr t = Some (tree_node par nxt t).
Proof. by intros [? _]%trepr_eq. Qed.

(** Rewriting the parent and successor of a root. *)
Lemma trepr_reroot N par nxt par' nxt' t :
  NoDup (addrs t) -> trepr N par nxt t ->
  trepr (<[root_ptr t := tree_node par' nxt' t]> N) par' nxt' t.
Proof.
  rewrite addrs_eq. intros [Hp _]%NoDup_cons [_ Hc]%trepr_eq. apply trepr_eq.
  split; [by rewrite lookup_insert_eq|]. by apply frepr_insert_ne.
Qed.

Lemma root_in_addrs t : root_ptr t ∈ addrs t.
Proof. rewrite addrs_eq. set_solver. Qed.

Lemma addrs_in_dom N par nxt t : trepr N par nxt t -> forall p, p ∈ addrs t -> p ∈ dom N.
Proof.
  revert par nxt. induction t as [p v r cs IH] using tree_ind'. intros par nxt.
  rewrite trepr_eq, addrs_eq. cbn [children root_ptr]. intros [Hp Hcs] q Hq.
  apply elem_of_cons in Hq as [->|Hq]; [apply elem_of_dom; eauto|].
  revert Hcs Hq. generalize (@None positive). clear Hp.
  induction IH as [|c cs Hc _ IHcs]; intros last; [intros _ ?%elem_of_nil; done|].
  simpl. rewrite faddrs_cons. intros [H1 H2] [Hq|Hq]%elem_of_app; eauto.
Qed.

Lemma faddrs_in_dom N par last ts : frepr N par last ts -> forall p, p ∈ faddrs ts -> p ∈ dom N.
Proof.
  induction ts as [|t ts IH]; [intros _ ? ?%elem_of_nil; done|].
  simpl. rewrite faddrs_cons. intros [? ?] p [?|?]%elem_of_app; eauto using addrs_in_dom.
Qed.

(** A represented forest has no more nodes than the memory. *)
Lemma addrs_bound N (l : list positive) :
  NoDup l -> (forall p, p ∈ l -> p ∈ dom N) -> length l <= size N.
Proof.
  intros Hn Hd. rewrite <- (size_list_to_set (C:=gset positive) l) by done.
  rewrite <- size_dom. apply subseteq_size. intros p. rewrite elem_of_list_to_set. auto.
Qed.

Lemma length_faddrs ts : length ts <= length (faddrs ts).
Proof.
  induction ts as [|t ts IH]; [done|]. rewrite faddrs_cons, addrs_eq, length_app. simpl. lia.
Qed.

End Repr.

(** Splitting [NoDup] facts about addresses, and solving what is left. *)
Ltac addr_split :=
  repeat match goal with
  | H : NoDup (_ ++ _) |- _ => apply NoDup_app in H as (? & ? & ?)
  | H : NoDup (faddrs (_ ++ _)) |- _ => rewrite faddrs_app in H
  | H : NoDup (faddrs (_ :: _)) |- _ => rewrite faddrs_cons in H
  | H : context [_ ∈ faddrs (_ ++ _)] |- _ => rewrite faddrs_app in H
  | H : context [_ ∈ faddrs (_ :: _)] |- _ => rewrite faddrs_cons in H
  end.
Ltac addr_clear :=
  repeat match goal with
  | H : ?P |- _ =>
      lazymatch P with
      | _ ∈ _ => fail
      | _ ∉ _ => fail
      | forall x, x ∈ _ -> x ∉ _ => fail
      | _ => lazymatch type of P with Prop => clear H end
      end
  end.
Ltac prop_clear :=
  repeat match goal with
  | H : ?P |- _ => lazymatch type of P with Prop => clear H end
  end.
Ltac addr_solver :=
  lazymatch goal with
  | |- _ ⊆ _ => rewrite ?faddrs_app, ?faddrs_cons, ?faddrs_nil; prop_clear; set_solver
  | |- _ => idtac
  end;
  addr_split;
  first [assumption|
    rewrite ?faddrs_app, ?faddrs_cons, ?faddrs_nil in *; addr_clear;
    repeat match goal with t : tree _ |- _ =>
      lazymatch goal with
      | H : root_ptr t ∈ addrs t |- _ => fail
      | |- _ => pose proof (root_in_addrs t)
      end end;
    lazymatch goal with
    | |- _ <> _ => let E := fresh in intros E; rewrite E in *; set_solver
    | |- _ => set_solver
    end].

Section Operations.
Context {V : Type}.
Implicit Types (m : mem V) (t x : tree V) (ts a b done : list (tree V)).

(** The location written through [pos] is the successor field of the last root
    of [done]. *)
Definition pos_of done : option positive := root_ptr <$> last done.

Lemma pos_of_snoc done t : pos_of (done ++ [t]) = Some (root_ptr t).
Proof. unfold pos_of. by rewrite last_snoc. Qed.

(** Redirecting the end of a root list. *)
Lemma store_pos_spec done m X y head_ :
  frepr (nodes m) None X done -> NoDup (faddrs done) ->
  (done <> [] -> head_ = hd_or None done) ->
  exists m', store_pos (pos_of done) y head_ m = Some (hd_or y done, m') /\
    frepr (nodes m') None y done /\ frame_eq (faddrs done) m m'.
Proof.
  destruct done as [|t d _] using rev_ind; intros Hf Hn Hh.
  - exists m. simpl. by split_and!.
  - rewrite pos_of_snoc. apply frepr_app in Hf as [Hd [Ht _]]. simpl in Hd, Ht.
    pose proof (trepr_root _ _ _ _ Ht) as Hr.
    exists (upd m (root_ptr t) (tree_node None y t)). simpl.
    rewrite (store_bind _ _ _ _ _ Hr). split_and!.
    + rewrite Hh by (by destruct d). by destruct d.
    + apply frepr_app. simpl. split_and!; [|by eapply trepr_reroot; [addr_solver|]|done].
      apply frepr_insert_ne; [addr_solver|done].
    + eapply frame_eq_upd; [done|]. addr_solver.
Qed.

Lemma hd_or_app done c : hd_or None (done ++ c) = hd_or (hd_or None c) done.
Proof. by destruct done. Qed.

(** The end of the merge: the rest of one list is appended. *)
Lemma root_append done c m X head_ :
  frepr (nodes m) None X done -> frepr (nodes m) None None c ->
  NoDup (faddrs (done ++ c)) -> (done <> [] -> head_ = hd_or None done) ->
  exists m', store_pos (pos_of done) (hd_or None c) head_ m = Some (hd_or None (done ++ c), m') /\
    frepr (nodes m') None None (done ++ c) /\ frame_eq (faddrs done) m m'.
Proof.
  intros Hd Hc Hn Hh.
  destruct (store_pos_spec done m X (hd_or None c) head_ Hd) as (m' & E & Hf & Hfr); [addr_solver|done|].
  exists m'. rewrite hd_or_app. split_and!; [done| |done]. apply frepr_app. split; [done|].
  eapply frepr_frame; [|exact Hc]. intros p Hp. apply Hfr. addr_solver.
Qed.

(** One step of the merge: the first root of a list is appended. *)
Lemma root_advance done x c d m X head_ :
  frepr (nodes m) None X done -> frepr (nodes m) None None (x :: c) ->
  frepr (nodes m) None None d -> NoDup (faddrs (done ++ (x :: c) ++ d)) ->
  (done <> [] -> head_ = hd_or None done) ->
  exists m', store_pos (pos_of done) (Some (root_ptr x)) head_ m
      = Some (hd_or None (done ++ [x]), m') /\
    frepr (nodes m') None (hd_or None c) (done ++ [x]) /\
    frepr (nodes m') None None c /\ frepr (nodes m') None None d /\
    nodes m' !! root_ptr x = Some (tree_node None (hd_or None c) x) /\
    frame_eq (faddrs done) m m'.
Proof.
  intros Hd [Hx Hc] Hdd Hn Hh.
  destruct (store_pos_spec done m X (Some (root_ptr x)) head_ Hd) as (m' & E & Hf & Hfr); [addr_solver|done|].
  assert (trepr (nodes m') None (hd_or None c) x) as Hx'.
  { eapply trepr_frame; [|exact Hx]. intros p Hp. apply Hfr. addr_solver. }
  exists m'. rewrite hd_or_app. split_and!; [done| | | |by apply trepr_root|done].
  - apply frepr_app. by split_and!.
  - eapply frepr_frame; [|exact Hc]. intros p Hp. apply Hfr. addr_solver.
  - eapply frepr_frame; [|exact Hdd]. intros p Hp. apply Hfr. addr_solver.
Qed.

Lemma degree_ltb x (y : tree V) px nx py ny :
  (degree (tree_node px nx x) <? degree (tree_node py ny y))%Z = bool_decide (deg x < deg y).
Proof. simpl. case_bool_decide; lia. Qed.

Lemma merge_loop_spec fuel done a b m X head_ :
  length a + length b < fuel ->
  frepr (nodes m) None X done -> frepr (nodes m) None None a -> frepr (nodes m) None None b ->
  NoDup (faddrs (done ++ a ++ b)) -> (done <> [] -> head_ = hd_or None done) ->
  exists m', __bheap_merge_loop fuel head_ (pos_of done) (hd_or None a) (hd_or None b) m
      = Some (hd_or None (done ++ merge a b), m') /\
    frepr (nodes m') None None (done ++ merge a b) /\
    frame_eq (faddrs (done ++ a ++ b)) m m'.
Proof.
  revert done a b m X head_. induction fuel as [|fuel IH]; intros done a b m X head_ Hl Hd Ha Hb Hn Hh; [lia|].
  destruct a as [|x a].
  { rewrite merge_nil_l. destruct (root_append done b m X head_) as (m' & ? & ? & ?); try done.
    exists m'. split_and!; [done..|]. eapply frame_eq_weaken; [|done]. addr_solver. }
  destruct b as [|y b].
  { rewrite merge_nil_r. rewrite app_nil_r in Hn |- *.
    destruct (root_append done (x :: a) m X head_) as (m' & ? & ? & ?); try done.
    exists m'. split_and!; [done..|]. eapply frame_eq_weaken; [|done]. addr_solver. }
  pose proof (trepr_root _ _ _ _ (proj1 Ha)) as Hrx. pose proof (trepr_root _ _ _ _ (proj1 Hb)) as Hry.
  cbn [__bheap_merge_loop hd_or]. rewrite (load_bind _ _ _ _ Hrx), (load_bind _ _ _ _ Hry), merge_cons, degree_ltb.
  case_bool_decide as Hdeg; [rewrite decide_True by done|rewrite decide_False by done].
  - destruct (root_advance done x a (y :: b) m X head_) as (m1 & E & Hd1 & Ha1 & Hb1 & Hr1 & Hfr); try done.
    rewrite (bind_ok _ _ _ _ _ E), (load_bind _ _ _ _ Hr1).
    destruct (IH (done ++ [x]) a (y :: b) m1 (hd_or None a) (hd_or None (done ++ [x])))
      as (m2 & E2 & Hf2 & Hfr2); try done; [simpl in *; lia|by rewrite <- (assoc_L (++))|].
    rewrite pos_of_snoc in E2. rewrite <- !app_assoc in E2, Hf2, Hfr2. exists m2.
    split_and!; [done..|]. eapply frame_eq_trans; [|exact Hfr2].
    eapply frame_eq_weaken; [|exact Hfr]. addr_solver.
  - assert (NoDup (faddrs (done ++ (y :: b) ++ (x :: a)))) as Hn'.
    { rewrite !faddrs_app in *. by rewrite (comm (++) (faddrs (y :: b))). }
    destruct (root_advance done y b (x :: a) m X head_) as (m1 & E & Hd1 & Hb1 & Ha1 & Hr1 & Hfr); try done.
    rewrite (bind_ok _ _ _ _ _ E), (load_bind _ _ _ _ Hr1).
    destruct (IH (done ++ [y]) (x :: a) b m1 (hd_or None b) (hd_or None (done ++ [y])))
      as (m2 & E2 & Hf2 & Hfr2); try done; [simpl in *; lia| |].
    { eapply NoDup_Permutation_proper; [|exact Hn']. rewrite !faddrs_app, !faddrs_cons, app_nil_r.
      rewrite <- !app_assoc. do 2 apply Permutation_app_head.
      rewrite app_assoc. apply Permutation_app_comm. }
    rewrite pos_of_snoc in E2. rewrite <- !app_assoc in E2, Hf2, Hfr2. exists m2.
    split_and!; [done..|]. eapply frame_eq_trans; [eapply frame_eq_weaken; [|exact Hfr]|
      eapply frame_eq_weaken; [|exact Hfr2]]; addr_solver.
Qed.

(** [__bheap_merge] merges two represented root lists. *)
Lemma merge_spec a b m :
  frepr (nodes m) None None a -> frepr (nodes m) None None b -> NoDup (faddrs (a ++ b)) ->
  exists m', __bheap_merge (hd_or None a) (hd_or None b) m = Some (hd_or None (merge a b), m') /\
    frepr (nodes m') None None (merge a b) /\ frame_eq (faddrs (a ++ b)) m m'.
Proof.
  intros Ha Hb Hn. unfold __bheap_merge. rewrite gets_bind.
  apply (merge_loop_spec _ [] a b m None None); try done.
  unfold loop_fuel. pose proof (length_faddrs (a ++ b)).
  pose proof (addrs_bound (nodes m) _ Hn) as Hsz. rewrite length_app in *.
  assert (length (faddrs (a ++ b)) <= size (nodes m)); [|lia]. apply Hsz.
  intros p. rewrite faddrs_app, elem_of_app. intros [?|?]; eauto using faddrs_in_dom.
Qed.

(** [__bheap_link] makes one root the first child of another. *)
Lemma link_spec x (y : tree V) m nx ny :
  trepr (nodes m) None nx x -> trepr (nodes m) None ny y -> NoDup (addrs x ++ addrs y) ->
  (Z.of_nat (deg x) < UINT_MAX)%Z ->
  exists m', __bheap_link (Some (root_ptr x)) (Some (root_ptr y)) m = Some (tt, m') /\
    trepr (nodes m') None nx (link x y) /\ frame_eq (addrs x ++ addrs y) m m'.
Proof.
  intros Hx Hy Hn Hdeg. apply NoDup_app in Hn as (Hnx & Hxy & Hny).
  pose proof (trepr_root _ _ _ _ Hx) as Hrx. pose proof (trepr_root _ _ _ _ Hy) as Hry.
  assert (root_ptr x <> root_ptr y) as Hne by addr_solver.
  unfold __bheap_link. rewrite (store_bind _ _ _ _ _ Hry).
  set (m1 := upd m _ _).
  rewrite (load_bind _ m1 _ (tree_node None nx x)) by (by simpl; rewrite lookup_insert_ne).
  rewrite (store_bind _ _ m1 _ (set_parent (Some (root_ptr x)) (tree_node None ny y)))
    by (by simpl; rewrite lookup_insert_eq).
  set (m2 := upd m1 _ _).
  rewrite (store_bind _ _ m2 _ (tree_node None nx x)) by (by simpl; rewrite !lookup_insert_ne).
  set (m3 := upd m2 _ _).
  rewrite (store_ok _ m3 _ (set_child (Some (root_ptr y)) (tree_node None nx x)))
    by (by simpl; rewrite lookup_insert_eq).
  set (m4 := upd m3 _ _). exists m4. split_and!; [done| |].
  - apply trepr_eq. cbn [root_ptr link children]. split.
    + simpl. rewrite lookup_insert_eq. unfold set_degree, tree_node, u32. simpl.
      do 2 f_equal. rewrite Z.mod_small by (unfold UINT_MAX, two32 in *; lia). unfold deg. simpl. lia.
    + apply trepr_eq in Hx as [_ Hcx]. rewrite addrs_eq in Hnx. apply NoDup_cons in Hnx as [Hpx _].
      assert (root_ptr y ∉ faddrs (children x)) as Hpy.
      { intros ?. eapply (Hxy (root_ptr y)); [rewrite addrs_eq; set_solver|apply root_in_addrs]. }
      cbn [frepr]. split.
      * subst m4 m3 m2 m1. simpl. do 2 (apply trepr_insert_ne; [addr_solver|]).
        rewrite insert_insert_eq. by apply (trepr_reroot _ None ny).
      * subst m4 m3 m2 m1. simpl. by do 4 (apply frepr_insert_ne; [done|]).
  - assert (root_ptr y ∈ addrs x ++ addrs y) by addr_solver.
    assert (root_ptr x ∈ addrs x ++ addrs y) by addr_solver.
    apply (frame_eq_trans _ _ m1); [by eapply frame_eq_upd|].
    apply (frame_eq_trans _ _ m2); [eapply frame_eq_upd; [|done]; by simpl; rewrite lookup_insert_eq|].
    apply (frame_eq_trans _ _ m3); [eapply frame_eq_upd; [|done]; by simpl; rewrite !lookup_insert_ne|].
    eapply frame_eq_upd; [|done]. by simpl; rewrite lookup_insert_eq.
Qed.

(** Counters never wrap: a memory holds fewer nodes than [UINT_MAX]. *)
Definition bounded m : Prop := (Z.of_nat (size (nodes m)) < UINT_MAX)%Z.

Lemma bounded_frame S m m' : frame_eq S m m' -> bounded m -> bounded m'.
Proof. intros Hf. unfold bounded. by rewrite (frame_eq_size _ _ _ Hf). Qed.

Lemma deg_bounded m par last ts t :
  bounded m -> frepr (nodes m) par last ts -> NoDup (faddrs ts) -> t ∈ ts ->
  (Z.of_nat (deg t) < UINT_MAX)%Z.
Proof.
  intros Hb Hf Hn Ht. pose proof (addrs_bound _ _ Hn (faddrs_in_dom _ _ _ _ Hf)) as Hs.
  assert (deg t <= length (faddrs ts)); [|unfold bounded in Hb; lia].
  apply list_elem_of_split in Ht as (l1 & l2 & ->). rewrite faddrs_app, faddrs_cons, addrs_eq, !length_app.
  simpl. pose proof (length_faddrs (children t)). unfold deg. lia.
Qed.

Lemma addrs_link x (y : tree V) : addrs (link x y) ≡ₚ addrs x ++ addrs y.
Proof. unfold addrs. by rewrite cells_link, fmap_app. Qed.

Lemma faddrs_link done x (y : tree V) ts :
  faddrs (done ++ link x y :: ts) ≡ₚ faddrs (done ++ x :: y :: ts).
Proof. rewrite !faddrs_app, !faddrs_cons, addrs_link. by rewrite <- (assoc_L (++)). Qed.

Lemma faddrs_swap done x (y : tree V) ts :
  faddrs (done ++ y :: x :: ts) ≡ₚ faddrs (done ++ x :: y :: ts).
Proof.
  rewrite !faddrs_app, !faddrs_cons, !(assoc_L (++)). apply Permutation_app_tail.
  rewrite <- !app_assoc. apply Permutation_app_head, Permutation_app_comm.
Qed.

(** The two linking branches of the union loop: [x] and its successor [y]
    become one tree in the place of both. *)
Lemma union_link_x done x (y : tree V) ts m :
  frepr (nodes m) None None (done ++ x :: y :: ts) -> NoDup (faddrs (done ++ x :: y :: ts)) ->
  bounded m ->
  exists m', (store (Some (root_ptr x)) (set_next (hd_or None ts));;
              __bheap_link (Some (root_ptr x)) (Some (root_ptr y))) m = Some (tt, m') /\
    frepr (nodes m') None None (done ++ link x y :: ts) /\
    frame_eq (faddrs (done ++ x :: y :: ts)) m m'.
Proof.
  intros Hf Hn Hb.
  assert (Z.of_nat (deg x) < UINT_MAX)%Z as Hdx by (eapply deg_bounded; [done..|]; set_solver).
  apply frepr_app in Hf as [Hd [Hx [Hy Hts]]]. simpl in Hd, Hx.
  pose proof (trepr_root _ _ _ _ Hx) as Hrx. rewrite (store_bind _ _ _ _ _ Hrx). simpl.
  set (m1 := upd m _ _).
  assert (frame_eq (addrs x) m m1) as Hf1 by (eapply frame_eq_upd; [done|apply root_in_addrs]).
  destruct (link_spec x y m1 (hd_or None ts) (hd_or None ts)) as (m' & E & Hl & Hf2); try done.
  { apply (trepr_reroot _ None (Some (root_ptr y))); [addr_solver|done]. }
  { apply trepr_insert_ne; [addr_solver|done]. }
  { rewrite faddrs_app, !faddrs_cons, (assoc_L (++) (addrs x)) in Hn. addr_split. by apply NoDup_app. }
  exists m'. split_and!; [done| |].
  - assert (frame_eq (addrs x ++ addrs y) m m') as Hfr.
    { eapply frame_eq_trans; [eapply frame_eq_weaken; [|exact Hf1]; set_solver|done]. }
    apply frepr_app. cbn [frepr]. split_and!; [|done|]; (eapply frepr_frame; [|eassumption]);
      intros p Hp; apply Hfr; addr_solver.
  - eapply frame_eq_trans; (eapply frame_eq_weaken; [|eassumption]); addr_solver.
Qed.

Lemma union_link_y done x (y : tree V) ts m head_ :
  frepr (nodes m) None None (done ++ x :: y :: ts) -> NoDup (faddrs (done ++ x :: y :: ts)) ->
  bounded m -> head_ = hd_or None (done ++ x :: y :: ts) ->
  exists m', (h1 ← store_pos (pos_of done) (Some (root_ptr y)) head_;
              __bheap_link (Some (root_ptr y)) (Some (root_ptr x));; mret h1) m
      = Some (hd_or None (done ++ link y x :: ts), m') /\
    frepr (nodes m') None None (done ++ link y x :: ts) /\
    frame_eq (faddrs (done ++ x :: y :: ts)) m m'.
Proof.
  intros Hf Hn Hb Hh.
  assert (Z.of_nat (deg y) < UINT_MAX)%Z as Hdy by (eapply deg_bounded; [done..|]; set_solver).
  apply frepr_app in Hf as [Hd [Hx [Hy Hts]]]. simpl in Hd, Hx.
  destruct (store_pos_spec done m (Some (root_ptr x)) (Some (root_ptr y)) head_ Hd)
    as (m1 & E1 & Hd1 & Hf1); [addr_solver|by destruct done|].
  rewrite (bind_ok _ _ _ _ _ E1).
  destruct (link_spec y x m1 (hd_or None ts) (Some (root_ptr y))) as (m' & E & Hl & Hf2); try done.
  { eapply trepr_frame; [|exact Hy]. intros p Hp. apply Hf1. addr_solver. }
  { eapply trepr_frame; [|exact Hx]. intros p Hp. apply Hf1. addr_solver. }
  { rewrite <- faddrs_swap in Hn. rewrite faddrs_app, !faddrs_cons, (assoc_L (++) (addrs y)) in Hn.
    addr_split. by apply NoDup_app. }
  rewrite (bind_ok _ _ _ _ _ E). exists m'. split_and!.
  - unfold mret, M_ret. by rewrite hd_or_app.
  - apply frepr_app. cbn [frepr]. split_and!; [|done|].
    + eapply frepr_frame; [|exact Hd1]. intros p Hp. apply Hf2. addr_solver.
    + eapply frepr_frame; [|exact Hts]. intros p Hp. transitivity (nodes m1 !! p); [apply Hf2|apply Hf1]; addr_solver.
  - eapply frame_eq_trans; (eapply frame_eq_weaken; [|eassumption]); addr_solver.
Qed.

Variable prio : V -> V -> bool.

(** The priority function of a heap looks at the values of the two nodes. *)
Definition order : bheap_prio_t V := fun n1 n2 => prio (value n1) (value n2).

(** The condition under which the union loop advances. *)
Lemma union_skip_test x (y : tree V) ts m px nx py :
  frepr (nodes m) None None ts ->
  (if negb (degree (tree_node px nx x) =? degree (tree_node py (hd_or None ts) y))%Z then mret true
   else match next (tree_node py (hd_or None ts) y) with
        | None => mret false
        | Some _ => nnn ← load (next (tree_node py (hd_or None ts) y));
                    mret (degree nnn =? degree (tree_node px nx x))%Z
        end) m
  = Some (bool_decide (deg x <> deg y \/ deg <$> list.head ts = Some (deg x)), m).
Proof.
  intros Hts. cbn [degree next tree_node].
  destruct (Z.eqb_spec (Z.of_nat (deg x)) (Z.of_nat (deg y))) as [E|E]; simpl.
  2: { rewrite bool_decide_true; [done|]. left. lia. }
  destruct ts as [|z ts]; simpl.
  { rewrite bool_decide_false; [done|]. intros [?|?]; [lia|done]. }
  simpl in Hts. rewrite (load_bind _ _ _ _ (trepr_root _ _ _ _ (proj1 Hts))). simpl.
  unfold mret, M_ret. do 2 f_equal. case_bool_decide as Hc.
  - apply Z.eqb_eq. destruct Hc as [?|[= ?]]; lia.
  - apply Z.eqb_neq. intros ?. apply Hc. right. f_equal. lia.
Qed.

Lemma union_loop_spec fuel done x ts m :
  length ts < fuel -> frepr (nodes m) None None (done ++ x :: ts) ->
  NoDup (faddrs (done ++ x :: ts)) -> bounded m ->
  exists m', __bheap_union_loop order fuel (hd_or None (done ++ x :: ts)) (pos_of done)
               (Some (root_ptr x)) (hd_or None ts) m
      = Some (hd_or None (done ++ coalesce prio x ts), m') /\
    frepr (nodes m') None None (done ++ coalesce prio x ts) /\
    frame_eq (faddrs (done ++ x :: ts)) m m'.
Proof.
  revert done x ts m. induction fuel as [|fuel IH]; intros done x ts m Hl Hf Hn Hb; [lia|].
  destruct ts as [|y ts]; [by exists m|].
  pose proof Hf as Hf'. apply frepr_app in Hf' as [_ [Hx [Hy Hts]]].
  pose proof (trepr_root _ _ _ _ Hx) as Hrx. pose proof (trepr_root _ _ _ _ Hy) as Hry.
  cbn [__bheap_union_loop hd_or coalesce].
  rewrite (load_bind _ _ _ _ Hrx), (load_bind _ _ _ _ Hry).
  rewrite (bind_ok _ _ _ _ _ (union_skip_test x y ts m None None None (proj2 (proj2 (proj2 (proj1 (frepr_app _ _ _ _ _) Hf)))))).
  assert (length ts < fuel) as Hl' by (simpl in Hl; lia).
  case_bool_decide as Hskip; [rewrite decide_True by done|rewrite decide_False by done].
  - cbn [next tree_node]. destruct (IH (done ++ [x]) y ts m) as (m' & E & Hf' & Hfr); try done;
      try (by rewrite <- (assoc_L (++))).
    rewrite pos_of_snoc in E. do 2 rewrite <- app_assoc in E. rewrite <- app_assoc in Hf', Hfr.
    by exists m'.
  - unfold order at 1. cbn [value tree_node next]. destruct (prio (root_val x) (root_val y)).
    + destruct (union_link_x done x y ts m) as (m1 & E1 & Hf1 & Hfr1); try done.
      apply bind_inv in E1 as ([] & m0 & Es & E1). rewrite (bind_ok _ _ _ _ _ Es), (bind_ok _ _ _ _ _ E1).
      pose proof Hf1 as Hl1. apply frepr_app in Hl1 as [_ [Hl1 _]].
      rewrite (load_bind _ _ _ _ (trepr_root _ _ _ _ Hl1 : nodes m1 !! root_ptr x = _)).
      destruct (IH done (link x y) ts m1) as (m2 & E2 & Hf2 & Hfr2); try done;
        [by rewrite faddrs_link|by eapply bounded_frame|].
      exists m2. split_and!; [|done|].
      * replace (hd_or None (done ++ x :: y :: ts)) with (hd_or None (done ++ link x y :: ts)); [done|].
        by rewrite !hd_or_app.
      * eapply frame_eq_trans; [done|]. eapply frame_eq_weaken; [|exact Hfr2].
        intros p. by rewrite faddrs_link.
    + destruct (union_link_y done x y ts m (hd_or None (done ++ x :: y :: ts)))
        as (m1 & E1 & Hf1 & Hfr1); try done.
      apply bind_inv in E1 as (h1 & m0 & Es & E1). apply bind_inv in E1 as ([] & ? & El & [= -> ->]).
      rewrite (bind_ok _ _ m (hd_or None (done ++ link y x :: ts)) m0) by (by destruct (pos_of done)).
      rewrite (bind_ok _ _ _ _ _ El).
      pose proof Hf1 as Hl1. apply frepr_app in Hl1 as [_ [Hl1 _]].
      rewrite (load_bind _ _ _ _ (trepr_root _ _ _ _ Hl1 : nodes m1 !! root_ptr y = _)).
      destruct (IH done (link y x) ts m1) as (m2 & E2 & Hf2 & Hfr2); try done;
        [by rewrite faddrs_link, faddrs_swap|by eapply bounded_frame|].
      exists m2. split_and!; [done..|]. eapply frame_eq_trans; [done|].
      eapply frame_eq_weaken; [|exact Hfr2]. intros p. by rewrite faddrs_link, faddrs_swap.
Qed.

(** [__bheap_union] merges a second root list into a heap. *)
Lemma __union_spec a b mn m :
  frepr (nodes m) None None a -> frepr (nodes m) None None b -> NoDup (faddrs (a ++ b)) -> bounded m ->
  exists m', __bheap_union order (mk_bheap (hd_or None a) mn) (hd_or None b) m
      = Some (mk_bheap (hd_or None (union prio a b)) mn, m') /\
    frepr (nodes m') None None (union prio a b) /\ frame_eq (faddrs (a ++ b)) m m'.
Proof.
  intros Ha Hb Hn Hbd. destruct b as [|y b]; [by exists m|].
  destruct a as [|x a]; [by exists m|].
  destruct (merge_spec _ _ _ Ha Hb Hn) as (m1 & E1 & Hf1 & Hfr1).
  unfold __bheap_union, union. cbn [hd_or head min] in *. rewrite (bind_ok _ _ _ _ _ E1).
  pose proof (merge_perm (x :: a) (y :: b)) as Hp.
  destruct (merge (x :: a) (y :: b)) as [|z ts]; [by apply Permutation_nil_cons in Hp|].
  assert (faddrs (z :: ts) ≡ₚ faddrs ((x :: a) ++ y :: b)) as Hpa.
  { unfold faddrs. by rewrite (fcells_perm _ _ Hp). }
  pose proof Hf1 as [Hz _]. cbn [hd_or]. rewrite (load_bind _ _ _ _ (trepr_root _ _ _ _ Hz)), gets_bind.
  destruct (union_loop_spec (loop_fuel m1) [] z ts m1) as (m2 & E2 & Hf2 & Hfr2); try done.
  - unfold loop_fuel. rewrite (frame_eq_size _ _ _ Hfr1).
    assert (length (faddrs (z :: ts)) <= size (nodes m1)) as Hs.
    { apply addrs_bound; [by rewrite Hpa|by eapply faddrs_in_dom]. }
    rewrite (frame_eq_size _ _ _ Hfr1) in Hs. pose proof (length_faddrs (z :: ts)). simpl in *. lia.
  - by rewrite Hpa.
  - by eapply bounded_frame.
  - cbn [tree_node next] in *. cbn [hd_or app pos_of] in E2. rewrite (bind_ok _ _ _ _ _ E2).
    exists m2. split_and!; [done..|]. eapply frame_eq_trans; [done|].
    eapply frame_eq_weaken; [|exact Hfr2]. intros p. cbn [app]. by rewrite Hpa.
Qed.

Lemma reverse_loop_spec fuel acc t ts q m :
  length ts < fuel -> frepr (nodes m) None None acc -> trepr (nodes m) None (hd_or None ts) t ->
  frepr (nodes m) q None ts -> NoDup (faddrs (acc ++ t :: ts)) ->
  exists m', __bheap_reverse_loop fuel (Some (root_ptr t)) (hd_or None acc) m
      = Some (hd_or None (reverse (t :: ts) ++ acc), m') /\
    frepr (nodes m') None None (reverse (t :: ts) ++ acc) /\
    frame_eq (faddrs (acc ++ t :: ts)) m m'.
Proof.
  revert acc t ts m. induction fuel as [|fuel IH]; intros acc t ts m Hl Ha Ht Hts Hn; [lia|].
  pose proof (trepr_root _ _ _ _ Ht) as Hr. cbn [__bheap_reverse_loop].
  rewrite (load_bind _ _ _ _ Hr). cbn [next tree_node].
  set (m1 := upd m (root_ptr t) (tree_node None (hd_or None acc) t)).
  assert (frepr (nodes m1) None None (t :: acc)) as Ha1.
  { split; [apply (trepr_reroot _ None (hd_or None ts)); [addr_solver|done]|].
    apply frepr_insert_ne; [addr_solver|done]. }
  assert (frame_eq (addrs t) m m1) as Hf1 by (eapply frame_eq_upd; [done|apply root_in_addrs]).
  destruct ts as [|u ts]; cbn [hd_or].
  - rewrite (store_bind _ _ _ _ _ Hr). exists m1. split_and!; [done..|].
    eapply frame_eq_weaken; [|exact Hf1]. addr_solver.
  - rewrite (store_bind _ _ _ _ _ Hr). fold m1. destruct Hts as [Hu Hts].
    assert (trepr (nodes m1) q (hd_or None ts) u) as Hu1 by (apply trepr_insert_ne; [addr_solver|done]).
    rewrite (store_bind _ _ m1 _ _ (trepr_root _ _ _ _ Hu1)).
    set (m2 := upd m1 (root_ptr u) _).
    assert (frame_eq (addrs u) m1 m2) as Hf2.
    { eapply frame_eq_upd; [by eapply trepr_root|apply root_in_addrs]. }
    assert (NoDup (faddrs ((t :: acc) ++ u :: ts))) as Hn'.
    { eapply NoDup_Permutation_proper; [|exact Hn]. cbn [app]. rewrite faddrs_cons, !faddrs_app, (faddrs_cons t).
      by rewrite !app_assoc, (comm (++) (addrs t)). }
    destruct (IH (t :: acc) u ts m2) as (m3 & E3 & Hf3 & Hfr3); try done.
    + simpl in Hl. lia.
    + eapply frepr_frame; [|exact Ha1]. intros p Hp. apply Hf2. addr_solver.
    + apply (trepr_reroot _ q (hd_or None ts)); [addr_solver|done].
    + apply frepr_insert_ne; [addr_solver|]. apply frepr_insert_ne; [addr_solver|done].
    + rewrite (reverse_cons _ t), <- app_assoc. exists m3. split_and!; [done..|].
      eapply frame_eq_trans; [eapply frame_eq_weaken; [|exact Hf1]; addr_solver|].
      eapply frame_eq_trans; (eapply frame_eq_weaken; [|eassumption]); addr_solver.
Qed.

(** [__bheap_reverse] turns the children of a node into a root list. *)
Lemma reverse_spec ts q m :
  frepr (nodes m) q None ts -> NoDup (faddrs ts) ->
  exists m', __bheap_reverse (hd_or None ts) m = Some (hd_or None (reverse ts), m') /\
    frepr (nodes m') None None (reverse ts) /\ frame_eq (faddrs ts) m m'.
Proof.
  intros Hts Hn. destruct ts as [|t ts]; [by exists m|]. destruct Hts as [Ht Hts].
  unfold __bheap_reverse. cbn [hd_or].
  rewrite (store_bind _ _ _ _ _ (trepr_root _ _ _ _ Ht)), gets_bind.
  set (m1 := upd m (root_ptr t) _).
  assert (frame_eq (addrs t) m m1) as Hf1.
  { eapply frame_eq_upd; [by eapply trepr_root|apply root_in_addrs]. }
  destruct (reverse_loop_spec (loop_fuel m1) [] t ts q m1) as (m2 & E2 & Hf2 & Hfr2); try done.
  - unfold loop_fuel. rewrite (frame_eq_size _ _ _ Hf1).
    assert (length (faddrs (t :: ts)) <= size (nodes m)) as Hs.
    { apply addrs_bound; [done|]. eapply (faddrs_in_dom _ q None). by split. }
    pose proof (length_faddrs (t :: ts)). simpl in *. lia.
  - apply (trepr_reroot _ q (hd_or None ts)); [addr_solver|done].
  - apply frepr_insert_ne; [addr_solver|done].
  - rewrite app_nil_r in *. exists m2. split_and!; [done..|].
    eapply frame_eq_trans; [|exact Hfr2]. eapply frame_eq_weaken; [|exact Hf1]. addr_solver.
Qed.

Lemma pos_of_app_cons l t ts : pos_of (l ++ t :: ts) = pos_of (t :: ts).
Proof. unfold pos_of. by rewrite last_app_cons. Qed.

(** The scan of [__bheap_min] reads only, and finds the root [split_min] finds. *)
Lemma min_loop_spec fuel pre best mid ts m pre' best' post :
  length ts < fuel -> frepr (nodes m) None None (pre ++ best :: mid ++ ts) ->
  split_min prio pre best mid ts = (pre', best', post) ->
  __bheap_min_loop order fuel (pos_of pre) (Some (root_ptr best)) (pos_of (best :: mid))
    (hd_or None ts) m = Some ((pos_of pre', Some (root_ptr best')), m).
Proof.
  revert pre best mid ts. induction fuel as [|fuel IH]; intros pre best mid ts Hl Hf; [lia|].
  destruct ts as [|c ts]; simpl; [by intros [= -> -> ->]|].
  apply frepr_app in Hf as Hf'. destruct Hf' as [_ [Hb Hmc]]. apply frepr_app in Hmc as [_ [Hc _]].
  pose proof (trepr_root _ _ _ _ Hb) as Hrb. pose proof (trepr_root _ _ _ _ Hc) as Hrc.
  rewrite (load_bind _ _ _ _ Hrc), (load_bind _ _ _ _ Hrb). unfold order at 1. cbn [value tree_node next].
  simpl in Hl. destruct (prio (root_val c) (root_val best)); intros Es.
  - rewrite <- (IH (pre ++ best :: mid) c [] ts); [|lia|by rewrite <- app_assoc|done].
    by rewrite pos_of_app_cons.
  - rewrite <- (IH pre best (mid ++ [c]) ts); [|lia|by rewrite <- app_assoc|done].
    f_equal. symmetry. apply (pos_of_snoc (best :: mid)).
Qed.

Lemma roots_le_size a par last m :
  frepr (nodes m) par last a -> NoDup (faddrs a) -> length a <= size (nodes m).
Proof.
  intros Hf Hn. pose proof (length_faddrs a).
  pose proof (addrs_bound _ _ Hn (faddrs_in_dom _ _ _ _ Hf)). lia.
Qed.

(** The common tail of [__bheap_extract_min] and [bheap_delete]: a root is
    unlinked and its children are merged back.  The unlinked node keeps its
    value and reference and stays parentless. *)
Lemma unlink_root_spec pre t post mn m :
  frepr (nodes m) None None (pre ++ t :: post) -> NoDup (faddrs (pre ++ t :: post)) -> bounded m ->
  exists m', unlink_root order (mk_bheap (hd_or None (pre ++ t :: post)) mn) (pos_of pre) (Some (root_ptr t)) m
      = Some (mk_bheap (hd_or None (union prio (pre ++ post) (reverse (children t)))) mn, m') /\
    frepr (nodes m') None None (union prio (pre ++ post) (reverse (children t))) /\
    nodes m' !! root_ptr t = Some (tree_node None (hd_or None post) t) /\
    frame_eq (faddrs (pre ++ t :: post)) m m'.
Proof.
  intros Hf Hn Hb. apply frepr_app in Hf as [Hpre [Ht Hpost]]. cbn [hd_or] in Hpre.
  pose proof (trepr_root _ _ _ _ Ht) as Hr. unfold unlink_root. rewrite (load_bind _ _ _ _ Hr).
  cbn [next tree_node min].
  destruct (store_pos_spec pre m (Some (root_ptr t)) (hd_or None post) (hd_or None (pre ++ t :: post)) Hpre)
    as (m1 & E1 & Hpre1 & Hf1); [addr_solver|by destruct pre|].
  rewrite (bind_ok _ _ m (mk_bheap (hd_or None (pre ++ post)) mn) m1).
  2: { clear -E1. destruct pre as [|u pre _] using rev_ind; [by injection E1 as ->|].
       rewrite pos_of_snoc in *. apply bind_inv in E1 as ([] & m0 & Es & [= _ ->]).
       rewrite (bind_ok _ _ _ _ _ Es). by destruct pre. }
  assert (trepr (nodes m1) None (hd_or None post) t) as Ht1.
  { eapply trepr_frame; [|exact Ht]. intros p Hp. apply Hf1. addr_solver. }
  rewrite (load_bind _ _ _ _ (trepr_root _ _ _ _ Ht1)). cbn [child tree_node].
  assert (faddrs (children t) ⊆ addrs t) as Hsub by (rewrite addrs_eq; set_solver).
  assert (NoDup (addrs t)) as Hnt by addr_solver. rewrite addrs_eq in Hnt. apply NoDup_cons in Hnt as [Hrt Hnt].
  apply trepr_eq in Ht1 as [Hr1 Hct1].
  destruct (reverse_spec (children t) _ m1 Hct1 Hnt) as (m2 & E2 & Hrev & Hf2).
  rewrite (bind_ok _ _ _ _ _ E2).
  assert (frame_eq (faddrs (pre ++ t :: post)) m m2) as Hfr2.
  { eapply frame_eq_trans; (eapply frame_eq_weaken; [|eassumption]); rewrite faddrs_app, faddrs_cons; set_solver. }
  assert (faddrs (reverse (children t)) ≡ₚ faddrs (children t)) as Hpr.
  { unfold faddrs. by rewrite fcells_reverse. }
  assert (forall p, p ∈ faddrs (pre ++ post) -> p ∉ addrs t) as Hdis by addr_solver.
  destruct (__union_spec (pre ++ post) (reverse (children t)) mn m2) as (m3 & E3 & Hu & Hf3); [|done| | |].
  - apply (frepr_frame (nodes m1)); [intros p Hp; apply Hf2; set_solver|].
    apply frepr_app. split; [done|]. eapply frepr_frame; [|exact Hpost]. intros p Hp. apply Hf1. addr_solver.
  - rewrite faddrs_app, Hpr. apply NoDup_app. split_and!; [|set_solver|done].
    rewrite faddrs_app. apply NoDup_app. clear -Hn. addr_split. split_and!; [done| |done]. set_solver.
  - by eapply bounded_frame.
  - exists m3. split_and!; [done..| |].
    + transitivity (nodes m1 !! root_ptr t); [|done]. transitivity (nodes m2 !! root_ptr t).
      * apply Hf3. rewrite faddrs_app, Hpr. pose proof (root_in_addrs t). set_solver.
      * by apply Hf2.
    + eapply frame_eq_trans; [done|]. eapply frame_eq_weaken; [|exact Hf3].
      rewrite !faddrs_app, faddrs_cons. intros p. rewrite !elem_of_app, Hpr. set_solver.
Qed.

(** ** Representation of a heap *)

(** The node of a cell is allocated and holds the cell's value and reference. *)
Definition cell_at m (c : positive * V * positive) : Prop :=
  exists n, nodes m !! cell_ptr c = Some n /\ value n = cell_val c /\ ref n = cell_ref c.

(** A cached minimum: a parentless node marked as being in a heap (its other
    fields are whatever they were when it was extracted). *)
Definition cached_at m (c : positive * V * positive) : Prop :=
  exists n, nodes m !! cell_ptr c = Some n /\ value n = cell_val c /\ ref n = cell_ref c /\
    parent n = None /\ degree n <> NOT_IN_HEAP.

(** [*(n->ref) == n] for every node. *)
Definition refs_ok m (cs : list (positive * V * positive)) : Prop :=
  NoDup (cell_ref <$> cs) /\ Forall (fun c => vars m !! cell_ref c = Some (cell_ptr c)) cs.

Definition fh_addrs (fh : fheap V) : list positive := cell_ptr <$> fh_cells fh.
Definition fh_refs (fh : fheap V) : list positive := cell_ref <$> fh_cells fh.

#[local] Typeclasses Opaque fh_addrs fh_refs.

Record hrepr m (h : bheap) (fh : fheap V) : Prop := {
  hr_head : head h = hd_or None (trees fh);
  hr_min : min h = cell_ptr <$> fmin fh;
  hr_trees : frepr (nodes m) None None (trees fh);
  hr_cached : forall c, fmin fh = Some c -> cached_at m c;
  hr_nodup : NoDup (fh_addrs fh);
  hr_refs : refs_ok m (fh_cells fh);
  hr_bound : bounded m
}.

Lemma hrepr_eta m h fh :
  hrepr m h fh -> h = mk_bheap (hd_or None (trees fh)) (cell_ptr <$> fmin fh).
Proof. intros [Hh Hm _ _ _ _ _]. destruct h. simpl in *. by subst. Qed.

Lemma refs_ok_perm m cs cs' : cs ≡ₚ cs' -> refs_ok m cs -> refs_ok m cs'.
Proof. unfold refs_ok. intros H. by rewrite H. Qed.

Lemma refs_ok_vars m m' cs : vars m' = vars m -> refs_ok m cs -> refs_ok m' cs.
Proof. unfold refs_ok. by intros ->. Qed.

Lemma refs_ok_tail m c cs : refs_ok m (c :: cs) -> refs_ok m cs.
Proof. intros [Hn Hf]. split; [by apply NoDup_cons in Hn as [_ ?]|by apply Forall_cons in Hf as [_ ?]]. Qed.

Lemma fh_addrs_trees fh : faddrs (trees fh) ⊆ fh_addrs fh.
Proof. unfold fh_addrs, fh_cells, faddrs. rewrite fmap_app. set_solver. Qed.

Lemma hrepr_nodup_trees m h fh : hrepr m h fh -> NoDup (faddrs (trees fh)).
Proof.
  intros [_ _ _ _ Hn _ _]. unfold fh_addrs, fh_cells in Hn. rewrite fmap_app in Hn.
  by apply NoDup_app in Hn as (_ & _ & ?).
Qed.

Lemma hrepr_min_fresh m h fh c : hrepr m h fh -> fmin fh = Some c -> cell_ptr c ∉ faddrs (trees fh).
Proof.
  intros [_ _ _ _ Hn _ _] E. unfold fh_addrs, fh_cells in Hn. rewrite E in Hn. simpl in Hn.
  by apply NoDup_cons in Hn as [? _].
Qed.

Lemma cached_at_frame S m m' c : frame_eq S m m' -> cell_ptr c ∉ S -> cached_at m c -> cached_at m' c.
Proof. intros (Hf & _) Hp (n & ? & ?). exists n. split; [by rewrite Hf|done]. Qed.

Lemma cell_at_frame S m m' c : frame_eq S m m' -> cell_ptr c ∉ S -> cell_at m c -> cell_at m' c.
Proof. intros (Hf & _) Hp (n & ? & ?). exists n. split; [by rewrite Hf|done]. Qed.

Lemma cached_cell_at m c : cached_at m c -> cell_at m c.
Proof. intros (n & ? & ? & ? & _). by exists n. Qed.

(** A heap untouched by an operation on other nodes stays represented. *)
Lemma hrepr_frame S m m' h fh :
  frame_eq S m m' -> (forall p, p ∈ fh_addrs fh -> p ∉ S) -> hrepr m h fh -> hrepr m' h fh.
Proof.
  intros Hf Hd [H1 H2 H3 H4 H5 H6 H7]. split; try done.
  - eapply frepr_frame; [|exact H3]. intros p Hp. apply Hf, Hd. by apply fh_addrs_trees.
  - intros c Hc. eapply cached_at_frame; [exact Hf| |by apply H4]. apply Hd.
    unfold fh_addrs, fh_cells. rewrite Hc. set_solver.
  - eapply refs_ok_vars; [|done]. apply Hf.
  - by eapply bounded_frame.
Qed.

Lemma reset_node_spec m p n :
  nodes m !! p = Some n ->
  reset_node (Some p) m = Some (tt, upd m p (mk_node None None None 0 (value n) (ref n))).
Proof.
  intros Hn. unfold reset_node. rewrite (store_bind _ _ _ _ _ Hn).
  do 2 (erewrite store_bind by (by simpl; rewrite lookup_insert_eq)).
  erewrite store_ok by (by simpl; rewrite lookup_insert_eq).
  unfold upd. simpl. by rewrite !insert_insert_eq.
Qed.

Lemma faddrs_single (c : positive * V * positive) : faddrs [single c] = [cell_ptr c].
Proof. done. Qed.

(** Re-inserting a node that belongs to no tree: it becomes a tree of its own
    and is merged into the root list. *)
Lemma push_root_spec ts mn m c :
  cell_at m c -> frepr (nodes m) None None ts -> NoDup (faddrs ts) -> cell_ptr c ∉ faddrs ts -> bounded m ->
  exists m', (reset_node (Some (cell_ptr c));;
              __bheap_union order (mk_bheap (hd_or None ts) mn) (Some (cell_ptr c))) m
      = Some (mk_bheap (hd_or None (union prio ts [single c])) mn, m') /\
    frepr (nodes m') None None (union prio ts [single c]) /\ frame_eq (cell_ptr c :: faddrs ts) m m'.
Proof.
  intros (n & Hn & Hv & Hr) Hts Hnd Hfresh Hb. rewrite (bind_ok _ _ _ _ _ (reset_node_spec _ _ _ Hn)).
  set (m1 := upd m _ _).
  assert (frame_eq (cell_ptr c :: faddrs ts) m m1) as Hf1 by (eapply frame_eq_upd; [done|set_solver]).
  destruct (__union_spec ts [single c] mn m1) as (m2 & E & Hu & Hf2).
  - by apply frepr_insert_ne.
  - split; [|done]. apply trepr_eq. split; [|done]. simpl. rewrite lookup_insert_eq. by rewrite Hv, Hr.
  - rewrite faddrs_app, faddrs_single. apply NoDup_app. split_and!; [done|set_solver|apply NoDup_singleton].
  - by eapply bounded_frame.
  - exists m2. split_and!; [done..|]. eapply frame_eq_trans; [done|]. eapply frame_eq_weaken; [|exact Hf2].
    rewrite faddrs_app, faddrs_single. set_solver.
Qed.

(** What inserting a node needs: it is allocated, its reference points back to
    it, and it is not in the heap. *)
Record insertable m (fh : fheap V) (c : positive * V * positive) : Prop := {
  ins_at : cell_at m c;
  ins_var : vars m !! cell_ref c = Some (cell_ptr c);
  ins_addr : cell_ptr c ∉ fh_addrs fh;
  ins_ref : cell_ref c ∉ fh_refs fh
}.

Lemma refs_ok_insert m fh c :
  refs_ok m (fh_cells fh) -> insertable m fh c -> refs_ok m (fh_cells (fh_insert prio fh c)).
Proof.
  intros [Hn Hf] [_ Hv _ Hr]. apply (refs_ok_perm _ (c :: fh_cells fh)); [by rewrite fh_insert_cells|].
  split; [by apply NoDup_cons|by constructor].
Qed.

Lemma nodup_insert fh c :
  NoDup (fh_addrs fh) -> cell_ptr c ∉ fh_addrs fh -> NoDup (fh_addrs (fh_insert prio fh c)).
Proof. intros. unfold fh_addrs. rewrite fh_insert_cells. by apply NoDup_cons. Qed.

(** Assembling the representation after an insertion. *)
Lemma hrepr_insert m m' fh c fh' h :
  hrepr m h fh -> insertable m fh c -> fh_insert prio fh c = fh' ->
  frame_eq (cell_ptr c :: fh_addrs fh) m m' -> frepr (nodes m') None None (trees fh') ->
  (forall c', fmin fh' = Some c' -> cached_at m' c') ->
  hrepr m' (mk_bheap (hd_or None (trees fh')) (cell_ptr <$> fmin fh')) (fh_insert prio fh c).
Proof.
  intros Hh Hi <- Hf Ht Hc. split; try done.
  - apply nodup_insert; [apply Hh|apply Hi].
  - eapply refs_ok_vars; [apply Hf|]. eapply refs_ok_insert; [apply Hh|done].
  - eapply bounded_frame; [done|apply Hh].
Qed.

Lemma cached_after_reset m c n :
  value n = cell_val c -> ref n = cell_ref c ->
  cached_at (upd m (cell_ptr c) (mk_node None None None 0 (value n) (ref n))) c.
Proof. intros. eexists. simpl. rewrite lookup_insert_eq. by split_and!. Qed.

(** [bheap_insert] *)
Lemma insert_spec m h fh c :
  hrepr m h fh -> insertable m fh c ->
  exists h' m', bheap_insert order h (cell_ptr c) m = Some (h', m') /\
    hrepr m' h' (fh_insert prio fh c) /\ frame_eq (cell_ptr c :: fh_addrs fh) m m'.
Proof.
  intros Hh Hi. pose proof (hrepr_eta _ _ _ Hh) as ->. pose proof (hrepr_nodup_trees _ _ _ Hh) as Hnt.
  pose proof (fh_addrs_trees fh) as Hsub. destruct (ins_at _ _ _ Hi) as (n & Hn & Hv & Hr).
  assert (cell_ptr c ∉ faddrs (trees fh)) as Hfr by (intros ?; by eapply (ins_addr _ _ _ Hi), Hsub).
  destruct (push_root_spec (trees fh) (cell_ptr <$> fmin fh) m c (ins_at _ _ _ Hi)
    (hr_trees _ _ _ Hh) Hnt Hfr (hr_bound _ _ _ Hh)) as (m2 & E2 & Hu2 & Hf2).
  rewrite (bind_ok _ _ _ _ _ (reset_node_spec _ _ _ Hn)) in E2.
  unfold bheap_insert. rewrite (bind_ok _ _ _ _ _ (reset_node_spec _ _ _ Hn)). cbn [min].
  pose proof (cached_after_reset m c n Hv Hr) as Hc1.
  assert (frame_eq [cell_ptr c] m (upd m (cell_ptr c) (mk_node None None None 0 (value n) (ref n)))) as Hf1
    by (eapply frame_eq_upd; [done|set_solver]).
  set (m1 := upd m _ _) in *.
  assert (frame_eq (cell_ptr c :: fh_addrs fh) m m2) as Hf2'
    by (eapply frame_eq_weaken; [|exact Hf2]; set_solver).
  destruct (fmin fh) as [mn|] eqn:Em; cbn [fmap option_fmap option_map] in *.
  - (* a cached minimum *)
    assert (cell_ptr mn <> cell_ptr c) as Hne.
    { intros E. apply (ins_addr _ _ _ Hi). unfold fh_addrs, fh_cells. rewrite Em, <- E. set_solver. }
    destruct (hr_cached _ _ _ Hh mn Em) as (nm & Hnm & Hvm & Hrm & Hpm & Hdm).
    assert (nodes m1 !! cell_ptr mn = Some nm) as Hnm1 by (by simpl; rewrite lookup_insert_ne).
    destruct Hc1 as (nc & Hnc & Hvc & Hrc & Hpc & Hdc).
    rewrite (bind_ok _ _ m1 (prio (cell_val c) (cell_val mn)) m1).
    2: { rewrite (load_bind _ _ _ _ Hnc), (load_bind _ _ _ _ Hnm1). unfold order. by rewrite Hvc, Hvm. }
    pose proof (hrepr_min_fresh _ _ _ _ Hh Em) as Hmf.
    destruct (prio (cell_val c) (cell_val mn)) eqn:Ep.
    + destruct (push_root_spec (trees fh) (Some (cell_ptr mn)) m1 mn) as (m3 & E3 & Hu3 & Hf3);
        [by exists nm| | done | done| |].
      { apply frepr_insert_ne; [done|apply Hh]. }
      { eapply bounded_frame; [exact Hf1|apply Hh]. }
      apply bind_inv in E3 as ([] & m0 & Er & Eu). rewrite (bind_ok _ _ _ _ _ Er), (bind_ok _ _ _ _ _ Eu).
      assert (frame_eq (cell_ptr c :: fh_addrs fh) m m3) as Hf3'.
      { eapply frame_eq_trans; [eapply frame_eq_weaken; [|exact Hf1]; set_solver|].
        eapply frame_eq_weaken; [|exact Hf3]. unfold fh_addrs, fh_cells, faddrs. rewrite Em, fmap_app. set_solver. }
      eexists _, m3. split_and!; [done| |done].
      eapply (hrepr_insert m m3 fh c (mk_fheap (union prio (trees fh) [single mn]) (Some c))); try done.
      * unfold fh_insert. by rewrite Em, Ep.
      * intros c' [= <-]. eapply cached_at_frame; [exact Hf3|set_solver|by exists nc].
    + eexists _, m2. split_and!; [exact E2| |done].
      eapply (hrepr_insert m m2 fh c (mk_fheap (union prio (trees fh) [single c]) (Some mn))); try done.
      * unfold fh_insert. by rewrite Em, Ep.
      * intros c' [= <-]. eapply cached_at_frame; [exact Hf2|set_solver|by exists nm].
  - eexists _, m2. rewrite mret_bind. split_and!; [exact E2| |done].
    eapply (hrepr_insert m m2 fh c (mk_fheap (union prio (trees fh) [single c]) None)); try done.
    unfold fh_insert. by rewrite Em.
Qed.

Lemma hrepr_drop_min m h fh :
  hrepr m h fh -> hrepr m (mk_bheap (head h) None) (mk_fheap (trees fh) None).
Proof.
  intros Hh. pose proof (hrepr_nodup_trees _ _ _ Hh). destruct Hh as [H1 H2 H3 H4 H5 H6 H7].
  split; try done. change (refs_ok m (fcells (trees fh))). revert H6. unfold fh_cells.
  destruct (fmin fh); [apply refs_ok_tail|done].
Qed.

(** [bheap_uncache_min] *)
Lemma uncache_spec m h fh :
  hrepr m h fh ->
  exists h' m', bheap_uncache_min order h m = Some (h', m') /\
    hrepr m' h' (fh_uncache_min prio fh) /\ frame_eq (fh_addrs fh) m m'.
Proof.
  intros Hh. unfold bheap_uncache_min, fh_uncache_min. rewrite (hr_min _ _ _ Hh).
  destruct (fmin fh) as [mn|] eqn:Em; simpl; [|by exists h, m].
  destruct (insert_spec m (mk_bheap (head h) None) (mk_fheap (trees fh) None) mn) as (h' & m' & E & Hr & Hf).
  - by apply hrepr_drop_min.
  - pose proof (hr_refs _ _ _ Hh) as [Hnr Hfr]. pose proof (hr_nodup _ _ _ Hh) as Hna.
    unfold fh_addrs, fh_cells in *. rewrite Em in *. simpl in *.
    apply NoDup_cons in Hnr as [? ?], Hna as [? ?]. apply Forall_cons in Hfr as [? ?].
    split; try done. by apply cached_cell_at, Hh.
  - exists h', m'. split_and!; [done..|]. eapply frame_eq_weaken; [|exact Hf].
    unfold fh_addrs, fh_cells. rewrite Em. simpl. set_solver.
Qed.

Lemma fh_uncache_addrs fh : fh_addrs (fh_uncache_min prio fh) ≡ₚ fh_addrs fh.
Proof. unfold fh_addrs. by rewrite fh_uncache_cells. Qed.

(** Two heaps of one memory with no node and no reference in common. *)
Definition disjoint_heaps (f1 f2 : fheap V) : Prop :=
  (forall p, p ∈ fh_addrs f1 -> p ∉ fh_addrs f2) /\ (forall r, r ∈ fh_refs f1 -> r ∉ fh_refs f2).

Lemma refs_ok_app m cs ds :
  refs_ok m cs -> refs_ok m ds -> (forall r, r ∈ cell_ref <$> cs -> r ∉ cell_ref <$> ds) ->
  refs_ok m (cs ++ ds).
Proof.
  intros [? ?] [? ?] Hd. split; [rewrite fmap_app; by apply NoDup_app|by apply Forall_app].
Qed.

(** [bheap_union] *)
Lemma heap_union_spec m h1 h2 f1 f2 :
  hrepr m h1 f1 -> hrepr m h2 f2 -> disjoint_heaps f1 f2 ->
  exists h' m', bheap_union order h1 h2 m = Some ((h', mk_bheap None None), m') /\
    hrepr m' h' (fh_union prio f1 f2) /\ frame_eq (fh_addrs f1 ++ fh_addrs f2) m m'.
Proof.
  intros H1 H2 [Hda Hdr].
  destruct (uncache_spec _ _ _ H1) as (h1' & m1 & E1 & R1 & F1).
  assert (hrepr m1 h2 f2) as H2' by (eapply hrepr_frame; [exact F1|set_solver|done]).
  destruct (uncache_spec _ _ _ H2') as (h2' & m2 & E2 & R2 & F2).
  assert (hrepr m2 h1' (fh_uncache_min prio f1)) as R1'.
  { eapply hrepr_frame; [exact F2|intros p; rewrite fh_uncache_addrs; set_solver|done]. }
  unfold bheap_union. rewrite (bind_ok _ _ _ _ _ E1), (bind_ok _ _ _ _ _ E2).
  pose proof (hrepr_eta _ _ _ R1') as ->. pose proof (hrepr_eta _ _ _ R2) as ->.
  rewrite !fh_uncache_fmin in *. cbn [head min fmap option_fmap option_map] in *.
  set (g1 := fh_uncache_min prio f1) in *. set (g2 := fh_uncache_min prio f2) in *.
  assert (faddrs (trees g1) ≡ₚ fh_addrs f1) as P1.
  { rewrite <- (fh_uncache_addrs f1). unfold fh_addrs, fh_cells. by rewrite fh_uncache_fmin. }
  assert (faddrs (trees g2) ≡ₚ fh_addrs f2) as P2.
  { rewrite <- (fh_uncache_addrs f2). unfold fh_addrs, fh_cells. by rewrite fh_uncache_fmin. }
  destruct (__union_spec (trees g1) (trees g2) None m2) as (m3 & E3 & Hu & F3);
    [apply R1'|apply R2| |apply R2|].
  { rewrite faddrs_app, P1, P2. apply NoDup_app. split_and!; [apply H1|done|apply H2]. }
  rewrite (bind_ok _ _ _ _ _ E3).
  assert (frame_eq (fh_addrs f1 ++ fh_addrs f2) m m3) as F.
  { eapply frame_eq_trans; [eapply frame_eq_weaken; [|exact F1]; set_solver|].
    eapply frame_eq_trans; [eapply frame_eq_weaken; [|exact F2]; set_solver|].
    eapply frame_eq_weaken; [|exact F3]. intros p. by rewrite faddrs_app, !elem_of_app, P1, P2. }
  eexists _, m3. split_and!; [done| |done]. split; try done.
  - unfold fh_addrs. rewrite fh_union_cells, fmap_app. apply NoDup_app.
    split_and!; [apply H1|done|apply H2].
  - eapply refs_ok_vars; [apply F|]. eapply refs_ok_perm; [symmetry; apply fh_union_cells|].
    apply refs_ok_app; [apply H1|apply H2|done].
  - eapply bounded_frame; [exact F|apply H1].
Qed.

(** [__bheap_extract_min] *)
Lemma extract_spec ts mn m :
  frepr (nodes m) None None ts -> NoDup (faddrs ts) -> bounded m ->
  exists m', __bheap_extract_min order (mk_bheap (hd_or None ts) mn) m
      = Some ((root_ptr <$> (extract_min prio ts).1, mk_bheap (hd_or None (extract_min prio ts).2) mn), m') /\
    frepr (nodes m') None None (extract_min prio ts).2 /\
    (forall t, (extract_min prio ts).1 = Some t -> exists nxt,
       nodes m' !! root_ptr t = Some (tree_node None nxt t) /\ (Z.of_nat (deg t) < UINT_MAX)%Z) /\
    frame_eq (faddrs ts) m m'.
Proof.
  intros Ht Hnt Hb. unfold __bheap_extract_min, __bheap_min, extract_min. cbn [head].
  destruct ts as [|t ts]; [by exists m|].
  destruct (split_min prio [] t [] ts) as [[pre best] post] eqn:Es. cbn [hd_or fst snd].
  pose proof (split_min_eq _ _ _ _ _ _ _ _ Es) as El. cbn [app] in El.
  rewrite (bind_ok _ _ m (pos_of pre, Some (root_ptr best)) m).
  2: { rewrite (load_bind _ _ _ _ (trepr_root _ _ _ _ (proj1 Ht))), gets_bind. cbn [next tree_node].
       eapply (min_loop_spec _ [] t [] ts); [|done|done].
       unfold loop_fuel. pose proof (roots_le_size _ _ _ _ Ht Hnt). simpl in *. lia. }
  rewrite <- El in Ht, Hnt.
  destruct (unlink_root_spec pre best post mn m Ht Hnt Hb) as (m1 & E1 & Hu & Hn & Hf).
  rewrite El in E1, Hf. cbn [hd_or] in E1. rewrite (bind_ok _ _ _ _ _ E1). exists m1.
  split_and!; [done..| |done]. intros ? [= <-]. eexists. split; [done|].
  eapply deg_bounded; [exact Hb|exact Ht|done|]. set_solver.
Qed.

(** Filling the cache, the first step of [bheap_peek] and [bheap_take]. *)
Lemma cache_min_spec m h fh :
  hrepr m h fh ->
  exists h' m',
    match min h with
    | Some _ => mret h
    | None => '(mn, h) ← __bheap_extract_min order h; mret (mk_bheap (head h) mn)
    end m = Some (h', m') /\
    hrepr m' h' (fh_cache_min prio fh) /\ frame_eq (fh_addrs fh) m m'.
Proof.
  intros Hh. unfold fh_cache_min. pose proof (hrepr_eta _ _ _ Hh) as ->. cbn [min].
  destruct (fmin fh) as [mn|] eqn:Em; cbn [fmap option_fmap option_map] in *; [by eexists _, m|].
  pose proof (fh_cache_cells prio fh) as Hcc. unfold fh_cache_min in Hcc. rewrite Em in Hcc.
  destruct (extract_spec (trees fh) None m (hr_trees _ _ _ Hh) (hrepr_nodup_trees _ _ _ Hh)
    (hr_bound _ _ _ Hh)) as (m1 & E1 & Hu & Hn & Hf).
  rewrite (bind_ok _ _ _ _ _ E1).
  destruct (extract_min prio (trees fh)) as [best ts]. cbn [fst snd head] in *.
  assert (frame_eq (fh_addrs fh) m m1) as Hf'
    by (eapply frame_eq_weaken; [apply fh_addrs_trees|exact Hf]).
  eexists _, m1. split_and!; [done| |done]. split; try done.
  - simpl. by destruct best.
  - simpl. destruct best as [t|]; [|done]. intros c [= <-]. destruct (Hn t eq_refl) as (nxt & Hl & Hd).
    exists (tree_node None nxt t). split_and!; try done. cbn [degree tree_node]. unfold NOT_IN_HEAP. lia.
  - unfold fh_addrs. rewrite Hcc. apply Hh.
  - eapply refs_ok_vars; [apply Hf'|]. eapply refs_ok_perm; [symmetry; exact Hcc|apply Hh].
  - eapply bounded_frame; [exact Hf'|apply Hh].
Qed.

(** [bheap_peek] *)
Lemma peek_spec m h fh :
  hrepr m h fh ->
  exists h' m', bheap_peek order h m = Some ((cell_ptr <$> (fh_peek prio fh).1, h'), m') /\
    hrepr m' h' (fh_peek prio fh).2 /\ frame_eq (fh_addrs fh) m m'.
Proof.
  intros Hh. destruct (cache_min_spec _ _ _ Hh) as (h' & m' & E & R & F). exists h', m'.
  unfold bheap_peek. rewrite (bind_ok _ _ _ _ _ E). split_and!; [|done..].
  unfold mret, M_ret. by rewrite (hr_min _ _ _ R).
Qed.

(** [bheap_take] *)
Lemma take_spec m h fh :
  hrepr m h fh ->
  exists h' m', bheap_take order h m = Some ((cell_ptr <$> (fh_take prio fh).1, h'), m') /\
    hrepr m' h' (fh_take prio fh).2 /\ frame_eq (fh_addrs fh) m m' /\
    forall c, (fh_take prio fh).1 = Some c ->
      exists n, nodes m' !! cell_ptr c = Some n /\ value n = cell_val c /\ ref n = cell_ref c /\
        bheap_node_in_heap n = false.
Proof.
  intros Hh. destruct (cache_min_spec _ _ _ Hh) as (h1 & m1 & E & R & F).
  unfold bheap_take. rewrite (bind_ok _ _ _ _ _ E). unfold fh_take. cbn [fst snd].
  rewrite (hr_min _ _ _ R). pose proof (hrepr_drop_min _ _ _ R) as R0.
  destruct (fmin (fh_cache_min prio fh)) as [c|] eqn:Ec; cbn [fmap option_fmap option_map].
  - destruct (hr_cached _ _ _ R c Ec) as (n & Hn & Hv & Hr & _). rewrite (store_bind _ _ _ _ _ Hn).
    pose proof (hrepr_min_fresh _ _ _ _ R Ec) as Hfr.
    assert (cell_ptr c ∈ fh_addrs fh) as Hin.
    { unfold fh_addrs. rewrite <- fh_cache_cells. unfold fh_cells. rewrite Ec. set_solver. }
    eexists _, (upd m1 (cell_ptr c) (set_degree NOT_IN_HEAP n)). split_and!; [done| | |].
    + eapply (hrepr_frame [cell_ptr c]); [eapply frame_eq_upd; [done|set_solver]| |done].
      unfold fh_addrs, fh_cells. simpl. intros p Hp Hq%list_elem_of_singleton. subst. by apply Hfr.
    + eapply frame_eq_trans; [done|]. by eapply frame_eq_upd.
    + intros ? [= <-]. exists (set_degree NOT_IN_HEAP n). simpl. rewrite lookup_insert_eq. by split_and!.
  - eexists _, m1. by split_and!.
Qed.

End Operations.
