(* ===== verification/BHeapDelete.v ===== *)
(** * Deletion and decrease-key of the binomial heap

    [bheap_delete] and [bheap_decrease] (src/litmus2010/litmus/bheap.c) do not
    relink nodes: they move a value up a tree by exchanging the [value] and
    [ref] fields of a node and its parent, and they update the back pointers
    [*ref].  This file shows that the memory then represents the forest
    obtained by the zipper operations of BinForest.v. *)
From S2P Require Import Prelude BHeap BinForest BHeapRefine.

#[local] Typeclasses Opaque addrs faddrs fh_addrs fh_refs.

(** ** Moving values up a tree *)
Section Bubble.
Context {V : Type}.
Implicit Types (m : mem V) (t : tree V) (ctx : list (frame V)) (f : frame V).

(** The parent pointer of a subtree at position [ctx]. *)
Definition ctx_parent ctx : option positive := fr_ptr <$> list.head ctx.

Lemma cells_fill f t :
  cells (fill f t) ≡ₚ cells t ++ (fr_ptr f, fr_val f, fr_ref f) :: fcells (fr_left f) ++ fcells (fr_right f).
Proof.
  unfold fill. rewrite cells_Node, fcells_app, fcells_cons. rewrite <- Permutation_middle. constructor.
  rewrite (assoc_L (++)), (comm (++) (fcells (fr_left f))). by rewrite <- app_assoc.
Qed.

Lemma cells_plug ctx : exists cs, forall t, cells (plug ctx t) ≡ₚ cells t ++ cs.
Proof.
  induction ctx as [|f ctx [cs IH]]; [exists []; intros t; by rewrite app_nil_r|].
  eexists. intros t. simpl. rewrite IH, cells_fill, <- app_assoc. done.
Qed.

Lemma addrs_plug ctx : exists l, forall t, addrs (plug ctx t) ≡ₚ addrs t ++ l.
Proof.
  destruct (cells_plug ctx) as [cs H]. exists (cell_ptr <$> cs). intros t. unfold addrs.
  by rewrite H, fmap_app.
Qed.

Lemma length_ctx_addrs ctx t : length ctx < length (addrs (plug ctx t)).
Proof.
  revert t. induction ctx as [|f ctx IH]; intros t; [rewrite addrs_eq; simpl; lia|]. simpl.
  assert (forall ctx s s', length (addrs s) < length (addrs s') ->
    length (addrs (plug ctx s)) < length (addrs (plug ctx s'))) as Hmono.
  { intros c s s' Hl. destruct (addrs_plug c) as [l Hc]. rewrite !Hc, !length_app. lia. }
  specialize (IH t). eapply Nat.le_lt_trans; [exact IH|]. apply Hmono.
  unfold addrs at 2. rewrite cells_fill, fmap_app, length_app. simpl. unfold addrs. lia.
Qed.

Lemma addrs_swap_up f t : addrs (swap_up f t) = addrs (fill f t).
Proof.
  destruct t as [p v r cs]. unfold swap_up, fill. rewrite !addrs_eq. simpl. f_equal.
  by rewrite !faddrs_app, !faddrs_cons, !addrs_eq.
Qed.

Lemma addrs_plug_eq ctx s t : addrs s = addrs t -> addrs (plug ctx s) = addrs (plug ctx t).
Proof.
  revert s t. induction ctx as [|f ctx IH]; intros s t H; [done|]. simpl. apply IH.
  unfold fill. rewrite !addrs_eq. simpl. f_equal. by rewrite !faddrs_app, !faddrs_cons, H.
Qed.

Lemma addrs_bubble ctx t : addrs (bubble ctx t) = addrs (plug ctx t).
Proof.
  revert t. induction ctx as [|f ctx IH]; intros t; [done|]. simpl. rewrite IH.
  apply addrs_plug_eq, addrs_swap_up.
Qed.

Lemma root_ptr_bubble ctx t : root_ptr (bubble ctx t) = root_ptr (plug ctx t).
Proof.
  pose proof (addrs_bubble ctx t) as H. rewrite !addrs_eq in H. by injection H.
Qed.

Lemma root_ref_bubble ctx t : root_ref (bubble ctx t) = root_ref t.
Proof. revert t. induction ctx as [|f ctx IH]; intros t; [done|]. simpl. by rewrite IH. Qed.

(** A subtree of a represented tree is represented, and can be replaced by one
    with the same root address. *)
Lemma plug_repr ctx N nxt t :
  trepr N None nxt (plug ctx t) -> NoDup (addrs (plug ctx t)) ->
  exists nxt', trepr N (ctx_parent ctx) nxt' t /\
    forall N' t', root_ptr t' = root_ptr t -> (forall p, p ∉ addrs t -> N' !! p = N !! p) ->
      trepr N' (ctx_parent ctx) nxt' t' -> trepr N' None nxt (plug ctx t').
Proof.
  revert t. induction ctx as [|f ctx IH]; intros t Ht Hn; [by exists nxt|]. simpl in *.
  destruct (IH (fill f t) Ht Hn) as (nxt0 & Hfill & Hrep). clear IH.
  destruct (addrs_plug ctx) as [l Hl]. rewrite Hl in Hn. apply NoDup_app in Hn as (Hn & _ & _).
  unfold fill in Hn. rewrite addrs_eq in Hn. cbn [root_ptr children] in Hn.
  apply NoDup_cons in Hn as [Hp Hn]. rewrite faddrs_app, faddrs_cons in Hn, Hp.
  apply trepr_eq in Hfill as [Hroot Hcs]. cbn [root_ptr children fill] in *.
  apply frepr_app in Hcs as [HL [Ht' HR]]. exists (hd_or None (fr_right f)). split; [done|].
  intros N' t' Hrt HN' Ht''. apply (Hrep N' (fill f t')); [done| |].
  - intros p Hp'. apply HN'. intros ?. apply Hp'. unfold fill. rewrite addrs_eq. cbn [root_ptr children].
    rewrite faddrs_app, faddrs_cons. set_solver.
  - apply NoDup_app in Hn as (_ & HnL & (_ & HnR & _)%NoDup_app).
    apply trepr_eq. cbn [root_ptr children fill]. split.
    + rewrite HN' by set_solver. rewrite Hroot. unfold tree_node, deg, fill. cbn [children root_val root_ref].
      rewrite !length_app. simpl. f_equal. f_equal. destruct (fr_left f); simpl; [by rewrite Hrt|done].
    + apply frepr_app. cbn [frepr hd_or]. rewrite Hrt. split_and!; [|done|];
        (eapply frepr_frame; [|eassumption]); intros p Hp'; apply HN'; set_solver.
Qed.

Lemma store_var_bind {A} (r p : positive) (k : unit -> M (mem V) A) m :
  (store_var r p ≫= k) m = k tt (mk_mem (nodes m) (<[r := p]> (vars m))).
Proof. done. Qed.

(** [swap_with_parent] *)
Lemma swap_spec f t m par nxt :
  trepr (nodes m) par nxt (fill f t) -> NoDup (addrs (fill f t)) ->
  exists m', swap_with_parent (fr_ptr f) (root_ptr t) m = Some (tt, m') /\
    trepr (nodes m') par nxt (swap_up f t) /\
    (forall p, p ∉ addrs (fill f t) -> nodes m' !! p = nodes m !! p) /\
    dom (nodes m') = dom (nodes m) /\
    vars m' = <[root_ref t := fr_ptr f]> (<[fr_ref f := root_ptr t]> (vars m)).
Proof.
  intros Ht Hn. unfold fill in Hn. rewrite addrs_eq in Hn. cbn [root_ptr children] in Hn.
  apply NoDup_cons in Hn as [Hp Hn]. rewrite faddrs_app, faddrs_cons in Hn, Hp.
  apply NoDup_app in Hn as (_ & HnL & (Hnt & HnR & _)%NoDup_app).
  apply trepr_eq in Ht as [Hf Hcs]. cbn [root_ptr children fill] in *.
  apply frepr_app in Hcs as [HL [Ht HR]]. pose proof (trepr_root _ _ _ _ Ht) as Hr.
  pose proof (root_in_addrs t) as Hrt.
  assert (fr_ptr f <> root_ptr t) as Hne by (intros E; rewrite E in Hp; set_solver).
  set (N' := <[root_ptr t := tree_node (Some (fr_ptr f)) (hd_or None (fr_right f))
                 (Node (root_ptr t) (fr_val f) (fr_ref f) (children t))]>
             (<[fr_ptr f := tree_node par nxt (swap_up f t)]> (nodes m))).
  exists (mk_mem N' (<[root_ref t := fr_ptr f]> (<[fr_ref f := root_ptr t]> (vars m)))).
  split_and!; [| | | |done].
  - unfold swap_with_parent. rewrite (load_bind _ _ _ _ Hf), (load_bind _ _ _ _ Hr).
    rewrite (store_bind _ _ _ _ _ Hf). erewrite store_bind by (by simpl; rewrite lookup_insert_ne).
    rewrite !store_var_bind.
    erewrite store_bind by (by simpl; rewrite lookup_insert_ne, lookup_insert_eq).
    erewrite store_ok by (by simpl; rewrite lookup_insert_ne, lookup_insert_eq).
    unfold upd. simpl. do 3 f_equal. subst N'. unfold swap_up, tree_node, set_ref, set_value, deg. simpl.
    rewrite (insert_insert_ne _ (root_ptr t) (fr_ptr f)) by done. rewrite !insert_insert_eq.
    rewrite (insert_insert_ne _ (fr_ptr f) (root_ptr t)) by done. rewrite insert_insert_eq.
    f_equal. f_equal. rewrite !length_app. simpl. f_equal. by destruct (fr_left f).
  - apply trepr_eq. cbn [root_ptr children swap_up nodes]. split.
    + subst N'. rewrite lookup_insert_ne by done. by rewrite lookup_insert_eq.
    + apply trepr_eq in Ht as [_ Htc]. apply frepr_app. cbn [frepr hd_or]. subst N'.
      rewrite addrs_eq in Hnt, Hp. apply NoDup_cons in Hnt as [? _]. split_and!.
      * do 2 (apply frepr_insert_ne; [set_solver|]). done.
      * apply trepr_eq. cbn [root_ptr children]. split; [by rewrite lookup_insert_eq|].
        do 2 (apply frepr_insert_ne; [set_solver|]). done.
      * do 2 (apply frepr_insert_ne; [set_solver|]). done.
  - intros p. unfold fill. rewrite addrs_eq. cbn [root_ptr children]. rewrite faddrs_app, faddrs_cons.
    intros ?. simpl. subst N'. rewrite !lookup_insert_ne by set_solver. done.
  - simpl. subst N'. rewrite dom_insert_lookup_L; [by rewrite dom_insert_lookup_L|].
    rewrite lookup_insert_ne; eauto.
Qed.

Lemma refs_ok_swap m m' (p : positive) (v : V) (r q : positive) (w : V) (s : positive) cs :
  refs_ok m ((p, v, r) :: (q, w, s) :: cs) ->
  vars m' = <[s := p]> (<[r := q]> (vars m)) ->
  refs_ok m' ((p, w, s) :: (q, v, r) :: cs).
Proof.
  intros [Hn Hf] Hv. rewrite !fmap_cons in Hn. cbn [cell_ref fst snd] in Hn.
  apply NoDup_cons in Hn as [[Hrs Hr]%not_elem_of_cons Hn]. apply NoDup_cons in Hn as [Hs Hn].
  apply Forall_cons in Hf as [_ Hf]. apply Forall_cons in Hf as [_ Hf]. split.
  - rewrite !fmap_cons. cbn [cell_ref fst snd]. apply NoDup_cons. split; [by apply not_elem_of_cons|].
    by apply NoDup_cons.
  - rewrite Hv. repeat apply Forall_cons_2; cbn [cell_ref cell_ptr fst snd].
    + by rewrite lookup_insert_eq.
    + by rewrite lookup_insert_ne, lookup_insert_eq.
    + apply Forall_forall. intros c Hc. pose proof (list_elem_of_fmap_2 cell_ref cs c Hc) as Hin.
      rewrite !lookup_insert_ne by (intros E; by rewrite E in *). by apply (proj1 (Forall_forall _ _) Hf).
Qed.

Lemma cells_swap f t : exists cs,
  cells (fill f t) ≡ₚ (fr_ptr f, fr_val f, fr_ref f) :: (root_ptr t, root_val t, root_ref t) :: cs /\
  cells (swap_up f t) ≡ₚ (fr_ptr f, root_val t, root_ref t) :: (root_ptr t, fr_val f, fr_ref f) :: cs.
Proof.
  exists (fcells (children t) ++ fcells (fr_left f) ++ fcells (fr_right f)).
  destruct t as [p v r cs]. unfold swap_up, fill. rewrite !cells_Node, !fcells_app, !fcells_cons, !cells_Node.
  simpl. split; constructor; rewrite (comm (++) (fcells (fr_left f))); simpl; constructor;
    by rewrite <- app_assoc, (comm (++) (fcells (fr_right f))).
Qed.

(** What moving values inside a tree changes: only nodes of the tree and the
    variables its nodes refer to. *)
Definition swap_frame (t : tree V) m m' : Prop :=
  (forall p, p ∉ addrs t -> nodes m' !! p = nodes m !! p) /\
  dom (nodes m') = dom (nodes m) /\
  (forall r, r ∉ cell_ref <$> cells t -> vars m' !! r = vars m !! r).

Lemma swap_frame_refl t m : swap_frame t m m.
Proof. done. Qed.

Lemma swap_frame_trans t t' m1 m2 m3 :
  (forall p, p ∈ addrs t' -> p ∈ addrs t) ->
  (forall r, r ∈ cell_ref <$> cells t' -> r ∈ cell_ref <$> cells t) ->
  swap_frame t m1 m2 -> swap_frame t' m2 m3 -> swap_frame t m1 m3.
Proof.
  intros Ha Hr (H1 & H2 & H3) (G1 & G2 & G3). split_and!.
  - intros p Hp. rewrite G1, H1; auto.
  - by rewrite G2.
  - intros r Hp. rewrite G3, H3; auto.
Qed.

(** One exchange inside a whole tree. *)
Lemma swap_plug_spec f ctx t m nxt others :
  trepr (nodes m) None nxt (plug (f :: ctx) t) -> NoDup (addrs (plug (f :: ctx) t)) ->
  refs_ok m (cells (plug (f :: ctx) t) ++ others) ->
  exists m', swap_with_parent (fr_ptr f) (root_ptr t) m = Some (tt, m') /\
    trepr (nodes m') None nxt (plug ctx (swap_up f t)) /\
    refs_ok m' (cells (plug ctx (swap_up f t)) ++ others) /\
    swap_frame (plug (f :: ctx) t) m m'.
Proof.
  simpl. intros Ht Hn Hr. destruct (plug_repr ctx _ _ _ Ht Hn) as (nxt' & Hft & Hrep).
  destruct (addrs_plug ctx) as [l Hl]. destruct (cells_plug ctx) as [cs Hcs].
  destruct (cells_swap f t) as (cs' & Hc1 & Hc2).
  rewrite Hl in Hn. apply NoDup_app in Hn as (Hn & _ & _).
  destruct (swap_spec f t m _ _ Hft Hn) as (m' & Hrun & Hsw & Hfr & Hdom & Hvars).
  exists m'. split_and!; [done|apply Hrep; done| |].
  - eapply refs_ok_perm; [by rewrite Hcs, Hc2|]. eapply refs_ok_swap; [|exact Hvars].
    eapply refs_ok_perm; [|exact Hr]. by rewrite Hcs, Hc1.
  - split_and!; [|done|].
    + intros p Hp. apply Hfr. intros Hin. apply Hp. rewrite Hl. apply elem_of_app. by left.
    + intros r Hp. rewrite Hvars. rewrite Hcs, Hc1 in Hp. cbn in Hp.
      apply not_elem_of_cons in Hp as [? [? _]%not_elem_of_cons]. by rewrite !lookup_insert_ne.
Qed.

Lemma plug_root_parent ctx m nxt t :
  trepr (nodes m) None nxt (plug ctx t) -> NoDup (addrs (plug ctx t)) ->
  exists n, nodes m !! root_ptr t = Some n /\ parent n = ctx_parent ctx /\ value n = root_val t.
Proof.
  intros Ht Hn. destruct (plug_repr ctx _ _ _ Ht Hn) as (nxt' & Hft & _).
  pose proof (trepr_root _ _ _ _ Hft). eauto.
Qed.

Lemma addrs_swap_plug f ctx t : addrs (plug ctx (swap_up f t)) = addrs (plug (f :: ctx) t).
Proof. exact (addrs_plug_eq ctx _ _ (addrs_swap_up f t)). Qed.

Lemma refs_swap_plug f ctx t :
  cell_ref <$> cells (plug ctx (swap_up f t)) ≡ₚ cell_ref <$> cells (plug (f :: ctx) t).
Proof.
  simpl. destruct (cells_plug ctx) as [cs Hcs]. destruct (cells_swap f t) as (cs' & Hc1 & Hc2).
  rewrite !Hcs, Hc1, Hc2. simpl. constructor.
Qed.

(** [while (parent) { ... }] of [bheap_delete]: the value reaches the root. *)
Lemma delete_up_spec ctx fuel t m nxt others :
  length ctx < fuel ->
  trepr (nodes m) None nxt (plug ctx t) -> NoDup (addrs (plug ctx t)) ->
  refs_ok m (cells (plug ctx t) ++ others) ->
  exists m', bheap_delete_up fuel (root_ptr t) (ctx_parent ctx) m = Some (root_ptr (plug ctx t), m') /\
    trepr (nodes m') None nxt (bubble ctx t) /\
    refs_ok m' (cells (bubble ctx t) ++ others) /\
    swap_frame (plug ctx t) m m'.
Proof.
  revert fuel t m. induction ctx as [|f ctx IH]; intros fuel t m Hf Ht Hn Hr;
    (destruct fuel as [|fuel]; [simpl in Hf; lia|]).
  { exists m. split_and!; try done. }
  destruct (swap_plug_spec f ctx t m nxt others Ht Hn Hr) as (m1 & Hrun & Ht1 & Hr1 & Hfr1).
  rewrite <- addrs_swap_plug in Hn.
  destruct (plug_root_parent _ _ _ _ Ht1 Hn) as (n & Hnode & Hpar & _).
  destruct (IH fuel (swap_up f t) m1) as (m2 & Hrun2 & Ht2 & Hr2 & Hfr2); [simpl in Hf; lia|done..|].
  exists m2. split_and!; [|done|done|].
  - cbn [bheap_delete_up ctx_parent list.head fmap option_fmap option_map].
    rewrite (bind_ok _ _ _ _ _ Hrun). erewrite load_bind by exact Hnode. rewrite Hpar.
    etransitivity; [exact Hrun2|]. do 2 f_equal. by rewrite <- !root_ptr_bubble.
  - eapply swap_frame_trans; [| |exact Hfr1|exact Hfr2].
    + intros p. by rewrite addrs_swap_plug.
    + intros r. by rewrite refs_swap_plug.
Qed.

(** ** Inside a heap *)

(** What an operation that moves values inside a heap changes. *)
Definition heap_frame (fh : fheap V) m m' : Prop :=
  (forall p, p ∉ fh_addrs fh -> nodes m' !! p = nodes m !! p) /\
  dom (nodes m') = dom (nodes m) /\
  (forall r, r ∉ fh_refs fh -> vars m' !! r = vars m !! r).

Definition rest_cells (l r : list (tree V)) (c : option (positive * V * positive)) :=
  fcells l ++ fcells r ++ option_list c.

Lemma fh_cells_split l t r c :
  fh_cells (mk_fheap (l ++ t :: r) c) ≡ₚ cells t ++ rest_cells l r c.
Proof.
  unfold fh_cells, rest_cells. simpl. rewrite fcells_app, fcells_cons.
  rewrite (comm (++)), (assoc_L (++) (fcells l)), (comm (++) (fcells l) (cells t)).
  by rewrite <- !(assoc_L (++)).
Qed.

Lemma swap_heap_frame l t r c m m' :
  swap_frame t m m' -> heap_frame (mk_fheap (l ++ t :: r) c) m m'.
Proof.
  intros (H1 & H2 & H3). split_and!; [|done|].
  - intros p Hp. apply H1. intros Hin. apply Hp. unfold fh_addrs. rewrite fh_cells_split, fmap_app.
    apply elem_of_app. by left.
  - intros p Hp. apply H3. intros Hin. apply Hp. unfold fh_refs. rewrite fh_cells_split, fmap_app.
    apply elem_of_app. by left.
Qed.

(** Moving values inside one tree of a heap. *)
Lemma hrepr_swap l t t' r c m m' h :
  hrepr m h (mk_fheap (l ++ t :: r) c) -> swap_frame t m m' -> addrs t' = addrs t ->
  trepr (nodes m') None (hd_or None r) t' -> refs_ok m' (cells t' ++ rest_cells l r c) ->
  hrepr m' h (mk_fheap (l ++ t' :: r) c).
Proof.
  intros Hh Hf Ha Ht' Hr'.
  assert (root_ptr t' = root_ptr t) as Hrt by (rewrite !addrs_eq in Ha; by injection Ha).
  assert (fh_addrs (mk_fheap (l ++ t' :: r) c) ≡ₚ fh_addrs (mk_fheap (l ++ t :: r) c)) as Hp.
  { unfold fh_addrs. rewrite !fh_cells_split, !fmap_app. change (cell_ptr <$> cells t') with (addrs t').
    by rewrite Ha. }
  pose proof (hr_nodup _ _ _ Hh) as Hn. unfold fh_addrs in Hn.
  rewrite fh_cells_split in Hn. unfold rest_cells in Hn. rewrite !fmap_app in Hn.
  apply NoDup_app in Hn as (_ & Hd & _). destruct Hf as (Hf & Hdom & _).
  destruct Hh as [H1 H2 H3 H4 H5 H6 H7]. cbn [trees fmin] in *.
  apply frepr_app in H3 as [Hl [_ Hr]]. cbn [hd_or] in Hl.
  split; cbn [trees fmin]; try done.
  - rewrite H1. destruct l; simpl; [by rewrite Hrt|done].
  - apply frepr_app. cbn [frepr hd_or]. rewrite Hrt. split_and!; [|done|];
      (eapply frepr_frame; [|eassumption]); intros p Hp'; apply Hf; intros Hin; apply (Hd p Hin);
      rewrite !elem_of_app; tauto.
  - intros c' Hc. destruct (H4 c' Hc) as (n & ? & ?). exists n. split; [|done]. rewrite Hf; [done|].
    intros Hin. apply (Hd _ Hin). rewrite Hc. rewrite !elem_of_app. right. right. by left.
  - by rewrite Hp.
  - eapply refs_ok_perm; [|exact Hr']. by rewrite fh_cells_split.
  - unfold bounded in *. by rewrite <- size_dom, Hdom, size_dom.
Qed.

(** Reading the invariant off one tree. *)
Lemma hrepr_tree l t r c m h :
  hrepr m h (mk_fheap (l ++ t :: r) c) ->
  trepr (nodes m) None (hd_or None r) t /\ NoDup (addrs t) /\ refs_ok m (cells t ++ rest_cells l r c).
Proof.
  intros Hh. split_and!.
  - pose proof (hr_trees _ _ _ Hh) as H. by apply frepr_app in H as [_ [? _]].
  - pose proof (hrepr_nodup_trees _ _ _ Hh) as H. simpl in H. rewrite faddrs_app, faddrs_cons in H.
    by apply NoDup_app in H as (_ & _ & (? & _)%NoDup_app).
  - eapply refs_ok_perm; [|apply Hh]. by rewrite fh_cells_split.
Qed.

Lemma ctx_fuel ctx m nxt t :
  trepr (nodes m) None nxt (plug ctx t) -> NoDup (addrs (plug ctx t)) -> length ctx < loop_fuel m.
Proof.
  intros Ht Hn. pose proof (length_ctx_addrs ctx t). unfold loop_fuel.
  enough (length (addrs (plug ctx t)) <= size (nodes m)) by lia. apply addrs_bound; [done|].
  intros p Hp. apply (faddrs_in_dom (nodes m) None nxt [plug ctx t]); [by split|].
  rewrite faddrs_cons. apply elem_of_app. by left.
Qed.

(** The search for the predecessor of a root. *)
Lemma delete_find_spec fuel pre l t r m :
  length l < fuel -> frepr (nodes m) None None (pre ++ l ++ t :: r) -> NoDup (faddrs (l ++ t :: r)) ->
  bheap_delete_find fuel (root_ptr t) (pos_of pre) (hd_or None (l ++ t :: r)) m = Some (pos_of (pre ++ l), m).
Proof.
  revert fuel pre. induction l as [|u l IH]; intros fuel pre Hf Hr Hn;
    (destruct fuel as [|fuel]; [simpl in Hf; lia|]); cbn [app hd_or bheap_delete_find].
  - rewrite bool_decide_true by done. by rewrite app_nil_r.
  - assert (root_ptr u <> root_ptr t) as Hne.
    { cbn [app] in Hn. rewrite faddrs_cons, faddrs_app, faddrs_cons in Hn.
      apply NoDup_app in Hn as (_ & Hd & _). intros E. apply (Hd (root_ptr u) (root_in_addrs u)).
      rewrite E, !elem_of_app. right. left. apply root_in_addrs. }
    rewrite bool_decide_false by congruence.
    pose proof Hr as Hr'. apply frepr_app in Hr' as [_ [Hu _]].
    rewrite (load_bind _ _ _ _ (trepr_root _ _ _ _ Hu)). cbn [next tree_node].
    specialize (IH fuel (pre ++ [u])). rewrite pos_of_snoc in IH. rewrite <- !app_assoc in IH. apply IH.
    + simpl in Hf. lia.
    + done.
    + cbn [app] in Hn. rewrite faddrs_cons in Hn. by apply NoDup_app in Hn as (_ & _ & ?).
Qed.

(** ** [bheap_delete] *)
Variable prio : V -> V -> bool.
Notation order := (BHeapRefine.order prio).

(** Deleting the cached minimum. *)
Lemma delete_min_spec m h fh c :
  hrepr m h fh -> fmin fh = Some c ->
  exists h' m', bheap_delete order h (cell_ptr c) m = Some (h', m') /\
    hrepr m' h' (mk_fheap (trees fh) None) /\ frame_eq [cell_ptr c] m m' /\
    exists n, nodes m' !! cell_ptr c = Some n /\ value n = cell_val c /\ ref n = cell_ref c /\
      bheap_node_in_heap n = false.
Proof.
  intros Hh Hc. pose proof (hrepr_min_fresh _ _ _ _ Hh Hc) as Hfr.
  destruct (hr_cached _ _ _ Hh c Hc) as (n & Hn & Hv & Hr & _ & _).
  unfold bheap_delete. rewrite bool_decide_false by (rewrite (hr_min _ _ _ Hh), Hc; naive_solver).
  rewrite mret_bind, (store_bind _ _ _ _ _ Hn). pose proof (hrepr_drop_min _ _ _ Hh) as R0.
  assert (frame_eq [cell_ptr c] m (upd m (cell_ptr c) (set_degree NOT_IN_HEAP n))) as Hf
    by (eapply frame_eq_upd; [done|set_solver]).
  eexists _, _. split_and!; [done| |exact Hf|].
  - eapply hrepr_frame; [exact Hf| |done].
    unfold fh_addrs, fh_cells. simpl. intros p Hp Hq%list_elem_of_singleton. subst. by apply Hfr.
  - exists (set_degree NOT_IN_HEAP n). simpl. rewrite lookup_insert_eq. by split_and!.
Qed.

Lemma delete_bubble_spec l ctx s r c m h :
  hrepr m h (mk_fheap (l ++ plug ctx s :: r) c) ->
  exists m', (n ← load (Some (root_ptr s)); fuel ← gets loop_fuel;
              node ← bheap_delete_up fuel (root_ptr s) (parent n);
              prev ← bheap_delete_find fuel node None (head h); mret (node, prev)) m
      = Some ((root_ptr (bubble ctx s), pos_of l), m') /\
    hrepr m' h (mk_fheap (l ++ bubble ctx s :: r) c) /\
    heap_frame (mk_fheap (l ++ plug ctx s :: r) c) m m'.
Proof.
  intros Hh. destruct (hrepr_tree _ _ _ _ _ _ Hh) as (Ht & Hn & Hr).
  pose proof (ctx_fuel _ _ _ _ Ht Hn) as Hfuel.
  destruct (delete_up_spec ctx (loop_fuel m) s m _ _ Hfuel Ht Hn Hr) as (m1 & E1 & Ht1 & Hr1 & Hf1).
  destruct (plug_root_parent _ _ _ _ Ht Hn) as (n & Hnode & Hpar & _).
  pose proof (hrepr_swap l _ (bubble ctx s) r c m m1 h Hh Hf1 (addrs_bubble _ _) Ht1 Hr1) as Hh1.
  exists m1. split_and!; [|done|by apply swap_heap_frame].
  rewrite (load_bind _ _ _ _ Hnode), gets_bind, Hpar, (bind_ok _ _ _ _ _ E1).
  pose proof (hr_trees _ _ _ Hh1) as Hts. pose proof (hrepr_nodup_trees _ _ _ Hh1) as Hnt.
  rewrite (hr_head _ _ _ Hh1), <- root_ptr_bubble. cbn [trees] in *.
  erewrite bind_ok; [|eapply (delete_find_spec _ [] l); [|done|done]]; [done|].
  pose proof (roots_le_size _ _ _ _ Hts Hnt) as Hle. rewrite length_app in Hle. simpl in Hle.
  destruct Hf1 as (_ & Hd & _). unfold loop_fuel. rewrite <- size_dom, <- Hd, size_dom. lia.
Qed.

Lemma unlink_cells l t r c :
  fh_cells (mk_fheap (l ++ t :: r) c) ≡ₚ (root_ptr t, root_val t, root_ref t) ::
    fh_cells (mk_fheap (union prio (l ++ r) (reverse (children t))) c).
Proof.
  rewrite fh_cells_split, cells_children. unfold rest_cells, fh_cells. simpl. constructor.
  rewrite (union_cells prio), fcells_reverse, fcells_app, (comm (++) (option_list c)).
  rewrite (comm (++) _ (fcells (children t))). by rewrite <- !(assoc_L (++)).
Qed.

(** Taking a root out of a heap and marking its node. *)
Lemma unlink_heap_spec l t r c m h :
  hrepr m h (mk_fheap (l ++ t :: r) c) ->
  exists h' m', (heap ← unlink_root order h (pos_of l) (Some (root_ptr t));
                 store (Some (root_ptr t)) (set_degree NOT_IN_HEAP);; mret heap) m = Some (h', m') /\
    hrepr m' h' (mk_fheap (union prio (l ++ r) (reverse (children t))) c) /\
    frame_eq (faddrs (l ++ t :: r)) m m' /\
    exists n, nodes m' !! root_ptr t = Some n /\ value n = root_val t /\ ref n = root_ref t /\
      bheap_node_in_heap n = false.
Proof.
  intros Hh. pose proof (hr_nodup _ _ _ Hh) as Hnd. pose proof (hr_refs _ _ _ Hh) as Hr.
  destruct (unlink_root_spec prio l t r (min h) m (hr_trees _ _ _ Hh) (hrepr_nodup_trees _ _ _ Hh)
    (hr_bound _ _ _ Hh)) as (m2 & E2 & Hu & Hn & Hf2).
  apply (refs_ok_perm _ _ _ (unlink_cells l t r c)), refs_ok_tail in Hr.
  unfold fh_addrs in Hnd. rewrite unlink_cells, fmap_cons in Hnd.
  apply NoDup_cons in Hnd as [Hfresh Hnd]. cbn in Hfresh.
  assert (h = mk_bheap (hd_or None (l ++ t :: r)) (min h)) as Eh
    by (destruct h; f_equal; exact (hr_head _ _ _ Hh)).
  rewrite Eh, (bind_ok _ _ _ _ _ E2), (store_bind _ _ _ _ _ Hn). clear Eh.
  set (m3 := upd m2 _ _). assert (frame_eq [root_ptr t] m2 m3) as Hf3 by (eapply frame_eq_upd; [done|set_solver]).
  eexists _, m3. split_and!; [done| | |].
  - apply (hrepr_frame [root_ptr t] m2); [done|intros p Hp ->%list_elem_of_singleton; by apply Hfresh|].
    split; cbn [trees fmin head min]; try done.
    + by rewrite (hr_min _ _ _ Hh).
    + intros c' Hc'. eapply cached_at_frame; [exact Hf2| |by apply Hh].
      by apply (hrepr_min_fresh _ _ _ c' Hh).
    + eapply refs_ok_vars; [apply Hf2|done].
    + eapply bounded_frame; [exact Hf2|apply Hh].
  - eapply frame_eq_trans; [exact Hf2|]. eapply frame_eq_weaken; [|exact Hf3].
    intros p ->%list_elem_of_singleton. rewrite faddrs_app, faddrs_cons, !elem_of_app.
    right. left. apply root_in_addrs.
  - eexists. simpl. rewrite lookup_insert_eq. by split_and!.
Qed.

Lemma heap_frame_trees ts c m m' : frame_eq (faddrs ts) m m' -> heap_frame (mk_fheap ts c) m m'.
Proof.
  intros (Hf & Hv & Hd). split_and!; [|done|by rewrite Hv].
  intros p Hp. apply Hf. intros Hin. by apply Hp, (fh_addrs_trees (mk_fheap ts c)).
Qed.

Lemma heap_frame_trans fh fh' m1 m2 m3 :
  fh_addrs fh' ≡ₚ fh_addrs fh -> fh_refs fh' ≡ₚ fh_refs fh ->
  heap_frame fh m1 m2 -> heap_frame fh' m2 m3 -> heap_frame fh m1 m3.
Proof.
  intros Ha Hr (H1 & H2 & H3) (G1 & G2 & G3). split_and!.
  - intros p Hp. rewrite G1, H1; [done..|by rewrite Ha].
  - by rewrite G2.
  - intros r Hp. rewrite G3, H3; [done..|by rewrite Hr].
Qed.

Lemma refs_bubble ctx t : cell_ref <$> cells (bubble ctx t) ≡ₚ cell_ref <$> cells (plug ctx t).
Proof.
  revert t. induction ctx as [|f ctx IH]; intros t; [done|].
  etransitivity; [apply IH|apply refs_swap_plug].
Qed.

Lemma not_min_in_tree l ctx s r c m h :
  hrepr m h (mk_fheap (l ++ plug ctx s :: r) c) -> min h <> Some (root_ptr s).
Proof.
  intros Hh. rewrite (hr_min _ _ _ Hh). cbn [fmin]. intros E. apply fmap_Some in E as (c' & -> & E).
  eapply (hrepr_min_fresh _ _ _ c' Hh); [done|]. rewrite <- E. cbn [trees].
  rewrite faddrs_app, faddrs_cons, !elem_of_app. right. left.
  destruct (addrs_plug ctx) as [q Hq]. rewrite Hq. apply elem_of_app. left. apply root_in_addrs.
Qed.

(** Deleting any other node: the forest is the one [fh_delete_at] computes, and
    the variable the deleted value refers to names the node it now occupies,
    which is marked as being in no heap. *)
Lemma delete_spec l ctx s r c m h :
  hrepr m h (mk_fheap (l ++ plug ctx s :: r) c) ->
  exists h' m', bheap_delete order h (root_ptr s) m = Some (h', m') /\
    hrepr m' h' (fh_delete_at prio l ctx s r c) /\
    heap_frame (mk_fheap (l ++ plug ctx s :: r) c) m m' /\
    vars m' !! root_ref s = Some (root_ptr (plug ctx s)) /\
    exists n, nodes m' !! root_ptr (plug ctx s) = Some n /\ value n = root_val s /\
      ref n = root_ref s /\ bheap_node_in_heap n = false.
Proof.
  intros Hh. pose proof (not_min_in_tree _ _ _ _ _ _ _ Hh) as Hne.
  destruct (delete_bubble_spec _ _ _ _ _ _ _ Hh) as (m1 & E1 & Hh1 & Hf1).
  destruct (unlink_heap_spec _ _ _ _ _ _ Hh1) as (h2 & m2 & E2 & Hh2 & Hf2 & Hn).
  rewrite root_ptr_bubble in *. exists h2, m2. split_and!; [|exact Hh2| | |].
  - unfold bheap_delete. rewrite bool_decide_true, bind_assoc by done.
    apply bind_inv in E1 as (n & ma & Ea & E1). rewrite (bind_ok _ _ _ _ _ Ea), bind_assoc.
    apply bind_inv in E1 as (fuel & mb & Eb & E1). rewrite (bind_ok _ _ _ _ _ Eb), bind_assoc.
    apply bind_inv in E1 as (nd & mc & Ec & E1). rewrite (bind_ok _ _ _ _ _ Ec), bind_assoc.
    apply bind_inv in E1 as (pv & md & Ed & E1). rewrite (bind_ok _ _ _ _ _ Ed), bind_assoc.
    injection E1 as -> -> ->. apply bind_inv in E2 as (hh & me & Ee & E2).
    by rewrite (bind_ok _ _ _ _ _ Ee).
  - eapply heap_frame_trans; [| |exact Hf1|by apply heap_frame_trees].
    + unfold fh_addrs. rewrite !fh_cells_split, !fmap_app. change (cell_ptr <$> cells ?t) with (addrs t).
      by rewrite addrs_bubble.
    + unfold fh_refs. rewrite !fh_cells_split, !fmap_app. by rewrite refs_bubble.
  - destruct Hf2 as (_ & -> & _). pose proof (hr_refs _ _ _ Hh1) as Hr.
    apply (refs_ok_perm _ _ _ (unlink_cells _ _ _ _)) in Hr as [_ Hr].
    apply Forall_cons in Hr as [Hr _]. cbn in Hr. by rewrite root_ref_bubble, root_ptr_bubble in Hr.
  - by rewrite root_ref_bubble, root_val_bubble in Hn.
Qed.

(** ** [bheap_decrease] *)

(** the result of the loop: whether the test of the [while] stopped it *)
Definition decrease_stopped ctx t : bool :=
  match (bubble_while prio ctx t).1 with [] => false | _ => true end.

Definition decreased ctx t : tree V :=
  let '(ctx', t') := bubble_while prio ctx t in plug ctx' t'.

Lemma decreased_skip f ctx t :
  prio (root_val t) (fr_val f) = false -> decreased (f :: ctx) t = plug (f :: ctx) t.
Proof. unfold decreased. simpl. by intros ->. Qed.

Lemma decreased_step f ctx t :
  prio (root_val t) (fr_val f) = true -> decreased (f :: ctx) t = decreased ctx (swap_up f t).
Proof. unfold decreased. simpl. by intros ->. Qed.

Lemma decrease_loop_spec ctx fuel t m nxt others :
  length ctx < fuel ->
  trepr (nodes m) None nxt (plug ctx t) -> NoDup (addrs (plug ctx t)) ->
  refs_ok m (cells (plug ctx t) ++ others) ->
  exists m', bheap_decrease_loop order fuel (root_ptr t) (ctx_parent ctx) m
      = Some (decrease_stopped ctx t, m') /\
    trepr (nodes m') None nxt (decreased ctx t) /\
    refs_ok m' (cells (decreased ctx t) ++ others) /\
    swap_frame (plug ctx t) m m' /\ addrs (decreased ctx t) = addrs (plug ctx t).
Proof.
  revert fuel t m. induction ctx as [|f ctx IH]; intros fuel t m Hf Ht Hn Hr;
    (destruct fuel as [|fuel]; [simpl in Hf; lia|]).
  { exists m. split_and!; try done. }
  destruct (plug_repr (f :: ctx) _ _ _ Ht Hn) as (nxt' & Hs & _).
  pose proof (trepr_root _ _ _ _ Hs) as Hnt.
  destruct (plug_root_parent ctx m nxt (fill f t) Ht Hn) as (np & Hnp & _ & Hvp).
  cbn [bheap_decrease_loop ctx_parent list.head fmap option_fmap option_map].
  rewrite (load_bind _ _ _ _ Hnt), (load_bind _ _ _ _ Hnp). unfold BHeapRefine.order.
  rewrite Hvp. cbn [value tree_node root_val fill]. unfold decrease_stopped. cbn [bubble_while].
  destruct (prio (root_val t) (fr_val f)) eqn:Ep.
  2: { exists m. rewrite decreased_skip by done. by split_and!. }
  destruct (swap_plug_spec f ctx t m nxt others Ht Hn Hr) as (m1 & Hrun & Ht1 & Hr1 & Hfr1).
  rewrite <- addrs_swap_plug in Hn.
  destruct (plug_root_parent _ _ _ _ Ht1 Hn) as (n & Hnode & Hpar & _).
  destruct (IH fuel (swap_up f t) m1) as (m2 & Hrun2 & Ht2 & Hr2 & Hfr2 & Ha2); [simpl in Hf; lia|done..|].
  rewrite decreased_step by done. exists m2. split_and!; [|done|done| |].
  - rewrite (bind_ok _ _ _ _ _ Hrun). erewrite load_bind by exact Hnode. rewrite Hpar. exact Hrun2.
  - eapply swap_frame_trans; [| |exact Hfr1|exact Hfr2].
    + intros p. by rewrite addrs_swap_plug.
    + intros r. by rewrite refs_swap_plug.
  - by rewrite Ha2, addrs_swap_plug.
Qed.

(** [bheap_decrease] of a node in a tree of the heap. *)
Lemma decrease_spec l ctx s r c m h :
  hrepr m h (mk_fheap (l ++ plug ctx s :: r) c) ->
  exists m', bheap_decrease order (root_ptr s) m = Some (decrease_stopped ctx s, m') /\
    hrepr m' h (mk_fheap (l ++ decreased ctx s :: r) c) /\
    heap_frame (mk_fheap (l ++ plug ctx s :: r) c) m m'.
Proof.
  intros Hh. destruct (hrepr_tree _ _ _ _ _ _ Hh) as (Ht & Hn & Hr).
  pose proof (ctx_fuel _ _ _ _ Ht Hn) as Hfuel.
  destruct (decrease_loop_spec ctx (loop_fuel m) s m _ _ Hfuel Ht Hn Hr) as (m1 & E1 & Ht1 & Hr1 & Hf1 & Ha).
  destruct (plug_root_parent _ _ _ _ Ht Hn) as (n & Hnode & Hpar & _).
  exists m1. split_and!.
  - unfold bheap_decrease. rewrite (load_bind _ _ _ _ Hnode), gets_bind, Hpar. exact E1.
  - by eapply hrepr_swap.
  - by apply swap_heap_frame.
Qed.

End Bubble.
