(* ===== verification/HeapSpec.v ===== *)
(** * Contract of the binomial heap

    What the functions of src/litmus2010/litmus/bheap.c promise their callers.
    [is_heap m h items]: in memory [m] the heap [h] is a well-formed binomial
    heap that holds the [items], pairs of a value and the pointer variable that
    tracks its node.  Which node holds a value is not part of the contract,
    since [bheap_delete] and [bheap_decrease] move values between nodes: the
    variable says where the value is.

    The theorems combine the memory refinement (BHeapRefine.v, BHeapDelete.v)
    with the facts on forests (BinForest.v). *)
From S2P Require Import Prelude BHeap BinForest BHeapRefine BHeapDelete.

#[local] Typeclasses Opaque addrs faddrs fh_addrs fh_refs.

Section Contract.
Context {V : Type} (D : V -> Prop) (prio : V -> V -> bool).
Hypothesis O : swo_on D prio.
Implicit Types (m : mem V) (h : bheap) (fh : fheap V) (items : list (V * positive)).

Abbreviation order := (BHeapRefine.order prio).

Definition item (c : positive * V * positive) : V * positive := (cell_val c, cell_ref c).
Definition fh_items fh : list (V * positive) := item <$> fh_cells fh.

Definition is_heap m h items : Prop :=
  exists fh, hrepr m h fh /\ fh_wf D prio fh /\ bforest (trees fh) /\ items ≡ₚ fh_items fh.

(** The node [p] holds the value of an item that is in no heap. *)
Definition detached m (p : positive) (i : V * positive) : Prop :=
  exists n, nodes m !! p = Some n /\ value n = i.1 /\ ref n = i.2 /\ bheap_node_in_heap n = false.

(** ** Helpers *)
Lemma fh_elems_items fh : fh_elems fh = fst <$> fh_items fh.
Proof. unfold fh_elems, fh_items. by rewrite <- list_fmap_compose. Qed.

Lemma fh_refs_items fh : fh_refs fh = snd <$> fh_items fh.
Proof. unfold fh_refs, fh_items. by rewrite <- list_fmap_compose. Qed.

Lemma best_items fh v items :
  Forall (fun e => prio e v = false) (fh_elems fh) -> items ≡ₚ fh_items fh ->
  Forall (fun i => prio i.1 v = false) items.
Proof. intros H ->. rewrite fh_elems_items in H. by rewrite Forall_fmap in H. Qed.

Lemma elem_of_fcells c (ts : list (tree V)) : c ∈ fcells ts <-> exists t, c ∈ cells t /\ t ∈ ts.
Proof.
  induction ts as [|t ts IH].
  - split; [by intros ?%elem_of_nil|by intros (? & _ & ?%elem_of_nil)].
  - rewrite fcells_cons, elem_of_app, IH. split.
    + intros [?|(u & ? & ?)]; [exists t|exists u]; (split; [done|]); rewrite elem_of_cons; auto.
    + intros (u & ? & [->|?]%elem_of_cons); eauto.
Qed.

(** Every cell of a tree is the root of a subtree. *)
Lemma cell_position (t : tree V) c :
  c ∈ cells t -> exists ctx s, t = plug ctx s /\ (root_ptr s, root_val s, root_ref s) = c.
Proof.
  induction t as [p v r cs IH] using tree_ind'. rewrite cells_Node.
  intros [->|Hc]%elem_of_cons; [by exists [], (Node p v r cs)|].
  apply elem_of_fcells in Hc as (t & Hc & Ht).
  rewrite Forall_forall in IH. destruct (IH t Ht Hc) as (ctx & s & -> & Hs).
  apply list_elem_of_split in Ht as (l & q & ->).
  exists (ctx ++ [mk_frame p v r l q]), s. split; [|done]. unfold plug. by rewrite foldl_app.
Qed.

Lemma forest_position (ts : list (tree V)) c :
  c ∈ fcells ts -> exists l ctx s r, ts = l ++ plug ctx s :: r /\ (root_ptr s, root_val s, root_ref s) = c.
Proof.
  intros (t & Hc & Ht)%elem_of_fcells. apply list_elem_of_split in Ht as (l & r & ->).
  destruct (cell_position t c Hc) as (ctx & s & -> & Hs). by exists l, ctx, s, r.
Qed.

Lemma items_bubble ctx (t : tree V) : item <$> cells (bubble ctx t) ≡ₚ item <$> cells (plug ctx t).
Proof.
  revert t. induction ctx as [|f ctx IH]; intros t; [done|]. etransitivity; [apply IH|].
  simpl. destruct (cells_plug ctx) as [cs Hcs]. destruct (cells_swap f t) as (cs' & Hc1 & Hc2).
  rewrite !Hcs, Hc1, Hc2. simpl. constructor.
Qed.

Lemma items_delete_at l ctx (s : tree V) r c :
  fh_items (mk_fheap (l ++ plug ctx s :: r) c)
  ≡ₚ (root_val s, root_ref s) :: fh_items (fh_delete_at prio l ctx s r c).
Proof.
  unfold fh_items. rewrite fh_cells_split, fmap_app, <- items_bubble, <- fmap_app.
  assert (cells (bubble ctx s) ++ rest_cells l r c ≡ₚ fh_cells (mk_fheap (l ++ bubble ctx s :: r) c)) as ->
    by (by rewrite fh_cells_split).
  rewrite (unlink_cells prio). rewrite fmap_cons. unfold item at 1. cbn.
  by rewrite root_val_bubble, root_ref_bubble.
Qed.

Lemma item_var m h fh c : hrepr m h fh -> c ∈ fh_cells fh -> vars m !! cell_ref c = Some (cell_ptr c).
Proof. intros Hh Hc. destruct (hr_refs _ _ _ Hh) as [_ Hf]. by apply (proj1 (Forall_forall _ _) Hf). Qed.

Lemma is_heap_var m h items i :
  is_heap m h items -> i ∈ items -> exists p, vars m !! i.2 = Some p.
Proof.
  intros (fh & Hh & _ & _ & Hi) Hin. rewrite Hi in Hin. apply list_elem_of_fmap in Hin as (c & -> & Hc).
  exists (cell_ptr c). by eapply item_var.
Qed.

(** ** The operations *)

(** [bheap_init] *)
Lemma is_heap_init m : (Z.of_nat (size (nodes m)) < UINT_MAX)%Z -> is_heap m bheap_init [].
Proof.
  intros Hb. exists fh_init. split_and!; [|apply fh_wf_init|repeat constructor|done].
  split; try done; [constructor|]. split; constructor.
Qed.

(** A node that may be inserted: its reference points back to it, and the
    reference of no item of the heap points to it. *)
Definition fresh m items (p : positive) (i : V * positive) : Prop :=
  vars m !! i.2 = Some p /\
  (exists n, nodes m !! p = Some n /\ value n = i.1 /\ ref n = i.2) /\
  Forall (fun j => vars m !! j.2 <> Some p) items.

Lemma fresh_insertable m h fh items p i :
  items ≡ₚ fh_items fh -> fresh m items p i -> hrepr m h fh -> insertable m fh (p, i.1, i.2).
Proof.
  intros Hi (Hv & Hn & Hd) Hh. rewrite Hi, Forall_forall in Hd.
  assert (forall c, c ∈ fh_cells fh -> cell_ptr c <> p) as Hp.
  { intros c Hc E. apply (Hd (item c)); [by apply list_elem_of_fmap_2|].
    simpl. rewrite (item_var _ _ _ _ Hh Hc). congruence. }
  split; [done..| |].
  - intros (c & E & Hc)%list_elem_of_fmap. by apply (Hp c).
  - intros (c & E & Hc)%list_elem_of_fmap. apply (Hp c Hc). cbn in E. rewrite E in Hv.
    rewrite (item_var _ _ _ _ Hh Hc) in Hv. congruence.
Qed.

(** Two heaps with no node in common. *)
Definition disjoint_items m items1 items2 : Prop :=
  Forall (fun i => Forall (fun j => vars m !! i.2 <> vars m !! j.2) items2) items1.

Lemma disjoint_items_heaps m h1 h2 f1 f2 items1 items2 :
  items1 ≡ₚ fh_items f1 -> items2 ≡ₚ fh_items f2 -> hrepr m h1 f1 -> hrepr m h2 f2 ->
  disjoint_items m items1 items2 -> disjoint_heaps f1 f2.
Proof.
  intros Hi1 Hi2 Hh1 Hh2 Hd.
  assert (forall c d, c ∈ fh_cells f1 -> d ∈ fh_cells f2 -> vars m !! cell_ref c <> vars m !! cell_ref d) as H.
  { intros c d Hc Hd'. unfold disjoint_items in Hd. rewrite Hi1, Forall_forall in Hd.
    specialize (Hd (item c) (list_elem_of_fmap_2 item _ _ Hc)).
    rewrite Hi2, Forall_forall in Hd. exact (Hd (item d) (list_elem_of_fmap_2 item _ _ Hd')). }
  split; intros p (c & -> & Hc)%list_elem_of_fmap (d & E & Hd')%list_elem_of_fmap;
    apply (H c d Hc Hd'); [|by rewrite E].
  by rewrite (item_var _ _ _ _ Hh1 Hc), (item_var _ _ _ _ Hh2 Hd'), E.
Qed.

(** Inserting a free node adds its item to the heap, whether or not a
    minimum is cached, and moves no other item. *)
Theorem insert_heap m h items p i :
  is_heap m h items -> fresh m items p i -> D i.1 ->
  exists h' m', bheap_insert order h p m = Some (h', m') /\ is_heap m' h' (i :: items) /\ vars m' = vars m.
Proof.
  intros (fh & Hh & Hw & Hb & Hi) Hf HD. pose proof (fresh_insertable _ _ _ _ _ _ Hi Hf Hh) as Hins.
  destruct (insert_spec prio m h fh (p, i.1, i.2) Hh Hins) as (h' & m' & E & Hh' & Hfr).
  exists h', m'. split_and!; [done| |apply Hfr]. exists (fh_insert prio fh (p, i.1, i.2)). split_and!.
  - done.
  - by apply fh_insert_wf.
  - by apply fh_insert_bforest.
  - unfold fh_items. rewrite fh_insert_cells, Hi. by destruct i.
Qed.

(** The union of two heaps without common nodes holds the items of both,
    and the second heap is empty afterwards. *)
Theorem union_heap m h1 h2 items1 items2 :
  is_heap m h1 items1 -> is_heap m h2 items2 ->
  disjoint_items m items1 items2 ->
  exists h' m', bheap_union order h1 h2 m = Some ((h', bheap_init), m') /\
    is_heap m' h' (items1 ++ items2) /\ vars m' = vars m.
Proof.
  intros (f1 & Hh1 & Hw1 & Hb1 & Hi1) (f2 & Hh2 & Hw2 & Hb2 & Hi2) Hd.
  pose proof (disjoint_items_heaps _ _ _ _ _ _ _ Hi1 Hi2 Hh1 Hh2 Hd) as Hdj.
  destruct (heap_union_spec prio m h1 h2 f1 f2 Hh1 Hh2 Hdj) as (h' & m' & E & Hh' & Hfr).
  exists h', m'. split_and!; [done| |apply Hfr]. exists (fh_union prio f1 f2). split_and!.
  - done.
  - by apply fh_union_wf.
  - by apply fh_union_bforest.
  - unfold fh_items. by rewrite fh_union_cells, Hi1, Hi2, fmap_app.
Qed.

(** Peeking returns the node of an item that no item beats and keeps the
    items; it returns NULL exactly on an empty heap. *)
Theorem peek_heap m h items :
  is_heap m h items ->
  exists o h' m', bheap_peek order h m = Some ((o, h'), m') /\ is_heap m' h' items /\ vars m' = vars m /\
    match o with
    | None => items = []
    | Some p => exists i, i ∈ items /\ vars m' !! i.2 = Some p /\ Forall (fun j => prio j.1 i.1 = false) items
    end.
Proof.
  intros (fh & Hh & Hw & Hb & Hi). destruct (peek_spec prio m h fh Hh) as (h' & m' & E & Hh' & Hfr).
  eexists _, h', m'. split_and!; [done| |apply Hfr|].
  - exists (fh_cache_min prio fh). split_and!; [done|by apply fh_cache_wf|by apply fh_cache_bforest|].
    unfold fh_items. by rewrite fh_cache_cells.
  - unfold fh_peek in *. cbn [fst snd] in *. destruct (fmin (fh_cache_min prio fh)) as [c|] eqn:Ec; simpl.
    + exists (item c). assert (c ∈ fh_cells (fh_cache_min prio fh)) as Hc
        by (unfold fh_cells; rewrite Ec; simpl; by left). split_and!.
      * rewrite Hi. unfold fh_items. rewrite <- (fh_cache_cells prio fh). by apply list_elem_of_fmap_2.
      * by eapply item_var.
      * eapply best_items; [eapply fh_cache_best; eauto|done].
    + unfold fh_items in Hi. rewrite (fh_cache_empty prio fh Ec) in Hi. by apply Permutation_nil_r in Hi.
Qed.

(** C23: Taking removes an item that no item beats and returns its node, marked
    as not in a heap; what is left is a heap of the other items. *)
Theorem take_heap m h items :
  is_heap m h items ->
  exists o h' m', bheap_take order h m = Some ((o, h'), m') /\ vars m' = vars m /\
    match o with
    | None => items = [] /\ is_heap m' h' []
    | Some p => exists i items', items ≡ₚ i :: items' /\ is_heap m' h' items' /\ vars m' !! i.2 = Some p /\
        detached m' p i /\ Forall (fun j => prio j.1 i.1 = false) items
    end.
Proof.
  intros (fh & Hh & Hw & Hb & Hi). destruct (take_spec prio m h fh Hh) as (h' & m' & E & Hh' & Hfr & Hd).
  eexists _, h', m'. split_and!; [done|apply Hfr|].
  assert (is_heap m' h' (fh_items (fh_take prio fh).2)) as Hheap.
  { eexists. split_and!; [exact Hh'|by apply fh_take_wf|by apply fh_cache_bforest|done]. }
  destruct (fh_take prio fh).1 as [c|] eqn:Ec; simpl.
  - pose proof (fh_take_cells prio fh c (fh_take prio fh).2) as Hc.
    rewrite <- Ec, <- surjective_pairing in Hc. specialize (Hc eq_refl).
    exists (item c), (fh_items (fh_take prio fh).2). split_and!.
    + rewrite Hi. unfold fh_items. by rewrite Hc.
    + done.
    + destruct Hfr as (_ & -> & _). eapply item_var; [done|]. rewrite Hc. by left.
    + by apply Hd.
    + eapply best_items; [eapply fh_cache_best; [done..|exact Ec]|done].
  - cbn [fh_take fst] in Ec. pose proof (fh_cache_empty prio fh Ec) as He.
    assert (items = []) as -> by (unfold fh_items in Hi; rewrite He in Hi; by apply Permutation_nil_r in Hi).
    split; [done|]. destruct Hheap as (f & ? & ? & ? & ?). exists f. split_and!; try done.
    assert (fh_items (fh_take prio fh).2 ≡ₚ []) as Hn; [|by rewrite <- Hn].
    unfold fh_items. assert (fh_cells (fh_take prio fh).2 ≡ₚ []) as ->; [|done].
    rewrite <- He, <- (fh_cache_cells prio fh). unfold fh_cells, fh_take. simpl. by rewrite Ec.
Qed.

(** C24: Deleting a node removes its item and no other, wherever in the heap the
    node is, and the pointer variable of the item finds the node that holds the
    item afterwards. *)
Theorem delete_heap m h items i p :
  is_heap m h items -> i ∈ items -> vars m !! i.2 = Some p ->
  exists h' m' items' p', bheap_delete order h p m = Some (h', m') /\ items ≡ₚ i :: items' /\
    is_heap m' h' items' /\ vars m' !! i.2 = Some p' /\ detached m' p' i /\
    (forall r, r ∉ snd <$> items -> vars m' !! r = vars m !! r).
Proof.
  intros (fh & Hh & Hw & Hb & Hi) Hin Hp. rewrite Hi in Hin. apply list_elem_of_fmap in Hin as (c & -> & Hc).
  cbn in Hp. rewrite (item_var _ _ _ _ Hh Hc) in Hp. injection Hp as <-.
  destruct fh as [ts mn]. unfold fh_cells in Hc. cbn [fmin trees] in Hc. apply elem_of_app in Hc as [Hc|Hc].
  - destruct mn as [c'|]; simpl in Hc; [|by apply elem_of_nil in Hc].
    apply list_elem_of_singleton in Hc as <-.
    destruct (delete_min_spec prio m h _ c Hh eq_refl) as (h' & m' & E & Hh' & Hfr & Hn).
    exists h', m', (item <$> fcells ts), (cell_ptr c). split_and!; [done..| | |done|].
    + eexists. split_and!; [exact Hh'|by eapply fh_drop_min_wf|done|done].
    + destruct Hfr as (_ & -> & _). eapply item_var; [done|]. by left.
    + destruct Hfr as (_ & -> & _). done.
  - apply forest_position in Hc as (l & ctx & s & r & -> & <-).
    destruct (delete_spec prio l ctx s r mn m h Hh) as (h' & m' & E & Hh' & Hfr & Hv & Hn).
    exists h', m', (fh_items (fh_delete_at prio l ctx s r mn)), (root_ptr (plug ctx s)).
    split_and!; [done| | |done|done|].
    + rewrite Hi. apply items_delete_at.
    + eexists. split_and!; [exact Hh'|by apply fh_delete_at_wf|by apply fh_delete_at_bforest|done].
    + intros q Hq. apply Hfr. by rewrite fh_refs_items, <- Hi.
Qed.

End Contract.
