(* ===== verification/PrioQueue.v ===== *)
(** * Priority queues, as the schedulers see them

    The interface between the binomial heap and its clients.  [PrioQueue] names
    the operations of src/litmus2010/include/litmus/bheap.h; [PrioQueueLaws]
    states what a client may rely on.  The clients (RtDomain.v and the plugins)
    are developed against the laws; the instance at the end is the heap of
    BinForest.v, which BHeapRefine.v relates to the pointer program.

    The priority function is an argument of every operation, as in the C code,
    and may change between calls: the law [pq_wf_ext] says that a queue stays
    well-formed as long as the order of the queued values does not change. *)

From S2P Require Import Prelude BHeap BinForest.

Class PrioQueue (Q : Type -> Type) : Type := {
  pq_init {V} : Q V;
  pq_empty {V} : Q V -> bool;
  pq_insert {V} : (V -> V -> bool) -> V -> Q V -> Q V;
  pq_union {V} : (V -> V -> bool) -> Q V -> Q V -> Q V;
  pq_peek {V} : (V -> V -> bool) -> Q V -> option V * Q V;
  pq_take {V} : (V -> V -> bool) -> Q V -> option V * Q V;
  pq_delete {V} : (V -> V -> bool) -> (V -> bool) -> Q V -> option (Q V);
  pq_elems {V} : Q V -> list V
}.

Class PrioQueueLaws (Q : Type -> Type) `{PrioQueue Q} : Type := {
  pq_wf {V} : (V -> Prop) -> (V -> V -> bool) -> Q V -> Prop;
  pq_init_elems {V} : pq_elems (V:=V) pq_init = [];
  pq_init_wf {V} (D : V -> Prop) lt : pq_wf D lt pq_init;
  pq_empty_elems {V} (q : Q V) : pq_empty q = true <-> pq_elems q = [];
  pq_insert_elems {V} lt (v : V) q : pq_elems (pq_insert lt v q) ≡ₚ v :: pq_elems q;
  pq_insert_wf {V} (D : V -> Prop) lt v q :
    swo_on D lt -> D v -> pq_wf D lt q -> pq_wf D lt (pq_insert lt v q);
  pq_union_elems {V} lt (q r : Q V) : pq_elems (pq_union lt q r) ≡ₚ pq_elems q ++ pq_elems r;
  pq_union_wf {V} (D : V -> Prop) lt q r :
    swo_on D lt -> pq_wf D lt q -> pq_wf D lt r -> pq_wf D lt (pq_union lt q r);
  pq_peek_elems {V} lt (q : Q V) : pq_elems (pq_peek lt q).2 ≡ₚ pq_elems q;
  pq_peek_in {V} lt (q : Q V) v : (pq_peek lt q).1 = Some v -> v ∈ pq_elems q;
  pq_peek_none {V} lt (q : Q V) : (pq_peek lt q).1 = None -> pq_elems q = [];
  pq_peek_wf {V} (D : V -> Prop) lt q : swo_on D lt -> pq_wf D lt q -> pq_wf D lt (pq_peek lt q).2;
  pq_peek_best {V} (D : V -> Prop) lt q v :
    swo_on D lt -> pq_wf D lt q -> (pq_peek lt q).1 = Some v ->
    Forall (fun e => lt e v = false) (pq_elems q);
  pq_take_elems {V} lt (q : Q V) v :
    (pq_take lt q).1 = Some v -> pq_elems q ≡ₚ v :: pq_elems (pq_take lt q).2;
  pq_take_none {V} lt (q : Q V) :
    (pq_take lt q).1 = None -> pq_elems q = [] /\ pq_elems (pq_take lt q).2 = [];
  pq_take_wf {V} (D : V -> Prop) lt q : swo_on D lt -> pq_wf D lt q -> pq_wf D lt (pq_take lt q).2;
  pq_take_best {V} (D : V -> Prop) lt q v :
    swo_on D lt -> pq_wf D lt q -> (pq_take lt q).1 = Some v ->
    Forall (fun e => lt e v = false) (pq_elems q);
  pq_delete_elems {V} lt P (q q' : Q V) :
    pq_delete lt P q = Some q' -> exists v, P v = true /\ pq_elems q ≡ₚ v :: pq_elems q';
  pq_delete_total {V} lt P (q : Q V) v : v ∈ pq_elems q -> P v = true -> is_Some (pq_delete lt P q);
  pq_delete_wf {V} (D : V -> Prop) lt P q q' :
    swo_on D lt -> pq_wf D lt q -> pq_delete lt P q = Some q' -> pq_wf D lt q';
  (* the deleted value is not compared with the others *)
  pq_delete_ext {V} lt lt' P (q : Q V) v r :
    pq_elems q ≡ₚ v :: r -> P v = true -> Forall (fun e => P e = false) r ->
    (forall x y, x ∈ r -> y ∈ r -> lt' x y = lt x y) -> pq_delete lt' P q = pq_delete lt P q;
  pq_wf_D {V} (D : V -> Prop) lt q : pq_wf D lt q -> Forall D (pq_elems q);
  pq_wf_ext {V} (D D' : V -> Prop) lt lt' q :
    pq_wf D lt q -> Forall D' (pq_elems q) ->
    (forall x y, x ∈ pq_elems q -> y ∈ pq_elems q -> lt' x y = lt x y) -> pq_wf D' lt' q
}.

(** ** The binomial heap is a priority queue *)

(** The cell of a value: the addresses only label nodes and play no role in
    what the queue does. *)
Definition unit_cell {V} (v : V) : positive * V * positive := (1%positive, v, 1%positive).

#[global] Instance fheap_queue : PrioQueue fheap := {
  pq_init _ := fh_init;
  pq_empty _ q := match trees q, fmin q with [], None => true | _, _ => false end;
  pq_insert _ lt v q := fh_insert lt q (unit_cell v);
  pq_union _ lt q r := fh_union lt q r;
  pq_peek _ lt q := (cell_val <$> (fh_peek lt q).1, (fh_peek lt q).2);
  pq_take _ lt q := (cell_val <$> (fh_take lt q).1, (fh_take lt q).2);
  pq_delete _ lt P q := fh_delete lt P q;
  pq_elems _ q := fh_elems q
}.

Section Ext.
Context {V : Type} (D D' : V -> Prop) (lt lt' : V -> V -> bool).

Lemma heap_ord_ext (S : V -> Prop) t :
  (forall x y, S x -> S y -> lt' x y = lt x y) -> (forall x, S x -> D' x) ->
  Forall S (elems t) -> heap_ord D lt t -> heap_ord D' lt' t.
Proof.
  intros Hlt HD. induction t as [p v r cs IH] using tree_ind'. rewrite elems_Node.
  intros [Hv Hcs]%Forall_cons (_ & Hr & Ho)%heap_ord_inv. simpl in Hr, Ho.
  assert (Forall (fun c => Forall S (elems c)) cs) as Hs.
  { clear -Hcs. induction cs as [|c cs IHcs]; [constructor|]. rewrite felems_cons in Hcs.
    apply Forall_app in Hcs as [? ?]. constructor; auto. }
  constructor; [auto| |]; rewrite Forall_forall in *; intros c Hc.
  - rewrite Hlt; [auto| |done]. specialize (Hs c Hc). rewrite Forall_forall in Hs. apply Hs.
    destruct c. rewrite elems_Node. by left.
  - apply IH; [done|by apply Hs|by apply Ho].
Qed.

Lemma fh_wf_ext (q : fheap V) :
  fh_wf D lt q -> Forall D' (fh_elems q) ->
  (forall x y, x ∈ fh_elems q -> y ∈ fh_elems q -> lt' x y = lt x y) -> fh_wf D' lt' q.
Proof.
  intros [Ht Hm] HD Hlt. rewrite Forall_forall in HD. split.
  - assert (forall e, e ∈ felems (trees q) -> e ∈ fh_elems q) as Hin.
    { intros e He. unfold fh_elems, fh_cells. rewrite fmap_app. apply elem_of_app. by right. }
    clear Hm. revert Hin. induction Ht as [|t ts Ho _ IH]; intros Hin; constructor.
    + eapply (heap_ord_ext (fun x => x ∈ fh_elems q)); try done. apply Forall_forall. intros e He.
      apply Hin. rewrite felems_cons. apply elem_of_app. by left.
    + apply IH. intros e He. apply Hin. rewrite felems_cons. apply elem_of_app. by right.
  - destruct (fmin q) as [c|] eqn:E; [|done]. destruct Hm as [_ Hm].
    assert (cell_val c ∈ fh_elems q) as Hc by (unfold fh_elems, fh_cells; rewrite E; by left).
    split; [auto|]. rewrite Forall_forall in *. intros e He. rewrite Hlt; [auto| |done].
    unfold fh_elems, fh_cells. rewrite fmap_app. apply elem_of_app. by right.
Qed.

Lemma coalesce_ext (S : V -> Prop) x ts :
  (forall a b, S a -> S b -> lt' a b = lt a b) -> Forall S (felems (x :: ts)) ->
  coalesce lt' x ts = coalesce lt x ts.
Proof.
  intros Hlt. revert x. induction ts as [|y ts IH]; intros x HS; [done|]. simpl.
  rewrite !felems_cons in HS. apply Forall_app in HS as [Hx HS]. pose proof HS as [Hy _]%Forall_app.
  assert (S (root_val x) /\ S (root_val y)) as [Sx Sy].
  { destruct x, y. rewrite elems_Node in Hx, Hy. by apply Forall_cons in Hx as [? _], Hy as [? _]. }
  case_decide; [f_equal; apply IH; by rewrite felems_cons|]. rewrite (Hlt _ _ Sx Sy). apply Forall_app in HS as [_ HS].
  assert (forall a b, Forall S (elems a) -> Forall S (elems b) -> Forall S (elems (link a b))) as Hl.
  { intros [] [] Ha Hb. unfold link. rewrite !elems_Node in *. simpl. rewrite felems_cons, elems_Node.
    apply Forall_cons in Ha as [? ?]. constructor; [done|]. by apply Forall_app. }
  destruct (lt _ _); apply IH; rewrite felems_cons; apply Forall_app; auto.
Qed.

Lemma union_ext (S : V -> Prop) a b :
  (forall x y, S x -> S y -> lt' x y = lt x y) -> Forall S (felems a) -> Forall S (felems b) ->
  union lt' a b = union lt a b.
Proof.
  intros Hlt Ha Hb. unfold union. destruct b as [|y b]; [done|]. destruct a as [|x a]; [done|].
  destruct (merge (x :: a) (y :: b)) as [|z ts] eqn:E; [done|]. apply (coalesce_ext S); [done|].
  rewrite <- E. unfold felems in *. rewrite (fcells_perm _ _ (merge_perm (x :: a) (y :: b))), fcells_app, fmap_app.
  by apply Forall_app.
Qed.

End Ext.

(** Deleting a value compares only the others. *)
Lemma fh_delete_ext {V} (lt lt' : V -> V -> bool) P (q : fheap V) v r :
  fh_elems q ≡ₚ v :: r -> P v = true -> Forall (fun e => P e = false) r ->
  (forall x y, x ∈ r -> y ∈ r -> lt' x y = lt x y) -> fh_delete lt' P q = fh_delete lt P q.
Proof.
  intros Hq Hv Hr Hlt. destruct (fh_delete lt P q) as [q'|] eqn:E.
  2: { assert (is_Some (fh_delete lt P q)) as [? ?]; [|congruence].
       eapply (fh_delete_total lt P q v); [rewrite Hq; by left|done]. }
  destruct (fh_delete_elems lt P q q' E) as (v' & Hv' & Hq').
  assert (fh_elems q' ≡ₚ r) as Hr'.
  { assert (v' = v) as ->; [|apply (Permutation_cons_inv (a := v)); by rewrite <- Hq', Hq].
    assert (v' ∈ v :: r) as Hin by (rewrite <- Hq, Hq'; by left). apply elem_of_cons in Hin as [->|Hin]; [done|].
    rewrite Forall_forall in Hr. rewrite (Hr v' Hin) in Hv'. done. }
  revert E. unfold fh_delete. destruct (match fmin q with Some m => P (cell_val m) | None => false end); [done|].
  destruct (flocate _ [] (trees q)) as [[[[lft ctx] s] rgt]|]; [|done]. simpl. intros [= <-].
  unfold fh_elems, fh_cells, fh_delete_at in Hr'. simpl in Hr'.
  assert (Forall (fun e => e ∈ r) (felems (union lt (lft ++ rgt) (reverse (children (bubble ctx s)))))) as HS.
  { apply Forall_forall. intros e He. rewrite <- Hr'. rewrite fmap_app. apply elem_of_app. by right. }
  unfold felems in HS. rewrite union_cells, fmap_app in HS. apply Forall_app in HS as [Ha Hb].
  unfold fh_delete_at. by rewrite (union_ext lt lt' (fun e => e ∈ r)).
Qed.

Section FHeapTake.
Context {V : Type} (lt : V -> V -> bool).
Implicit Type q : fheap V.

Lemma fh_cache_elems q : fh_elems (fh_cache_min lt q) ≡ₚ fh_elems q.
Proof. unfold fh_elems. by rewrite fh_cache_cells. Qed.

Lemma fh_elems_nil q : fh_cells q = [] -> fh_elems q = [].
Proof. unfold fh_elems. by intros ->. Qed.

Lemma fh_cache_in q c : fmin (fh_cache_min lt q) = Some c -> cell_val c ∈ fh_elems q.
Proof. intros E. rewrite <- fh_cache_elems. unfold fh_elems, fh_cells. rewrite E. by left. Qed.

Lemma fh_take_val q v :
  cell_val <$> (fh_take lt q).1 = Some v -> fh_elems q ≡ₚ v :: fh_elems (fh_take lt q).2.
Proof.
  intros (c & Ec & ->)%fmap_Some. unfold fh_elems.
  rewrite (fh_take_cells lt q c (fh_take lt q).2); [done|].
  destruct (fh_take lt q). simpl in *. by subst.
Qed.

Lemma fh_take_nil q : (fh_take lt q).1 = None -> fh_elems (fh_take lt q).2 = [].
Proof.
  simpl. intros E. apply Permutation_nil_r. rewrite <- (fh_elems_nil _ (fh_cache_empty lt q E)).
  rewrite <- (fh_cache_elems q). unfold fh_elems, fh_cells. cbn [fmin trees]. by rewrite E.
Qed.

Lemma fh_empty_elems q :
  match trees q, fmin q with [], None => true | _, _ => false end = true <-> fh_elems q = [].
Proof.
  unfold fh_elems, fh_cells. destruct (trees q) as [|[p v r cs] ts], (fmin q); simpl; done.
Qed.

End FHeapTake.

#[global] Program Instance fheap_laws : PrioQueueLaws fheap := { pq_wf _ D lt q := fh_wf D lt q }.
Next Obligation. done. Qed.
Next Obligation. intros. apply fh_wf_init. Qed.
Next Obligation. intros. apply fh_empty_elems. Qed.
Next Obligation. intros. simpl. by rewrite fh_insert_elems. Qed.
Next Obligation. intros. by apply fh_insert_wf. Qed.
Next Obligation. intros. simpl. apply fh_union_elems. Qed.
Next Obligation. intros. by apply fh_union_wf. Qed.
Next Obligation. intros. apply fh_cache_elems. Qed.
Next Obligation. intros V lt q v (c & Ec & ->)%fmap_Some. exact (fh_cache_in lt q c Ec). Qed.
Next Obligation. intros V lt q E%fmap_None. by apply fh_elems_nil, (fh_cache_empty lt). Qed.
Next Obligation. intros. by apply fh_cache_wf. Qed.
Next Obligation. intros V D lt q v O Hw (c & Ec & ->)%fmap_Some. exact (fh_cache_best D lt O q c Hw Ec). Qed.
Next Obligation. intros. by apply fh_take_val. Qed.
Next Obligation.
  intros V lt q E%fmap_None. split; [by apply fh_elems_nil, (fh_cache_empty lt)|by apply fh_take_nil].
Qed.
Next Obligation. intros. by apply fh_take_wf. Qed.
Next Obligation. intros V D lt q v O Hw (c & Ec & ->)%fmap_Some. exact (fh_cache_best D lt O q c Hw Ec). Qed.
Next Obligation. intros. by apply (fh_delete_elems lt). Qed.
Next Obligation. intros. by eapply fh_delete_total. Qed.
Next Obligation. intros V D lt P q q' O. simpl. by apply fh_delete_wf. Qed.
Next Obligation. intros. by eapply fh_delete_ext. Qed.
Next Obligation. intros. by eapply fh_wf_D. Qed.
Next Obligation. intros V D D' lt lt' q. simpl. apply fh_wf_ext. Qed.
