(* ===== verification/Task.v ===== *)
(** * Tasks, jobs and time

    The data every scheduler plugin works on, from
    src/litmus2010/include/litmus/rt_param.h, the macros and inline functions of
    include/litmus/litmus.h, and the job control code of litmus/jobs.c.

    Time is [lt_t], an unsigned 64-bit number of nanoseconds, kept in [Z] with
    its wrap-around written out.  A task is named by a [tid], the address of its
    [task_struct]. *)

From S2P Require Import Prelude.
Open Scope Z_scope.

Definition tid := positive.

(** ** [lt_t] *)

(** [((long long) b) - ((long long) a) < 0] *)
Definition lt_after (a b : Z) : bool := s64 (s64 b - s64 a) <? 0.
Definition lt_before (a b : Z) : bool := lt_after b a.
Definition lt_after_eq (a b : Z) : bool := 0 <=? s64 (s64 a - s64 b).
Definition lt_before_eq (a b : Z) : bool := lt_after_eq b a.

Inductive round := FLOOR | CEIL.

(** [quantum_length] is [ktime_to_ns(tick_period)]; [do_div] leaves the quotient
    in [time] and returns the remainder. *)
Definition time2quanta (quantum_length time : Z) (r : round) : Z :=
  let rem := time `mod` quantum_length in
  let time := time / quantum_length in
  match r with
  | CEIL => if rem =? 0 then time else u64 (time + 1)
  | FLOOR => time
  end.

(** ** Parameters *)
Inductive task_class_t := RT_CLASS_HARD | RT_CLASS_SOFT | RT_CLASS_BEST_EFFORT.
Inductive budget_policy_t := NO_ENFORCEMENT | QUANTUM_ENFORCEMENT | PRECISE_ENFORCEMENT.

Definition RT_F_RUNNING : Z := 0.
Definition RT_F_SLEEP : Z := 1.
Definition RT_F_EXIT_SEM : Z := 8.

Definition NO_CPU : Z := UINT_MAX.
Definition EPERM : Z := 1.
Definition ESRCH : Z := 3.
Definition EBADF : Z := 9.
Definition EFAULT : Z := 14.
Definition EBUSY : Z := 16.
Definition EINVAL : Z := 22.
Definition ERESTARTSYS : Z := 512.
Definition ENOMEM : Z := 12.
Definition ENOSYS : Z := 38.

Definition NR_CPUS_EDF_FM : Z := 2.
Definition MAX_EDF_WM_SLICES : Z := 24.
Definition MIN_EDF_WM_SLICE_SIZE : Z := 50000.
Definition MAX_HIME_SLICES : Z := 24.
Definition MIN_HIME_SLICE_SIZE : Z := 50000.
Definition MAX_CD_SLICES : Z := 24.
Definition MIN_CD_SLICE_SIZE : Z := 50000.

(** The share of an EDF-fm task on one of its two processors. *)
Record edffm_params : Type := mk_fm {
  fm_cpus : Z * Z;
  fm_nr_cpus : Z;
  fm_fraction : (Z * Z) * (Z * Z)      (* fraction[0][..], fraction[1][..] *)
}.

Record edf_wm_slice : Type := mk_wm_slice {
  wms_cpu : Z; wms_deadline : Z; wms_budget : Z; wms_offset : Z
}.
Record edf_wm_params : Type := mk_wm { wm_slices : list edf_wm_slice; wm_count : Z }.

Record hime_slice : Type := mk_hime_slice { hms_cpu : Z; hms_budget : Z }.
Record hime_params : Type := mk_hime { hime_slices : list hime_slice; hime_count : Z }.

Record cd_slice : Type := mk_cd_slice { cds_cpu : Z; cds_deadline : Z; cds_budget : Z }.
Record cd_params : Type := mk_cd { cd_slices : list cd_slice; cd_count : Z }.

(** [struct rt_task]; a plugin reads only its own member of the union [semi_part]. *)
Record rt_task : Type := mk_rt_task {
  exec_cost : Z;
  period : Z;
  phase : Z;
  cpu : Z;
  cls : task_class_t;
  budget_policy : budget_policy_t;
  fm : edffm_params;
  npsf_id : Z;
  wm : edf_wm_params;
  hime : hime_params;
  cd : cd_params
}.

Definition set_exec_cost (v : Z) (r : rt_task) : rt_task :=
  mk_rt_task v (period r) (phase r) (cpu r) (cls r) (budget_policy r) (fm r) (npsf_id r) (wm r) (hime r) (cd r).
Definition set_period (v : Z) (r : rt_task) : rt_task :=
  mk_rt_task (exec_cost r) v (phase r) (cpu r) (cls r) (budget_policy r) (fm r) (npsf_id r) (wm r) (hime r) (cd r).
Definition set_phase (v : Z) (r : rt_task) : rt_task :=
  mk_rt_task (exec_cost r) (period r) v (cpu r) (cls r) (budget_policy r) (fm r) (npsf_id r) (wm r) (hime r) (cd r).
Definition set_cpu (v : Z) (r : rt_task) : rt_task :=
  mk_rt_task (exec_cost r) (period r) (phase r) v (cls r) (budget_policy r) (fm r) (npsf_id r) (wm r) (hime r) (cd r).
Definition set_cls (v : task_class_t) (r : rt_task) : rt_task :=
  mk_rt_task (exec_cost r) (period r) (phase r) (cpu r) v (budget_policy r) (fm r) (npsf_id r) (wm r) (hime r) (cd r).
Definition set_budget_policy (v : budget_policy_t) (r : rt_task) : rt_task :=
  mk_rt_task (exec_cost r) (period r) (phase r) (cpu r) (cls r) v (fm r) (npsf_id r) (wm r) (hime r) (cd r).
Definition set_fm (v : edffm_params) (r : rt_task) : rt_task :=
  mk_rt_task (exec_cost r) (period r) (phase r) (cpu r) (cls r) (budget_policy r) v (npsf_id r) (wm r) (hime r) (cd r).
Definition set_npsf_id (v : Z) (r : rt_task) : rt_task :=
  mk_rt_task (exec_cost r) (period r) (phase r) (cpu r) (cls r) (budget_policy r) (fm r) v (wm r) (hime r) (cd r).
Definition set_wm (v : edf_wm_params) (r : rt_task) : rt_task :=
  mk_rt_task (exec_cost r) (period r) (phase r) (cpu r) (cls r) (budget_policy r) (fm r) (npsf_id r) v (hime r) (cd r).
Definition set_hime (v : hime_params) (r : rt_task) : rt_task :=
  mk_rt_task (exec_cost r) (period r) (phase r) (cpu r) (cls r) (budget_policy r) (fm r) (npsf_id r) (wm r) v (cd r).
Definition set_cd (v : cd_params) (r : rt_task) : rt_task :=
  mk_rt_task (exec_cost r) (period r) (phase r) (cpu r) (cls r) (budget_policy r) (fm r) (npsf_id r) (wm r) (hime r) v.

Record rt_job : Type := mk_rt_job {
  release : Z;
  deadline : Z;
  exec_time : Z;
  job_no : Z  (* unsigned int *)
}.

Definition set_release (v : Z) (r : rt_job) : rt_job :=
  mk_rt_job v (deadline r) (exec_time r) (job_no r).
Definition set_deadline (v : Z) (r : rt_job) : rt_job :=
  mk_rt_job (release r) v (exec_time r) (job_no r).
Definition set_exec_time (v : Z) (r : rt_job) : rt_job :=
  mk_rt_job (release r) (deadline r) v (job_no r).
Definition set_job_no (v : Z) (r : rt_job) : rt_job :=
  mk_rt_job (release r) (deadline r) (exec_time r) v.

(** The union [semi_part] of [struct rt_param], as the 64-bit words its members
    share.  Each member names some of the words; a pointer to a slice is kept as
    the index of the slice in the array it points into. *)

Record semi_part_t : Type := mk_semi {
  w0 : Z;
  w1 : Z;
  w2 : Z;
  w3 : Z;
  w4 : Z;
  w5 : Z
}.

Definition set_w0 (v : Z) (r : semi_part_t) : semi_part_t :=
  mk_semi v (w1 r) (w2 r) (w3 r) (w4 r) (w5 r).
Definition set_w1 (v : Z) (r : semi_part_t) : semi_part_t :=
  mk_semi (w0 r) v (w2 r) (w3 r) (w4 r) (w5 r).
Definition set_w2 (v : Z) (r : semi_part_t) : semi_part_t :=
  mk_semi (w0 r) (w1 r) v (w3 r) (w4 r) (w5 r).
Definition set_w3 (v : Z) (r : semi_part_t) : semi_part_t :=
  mk_semi (w0 r) (w1 r) (w2 r) v (w4 r) (w5 r).
Definition set_w4 (v : Z) (r : semi_part_t) : semi_part_t :=
  mk_semi (w0 r) (w1 r) (w2 r) (w3 r) v (w5 r).
Definition set_w5 (v : Z) (r : semi_part_t) : semi_part_t :=
  mk_semi (w0 r) (w1 r) (w2 r) (w3 r) (w4 r) v.

Definition wm_exec_time (s : semi_part_t) : Z := w0 s.
Definition wm_suspend_time (s : semi_part_t) : Z := w1 s.
Definition wm_job_release (s : semi_part_t) : Z := w2 s.
Definition wm_job_deadline (s : semi_part_t) : Z := w3 s.
Definition wm_job_exec_cost (s : semi_part_t) : Z := w4 s.
Definition wm_cur_slice (s : semi_part_t) : Z := w5 s.
Definition set_wm_exec_time : Z -> semi_part_t -> semi_part_t := set_w0.
Definition set_wm_suspend_time : Z -> semi_part_t -> semi_part_t := set_w1.
Definition set_wm_job_release : Z -> semi_part_t -> semi_part_t := set_w2.
Definition set_wm_job_deadline : Z -> semi_part_t -> semi_part_t := set_w3.
Definition set_wm_job_exec_cost : Z -> semi_part_t -> semi_part_t := set_w4.
Definition set_wm_cur_slice : Z -> semi_part_t -> semi_part_t := set_w5.

Definition hime_exec_time (s : semi_part_t) : Z := w0 s.
Definition hime_suspend_time (s : semi_part_t) : Z := w1 s.
Definition hime_job_deadline (s : semi_part_t) : Z := w2 s.
Definition hime_job_exec_cost (s : semi_part_t) : Z := w3 s.
Definition hime_cur_slice (s : semi_part_t) : Z := w4 s.
Definition set_hime_exec_time : Z -> semi_part_t -> semi_part_t := set_w0.
Definition set_hime_suspend_time : Z -> semi_part_t -> semi_part_t := set_w1.
Definition set_hime_job_deadline : Z -> semi_part_t -> semi_part_t := set_w2.
Definition set_hime_job_exec_cost : Z -> semi_part_t -> semi_part_t := set_w3.
Definition set_hime_cur_slice : Z -> semi_part_t -> semi_part_t := set_w4.

Definition cd_exec_time (s : semi_part_t) : Z := w0 s.
Definition cd_suspend_time (s : semi_part_t) : Z := w1 s.
Definition cd_job_deadline (s : semi_part_t) : Z := w2 s.
Definition cd_job_exec_cost (s : semi_part_t) : Z := w3 s.
Definition cd_cur_slice (s : semi_part_t) : Z := w4 s.
Definition set_cd_exec_time : Z -> semi_part_t -> semi_part_t := set_w0.
Definition set_cd_suspend_time : Z -> semi_part_t -> semi_part_t := set_w1.
Definition set_cd_job_deadline : Z -> semi_part_t -> semi_part_t := set_w2.
Definition set_cd_job_exec_cost : Z -> semi_part_t -> semi_part_t := set_w3.
Definition set_cd_cur_slice : Z -> semi_part_t -> semi_part_t := set_w4.

(** [cpu_job_no[0]] and [cpu_job_no[1]], two 32-bit counters in the first word *)
Definition cpu_job_no (i : Z) (s : semi_part_t) : Z := u32 (Z.shiftr (w0 s) (32 * i)).
Definition set_cpu_job_no (i v : Z) (s : semi_part_t) : semi_part_t :=
  set_w0 (if i =? 0 then Z.lor (Z.shiftl (cpu_job_no 1 s) 32) (u32 v)
          else Z.lor (Z.shiftl (u32 v) 32) (cpu_job_no 0 s)) s.

(** The page shared with user space. *)
Record control_page : Type := mk_ctrl { np_flag : bool; delayed_preemption : bool }.

(** The fields of [task_struct] and of its [rt_param] the schedulers use. *)
Record task_struct : Type := mk_task {
  pid : Z;
  policy_litmus : bool;  (* policy == SCHED_LITMUS *)
  state_running : bool;  (* state == TASK_RUNNING *)
  preempt_active : bool;  (* preempt_count & PREEMPT_ACTIVE *)
  need_resched : bool;  (* TIF_NEED_RESCHED *)
  task_cpu : Z;
  time_slice : Z;  (* rt.time_slice *)
  flags : Z;
  srp_non_recurse : bool;
  present : bool;
  task_params : rt_task;
  job_params : rt_job;
  inh_task : option tid;
  kernel_np : Z;  (* unsigned int *)
  scheduled_on : Z;
  linked_on : Z;
  domain_of : Z;  (* domain *)
  in_heap : bool;  (* heap_node->degree != NOT_IN_HEAP *)
  ctrl_page : option control_page;
  semi_part : semi_part_t
}.

Definition set_pid (v : Z) (r : task_struct) : task_struct :=
  mk_task v (policy_litmus r) (state_running r) (preempt_active r) (need_resched r) (task_cpu r) (time_slice r) (flags r) (srp_non_recurse r) (present r) (task_params r) (job_params r) (inh_task r) (kernel_np r) (scheduled_on r) (linked_on r) (domain_of r) (in_heap r) (ctrl_page r) (semi_part r).
Definition set_policy_litmus (v : bool) (r : task_struct) : task_struct :=
  mk_task (pid r) v (state_running r) (preempt_active r) (need_resched r) (task_cpu r) (time_slice r) (flags r) (srp_non_recurse r) (present r) (task_params r) (job_params r) (inh_task r) (kernel_np r) (scheduled_on r) (linked_on r) (domain_of r) (in_heap r) (ctrl_page r) (semi_part r).
Definition set_state_running (v : bool) (r : task_struct) : task_struct :=
  mk_task (pid r) (policy_litmus r) v (preempt_active r) (need_resched r) (task_cpu r) (time_slice r) (flags r) (srp_non_recurse r) (present r) (task_params r) (job_params r) (inh_task r) (kernel_np r) (scheduled_on r) (linked_on r) (domain_of r) (in_heap r) (ctrl_page r) (semi_part r).
Definition set_preempt_active (v : bool) (r : task_struct) : task_struct :=
  mk_task (pid r) (policy_litmus r) (state_running r) v (need_resched r) (task_cpu r) (time_slice r) (flags r) (srp_non_recurse r) (present r) (task_params r) (job_params r) (inh_task r) (kernel_np r) (scheduled_on r) (linked_on r) (domain_of r) (in_heap r) (ctrl_page r) (semi_part r).
Definition set_need_resched (v : bool) (r : task_struct) : task_struct :=
  mk_task (pid r) (policy_litmus r) (state_running r) (preempt_active r) v (task_cpu r) (time_slice r) (flags r) (srp_non_recurse r) (present r) (task_params r) (job_params r) (inh_task r) (kernel_np r) (scheduled_on r) (linked_on r) (domain_of r) (in_heap r) (ctrl_page r) (semi_part r).
Definition set_task_cpu (v : Z) (r : task_struct) : task_struct :=
  mk_task (pid r) (policy_litmus r) (state_running r) (preempt_active r) (need_resched r) v (time_slice r) (flags r) (srp_non_recurse r) (present r) (task_params r) (job_params r) (inh_task r) (kernel_np r) (scheduled_on r) (linked_on r) (domain_of r) (in_heap r) (ctrl_page r) (semi_part r).
Definition set_time_slice (v : Z) (r : task_struct) : task_struct :=
  mk_task (pid r) (policy_litmus r) (state_running r) (preempt_active r) (need_resched r) (task_cpu r) v (flags r) (srp_non_recurse r) (present r) (task_params r) (job_params r) (inh_task r) (kernel_np r) (scheduled_on r) (linked_on r) (domain_of r) (in_heap r) (ctrl_page r) (semi_part r).
Definition set_flags (v : Z) (r : task_struct) : task_struct :=
  mk_task (pid r) (policy_litmus r) (state_running r) (preempt_active r) (need_resched r) (task_cpu r) (time_slice r) v (srp_non_recurse r) (present r) (task_params r) (job_params r) (inh_task r) (kernel_np r) (scheduled_on r) (linked_on r) (domain_of r) (in_heap r) (ctrl_page r) (semi_part r).
Definition set_srp_non_recurse (v : bool) (r : task_struct) : task_struct :=
  mk_task (pid r) (policy_litmus r) (state_running r) (preempt_active r) (need_resched r) (task_cpu r) (time_slice r) (flags r) v (present r) (task_params r) (job_params r) (inh_task r) (kernel_np r) (scheduled_on r) (linked_on r) (domain_of r) (in_heap r) (ctrl_page r) (semi_part r).
Definition set_present (v : bool) (r : task_struct) : task_struct :=
  mk_task (pid r) (policy_litmus r) (state_running r) (preempt_active r) (need_resched r) (task_cpu r) (time_slice r) (flags r) (srp_non_recurse r) v (task_params r) (job_params r) (inh_task r) (kernel_np r) (scheduled_on r) (linked_on r) (domain_of r) (in_heap r) (ctrl_page r) (semi_part r).
Definition set_task_params (v : rt_task) (r : task_struct) : task_struct :=
  mk_task (pid r) (policy_litmus r) (state_running r) (preempt_active r) (need_resched r) (task_cpu r) (time_slice r) (flags r) (srp_non_recurse r) (present r) v (job_params r) (inh_task r) (kernel_np r) (scheduled_on r) (linked_on r) (domain_of r) (in_heap r) (ctrl_page r) (semi_part r).
Definition set_job_params (v : rt_job) (r : task_struct) : task_struct :=
  mk_task (pid r) (policy_litmus r) (state_running r) (preempt_active r) (need_resched r) (task_cpu r) (time_slice r) (flags r) (srp_non_recurse r) (present r) (task_params r) v (inh_task r) (kernel_np r) (scheduled_on r) (linked_on r) (domain_of r) (in_heap r) (ctrl_page r) (semi_part r).
Definition set_inh_task (v : option tid) (r : task_struct) : task_struct :=
  mk_task (pid r) (policy_litmus r) (state_running r) (preempt_active r) (need_resched r) (task_cpu r) (time_slice r) (flags r) (srp_non_recurse r) (present r) (task_params r) (job_params r) v (kernel_np r) (scheduled_on r) (linked_on r) (domain_of r) (in_heap r) (ctrl_page r) (semi_part r).
Definition set_kernel_np (v : Z) (r : task_struct) : task_struct :=
  mk_task (pid r) (policy_litmus r) (state_running r) (preempt_active r) (need_resched r) (task_cpu r) (time_slice r) (flags r) (srp_non_recurse r) (present r) (task_params r) (job_params r) (inh_task r) v (scheduled_on r) (linked_on r) (domain_of r) (in_heap r) (ctrl_page r) (semi_part r).
Definition set_scheduled_on (v : Z) (r : task_struct) : task_struct :=
  mk_task (pid r) (policy_litmus r) (state_running r) (preempt_active r) (need_resched r) (task_cpu r) (time_slice r) (flags r) (srp_non_recurse r) (present r) (task_params r) (job_params r) (inh_task r) (kernel_np r) v (linked_on r) (domain_of r) (in_heap r) (ctrl_page r) (semi_part r).
Definition set_linked_on (v : Z) (r : task_struct) : task_struct :=
  mk_task (pid r) (policy_litmus r) (state_running r) (preempt_active r) (need_resched r) (task_cpu r) (time_slice r) (flags r) (srp_non_recurse r) (present r) (task_params r) (job_params r) (inh_task r) (kernel_np r) (scheduled_on r) v (domain_of r) (in_heap r) (ctrl_page r) (semi_part r).
Definition set_domain_of (v : Z) (r : task_struct) : task_struct :=
  mk_task (pid r) (policy_litmus r) (state_running r) (preempt_active r) (need_resched r) (task_cpu r) (time_slice r) (flags r) (srp_non_recurse r) (present r) (task_params r) (job_params r) (inh_task r) (kernel_np r) (scheduled_on r) (linked_on r) v (in_heap r) (ctrl_page r) (semi_part r).
Definition set_in_heap (v : bool) (r : task_struct) : task_struct :=
  mk_task (pid r) (policy_litmus r) (state_running r) (preempt_active r) (need_resched r) (task_cpu r) (time_slice r) (flags r) (srp_non_recurse r) (present r) (task_params r) (job_params r) (inh_task r) (kernel_np r) (scheduled_on r) (linked_on r) (domain_of r) v (ctrl_page r) (semi_part r).
Definition set_ctrl_page (v : option control_page) (r : task_struct) : task_struct :=
  mk_task (pid r) (policy_litmus r) (state_running r) (preempt_active r) (need_resched r) (task_cpu r) (time_slice r) (flags r) (srp_non_recurse r) (present r) (task_params r) (job_params r) (inh_task r) (kernel_np r) (scheduled_on r) (linked_on r) (domain_of r) (in_heap r) v (semi_part r).
Definition set_semi_part (v : semi_part_t) (r : task_struct) : task_struct :=
  mk_task (pid r) (policy_litmus r) (state_running r) (preempt_active r) (need_resched r) (task_cpu r) (time_slice r) (flags r) (srp_non_recurse r) (present r) (task_params r) (job_params r) (inh_task r) (kernel_np r) (scheduled_on r) (linked_on r) (domain_of r) (in_heap r) (ctrl_page r) v.


(** ** Accessors of litmus.h *)
Definition is_realtime (t : task_struct) : bool := policy_litmus t.
Definition get_rt_flags : task_struct -> Z := flags.
Definition set_rt_flags : Z -> task_struct -> task_struct := set_flags.
Definition get_exec_cost (t : task_struct) : Z := exec_cost (task_params t).
Definition get_exec_time (t : task_struct) : Z := exec_time (job_params t).
Definition get_rt_period (t : task_struct) : Z := period (task_params t).
Definition get_rt_phase (t : task_struct) : Z := phase (task_params t).
Definition get_partition (t : task_struct) : Z := cpu (task_params t).
Definition get_deadline (t : task_struct) : Z := deadline (job_params t).
Definition get_release (t : task_struct) : Z := release (job_params t).
Definition get_class (t : task_struct) : task_class_t := cls (task_params t).

Definition on_params (f : rt_task -> rt_task) (t : task_struct) : task_struct :=
  set_task_params (f (task_params t)) t.
Definition on_job (f : rt_job -> rt_job) (t : task_struct) : task_struct :=
  set_job_params (f (job_params t)) t.
Definition on_semi (f : semi_part_t -> semi_part_t) (t : task_struct) : task_struct :=
  set_semi_part (f (semi_part t)) t.

Definition budget_exhausted (t : task_struct) : bool := get_exec_cost t <=? get_exec_time t.
Definition budget_remaining (t : task_struct) : Z :=
  if negb (budget_exhausted t) then u64 (get_exec_cost t - get_exec_time t) else 0.

Definition budget_enforced (t : task_struct) : bool :=
  match budget_policy (task_params t) with NO_ENFORCEMENT => false | _ => true end.
Definition budget_precisely_enforced (t : task_struct) : bool :=
  match budget_policy (task_params t) with PRECISE_ENFORCEMENT => true | _ => false end.

Definition is_running (t : task_struct) : bool := state_running t || preempt_active t.
Definition is_blocked (t : task_struct) : bool := negb (is_running t).
Definition is_released (t : task_struct) (now : Z) : bool := lt_before_eq (get_release t) now.
Definition is_tardy (t : task_struct) (now : Z) : bool := lt_before_eq (get_deadline t) now.
Definition earlier_deadline (a b : task_struct) : bool := lt_before (get_deadline a) (get_deadline b).
Definition earlier_release (a b : task_struct) : bool := lt_before (get_release a) (get_release b).

(** Non-preemptive sections (CONFIG_NP_SECTION). *)
Definition is_kernel_np (t : task_struct) : bool := negb (kernel_np t =? 0).
Definition is_user_np (t : task_struct) : bool :=
  match ctrl_page t with Some c => np_flag c | None => false end.
Definition request_exit_np (t : task_struct) : task_struct :=
  if is_user_np t then
    match ctrl_page t with
    | Some c => set_ctrl_page (Some (mk_ctrl (np_flag c) true)) t
    | None => t
    end
  else t.
Definition clear_exit_np (t : task_struct) : task_struct :=
  match ctrl_page t with
  | Some c => set_ctrl_page (Some (mk_ctrl (np_flag c) false)) t
  | None => t
  end.
Definition make_np (t : task_struct) : task_struct := set_kernel_np (u32 (kernel_np t + 1)) t.
(** returns the decremented counter *)
Definition take_np (t : task_struct) : Z * task_struct :=
  let v := u32 (kernel_np t - 1) in (v, set_kernel_np v t).
Definition is_np (t : task_struct) : bool := is_kernel_np t || is_user_np t.

(** ** Job control: jobs.c *)
Definition prepare_for_next_period (t : task_struct) : task_struct :=
  let t := on_job (fun j =>
    mk_rt_job (deadline j) (u64 (deadline j + get_rt_period t)) 0 (u32 (job_no j + 1))) t in
  (* don't confuse Linux *)
  set_time_slice 1 t.

Definition release_at (start : Z) (t : task_struct) : task_struct :=
  let t := on_job (set_deadline start) t in
  let t := prepare_for_next_period t in
  set_rt_flags RT_F_RUNNING t.

(** [complete_job] marks the current task before it calls the scheduler. *)
Definition complete_job (t : task_struct) : task_struct := set_rt_flags RT_F_SLEEP t.
