(* ===== verification/Srp.v ===== *)
(** * The stack resource policy (litmus/srp.c)

    Per CPU, the ceilings of the locked SRP semaphores, highest first, and the
    tasks that wait for the system ceiling to fall.  A task that was switched in
    leaves [schedule] only when [srp_ceiling_block] lets it; from then on
    [sys_srp_down] never blocks.  The theorems: along any run of tasks that open
    semaphores while nobody holds them, lock what they opened and unlock what
    they locked, no task ever finds a semaphore it opened locked by another. *)
From stdpp Require Import sorting.
From S2P Require Import Prelude Task.
Local Open Scope Z_scope.

Definition UNDEF_SEM : Z := -2.

Record srp_priority := mk_srp_prio { sp_period : Z; sp_pid : Z }.

(** Smaller periods are higher priorities, ties go to the smaller pid; period 0
    means no priority. *)
Definition srp_higher_prio (first second : srp_priority) : bool :=
  if sp_period first =? 0 then false
  else (sp_period second =? 0) || (sp_period first <? sp_period second)
       || ((sp_period first =? sp_period second) && (sp_pid first <? sp_pid second)).

Record srp_semaphore := mk_sem { ceiling : srp_priority; owner : option tid; sem_cpu : Z }.

(** The ceiling list holds the semaphores whose [ceiling] is linked into it. *)
Record srp := mk_srp { ceilings : list positive; ceiling_blocked : list tid }.

(** [woken] records the calls of [default_wake_function]. *)
Record srp_state := mk_srp_state {
  srp_of : Z -> srp;
  sems : gmap positive srp_semaphore;
  srp_objects_in_use : Z;
  woken : list tid }.

Definition set_srp (cpu : Z) (r : srp) (s : srp_state) : srp_state :=
  mk_srp_state (fun c => if c =? cpu then r else srp_of s c) (sems s) (srp_objects_in_use s) (woken s).
Definition set_sems (m : gmap positive srp_semaphore) (s : srp_state) : srp_state :=
  mk_srp_state (srp_of s) m (srp_objects_in_use s) (woken s).
Definition set_in_use (n : Z) (s : srp_state) : srp_state :=
  mk_srp_state (srp_of s) (sems s) n (woken s).
Definition set_woken (l : list tid) (s : srp_state) : srp_state :=
  mk_srp_state (srp_of s) (sems s) (srp_objects_in_use s) l.
Definition set_owner (o : option tid) (s : srp_semaphore) : srp_semaphore := mk_sem (ceiling s) o (sem_cpu s).
Definition set_sem_cpu (c : Z) (s : srp_semaphore) : srp_semaphore := mk_sem (ceiling s) (owner s) c.
Definition set_ceiling (p : srp_priority) (s : srp_semaphore) : srp_semaphore := mk_sem p (owner s) (sem_cpu s).

Definition srp_init : srp_state := mk_srp_state (fun _ => mk_srp [] []) ∅ 0 [].

Section SRP.
Context (task : tid -> task_struct).

Abbreviation K := (M srp_state).

Definition get_sem (p : positive) : K srp_semaphore :=
  s ← gets (fun st => sems st !! p); of_option s.
Definition put_sem (p : positive) (s : srp_semaphore) : K unit :=
  modify (fun st => set_sems (<[p := s]> (sems st)) st).

(** [a] is above [c] the way [srp_exceeds_ceiling] compares. *)
Definition above (a : task_struct) (c : srp_priority) : bool :=
  (get_rt_period a <? sp_period c) || ((get_rt_period a =? sp_period c) && (pid a <? sp_pid c)).

Definition srp_exceeds_ceiling (first : tid) (cpu : Z) : K bool :=
  l ← gets (fun st => ceilings (srp_of st cpu));
  match l with
  | [] => mret true
  | p :: _ =>
      s ← get_sem p;
      mret (above (task first) (ceiling s) || bool_decide (owner s = Some first))
  end.

(** The loop over the ceiling list that links [p] before the first semaphore of
    lower ceiling, or at the end. *)
Fixpoint insert_ceiling (p : positive) (prio : srp_priority) (l : list positive) : K (list positive) :=
  match l with
  | [] => mret [p]
  | q :: l' =>
      s ← get_sem q;
      if srp_higher_prio prio (ceiling s) then mret (p :: q :: l')
      else r ← insert_ceiling p prio l'; mret (q :: r)
  end.

(** A semaphore that is already linked is left alone (with a warning). *)
Definition srp_add_prio (cpu : Z) (p : positive) : K unit :=
  r ← gets (fun st => srp_of st cpu);
  s ← get_sem p;
  if bool_decide (p ∈ ceilings r) then mret tt
  else
    l ← insert_ceiling p (ceiling s) (ceilings r);
    modify (set_srp cpu (mk_srp l (ceiling_blocked r))).

(** [mem] is the result of [kmalloc]. *)
Definition create_srp_semaphore (mem : option positive) : K (option positive) :=
  match mem with
  | None => mret None
  | Some p =>
      put_sem p (mk_sem (mk_srp_prio 0 0) None UNDEF_SEM);;
      modify (fun st => set_in_use (srp_objects_in_use st + 1) st);;
      mret (Some p)
  end.

Definition open_srp_semaphore (srp_active : bool) (me : tid) (p : positive) : K Z :=
  s ← get_sem p;
  if negb srp_active then mret (- EBUSY)
  else
    let part := get_partition (task me) in
    s ← (if sem_cpu s =? UNDEF_SEM then put_sem p (set_sem_cpu part s);; get_sem p else mret s);
    if negb (sem_cpu s =? part) then mret (- EPERM)
    else
      let t_prio := mk_srp_prio (u32 (get_rt_period (task me))) (pid (task me)) in
      when (srp_higher_prio t_prio (ceiling s)) (put_sem p (set_ceiling t_prio s));;
      mret 0.

Definition destroy_srp_semaphore (p : positive) : K unit :=
  modify (fun st => set_in_use (srp_objects_in_use st - 1) st);;
  modify (fun st => set_sems (delete p (sems st)) st).

Definition do_srp_down (me : tid) (cpu : Z) (p : positive) : K unit :=
  srp_add_prio cpu p;;
  s ← get_sem p;
  put_sem p (set_owner (Some me) s).

(** Called for each waiter by [wake_up_all]. *)
Definition srp_wake_up (cpu : Z) (tsk : tid) : K unit :=
  if negb (cpu =? get_partition (task tsk)) then mret tt
  else
    ok ← srp_exceeds_ceiling tsk cpu;
    when ok (modify (fun st => set_woken (woken st ++ [tsk]) st)).

Fixpoint wake_up_all (cpu : Z) (l : list tid) : K unit :=
  match l with
  | [] => mret tt
  | t :: l => srp_wake_up cpu t;; wake_up_all cpu l
  end.

Definition do_srp_up (cpu : Z) (p : positive) : K unit :=
  r ← gets (fun st => srp_of st cpu);
  when (bool_decide (p ∈ ceilings r))
    (modify (set_srp cpu (mk_srp (filter (fun q => q <> p) (ceilings r)) (ceiling_blocked r))));;
  s ← get_sem p;
  put_sem p (set_owner None s);;
  r ← gets (fun st => srp_of st cpu);
  wake_up_all cpu (ceiling_blocked r).

(** [sem] is what [lookup_srp_sem] found for the descriptor. *)
Definition sys_srp_down (me : tid) (cpu : Z) (sem : option positive) : K Z :=
  match sem with
  | None => mret (- EINVAL)
  | Some p =>
      s ← get_sem p;
      if sem_cpu s =? cpu then do_srp_down me cpu p;; mret 0 else mret (- EINVAL)
  end.

Definition sys_srp_up (cpu : Z) (sem : option positive) : K Z :=
  match sem with
  | None => mret (- EINVAL)
  | Some p =>
      s ← get_sem p;
      if sem_cpu s =? cpu then do_srp_up cpu p;; mret 0 else mret (- EINVAL)
  end.

(** Up to the call of [schedule]: the task waits for the ceiling to fall. *)
Definition do_ceiling_block (tsk : tid) (cpu : Z) : K unit :=
  modify (fun st =>
    set_srp cpu (mk_srp (ceilings (srp_of st cpu)) (tsk :: ceiling_blocked (srp_of st cpu))) st).

(** After it: the task leaves the wait queue and tests again. *)
Definition ceiling_unblock (tsk : tid) (cpu : Z) : K unit :=
  modify (fun st =>
    set_srp cpu (mk_srp (ceilings (srp_of st cpu))
                        (filter (fun t => t <> tsk) (ceiling_blocked (srp_of st cpu)))) st).

(** [true]: the task goes on; [false]: it was put to sleep inside the loop. *)
Definition srp_ceiling_block (tsk : tid) (cpu : Z) : K bool :=
  if negb (is_realtime (task tsk)) then mret true
  else if srp_non_recurse (task tsk) then mret true
  else
    n ← gets srp_objects_in_use;
    if n =? 0 then mret true
    else
      ok ← srp_exceeds_ceiling tsk cpu;
      if ok : bool then mret true
      else do_ceiling_block tsk cpu;; mret false.

End SRP.

Lemma wp_get_sem p (Φ : srp_semaphore -> srp_state -> Prop) st s :
  sems st !! p = Some s -> wp (get_sem p) Φ st <-> Φ s st.
Proof. intros Hs. unfold get_sem. rewrite wp_bind, wp_gets, Hs. done. Qed.

(** ** The runs of one CPU *)
Section Runs.
Context (task : tid -> task_struct) (c : Z).

Implicit Types (st : srp_state) (p q : positive) (t u : tid) (s : srp_semaphore).

(** The tasks considered: real-time tasks of this CPU outside [do_ceiling_block]
    whose period fits the 32-bit field of a ceiling. *)
Definition srp_task t : Prop :=
  is_realtime (task t) = true /\ srp_non_recurse (task t) = false /\
  get_partition (task t) = c /\ 0 < get_rt_period (task t) < two32.

(** The SRP state, the task that runs in user space, and the semaphores each task
    has opened. *)
Record srp_world := mk_sw { sw_state : srp_state; sw_running : option tid; sw_opened : list (tid * positive) }.

Definition held_by st p t : Prop := exists s, sems st !! p = Some s /\ owner s = Some t.
Definition unheld st p : Prop := exists s, sems st !! p = Some s /\ owner s = None.

Inductive srp_step : srp_world -> srp_world -> Prop :=
  | sw_create st st' r o p :
      sems st !! p = None -> create_srp_semaphore (Some p) st = Some (Some p, st') ->
      srp_step (mk_sw st r o) (mk_sw st' r o)
  | sw_open st st' o t p :
      unheld st p -> open_srp_semaphore task true t p st = Some (0, st') ->
      srp_step (mk_sw st (Some t) o) (mk_sw st' (Some t) ((t, p) :: o))
  | sw_destroy st st' r o p :
      unheld st p -> destroy_srp_semaphore p st = Some (tt, st') ->
      srp_step (mk_sw st r o) (mk_sw st' r (filter (fun tp => tp.2 <> p) o))
  | sw_down st st' o t p ret :
      (t, p) ∈ o -> ~ held_by st p t -> sys_srp_down t c (Some p) st = Some (ret, st') ->
      srp_step (mk_sw st (Some t) o) (mk_sw st' (Some t) o)
  | sw_up st st' o t p ret :
      held_by st p t -> sys_srp_up task c (Some p) st = Some (ret, st') ->
      srp_step (mk_sw st (Some t) o) (mk_sw st' (Some t) o)
  | sw_dispatch st st' r o t go :
      srp_task t -> srp_ceiling_block task t c st = Some (go, st') ->
      srp_step (mk_sw st r o) (mk_sw st' (if go : bool then Some t else None) o)
  | sw_retry st st' r o t :
      ceiling_unblock t c st = Some (tt, st') -> srp_step (mk_sw st r o) (mk_sw st' r o)
  | sw_leave st r o : srp_step (mk_sw st r o) (mk_sw st None o).

Definition srp_reachable : srp_world -> Prop := rtc srp_step (mk_sw srp_init None []).

(** ** The order of ceilings *)

Definition prio_of st p : srp_priority :=
  match sems st !! p with Some s => ceiling s | None => mk_srp_prio 0 0 end.

Lemma higher_spec a b :
  srp_higher_prio a b = true <->
  sp_period a <> 0 /\ (sp_period b = 0 \/ sp_period a < sp_period b \/
                       (sp_period a = sp_period b /\ sp_pid a < sp_pid b)).
Proof. unfold srp_higher_prio. destruct (Z.eqb_spec (sp_period a) 0); [naive_solver|].
  rewrite !orb_true_iff, andb_true_iff, !Z.eqb_eq, !Z.ltb_lt. tauto. Qed.

Lemma above_spec a b :
  above a b = true <->
  get_rt_period a < sp_period b \/ (get_rt_period a = sp_period b /\ pid a < sp_pid b).
Proof. unfold above. by rewrite orb_true_iff, andb_true_iff, Z.eqb_eq, !Z.ltb_lt. Qed.

Lemma above_mono a c1 c2 :
  sp_period c1 <> 0 -> srp_higher_prio c2 c1 = false -> sp_period c2 <> 0 ->
  above a c1 = true -> above a c2 = true.
Proof. rewrite <- not_true_iff_false, higher_spec, !above_spec. lia. Qed.

Lemma higher_asym c1 c2 : srp_higher_prio c1 c2 = true -> srp_higher_prio c2 c1 = false.
Proof. rewrite <- not_true_iff_false, !higher_spec. lia. Qed.

Lemma higher_trans_neg c1 c2 c3 :
  srp_higher_prio c2 c1 = false -> srp_higher_prio c3 c2 = false -> srp_higher_prio c3 c1 = false.
Proof. rewrite <- !not_true_iff_false, !higher_spec. lia. Qed.

(** [p] may come before [q] in the ceiling list. *)
Definition before st p q : Prop := srp_higher_prio (prio_of st q) (prio_of st p) = false.

Lemma insert_ceiling_spec st p prio l :
  Forall (fun q => is_Some (sems st !! q)) l -> prio = prio_of st p -> StronglySorted (before st) l ->
  wp (insert_ceiling p prio l) (fun r st' => st' = st /\ r ≡ₚ p :: l /\ StronglySorted (before st) r) st.
Proof.
  intros Hl ->. induction Hl as [|q l [s Hs] Hl IH]; intros Hsort; simpl.
  - split_and!; [done|done|]. repeat constructor.
  - apply StronglySorted_inv in Hsort as [Hsort Hq]. rewrite wp_bind, (wp_get_sem _ _ _ _ Hs).
    assert (prio_of st q = ceiling s) as Eq by (unfold prio_of; by rewrite Hs). rewrite <- Eq.
    destruct (srp_higher_prio (prio_of st p) (prio_of st q)) eqn:E.
    + split_and!; [done|done|]. apply higher_asym in E. constructor; [by constructor|].
      constructor; [done|]. eapply Forall_impl; [done|]. intros q' Hq'. by eapply higher_trans_neg.
    + rewrite wp_bind. eapply wp_mono; [by apply IH|]. simpl. intros r st' (-> & Hr & Hsr). split_and!; [done| |].
      * rewrite Hr. apply Permutation_swap.
      * constructor; [done|]. rewrite Hr. by constructor.
Qed.

(** ** The invariant *)
Record srp_inv (w : srp_world) : Prop := {
  inv_sorted : StronglySorted (before (sw_state w)) (ceilings (srp_of (sw_state w) c));
  inv_nodup : NoDup (ceilings (srp_of (sw_state w) c));
  inv_list p : p ∈ ceilings (srp_of (sw_state w) c) <-> exists t, held_by (sw_state w) p t;
  inv_opened t p : (t, p) ∈ sw_opened w -> exists s, sems (sw_state w) !! p = Some s /\
    sem_cpu s = c /\ sp_period (ceiling s) <> 0 /\ above (task t) (ceiling s) = false;
  inv_owner p t : held_by (sw_state w) p t -> (t, p) ∈ sw_opened w;
  inv_count : Z.of_nat (size (sems (sw_state w))) <= srp_objects_in_use (sw_state w);
  (** of two tasks that hold semaphores, one is above what the other holds *)
  inv_nested p q t u : held_by (sw_state w) p u -> held_by (sw_state w) q t -> t <> u ->
    above (task t) (prio_of (sw_state w) p) = true \/ above (task u) (prio_of (sw_state w) q) = true;
  (** and the running task is above what any other holds *)
  inv_running t p u : sw_running w = Some t -> held_by (sw_state w) p u -> t <> u ->
    above (task t) (prio_of (sw_state w) p) = true;
  inv_task t : sw_running w = Some t -> srp_task t }.

Lemma prio_of_sem st p s : sems st !! p = Some s -> prio_of st p = ceiling s.
Proof. unfold prio_of. by intros ->. Qed.

(** The SRP argument: whoever passes the ceiling test is above everything the
    others hold. *)
Lemma exceeds_above w t p u :
  srp_inv w -> wp (srp_exceeds_ceiling task t c) (fun ok _ => ok = true) (sw_state w) ->
  held_by (sw_state w) p u -> t <> u -> above (task t) (prio_of (sw_state w) p) = true.
Proof.
  intros I Hex Hp Hne. pose proof (proj2 (inv_list _ I p) (ex_intro _ u Hp)) as Hin.
  unfold srp_exceeds_ceiling in Hex. rewrite wp_bind, wp_gets in Hex.
  destruct (ceilings (srp_of (sw_state w) c)) as [|h l] eqn:El; [by apply not_elem_of_nil in Hin|].
  assert (h ∈ ceilings (srp_of (sw_state w) c)) as Hh by (rewrite El; left).
  apply (inv_list _ I) in Hh as [v Hv]. pose proof Hv as [sh [Hsh Ho]].
  rewrite wp_bind, (wp_get_sem _ _ _ _ Hsh), wp_ret in Hex.
  destruct (inv_opened _ I _ _ (inv_owner _ I _ _ Hp)) as (sp & Hsp & _ & Hpos & Habove).
  destruct (inv_opened _ I _ _ (inv_owner _ I _ _ Hv)) as (sh' & Hsh' & _ & Hposh & _). simplify_eq.
  assert (forall a, above a (ceiling sh) = true -> above a (ceiling sp) = true) as Hmono.
  { intros a Ha. apply elem_of_cons in Hin as [->|Hin]; [congruence|].
    pose proof (inv_sorted _ I) as Hs. rewrite El in Hs. apply StronglySorted_inv in Hs as [_ Hs].
    rewrite Forall_forall in Hs. specialize (Hs p Hin). unfold before in Hs.
    rewrite (prio_of_sem _ _ _ Hsh), (prio_of_sem _ _ _ Hsp) in Hs. by eapply above_mono. }
  rewrite (prio_of_sem _ _ _ Hsp). apply orb_true_iff in Hex as [Hex|Hex]; [by apply Hmono|].
  apply bool_decide_eq_true in Hex. simplify_eq.
  destruct (inv_nested _ I p h t u Hp Hv Hne) as [H|H].
  - by rewrite (prio_of_sem _ _ _ Hsp) in H.
  - rewrite (prio_of_sem _ _ _ Hsh) in H. apply Hmono in H. congruence.
Qed.

(** So a semaphore the running task has opened is free or its own. *)
Lemma running_free w t p :
  srp_inv w -> sw_running w = Some t -> (t, p) ∈ sw_opened w ->
  exists s, sems (sw_state w) !! p = Some s /\ sem_cpu s = c /\ (owner s = None \/ owner s = Some t).
Proof.
  intros I Hr Ho. destruct (inv_opened _ I _ _ Ho) as (s & Hs & Hc & _ & Ha). exists s. split_and!; [done|done|].
  destruct (owner s) as [u|] eqn:E; [|by left]. right. destruct (decide (t = u)) as [->|Hne]; [done|].
  pose proof (inv_running _ I t p u Hr (ex_intro _ s (conj Hs E)) Hne) as H.
  rewrite (prio_of_sem _ _ _ Hs) in H. congruence.
Qed.

(** A step that moves neither the ceiling list nor the held semaphores. *)
Lemma inv_frame w st' r' o' :
  srp_inv w -> ceilings (srp_of st' c) = ceilings (srp_of (sw_state w) c) ->
  (forall p t, held_by (sw_state w) p t -> sems st' !! p = sems (sw_state w) !! p) ->
  (forall p t, held_by st' p t -> held_by (sw_state w) p t) ->
  (forall t p, (t, p) ∈ o' -> exists s, sems st' !! p = Some s /\ sem_cpu s = c /\
     sp_period (ceiling s) <> 0 /\ above (task t) (ceiling s) = false) ->
  (forall p t, held_by (sw_state w) p t -> (t, p) ∈ o') ->
  Z.of_nat (size (sems st')) <= srp_objects_in_use st' ->
  (forall t, r' = Some t -> srp_task t /\
     forall p u, held_by (sw_state w) p u -> t <> u -> above (task t) (prio_of (sw_state w) p) = true) ->
  srp_inv (mk_sw st' r' o').
Proof.
  intros I El Es Eh Ho Hown Hcnt Hrun.
  assert (forall p t, held_by (sw_state w) p t -> prio_of st' p = prio_of (sw_state w) p) as Ep
    by (intros p t Hp; unfold prio_of; by rewrite (Es p t Hp)).
  assert (forall p t, held_by st' p t <-> held_by (sw_state w) p t) as Eh'.
  { intros p t. split; [apply Eh|]. intros Hp. destruct Hp as [s [Hs Hso]] eqn:E. exists s.
    by rewrite (Es p t Hp). }
  split; simpl; rewrite ?El.
  - eapply sorted_impl; [|apply (inv_sorted _ I)]. intros x y Hx Hy.
    apply (inv_list _ I) in Hx as [t Hx], Hy as [u Hy]. unfold before. by rewrite (Ep _ _ Hx), (Ep _ _ Hy).
  - apply (inv_nodup _ I).
  - intros p. rewrite (inv_list _ I p). by setoid_rewrite Eh'.
  - done.
  - intros p t Hp%Eh. by apply Hown.
  - done.
  - intros p q t u Hp%Eh Hq%Eh. rewrite (Ep _ _ Hp), (Ep _ _ Hq). by apply (inv_nested _ I).
  - intros t p u -> Hp%Eh. rewrite (Ep _ _ Hp). destruct (Hrun t eq_refl) as [_ H]. by apply H.
  - intros t ->. by apply Hrun.
Qed.

(** Replacing a semaphore nobody holds. *)
Lemma held_insert st p s q t :
  (forall u, ~ held_by st p u) -> owner s = None ->
  held_by (set_sems (<[p := s]> (sems st)) st) q t <-> held_by st q t.
Proof.
  intros Hp Hs. unfold held_by; simpl. destruct (decide (p = q)) as [->|Hne].
  - rewrite lookup_insert_eq. split; [intros (? & [= <-] & E); congruence|]. intros H. by destruct (Hp t).
  - by rewrite lookup_insert_ne.
Qed.

Lemma unheld_not_held st p u : unheld st p -> ~ held_by st p u.
Proof. intros (s & Hs & Ho) (s' & Hs' & Ho'). congruence. Qed.

Lemma running_keeps w t :
  srp_inv w -> sw_running w = Some t -> srp_task t /\
  forall p u, held_by (sw_state w) p u -> t <> u -> above (task t) (prio_of (sw_state w) p) = true.
Proof. intros I Hr. split; [by apply (inv_task _ I)|]. intros p u. by apply (inv_running _ I). Qed.

Lemma create_inv st r o p :
  srp_inv (mk_sw st r o) -> sems st !! p = None ->
  wp (create_srp_semaphore (Some p)) (fun _ st' => srp_inv (mk_sw st' r o)) st.
Proof.
  intros I Hp. simpl. unfold put_sem. wp_steps.
  assert (forall u, ~ held_by st p u) as Hn by (intros u (s & Hs & _); congruence).
  apply (inv_frame _ _ _ _ I); simpl; [done| | | | | |].
  - intros q t (s & Hs & _). rewrite lookup_insert_ne; congruence.
  - intros q t. by apply held_insert.
  - intros t q Ho. destruct (inv_opened _ I _ _ Ho) as (s & Hs & ?). exists s. simpl in *.
    rewrite lookup_insert_ne; [done|congruence].
  - apply (inv_owner _ I).
  - rewrite map_size_insert_None by done. pose proof (inv_count _ I). simpl in *. lia.
  - intros t ->. by apply (running_keeps _ _ I).
Qed.

Lemma destroy_inv st r o p :
  srp_inv (mk_sw st r o) -> unheld st p ->
  wp (destroy_srp_semaphore p) (fun _ st' => srp_inv (mk_sw st' r (filter (fun tp => tp.2 <> p) o))) st.
Proof.
  intros I Hp. unfold destroy_srp_semaphore. wp_steps.
  assert (forall q u, held_by st q u -> q <> p) as Hn
    by (intros q u Hq ->; by apply (unheld_not_held _ _ _ Hp Hq)).
  apply (inv_frame _ _ _ _ I); simpl; [done| | | | | |].
  - intros q t Hq. rewrite lookup_delete_ne; [done|]. specialize (Hn _ _ Hq). done.
  - intros q t (s & Hs & Ho). simpl in Hs. apply lookup_delete_Some in Hs as [_ Hs]. by exists s.
  - intros t q [Hne Hin]%list_elem_of_filter. simpl in Hne.
    destruct (inv_opened _ I _ _ Hin) as (s & Hs & ?). exists s. simpl in *. by rewrite lookup_delete_ne.
  - intros q t Hq. apply list_elem_of_filter. split; [by apply (Hn q t)|by apply (inv_owner _ I)].
  - destruct Hp as (s & Hs & _). rewrite map_size_delete_Some by eauto.
    pose proof (inv_count _ I). simpl in *.
    assert (size (sems st) <> 0%nat) by (intros E%map_size_empty_iff; by rewrite E, lookup_empty in Hs). lia.
  - intros t ->. by apply (running_keeps _ _ I).
Qed.

Definition prio_of_task t : srp_priority := mk_srp_prio (u32 (get_rt_period (task t))) (pid (task t)).

Lemma set_sems_id st p s : sems st !! p = Some s -> set_sems (<[p := s]> (sems st)) st = st.
Proof. intros Hs. rewrite insert_id by done. by destruct st. Qed.

(** What a successful open does. *)
Lemma open_result st t p s :
  sems st !! p = Some s ->
  wp (open_srp_semaphore task true t p) (fun ret st' => ret = 0 -> exists s',
    st' = set_sems (<[p := s']> (sems st)) st /\ owner s' = owner s /\
    sem_cpu s' = get_partition (task t) /\
    ceiling s' = if srp_higher_prio (prio_of_task t) (ceiling s) then prio_of_task t else ceiling s) st.
Proof.
  intros Hs. unfold open_srp_semaphore. rewrite wp_bind, (wp_get_sem _ _ _ _ Hs). simpl. rewrite wp_bind.
  assert (wp (if sem_cpu s =? UNDEF_SEM
              then put_sem p (set_sem_cpu (get_partition (task t)) s);; get_sem p else mret s)
    (fun s1 st1 => st1 = set_sems (<[p := s1]> (sems st)) st /\ owner s1 = owner s /\ ceiling s1 = ceiling s) st)
    as Hs1.
  { destruct (_ =? _).
    - unfold put_sem. wp_steps. apply (wp_get_sem _ _ _ (set_sem_cpu (get_partition (task t)) s)); simpl; [|done].
      by rewrite lookup_insert_eq.
    - wp_steps. split; [|done]. by rewrite set_sems_id. }
  eapply wp_mono; [exact Hs1|]. clear Hs1. simpl. intros s1 st1 (-> & Eo & Ec).
  destruct (Z.eqb_spec (sem_cpu s1) (get_partition (task t))) as [Ecpu|]; [|done]. simpl.
  apply wp_bind. apply wp_when. fold (prio_of_task t). rewrite Ec.
  destruct (srp_higher_prio _ _).
  - unfold put_sem. wp_steps. intros _. exists (set_ceiling (prio_of_task t) s1).
    split_and!; [|done..]. unfold set_sems. simpl. by rewrite insert_insert_eq.
  - wp_steps. intros _. exists s1. done.
Qed.

Lemma open_inv st o t p :
  srp_inv (mk_sw st (Some t) o) -> unheld st p ->
  wp (open_srp_semaphore task true t p)
    (fun ret st' => ret = 0 -> srp_inv (mk_sw st' (Some t) ((t, p) :: o))) st.
Proof.
  intros I Hp. pose proof Hp as (s & Hs & Hso). eapply wp_mono; [by apply open_result|]. simpl.
  intros ret st' Hst Hret. destruct (Hst Hret) as (s' & -> & Eo & Ecpu & Ec). clear Hst.
  destruct (inv_task _ I t eq_refl) as (_ & _ & Hpart & Hper). rewrite Hpart in Ecpu.
  assert (sp_period (prio_of_task t) = get_rt_period (task t)) as Epr by (apply Z.mod_small; lia).
  apply (inv_frame _ _ _ _ I); simpl; [done| | | | | |].
  - intros q u Hq. rewrite lookup_insert_ne; [done|]. intros <-. by apply (unheld_not_held _ _ _ Hp Hq).
  - intros q u. apply held_insert; [by intros v; apply unheld_not_held|congruence].
  - intros u q [[= -> ->]|Hin]%elem_of_cons.
    + exists s'. rewrite lookup_insert_eq, Ec. split_and!; [done|done|..]; destruct (srp_higher_prio _ _) eqn:E;
        rewrite <- ?not_true_iff_false, ?higher_spec, ?above_spec in *; simpl in *; lia.
    + destruct (inv_opened _ I _ _ Hin) as (sq & Hsq & Hcq & Hpq & Haq). simpl in *.
      destruct (decide (p = q)) as [<-|Hne]; [|exists sq; by rewrite lookup_insert_ne].
      exists s'. rewrite lookup_insert_eq, Ec. simplify_eq. split_and!; [done|done|..];
        destruct (srp_higher_prio _ _) eqn:E; try done;
        rewrite <- ?not_true_iff_false, ?higher_spec, ?above_spec in *; simpl in *; lia.
  - intros q u Hq. right. by apply (inv_owner _ I).
  - rewrite map_size_insert_Some by eauto. apply (inv_count _ I).
  - intros u [= <-]. by apply (running_keeps _ _ I).
Qed.

Lemma listed_sems w : srp_inv w -> Forall (fun q => is_Some (sems (sw_state w) !! q)) (ceilings (srp_of (sw_state w) c)).
Proof. intros I. apply Forall_forall. intros q (t & s & Hs & _)%(inv_list _ I). eauto. Qed.

(** The states after [do_srp_down] and [do_srp_up]. *)
Definition locked st p s t l : srp_state :=
  set_sems (<[p := set_owner (Some t) s]> (sems st)) (set_srp c (mk_srp l (ceiling_blocked (srp_of st c))) st).
Definition unlocked st p s : srp_state :=
  set_sems (<[p := set_owner None s]> (sems st))
    (set_srp c (mk_srp (filter (fun q => q <> p) (ceilings (srp_of st c))) (ceiling_blocked (srp_of st c))) st).

Lemma prio_of_owner st st' p s o q :
  sems st !! p = Some s -> sems st' = <[p := set_owner o s]> (sems st) -> prio_of st' q = prio_of st q.
Proof.
  intros Hs E. unfold prio_of. rewrite E.
  destruct (decide (p = q)) as [<-|Hne]; [by rewrite lookup_insert_eq, Hs|by rewrite lookup_insert_ne].
Qed.

Lemma held_locked st p s t l q u :
  (forall v, ~ held_by st p v) -> held_by (locked st p s t l) q u <-> (q = p /\ u = t) \/ held_by st q u.
Proof.
  intros Hfree. unfold held_by at 1. simpl. destruct (decide (p = q)) as [<-|Hne].
  - rewrite lookup_insert_eq. split; [intros (? & [= <-] & [= ->]); by left|].
    intros [[_ ->]|H]; [eauto|by destruct (Hfree u)].
  - rewrite lookup_insert_ne by done. split; [by right|]. by intros [[-> _]|H].
Qed.

Lemma opened_owner st st' r o p s v t q :
  srp_inv (mk_sw st r o) -> sems st !! p = Some s -> sems st' = <[p := set_owner v s]> (sems st) ->
  (t, q) ∈ o -> exists s, sems st' !! q = Some s /\ sem_cpu s = c /\ sp_period (ceiling s) <> 0 /\
                          above (task t) (ceiling s) = false.
Proof.
  intros I Hs E Hq. destruct (inv_opened _ I _ _ Hq) as (sq & Hsq & ?). simpl in *. rewrite E.
  destruct (decide (p = q)) as [<-|Hne]; [|exists sq; by rewrite lookup_insert_ne].
  exists (set_owner v s). rewrite lookup_insert_eq. by simplify_eq.
Qed.

Lemma locked_inv st o t p s l :
  srp_inv (mk_sw st (Some t) o) -> (t, p) ∈ o -> sems st !! p = Some s -> (forall u, ~ held_by st p u) ->
  p ∉ ceilings (srp_of st c) -> l ≡ₚ p :: ceilings (srp_of st c) -> StronglySorted (before st) l ->
  srp_inv (mk_sw (locked st p s t l) (Some t) o).
Proof.
  intros I Ho Hs Hfree Hnl Hl Hsort.
  pose proof (fun q u => held_locked st p s t l q u Hfree) as Eh.
  pose proof (fun q => prio_of_owner st (locked st p s t l) p s (Some t) q Hs eq_refl) as Ep.
  split; cbn [sw_state sw_running sw_opened]; [| | |by intros u q; eapply opened_owner| | |..].
  - simpl. rewrite Z.eqb_refl. eapply sorted_impl; [|exact Hsort]. intros x y _ _. unfold before. by rewrite !Ep.
  - simpl. rewrite Z.eqb_refl. simpl. rewrite Hl. constructor; [done|apply (inv_nodup _ I)].
  - intros q. simpl. rewrite Z.eqb_refl. simpl. rewrite Hl, elem_of_cons, (inv_list _ I q). setoid_rewrite Eh. split.
    + intros [->|[u Hu]]; [exists t; by left|exists u; by right].
    + intros [u [[-> _]|Hu]]; [by left|right; by exists u].
  - intros q u [[-> ->]|Hq]%Eh; [done|by apply (inv_owner _ I)].
  - simpl. rewrite map_size_insert_Some by eauto. apply (inv_count _ I).
  - intros q q' u v Hq Hq' Hne. rewrite !Ep. apply Eh in Hq as [[-> ->]|Hq], Hq' as [[-> ->]|Hq'].
    + done.
    + right. apply (inv_running _ I t q' u eq_refl Hq'). congruence.
    + left. by apply (inv_running _ I t q v eq_refl Hq).
    + by apply (inv_nested _ I).
  - intros u q v [= <-] Hq Hne. rewrite Ep. apply Eh in Hq as [[-> ->]|Hq]; [done|]. by apply (inv_running _ I t q v).
  - intros u [= <-]. by apply (inv_task _ I).
Qed.

(** The new owner is recorded and the ceiling linked at its place. *)
Lemma down_inv st o t p :
  srp_inv (mk_sw st (Some t) o) -> (t, p) ∈ o -> ~ held_by st p t ->
  wp (sys_srp_down t c (Some p))
    (fun ret st' => ret = 0 /\ held_by st' p t /\ srp_inv (mk_sw st' (Some t) o)) st.
Proof.
  intros I Ho Hn. destruct (running_free _ t p I eq_refl Ho) as (s & Hs & Hc & Hown). simpl in Hs.
  destruct Hown as [Hown|?]; [|by destruct Hn; exists s].
  assert (forall u, ~ held_by st p u) as Hfree by (intros u; apply unheld_not_held; by exists s).
  assert (p ∉ ceilings (srp_of st c)) as Hnl by (intros [u Hu]%(inv_list _ I); by apply (Hfree u)).
  unfold sys_srp_down, do_srp_down, srp_add_prio. rewrite wp_bind, (wp_get_sem _ _ _ _ Hs), Hc, Z.eqb_refl.
  wp_steps. apply (wp_get_sem _ _ _ _ Hs). rewrite bool_decide_false by done. apply wp_bind.
  eapply wp_mono.
  { apply (insert_ceiling_spec st p);
      [apply (listed_sems _ I)|by rewrite (prio_of_sem _ _ _ Hs)|apply (inv_sorted _ I)]. }
  simpl. intros l st' (-> & Hl & Hsort). wp_steps. apply (wp_get_sem _ _ _ s); [done|]. unfold put_sem. wp_steps.
  change (0 = 0 /\ held_by (locked st p s t l) p t /\ srp_inv (mk_sw (locked st p s t l) (Some t) o)).
  split_and!; [done|apply held_locked; [done|by left]|by apply locked_inv].
Qed.

Lemma held_unlocked st p s q u :
  held_by (unlocked st p s) q u <-> q <> p /\ held_by st q u.
Proof.
  unfold held_by at 1. simpl. destruct (decide (p = q)) as [<-|Hne].
  - rewrite lookup_insert_eq. split; [intros (? & [= <-] & [=])|by intros [? _]].
  - rewrite lookup_insert_ne by done. split; [done|by intros [_ H]].
Qed.

Lemma unlocked_inv st o t p s :
  srp_inv (mk_sw st (Some t) o) -> sems st !! p = Some s -> srp_inv (mk_sw (unlocked st p s) (Some t) o).
Proof.
  intros I Hs. pose proof (held_unlocked st p s) as Eh.
  pose proof (fun q => prio_of_owner st (unlocked st p s) p s None q Hs eq_refl) as Ep.
  split; cbn [sw_state sw_running sw_opened]; [| | |by intros u q; eapply opened_owner| | |..].
  - simpl. rewrite Z.eqb_refl. apply sorted_filter. eapply sorted_impl; [|apply (inv_sorted _ I)].
    intros x y _ _. unfold before. by rewrite !Ep.
  - simpl. rewrite Z.eqb_refl. apply NoDup_filter, (inv_nodup _ I).
  - intros q. simpl. rewrite Z.eqb_refl. simpl. rewrite list_elem_of_filter, (inv_list _ I q).
    setoid_rewrite Eh. simpl. naive_solver.
  - intros q u [_ Hq]%Eh. by apply (inv_owner _ I).
  - simpl. rewrite map_size_insert_Some by eauto. apply (inv_count _ I).
  - intros q q' u v [_ Hq]%Eh [_ Hq']%Eh. rewrite !Ep. by apply (inv_nested _ I).
  - intros u q v [= <-] [_ Hq]%Eh. rewrite Ep. by apply (inv_running _ I t q v).
  - intros u [= <-]. by apply (inv_task _ I).
Qed.

Lemma exceeds_frame l st t :
  ceilings (srp_of st c) = l -> Forall (fun q => is_Some (sems st !! q)) l ->
  wp (srp_exceeds_ceiling task t c) (fun _ st' => st' = st) st.
Proof.
  intros El Hl. unfold srp_exceeds_ceiling. wp_steps. rewrite El. destruct Hl as [|q l [s Hs] _]; wp_steps; [done|].
  apply (wp_get_sem _ _ _ _ Hs). by wp_steps.
Qed.

(** Task [t] passes the ceiling test. *)
Definition passes st t : Prop := wp (srp_exceeds_ceiling task t c) (fun ok _ => ok = true) st.

Lemma passes_woken st k t : passes (set_woken k st) t <-> passes st t.
Proof.
  unfold passes, srp_exceeds_ceiling, get_sem. rewrite !wp_bind, !wp_gets. simpl.
  destruct (ceilings (srp_of st c)) as [|q l]; [done|]. rewrite !wp_bind, !wp_gets. simpl.
  by destruct (sems st !! q).
Qed.

(** Waking the waiters touches nothing the protocol depends on, and reaches each
    one that passes. *)
Lemma wake_up_all_spec l st :
  Forall (fun q => is_Some (sems st !! q)) (ceilings (srp_of st c)) ->
  wp (wake_up_all task c l) (fun _ st' => exists k, st' = set_woken k st /\
    forall t, get_partition (task t) = c -> passes st t -> t ∈ l \/ t ∈ woken st -> t ∈ k) st.
Proof.
  revert st. induction l as [|u l IH]; intros st Hl; simpl; wp_steps.
  { exists (woken st). split; [by destruct st|]. by intros t _ _ [?%not_elem_of_nil|?]. }
  assert (forall st1, (exists k, st1 = set_woken k st) -> (forall t, t ∈ woken st -> t ∈ woken st1) ->
    (get_partition (task u) = c -> passes st u -> u ∈ woken st1) ->
    wp (wake_up_all task c l) (fun _ st' => exists k, st' = set_woken k st /\
      forall t, get_partition (task t) = c -> passes st t -> t ∈ u :: l \/ t ∈ woken st -> t ∈ k) st1) as Hrest.
  { intros st1 [k ->] Hk Hu. eapply wp_mono; [by apply IH|]. simpl. intros _ st' (k' & -> & Hk').
    exists k'. split; [done|]. intros t Hc Hp Hin. apply Hk'; [done|by apply passes_woken|].
    destruct Hin as [[->|Hin]%elem_of_cons|Hin]; auto. }
  unfold srp_wake_up. destruct (Z.eqb_spec c (get_partition (task u))) as [Hu|Hu]; simpl; wp_steps.
  - pose proof (exceeds_frame _ st u eq_refl Hl) as Hfr. rewrite wp_run in Hfr. destruct Hfr as (ok & st' & E & ->).
    apply wp_run. exists ok, st. split; [done|]. apply wp_when.
    assert (passes st u <-> ok = true) as Hok by (unfold passes, wp; by rewrite E).
    destruct ok; wp_steps; apply Hrest; simpl; eauto.
    + set_solver.
    + set_solver.
    + exists (woken st). by destruct st.
    + intros _ Hp. by apply Hok in Hp.
  - apply Hrest; [exists (woken st); by destruct st|done|congruence].
Qed.

(** Bookkeeping outside the protocol. *)
Lemma inv_quiet st st' r o :
  srp_inv (mk_sw st r o) -> ceilings (srp_of st' c) = ceilings (srp_of st c) -> sems st' = sems st ->
  srp_objects_in_use st' = srp_objects_in_use st -> srp_inv (mk_sw st' r o).
Proof.
  intros I El Es Ei. apply (inv_frame _ _ _ _ I); simpl; rewrite ?Es, ?Ei; [done|done| | | | |].
  - intros p t (s & Hs & ?). exists s. by rewrite Es in Hs.
  - apply (inv_opened _ I).
  - apply (inv_owner _ I).
  - apply (inv_count _ I).
  - intros t ->. by apply (running_keeps _ _ I).
Qed.

Lemma up_inv st o t p :
  srp_inv (mk_sw st (Some t) o) -> held_by st p t ->
  wp (sys_srp_up task c (Some p)) (fun ret st' => ret = 0 /\ unheld st' p /\
    srp_inv (mk_sw st' (Some t) o) /\
    forall u, u ∈ ceiling_blocked (srp_of st c) -> get_partition (task u) = c -> passes st' u -> u ∈ woken st') st.
Proof.
  intros I Hp. destruct (inv_opened _ I _ _ (inv_owner _ I _ _ Hp)) as (s & Hs & Hc & _). simpl in Hs.
  assert (p ∈ ceilings (srp_of st c)) as Hin by (apply (inv_list _ I); by exists t).
  unfold sys_srp_up, do_srp_up. rewrite wp_bind, (wp_get_sem _ _ _ _ Hs), Hc, Z.eqb_refl. wp_steps.
  apply wp_when. rewrite bool_decide_true by done. wp_steps. apply (wp_get_sem _ _ _ s); [done|]. unfold put_sem. wp_steps.
  pose proof (unlocked_inv _ _ _ _ _ I Hs) as I'. simpl. rewrite Z.eqb_refl. simpl.
  eapply wp_mono; [apply (wake_up_all_spec _ (unlocked st p s)), (listed_sems _ I')|]. simpl. intros _ st' (k & -> & Hk). wp_steps.
  split_and!; [done| |by apply (inv_quiet (unlocked st p s))|].
  - exists (set_owner None s). simpl. by rewrite lookup_insert_eq.
  - intros u Hu Hcu Hpu%passes_woken. simpl. auto.
Qed.

(** A task that leaves [srp_ceiling_block] may run. *)
Lemma dispatch_inv st r o t :
  srp_inv (mk_sw st r o) -> srp_task t ->
  wp (srp_ceiling_block task t c)
    (fun go st' => srp_inv (mk_sw st' (if go : bool then Some t else None) o)) st.
Proof.
  intros I Ht. pose proof Ht as (Hrt & Hnr & _ & _). unfold srp_ceiling_block. rewrite Hrt, Hnr. simpl.
  assert (forall st', ceilings (srp_of st' c) = ceilings (srp_of st c) -> sems st' = sems st ->
    srp_objects_in_use st' = srp_objects_in_use st -> srp_inv (mk_sw st' None o)) as Hnone.
  { intros st' E1 E2 E3. apply (inv_quiet st); [|done..]. apply (inv_frame _ _ _ _ I); try done; apply I. }
  assert ((forall p u, held_by st p u -> t <> u -> above (task t) (prio_of st p) = true) ->
          srp_inv (mk_sw st (Some t) o)) as Hgo.
  { intros Ha. apply (inv_frame _ _ _ _ I); try done; [apply I..|]. intros u [= <-]. done. }
  wp_steps. destruct (Z.eqb_spec (srp_objects_in_use st) 0) as [H0|_]; wp_steps.
  - apply Hgo. intros p u (s & Hs & _). pose proof (inv_count _ I). simpl in *.
    assert (sems st = ∅) as E by (apply map_size_empty_iff; lia). by rewrite E, lookup_empty in Hs.
  - pose proof (exceeds_frame _ st t eq_refl (listed_sems _ I)) as Hfr.
    rewrite wp_run in Hfr. destruct Hfr as (ok & st' & E & ->).
    apply wp_run. exists ok, st. split; [done|]. destruct ok; wp_steps.
    + apply Hgo. intros p u. apply (exceeds_above _ t p u I). apply wp_run. eauto.
    + unfold do_ceiling_block. wp_steps. apply Hnone; simpl; [by rewrite Z.eqb_refl|done|done].
Qed.

Lemma wp_result {A} (x : M srp_state A) Φ st a st' : wp x Φ st -> x st = Some (a, st') -> Φ a st'.
Proof. unfold wp. intros H E. by rewrite E in H. Qed.

Lemma step_inv w w' : srp_inv w -> srp_step w w' -> srp_inv w'.
Proof.
  intros I Hstep. destruct Hstep as
    [st st' r o p Hp E|st st' o t p Hp E|st st' r o p Hp E|st st' o t p ret Hin Hn E|st st' o t p ret Hp E
    |st st' r o t go Ht E|st st' r o t E|st r o].
  - exact (wp_result _ _ _ _ _ (create_inv _ _ _ _ I Hp) E).
  - exact (wp_result _ _ _ _ _ (open_inv _ _ _ _ I Hp) E eq_refl).
  - exact (wp_result _ _ _ _ _ (destroy_inv _ _ _ _ I Hp) E).
  - apply (wp_result _ _ _ _ _ (down_inv _ _ _ _ I Hin Hn) E).
  - apply (wp_result _ _ _ _ _ (up_inv _ _ _ _ I Hp) E).
  - exact (wp_result _ _ _ _ _ (dispatch_inv _ _ _ _ I Ht) E).
  - injection E as <-. apply (inv_quiet st); simpl; [done|by rewrite Z.eqb_refl|done|done].
  - apply (inv_frame _ _ _ _ I); try done; apply I.
Qed.

Lemma reachable_srp_inv w : srp_reachable w -> srp_inv w.
Proof.
  revert w. apply rtc_ind_r; [|intros w1 w2 _ Hs IH; by eapply step_inv].
  assert (forall p t, ~ held_by srp_init p t) as Hn by (intros p t (s & Hs & _); by inversion Hs).
  split; simpl; try done.
  - constructor.
  - constructor.
  - intros p. split; [by intros ?%not_elem_of_nil|]. intros [t Ht]. by destruct (Hn p t).
  - by intros t p ?%not_elem_of_nil.
  - intros p t Ht. by destruct (Hn p t).
  - intros p q t u Hp. by destruct (Hn p u).
Qed.


(** The system ceiling is right: in any such run the ceiling list links
    exactly the locked semaphores, each once, and no locked semaphore has a
    higher ceiling than the head of the list, with which a task is compared. *)
Theorem srp_system_ceiling w :
  srp_reachable w ->
  NoDup (ceilings (srp_of (sw_state w) c)) /\
  (forall p, p ∈ ceilings (srp_of (sw_state w) c) <-> exists t, held_by (sw_state w) p t) /\
  forall h l p, ceilings (srp_of (sw_state w) c) = h :: l -> p ∈ l ->
    srp_higher_prio (prio_of (sw_state w) p) (prio_of (sw_state w) h) = false.
Proof.
  intros I%reachable_srp_inv. split_and!; [apply (inv_nodup _ I)|apply (inv_list _ I)|].
  intros h l p E Hp. pose proof (inv_sorted _ I) as Hs. rewrite E in Hs. apply StronglySorted_inv in Hs as [_ Hs].
  rewrite Forall_forall in Hs. by apply Hs.
Qed.

(** No wake-up is lost: when the running task unlocks a semaphore, every task
    in the CPU's wait queue that passes the ceiling test afterwards has been
    handed to [default_wake_function]. *)
Theorem srp_up_wakes w t p :
  srp_reachable w -> sw_running w = Some t -> held_by (sw_state w) p t ->
  wp (sys_srp_up task c (Some p)) (fun ret st' => ret = 0 /\ unheld st' p /\
    forall u, u ∈ ceiling_blocked (srp_of (sw_state w) c) -> get_partition (task u) = c ->
      passes st' u -> u ∈ woken st') (sw_state w).
Proof.
  intros I%reachable_srp_inv Hr Hp. destruct w as [st r o]; simpl in *. subst r.
  eapply wp_mono; [by apply (up_inv _ _ _ _ I)|]. simpl. intros ret st' (? & ? & _ & ?). done.
Qed.

End Runs.
