(* ===== verification/Edf.v ===== *)
(** * Earliest-deadline-first priorities

    [edf_higher_prio] of src/litmus2010/litmus/edf_common.c, the comparison every
    EDF plugin orders its queues by, and the conditions under which it is an
    order.  Deadlines are compared with wrap-around, so the comparison is
    transitive only among tasks whose deadlines lie within half the range of
    [lt_t] of each other. *)

From S2P Require Import Prelude Task.
Open Scope Z_scope.

(** [T] maps the address of a task to its [task_struct]. *)
Definition edf_higher_prio (T : tid -> task_struct) (first second : option tid) : bool :=
  (* There is no point in comparing a task to itself. *)
  if match first with Some f => bool_decide (second = Some f) | None => false end then false
  else
    (* Check for inherited priorities. *)
    let first_task := f ← first; Some (default f (inh_task (T f))) in
    match first_task with
    | None => false
    | Some ft =>
        match second with
        | None => true
        | Some s =>
            let st := default s (inh_task (T s)) in
            negb (is_realtime (T st))
            || earlier_deadline (T ft) (T st)
            || ((get_deadline (T ft) =? get_deadline (T st))
                && ((pid (T ft) <? pid (T st))
                    || ((pid (T ft) =? pid (T st))
                        && match inh_task (T s) with None => true | Some _ => false end)))
        end
    end.

Definition edf_ready_order (T : tid -> task_struct) (a b : tid) : bool :=
  edf_higher_prio T (Some a) (Some b).

(** ** Time comparisons in a window *)
Section Window.

Lemma u64_id x : is_u64 x -> u64 x = x.
Proof. unfold is_u64, u64. intros. by rewrite Z.mod_small. Qed.

Lemma s64_small x : -two63 <= x < two63 -> s64 x = x.
Proof.
  unfold s64, u64, two63, two64. intros H. destruct (Z.ltb_spec x 0).
  - rewrite (Z.mod_eq x 18446744073709551616) by lia.
    assert (x / 18446744073709551616 = -1) as ->
      by (symmetry; apply (Z.div_unique _ _ _ (x + 18446744073709551616)); lia).
    destruct (Z.ltb_spec (x - 18446744073709551616 * -1) 9223372036854775808); lia.
  - rewrite Z.mod_small by lia. destruct (Z.ltb_spec x 9223372036854775808); lia.
Qed.

(** Signed readings differ from the words by a multiple of [2^64]. *)
Lemma s64_shift x k : s64 (x + k * two64) = s64 x.
Proof. unfold s64, u64. by rewrite Z_mod_plus_full. Qed.

Lemma s64_cong x : exists k, s64 x = x + k * two64.
Proof.
  unfold s64, u64. rewrite Z.mod_eq by done. destruct (_ <? _);
    [exists (- (x / two64))|exists (- (x / two64) - 1)]; lia.
Qed.

Lemma s64_sub a b : s64 (s64 a - s64 b) = s64 (a - b).
Proof.
  destruct (s64_cong a) as [i ->]. destruct (s64_cong b) as [j ->].
  rewrite <- (s64_shift (a - b) (i - j)). f_equal. lia.
Qed.

Lemma lt_before_window a b : Z.abs (a - b) < two63 -> lt_before a b = (a <? b).
Proof.
  unfold lt_before, lt_after. intros H. rewrite s64_sub, s64_small by lia.
  destruct (Z.ltb_spec (a - b) 0), (Z.ltb_spec a b); lia.
Qed.

Lemma lt_before_eq_window a b : Z.abs (a - b) < two63 -> lt_before_eq a b = (a <=? b).
Proof.
  unfold lt_before_eq, lt_after_eq. intros H. rewrite s64_sub, s64_small by lia.
  destruct (Z.leb_spec 0 (b - a)), (Z.leb_spec a b); lia.
Qed.

End Window.

(** ** The order of the ready queue *)
Section Order.
Variable T : tid -> task_struct.
Implicit Types a b c : tid.

(** The task whose priority [a] runs with. *)
Definition eff a : tid := default a (inh_task (T a)).

(** Smaller keys first: effective deadline, then effective PID, then the task
    that inherits. *)
Definition edf_key a : Z * Z * bool :=
  (get_deadline (T (eff a)), pid (T (eff a)), match inh_task (T a) with None => true | Some _ => false end).

Definition key_lt (x y : Z * Z * bool) : bool :=
  let '(d1, p1, i1) := x in
  let '(d2, p2, i2) := y in
  (d1 <? d2) || ((d1 =? d2) && ((p1 <? p2) || ((p1 =? p2) && (negb i1 && i2)))).

(** Where the comparison is an order: the effective tasks are real-time tasks
    with deadlines in a window of half the range of [lt_t]. *)
Definition edf_dom (base : Z) a : Prop :=
  is_realtime (T (eff a)) = true /\ base <= get_deadline (T (eff a)) < base + two63.

Definition pids_unique : Prop := forall a b, pid (T a) = pid (T b) -> a = b.

Lemma key_lt_irrefl x : key_lt x x = false.
Proof. destruct x as [[d p] []]; simpl; rewrite !Z.ltb_irrefl, !Z.eqb_refl; done. Qed.

Lemma edf_ready_order_key base a b :
  pids_unique -> edf_dom base a -> edf_dom base b ->
  edf_ready_order T a b = key_lt (edf_key a) (edf_key b).
Proof.
  intros Hu [_ Ha] [Hr Hb]. unfold edf_ready_order, edf_higher_prio, edf_key.
  case_bool_decide as E; [injection E as ->; by rewrite key_lt_irrefl|]. simpl.
  fold (eff a) (eff b). unfold earlier_deadline. rewrite Hr, lt_before_window by lia. simpl.
  destruct (get_deadline (T (eff a)) <? get_deadline (T (eff b))); [done|]. simpl. f_equal. f_equal.
  destruct (Z.eqb_spec (pid (T (eff a))) (pid (T (eff b)))) as [Ep|]; [|done]. simpl.
  destruct (inh_task (T b)) eqn:Eb; [by rewrite andb_false_r|].
  destruct (inh_task (T a)) eqn:Ea; [done|].
  apply Hu in Ep. unfold eff in Ep. rewrite Ea, Eb in Ep. simpl in Ep. congruence.
Qed.

Lemma key_lt_trans x y z : key_lt x y = true -> key_lt y z = true -> key_lt x z = true.
Proof.
  destruct x as [[d p] i], y as [[e q] j], z as [[f r] k]. simpl.
  rewrite !orb_true_iff, !andb_true_iff, !orb_true_iff, !andb_true_iff, !negb_true_iff, !Z.ltb_lt, !Z.eqb_eq.
  intros. destruct i, j, k; intuition lia.
Qed.

Lemma key_lt_neg_trans x y z : key_lt x y = false -> key_lt y z = false -> key_lt x z = false.
Proof.
  destruct x as [[d p] i], y as [[e q] j], z as [[f r] k]. simpl.
  rewrite !orb_false_iff, !andb_false_iff, !orb_false_iff, !andb_false_iff, !negb_false_iff, !Z.ltb_ge, !Z.eqb_neq.
  intros. destruct i, j, k; intuition lia.
Qed.

Lemma edf_swo base : pids_unique -> swo_on (edf_dom base) (edf_ready_order T).
Proof.
  intros Hu. split.
  - intros a Ha. by rewrite (edf_ready_order_key base), key_lt_irrefl.
  - intros a b c Ha Hb Hc. rewrite !(edf_ready_order_key base) by done. apply key_lt_trans.
  - intros a b c Ha Hb Hc. rewrite !(edf_ready_order_key base) by done. apply key_lt_neg_trans.
Qed.

(** Without inheritance the order is total: ties are broken by PID. *)
Lemma edf_total base a b :
  pids_unique -> edf_dom base a -> edf_dom base b -> inh_task (T a) = None -> inh_task (T b) = None ->
  a <> b -> edf_ready_order T a b = negb (edf_ready_order T b a).
Proof.
  intros Hu Ha Hb Ia Ib Hne. rewrite !(edf_ready_order_key base) by done.
  unfold edf_key, eff. rewrite Ia, Ib. simpl.
  assert (pid (T a) <> pid (T b)) by (intros E; by apply Hne, Hu).
  repeat match goal with |- context [?x <? ?y] => destruct (Z.ltb_spec x y)
    | |- context [?x =? ?y] => destruct (Z.eqb_spec x y) end; simpl; try done; lia.
Qed.

End Order.

(** The order depends on a task only through the fields the comparison reads. *)
Definition same_prio (t u : task_struct) : Prop :=
  inh_task t = inh_task u /\ pid t = pid u /\ is_realtime t = is_realtime u /\ get_deadline t = get_deadline u.

Lemma edf_higher_prio_ext T T' a b :
  (forall t, same_prio (T t) (T' t)) -> edf_higher_prio T a b = edf_higher_prio T' a b.
Proof.
  intros H. unfold edf_higher_prio. destruct (match a with Some f => _ | None => false end); [done|].
  destruct a as [a|]; [|done]. simpl. destruct (H a) as (-> & _). destruct b as [b|]; [|done].
  destruct (H b) as (-> & _). unfold earlier_deadline.
  destruct (H (default a (inh_task (T' a)))) as (_ & -> & _ & ->).
  by destruct (H (default b (inh_task (T' b)))) as (_ & -> & -> & ->).
Qed.
