(* ===== verification/Kernel.v ===== *)
(** * The kernel state the schedulers share

    The tasks, the real-time domains, the release heaps, the clock and the
    timers, and the code that works on them independently of any plugin:
    [preempt_if_preemptable] (src/litmus2010/litmus/sched_plugin.c) and the
    enforcement timers (litmus/budget.c).

    Every read of the clock may see a later time than the one before: [elapse]
    lists by how much the clock advances before each coming read.  Locks are
    not part of the state: a handler runs with its lock held and with
    interrupts off, so it is one step. *)

From S2P Require Import Prelude Task PrioQueue.
Open Scope Z_scope.

Definition RELEASE_QUEUE_SLOTS : Z := 127.

(** [rt_domain_t].  A release heap is named by the task that owns it; the slots
    list the release heaps.  [order], [check_resched] and [release_jobs] are
    arguments of the operations below. *)
Record rt_domain (Q : Type -> Type) : Type := mk_rt_domain {
  ready_queue : Q tid;
  release_queue : Z -> list tid;  (* slot[RELEASE_QUEUE_SLOTS], by owner *)
  tobe_released : list tid;
  release_master : Z
}.
Arguments mk_rt_domain {Q}.
Arguments ready_queue {Q}.
Arguments release_queue {Q}.
Arguments tobe_released {Q}.
Arguments release_master {Q}.

Definition set_ready_queue {Q : Type -> Type} (v : Q tid) (r : rt_domain Q) : rt_domain Q :=
  mk_rt_domain v (release_queue r) (tobe_released r) (release_master r).
Definition set_release_queue {Q : Type -> Type} (v : Z -> list tid) (r : rt_domain Q) : rt_domain Q :=
  mk_rt_domain (ready_queue r) v (tobe_released r) (release_master r).
Definition set_tobe_released {Q : Type -> Type} (v : list tid) (r : rt_domain Q) : rt_domain Q :=
  mk_rt_domain (ready_queue r) (release_queue r) v (release_master r).
Definition set_release_master {Q : Type -> Type} (v : Z) (r : rt_domain Q) : rt_domain Q :=
  mk_rt_domain (ready_queue r) (release_queue r) (tobe_released r) v.

(** [struct release_heap]; every task owns one ([rel_heap]). *)
Record release_heap (Q : Type -> Type) : Type := mk_release_heap {
  rh_time : Z;
  rh_heap : Q tid;
  rh_timer : option Z;  (* armed on this CPU *)
  rh_dom : Z
}.
Arguments mk_release_heap {Q}.
Arguments rh_time {Q}.
Arguments rh_heap {Q}.
Arguments rh_timer {Q}.
Arguments rh_dom {Q}.

Definition set_rh_time {Q : Type -> Type} (v : Z) (r : release_heap Q) : release_heap Q :=
  mk_release_heap v (rh_heap r) (rh_timer r) (rh_dom r).
Definition set_rh_heap {Q : Type -> Type} (v : Q tid) (r : release_heap Q) : release_heap Q :=
  mk_release_heap (rh_time r) v (rh_timer r) (rh_dom r).
Definition set_rh_timer {Q : Type -> Type} (v : option Z) (r : release_heap Q) : release_heap Q :=
  mk_release_heap (rh_time r) (rh_heap r) v (rh_dom r).
Definition set_rh_dom {Q : Type -> Type} (v : Z) (r : release_heap Q) : release_heap Q :=
  mk_release_heap (rh_time r) (rh_heap r) (rh_timer r) v.

(** [struct enforcement_timer] (litmus/budget.c) *)
Record enforcement_timer : Type := mk_et { armed : bool; et_expires : Z }.

(** The state of the kernel the scheduling code works on.  [P] is the state of
    the active plugin. *)
Record world (Q : Type -> Type) (P : Type) : Type := mk_world {
  tasks : tid -> task_struct;
  doms : Z -> rt_domain Q;
  rheaps : tid -> release_heap Q;
  clock : Z;
  elapse : list Z;  (* time passed before each coming read of the clock *)
  this_cpu : Z;  (* smp_processor_id() *)
  curr : Z -> tid;  (* the task each CPU runs *)
  ipis : list Z;  (* CPUs a reschedule IPI was sent to *)
  budget_timer : Z -> enforcement_timer;
  tick_period : Z;
  plugin : P
}.
Arguments mk_world {Q} {P}.
Arguments tasks {Q} {P}.
Arguments doms {Q} {P}.
Arguments rheaps {Q} {P}.
Arguments clock {Q} {P}.
Arguments elapse {Q} {P}.
Arguments this_cpu {Q} {P}.
Arguments curr {Q} {P}.
Arguments ipis {Q} {P}.
Arguments budget_timer {Q} {P}.
Arguments tick_period {Q} {P}.
Arguments plugin {Q} {P}.

Definition set_tasks {Q : Type -> Type} {P : Type} (v : tid -> task_struct) (r : world Q P) : world Q P :=
  mk_world v (doms r) (rheaps r) (clock r) (elapse r) (this_cpu r) (curr r) (ipis r) (budget_timer r) (tick_period r) (plugin r).
Definition set_doms {Q : Type -> Type} {P : Type} (v : Z -> rt_domain Q) (r : world Q P) : world Q P :=
  mk_world (tasks r) v (rheaps r) (clock r) (elapse r) (this_cpu r) (curr r) (ipis r) (budget_timer r) (tick_period r) (plugin r).
Definition set_rheaps {Q : Type -> Type} {P : Type} (v : tid -> release_heap Q) (r : world Q P) : world Q P :=
  mk_world (tasks r) (doms r) v (clock r) (elapse r) (this_cpu r) (curr r) (ipis r) (budget_timer r) (tick_period r) (plugin r).
Definition set_clock {Q : Type -> Type} {P : Type} (v : Z) (r : world Q P) : world Q P :=
  mk_world (tasks r) (doms r) (rheaps r) v (elapse r) (this_cpu r) (curr r) (ipis r) (budget_timer r) (tick_period r) (plugin r).
Definition set_elapse {Q : Type -> Type} {P : Type} (v : list Z) (r : world Q P) : world Q P :=
  mk_world (tasks r) (doms r) (rheaps r) (clock r) v (this_cpu r) (curr r) (ipis r) (budget_timer r) (tick_period r) (plugin r).
Definition set_this_cpu {Q : Type -> Type} {P : Type} (v : Z) (r : world Q P) : world Q P :=
  mk_world (tasks r) (doms r) (rheaps r) (clock r) (elapse r) v (curr r) (ipis r) (budget_timer r) (tick_period r) (plugin r).
Definition set_curr {Q : Type -> Type} {P : Type} (v : Z -> tid) (r : world Q P) : world Q P :=
  mk_world (tasks r) (doms r) (rheaps r) (clock r) (elapse r) (this_cpu r) v (ipis r) (budget_timer r) (tick_period r) (plugin r).
Definition set_ipis {Q : Type -> Type} {P : Type} (v : list Z) (r : world Q P) : world Q P :=
  mk_world (tasks r) (doms r) (rheaps r) (clock r) (elapse r) (this_cpu r) (curr r) v (budget_timer r) (tick_period r) (plugin r).
Definition set_budget_timer {Q : Type -> Type} {P : Type} (v : Z -> enforcement_timer) (r : world Q P) : world Q P :=
  mk_world (tasks r) (doms r) (rheaps r) (clock r) (elapse r) (this_cpu r) (curr r) (ipis r) v (tick_period r) (plugin r).
Definition set_tick_period {Q : Type -> Type} {P : Type} (v : Z) (r : world Q P) : world Q P :=
  mk_world (tasks r) (doms r) (rheaps r) (clock r) (elapse r) (this_cpu r) (curr r) (ipis r) (budget_timer r) v (plugin r).
Definition set_plugin {Q : Type -> Type} {P : Type} (v : P) (r : world Q P) : world Q P :=
  mk_world (tasks r) (doms r) (rheaps r) (clock r) (elapse r) (this_cpu r) (curr r) (ipis r) (budget_timer r) (tick_period r) v.


(** Updating a per-CPU or per-task array. *)
Definition upd {K} `{EqDecision K} {A} (f : K -> A) (k : K) (a : A) : K -> A :=
  fun x => if decide (x = k) then a else f x.

Lemma upd_eq {K} `{EqDecision K} {A} (f : K -> A) k a : upd f k a k = a.
Proof. unfold upd. by rewrite decide_True. Qed.

Lemma upd_ne {K} `{EqDecision K} {A} (f : K -> A) k a x : x <> k -> upd f k a x = f x.
Proof. intros. unfold upd. by rewrite decide_False. Qed.

Section Kernel.
Context {Q : Type -> Type} {P : Type}.
Abbreviation world := (world Q P).
Abbreviation K := (M world).

Definition get_task (t : tid) : K task_struct := gets (fun w => tasks w t).
Definition upd_task (t : tid) (f : task_struct -> task_struct) : K unit :=
  modify (fun w => set_tasks (upd (tasks w) t (f (tasks w t))) w).
Definition get_dom (d : Z) : K (rt_domain Q) := gets (fun w => doms w d).
Definition upd_dom (d : Z) (f : rt_domain Q -> rt_domain Q) : K unit :=
  modify (fun w => set_doms (upd (doms w) d (f (doms w d))) w).
Definition get_rheap (o : tid) : K (release_heap Q) := gets (fun w => rheaps w o).
Definition upd_rheap (o : tid) (f : release_heap Q -> release_heap Q) : K unit :=
  modify (fun w => set_rheaps (upd (rheaps w) o (f (rheaps w o))) w).

(** [current] *)
Definition get_current : K tid := gets (fun w => curr w (this_cpu w)).

(** [litmus_clock()] *)
Definition litmus_clock : K Z := fun w =>
  match elapse w with
  | [] => Some (clock w, w)
  | d :: ds => Some (clock w + d, set_elapse ds (set_clock (clock w + d) w))
  end.

Definition set_tsk_need_resched (t : tid) : K unit := upd_task t (set_need_resched true).
Definition smp_send_reschedule (c : Z) : K unit := modify (fun w => set_ipis (c :: ipis w) w).

(** ** sched_plugin.c *)
Definition preempt_if_preemptable (t : option tid) (on_cpu : Z) : K unit :=
  me ← gets this_cpu;
  if me =? on_cpu then
    (* local CPU case *)
    match t with
    | Some t =>
        x ← get_task t;
        if is_user_np x then upd_task t request_exit_np
        else when (negb (is_kernel_np x)) (set_tsk_need_resched t)
    | None => c ← get_current; set_tsk_need_resched c
    end
  else
    (* remote CPU case *)
    send_ipi ←
      match t with
      | None => mret true
      | Some t =>
          x ← get_task t;
          when (is_user_np x) (upd_task t request_exit_np);;
          x ← get_task t;
          mret (negb (is_np x) && negb (is_kernel_np x))
      end;
    when send_ipi (smp_send_reschedule on_cpu).

(** ** budget.c *)
Definition get_et : K enforcement_timer := gets (fun w => budget_timer w (this_cpu w)).
Definition put_et (e : enforcement_timer) : K unit :=
  modify (fun w => set_budget_timer (upd (budget_timer w) (this_cpu w) e) w).

Definition on_enforcement_timeout : K unit :=
  e ← get_et;
  put_et (mk_et false (et_expires e));;
  c ← get_current;
  set_tsk_need_resched c.

(** [cancelled] is the result of [hrtimer_try_to_cancel]: 1 when the timer was
    active, 0 when it was not, -1 when its callback is running *)
Definition cancel_enforcement_timer (cancelled : Z) : K unit :=
  e ← get_et;
  when (armed e)
    (BUG_ON (cancelled =? 0);;
     BUG_ON (cancelled =? -1);;
     put_et (mk_et false (et_expires e))).

Definition arm_enforcement_timer (t : tid) : K unit :=
  x ← get_task t;
  BUG_ON (budget_exhausted x && negb (is_np x));;
  when (negb (is_np x))
    (now ← litmus_clock;
     put_et (mk_et true (u64 (now + budget_remaining x)))).

Definition update_enforcement_timer (cancelled : Z) (t : option tid) : K unit :=
  e ← get_et;
  match t with
  | Some t =>
      x ← get_task t;
      if budget_precisely_enforced x then arm_enforcement_timer t
      else when (armed e) (cancel_enforcement_timer cancelled)
  | None => when (armed e) (cancel_enforcement_timer cancelled)
  end.

End Kernel.
