(* ===== verification/RtDomain.v ===== *)
(** * Real-time domains: ready queue and release queue

    src/litmus2010/litmus/rt_domain.c and include/litmus/rt_domain.h.  A domain
    holds the tasks that are ready and, in a hash table of release heaps, the
    tasks that wait for the release of their next job.  The function pointers
    of [rt_domain_t] ([order], [check_resched], [release_jobs]) are the
    parameters of the section. *)

From S2P Require Import Prelude Task PrioQueue Kernel.
Open Scope Z_scope.

(** [check_resched] of a domain that was initialised with none *)
Definition dummy_resched {Q : Type -> Type} {P : Type} (d : Z) : M (world Q P) bool := mret false.

Section Domain.
Context {Q : Type -> Type} `{PrioQueue Q} {P : Type}.
Abbreviation world := (world Q P).
Abbreviation K := (M world).

Variable order : (tid -> task_struct) -> tid -> tid -> bool.
Variable check_resched : Z -> K bool.
Variable release_jobs : Z -> tid -> K unit.

(** ** The ready queue *)

(** [bheap_insert(rt->order, &rt->ready_queue, tsk_rt(t)->heap_node)] *)
Definition ready_insert (d : Z) (t : tid) : K unit :=
  T ← gets tasks;
  upd_dom d (fun r => set_ready_queue (pq_insert (order T) t (ready_queue r)) r);;
  upd_task t (set_in_heap true).

Definition __add_ready (d : Z) (new : tid) : K unit :=
  x ← get_task new;
  BUG_ON (in_heap x);;
  ready_insert d new;;
  _ ← check_resched d;
  mret tt.

(** [tasks] is the heap of the release heap [o]; [bheap_union] leaves it empty *)
Definition __merge_ready (d : Z) (o : tid) : K unit :=
  T ← gets tasks;
  h ← get_rheap o;
  upd_dom d (fun r => set_ready_queue (pq_union (order T) (ready_queue r) (rh_heap h)) r);;
  upd_rheap o (set_rh_heap pq_init);;
  _ ← check_resched d;
  mret tt.

(** [bheap_peek] may move the minimum into the cache of the heap. *)
Definition __next_ready (d : Z) : K (option tid) :=
  T ← gets tasks;
  r ← get_dom d;
  let '(hn, q) := pq_peek (order T) (ready_queue r) in
  upd_dom d (set_ready_queue q);;
  mret hn.

Definition __peek_ready : Z -> K (option tid) := __next_ready.

Definition __take_ready (d : Z) : K (option tid) :=
  T ← gets tasks;
  r ← get_dom d;
  let '(hn, q) := pq_take (order T) (ready_queue r) in
  upd_dom d (set_ready_queue q);;
  match hn with
  | Some t => upd_task t (set_in_heap false);; mret (Some t)
  | None => mret None
  end.

Definition is_queued (t : tid) : K bool := x ← get_task t; mret (in_heap x).

(** [bheap_delete] walks the root list of the ready queue until it finds the
    node, so a task that is queued elsewhere faults. *)
Definition remove (d : Z) (t : tid) : K unit :=
  T ← gets tasks;
  r ← get_dom d;
  q ← of_option (pq_delete (order T) (fun x => bool_decide (x = t)) (ready_queue r));
  upd_dom d (set_ready_queue q);;
  upd_task t (set_in_heap false).

Definition __jobs_pending (d : Z) : K bool := r ← get_dom d; mret (negb (pq_empty (ready_queue r))).

(** With the lock of the domain taken and released. *)
Definition add_ready : Z -> tid -> K unit := __add_ready.
Definition merge_ready : Z -> tid -> K unit := __merge_ready.
Definition take_ready : Z -> K (option tid) := __take_ready.
Definition jobs_pending : Z -> K bool := __jobs_pending.

Definition default_release_jobs : Z -> tid -> K unit := merge_ready.

(** ** The release queue *)
Definition time2slot (tick time : Z) : Z := u32 (time2quanta tick time FLOOR) `mod` RELEASE_QUEUE_SLOTS.

(** The walk over a slot: the release heaps before the position the loop stops
    at, the heap for the release time if there is one, and the rest. *)
Fixpoint scan_slot (R : tid -> Z) (release_time : Z) (l : list tid)
  : list tid * option tid * list tid :=
  match l with
  | [] => ([], None, [])
  | rh :: l' =>
      if release_time =? R rh then ([], Some rh, l)        (* perfect match *)
      else if lt_before release_time (R rh) then ([], None, l)  (* already in the future *)
      else let '(pre, hit, post) := scan_slot R release_time l' in (rh :: pre, hit, post)
  end.

Definition get_release_heap (d : Z) (t : tid) (use_task_heap : bool) : K (option tid) :=
  x ← get_task t;
  tick ← gets tick_period;
  r ← get_dom d;
  R ← gets (fun w o => rh_time (rheaps w o));
  let release_time := get_release x in
  let slot := time2slot tick release_time in
  let '(pre, heap, post) := scan_slot R release_time (release_queue r slot) in
  match heap with
  | Some rh => mret (Some rh)
  | None =>
      if use_task_heap then
        (* use pre-allocated release heap *)
        upd_rheap t (fun h => set_rh_time release_time (set_rh_dom d h));;
        (* add to release queue *)
        upd_dom d (fun r => set_release_queue (upd (release_queue r) slot (pre ++ t :: post)) r);;
        mret (Some t)
      else mret None
  end.

(** [hrtimer_cancel] returns whether the timer was active. *)
Definition reinit_release_heap (t : tid) : K unit :=
  h ← get_rheap t;
  upd_rheap t (set_rh_timer None);;
  BUG_ON (match rh_timer h with Some _ => true | None => false end);;
  upd_rheap t (set_rh_heap pq_init).

(** [bheap_insert(rt->order, &rh->heap, tsk_rt(t)->heap_node)] *)
Definition release_insert (o t : tid) : K unit :=
  T ← gets tasks;
  upd_rheap o (fun h => set_rh_heap (pq_insert (order T) t (rh_heap h)) h);;
  upd_task t (set_in_heap true).

(** One round of the loop of [arm_release_timer_on]. *)
Definition arm_one (d target_cpu : Z) (t : tid) : K unit :=
  rh ← get_release_heap d t false;
  rh ← match rh with
       | Some rh => mret (Some rh)
       | None => reinit_release_heap t;; get_release_heap d t true
       end;
  rh ← of_option rh;
  release_insert rh t;;
  (* only the owner arms the timer *)
  when (bool_decide (rh = t))
    (r ← get_dom d;
     me ← gets this_cpu;
     let on := if (release_master r =? NO_CPU) && (target_cpu =? NO_CPU) then me
               else (* target_cpu overrides release master *)
                 if negb (target_cpu =? NO_CPU) then target_cpu else release_master r in
     upd_rheap rh (set_rh_timer (Some on))).

Fixpoint arm_list (d target_cpu : Z) (l : list tid) : K unit :=
  match l with
  | [] => mret tt
  | t :: l => arm_one d target_cpu t;; arm_list d target_cpu l
  end.

Definition arm_release_timer_on (d target_cpu : Z) : K unit :=
  r ← get_dom d;
  upd_dom d (set_tobe_released []);;
  arm_list d target_cpu (tobe_released r).

Definition arm_release_timer (d : Z) : K unit := arm_release_timer_on d NO_CPU.

Definition __add_release_on (d : Z) (t : tid) (target_cpu : Z) : K unit :=
  upd_dom d (fun r => set_tobe_released (t :: tobe_released r) r);;
  upd_task t (set_domain_of d);;
  arm_release_timer_on d target_cpu.

Definition __add_release (d : Z) (t : tid) : K unit :=
  upd_dom d (fun r => set_tobe_released (t :: tobe_released r) r);;
  upd_task t (set_domain_of d);;
  arm_release_timer d.

Definition add_release : Z -> tid -> K unit := __add_release.
Definition add_release_on : Z -> tid -> Z -> K unit := __add_release_on.

(** The timer of the release heap [o] fires: the timer is no longer active, the
    heap leaves the release queue and its tasks are released. *)
Definition on_release_timer (o : tid) : K unit :=
  h ← get_rheap o;
  upd_rheap o (set_rh_timer None);;
  upd_dom (rh_dom h) (fun r =>
    set_release_queue (fun i => filter (fun x => x <> o) (release_queue r i)) r);;
  release_jobs (rh_dom h) o.

(** [rt_domain_init] *)
Definition rt_domain_init (d : Z) : K unit :=
  upd_dom d (fun _ => mk_rt_domain pq_init (fun _ => []) [] NO_CPU).

End Domain.
