(* ===== verification/RtInv.v ===== *)
(** * What the real-time domains guarantee

    The invariant [dom_ok] of the ready and release queues of all domains, and
    the effect of every operation of RtDomain.v on it.  The effect is stated
    through [place]: where a queued task is.  An operation moves one task from
    one place to another and leaves all others where they are. *)

From stdpp Require Import sorting.
From S2P Require Import Prelude Task Edf PrioQueue Kernel RtDomain.
Open Scope Z_scope.

(** The part of a task no queue operation and no preemption request changes. *)
Definition core (x : task_struct) : task_struct :=
  set_need_resched false (set_in_heap false (set_domain_of 0
    (set_ctrl_page ((fun c => mk_ctrl (np_flag c) false) <$> ctrl_page x) x))).

(** A function that treats a task through [core] respects it. *)
Lemma core_congr f x y : (forall z, core (f z) = core (f (core z))) -> core x = core y -> core (f x) = core (f y).
Proof. intros Hf E. by rewrite (Hf x), E, <- Hf. Qed.

(** Proves the condition of [core_congr] for a function made of field updates. *)
Ltac core_tac :=
  intros []; match goal with c : option control_page |- _ => destruct c end; reflexivity.

Inductive place : Type :=
  | PReady (d : Z)             (* in the ready queue of domain [d] *)
  | PRelease (d : Z) (o : tid) (* in the release heap [o] of domain [d] *).

#[global] Instance place_eq_dec : EqDecision place.
Proof. solve_decision. Defined.

Section Invariant.
Context {Q : Type -> Type} `{PrioQueueLaws Q} {P : Type}.
Abbreviation world := (world Q P).
Abbreviation K := (M world).

Variable order : (tid -> task_struct) -> tid -> tid -> bool.
(** The tasks [order] orders. *)
Variable Dm : (tid -> task_struct) -> tid -> Prop.

Hypothesis order_core : forall T T' a b,
  (forall x, core (T x) = core (T' x)) -> order T a b = order T' a b.
Hypothesis Dm_core : forall T T' a,
  (forall x, core (T x) = core (T' x)) -> Dm T a -> Dm T' a.

Implicit Types (w : world) (t o : tid) (d i : Z).

Definition ready_elems w d : list tid := pq_elems (ready_queue (doms w d)).
Definition rel_elems w o : list tid := pq_elems (rh_heap (rheaps w o)).
Definition active w o : Prop := is_Some (rh_timer (rheaps w o)).
Definition slot_of w o : Z := time2slot (tick_period w) (rh_time (rheaps w o)).

Definition at_place w t (p : place) : Prop :=
  match p with
  | PReady d => t ∈ ready_elems w d
  | PRelease d o => active w o /\ rh_dom (rheaps w o) = d /\ t ∈ rel_elems w o
  end.

Record dom_ok w : Prop := {
  (* a queued task is in one place, and its heap node says it is queued *)
  qo_unique t p p' : at_place w t p -> at_place w t p' -> p = p';
  qo_heap t : in_heap (tasks w t) = true <-> exists p, at_place w t p;
  qo_nodup_ready d : NoDup (ready_elems w d);
  qo_nodup_rel o : active w o -> NoDup (rel_elems w o);
  (* the slots list the active release heaps, by release time *)
  qo_slot d i o :
    o ∈ release_queue (doms w d) i <-> active w o /\ rh_dom (rheaps w o) = d /\ slot_of w o = i;
  qo_sorted d i :
    StronglySorted (fun a b => rh_time (rheaps w a) < rh_time (rheaps w b)) (release_queue (doms w d) i);
  (* a release heap holds its owner, and tasks with its release time *)
  qo_owner o : active w o -> o ∈ rel_elems w o;
  qo_time o t : active w o -> t ∈ rel_elems w o -> get_release (tasks w t) = rh_time (rheaps w o);
  qo_window o : active w o -> 0 <= rh_time (rheaps w o) < two63;
  qo_tobe d : tobe_released (doms w d) = [];
  (* the heaps are ordered *)
  qo_ready_wf d : pq_wf (Dm (tasks w)) (order (tasks w)) (ready_queue (doms w d));
  qo_rel_wf o : active w o -> pq_wf (Dm (tasks w)) (order (tasks w)) (rh_heap (rheaps w o))
}.

(** What stays the same besides the queues. *)
Record same_env w w' : Prop := {
  se_core x : core (tasks w' x) = core (tasks w x);
  se_clock : clock w' = clock w;
  se_elapse : elapse w' = elapse w;
  se_cpu : this_cpu w' = this_cpu w;
  se_curr : curr w' = curr w;
  se_tick : tick_period w' = tick_period w;
  se_plugin : plugin w' = plugin w
}.

(** The task [t] is moved to [p] (out of all queues if [p] is [None]). *)
Record moved t (p : option place) w w' : Prop := {
  mv_env : same_env w w';
  mv_at x q : at_place w' x q <-> if decide (x = t) then p = Some q else at_place w x q
}.

(** Nothing is moved. *)
Record quiet w w' : Prop := {
  qt_env : same_env w w';
  qt_at x q : at_place w' x q <-> at_place w x q
}.

(** What a domain expects of [check_resched]: it asks for preemptions but
    leaves the queues alone. *)
Definition calm (c : Z -> K bool) : Prop :=
  forall d w, swo_on (Dm (tasks w)) (order (tasks w)) -> dom_ok w ->
    wp (c d) (fun _ w' => quiet w w' /\ dom_ok w') w.

Lemma same_env_refl w : same_env w w.
Proof. done. Qed.

Lemma same_env_trans w1 w2 w3 : same_env w1 w2 -> same_env w2 w3 -> same_env w1 w3.
Proof. intros [] []. split; intros; etransitivity; eauto. Qed.

Lemma quiet_refl w : quiet w w.
Proof. done. Qed.

Lemma quiet_trans w1 w2 w3 : quiet w1 w2 -> quiet w2 w3 -> quiet w1 w3.
Proof.
  intros [E1 A1] [E2 A2]. split; [by eapply same_env_trans|]. intros x q. by rewrite A2, A1.
Qed.

Lemma moved_quiet t p w1 w2 w3 : moved t p w1 w2 -> quiet w2 w3 -> moved t p w1 w3.
Proof.
  intros [E1 A1] [E2 A2]. split; [by eapply same_env_trans|]. intros x q. by rewrite A2, A1.
Qed.

Lemma quiet_moved t p w1 w2 w3 : quiet w1 w2 -> moved t p w2 w3 -> moved t p w1 w3.
Proof.
  intros [E1 A1] [E2 A2]. split; [by eapply same_env_trans|]. intros x q. rewrite A2. by case_decide.
Qed.

Lemma moved_trans t p p' w1 w2 w3 : moved t p w1 w2 -> moved t p' w2 w3 -> moved t p' w1 w3.
Proof.
  intros [E1 A1] [E2 A2]. split; [by eapply same_env_trans|]. intros x q. rewrite A2.
  case_decide; [done|]. rewrite A1. by rewrite decide_False.
Qed.

(** ** Fields of [core] *)
Lemma core_field {A} (f : task_struct -> A) x y :
  (forall z, f (core z) = f z) -> core x = core y -> f x = f y.
Proof. intros Hf E. by rewrite <- (Hf x), E, Hf. Qed.

Lemma swo_core w w' :
  (forall x, core (tasks w' x) = core (tasks w x)) ->
  swo_on (Dm (tasks w)) (order (tasks w)) -> swo_on (Dm (tasks w')) (order (tasks w')).
Proof.
  intros Hc [I T N].
  assert (forall x, Dm (tasks w') x -> Dm (tasks w) x) as HD by (intros x; by apply Dm_core).
  assert (forall a b, order (tasks w') a b = order (tasks w) a b) as HO by (intros; by apply order_core).
  split; intros *; rewrite ?HO; eauto.
Qed.

Lemma wf_core w w' (q : Q tid) :
  (forall x, core (tasks w' x) = core (tasks w x)) ->
  pq_wf (Dm (tasks w)) (order (tasks w)) q -> pq_wf (Dm (tasks w')) (order (tasks w')) q.
Proof.
  intros Hc Hw. eapply pq_wf_ext; [exact Hw| |intros; by apply order_core].
  eapply Forall_impl; [by eapply pq_wf_D|]. intros x. by apply Dm_core.
Qed.

(** Changing tasks in fields outside [core], heap flags apart. *)
Lemma dom_ok_tasks w T' :
  dom_ok w -> (forall x, core (T' x) = core (tasks w x)) ->
  (forall x, in_heap (T' x) = in_heap (tasks w x)) -> dom_ok (set_tasks T' w).
Proof.
  intros Hw Hc Hh. destruct Hw. split; try done.
  - intros x. cbn. rewrite Hh. apply qo_heap0.
  - intros o x Ho Hx. cbn. rewrite <- (qo_time0 o x Ho Hx).
    by apply (core_field get_release).
  - intros d. apply (wf_core w (set_tasks T' w)); [done|apply qo_ready_wf0].
  - intros o Ho. apply (wf_core w (set_tasks T' w)); [done|by apply qo_rel_wf0].
Qed.

Lemma quiet_tasks w T' : (forall x, core (T' x) = core (tasks w x)) -> quiet w (set_tasks T' w).
Proof. done. Qed.

(** ** Requests for preemption *)
Definition poke (f : task_struct -> task_struct) : Prop :=
  forall x, core (f x) = core x /\ in_heap (f x) = in_heap x.

Lemma poke_need_resched b : poke (set_need_resched b).
Proof. done. Qed.

Lemma poke_request_exit_np : poke request_exit_np.
Proof. intros x. unfold request_exit_np, is_user_np. by destruct x as [], ctrl_page as [[[] []]|]. Qed.

Lemma upd_core T t f :
  core (f (T t)) = core (T t) -> forall x, core (upd T t (f (T t)) x) = core (T x).
Proof. intros E x. unfold upd. case_decide; by subst. Qed.

Lemma poke_spec t f w :
  poke f -> dom_ok w -> wp (upd_task t f) (fun _ w' => quiet w w' /\ dom_ok w') w.
Proof.
  intros Hf Hw. wp_steps. split; [apply quiet_tasks|apply dom_ok_tasks; [done|..]];
    intros x; unfold upd; case_decide; subst; by try apply Hf.
Qed.

Lemma ipi_spec c w :
  dom_ok w -> wp (smp_send_reschedule c) (fun _ w' => quiet w w' /\ dom_ok w') w.
Proof. intros []. wp_steps. by split. Qed.

Lemma preempt_spec (ot : option tid) c w :
  dom_ok w -> wp (preempt_if_preemptable ot c) (fun _ w' => quiet w w' /\ dom_ok w') w.
Proof.
  intros Hw. unfold preempt_if_preemptable, get_task, get_current, set_tsk_need_resched. wp_steps.
  destruct (_ =? c).
  - destruct ot as [t|]; wp_steps.
    + destruct (is_user_np _); [by apply poke_spec; [apply poke_request_exit_np|]|].
      apply wp_when. destruct (negb _); [by apply poke_spec|]. by split.
    + by apply poke_spec.
  - destruct ot as [t|]; wp_steps; [|by apply ipi_spec].
    eapply (wp_mono _ (fun _ w' => quiet w w' /\ dom_ok w')).
    + apply wp_when. destruct (is_user_np _); [by apply poke_spec; [apply poke_request_exit_np|]|]. by split.
    + intros [] w1 [Hq1 Hw1]. wp_steps. apply wp_when. destruct (_ && _); [|done].
      eapply wp_mono; [by apply ipi_spec|]. intros _ w2 [Hq2 ?]. split; [|done]. by eapply quiet_trans.
Qed.

(** ** The ready queue *)
Section Ready.
Variable check_resched : Z -> K bool.
Hypothesis Hcheck : calm check_resched.

(** A change of the ready queue of one domain that keeps its elements. *)
Lemma dom_ok_ready_perm w d q :
  dom_ok w -> pq_elems q ≡ₚ ready_elems w d ->
  pq_wf (Dm (tasks w)) (order (tasks w)) q ->
  let w' := set_doms (upd (doms w) d (set_ready_queue q (doms w d))) w in
  quiet w w' /\ dom_ok w'.
Proof.
  intros Hw Hq Hwf w'.
  assert (forall d', ready_elems w' d' ≡ₚ ready_elems w d') as He.
  { intros d'. unfold ready_elems. simpl. unfold upd. case_decide; by subst. }
  assert (forall x p, at_place w' x p <-> at_place w x p) as Ha.
  { intros x [d'|]; simpl; [by rewrite He|done]. }
  assert (forall d', release_queue (doms w' d') = release_queue (doms w d') /\
    tobe_released (doms w' d') = tobe_released (doms w d')) as Hr.
  { intros d'. simpl. unfold upd. case_decide; by subst. }
  split; [by split|]. destruct Hw. split; try done.
  - intros t p p'. rewrite !Ha. apply qo_unique0.
  - intros t. etransitivity; [apply qo_heap0|]. split; intros [p Hp]; exists p; by apply Ha.
  - intros d'. rewrite He. apply qo_nodup_ready0.
  - intros d' i o. destruct (Hr d') as [-> _]. apply qo_slot0.
  - intros d' i. destruct (Hr d') as [-> _]. apply qo_sorted0.
  - intros d'. destruct (Hr d') as [_ ->]. apply qo_tobe0.
  - intros d'. simpl. unfold upd. case_decide; [done|apply qo_ready_wf0].
Qed.

(** [__next_ready]: the queues stay as they are; the result is the best task. *)
Lemma next_ready_spec d w :
  swo_on (Dm (tasks w)) (order (tasks w)) -> dom_ok w ->
  wp (__next_ready order d) (fun hn w' => quiet w w' /\ dom_ok w' /\ tasks w' = tasks w /\
    match hn with
    | None => ready_elems w d = []
    | Some t => t ∈ ready_elems w d /\ Forall (fun e => order (tasks w) e t = false) (ready_elems w d)
    end) w.
Proof.
  intros Ho Hw. unfold __next_ready, get_dom, upd_dom. wp_steps.
  pose proof (qo_ready_wf _ Hw d) as Hwf. destruct (pq_peek _ _) as [hn q] eqn:E. wp_steps.
  pose proof (pq_peek_elems (order (tasks w)) (ready_queue (doms w d))) as He.
  pose proof (pq_peek_wf _ _ _ Ho Hwf) as Hq. rewrite E in He, Hq. simpl in He, Hq.
  destruct (dom_ok_ready_perm w d q Hw He Hq) as [? ?]. split_and!; [done..|].
  destruct hn as [t|].
  - split; [eapply (pq_peek_in (order (tasks w))); by rewrite E|].
    eapply pq_peek_best; [exact Ho|exact Hwf|by rewrite E].
  - eapply (pq_peek_none (order (tasks w))). by rewrite E.
Qed.

Lemma moved_unique t p w w' x q q' :
  dom_ok w -> moved t p w w' -> at_place w' x q -> at_place w' x q' -> q = q'.
Proof.
  intros Hw Hm. rewrite !(mv_at _ _ _ _ Hm). case_decide; [congruence|apply (qo_unique _ Hw)].
Qed.

Lemma moved_heap t p w w' x :
  dom_ok w -> moved t p w w' -> in_heap (tasks w' t) = bool_decide (is_Some p) ->
  (forall y, y <> t -> in_heap (tasks w' y) = in_heap (tasks w y)) ->
  in_heap (tasks w' x) = true <-> exists q, at_place w' x q.
Proof.
  intros Hw Hm Ht Hy. destruct (decide (x = t)) as [->|Hne].
  - rewrite Ht, bool_decide_eq_true. split.
    + intros [q ->]. exists q. apply (mv_at _ _ _ _ Hm). by rewrite decide_True.
    + intros [q Hq]. apply (mv_at _ _ _ _ Hm) in Hq. rewrite decide_True in Hq by done. eauto.
  - rewrite Hy, (qo_heap _ Hw) by done. split; intros [q Hq]; exists q.
    + apply (mv_at _ _ _ _ Hm). by rewrite decide_False.
    + apply (mv_at _ _ _ _ Hm) in Hq. by rewrite decide_False in Hq.
Qed.

(** Putting an unqueued task into the ready queue of [d]. *)
Lemma ready_insert_spec d t w :
  swo_on (Dm (tasks w)) (order (tasks w)) -> dom_ok w -> in_heap (tasks w t) = false -> Dm (tasks w) t ->
  wp (ready_insert order d t) (fun _ w' => moved t (Some (PReady d)) w w' /\ dom_ok w') w.
Proof.
  intros Ho Hw Ht HD. unfold ready_insert, upd_dom, upd_task. wp_steps.
  set (w' := set_tasks _ _).
  assert (forall x, core (tasks w' x) = core (tasks w x)) as Hc by (by apply upd_core).
  assert (forall p, ~ at_place w t p) as Hno.
  { intros p Hp. assert (in_heap (tasks w t) = true) by (apply Hw; eauto). congruence. }
  assert (forall d', ready_elems w' d' ≡ₚ if decide (d' = d) then t :: ready_elems w d else ready_elems w d') as He.
  { intros d'. unfold ready_elems. simpl. unfold upd. case_decide; [|done]. subst. simpl. apply pq_insert_elems. }
  assert (forall d', release_queue (doms w' d') = release_queue (doms w d') /\
    tobe_released (doms w' d') = tobe_released (doms w d')) as Hr.
  { intros d'. simpl. unfold upd. case_decide; by subst. }
  assert (moved t (Some (PReady d)) w w') as Hm.
  { split; [by split|]. intros x [d'|d' o]; simpl.
    - rewrite He. case_decide as Ed; case_decide as Ex; subst.
      + split; [done|]. intros _. by left.
      + rewrite elem_of_cons. naive_solver.
      + split; [intros Hin; by destruct (Hno (PReady d'))|congruence].
      + done.
    - case_decide; [|done]. subst. split; [intros Hin; by destruct (Hno (PRelease d' o))|done]. }
  split; [done|]. pose proof Hw as Hw0. destruct Hw. split; try done.
  - intros x p p'. by eapply moved_unique.
  - intros x. eapply moved_heap; [done|exact Hm|simpl; by rewrite upd_eq|]. intros y Hy. simpl. by rewrite upd_ne.
  - intros d'. rewrite He. case_decide; [|done]. apply NoDup_cons. split; [apply (Hno (PReady d))|done].
  - intros d' i o. destruct (Hr d') as [-> _]. apply qo_slot0.
  - intros d' i. destruct (Hr d') as [-> _]. apply qo_sorted0.
  - intros o x Hact Hx. etransitivity; [|exact (qo_time0 o x Hact Hx)]. by apply (core_field get_release).
  - intros d'. destruct (Hr d') as [_ ->]. apply qo_tobe0.
  - intros d'. apply (wf_core w w'); [done|]. simpl. unfold upd. case_decide; [|apply qo_ready_wf0].
    simpl. by apply pq_insert_wf.
  - intros o Hact. apply (wf_core w w'); [done|]. by apply qo_rel_wf0.
Qed.

(** [__add_ready] *)
Lemma add_ready_spec d t w :
  swo_on (Dm (tasks w)) (order (tasks w)) -> dom_ok w -> in_heap (tasks w t) = false -> Dm (tasks w) t ->
  wp (__add_ready order check_resched d t) (fun _ w' => moved t (Some (PReady d)) w w' /\ dom_ok w') w.
Proof.
  intros Ho Hw Ht HD. unfold __add_ready, get_task. wp_steps; [done|].
  eapply wp_mono; [by apply ready_insert_spec|]. intros _ w1 [Hm1 Hw1]. wp_steps.
  eapply wp_mono; [apply Hcheck; [|done]|].
  - eapply swo_core; [|exact Ho]. apply Hm1.
  - intros _ w2 [Hq2 Hw2]. wp_steps. split; [by eapply moved_quiet|done].
Qed.

(** Taking a task out of the ready queue of [d]. *)
Lemma ready_out d t q w :
  dom_ok w -> ready_elems w d ≡ₚ t :: pq_elems q -> pq_wf (Dm (tasks w)) (order (tasks w)) q ->
  wp (upd_dom d (set_ready_queue q);; upd_task t (set_in_heap false))
    (fun _ w' => moved t None w w' /\ dom_ok w') w.
Proof.
  intros Hw Hq Hwf. unfold upd_dom, upd_task. wp_steps. set (w' := set_tasks _ _).
  assert (forall x, core (tasks w' x) = core (tasks w x)) as Hc by (by apply upd_core).
  assert (t ∈ ready_elems w d) as Hin by (rewrite Hq; by left).
  assert (forall p, at_place w t p -> p = PReady d) as Hat by (intros p Hp; by apply (qo_unique _ Hw t)).
  assert (forall d', ready_elems w' d' = if decide (d' = d) then pq_elems q else ready_elems w d') as He.
  { intros d'. unfold ready_elems. simpl. unfold upd. by case_decide. }
  assert (forall d', release_queue (doms w' d') = release_queue (doms w d') /\
    tobe_released (doms w' d') = tobe_released (doms w d')) as Hr.
  { intros d'. simpl. unfold upd. case_decide; by subst. }
  pose proof (qo_nodup_ready _ Hw d) as Hn. rewrite Hq in Hn. apply NoDup_cons in Hn as [Hnin Hn].
  assert (moved t None w w') as Hm.
  { split; [by split|]. intros x [d'|d' o]; simpl.
    - rewrite He. case_decide as Ed; case_decide as Ex; subst; [done| | |done].
      + rewrite Hq, elem_of_cons. naive_solver.
      + split; [|done]. intros Hp. specialize (Hat (PReady d') Hp). congruence.
    - case_decide; [|done]. subst. split; [|done]. intros Hp. by specialize (Hat (PRelease d' o) Hp). }
  split; [done|]. pose proof Hw as Hw0. destruct Hw. split; try done.
  - intros x p p'. by eapply moved_unique.
  - intros x. eapply moved_heap; [done|exact Hm|simpl; by rewrite upd_eq|]. intros y Hy. simpl. by rewrite upd_ne.
  - intros d'. rewrite He. by case_decide.
  - intros d' i o. destruct (Hr d') as [-> _]. apply qo_slot0.
  - intros d' i. destruct (Hr d') as [-> _]. apply qo_sorted0.
  - intros o x Hact Hx. etransitivity; [|exact (qo_time0 o x Hact Hx)]. by apply (core_field get_release).
  - intros d'. destruct (Hr d') as [_ ->]. apply qo_tobe0.
  - intros d'. apply (wf_core w w'); [done|]. simpl. unfold upd. by case_decide.
  - intros o Hact. apply (wf_core w w'); [done|]. by apply qo_rel_wf0.
Qed.

(** [__take_ready] returns a task no ready task beats, and takes it out. *)
Lemma take_ready_spec d w :
  swo_on (Dm (tasks w)) (order (tasks w)) -> dom_ok w ->
  wp (__take_ready order d) (fun hn w' => dom_ok w' /\
    match hn with
    | None => ready_elems w d = [] /\ quiet w w'
    | Some t => t ∈ ready_elems w d /\ moved t None w w' /\
        Forall (fun e => order (tasks w) e t = false) (ready_elems w d)
    end) w.
Proof.
  intros Ho Hw. unfold __take_ready, get_dom. wp_steps.
  pose proof (qo_ready_wf _ Hw d) as Hwf. destruct (pq_take _ _) as [hn q] eqn:E.
  pose proof (pq_take_wf _ _ _ Ho Hwf) as Hq. rewrite E in Hq. simpl in Hq.
  destruct hn as [t|].
  - assert (ready_elems w d ≡ₚ t :: pq_elems q) as He.
    { pose proof (pq_take_elems (order (tasks w)) (ready_queue (doms w d)) t) as Ht.
      rewrite E in Ht. by apply Ht. }
    pose proof (ready_out d t q w Hw He Hq) as Hout. apply wp_bind in Hout. apply wp_bind.
    eapply wp_mono; [exact Hout|]. intros u1 w1 Hu1. apply wp_bind. eapply wp_mono; [exact Hu1|].
    intros u2 w2 [Hm Hw2]. wp_steps. split_and!; [done|rewrite He; by left|done|].
    eapply pq_take_best; [exact Ho|exact Hwf|by rewrite E].
  - pose proof (pq_take_none (order (tasks w)) (ready_queue (doms w d))) as Hn. rewrite E in Hn.
    destruct (Hn eq_refl) as [He Hqe]. simpl in Hqe. unfold upd_dom. wp_steps.
    destruct (dom_ok_ready_perm w d q Hw) as [? ?]; [unfold ready_elems; by rewrite He, Hqe|done|].
    by split_and!.
Qed.

(** [remove] of a task that is in the ready queue. *)
Lemma remove_spec d t w :
  swo_on (Dm (tasks w)) (order (tasks w)) -> dom_ok w -> at_place w t (PReady d) ->
  wp (remove order d t) (fun _ w' => moved t None w w' /\ dom_ok w') w.
Proof.
  intros Ho Hw Hin. unfold remove, get_dom. wp_steps.
  destruct (pq_delete_total (order (tasks w)) (fun x => bool_decide (x = t)) _ t Hin) as [q E];
    [by apply bool_decide_eq_true|].
  exists q. split; [done|]. destruct (pq_delete_elems _ _ _ _ E) as (v & Hv%bool_decide_eq_true & He).
  subst v. apply ready_out; [done|done|]. eapply pq_delete_wf; [exact Ho|apply Hw|exact E].
Qed.

End Ready.

(** ** The release queue *)
Lemma scan_slot_spec (R : tid -> Z) time l pre hit post :
  StronglySorted (fun a b => R a < R b) l ->
  Forall (fun x => 0 <= R x < two63) l -> 0 <= time < two63 ->
  scan_slot R time l = (pre, hit, post) ->
  l = pre ++ post /\ Forall (fun x => R x < time) pre /\
  match hit with
  | Some rh => R rh = time /\ rh ∈ l
  | None => Forall (fun x => time < R x) post
  end.
Proof.
  intros Hs Hw Ht. revert pre hit post. induction Hs as [|a l Hs IH Ha]; intros pre hit post; simpl.
  { intros [= <- <- <-]. by repeat split; constructor. }
  apply Forall_cons in Hw as [Hwa Hw]. destruct (Z.eqb_spec time (R a)) as [E|Hne].
  { intros [= <- <- <-]. split; [done|]. split; [constructor|]. split; [done|by left]. }
  rewrite lt_before_window by lia. destruct (Z.ltb_spec time (R a)) as [Hlt|Hge].
  - intros [= <- <- <-]. split; [done|]. split; constructor; [done|].
    eapply Forall_impl; [exact Ha|]. simpl. intros. lia.
  - destruct (scan_slot R time l) as [[pre0 hit0] post0]. intros [= <- <- <-].
    destruct (IH Hw _ _ _ eq_refl) as (-> & Hp & Hh). split; [done|]. split; [constructor; [lia|done]|].
    destruct hit0; [|done]. destruct Hh. split; [done|by right].
Qed.

Lemma unqueued_nowhere w t p : dom_ok w -> in_heap (tasks w t) = false -> ~ at_place w t p.
Proof. intros Hw Ht Hp. assert (in_heap (tasks w t) = true) by (apply Hw; eauto). congruence. Qed.

Lemma unqueued_inactive w t : dom_ok w -> in_heap (tasks w t) = false -> ~ active w t.
Proof.
  intros Hw Ht Ha. eapply (unqueued_nowhere w t (PRelease (rh_dom (rheaps w t)) t)); [done..|].
  split_and!; [done..|by apply Hw].
Qed.

(** A task joins the release heap [o] of domain [d]. *)
Lemma dom_ok_join w w' t o d q :
  dom_ok w -> in_heap (tasks w t) = false -> active w o -> rh_dom (rheaps w o) = d ->
  get_release (tasks w t) = rh_time (rheaps w o) ->
  same_env w w' -> doms w' = doms w ->
  (forall x, rheaps w' x = if decide (x = o) then set_rh_heap q (rheaps w o) else rheaps w x) ->
  in_heap (tasks w' t) = true -> (forall x, x <> t -> in_heap (tasks w' x) = in_heap (tasks w x)) ->
  pq_elems q ≡ₚ t :: rel_elems w o -> pq_wf (Dm (tasks w)) (order (tasks w)) q ->
  moved t (Some (PRelease d o)) w w' /\ dom_ok w'.
Proof.
  intros Hw Ht Ho Hd Hrel Henv Hdoms Hrh Hht Hhx Hq Hwf.
  assert (forall p, ~ at_place w t p) as Hno by (intros p; by apply unqueued_nowhere).
  assert (forall x, active w' x <-> active w x) as Hact.
  { intros x. unfold active. rewrite Hrh. case_decide; by subst. }
  assert (forall x, rh_dom (rheaps w' x) = rh_dom (rheaps w x) /\ rh_time (rheaps w' x) = rh_time (rheaps w x)) as Hdt.
  { intros x. rewrite Hrh. case_decide; by subst. }
  assert (forall x, slot_of w' x = slot_of w x) as Hslot.
  { intros x. unfold slot_of. rewrite (se_tick _ _ Henv). by destruct (Hdt x) as [_ ->]. }
  assert (forall x, rel_elems w' x ≡ₚ if decide (x = o) then t :: rel_elems w o else rel_elems w x) as Hel.
  { intros x. unfold rel_elems. rewrite Hrh. by case_decide. }
  assert (moved t (Some (PRelease d o)) w w') as Hm.
  { split; [done|]. intros x [d'|d' o']; simpl.
    - unfold ready_elems. rewrite Hdoms. case_decide; [|done]. subst.
      split; [intros Hin; by destruct (Hno (PReady d'))|done].
    - rewrite Hact. destruct (Hdt o') as [-> _]. rewrite Hel. case_decide as Ex; case_decide as Eo; subst.
      + split; [by intros (_ & <- & _)|]. intros [= <-]. split_and!; [done..|by left].
      + rewrite elem_of_cons. naive_solver.
      + split; [|congruence]. intros Hin. by destruct (Hno (PRelease d' o')).
      + done. }
  split; [done|]. pose proof Hw as Hw0. destruct Hw. split.
  - intros x p p'. by eapply moved_unique.
  - intros x. by eapply moved_heap.
  - intros d'. unfold ready_elems. rewrite Hdoms. apply qo_nodup_ready0.
  - intros x Hx%Hact. rewrite Hel. case_decide; [subst|by apply qo_nodup_rel0].
    apply NoDup_cons. split; [|by apply qo_nodup_rel0]. intros Hin. by apply (Hno (PRelease (rh_dom (rheaps w o)) o)).
  - intros d' i x. rewrite Hdoms, Hact, Hslot. destruct (Hdt x) as [-> _]. apply qo_slot0.
  - intros d' i. rewrite Hdoms. eapply sorted_impl; [|apply qo_sorted0]. intros x y _ _.
    destruct (Hdt x) as [_ ->], (Hdt y) as [_ ->]. done.
  - intros x Hx%Hact. rewrite Hel. case_decide; subst; [right|]; by apply qo_owner0.
  - intros x y Hx%Hact. rewrite Hel. destruct (Hdt x) as [_ ->]. intros Hy.
    rewrite (core_field get_release _ (tasks w y)) by (done || apply Henv).
    revert Hy. case_decide; [subst|by apply qo_time0]. intros [->|Hy]%elem_of_cons; [done|by apply qo_time0].
  - intros x Hx%Hact. destruct (Hdt x) as [_ ->]. by apply qo_window0.
  - intros d'. rewrite Hdoms. apply qo_tobe0.
  - intros d'. rewrite Hdoms. apply (wf_core w w'); [apply Henv|apply qo_ready_wf0].
  - intros x Hx%Hact. apply (wf_core w w'); [apply Henv|]. rewrite Hrh. case_decide; [done|by apply qo_rel_wf0].
Qed.

(** A task opens its own release heap in domain [d]. *)
Lemma dom_ok_open w w' t d c q pre post :
  let time := get_release (tasks w t) in
  let slot := time2slot (tick_period w) time in
  dom_ok w -> in_heap (tasks w t) = false -> 0 <= time < two63 ->
  release_queue (doms w d) slot = pre ++ post ->
  Forall (fun x => rh_time (rheaps w x) < time) pre -> Forall (fun x => time < rh_time (rheaps w x)) post ->
  same_env w w' ->
  (forall d', ready_queue (doms w' d') = ready_queue (doms w d') /\ tobe_released (doms w' d') = []) ->
  (forall d' i, release_queue (doms w' d') i =
     if decide (d' = d /\ i = slot) then pre ++ t :: post else release_queue (doms w d') i) ->
  (forall x, rheaps w' x = if decide (x = t) then mk_release_heap time q (Some c) d else rheaps w x) ->
  in_heap (tasks w' t) = true -> (forall x, x <> t -> in_heap (tasks w' x) = in_heap (tasks w x)) ->
  pq_elems q ≡ₚ [t] -> pq_wf (Dm (tasks w)) (order (tasks w)) q ->
  moved t (Some (PRelease d t)) w w' /\ dom_ok w'.
Proof.
  intros time slot Hw Ht Htime Hl Hpre Hpost Henv Hdoms Hrq Hrh Hht Hhx Hq Hwf.
  assert (forall p, ~ at_place w t p) as Hno by (intros p; by apply unqueued_nowhere).
  pose proof (unqueued_inactive w t Hw Ht) as Hina.
  assert (active w' t) as Htact by (unfold active; rewrite Hrh, decide_True by done; by eexists).
  assert (forall x, x <> t -> rheaps w' x = rheaps w x) as Hrx by (intros; by rewrite Hrh, decide_False).
  assert (rheaps w' t = mk_release_heap time q (Some c) d) as Hrt by (by rewrite Hrh, decide_True).
  assert (forall x, active w x -> x <> t) as Hax by (intros x Hx ->; done).
  assert (forall d' i x, x ∈ release_queue (doms w d') i -> x <> t) as Hsx
    by (intros d' i x Hx; apply (qo_slot _ Hw) in Hx as [? _]; by apply Hax).
  assert (moved t (Some (PRelease d t)) w w') as Hm.
  { split; [done|]. intros x [d'|d' o']; simpl.
    - unfold ready_elems. destruct (Hdoms d') as [-> _]. case_decide; [|done]. subst.
      split; [intros Hin; by destruct (Hno (PReady d'))|done].
    - unfold active, rel_elems. destruct (decide (o' = t)) as [->|Hne].
      + rewrite Hrt. simpl. rewrite Hq, list_elem_of_singleton. case_decide as Ex; [subst|].
        * split; [by intros (_ & -> & _)|]. intros [= <-]. split_and!; [by eexists|done..].
        * split; [naive_solver|]. intros (? & _). by destruct Hina.
      + rewrite Hrx by done. case_decide; [|done]. subst. split; [|congruence].
        intros Hin. by destruct (Hno (PRelease d' o')). }
  split; [done|]. pose proof Hw as Hw0. destruct Hw. split.
  - intros x p p'. by eapply moved_unique.
  - intros x. by eapply moved_heap.
  - intros d'. unfold ready_elems. destruct (Hdoms d') as [-> _]. apply qo_nodup_ready0.
  - intros x. unfold active, rel_elems. destruct (decide (x = t)) as [->|Hne].
    + rewrite Hrt. simpl. rewrite Hq. intros _. apply NoDup_singleton.
    + rewrite Hrx by done. apply qo_nodup_rel0.
  - intros d' i x. unfold active, slot_of. rewrite Hrq, (se_tick _ _ Henv).
    destruct (decide (x = t)) as [->|Hne].
    + rewrite Hrt. simpl. fold slot. case_decide as E; [destruct E as [-> ->]|].
      * split; [intros _; split_and!; [by eexists|done..]|]. intros _. apply elem_of_app. right. by left.
      * split; [|naive_solver]. intros Hin. by apply Hsx in Hin.
    + rewrite Hrx by done. rewrite <- (qo_slot0 d' i x). case_decide as E; [destruct E as [-> ->]|done].
      rewrite Hl, !elem_of_app, elem_of_cons. naive_solver.
  - intros d' i. rewrite Hrq.
    assert (StronglySorted (fun a b => rh_time (rheaps w' a) < rh_time (rheaps w' b)) (release_queue (doms w d') i)) as Hs.
    { eapply sorted_impl; [|apply qo_sorted0]. intros x y Hx%Hsx Hy%Hsx. by rewrite !Hrx. }
    case_decide as E; [destruct E as [-> ->]|done]. rewrite Hl in Hs. apply sorted_middle; [done| |];
      apply Forall_forall; intros x Hx; rewrite Hrt; simpl;
      (rewrite Hrx by (apply (Hsx d slot); rewrite Hl; apply elem_of_app; by (left + right)));
      rewrite Forall_forall in Hpre, Hpost; auto.
  - intros x. unfold active, rel_elems. destruct (decide (x = t)) as [->|Hne].
    + rewrite Hrt. simpl. rewrite Hq. intros _. by left.
    + rewrite Hrx by done. apply qo_owner0.
  - intros x y. rewrite (core_field get_release (tasks w' y) (tasks w y)) by (done || apply Henv).
    unfold active, rel_elems. destruct (decide (x = t)) as [->|Hne].
    + rewrite Hrt. simpl. rewrite Hq. by intros _ ->%list_elem_of_singleton.
    + rewrite Hrx by done. apply qo_time0.
  - intros x. unfold active. destruct (decide (x = t)) as [->|Hne]; [by rewrite Hrt|].
    rewrite Hrx by done. apply qo_window0.
  - intros d'. apply Hdoms.
  - intros d'. destruct (Hdoms d') as [-> _]. apply (wf_core w w'); [apply Henv|apply qo_ready_wf0].
  - intros x Hx. apply (wf_core w w'); [apply Henv|]. revert Hx. unfold active.
    destruct (decide (x = t)) as [->|Hne]; [by rewrite Hrt|]. rewrite Hrx by done. apply qo_rel_wf0.
Qed.

(** Which release heap a task finds. *)
Lemma scan_release w d t pre hit post :
  dom_ok w -> 0 <= get_release (tasks w t) < two63 ->
  scan_slot (fun o => rh_time (rheaps w o)) (get_release (tasks w t))
    (release_queue (doms w d) (time2slot (tick_period w) (get_release (tasks w t)))) = (pre, hit, post) ->
  match hit with
  | Some o => active w o /\ rh_dom (rheaps w o) = d /\ get_release (tasks w t) = rh_time (rheaps w o)
  | None =>
      release_queue (doms w d) (time2slot (tick_period w) (get_release (tasks w t))) = pre ++ post /\
      Forall (fun x => rh_time (rheaps w x) < get_release (tasks w t)) pre /\
      Forall (fun x => get_release (tasks w t) < rh_time (rheaps w x)) post
  end.
Proof.
  intros Hw Ht E. eapply scan_slot_spec in E as (Hl & Hpre & Hh); [|apply Hw| |done].
  - destruct hit as [o|]; [|done]. destruct Hh as [Ho Hin].
    apply (qo_slot _ Hw) in Hin as (Ha & Hd & _). done.
  - apply Forall_forall. intros x Hx. apply (qo_slot _ Hw) in Hx as [Ha _]. by apply (qo_window _ Hw).
Qed.

Lemma upd_rheap_other w t h o :
  (set_rheaps (upd (rheaps w) t h) w).(rheaps) o = if decide (o = t) then h else rheaps w o.
Proof. done. Qed.

(** The scan does not look at an inactive release heap. *)
Lemma scan_slot_ext (R R' : tid -> Z) time l :
  (forall x, x ∈ l -> R x = R' x) -> scan_slot R time l = scan_slot R' time l.
Proof.
  induction l as [|a l IH]; intros HR; [done|]. simpl. rewrite (HR a) by (by left).
  rewrite IH by (intros x Hx; apply HR; by right). done.
Qed.

Lemma arm_one_spec d target t w :
  swo_on (Dm (tasks w)) (order (tasks w)) -> dom_ok w -> in_heap (tasks w t) = false -> Dm (tasks w) t ->
  0 <= get_release (tasks w t) < two63 ->
  wp (arm_one order d target t) (fun _ w' => (exists o, moved t (Some (PRelease d o)) w w') /\ dom_ok w') w.
Proof.
  intros Ho Hw Ht HD Htime. pose proof (unqueued_inactive w t Hw Ht) as Hina.
  assert (rh_timer (rheaps w t) = None) as Htm
    by (destruct (rh_timer (rheaps w t)) eqn:E; [exfalso; apply Hina; eexists; exact E|done]).
  unfold arm_one, get_release_heap, get_task, get_dom. wp_steps.
  destruct (scan_slot _ _ _) as [[pre hit] post] eqn:E. pose proof (scan_release w d t _ _ _ Hw Htime E) as Hs.
  destruct hit as [o|]; wp_steps.
  - (* an existing release heap *)
    destruct Hs as (Ha & Hd & Hrel). exists o. split; [done|].
    unfold release_insert, upd_rheap, upd_task. wp_steps. apply wp_when.
    rewrite bool_decide_false by (intros ->; done).
    match goal with |- _ /\ dom_ok ?w2 =>
      destruct (dom_ok_join w w2 t o d (pq_insert (order (tasks w)) t (rh_heap (rheaps w o)))) as [Hm Hw2] end;
      try done.
    + split; [|done..]. simpl. by apply upd_core.
    + simpl. by rewrite upd_eq.
    + intros x Hx. simpl. by rewrite upd_ne.
    + apply pq_insert_elems.
    + apply pq_insert_wf; [done..|by apply Hw].
    + split; [by exists o|done].
  - (* its own *)
    destruct Hs as (Hl & Hpre & Hpost). unfold reinit_release_heap, get_rheap, upd_rheap. wp_steps; [by rewrite Htm|].
    unfold get_dom, upd_dom. simpl. rewrite (scan_slot_ext _ (fun o => rh_time (rheaps w o))).
    2: { intros x Hx. apply (qo_slot _ Hw) in Hx as [Ha _]. unfold upd. repeat case_decide; by subst. }
    rewrite E. wp_steps. exists t. split; [done|]. unfold release_insert, upd_rheap, upd_task. wp_steps.
    apply wp_when. rewrite bool_decide_true by done. wp_steps.
    match goal with |- _ /\ dom_ok ?w2 => match w2 with context [set_rh_timer (Some ?c)] =>
      destruct (dom_ok_open w w2 t d c (pq_insert (order (tasks w)) t pq_init) pre post) as [Hm Hw2] end end;
      try done.
    + split; [|done..]. simpl. by apply upd_core.
    + intros d'. simpl. unfold upd. case_decide; subst; split; try done; apply Hw.
    + intros d' i. simpl. destruct (decide (d' = d)) as [->|Hd].
      * rewrite upd_eq. simpl. unfold upd. by repeat case_decide; try tauto.
      * rewrite upd_ne by done. by rewrite decide_False by tauto.
    + intros x. simpl. unfold upd. by repeat case_decide.
    + simpl. by rewrite upd_eq.
    + intros x Hx. simpl. by rewrite upd_ne.
    + by rewrite pq_insert_elems, pq_init_elems.
    + apply pq_insert_wf; [done..|apply pq_init_wf].
    + split; [by exists t|done].
Qed.

(** States that agree on everything the queues are made of. *)
Lemma dom_ok_ext w w' :
  dom_ok w -> same_env w w' -> (forall d, doms w' d = doms w d) -> (forall o, rheaps w' o = rheaps w o) ->
  (forall x, in_heap (tasks w' x) = in_heap (tasks w x)) -> quiet w w' /\ dom_ok w'.
Proof.
  intros Hw Henv Hd Hr Hh.
  assert (forall x p, at_place w' x p <-> at_place w x p) as Ha.
  { intros x [d|d o]; simpl; unfold ready_elems, active, rel_elems; by rewrite ?Hd, ?Hr. }
  split; [by split|]. destruct Hw. split.
  - intros t p p'. rewrite !Ha. apply qo_unique0.
  - intros t. rewrite Hh, qo_heap0. split; intros [p Hp]; exists p; by apply Ha.
  - intros d. unfold ready_elems. rewrite Hd. apply qo_nodup_ready0.
  - intros o. unfold active, rel_elems. rewrite Hr. apply qo_nodup_rel0.
  - intros d i o. unfold active, slot_of. rewrite Hd, Hr, (se_tick _ _ Henv). apply qo_slot0.
  - intros d i. rewrite Hd. eapply sorted_impl; [|apply qo_sorted0]. intros x y _ _. by rewrite !Hr.
  - intros o. unfold active, rel_elems. rewrite Hr. apply qo_owner0.
  - intros o t. unfold active, rel_elems. rewrite Hr.
    rewrite (core_field get_release (tasks w' t) (tasks w t)) by (done || apply Henv). apply qo_time0.
  - intros o. unfold active. rewrite Hr. apply qo_window0.
  - intros d. rewrite Hd. apply qo_tobe0.
  - intros d. rewrite Hd. apply (wf_core w w'); [apply Henv|apply qo_ready_wf0].
  - intros o. unfold active. rewrite Hr. intros Ho. apply (wf_core w w'); [apply Henv|by apply qo_rel_wf0].
Qed.

(** [__add_release] and [__add_release_on]: the task waits in a release heap of
    the domain; dom_ok says that the heap is for its release time and armed. *)
Lemma add_release_on_spec d target t w :
  swo_on (Dm (tasks w)) (order (tasks w)) -> dom_ok w -> in_heap (tasks w t) = false -> Dm (tasks w) t ->
  0 <= get_release (tasks w t) < two63 ->
  wp (__add_release_on order d t target)
    (fun _ w' => (exists o, moved t (Some (PRelease d o)) w w') /\ dom_ok w') w.
Proof.
  intros Ho Hw Ht HD Htime. unfold __add_release_on, arm_release_timer_on, upd_dom, get_dom, upd_task. wp_steps.
  cbn [doms set_tasks set_doms tasks]. rewrite !upd_eq. cbn [tobe_released set_tobe_released].
  rewrite (qo_tobe _ Hw d). cbn [arm_list]. wp_steps.
  match goal with |- wp _ _ ?w1 => destruct (dom_ok_ext w w1) as [Hq1 Hw1] end; try done.
  - split; try done. by apply upd_core.
  - intros d'. simpl. unfold upd. repeat case_decide; [|done..]. subst.
    pose proof (qo_tobe _ Hw d). destruct (doms w d). simpl in *. by subst.
  - intros x. simpl. unfold upd. case_decide; by subst.
  - eapply wp_mono; [apply arm_one_spec; [|done|..]|].
    + eapply swo_core; [apply Hq1|done].
    + simpl. by rewrite upd_eq.
    + eapply Dm_core; [|exact HD]. intros x. symmetry. apply Hq1.
    + simpl. by rewrite upd_eq.
    + intros _ w2 [(o & Hm2) Hw2]. wp_steps. split; [|done]. exists o. by eapply quiet_moved.
Qed.

Lemma add_release_spec d t w :
  swo_on (Dm (tasks w)) (order (tasks w)) -> dom_ok w -> in_heap (tasks w t) = false -> Dm (tasks w) t ->
  0 <= get_release (tasks w t) < two63 ->
  wp (__add_release order d t) (fun _ w' => (exists o, moved t (Some (PRelease d o)) w w') /\ dom_ok w') w.
Proof. apply (add_release_on_spec d NO_CPU). Qed.

(** ** The release timer *)

(** All tasks of the release heap [o] become ready in its domain. *)
Record released o w w' : Prop := {
  rl_env : same_env w w';
  rl_at x q : at_place w' x q <->
    if decide (x ∈ rel_elems w o) then q = PReady (rh_dom (rheaps w o)) else at_place w x q
}.

Lemma released_quiet o w1 w2 w3 : released o w1 w2 -> quiet w2 w3 -> released o w1 w3.
Proof.
  intros [E1 A1] [E2 A2]. split; [by eapply same_env_trans|]. intros x q. by rewrite A2, A1.
Qed.

Lemma released_moves w o x q :
  dom_ok w -> active w o -> x ∈ rel_elems w o -> at_place w x q -> q = PRelease (rh_dom (rheaps w o)) o.
Proof. intros Hw Ha Hx Hq. by apply (qo_unique _ Hw x). Qed.

Lemma dom_ok_release w w' o q :
  let d := rh_dom (rheaps w o) in
  dom_ok w -> active w o -> same_env w w' -> (forall x, in_heap (tasks w' x) = in_heap (tasks w x)) ->
  (forall x, x <> o -> rheaps w' x = rheaps w x) -> rh_timer (rheaps w' o) = None ->
  (forall d', tobe_released (doms w' d') = []) ->
  (forall d' i, release_queue (doms w' d') i =
     if decide (d' = d) then filter (fun x => x <> o) (release_queue (doms w d) i) else release_queue (doms w d') i) ->
  (forall d', ready_queue (doms w' d') = if decide (d' = d) then q else ready_queue (doms w d')) ->
  pq_elems q ≡ₚ ready_elems w d ++ rel_elems w o -> pq_wf (Dm (tasks w)) (order (tasks w)) q ->
  released o w w' /\ dom_ok w'.
Proof.
  intros d Hw Ha Henv Hh Hrx Hro Htobe Hrq Hready Hq Hwf.
  assert (~ active w' o) as Hina by (intros [? E]; congruence).
  assert (forall x, active w' x <-> x <> o /\ active w x) as Hact.
  { intros x. unfold active. destruct (decide (x = o)) as [->|]; [|rewrite Hrx by done; naive_solver].
    rewrite Hro. split; [by intros [? ?]|naive_solver]. }
  assert (forall d', ready_elems w' d' ≡ₚ if decide (d' = d) then ready_elems w d ++ rel_elems w o else ready_elems w d') as He.
  { intros d'. unfold ready_elems. rewrite Hready. by case_decide. }
  assert (released o w w') as Hrel.
  { split; [done|]. intros x [d'|d' o']; simpl.
    - rewrite He. case_decide as Ed; case_decide as Ex; subst.
      + rewrite elem_of_app. naive_solver.
      + rewrite elem_of_app. naive_solver.
      + split; [|intros [= E]; by destruct Ed]. intros Hin. by pose proof (released_moves w o x (PReady d') Hw Ha Ex Hin).
      + done.
    - rewrite Hact. unfold rel_elems at 1. case_decide as Ex.
      + split; [|done]. intros ([Hne Ho'] & Hdd & Hin). rewrite Hrx in Hin, Hdd by done.
        pose proof (released_moves w o x (PRelease d' o') Hw Ha Ex) as E. simpl in E. naive_solver.
      + destruct (decide (o' = o)) as [->|Hne]; [naive_solver|]. rewrite Hrx by done.
        unfold rel_elems. naive_solver. }
  split; [done|]. pose proof Hw as Hw0. destruct Hw. split.
  - intros x p p'. rewrite !(rl_at _ _ _ Hrel). case_decide; [congruence|apply qo_unique0].
  - intros x. rewrite Hh, qo_heap0. split; intros [p Hp].
    + destruct (decide (x ∈ rel_elems w o)) as [Hx|Hx].
      * exists (PReady d). apply (rl_at _ _ _ Hrel). by rewrite decide_True.
      * exists p. apply (rl_at _ _ _ Hrel). by rewrite decide_False.
    + apply (rl_at _ _ _ Hrel) in Hp. case_decide; [|eauto]. by exists (PRelease d o).
  - intros d'. rewrite He. case_decide as Ed; [subst d'|done]. apply NoDup_app. split_and!; [done| |by apply qo_nodup_rel0].
    intros x Hx Hin. by pose proof (released_moves w o x (PReady d) Hw0 Ha Hin Hx).
  - intros x [Hne Hx]%Hact. unfold rel_elems. rewrite Hrx by done. by apply qo_nodup_rel0.
  - intros d' i x. rewrite Hrq, Hact. destruct (decide (x = o)) as [->|Hne].
    + split; [|naive_solver]. case_decide as E; [by intros [? _]%list_elem_of_filter|].
      intros (_ & Hdd & _)%qo_slot0. subst. done.
    + unfold slot_of. rewrite Hrx, (se_tick _ _ Henv) by done. transitivity (x ∈ release_queue (doms w d') i).
      * case_decide as E; [subst d'|done]. rewrite list_elem_of_filter. naive_solver.
      * rewrite qo_slot0. unfold slot_of. naive_solver.
  - intros d' i. rewrite Hrq.
    assert (forall d0, StronglySorted (fun a b => rh_time (rheaps w' a) < rh_time (rheaps w' b))
      (filter (fun x => x <> o) (release_queue (doms w d0) i))) as Hs.
    { intros d0. eapply sorted_impl; [|apply sorted_filter, qo_sorted0].
      intros x y [Hx _]%list_elem_of_filter [Hy _]%list_elem_of_filter. by rewrite !Hrx. }
    case_decide as E; [apply Hs|]. specialize (Hs d'). rewrite filter_id in Hs; [done|].
    apply Forall_forall. intros x Hx ->. apply qo_slot0 in Hx as (_ & Hdd & _). done.
  - intros x [Hne Hx]%Hact. unfold rel_elems. rewrite Hrx by done. by apply qo_owner0.
  - intros x y [Hne Hx]%Hact. unfold rel_elems. rewrite Hrx by done.
    rewrite (core_field get_release (tasks w' y) (tasks w y)) by (done || apply Henv). by apply qo_time0.
  - intros x [Hne Hx]%Hact. rewrite Hrx by done. by apply qo_window0.
  - done.
  - intros d'. apply (wf_core w w'); [apply Henv|]. rewrite Hready. case_decide; [done|apply qo_ready_wf0].
  - intros x [Hne Hx]%Hact. apply (wf_core w w'); [apply Henv|]. rewrite Hrx by done. by apply qo_rel_wf0.
Qed.

(** [on_release_timer], with the default [release_jobs]. *)
Lemma on_release_timer_spec check_resched o w :
  calm check_resched ->
  swo_on (Dm (tasks w)) (order (tasks w)) -> dom_ok w -> active w o ->
  wp (on_release_timer (default_release_jobs order check_resched) o)
    (fun _ w' => released o w w' /\ dom_ok w') w.
Proof.
  intros Hcheck Ho Hw Ha.
  unfold on_release_timer, default_release_jobs, merge_ready, __merge_ready, get_rheap, upd_rheap, upd_dom. wp_steps.
  match goal with |- wp _ _ ?w1 => destruct (dom_ok_release w w1 o
    (pq_union (order (tasks w)) (ready_queue (doms w (rh_dom (rheaps w o)))) (rh_heap (rheaps w o)))) as [Hr1 Hw1] end;
    try done.
  - intros x Hx. simpl. by rewrite !upd_ne.
  - simpl. by rewrite !upd_eq.
  - intros d'. simpl. unfold upd. repeat case_decide; subst; simpl; apply Hw.
  - intros d' i. simpl. unfold upd. repeat case_decide; by subst.
  - intros d'. simpl. unfold upd. repeat case_decide; subst; done.
  - rewrite pq_union_elems. done.
  - apply pq_union_wf; [done|apply Hw|by apply Hw].
  - eapply wp_mono; [apply Hcheck; [|done]|].
    + eapply swo_core; [apply Hr1|done].
    + intros _ w2 [Hq2 Hw2]. wp_steps. split; [by eapply released_quiet|done].
Qed.

End Invariant.
