(* ===== verification/EdfDomain.v ===== *)
(** * EDF domains

    [edf_domain_init] and [edf_preemption_needed] of
    src/litmus2010/litmus/edf_common.c: a real-time domain whose queues are
    ordered by EDF priority.  The invariant of RtInv.v is instantiated with
    that order.  Deadlines are below [2^63] (292 years of uptime), where the
    comparison of times is an order. *)

From stdpp Require Import sorting.
From S2P Require Import Prelude Task Edf PrioQueue Kernel RtDomain RtInv.
Open Scope Z_scope.

Section EdfDomain.
Context {Q : Type -> Type} `{PrioQueue Q} {P : Type}.
Abbreviation K := (M (world Q P)).

(** [resched] and [release] go into the domain, see RtDomain.v *)
Definition edf_domain_init (d : Z) : K unit := rt_domain_init d.

Definition edf_preemption_needed (d : Z) (t : option tid) : K bool :=
  pending ← __jobs_pending d;
  if negb pending then mret false           (* nothing pending *)
  else
    match t with
    | None => mret true                     (* t doesn't exist *)
    | Some t =>
        x ← get_task t;
        if negb (is_realtime x) then mret true  (* get non-rt stuff out of the way *)
        else
          hn ← __next_ready edf_ready_order d;
          T ← gets tasks;
          mret (edf_higher_prio T hn (Some t))
    end.

End EdfDomain.

(** ** The invariant, for EDF *)
Definition edf_ok (T : tid -> task_struct) : tid -> Prop := edf_dom T 0.

Lemma core_same_prio x y : core x = core y -> same_prio x y.
Proof.
  intros E. split_and!; by eapply (core_field _ x y).
Qed.

Lemma edf_order_core T T' a b :
  (forall x, core (T x) = core (T' x)) -> edf_ready_order T a b = edf_ready_order T' a b.
Proof. intros E. apply edf_higher_prio_ext. intros x. by apply core_same_prio. Qed.

Lemma edf_ok_core T T' a : (forall x, core (T x) = core (T' x)) -> edf_ok T a -> edf_ok T' a.
Proof.
  intros E. unfold edf_ok, edf_dom, eff. destruct (core_same_prio _ _ (E a)) as (-> & _).
  by destruct (core_same_prio _ _ (E (default a (inh_task (T' a))))) as (_ & _ & -> & ->).
Qed.

(** No task inherits a priority (the plugins without locking protocols). *)
Definition no_inheritance (T : tid -> task_struct) : Prop := forall x, inh_task (T x) = None.

Section Ok.
Context {Q : Type -> Type} `{PrioQueueLaws Q} {P : Type}.
Implicit Types (w : world Q P) (t : tid) (d : Z).

Definition edom_ok w : Prop := dom_ok edf_ready_order edf_ok w.

Lemma edf_order_local T T' a b :
  no_inheritance T -> no_inheritance T' -> T' a = T a -> T' b = T b ->
  edf_ready_order T' a b = edf_ready_order T a b.
Proof.
  intros HT HT' Ha Hb. unfold edf_ready_order, edf_higher_prio. simpl.
  rewrite !HT, !HT'. simpl. by rewrite !Ha, !Hb.
Qed.

Lemma edf_order_same T T' a b :
  no_inheritance T -> no_inheritance T' -> same_prio (T' a) (T a) -> same_prio (T' b) (T b) ->
  edf_ready_order T' a b = edf_ready_order T a b.
Proof.
  intros HT HT' (_ & Pa & _ & Da) (_ & Pb & Rb & Db).
  unfold edf_ready_order, edf_higher_prio, earlier_deadline, get_deadline, is_realtime in *. simpl.
  rewrite !HT, !HT'. simpl. by rewrite Pa, Da, Pb, Rb, Db.
Qed.

Lemma edf_ok_local T T' a :
  no_inheritance T -> no_inheritance T' -> T' a = T a -> edf_ok T a -> edf_ok T' a.
Proof. intros HT HT' Ha. unfold edf_ok, edf_dom, eff. rewrite HT, HT'. simpl. by rewrite Ha. Qed.

Lemma edf_ok_intro T t :
  no_inheritance T -> is_realtime (T t) = true -> 0 <= get_deadline (T t) < two63 -> edf_ok T t.
Proof. intros HT Hr Hd. unfold edf_ok, edf_dom, eff. rewrite HT. done. Qed.

(** A task that is in no queue may change. *)
Lemma edom_ok_other w t T' :
  edom_ok w -> in_heap (tasks w t) = false -> in_heap (T' t) = false ->
  no_inheritance (tasks w) -> no_inheritance T' -> (forall y, y <> t -> T' y = tasks w y) ->
  edom_ok (set_tasks T' w).
Proof.
  intros Hw Ht Hx Hni Hni' HT.
  assert (forall y p, at_place w y p -> y <> t) as Hne.
  { intros y p Hp ->. by eapply (unqueued_nowhere edf_ready_order edf_ok) in Hp. }
  assert (forall q : Q tid, (forall y, y ∈ pq_elems q -> y <> t) ->
    pq_wf (edf_ok (tasks w)) (edf_ready_order (tasks w)) q ->
    pq_wf (edf_ok T') (edf_ready_order T') q) as Hwf.
  { intros q Hq Hwf. eapply pq_wf_ext; [exact Hwf| |].
    - pose proof (pq_wf_D _ _ _ Hwf) as HD. rewrite Forall_forall in *. intros y Hy.
      eapply (edf_ok_local (tasks w)); [done..| |by apply HD]. by rewrite HT by auto.
    - intros a b Ha Hb. apply edf_order_local; [done..| |]; by rewrite HT by auto. }
  destruct Hw. split; try done.
  - intros y. cbn. destruct (decide (y = t)) as [->|Hy].
    + rewrite Hx. split; [done|]. intros [p Hp]. by destruct (Hne t p Hp).
    + rewrite HT by done. apply qo_heap.
  - intros o y Ho Hy. cbn. rewrite HT; [by apply qo_time|]. by eapply (Hne y (PRelease (rh_dom (rheaps w o)) o)).
  - intros d. apply Hwf; [|apply qo_ready_wf]. intros y Hy. by eapply (Hne y (PReady d)).
  - intros o Ho. apply Hwf; [|by apply qo_rel_wf].
    intros y Hy. by eapply (Hne y (PRelease (rh_dom (rheaps w o)) o)).
Qed.

Lemma edom_ok_upd w t x :
  edom_ok w -> in_heap (tasks w t) = false -> in_heap x = false ->
  no_inheritance (tasks w) -> inh_task x = None ->
  edom_ok (set_tasks (upd (tasks w) t x) w) /\ no_inheritance (upd (tasks w) t x).
Proof.
  intros Hw Ht Hx Hni Hxi.
  assert (no_inheritance (upd (tasks w) t x)) as Hni' by (intros y; unfold upd; by case_decide).
  split; [|done]. apply (edom_ok_other w t); [done|done|by rewrite upd_eq|done|done|]. intros y Hy. by apply upd_ne.
Qed.

(** Tasks may change in what neither priorities nor releases depend on. *)
Lemma edom_ok_prio w T' :
  edom_ok w -> (forall x, same_prio (T' x) (tasks w x)) ->
  (forall x, get_release (T' x) = get_release (tasks w x)) ->
  (forall x, in_heap (T' x) = in_heap (tasks w x)) -> edom_ok (set_tasks T' w).
Proof.
  intros [] Hp Hr Hh.
  assert (forall q : Q tid, pq_wf (edf_ok (tasks w)) (edf_ready_order (tasks w)) q ->
    pq_wf (edf_ok T') (edf_ready_order T') q) as Hwf.
  { intros q Hq. eapply pq_wf_ext; [exact Hq| |].
    - eapply Forall_impl; [by eapply pq_wf_D|]. intros x. unfold edf_ok, edf_dom, eff.
      destruct (Hp x) as (-> & _). by destruct (Hp (default x (inh_task (tasks w x)))) as (_ & _ & -> & ->).
    - intros a b _ _. apply edf_higher_prio_ext. intros y. apply Hp. }
  split; try done.
  - intros x. cbn. rewrite Hh. apply qo_heap.
  - intros o x Ho Hx. cbn. rewrite Hr. by apply qo_time.
  - intros d. apply Hwf, qo_ready_wf.
  - intros o Ho. by apply Hwf, qo_rel_wf.
Qed.

(** The domains as [rt_domain_init] leaves them *)
Lemma blank_domains w :
  (forall d, doms w d = mk_rt_domain pq_init (fun _ => []) [] NO_CPU) -> (forall o, rh_timer (rheaps w o) = None) ->
  (forall x, in_heap (tasks w x) = false) -> edom_ok w /\ forall x p, ~ at_place w x p.
Proof.
  intros Hd Ht Hh.
  assert (forall x p, ~ at_place w x p) as Hno.
  { intros x [d|d o]; simpl; unfold ready_elems, active.
    - rewrite Hd. simpl. rewrite pq_init_elems. apply not_elem_of_nil.
    - rewrite Ht. by intros ([? ?] & _). }
  assert (forall o, ~ active w o) as Hna by (intros o; unfold active; rewrite Ht; by intros [? ?]).
  split; [|done]. split; try (intros o Ho; by destruct (Hna o)); try (intros o ? Ho; by destruct (Hna o)).
  - intros t p p' Hp1. by destruct (Hno t p).
  - intros t. rewrite Hh. split; [done|]. intros [p Hp1]. by destruct (Hno t p).
  - intros d. unfold ready_elems. rewrite Hd. simpl. rewrite pq_init_elems. constructor.
  - intros d i o. rewrite Hd. simpl. split; [by intros ?%elem_of_nil|]. intros (Ha & _). by destruct (Hna o).
  - intros d i. rewrite Hd. constructor.
  - intros d. by rewrite Hd.
  - intros d. rewrite Hd. apply pq_init_wf.
Qed.

Lemma edom_ok_clock w c ds : edom_ok w -> edom_ok (set_elapse ds (set_clock c w)).
Proof. intros []. by split. Qed.

Lemma edom_ok_plugin w p : edom_ok w -> edom_ok (set_plugin p w).
Proof. intros []. by split. Qed.

Lemma at_place_clock w c ds t p : at_place (set_elapse ds (set_clock c w)) t p = at_place w t p.
Proof. done. Qed.

(** [__jobs_pending] *)
Lemma jobs_pending_spec d w (Φ : bool -> world Q P -> Prop) :
  Φ (bool_decide (ready_elems w d <> [])) w -> wp (__jobs_pending d) Φ w.
Proof.
  intros HΦ. unfold __jobs_pending, get_dom. wp_steps.
  replace (negb (pq_empty (ready_queue (doms w d)))) with (bool_decide (ready_elems w d <> [])); [done|].
  destruct (pq_empty _) eqn:E; simpl.
  - apply pq_empty_elems in E. by apply bool_decide_false; intros [].
  - apply bool_decide_true. intros E'. apply pq_empty_elems in E'. congruence.
Qed.

(** The test changes nothing but the cache of a heap. *)
Lemma preemption_needed_calm d (ot : option tid) w :
  swo_on (edf_ok (tasks w)) (edf_ready_order (tasks w)) -> edom_ok w ->
  wp (edf_preemption_needed d ot) (fun _ w' => quiet w w' /\ edom_ok w') w.
Proof.
  intros Ho Hw. unfold edf_preemption_needed, get_task. wp_steps. apply jobs_pending_spec.
  destruct (negb _); [done|]. destruct ot as [t|]; [|done]. wp_steps. destruct (negb _); [done|]. wp_steps.
  eapply wp_mono; [exact (next_ready_spec edf_ready_order edf_ok d w Ho Hw)|].
  intros hn w1 (Hq1 & Hw1 & _). by wp_steps.
Qed.

(** [e] should run instead of [ot]. *)
Definition beats w (ot : option tid) (e : tid) : Prop :=
  match ot with
  | None => True
  | Some t => is_realtime (tasks w t) = false \/ edf_higher_prio (tasks w) (Some e) (Some t) = true
  end.

(** The test finds a ready task that should run instead of [ot] exactly when
    there is one. *)
Lemma preemption_needed_spec d (ot : option tid) w :
  pids_unique (tasks w) -> edom_ok w ->
  (forall t, ot = Some t -> is_realtime (tasks w t) = true -> edf_ok (tasks w) t) ->
  wp (edf_preemption_needed d ot) (fun b w' => quiet w w' /\ edom_ok w' /\ tasks w' = tasks w /\
    (b = true <-> Exists (beats w ot) (ready_elems w d))) w.
Proof.
  intros Hu Hw Hok. pose proof (edf_swo (tasks w) 0 Hu) as Ho. unfold edf_preemption_needed. wp_steps.
  apply jobs_pending_spec. case_bool_decide as He; simpl.
  2: { wp_steps. split_and!; [done..|]. split; [done|].
       rewrite He. intros Hex. by inversion Hex. }
  assert (exists e l, ready_elems w d = e :: l) as (e & l & El)
    by (destruct (ready_elems w d); [done|eauto]).
  destruct ot as [t|]; wp_steps.
  2: { split_and!; [done..|]. split; [|done]. intros _. rewrite El. by constructor. }
  unfold get_task. wp_steps. destruct (is_realtime (tasks w t)) eqn:Er; simpl.
  2: { wp_steps. split_and!; [done..|]. split; [|done]. intros _. rewrite El. constructor. by left. }
  wp_steps. eapply wp_mono; [exact (next_ready_spec edf_ready_order edf_ok d w Ho Hw)|].
  intros hn w1 (Hq1 & Hw1 & Ht1 & Hbest). wp_steps. split_and!; [done..|]. rewrite Ht1.
  destruct hn as [b|]; [|by rewrite El in Hbest]. destruct Hbest as [Hin Hbest]. rewrite Exists_exists. split.
  - intros E. exists b. split; [done|by right].
  - intros (e' & Hin' & [Hr|He']); [congruence|].
    destruct (edf_higher_prio (tasks w) (Some b) (Some t)) eqn:E; [done|].
    rewrite Forall_forall in Hbest. specialize (Hbest e' Hin').
    pose proof (pq_wf_D _ _ _ (qo_ready_wf _ _ _ Hw d)) as HD. rewrite Forall_forall in HD.
    assert (edf_ready_order (tasks w) e' t = false); [|unfold edf_ready_order in *; congruence].
    eapply (swo_neg_trans _ _ Ho e' b t); [by apply HD|by apply HD|by apply Hok|done|done].
Qed.

(** ** The operations of RtInv.v, for EDF domains *)
Definition ecalm (c : Z -> M (world Q P) bool) : Prop := calm edf_ready_order edf_ok c.

Lemma dummy_calm : ecalm dummy_resched.
Proof. intros d w _ Hw. unfold dummy_resched. by wp_steps. Qed.

Lemma pids_unique_core w w' : same_env w w' -> pids_unique (tasks w) -> pids_unique (tasks w').
Proof.
  intros He Hu a b E. apply Hu.
  by rewrite <- !(core_field pid _ _ (fun _ => eq_refl) (se_core _ _ He _)).
Qed.

Lemma edf_take_spec d w :
  pids_unique (tasks w) -> edom_ok w ->
  wp (__take_ready edf_ready_order d) (fun hn w' => edom_ok w' /\
    match hn with
    | None => ready_elems w d = [] /\ quiet w w'
    | Some t => t ∈ ready_elems w d /\ moved t None w w' /\
        Forall (fun e => edf_ready_order (tasks w) e t = false) (ready_elems w d)
    end) w.
Proof. intros Hu Hw. exact (take_ready_spec _ _ edf_order_core edf_ok_core d w (edf_swo _ 0 Hu) Hw). Qed.

Lemma edf_add_ready_spec c d t w :
  ecalm c -> pids_unique (tasks w) -> edom_ok w -> in_heap (tasks w t) = false -> edf_ok (tasks w) t ->
  wp (__add_ready edf_ready_order c d t) (fun _ w' => moved t (Some (PReady d)) w w' /\ edom_ok w') w.
Proof.
  intros Hc Hu Hw Ht Hok.
  exact (add_ready_spec _ _ edf_order_core edf_ok_core c Hc d t w (edf_swo _ 0 Hu) Hw Ht Hok).
Qed.

Lemma edf_remove_spec d t w :
  pids_unique (tasks w) -> edom_ok w -> at_place w t (PReady d) ->
  wp (remove edf_ready_order d t) (fun _ w' => moved t None w w' /\ edom_ok w') w.
Proof. intros Hu. exact (remove_spec _ _ edf_order_core edf_ok_core d t w (edf_swo _ 0 Hu)). Qed.

Lemma edf_add_release_on_spec d c t w :
  pids_unique (tasks w) -> edom_ok w -> in_heap (tasks w t) = false -> edf_ok (tasks w) t ->
  0 <= get_release (tasks w t) < two63 ->
  wp (__add_release_on edf_ready_order d t c)
    (fun _ w' => (exists o, moved t (Some (PRelease d o)) w w') /\ edom_ok w') w.
Proof. intros Hu. exact (add_release_on_spec _ _ edf_order_core edf_ok_core d c t w (edf_swo _ 0 Hu)). Qed.

Lemma edf_add_release_spec d t w :
  pids_unique (tasks w) -> edom_ok w -> in_heap (tasks w t) = false -> edf_ok (tasks w) t ->
  0 <= get_release (tasks w t) < two63 ->
  wp (__add_release edf_ready_order d t)
    (fun _ w' => (exists o, moved t (Some (PRelease d o)) w w') /\ edom_ok w') w.
Proof. apply (edf_add_release_on_spec d NO_CPU). Qed.

Lemma edf_timer_spec c o w :
  ecalm c -> pids_unique (tasks w) -> edom_ok w -> active w o ->
  wp (on_release_timer (default_release_jobs edf_ready_order c) o)
    (fun _ w' => released o w w' /\ edom_ok w') w.
Proof.
  intros Hc Hu. exact (on_release_timer_spec _ _ edf_order_core edf_ok_core c o w Hc (edf_swo _ 0 Hu)).
Qed.

Lemma edf_preempt_spec (ot : option tid) c w :
  edom_ok w -> wp (preempt_if_preemptable ot c) (fun _ w' => quiet w w' /\ edom_ok w') w.
Proof. exact (preempt_spec _ _ edf_order_core edf_ok_core ot c w). Qed.

(** Pokes: changes of tasks outside [core] and the heap flag. *)
Lemma edf_poke_spec t f w :
  poke f -> edom_ok w -> wp (upd_task t f) (fun _ w' => quiet w w' /\ edom_ok w') w.
Proof. exact (poke_spec _ _ edf_order_core edf_ok_core t f w). Qed.

End Ok.
