(* ===== verification/Partitioned.v ===== *)
(** * Partitioned plugins

    What the plugins with one EDF domain per processor share (PSN-EDF, EDF-fm,
    EDF-WM, C=D and HIME): the per-CPU state, the preemption request and the
    reschedule check, which are the same in all of them, and the invariant of
    their queues. *)

From stdpp Require Import sorting.
From S2P Require Import Prelude Task Edf PrioQueue Kernel RtDomain RtInv EdfDomain.
Open Scope Z_scope.

(** [psnedf_domain_t], [wm_domain_t], ...: the domain itself is in [doms]. *)
Record pcpu_state : Type := mk_pcpu {
  pcpu : Z;                 (* cpu *)
  scheduled : option tid    (* only RT tasks *)
}.

(** The state of a partitioned plugin: one entry per CPU. *)
Abbreviation pstate := (Z -> pcpu_state).

Section Ops.
Context {Q : Type -> Type} `{PrioQueue Q}.
Abbreviation world := (world Q pstate).
Abbreviation K := (M world).

Definition get_scheduled (c : Z) : K (option tid) := gets (fun w => scheduled (plugin w c)).
Definition get_pcpu (c : Z) : K Z := gets (fun w => pcpu (plugin w c)).
Definition set_scheduled (c : Z) (t : option tid) : K unit :=
  modify (fun w => set_plugin (upd (plugin w) c (mk_pcpu (pcpu (plugin w c)) t)) w).

(** [edf_domain_init(...); pedf->cpu = cpu; pedf->scheduled = NULL] *)
Definition pedf_domain_init (c : Z) : K unit :=
  edf_domain_init c;;
  modify (fun w => set_plugin (upd (plugin w) c (mk_pcpu c None)) w).

End Ops.

(** ** Relations between states *)

Definition place_dom (p : place) : Z := match p with PReady d => d | PRelease d _ => d end.

Section Moves.
Context {Q : Type -> Type} `{PrioQueueLaws Q} {P : Type}.
Implicit Types (w : world Q P) (t : tid) (x : task_struct).

(** Besides the clock and requests for preemption, the task [t] changes to [x]
    and is moved to [p]. *)
Record moves t x (p : option place) w w' : Prop := {
  ms_at y q : at_place w' y q <-> if decide (y = t) then p = Some q else at_place w y q;
  ms_core y : core (tasks w' y) = core (if decide (y = t) then x else tasks w y);
  ms_cpu : this_cpu w' = this_cpu w;
  ms_curr : curr w' = curr w;
  ms_tick : tick_period w' = tick_period w;
  ms_plugin : plugin w' = plugin w
}.

Lemma moves_of_moved t p w w' : moved t p w w' -> moves t (tasks w t) p w w'.
Proof.
  intros [[] A]. split; try done. intros y. rewrite se_core. case_decide; by subst.
Qed.

Lemma moves_quiet t x p w1 w2 w3 : moves t x p w1 w2 -> quiet w2 w3 -> moves t x p w1 w3.
Proof.
  intros [A1 C1 ? ? ? ?] [[] A2]. split; try congruence.
  - intros y q. by rewrite A2, A1.
  - intros y. by rewrite se_core, C1.
Qed.

Lemma moves_trans t x p x' p' w1 w2 w3 :
  moves t x p w1 w2 -> moves t x' p' w2 w3 -> moves t x' p' w1 w3.
Proof.
  intros [A1 C1 ? ? ? ?] [A2 C2 ? ? ? ?]. split; try congruence.
  - intros y q. rewrite A2. case_decide; [done|]. by rewrite A1, decide_False.
  - intros y. rewrite C2. case_decide; [done|]. by rewrite C1, decide_False.
Qed.

Lemma moves_core_eq t x x' p w w' : core x = core x' -> moves t x p w w' -> moves t x' p w w'.
Proof. intros E []. split; try done. intros y. rewrite ms_core0. by case_decide. Qed.

(** ** The clock *)
(** The latest time the code can see. *)
Definition time_end w : Z := clock w + sum_Z (elapse w).
Definition clock_ok w : Prop := 0 <= clock w /\ Forall (fun d => 0 <= d) (elapse w).

Definition clock_to (c : Z) (ds : list Z) w : world Q P := set_elapse ds (set_clock c w).

Lemma clock_spec w (Φ : Z -> world Q P -> Prop) :
  clock_ok w ->
  (forall c ds, clock w <= c <= time_end w -> clock_ok (clock_to c ds w) ->
     time_end (clock_to c ds w) = time_end w -> Φ c (clock_to c ds w)) ->
  wp litmus_clock Φ w.
Proof.
  intros [H0c He] HΦ. unfold wp, litmus_clock. pose proof (sum_Z_nonneg _ He) as Hs. unfold time_end in *.
  destruct (elapse w) as [|d ds] eqn:E; simpl in *.
  - replace w with (clock_to (clock w) [] w) at 2 by (destruct w; simpl in *; by subst).
    apply HΦ; [lia| |simpl; lia]. split; [done|constructor].
  - apply Forall_cons in He as [Hd He]. pose proof (sum_Z_nonneg _ He). apply HΦ; [lia| |simpl; lia].
    split; simpl; [lia|done].
Qed.

Lemma moves_clock t c ds w :
  (forall p, ~ at_place w t p) -> moves t (tasks w t) None w (clock_to c ds w).
Proof.
  intros Hno. split; try done.
  - intros y q. change (at_place (clock_to c ds w) y q) with (at_place w y q). case_decide; [subst|done]. split; [|done]. intros Hq. by destruct (Hno q).
  - intros y. simpl. by case_decide; subst.
Qed.

Lemma moves_upd t x w :
  (forall p, ~ at_place w t p) -> moves t x None w (set_tasks (upd (tasks w) t x) w).
Proof.
  intros Hno. split; try done.
  intros y q. case_decide; [subst|done]. split; [|done]. intros Hq. by destruct (Hno q).
Qed.

(** The clock and the parameters of the tasks leave room for one more job
    before time wraps. *)
Record time_ok w : Prop := {
  to_clock : clock_ok w;
  to_task t : is_realtime (tasks w t) = true ->
    0 <= get_release (tasks w t) < two63 /\ 0 <= get_deadline (tasks w t) /\ 0 <= get_rt_period (tasks w t) /\
    get_deadline (tasks w t) + get_rt_period (tasks w t) < two63 /\
    time_end w + get_rt_period (tasks w t) < two63
}.

(** Time goes on, but not beyond what is still to come. *)
Definition timed w w' : Prop :=
  clock w <= clock w' /\ (clock_ok w -> clock_ok w') /\ time_end w' = time_end w.

Lemma timed_refl w : timed w w.
Proof. split_and!; done. Qed.
Lemma timed_trans w1 w2 w3 : timed w1 w2 -> timed w2 w3 -> timed w1 w3.
Proof. intros (? & ? & ?) (? & ? & ?). split_and!; [lia|auto|congruence]. Qed.
Lemma timed_same w w' : clock w' = clock w -> elapse w' = elapse w -> timed w w'.
Proof. intros E1 E2. unfold timed, clock_ok, time_end. rewrite E1, E2. split_and!; done. Qed.
Lemma env_timed w w' : same_env w w' -> timed w w'.
Proof. intros E. apply timed_same; apply E. Qed.

(** The clock and the jobs of the tasks are within the range of time. *)
Record in_time w : Prop := {
  it_clock : clock_ok w;
  it_task t : is_realtime (tasks w t) = true ->
    0 <= get_release (tasks w t) < two63 /\ 0 <= get_deadline (tasks w t) < two63 /\ time_end w < two63
}.

Lemma time_ok_in_time w : time_ok w -> in_time w.
Proof. intros [Hk Ht]. split; [done|]. intros t Hr. specialize (Ht t Hr). lia. Qed.

(** The next job of a task, within the range of time. *)
Lemma next_job_window x :
  0 <= get_deadline x -> 0 <= get_rt_period x -> get_deadline x + get_rt_period x < two63 ->
  let y := prepare_for_next_period x in
  get_release y = get_deadline x /\ get_deadline y = get_deadline x + get_rt_period x /\
  get_exec_time y = 0.
Proof.
  intros. split_and!; [done| |done]. cbn. rewrite u64_id; [done|]. unfold is_u64, two63, two64 in *. 
  unfold get_deadline, get_rt_period in *. lia.
Qed.

(** The times of a job released at [now]. *)
Lemma release_at_window now x :
  0 <= now -> 0 <= get_rt_period x -> now + get_rt_period x < two63 ->
  get_release (release_at now x) = now /\ get_deadline (release_at now x) = now + get_rt_period x.
Proof.
  intros. destruct (next_job_window (on_job (set_deadline now) x)) as (Hr & Hd & _); done.
Qed.

Lemma moves_same_prio t x p w w' :
  moves t x p w w' -> same_prio x (tasks w t) -> forall y, same_prio (tasks w' y) (tasks w y).
Proof.
  intros M Hx y. pose proof (ms_core _ _ _ _ _ M y) as E. apply core_same_prio in E.
  case_decide; [subst|done]. unfold same_prio in *. intuition congruence.
Qed.

Lemma order_moves t x p w w' a b :
  moves t x p w w' -> same_prio x (tasks w t) ->
  edf_ready_order (tasks w') a b = edf_ready_order (tasks w) a b.
Proof. intros M Hx. apply edf_higher_prio_ext. intros y. by eapply moves_same_prio. Qed.

Lemma quiet_moves t w w' :
  (forall p, ~ at_place w t p) -> quiet w w' -> moves t (tasks w t) None w w'.
Proof.
  intros Hno [[] A]. split; try done.
  - intros y q. rewrite A. case_decide; [subst|done]. split; [|done]. intros Hq. by destruct (Hno q).
  - intros y. rewrite se_core. case_decide; by subst.
Qed.

End Moves.

(** ** Requeueing and picking *)
Section Requeue.
Context {Q : Type -> Type} `{PrioQueueLaws Q} {P : Type}.
Abbreviation world := (world Q P).
Implicit Types (w : world) (t : tid) (d : Z) (s : Z -> option tid).

(** What requeueing needs of the task. *)
Record queueable w t : Prop := {
  qb_heap : in_heap (tasks w t) = false;
  qb_rt : is_realtime (tasks w t) = true;
  qb_deadline : 0 <= get_deadline (tasks w t) < two63;
  qb_release : 0 <= get_release (tasks w t) < two63
}.

(** The task is marked as running and the time is read. *)
Record prepared t w w2 : Prop := {
  pp_dom : edom_ok w2;
  pp_pids : pids_unique (tasks w2);
  pp_task : tasks w2 t = set_rt_flags RT_F_RUNNING (tasks w t);
  pp_heap : in_heap (tasks w2 t) = false;
  pp_ok : edf_ok (tasks w2) t;
  pp_release : 0 <= get_release (tasks w2 t) < two63;
  pp_moves : moves t (set_rt_flags RT_F_RUNNING (tasks w t)) None w w2
}.

Lemma requeue_begin t w (Φ : Z -> world -> Prop) :
  edom_ok w -> pids_unique (tasks w) -> no_inheritance (tasks w) -> clock_ok w -> queueable w t ->
  (forall now w2, prepared t w w2 -> Φ now w2) ->
  wp (upd_task t (set_rt_flags RT_F_RUNNING)) (fun _ => wp litmus_clock Φ) w.
Proof.
  intros Hw Hu Hni Hc [Hh Hr Hd Hrel] HΦ. unfold upd_task. wp_steps.
  set (x := set_rt_flags RT_F_RUNNING (tasks w t)). set (w1 := set_tasks _ w).
  destruct (edom_ok_upd w t x Hw Hh Hh Hni (Hni t)) as [Hw1 Hni1]. fold w1 in Hw1.
  assert (forall p, ~ at_place w t p) as Hno by (intros p; by apply (unqueued_nowhere edf_ready_order edf_ok)).
  pose proof (moves_upd t x w Hno) as M1. fold w1 in M1.
  apply clock_spec; [exact Hc|]. intros c ds _ _ _. apply HΦ. set (w2 := clock_to c ds w1).
  assert (tasks w2 t = x) as Hx by (by simpl; rewrite upd_eq).
  split; fold x; rewrite ?Hx; try done.
  - by apply edom_ok_clock.
  - intros a a' E. apply Hu. revert E. simpl. unfold upd. by repeat case_decide; subst.
  - apply edf_ok_intro; [done|by rewrite Hx..].
  - eapply moves_trans; [exact M1|]. pose proof (moves_clock t c ds w1 Hno) as Mc. fold w2 in Mc.
    assert (tasks w1 t = x) as Ex by exact Hx. by rewrite Ex in Mc.
Qed.

(** What requeueing establishes, in the domain [d]. *)
Definition requeued t (d : Z) w w' : Prop :=
  edom_ok w' /\ (exists p, place_dom p = d /\ moves t (set_rt_flags RT_F_RUNNING (tasks w t)) (Some p) w w').

Lemma prepared_ready c t d w w2 :
  ecalm c -> prepared t w w2 -> wp (__add_ready edf_ready_order c d t) (fun _ w' => requeued t d w w') w2.
Proof.
  intros Hc [Hw2 Hu2 Hx Hh Hok Hrel M2]. eapply wp_mono; [by apply edf_add_ready_spec|].
  intros _ w3 [M3%moves_of_moved Hw3]. split; [done|]. exists (PReady d). split; [done|].
  rewrite Hx in M3. by eapply moves_trans.
Qed.

Lemma prepared_release t d target w w2 :
  prepared t w w2 -> wp (__add_release_on edf_ready_order d t target) (fun _ w' => requeued t d w w') w2.
Proof.
  intros [Hw2 Hu2 Hx Hh Hok Hrel M2]. eapply wp_mono; [by apply edf_add_release_on_spec|].
  intros _ w3 [(o & M3%moves_of_moved) Hw3]. split; [done|]. exists (PRelease d o). split; [done|].
  rewrite Hx in M3. by eapply moves_trans.
Qed.

(** The task is queued or running. *)
Definition tracked s w t : Prop := (exists p, at_place w t p) \/ (exists c, s c = Some t).

(** No ready task of domain [c] has a higher priority than [next]. *)
Definition best w c (next : option tid) : Prop :=
  match next with
  | None => ready_elems w c = []
  | Some n => Forall (fun e => edf_ready_order (tasks w) e n = false) (ready_elems w c)
  end.

Lemma elem_ready_quiet w w' t d : quiet w w' -> t ∈ ready_elems w' d <-> t ∈ ready_elems w d.
Proof. intros Hq. apply (qt_at _ _ Hq t (PReady d)). Qed.

Lemma order_quiet w w' a b : quiet w w' -> edf_ready_order (tasks w') a b = edf_ready_order (tasks w) a b.
Proof. intros Hq. apply edf_order_core. intros x. apply Hq. Qed.

(** Moving a task to another domain does not matter here. *)
Lemma best_other t x p d w w' next :
  moves t x (Some p) w w' -> place_dom p <> d -> same_prio x (tasks w t) -> best w d next -> best w' d next.
Proof.
  intros M Hp Hx. assert (forall e, e ∈ ready_elems w' d -> e ∈ ready_elems w d) as He.
  { intros e He. apply (ms_at _ _ _ _ _ M e (PReady d)) in He. case_decide; [|done]. by injection He as ->. }
  destruct next as [n|]; simpl.
  - rewrite !Forall_forall. intros Hb e Hin. rewrite (order_moves t x _ w w' e n M Hx). auto.
  - intros Hb. destruct (ready_elems w' d) as [|e l]; [done|]. rewrite Hb in He.
    destruct (not_elem_of_nil e). apply He. by left.
Qed.

Lemma tracked_queued s t x p w w' u :
  moves t x (Some p) w w' -> tracked s w' u <-> u = t \/ tracked s w u.
Proof.
  intros M. destruct (decide (u = t)) as [->|Hu].
  - split; [by left|]. intros _. left. exists p. apply M. by rewrite decide_True.
  - unfold tracked. assert (forall q, at_place w' u q <-> at_place w u q) as Hat; [|naive_solver].
    intros q. rewrite (ms_at _ _ _ _ _ M). by rewrite decide_False.
Qed.

End Requeue.

(** ** Preemption requests and requeueing *)
Section Calm.
Context {Q : Type -> Type} `{PrioQueueLaws Q}.
Abbreviation world := (world Q pstate).
Abbreviation K := (M world).
Implicit Types (w : world) (t : tid) (d : Z).

(** [preempt] of the plugins without non-preemptive sections passes NULL. *)
Definition preempt_cpu (np_aware : bool) (d : Z) : K unit :=
  s ← get_scheduled d;
  c ← get_pcpu d;
  preempt_if_preemptable (if np_aware then s else None) c.

(** [psnedf_check_resched], [wm_check_resched], ... *)
Definition pedf_check_resched (np_aware : bool) (d : Z) : K bool :=
  s ← get_scheduled d;
  needed ← edf_preemption_needed d s;
  if (needed : bool) then preempt_cpu np_aware d;; mret true else mret false.

(** [requeue], [wm_requeue_local], ...: [t] goes into the ready queue or, if its
    job is not released yet, into the release queue. *)
Definition pedf_requeue (np_aware : bool) (t : tid) (d : Z) : K unit :=
  upd_task t (set_rt_flags RT_F_RUNNING);;
  now ← litmus_clock;
  x ← get_task t;
  if is_released x now then __add_ready edf_ready_order (pedf_check_resched np_aware) d t
  else add_release edf_ready_order d t.

Lemma preempt_cpu_spec b d w :
  edom_ok w -> wp (preempt_cpu b d) (fun _ w' => quiet w w' /\ edom_ok w') w.
Proof. intros Hw. unfold preempt_cpu, get_scheduled, get_pcpu. wp_steps. by apply edf_preempt_spec. Qed.

Lemma check_resched_calm b : ecalm (pedf_check_resched b).
Proof.
  intros d w Ho Hw. unfold pedf_check_resched, get_scheduled. wp_steps.
  eapply wp_mono; [by apply preemption_needed_calm|]. intros needed w1 [Hq1 Hw1].
  destruct needed; wp_steps; [|done].
  eapply wp_mono; [by apply preempt_cpu_spec|]. intros _ w2 [Hq2 Hw2]. wp_steps.
  split; [by eapply quiet_trans|done].
Qed.

(** With the CPU that arms the release timer. *)
Lemma requeue_on_spec b t d (target : task_struct -> Z) w :
  edom_ok w -> pids_unique (tasks w) -> no_inheritance (tasks w) -> clock_ok w -> queueable w t ->
  wp (upd_task t (set_rt_flags RT_F_RUNNING);;
      now ← litmus_clock;
      x ← get_task t;
      if is_released x now then __add_ready edf_ready_order (pedf_check_resched b) d t
      else __add_release_on edf_ready_order d t (target x)) (fun _ w' => requeued t d w w') w.
Proof.
  intros Hw Hu Hni Hc Hq. apply wp_bind.
  eapply wp_mono; [|intros ? w1 Hw1; apply wp_bind; exact Hw1].
  apply requeue_begin; [done..|]. intros now w2 Hp. unfold get_task. wp_steps. destruct (is_released _ _).
  - apply prepared_ready; [apply check_resched_calm|done].
  - by apply prepared_release.
Qed.

Lemma requeue_spec b t d w :
  edom_ok w -> pids_unique (tasks w) -> no_inheritance (tasks w) -> clock_ok w -> queueable w t ->
  wp (pedf_requeue b t d) (fun _ w' => edom_ok w' /\
    (exists p, place_dom p = d /\ moves t (set_rt_flags RT_F_RUNNING (tasks w t)) (Some p) w w')) w.
Proof. exact (requeue_on_spec b t d (fun _ => NO_CPU) w). Qed.

End Calm.

(** ** The invariant of the queues and the running tasks *)
Section Invariant.
Context {Q : Type -> Type} `{PrioQueueLaws Q}.
Abbreviation world := (world Q pstate).
Implicit Types (w : world) (t : tid) (s : Z -> option tid).

(** [s] says which real-time task each CPU runs. *)
Record part_inv s w : Prop := {
  pi_dom : edom_ok w;
  pi_pids : pids_unique (tasks w);
  pi_inh : no_inheritance (tasks w);
  pi_cpu c : pcpu (plugin w c) = c;
  (* a running task is in no queue, and runs once *)
  pi_sched c t : s c = Some t -> in_heap (tasks w t) = false /\ is_realtime (tasks w t) = true;
  pi_once c c' t : s c = Some t -> s c' = Some t -> c = c';
  (* a queued task is in the domain of its partition *)
  pi_part t p : at_place w t p -> get_partition (tasks w t) = place_dom p
}.

Definition sched_of w : Z -> option tid := fun c => scheduled (plugin w c).
Definition pinv w : Prop := part_inv (sched_of w) w.

Lemma part_inv_ext s s' w : (forall c, s' c = s c) -> part_inv s w -> part_inv s' w.
Proof. intros E []. split; try done; intros *; rewrite ?E; eauto. Qed.

Lemma part_inv_drop s c w : part_inv s w -> part_inv (upd s c None) w.
Proof.
  intros []. split; try done.
  - intros c' t. unfold upd. case_decide; [done|]. apply pi_sched0.
  - intros c1 c2 t. unfold upd. repeat case_decide; [done..|]. apply pi_once0.
Qed.

Lemma part_inv_run s c t w :
  part_inv s w -> in_heap (tasks w t) = false -> is_realtime (tasks w t) = true ->
  (forall c', s c' <> Some t) -> part_inv (upd s c (Some t)) w.
Proof.
  intros [] Hh Hr Hs. split; try done.
  - intros c' u. unfold upd. case_decide; [by intros [= <-]|]. apply pi_sched0.
  - intros c1 c2 u. unfold upd. repeat case_decide; subst; try done.
    + intros [= <-] E. by destruct (Hs c2).
    + intros E [= <-]. by destruct (Hs c1).
    + apply pi_once0.
Qed.

Lemma part_inv_plugin s c o w :
  part_inv s w -> part_inv s (set_plugin (upd (plugin w) c (mk_pcpu (pcpu (plugin w c)) o)) w).
Proof.
  intros []. split; try done; [by apply edom_ok_plugin|]. intros c'. simpl. unfold upd. case_decide; subst; apply pi_cpu0.
Qed.

Lemma part_inv_moves s t x p w w' :
  part_inv s w -> moves t x p w w' -> edom_ok w' ->
  pid x = pid (tasks w t) -> inh_task x = None -> is_realtime x = is_realtime (tasks w t) ->
  (forall q, p = Some q -> get_partition x = place_dom q /\ forall c, s c <> Some t) ->
  part_inv s w'.
Proof.
  intros [] M Hw' Hpid Hinh Hrt Hp.
  assert (forall {A} (f : task_struct -> A) y, (forall z, f (core z) = f z) ->
    f (tasks w' y) = f (if decide (y = t) then x else tasks w y)) as Hf.
  { intros A f y Hf. apply (core_field f); [done|]. apply M. }
  split; try done.
  - intros a b. rewrite !(Hf _ pid) by done. intros E. apply pi_pids0. revert E. repeat case_decide; subst; congruence.
  - intros y. rewrite (Hf _ inh_task) by done. case_decide; [done|apply pi_inh0].
  - intros c. rewrite (ms_plugin _ _ _ _ _ M). apply pi_cpu0.
  - intros c y Hy. destruct (pi_sched0 c y Hy) as [Hh Hr]. split.
    + destruct (in_heap (tasks w' y)) eqn:E; [|done]. apply (qo_heap _ _ _ Hw') in E as [q Hq].
      apply (ms_at _ _ _ _ _ M) in Hq. case_decide as Ey; [subst y|].
      * destruct (Hp q Hq) as [_ Hs]. by destruct (Hs c).
      * assert (in_heap (tasks w y) = true) by (apply (qo_heap _ _ _ pi_dom0); eauto). congruence.
    + rewrite (Hf _ is_realtime) by done. case_decide; subst; congruence.
  - intros y q Hq. rewrite (Hf _ get_partition) by done. apply (ms_at _ _ _ _ _ M) in Hq.
    case_decide; [by apply Hp|by apply pi_part0].
Qed.

Lemma part_inv_quiet s w w' : part_inv s w -> quiet w w' -> edom_ok w' -> part_inv s w'.
Proof.
  intros [] Hq Hw'. pose proof (qt_env _ _ Hq) as He. split; try done.
  - by eapply pids_unique_core.
  - intros y. rewrite (core_field inh_task (tasks w' y) (tasks w y)) by (done || apply He). apply pi_inh0.
  - intros c. rewrite (se_plugin _ _ He). apply pi_cpu0.
  - intros c y Hy. destruct (pi_sched0 c y Hy) as [Hh Hr]. split.
    + destruct (in_heap (tasks w' y)) eqn:E; [|done]. apply (qo_heap _ _ _ Hw') in E as [q E].
      apply (qt_at _ _ Hq) in E. assert (in_heap (tasks w y) = true) by (apply (qo_heap _ _ _ pi_dom0); eauto). congruence.
    + by rewrite (core_field is_realtime (tasks w' y) (tasks w y)) by (done || apply He).
  - intros y q E. apply (qt_at _ _ Hq) in E.
    rewrite (core_field get_partition (tasks w' y) (tasks w y)) by (done || apply He). by apply pi_part0.
Qed.

Lemma part_inv_released s o w w' :
  part_inv s w -> active w o -> released o w w' -> edom_ok w' -> part_inv s w'.
Proof.
  intros [] Ha Hrl Hw'. pose proof (rl_env _ _ _ Hrl) as He. split; try done.
  - by eapply pids_unique_core.
  - intros y. rewrite (core_field inh_task (tasks w' y) (tasks w y)) by (done || apply He). apply pi_inh0.
  - intros c. rewrite (se_plugin _ _ He). apply pi_cpu0.
  - intros c y Hy. destruct (pi_sched0 c y Hy) as [Hh Hr]. split.
    + destruct (in_heap (tasks w' y)) eqn:E; [|done]. apply (qo_heap _ _ _ Hw') in E as [q E].
      assert (in_heap (tasks w y) = true); [|congruence]. apply (qo_heap _ _ _ pi_dom0).
      apply (rl_at _ _ _ Hrl) in E. case_decide as Hin; [|eauto]. by exists (PRelease (rh_dom (rheaps w o)) o).
    + by rewrite (core_field is_realtime (tasks w' y) (tasks w y)) by (done || apply He).
  - intros y q E. apply (rl_at _ _ _ Hrl) in E.
    rewrite (core_field get_partition (tasks w' y) (tasks w y)) by (done || apply He).
    case_decide as Hin; [subst q|by apply pi_part0]. by apply (pi_part0 y (PRelease (rh_dom (rheaps w o)) o)).
Qed.

(** A running task is nowhere in the queues. *)
Lemma sched_nowhere s w c t p : part_inv s w -> s c = Some t -> ~ at_place w t p.
Proof.
  intros Hi Hs. apply (unqueued_nowhere edf_ready_order edf_ok); [apply Hi|]. by eapply (pi_sched _ _ Hi).
Qed.

Lemma queued_not_sched s w t p c : part_inv s w -> at_place w t p -> s c <> Some t.
Proof. intros Hi Hp Hs. by eapply (sched_nowhere s w c t p). Qed.

End Invariant.

Section Running.
Context {Q : Type -> Type} `{PrioQueueLaws Q}.
Abbreviation world := (world Q pstate).
Implicit Types (w : world) (t : tid) (x : task_struct) (s : Z -> option tid).

(** The running task [t] may change to [x] while it runs. *)
Record adjusted s t x w w' : Prop := {
  ad_inv : part_inv s w';
  ad_moves : moves t x None w w';
  ad_clock : clock_ok w'
}.

Lemma adjusted_upd s c t x w f :
  adjusted s t x w w -> s c = Some t -> in_heap (f (tasks w t)) = in_heap (tasks w t) ->
  pid (f (tasks w t)) = pid (tasks w t) -> inh_task (f (tasks w t)) = inh_task (tasks w t) ->
  is_realtime (f (tasks w t)) = is_realtime (tasks w t) ->
  wp (upd_task t f) (fun _ w' => adjusted s t (f (tasks w t)) w w') w.
Proof.
  intros [Hi M Hc] Hs Hh Hp Hn Hr. unfold upd_task. wp_steps.
  destruct (pi_sched _ _ Hi c t Hs) as [Hh0 _].
  assert (forall p, ~ at_place w t p) as Hno by (intros p; by eapply sched_nowhere).
  destruct (edom_ok_upd w t (f (tasks w t)) (pi_dom _ _ Hi) Hh0) as [Hw1 _]; [congruence|apply Hi|by rewrite Hn; apply Hi|].
  pose proof (moves_upd t (f (tasks w t)) w Hno) as M1.
  split; [|done|done]. eapply part_inv_moves; [exact Hi|exact M1|done..| |done|done]. rewrite Hn. apply Hi.
Qed.

Lemma adjusted_refl s c t w : part_inv s w -> s c = Some t -> clock_ok w -> adjusted s t (tasks w t) w w.
Proof.
  intros Hi Hs Hc. split; [done| |done]. apply quiet_moves; [|done]. intros p. by eapply sched_nowhere.
Qed.

Lemma adjusted_trans s t x x' w1 w2 w3 :
  adjusted s t x w1 w2 -> adjusted s t x' w2 w3 -> adjusted s t x' w1 w3.
Proof. intros [_ M1 _] [Hi M2 Hc]. split; [done|by eapply moves_trans|done]. Qed.

Lemma adjusted_core_eq s t x x' w w' : core x = core x' -> adjusted s t x w w' -> adjusted s t x' w w'.
Proof. intros E [Hi M Hc]. split; [done|by eapply moves_core_eq|done]. Qed.

End Running.

(** ** Picking the next task *)
Section Pick.
Context {Q : Type -> Type} `{PrioQueueLaws Q}.
Abbreviation world := (world Q pstate).
Abbreviation K := (M world).
Implicit Types (w : world) (t : tid) (s : Z -> option tid).

(** The end of every [schedule] function: mark the next task as running and
    remember it. *)
Definition pedf_commit (me : Z) (next : option tid) : K (option tid) :=
  match next with
  | Some n => upd_task n (set_rt_flags RT_F_RUNNING)
  | None => mret tt
  end;;
  set_scheduled me next;;
  mret next.

Definition same_clock w w' : Prop := clock w' = clock w /\ elapse w' = elapse w.

Lemma same_clock_ok w w' : same_clock w w' -> clock_ok w -> clock_ok w'.
Proof. unfold clock_ok. by intros [-> ->]. Qed.

(** A running task that changes is still where it was. *)
Lemma tracked_adjusted s c t x w w' u :
  part_inv s w -> s c = Some t -> adjusted s t x w w' -> tracked s w' u <-> tracked s w u.
Proof.
  intros Hi Hs [_ M _]. unfold tracked. assert (forall q, at_place w' u q <-> at_place w u q) as Hat; [|naive_solver].
  intros q. rewrite (ms_at _ _ _ _ _ M). case_decide; [subst|done]. split; [done|].
  intros Hq. by eapply sched_nowhere in Hq.
Qed.

Lemma queueable_intro s w t y :
  part_inv s w -> ~ tracked s w t -> core (tasks w t) = core y -> is_realtime y = true ->
  0 <= get_deadline y < two63 -> 0 <= get_release y < two63 -> queueable w t.
Proof.
  intros Hi Hnt E Hr Hd Hrel. split.
  - destruct (in_heap (tasks w t)) eqn:Eh; [|done]. apply (qo_heap _ _ _ (pi_dom _ _ Hi)) in Eh as [q Hq].
    destruct Hnt. left. eauto.
  - by rewrite (core_field is_realtime _ _ (fun _ => eq_refl) E).
  - by rewrite (core_field get_deadline _ _ (fun _ => eq_refl) E).
  - by rewrite (core_field get_release _ _ (fun _ => eq_refl) E).
Qed.

Lemma take_pick_spec s me w :
  part_inv s w -> s me = None ->
  wp (__take_ready edf_ready_order me) (fun next w' =>
    part_inv (upd s me next) w' /\ best w' me next /\ plugin w' = plugin w /\ this_cpu w' = this_cpu w /\
    (forall t, next = Some t -> t ∈ ready_elems w me /\ get_partition (tasks w' t) = me) /\
    (forall y, core (tasks w' y) = core (tasks w y)) /\
    (forall y q, at_place w' y q <-> next <> Some y /\ at_place w y q) /\ same_clock w w') w.
Proof.
  intros Hi Hme. eapply wp_mono; [apply edf_take_spec; apply Hi|]. intros [n|] w' [Hw' Hn].
  - destruct Hn as (Hin & Hm & Hbest). pose proof (moves_of_moved _ _ _ _ Hm) as M.
    assert (part_inv s w') as Hi'.
    { eapply part_inv_moves; try done. apply Hi. }
    assert (forall p, ~ at_place w' n p) as Hno.
    { intros p Hp. apply (ms_at _ _ _ _ _ M) in Hp. by rewrite decide_True in Hp. }
    assert (Hno' : in_heap (tasks w' n) = false).
    { destruct (in_heap (tasks w' n)) eqn:E; [|done]. apply (qo_heap _ _ _ Hw') in E as [p Hp]. by destruct (Hno p). }
    split_and!; [|..].
    + apply part_inv_run; [done|done| |].
      * pose proof (pq_wf_D _ _ _ (qo_ready_wf _ _ _ (pi_dom _ _ Hi) me)) as HD. rewrite Forall_forall in HD.
        specialize (HD n Hin) as [Hr _]. unfold eff in Hr. rewrite (pi_inh _ _ Hi) in Hr. simpl in Hr.
        rewrite (core_field is_realtime (tasks w' n) (tasks w n)); [done|done|]. apply Hm.
      * intros c. by eapply (queued_not_sched s w n (PReady me)).
    + apply Forall_forall. intros e He. rewrite (order_moves n (tasks w n) None w) by done.
      rewrite Forall_forall in Hbest. apply Hbest. apply (ms_at _ _ _ _ _ M e (PReady me)) in He.
      by case_decide.
    + apply M.
    + apply M.
    + intros t [= <-]. split; [done|].
      rewrite (core_field get_partition _ (tasks w n)) by (done || apply Hm). exact (pi_part _ _ Hi n (PReady me) Hin).
    + intros y. apply Hm.
    + intros y q. rewrite (ms_at _ _ _ _ _ M). case_decide; subst; naive_solver.
    + split; apply Hm.
  - destruct Hn as [He Hq]. pose proof (part_inv_quiet _ _ _ Hi Hq Hw') as Hi'. split_and!.
    + eapply part_inv_ext; [|exact Hi']. intros c. unfold upd. case_decide; by subst.
    + unfold best. destruct (ready_elems w' me) as [|e l] eqn:E; [done|].
      assert (e ∈ ready_elems w me) as Hin by (apply (elem_ready_quiet w w'); [done|rewrite E; by left]).
      rewrite He in Hin. by apply elem_of_nil in Hin.
    + apply Hq.
    + apply Hq.
    + done.
    + intros y. apply Hq.
    + intros y q. rewrite (qt_at _ _ Hq). naive_solver.
    + split; apply Hq.
Qed.

Lemma commit_spec s me next w :
  part_inv (upd s me next) w -> (forall c, c <> me -> sched_of w c = s c) ->
  wp (pedf_commit me next) (fun r w' => r = next /\ pinv w' /\
    (forall c, sched_of w' c = upd s me next c) /\
    (forall a b, edf_ready_order (tasks w') a b = edf_ready_order (tasks w) a b) /\
    (forall y, core (tasks w' y) = core (if decide (next = Some y) then set_rt_flags RT_F_RUNNING (tasks w y) else tasks w y)) /\
    (forall y q, at_place w' y q <-> at_place w y q) /\ same_clock w w') w.
Proof.
  intros Hi Hs. unfold pedf_commit, set_scheduled, upd_task.
  destruct next as [n|]; wp_steps.
  - destruct (pi_sched _ _ Hi me n) as [Hh Hr]; [by rewrite upd_eq|].
    set (x := set_rt_flags RT_F_RUNNING (tasks w n)).
    destruct (edom_ok_upd w n x (pi_dom _ _ Hi) Hh Hh (pi_inh _ _ Hi) (pi_inh _ _ Hi n)) as [Hw1 _].
    assert (forall p, ~ at_place w n p) as Hno by (intros p; apply (unqueued_nowhere edf_ready_order edf_ok); [apply Hi|done]).
    pose proof (moves_upd n x w Hno) as M. set (w1 := set_tasks _ w) in *.
    assert (part_inv (upd s me (Some n)) w1) as Hi1 by (eapply part_inv_moves; try done; apply Hi).
    assert (forall c, sched_of (set_plugin (upd (plugin w1) me (mk_pcpu (pcpu (plugin w1 me)) (Some n))) w1) c = upd s me (Some n) c) as Hsc.
    { intros c. unfold sched_of. simpl. unfold upd. case_decide; [done|by apply Hs]. }
    split_and!; [done| |exact Hsc|..].
    + eapply part_inv_ext; [exact Hsc|]. by apply part_inv_plugin.
    + intros a b. exact (order_moves n x None w w1 a b M ltac:(done)).
    + intros y. etransitivity; [exact (ms_core _ _ _ _ _ M y)|]. repeat case_decide; naive_solver.
    + done.
    + done.
  - assert (forall c, sched_of (set_plugin (upd (plugin w) me (mk_pcpu (pcpu (plugin w me)) None)) w) c = upd s me None c) as Hsc.
    { intros c. unfold sched_of. simpl. unfold upd. case_decide; [done|by apply Hs]. }
    split_and!; [done| |exact Hsc|done| |done|done].
    + eapply part_inv_ext; [exact Hsc|]. by apply part_inv_plugin.
    + intros y. by case_decide.
Qed.

(** The switch of every [schedule] function: [t] is the task that ran;
    [again] says whether it goes back into the queues of this CPU. *)
Definition pedf_switch (np_aware : bool) (me : Z) (t : option tid) (again : bool) : K (option tid) :=
  match t with
  | Some t => when again (pedf_requeue np_aware t me)
  | None => mret tt
  end;;
  __take_ready edf_ready_order me.

Lemma tracked_take s me next w w' :
  part_inv s w -> s me = None ->
  (forall t, next = Some t -> t ∈ ready_elems w me /\ get_partition (tasks w' t) = me) ->
  (forall y q, at_place w' y q <-> next <> Some y /\ at_place w y q) ->
  forall y, tracked (upd s me next) w' y <-> tracked s w y.
Proof.
  intros Hi Hme Hin Hat y. unfold tracked. split.
  - intros [[q Hq]|[c Hc]].
    + left. exists q. by apply Hat.
    + unfold upd in Hc. case_decide; [|eauto]. left. exists (PReady me). by apply Hin.
  - intros [[q Hq]|[c Hc]].
    + destruct (decide (next = Some y)) as [->|Hne].
      * right. exists me. by rewrite upd_eq.
      * left. exists q. by apply Hat.
    + right. exists c. rewrite upd_ne; [done|congruence].
Qed.

(** Without the running task going back. *)
Lemma switch_leave_spec b s me (t : option tid) w :
  part_inv s w -> s me = t ->
  wp (pedf_switch b me t false) (fun next w' =>
    part_inv (upd s me next) w' /\ best w' me next /\ plugin w' = plugin w /\
    (forall n, next = Some n -> get_partition (tasks w' n) = me) /\
    (forall y, core (tasks w' y) = core (tasks w y)) /\
    (forall y, tracked (upd s me next) w' y <-> tracked s w y /\ t <> Some y) /\ same_clock w w') w.
Proof.
  intros Hi Hme. unfold pedf_switch. wp_steps.
  apply (wp_mono _ (fun _ w' => w' = w)); [by destruct t|]. intros [] w1 ->.
  pose proof (part_inv_drop s me w Hi) as Hi0.
  eapply wp_mono; [apply (take_pick_spec (upd s me None)); [done|by rewrite upd_eq]|].
  intros next w' (Hi' & Hb & Hp & _ & Hin & Hc & Hat & Hcl). split_and!; try done.
  - eapply part_inv_ext; [|exact Hi']. intros c. unfold upd. by case_decide.
  - intros n En. by apply Hin.
  - intros y.
    assert (tracked (upd s me next) w' y <-> tracked (upd (upd s me None) me next) w' y) as ->.
    { unfold tracked. apply or_iff_compat_l. split; intros [c Hcc]; exists c; revert Hcc; unfold upd; by case_decide. }
    rewrite (tracked_take _ _ _ _ _ Hi0) by (done || by rewrite upd_eq). subst t. unfold tracked. split.
    + intros [[p Hp']|[c Hcc]].
      * split; [eauto|]. by eapply queued_not_sched.
      * unfold upd in Hcc. case_decide as Ec; [done|]. split; [eauto|]. intros E. by destruct Ec, (pi_once _ _ Hi c me y).
    + intros [[?|[c Hcc]] Hne]; [eauto|]. right. exists c. rewrite upd_ne; [done|congruence].
Qed.

(** Once the task that ran has been queued in its partition. *)
Lemma switch_pick s me t p w w1 :
  part_inv s w -> s me = Some t -> edom_ok w1 -> place_dom p = get_partition (tasks w t) ->
  moves t (set_rt_flags RT_F_RUNNING (tasks w t)) (Some p) w w1 ->
  wp (__take_ready edf_ready_order me) (fun next w' =>
    part_inv (upd s me next) w' /\ best w' me next /\ plugin w' = plugin w /\
    (forall n, next = Some n -> get_partition (tasks w' n) = me) /\
    (forall y, core (tasks w' y) = core (if decide (y = t) then set_rt_flags RT_F_RUNNING (tasks w t) else tasks w y)) /\
    (forall y, tracked (upd s me next) w' y <-> tracked s w y)) w1.
Proof.
  intros Hi Hme Hw1 Hpd M. pose proof (part_inv_drop s me w Hi) as Hi0.
  assert (part_inv (upd s me None) w1) as Hi1.
  { eapply part_inv_moves; [exact Hi0|exact M|done..|apply Hi|done|]. intros q [= <-]. split; [by rewrite Hpd|].
    intros c. unfold upd. case_decide as Ec; [done|]. intros E. by destruct Ec, (pi_once _ _ Hi c me t). }
  eapply wp_mono; [apply (take_pick_spec (upd s me None)); [done|by rewrite upd_eq]|].
  intros next w' (Hi' & Hb & Hp & _ & Hin & Hcore & Hat & _). split_and!.
  - eapply part_inv_ext; [|exact Hi']. intros c. unfold upd. by case_decide.
  - done.
  - by rewrite Hp, (ms_plugin _ _ _ _ _ M).
  - intros n En. by apply Hin.
  - intros y. rewrite Hcore. apply M.
  - intros y.
    assert (tracked (upd s me next) w' y <-> tracked (upd (upd s me None) me next) w' y) as ->.
    { unfold tracked. apply or_iff_compat_l. split; intros [c Hcc]; exists c; revert Hcc; unfold upd; by case_decide. }
    rewrite (tracked_take _ _ _ _ _ Hi1) by (done || by rewrite upd_eq). unfold tracked.
    destruct (decide (y = t)) as [->|Hne].
    + split; [eauto|]. intros _. left. exists p. apply M. by rewrite decide_True.
    + assert (forall q, at_place w1 y q <-> at_place w y q) as Hy
        by (intros q; rewrite (ms_at _ _ _ _ _ M); by rewrite decide_False).
      assert (forall c, upd s me None c = Some y <-> s c = Some y) as Hyc
        by (intros c; unfold upd; case_decide; subst; split; congruence).
      naive_solver.
Qed.

(** With the running task going back into the queues of this CPU. *)
Lemma switch_again_spec b s me t w :
  part_inv s w -> s me = Some t -> clock_ok w -> queueable w t -> get_partition (tasks w t) = me ->
  wp (pedf_switch b me (Some t) true) (fun next w' =>
    part_inv (upd s me next) w' /\ best w' me next /\ plugin w' = plugin w /\
    (forall n, next = Some n -> get_partition (tasks w' n) = me) /\
    (forall y, core (tasks w' y) = core (if decide (y = t) then set_rt_flags RT_F_RUNNING (tasks w t) else tasks w y)) /\
    (forall y, tracked (upd s me next) w' y <-> tracked s w y)) w.
Proof.
  intros Hi Hme Hc Hq Hpart. unfold pedf_switch. wp_steps.
  eapply wp_mono; [apply requeue_spec; try done; apply Hi|]. intros [] w1 (Hw1 & p & Hpd & M).
  eapply switch_pick; try done. by rewrite Hpd.
Qed.

(** The end of [schedule], seen from the decision. *)
Lemma commit_finish s me next w :
  part_inv (upd s me next) w -> (forall c, c <> me -> sched_of w c = s c) ->
  wp (pedf_commit me next) (fun r w' => r = next /\ pinv w' /\
    (forall c, sched_of w' c = upd s me next c) /\ (best w me next -> best w' me next) /\
    (forall c, get_partition (tasks w' c) = get_partition (tasks w c)) /\
    (forall y, tracked (sched_of w') w' y <-> tracked (upd s me next) w y) /\
    (forall y, core (tasks w' y) = core (if decide (next = Some y) then set_rt_flags RT_F_RUNNING (tasks w y) else tasks w y)) /\
    same_clock w w') w.
Proof.
  intros Hi Hs. eapply wp_mono; [by apply commit_spec|].
  intros r w' (-> & Hi' & Hsc & Ho & Hc & Hat & Hcl). split_and!; try done.
  - intros Hb. assert (forall e, e ∈ ready_elems w' me <-> e ∈ ready_elems w me) as He by (intros e; apply (Hat e (PReady me))).
    destruct next as [n|]; simpl in *.
    + rewrite Forall_forall in *. intros e Hin. rewrite Ho. by apply Hb, He.
    + destruct (ready_elems w' me) as [|e l]; [done|]. rewrite Hb in He. exfalso.
      apply (not_elem_of_nil e), He. by left.
  - intros y. rewrite (core_field get_partition _ _ (fun _ => eq_refl) (Hc y)). by case_decide.
  - intros y. unfold tracked. split; (intros [[q Hq]|[c Hcc]]; [left; exists q; by apply Hat|right; exists c]).
    + by rewrite <- Hsc.
    + by rewrite Hsc.
Qed.

End Pick.
