(* ===== verification/Frames.v ===== *)
(** * What the operations on tasks and domains leave alone

    The domain a task belongs to ([tsk_rt(t)->domain]) and the clock, under the
    operations of rt_domain.c, edf_common.c and sched_plugin.c. *)

From stdpp Require Import sorting.
From S2P Require Import Prelude Task Edf PrioQueue Kernel RtDomain RtInv EdfDomain Partitioned.
Open Scope Z_scope.

Section Drift.
Context {Q : Type -> Type} `{PrioQueue Q} {P : Type}.
Implicit Types (w : world Q P) (t y : tid) (d : Z).

(** No task changes its domain, but [t] may move to [d]; time goes on. *)
Definition drift t d w w' : Prop :=
  (forall y, domain_of (tasks w' y) = domain_of (tasks w y) \/ y = t /\ domain_of (tasks w' y) = d) /\
  (clock_ok w -> timed w w').

#[global] Instance drift_preorder t d : PreOrder (drift t d).
Proof.
  split.
  - intros w. split; [by left|]. intros _. apply timed_refl.
  - intros w1 w2 w3 [D1 T1] [D2 T2]. split.
    + intros y. destruct (D2 y) as [E2|E2]; [rewrite E2|by right]. apply D1.
    + intros Hc. specialize (T1 Hc). eapply timed_trans; [exact T1|]. by apply T2, T1.
Qed.

Lemma drift_home t d w w' y : drift t d w w' -> domain_of (tasks w t) = d -> domain_of (tasks w' y) = domain_of (tasks w y).
Proof. intros [D _] E. destruct (D y) as [|[-> E']]; congruence. Qed.

(** Steps that touch neither the tasks nor the clock. *)
Lemma drift_same t d w w' : tasks w' = tasks w -> clock w' = clock w -> elapse w' = elapse w -> drift t d w w'.
Proof. intros E1 E2 E3. split; [rewrite E1; by left|]. intros _. by apply timed_same. Qed.

Lemma drift_upd_task t d y f :
  (forall x, domain_of (f x) = domain_of x) -> frames (drift t d) (upd_task (Q:=Q) (P:=P) y f).
Proof.
  intros Hf. apply frames_modify. intros w. split; [|intros _; by apply timed_same].
  intros z. left. simpl. unfold upd. case_decide; subst; auto.
Qed.

Lemma drift_to t d : frames (drift t d) (upd_task (Q:=Q) (P:=P) t (set_domain_of d)).
Proof.
  apply frames_modify. intros w. split; [|intros _; by apply timed_same].
  intros z. simpl. unfold upd. case_decide; [by right|by left].
Qed.

Lemma drift_upd_dom t d e f : frames (drift t d) (upd_dom (Q:=Q) (P:=P) e f).
Proof. apply frames_modify. intros w. by apply drift_same. Qed.
Lemma drift_upd_rheap t d o f : frames (drift t d) (upd_rheap (Q:=Q) (P:=P) o f).
Proof. apply frames_modify. intros w. by apply drift_same. Qed.
Lemma drift_ipi t d c : frames (drift t d) (smp_send_reschedule (Q:=Q) (P:=P) c).
Proof. apply frames_modify. intros w. by apply drift_same. Qed.

Lemma drift_clock t d : frames (drift t d) (litmus_clock (Q:=Q) (P:=P)).
Proof.
  intros w a w'. unfold litmus_clock. destruct (elapse w) as [|z l] eqn:E; intros [= <- <-]; [done|].
  split; [by left|]. intros [Hc He]. rewrite E in He. apply Forall_cons in He as [Hz He].
  unfold timed, clock_ok, time_end. simpl. rewrite E. simpl. split_and!; [lia|split; [lia|done]|lia].
Qed.

End Drift.

#[export] Hint Resolve drift_upd_dom drift_upd_rheap drift_ipi drift_clock drift_to : litmus.
#[export] Hint Extern 1 (frames (drift _ _) (upd_task _ _)) => apply drift_upd_task; intros []; reflexivity : litmus.

Section Ops.
Context {Q : Type -> Type} `{PrioQueue Q} {P : Type}.
Variable t : tid.
Variable d : Z.
Abbreviation still := (frames (drift (Q:=Q) (P:=P) t d)).

Lemma drift_request y : still (upd_task y request_exit_np).
Proof. apply drift_upd_task. intros x. unfold request_exit_np, is_user_np. by destruct x as [], ctrl_page as [[[] []]|]. Qed.
#[local] Hint Resolve drift_request : litmus.

Lemma drift_need_resched y : still (set_tsk_need_resched y).
Proof. unfold set_tsk_need_resched. frames_tac. Qed.
#[local] Hint Resolve drift_need_resched : litmus.

Lemma drift_preempt ot c : still (preempt_if_preemptable ot c).
Proof. unfold preempt_if_preemptable, get_task, get_current. frames_tac. Qed.

Lemma drift_next_ready order e : still (__next_ready order e).
Proof. unfold __next_ready, get_dom. frames_tac. Qed.
#[local] Hint Resolve drift_next_ready : litmus.

Lemma drift_needed e ot : still (edf_preemption_needed e ot).
Proof. unfold edf_preemption_needed, __jobs_pending, get_dom, get_task. frames_tac. Qed.

Lemma drift_take order e : still (__take_ready order e).
Proof. unfold __take_ready, get_dom. frames_tac. Qed.

Lemma drift_remove order e y : still (remove order e y).
Proof. unfold remove, get_dom. frames_tac. Qed.

Lemma drift_add_ready order c e y : (forall e, still (c e)) -> still (__add_ready order c e y).
Proof. intros Hc. unfold __add_ready, ready_insert, get_task. frames_tac; apply Hc. Qed.

Lemma drift_merge order c e o : (forall e, still (c e)) -> still (__merge_ready order c e o).
Proof. intros Hc. unfold __merge_ready, get_rheap. frames_tac; apply Hc. Qed.

Lemma drift_release_heap e y b : still (get_release_heap e y b).
Proof. unfold get_release_heap, get_task, get_dom. frames_tac. Qed.
#[local] Hint Resolve drift_release_heap : litmus.

Lemma drift_arm order e c y : still (arm_one order e c y).
Proof. unfold arm_one, reinit_release_heap, release_insert, get_rheap, get_dom. frames_tac. Qed.
#[local] Hint Resolve drift_arm : litmus.

Lemma drift_arm_list order e c l : still (arm_list order e c l).
Proof. induction l; simpl; frames_tac. Qed.
#[local] Hint Resolve drift_arm_list : litmus.

(** Only [add_release] moves a task to another domain. *)
Lemma drift_add_release order : still (__add_release order d t).
Proof. unfold __add_release, arm_release_timer, arm_release_timer_on, get_dom. frames_tac. Qed.

End Ops.

#[export] Hint Resolve drift_request drift_need_resched drift_preempt drift_next_ready drift_needed drift_take
  drift_remove drift_add_ready drift_merge drift_release_heap drift_arm drift_arm_list drift_add_release : litmus.

(** ** The state of the plugin *)

Section Plugin.
Context {Q : Type -> Type} `{PrioQueue Q} {P : Type}.
Implicit Types (w : world Q P).

(** A relation between the states of the plugin before and after. *)
Definition on_plugin (R : P -> P -> Prop) w w' : Prop := R (plugin w) (plugin w').

#[global] Instance on_plugin_preorder R : PreOrder R -> PreOrder (on_plugin R).
Proof.
  intros HR. split; [intros w; unfold on_plugin; reflexivity|].
  intros w1 w2 w3 H1 H2. unfold on_plugin in *. by etransitivity.
Qed.

Variable R : P -> P -> Prop.
Context `{!PreOrder R}.
Abbreviation keeps := (frames (on_plugin R)).

Lemma keeps_same {A} (c : M (world Q P) A) : (forall w a w', c w = Some (a, w') -> plugin w' = plugin w) -> keeps c.
Proof. intros Hc w a w' E. unfold on_plugin. by rewrite (Hc w a w' E). Qed.

Lemma keeps_modify f : (forall w, plugin (f w) = plugin w) -> keeps (modify f).
Proof. intros Hf. apply keeps_same. intros w [] w' [= <-]. apply Hf. Qed.

Lemma keeps_upd_task t f : keeps (upd_task t f).
Proof. by apply keeps_modify. Qed.
Lemma keeps_upd_dom d f : keeps (upd_dom d f).
Proof. by apply keeps_modify. Qed.
Lemma keeps_upd_rheap o f : keeps (upd_rheap o f).
Proof. by apply keeps_modify. Qed.
Lemma keeps_ipi c : keeps (smp_send_reschedule c).
Proof. by apply keeps_modify. Qed.
Lemma keeps_clock : keeps litmus_clock.
Proof. apply keeps_same. intros w a w'. unfold litmus_clock. destruct (elapse w); by intros [= _ <-]. Qed.
#[local] Hint Resolve keeps_upd_task keeps_upd_dom keeps_upd_rheap keeps_ipi keeps_clock : litmus.

Lemma keeps_need_resched t : keeps (set_tsk_need_resched t).
Proof. unfold set_tsk_need_resched. frames_tac. Qed.
#[local] Hint Resolve keeps_need_resched : litmus.
Lemma keeps_preempt ot c : keeps (preempt_if_preemptable ot c).
Proof. unfold preempt_if_preemptable, get_task, get_current. frames_tac. Qed.
Lemma keeps_next_ready order d : keeps (__next_ready order d).
Proof. unfold __next_ready, get_dom. frames_tac. Qed.
#[local] Hint Resolve keeps_next_ready : litmus.
Lemma keeps_needed d ot : keeps (edf_preemption_needed d ot).
Proof. unfold edf_preemption_needed, __jobs_pending, get_dom, get_task. frames_tac. Qed.
Lemma keeps_take order d : keeps (__take_ready order d).
Proof. unfold __take_ready, get_dom. frames_tac. Qed.
Lemma keeps_remove order d t : keeps (remove order d t).
Proof. unfold remove, get_dom. frames_tac. Qed.
Lemma keeps_add_ready order d t : keeps (__add_ready order dummy_resched d t).
Proof. unfold __add_ready, ready_insert, get_task, dummy_resched. frames_tac. Qed.
Lemma keeps_merge order d o : keeps (__merge_ready order dummy_resched d o).
Proof. unfold __merge_ready, get_rheap, dummy_resched. frames_tac. Qed.
Lemma keeps_release_heap d t b : keeps (get_release_heap d t b).
Proof. unfold get_release_heap, get_task, get_dom. frames_tac. Qed.
#[local] Hint Resolve keeps_release_heap : litmus.
Lemma keeps_arm_list order d c l : keeps (arm_list order d c l).
Proof.
  induction l; simpl; [frames_tac|]. unfold arm_one, reinit_release_heap, release_insert, get_rheap, get_dom. frames_tac.
Qed.
#[local] Hint Resolve keeps_arm_list : litmus.
Lemma keeps_add_release order d t : keeps (__add_release order d t).
Proof. unfold __add_release, arm_release_timer, arm_release_timer_on, get_dom. frames_tac. Qed.

End Plugin.

#[export] Hint Resolve keeps_upd_task keeps_upd_dom keeps_upd_rheap keeps_ipi keeps_clock keeps_need_resched keeps_preempt
  keeps_needed keeps_take keeps_remove keeps_add_ready keeps_merge keeps_add_release : litmus.
