(* ===== verification/PsnEdf.v ===== *)
(** * PSN-EDF: partitioned EDF

    The handlers of src/litmus2010/litmus/sched_psn_edf.c.  A handler runs with
    the lock of its domain held and is one step; [this_cpu] is the CPU it runs
    on. *)

From stdpp Require Import sorting.
From S2P Require Import Prelude Task Edf PrioQueue Kernel RtDomain RtInv EdfDomain Partitioned.
Open Scope Z_scope.

Section PsnEdf.
Context {Q : Type -> Type} `{PrioQueue Q}.
Abbreviation world := (world Q pstate).
Abbreviation K := (M world).

Definition psnedf_domain_init : Z -> K unit := pedf_domain_init.
Definition psnedf_requeue : tid -> Z -> K unit := pedf_requeue true.
Definition psnedf_preempt : Z -> K unit := preempt_cpu true.
Definition psnedf_check_resched : Z -> K bool := pedf_check_resched true.

Definition psnedf_job_completion (t : tid) : K unit :=
  upd_task t (fun x => prepare_for_next_period (set_rt_flags RT_F_SLEEP x)).

Definition psnedf_tick (t : tid) : K unit :=
  me ← gets this_cpu;
  s ← get_scheduled me;
  x ← get_task t;
  BUG_ON (is_realtime x && bool_decide (s <> Some t));;
  when (is_realtime x && budget_enforced x && budget_exhausted x)
    (if negb (is_np x) then set_tsk_need_resched t
     else when (is_user_np x) (upd_task t request_exit_np)).

Definition psnedf_schedule (prev : tid) : K (option tid) :=
  me ← gets this_cpu;
  s ← get_scheduled me;
  xprev ← get_task prev;
  (* sanity checking *)
  BUG_ON (match s with Some t => bool_decide (t <> prev) | None => false end);;
  BUG_ON (match s with Some _ => negb (is_realtime xprev) | None => false end);;
  (* (0) Determine state *)
  T ← gets tasks;
  let on_s (f : task_struct -> bool) := match s with Some t => f (T t) | None => false end in
  let exists_ := on_s (fun _ => true) in
  let blocks := on_s (fun x => negb (is_running x)) in
  let out_of_time := on_s (fun x => budget_enforced x && budget_exhausted x) in
  let np := on_s is_np in
  let sleep := on_s (fun x => get_rt_flags x =? RT_F_SLEEP) in
  preempt ← edf_preemption_needed me (Some prev);
  (* Request a sys_exit_np() call if we would like to preempt but cannot. *)
  when (np && (out_of_time || preempt || sleep))
    (match s with Some t => upd_task t request_exit_np | None => mret tt end);;
  (* Any preemptable task that exhausts its budget or wants to sleep completes. *)
  let completes := negb np && (out_of_time || sleep) && negb blocks in
  when completes (match s with Some t => psnedf_job_completion t | None => mret tt end);;
  let resched := preempt || blocks || completes in
  (* The final scheduling decision. *)
  next ← (if (negb np || blocks) && (resched || negb exists_) then
            pedf_switch true me s (negb blocks)
          else mret (if exists_ then Some prev else None));
  pedf_commit me next.

(** Prepare a task for running in RT mode *)
Definition psnedf_task_new (t : tid) (on_rq running : bool) : K unit :=
  x ← get_task t;
  let d := get_partition x in
  now ← litmus_clock;
  upd_task t (release_at now);;
  if running then
    s ← get_scheduled d;
    BUG_ON (bool_decide (s <> None));;
    set_scheduled d (Some t)
  else
    psnedf_requeue t d;;
    psnedf_preempt d.

Definition psnedf_task_wake_up (t : tid) : K unit :=
  x ← get_task t;
  let d := get_partition x in
  BUG_ON (in_heap x);;
  now ← litmus_clock;
  when (is_tardy x now && negb (get_rt_flags x =? RT_F_EXIT_SEM))
    (* new sporadic release *)
    (upd_task t (release_at now));;
  s ← get_scheduled d;
  when (bool_decide (s <> Some t)) (psnedf_requeue t d).

Definition psnedf_task_block (t : tid) : K unit :=
  x ← get_task t;
  BUG_ON (negb (is_realtime x));;
  BUG_ON (in_heap x).

Definition psnedf_task_exit (t : tid) : K unit :=
  x ← get_task t;
  let d := get_partition x in
  when (in_heap x) (remove edf_ready_order d t);;
  s ← get_scheduled d;
  when (bool_decide (s = Some t)) (set_scheduled d None);;
  psnedf_preempt d.

Definition psnedf_admit_task (x : task_struct) : Z :=
  if task_cpu x =? get_partition x then 0 else - EINVAL.

End PsnEdf.

(** ** Correctness *)
Section Correct.
Context {Q : Type -> Type} `{PrioQueueLaws Q}.
Abbreviation world := (world Q pstate).
Implicit Types (w : world) (t prev : tid).

(** Every running task runs on the CPU of its partition. *)
Record psn_inv w : Prop := {
  psn_pinv : pinv w;
  psn_home c t : sched_of w c = Some t -> get_partition (tasks w t) = c
}.

(** The CPU runs a task that may not be preempted. *)
Definition runs_np w c : bool :=
  match sched_of w c with Some t => is_np (tasks w t) && is_running (tasks w t) | None => false end.
(** The task that ran on the CPU has blocked. *)
Definition has_blocked w c t : Prop := sched_of w c = Some t /\ is_running (tasks w t) = false.

Lemma poke_moves t f w :
  poke f -> (forall p, ~ at_place w t p) -> edom_ok w ->
  wp (upd_task t f) (fun _ w' => moves t (tasks w t) None w w' /\ edom_ok w' /\ elapse w' = elapse w /\ clock w' = clock w) w.
Proof.
  intros Hf Hno Hw. eapply wp_mono; [by apply edf_poke_spec|]. intros _ w' [Hq Hw'].
  split_and!; [by apply quiet_moves|done|apply Hq|apply Hq].
Qed.

(** Before the decision: the request to leave a non-preemptive section and the
    completion of the job. *)
Lemma psn_prepare_spec s c t w (ask completes : bool) :
  part_inv s w -> s c = Some t -> clock_ok w ->
  wp (when ask (upd_task t request_exit_np);; when completes (psnedf_job_completion t))
    (fun _ w' => adjusted s t (if completes then prepare_for_next_period (set_rt_flags RT_F_SLEEP (tasks w t))
                               else tasks w t) w w') w.
Proof.
  intros Hi Hs Hc. pose proof (adjusted_refl s c t w Hi Hs Hc) as A0. wp_steps.
  apply (wp_mono _ (fun _ w' => adjusted s t (tasks w t) w w')).
  - apply wp_when. destruct ask; [|done].
    eapply wp_mono; [eapply adjusted_upd; [exact A0|exact Hs|..]; unfold request_exit_np, is_user_np;
      by destruct (tasks w t) as [], ctrl_page as [[[] ?]|]|].
    intros ? w' A. eapply adjusted_core_eq; [|exact A]. apply poke_request_exit_np.
  - intros _ w1 A1. apply wp_when. destruct completes; [|done].
    unfold psnedf_job_completion. eapply wp_mono.
    + eapply (adjusted_upd s c t); [|exact Hs|done..].
      eapply (adjusted_refl s c t); [apply A1|done|apply A1].
    + intros ? w2 A2. eapply adjusted_core_eq; [|eapply adjusted_trans; [exact A1|exact A2]].
      pose proof (ms_core _ _ _ _ _ (ad_moves _ _ _ _ _ A1) t) as E. rewrite decide_True in E by done.
      apply (core_congr (fun z => prepare_for_next_period (set_rt_flags RT_F_SLEEP z))); [|done].
      core_tac.
Qed.

(** The window of the task that goes back into the queues. *)
Lemma adjusted_queueable s c t (completes : bool) w w' :
  part_inv s w -> s c = Some t -> time_ok w ->
  adjusted s t (if completes then prepare_for_next_period (set_rt_flags RT_F_SLEEP (tasks w t)) else tasks w t) w w' ->
  queueable w' t /\ get_partition (tasks w' t) = get_partition (tasks w t).
Proof.
  intros Hi Hs Ht A. destruct (pi_sched _ _ Hi c t Hs) as [_ Hr].
  destruct (to_task _ Ht t Hr) as (Hrel & Hd & Hp & Hdp & _).
  destruct (pi_sched _ _ (ad_inv _ _ _ _ _ A) c t Hs) as [Hh' Hr'].
  pose proof (ms_core _ _ _ _ _ (ad_moves _ _ _ _ _ A) t) as E. rewrite decide_True in E by done.
  pose proof (core_field get_deadline _ _ (fun _ => eq_refl) E) as Ed.
  pose proof (core_field get_release _ _ (fun _ => eq_refl) E) as Er.
  pose proof (core_field get_partition _ _ (fun _ => eq_refl) E) as Ep.
  destruct completes.
  - destruct (next_job_window (set_rt_flags RT_F_SLEEP (tasks w t)) Hd Hp Hdp) as (Er' & Ed' & _).
    change (get_deadline (set_rt_flags RT_F_SLEEP (tasks w t))) with (get_deadline (tasks w t)) in *.
    change (get_rt_period (set_rt_flags RT_F_SLEEP (tasks w t))) with (get_rt_period (tasks w t)) in *.
    split; [|done]. split; [done|done|rewrite Ed, Ed'; lia|rewrite Er, Er'; lia].
  - split; [|done]. split; [done|done|rewrite Ed; lia|by rewrite Er].
Qed.

Lemma time_ok_edf w t :
  no_inheritance (tasks w) -> time_ok w -> is_realtime (tasks w t) = true -> edf_ok (tasks w) t.
Proof.
  intros Hni Ht Hr. destruct (to_task _ Ht t Hr) as (_ & ? & ? & ? & _). apply edf_ok_intro; [done|done|lia].
Qed.

(** What [psnedf_schedule] establishes. *)
Definition scheduled_well w (next : option tid) w' : Prop :=
  let me := this_cpu w in
  psn_inv w' /\ sched_of w' me = next /\ (forall c, c <> me -> sched_of w' c = sched_of w c) /\
  (runs_np w me = false -> best w' me next) /\ (runs_np w me = true -> next = sched_of w me) /\
  (forall y, tracked (sched_of w') w' y <-> tracked (sched_of w) w y /\ ~ has_blocked w me y).

(** From the decision to the end. *)
Lemma psn_finish w w2 next :
  let me := this_cpu w in
  psn_inv w -> part_inv (upd (sched_of w) me next) w2 -> plugin w2 = plugin w ->
  (runs_np w me = false -> best w2 me next) -> (runs_np w me = true -> next = sched_of w me) ->
  (forall n, next = Some n -> get_partition (tasks w2 n) = me) ->
  (forall c t, c <> me -> sched_of w c = Some t -> get_partition (tasks w2 t) = get_partition (tasks w t)) ->
  (forall y, tracked (upd (sched_of w) me next) w2 y <-> tracked (sched_of w) w y /\ ~ has_blocked w me y) ->
  wp (pedf_commit me next) (scheduled_well w) w2.
Proof.
  intros me [Hi Hhome] Hi2 Hp2 Hb2 Hnp Hn Hpart Ht2.
  eapply wp_mono; [apply (commit_finish (sched_of w)); [done|]|].
  { intros c _. unfold sched_of. by rewrite Hp2. }
  intros r w' (-> & Hi' & Hsc & Hb' & Hpt & Htr & _). unfold scheduled_well. fold me. split_and!.
  - split; [done|]. intros c t. rewrite Hsc, Hpt. unfold upd. case_decide; subst; [apply Hn|].
    intros E. rewrite (Hpart c t) by done. by apply Hhome.
  - by rewrite Hsc, upd_eq.
  - intros c Hc. by rewrite Hsc, upd_ne.
  - auto.
  - done.
  - intros y. by rewrite Htr, Ht2.
Qed.

(** Scheduling on an idle CPU. *)
Lemma psn_schedule_idle prev w :
  psn_inv w -> time_ok w -> sched_of w (this_cpu w) = None -> wp (psnedf_schedule prev) (scheduled_well w) w.
Proof.
  intros Hpi Ht Hs. pose proof Hpi as [Hi Hhome]. unfold psnedf_schedule, get_scheduled, get_task. set (me := this_cpu w) in *.
  pose proof Hs as Hs0. unfold sched_of in Hs. wp_steps; fold me; rewrite ?Hs; try done.
  eapply wp_mono; [apply preemption_needed_spec; [apply Hi|apply Hi|]|].
  { intros t [= <-] Hr. apply time_ok_edf; [apply Hi|done|done]. }
  intros preempt w1 (Hq1 & Hw1 & _ & _). wp_steps. simpl. wp_steps. rewrite orb_true_r. simpl. wp_steps.
  pose proof (part_inv_quiet _ _ _ Hi Hq1 Hw1) as Hi1.
  eapply wp_mono; [eapply (switch_leave_spec true (sched_of w) me None); [exact Hi1|done]|].
  intros next w2 (Hi2 & Hb2 & Hp2 & Hn2 & Hc2 & Ht2 & _). wp_steps.
  apply psn_finish; fold me; try done.
  - rewrite Hp2. apply Hq1.
  - unfold runs_np. by rewrite Hs0.
  - intros c t _ _. rewrite (core_field get_partition _ _ (fun _ => eq_refl) (Hc2 t)).
    by rewrite (core_field get_partition _ _ (fun _ => eq_refl) (se_core _ _ (qt_env _ _ Hq1) t)).
  - intros y. rewrite Ht2. unfold tracked, has_blocked. rewrite Hs0.
    assert (forall p, at_place w1 y p <-> at_place w y p) as Hat by (intros p; apply Hq1). naive_solver.
Qed.

(** The decision when the CPU runs a task. *)
Lemma psn_decide w w3 prev (preempt np blocks completes : bool) :
  let me := this_cpu w in
  psn_inv w -> time_ok w -> sched_of w me = Some prev ->
  np = is_np (tasks w prev) -> blocks = negb (is_running (tasks w prev)) ->
  (completes = true -> np = false /\ blocks = false) ->
  (preempt = false -> best w me (Some prev)) ->
  adjusted (sched_of w) prev
    (if completes then prepare_for_next_period (set_rt_flags RT_F_SLEEP (tasks w prev)) else tasks w prev) w w3 ->
  wp (next ← (if (negb np || blocks) && (preempt || blocks || completes || negb true) then
                pedf_switch true me (Some prev) (negb blocks)
              else mret (Some prev));
      pedf_commit me next) (scheduled_well w) w3.
Proof.
  intros me Hpi Ht Hs Enp Ebl Hcomp Hbest A. pose proof Hpi as [Hi Hhome].
  destruct (adjusted_queueable _ me prev completes w w3 Hi Hs Ht A) as [Hqb Hpart3].
  pose proof (fun y => tracked_adjusted _ me prev _ w w3 y Hi Hs A) as Htr3.
  destruct A as [Hi3 M3 Hc3]. rewrite orb_false_r.
  assert (Hrn : runs_np w me = np && negb blocks) by (unfold runs_np; rewrite Hs; subst; by rewrite negb_involutive).
  assert (forall t, t <> prev -> get_partition (tasks w3 t) = get_partition (tasks w t)) as Hp3.
  { intros t Hne. rewrite (core_field get_partition _ _ (fun _ => eq_refl) (ms_core _ _ _ _ _ M3 t)).
    by rewrite decide_False. }
  assert (forall c t, c <> me -> sched_of w c = Some t -> t <> prev) as Hother.
  { intros c t Hc E ->. by destruct Hc, (pi_once _ _ Hi c me prev). }
  wp_steps. destruct ((negb np || blocks) && (preempt || blocks || completes)) eqn:Esw.
  - (* switch *)
    assert (runs_np w me = false) as Hnp by (rewrite Hrn; by destruct np, blocks).
    destruct blocks eqn:Eb; simpl.
    + eapply wp_mono; [eapply (switch_leave_spec true (sched_of w) me (Some prev)); [exact Hi3|done]|].
      intros next w4 (Hi4 & Hb4 & Hpl & Hn4 & Hc4 & Ht4 & _). apply psn_finish; try done.
      * rewrite Hpl. apply M3.
      * fold me. by rewrite Hnp.
      * intros c t Hc E. rewrite (core_field get_partition _ _ (fun _ => eq_refl) (Hc4 t)). apply Hp3. by eapply Hother.
      * intros y. fold me. rewrite Ht4, Htr3. unfold has_blocked. rewrite Hs.
        assert (is_running (tasks w prev) = false) by (by destruct (is_running (tasks w prev))). naive_solver.
    + eapply wp_mono; [eapply (switch_again_spec true (sched_of w) me prev); try done|].
      { rewrite Hpart3. by apply Hhome. }
      intros next w4 (Hi4 & Hb4 & Hpl & Hn4 & Hc4 & Ht4). apply psn_finish; try done.
      * rewrite Hpl. apply M3.
      * fold me. by rewrite Hnp.
      * intros c t Hc E. rewrite (core_field get_partition _ _ (fun _ => eq_refl) (Hc4 t)).
        rewrite decide_False by (by eapply Hother). apply Hp3. by eapply Hother.
      * intros y. fold me. rewrite Ht4, Htr3. unfold has_blocked. rewrite Hs.
        assert (is_running (tasks w prev) = true) by (by destruct (is_running (tasks w prev))).
        split; [intros Hy; split; [done|intros [[= <-] E]; congruence]|by intros [? _]].
  - (* continue *)
    assert (completes = false) as ->.
    { destruct completes; [|done]. destruct Hcomp as [-> ->]; [done|]. by destruct preempt. }
    assert (blocks = false) as Ebf by (destruct blocks, np, preempt; done).
    wp_steps. apply psn_finish; try done.
    + eapply part_inv_ext; [|exact Hi3]. intros c. unfold upd. case_decide; by subst.
    + apply M3.
    + intros Hnp. fold me in Hnp. assert (preempt = false) as Epf by (rewrite Hrn in Hnp; destruct np, preempt, blocks; done).
      specialize (Hbest Epf). simpl in *. fold me. rewrite Forall_forall in *. intros e He.
      rewrite (order_moves prev (tasks w prev) None w w3) by done. apply Hbest.
      apply (ms_at _ _ _ _ _ M3 e (PReady me)) in He. by case_decide.
    + intros n [= <-]. fold me. rewrite Hpart3. by apply Hhome.
    + intros c t Hc E. apply Hp3. by eapply Hother.
    + intros y. fold me.
      assert (tracked (upd (sched_of w) me (Some prev)) w3 y <-> tracked (sched_of w) w3 y) as ->.
      { unfold tracked. apply or_iff_compat_l.
        split; intros [c Hcc]; exists c; revert Hcc; unfold upd; case_decide; subst; congruence. }
      rewrite Htr3. unfold has_blocked. rewrite Hs.
      assert (is_running (tasks w prev) = true) by (subst; by destruct (is_running (tasks w prev))).
      split; [intros Hy; split; [done|intros [[= <-] E]; congruence]|by intros [? _]].
Qed.

(** Scheduling on a CPU that runs a task. *)
Lemma psn_schedule_busy prev w :
  psn_inv w -> time_ok w -> sched_of w (this_cpu w) = Some prev -> wp (psnedf_schedule prev) (scheduled_well w) w.
Proof.
  intros Hpi Ht Hs. pose proof Hpi as [Hi Hhome]. unfold psnedf_schedule, get_scheduled, get_task.
  set (me := this_cpu w) in *. destruct (pi_sched _ _ Hi me prev Hs) as [Hh Hr].
  pose proof Hs as Hs0. unfold sched_of in Hs. wp_steps; fold me; rewrite ?Hs; try done.
  { by apply bool_decide_false; intros []. }
  { by rewrite Hr. }
  eapply wp_mono; [apply preemption_needed_spec; [apply Hi|apply Hi|]|].
  { intros t [= <-] _. by apply time_ok_edf; [apply Hi|..]. }
  intros preempt w1 (Hq1 & Hw1 & Ht1 & Hpre). wp_steps.
  pose proof (part_inv_quiet _ _ _ Hi Hq1 Hw1) as Hi1.
  assert (clock_ok w1) as Hc1.
  { unfold clock_ok. rewrite (se_clock _ _ (qt_env _ _ Hq1)), (se_elapse _ _ (qt_env _ _ Hq1)). apply Ht. }
  set (np := is_np (tasks w prev)). set (blocks := negb (is_running (tasks w prev))).
  set (oot := budget_enforced (tasks w prev) && budget_exhausted (tasks w prev)).
  set (sleep := get_rt_flags (tasks w prev) =? RT_F_SLEEP).
  pose proof (psn_prepare_spec (sched_of w) me prev w1 (np && (oot || preempt || sleep))
    (negb np && (oot || sleep) && negb blocks) Hi1 Hs0 Hc1) as Hprep.
  apply wp_bind in Hprep. eapply wp_mono; [exact Hprep|]. clear Hprep. intros ? w2 Hprep. wp_steps.
  eapply wp_mono; [exact Hprep|]. clear Hprep. intros ? w3 A3. rewrite Ht1 in A3.
  eapply psn_decide; try done.
  - intros (( Hn%negb_true_iff & _)%andb_true_iff & Hb%negb_true_iff)%andb_true_iff. done.
  - intros ->. simpl. apply Forall_forall. intros e He.
    destruct (edf_ready_order (tasks w) e prev) eqn:E; [|done].
    assert (false = true); [|done]. apply Hpre. apply Exists_exists. exists e. split; [done|by right].
  - destruct A3 as [Hi3 M3 Hc3]. split; [done| |done].
    eapply (moves_trans prev); [apply quiet_moves; [|exact Hq1]; intros p; by eapply sched_nowhere|done].
Qed.

(** C1: On the CPU it runs on, [psnedf_schedule] picks a task no ready task of the
    domain beats (unless the running task is in a non-preemptive section, which
    keeps running), never hits a [BUG_ON], keeps the queue invariant, and loses
    no task: a task is queued or running afterwards exactly when it was before
    and is not the task that has just blocked. *)
Theorem psnedf_schedule_correct prev w :
  psn_inv w -> time_ok w -> (forall t, sched_of w (this_cpu w) = Some t -> t = prev) ->
  wp (psnedf_schedule prev) (scheduled_well w) w.
Proof.
  intros Hi Ht Hp. destruct (sched_of w (this_cpu w)) as [t|] eqn:E.
  - rewrite <- (Hp t eq_refl) in *. by apply psn_schedule_busy.
  - by apply psn_schedule_idle.
Qed.

(** ** The other handlers *)

(** An unscheduled, unqueued real-time task changes and is queued in its
    partition, as at the end of [task_new] and [task_wake_up]. *)
Lemma psn_enqueue t w :
  psn_inv w -> clock_ok w -> queueable w t -> (forall c, sched_of w c <> Some t) ->
  wp (psnedf_requeue t (get_partition (tasks w t))) (fun _ w' => psn_inv w' /\ sched_of w' = sched_of w /\
    (exists p, place_dom p = get_partition (tasks w t) /\ at_place w' t p) /\
    (forall y q, y <> t -> at_place w' y q <-> at_place w y q)) w.
Proof.
  intros [Hi Hhome] Hc Hq Hns. eapply wp_mono; [apply requeue_spec; try done; apply Hi|].
  intros _ w' (Hw' & p & Hp & M). assert (sched_of w' = sched_of w) as Hs.
  { unfold sched_of. by rewrite (ms_plugin _ _ _ _ _ M). }
  split_and!; [split|done| |].
  - unfold pinv. rewrite Hs. eapply part_inv_moves; [exact Hi|exact M|done..|apply Hi|done|].
    intros q [= <-]. split; [by rewrite Hp|done].
  - intros c u. rewrite Hs. intros E. rewrite (core_field get_partition _ _ (fun _ => eq_refl) (ms_core _ _ _ _ _ M u)).
    case_decide; [subst; by destruct (Hns c)|by apply Hhome].
  - exists p. split; [done|]. apply M. by rewrite decide_True.
  - intros y q Hy. rewrite (ms_at _ _ _ _ _ M). by rewrite decide_False.
Qed.

(** A change of an unqueued task. *)
Lemma psn_change t x w :
  psn_inv w -> in_heap (tasks w t) = false -> in_heap x = false -> pid x = pid (tasks w t) ->
  inh_task x = None -> is_realtime x = is_realtime (tasks w t) -> get_partition x = get_partition (tasks w t) ->
  psn_inv (set_tasks (upd (tasks w) t x) w).
Proof.
  intros [Hi Hhome] Hh Hx Hp Hn Hr Hpt.
  assert (forall p, ~ at_place w t p) as Hno.
  { intros p. apply (unqueued_nowhere edf_ready_order edf_ok); [apply Hi|done]. }
  destruct (edom_ok_upd w t x (pi_dom _ _ Hi) Hh Hx (pi_inh _ _ Hi) Hn) as [Hw1 _].
  split; [eapply part_inv_moves; [exact Hi|by apply moves_upd|done..]|].
  intros c u E. simpl. unfold upd. case_decide; [subst; rewrite Hpt|]; by apply Hhome.
Qed.

Lemma psn_clock c ds w : psn_inv w -> psn_inv (clock_to c ds w).
Proof. intros [[] Hhome]. split; [|done]. split; try done. by apply edom_ok_clock. Qed.

Lemma psn_quiet w w' : psn_inv w -> quiet w w' -> edom_ok w' -> psn_inv w' /\ sched_of w' = sched_of w.
Proof.
  intros [Hi Hhome] Hq Hw'. assert (sched_of w' = sched_of w) as Hs.
  { unfold sched_of. by rewrite (se_plugin _ _ (qt_env _ _ Hq)). }
  split; [|done]. split; unfold pinv; rewrite Hs; [by eapply part_inv_quiet|].
  intros c t E. rewrite (core_field get_partition (tasks w' t) (tasks w t)) by (done || apply Hq). by apply Hhome.
Qed.

Lemma psn_run c t w :
  psn_inv w -> in_heap (tasks w t) = false -> is_realtime (tasks w t) = true -> get_partition (tasks w t) = c ->
  (forall c', sched_of w c' <> Some t) ->
  psn_inv (set_plugin (upd (plugin w) c (mk_pcpu (pcpu (plugin w c)) (Some t))) w).
Proof.
  intros [Hi Hhome] Hh Hr Hp Hs.
  assert (forall c', sched_of (set_plugin (upd (plugin w) c (mk_pcpu (pcpu (plugin w c)) (Some t))) w) c'
    = upd (sched_of w) c (Some t) c') as Hsc by (intros c'; unfold sched_of, upd; simpl; unfold upd; by case_decide).
  split.
  - unfold pinv. eapply part_inv_ext; [exact Hsc|]. apply part_inv_plugin. by apply part_inv_run.
  - intros c' u. rewrite Hsc. unfold upd. case_decide; [by intros [= <-]; subst|]. apply Hhome.
Qed.

Lemma psn_stop c w :
  psn_inv w -> psn_inv (set_plugin (upd (plugin w) c (mk_pcpu (pcpu (plugin w c)) None)) w).
Proof.
  intros [Hi Hhome].
  assert (forall c', sched_of (set_plugin (upd (plugin w) c (mk_pcpu (pcpu (plugin w c)) None)) w) c'
    = upd (sched_of w) c None c') as Hsc by (intros c'; unfold sched_of, upd; simpl; unfold upd; by case_decide).
  split.
  - unfold pinv. eapply part_inv_ext; [exact Hsc|]. apply part_inv_plugin. by apply part_inv_drop.
  - intros c' u. rewrite Hsc. unfold upd. case_decide; [done|]. apply Hhome.
Qed.

Lemma release_at_queueable w t now :
  in_heap (tasks w t) = false -> is_realtime (tasks w t) = true -> time_ok w -> clock w <= now <= time_end w ->
  queueable (set_tasks (upd (tasks w) t (release_at now (tasks w t))) w) t.
Proof.
  intros Hh Hr Ht Hnow. destruct (to_task _ Ht t Hr) as (_ & _ & Hp & _ & He).
  destruct (to_clock _ Ht) as [Hc _].
  destruct (release_at_window now (tasks w t)) as [Er Ed]; [lia..|].
  split; simpl; rewrite upd_eq; [done|done|rewrite Ed; lia|rewrite Er; lia].
Qed.

(** A new task starts running on its CPU, or is queued in its domain. *)
Lemma psn_task_new_ok t on_rq (running : bool) w :
  psn_inv w -> time_ok w -> in_heap (tasks w t) = false -> is_realtime (tasks w t) = true ->
  (forall c, sched_of w c <> Some t) ->
  (running = true -> sched_of w (get_partition (tasks w t)) = None) ->
  wp (psnedf_task_new t on_rq running) (fun _ w' => psn_inv w' /\ tracked (sched_of w') w' t /\
    forall y, y <> t -> tracked (sched_of w') w' y <-> tracked (sched_of w) w y) w.
Proof.
  intros Hi Ht Hh Hr Hns Hrun. unfold psnedf_task_new, get_task, upd_task. wp_steps.
  apply clock_spec; [apply Ht|]. intros now ds Hnow Hc1 He1. wp_steps.
  set (w1 := clock_to now ds w). set (x := release_at now (tasks w1 t)).
  assert (psn_inv (set_tasks (upd (tasks w1) t x) w1)) as Hi2.
  { apply psn_change; try done; [by apply psn_clock|apply (psn_pinv _ Hi)]. }
  set (w2 := set_tasks _ w1) in *. assert (tasks w2 t = x) as Hx by (simpl; by rewrite upd_eq).
  assert (queueable w2 t) as Hq.
  { pose proof (release_at_queueable w t now Hh Hr Ht Hnow) as [Q1 Q2 Q3 Q4]. by split. }
  assert (get_partition (tasks w2 t) = get_partition (tasks w t)) as Hd by (by rewrite Hx). destruct running.
  - set (d := get_partition (tasks w t)) in *. specialize (Hrun eq_refl). unfold get_scheduled, set_scheduled. wp_steps.
    { change (scheduled (plugin w2 d)) with (sched_of w d). by rewrite Hrun. }
    split_and!.
    + apply psn_run; try done; by rewrite Hx.
    + right. exists d. unfold sched_of. simpl. by rewrite upd_eq.
    + intros y Hy. unfold tracked. apply or_iff_compat_l. split; intros [c Hcc]; exists c; revert Hcc;
        unfold sched_of; cbn [plugin set_plugin]; unfold upd; case_decide as E; simpl; try done; try congruence.
      subst c. intros Hs. unfold sched_of in Hrun. simpl in Hs. congruence.
  - wp_steps. rewrite <- Hd. eapply wp_mono; [by apply psn_enqueue|].
    intros _ w3 (Hi3 & Hs3 & (p & _ & Hp) & Hat). wp_steps.
    eapply wp_mono; [apply preempt_cpu_spec, (psn_pinv _ Hi3)|]. intros _ w4 [Hq4 Hw4].
    destruct (psn_quiet w3 w4 Hi3 Hq4 Hw4) as [Hi4 Hs4]. rewrite Hs4, Hs3. split_and!; [done| |].
    + left. exists p. by apply Hq4.
    + intros y Hy. unfold tracked. change (sched_of w2) with (sched_of w).
      assert (forall q, at_place w4 y q <-> at_place w y q) as Hy4; [|naive_solver].
      intros q. rewrite (qt_at _ _ Hq4), Hat by done. done.
Qed.

(** A task that wakes up is released again if its deadline has passed, and is
    queued unless it still runs. *)
Lemma psn_wake_up_ok t w :
  psn_inv w -> time_ok w -> in_heap (tasks w t) = false -> is_realtime (tasks w t) = true ->
  wp (psnedf_task_wake_up t) (fun _ w' => psn_inv w' /\ tracked (sched_of w') w' t /\ sched_of w' = sched_of w /\
    forall y q, y <> t -> at_place w' y q <-> at_place w y q) w.
Proof.
  intros Hi Ht Hh Hr. unfold psnedf_task_wake_up, get_task. wp_steps; [done|].
  apply clock_spec; [apply Ht|]. intros now ds Hnow Hc1 He1. wp_steps.
  set (w1 := clock_to now ds w). destruct (to_task _ Ht t Hr) as (Hrel & Hd & Hp & Hdp & _).
  apply (wp_mono _ (fun _ w2 => psn_inv w2 /\ queueable w2 t /\ clock_ok w2 /\ sched_of w2 = sched_of w /\
    get_partition (tasks w2 t) = get_partition (tasks w t) /\ forall y q, at_place w2 y q <-> at_place w y q)).
  - apply wp_when. destruct (_ && _).
    + unfold upd_task. wp_steps. split_and!; try done.
      * apply psn_change; try done; [by apply psn_clock|apply (psn_pinv _ Hi)].
      * pose proof (release_at_queueable w t now Hh Hr Ht Hnow) as [Q1 Q2 Q3 Q4]. by split.
      * simpl. by rewrite upd_eq.
    + split_and!; try done; [by apply psn_clock|]. split; try done. simpl. lia.
  - intros _ w2 (Hi2 & Hq2 & Hc2 & Hs2 & Hp2 & Hat2). unfold get_scheduled. wp_steps.
    change (scheduled (plugin w2 ?c)) with (sched_of w2 c). rewrite Hs2. apply wp_when.
    case_bool_decide as Hsch.
    + rewrite <- Hp2. eapply wp_mono; [apply psn_enqueue; try done|].
      { intros c E. pose proof (psn_home _ Hi2 c t E) as Hc. rewrite Hp2 in Hc. subst c. rewrite Hs2 in E. done. }
      intros _ w3 (Hi3 & Hs3 & (p & _ & Hp3) & Hat3). split_and!; [done|left; eauto|by rewrite Hs3|].
      intros y q Hy. by rewrite Hat3, Hat2.
    + split_and!; [done| |done|done]. right. exists (get_partition (tasks w t)).
      rewrite Hs2. destruct (decide (sched_of w (get_partition (tasks w t)) = Some t)); tauto.
Qed.

Lemma psn_exit_ok t w :
  psn_inv w -> (forall d o, ~ at_place w t (PRelease d o)) ->
  wp (psnedf_task_exit t) (fun _ w' => psn_inv w' /\ ~ tracked (sched_of w') w' t /\
    forall y, y <> t -> tracked (sched_of w') w' y <-> tracked (sched_of w) w y) w.
Proof.
  intros Hi Hnr. unfold psnedf_task_exit, get_task. wp_steps. set (d := get_partition (tasks w t)).
  apply (wp_mono _ (fun _ w1 => psn_inv w1 /\ plugin w1 = plugin w /\ in_heap (tasks w1 t) = false /\
    get_partition (tasks w1 t) = d /\ forall y q, y <> t -> at_place w1 y q <-> at_place w y q)).
  - apply wp_when. destruct (in_heap (tasks w t)) eqn:Eh; [|by split_and!].
    apply (qo_heap _ _ _ (pi_dom _ _ (psn_pinv _ Hi))) in Eh as [[d'|d' o] Hp]; [|by destruct (Hnr d' o)].
    assert (d' = d) as -> by (symmetry; apply (pi_part _ _ (psn_pinv _ Hi) t _ Hp)).
    eapply wp_mono; [apply edf_remove_spec; [apply (psn_pinv _ Hi)..|done]|]. intros _ w1 [Hm Hw1].
    pose proof (moves_of_moved _ _ _ _ Hm) as M.
    assert (sched_of w1 = sched_of w) as Hs1 by (unfold sched_of; by rewrite (ms_plugin _ _ _ _ _ M)).
    assert (forall u, get_partition (tasks w1 u) = get_partition (tasks w u)) as Hpt
      by (intros u; apply (core_field get_partition); [done|apply Hm]).
    split_and!; [split|apply M| |by rewrite Hpt|].
    + unfold pinv. rewrite Hs1. eapply (part_inv_moves _ t (tasks w t) None w); try done; apply (psn_pinv _ Hi).
    + intros c u. rewrite Hs1, Hpt. apply (psn_home _ Hi).
    + destruct (in_heap (tasks w1 t)) eqn:E; [|done]. apply (qo_heap _ _ _ Hw1) in E as [q Hq].
      apply (ms_at _ _ _ _ _ M) in Hq. by rewrite decide_True in Hq.
    + intros y q Hy. rewrite (ms_at _ _ _ _ _ M). by rewrite decide_False.
  - intros _ w1 (Hi1 & Hpl & Hh1 & Hd1 & Hat). unfold get_scheduled. wp_steps.
    change (scheduled (plugin w1 d)) with (sched_of w1 d).
    apply (wp_mono _ (fun _ w2 => psn_inv w2 /\ (forall c, sched_of w2 c <> Some t) /\
      (forall c y, y <> t -> sched_of w2 c = Some y <-> sched_of w1 c = Some y) /\
      (forall y q, at_place w2 y q <-> at_place w1 y q))).
    + apply wp_when. case_bool_decide as Es.
      * unfold set_scheduled. wp_steps. split_and!; [by apply psn_stop| | |done].
        -- intros c. unfold sched_of. simpl. unfold upd. case_decide as Ec; [done|].
           intros E. apply Ec. by apply (pi_once _ _ (psn_pinv _ Hi1) c d t).
        -- intros c y Hy. unfold sched_of. simpl. unfold upd. case_decide as Ec; simpl; [|done].
           unfold sched_of in Es. subst c. split; congruence.
      * split_and!; [done| |done|done]. intros c E. pose proof (psn_home _ Hi1 c t E). congruence.
    + intros _ w2 (Hi2 & Hns & Hs2 & Hat2). eapply wp_mono; [apply preempt_cpu_spec, (psn_pinv _ Hi2)|].
      intros _ w3 [Hq3 Hw3]. destruct (psn_quiet w2 w3 Hi2 Hq3 Hw3) as [Hi3 Hs3]. rewrite Hs3. split_and!; [done| |].
      * intros [[q Hq]|[c Hcc]]; [|by apply (Hns c)]. apply Hq3, Hat2 in Hq.
        eapply (unqueued_nowhere edf_ready_order edf_ok w1 t q); [apply (psn_pinv _ Hi1)|done|done].
      * intros y Hy. unfold tracked. assert (forall q, at_place w3 y q <-> at_place w y q) as Hya.
        { intros q. by rewrite (qt_at _ _ Hq3), Hat2, Hat. }
        assert (forall c, sched_of w2 c = Some y <-> sched_of w c = Some y) as Hyc.
        { intros c. rewrite Hs2 by done. unfold sched_of. by rewrite Hpl. }
        setoid_rewrite Hya. setoid_rewrite Hyc. done.
Qed.

(** [task_exit] of a task that waits in a release queue faults: [is_queued]
    holds, but [remove] looks for the task in the ready queue only. *)
Theorem psnedf_exit_waiting_faults t d o w :
  psn_inv w -> at_place w t (PRelease d o) -> psnedf_task_exit t w = None.
Proof.
  intros Hi Hp. assert (in_heap (tasks w t) = true) as Hh by (apply (qo_heap _ _ _ (pi_dom _ _ (psn_pinv _ Hi))); eauto).
  unfold psnedf_task_exit, get_task, gets, mbind, M_bind. rewrite Hh. unfold when, remove, get_dom, gets, mbind, M_bind.
  destruct (pq_delete _ _ _) as [q|] eqn:E; [|done]. exfalso.
  apply pq_delete_elems in E as (v & ->%bool_decide_eq_true & He).
  assert (at_place w t (PReady (get_partition (tasks w t)))) as Hr by (simpl; unfold ready_elems; rewrite He; by left).
  by pose proof (qo_unique _ _ _ (pi_dom _ _ (psn_pinv _ Hi)) _ _ _ Hp Hr).
Qed.

Lemma psn_poke t f w : poke f -> psn_inv w -> wp (upd_task t f) (fun _ w' => psn_inv w') w.
Proof.
  intros Hf Hi. eapply wp_mono; [apply edf_poke_spec; [done|apply (psn_pinv _ Hi)]|].
  intros _ w' [Hq Hw']. by apply (psn_quiet w).
Qed.

Lemma psn_tick_ok t w :
  psn_inv w -> (is_realtime (tasks w t) = true -> sched_of w (this_cpu w) = Some t) ->
  wp (psnedf_tick t) (fun _ w' => psn_inv w') w.
Proof.
  intros Hi Ht. unfold psnedf_tick, get_scheduled, get_task. wp_steps.
  { change (scheduled (plugin w ?c)) with (sched_of w c). destruct (is_realtime (tasks w t)); [|done].
    rewrite Ht by done. simpl. apply bool_decide_false. intros []. done. }
  apply wp_when. destruct (_ && _ && _); [|done]. destruct (negb _).
  - apply psn_poke; [apply poke_need_resched|done].
  - apply wp_when. destruct (is_user_np _); [|done]. apply psn_poke; [apply poke_request_exit_np|done].
Qed.

Lemma psn_timer_ok o w :
  psn_inv w -> active w o ->
  wp (on_release_timer (default_release_jobs edf_ready_order psnedf_check_resched) o)
    (fun _ w' => psn_inv w' /\ released o w w') w.
Proof.
  intros Hi Ha. eapply wp_mono; [apply edf_timer_spec; [apply check_resched_calm|apply (psn_pinv _ Hi)..|done]|].
  intros _ w' [Hrl Hw']. split; [|done].
  assert (sched_of w' = sched_of w) as Hs by (unfold sched_of; by rewrite (se_plugin _ _ (rl_env _ _ _ Hrl))).
  split; unfold pinv; rewrite Hs; [by eapply part_inv_released; [apply (psn_pinv _ Hi)|..]|].
  intros c t E. rewrite (core_field get_partition (tasks w' t) (tasks w t)) by (done || apply Hrl). by apply (psn_home _ Hi).
Qed.

(** ** Runs of the plugin *)
Inductive psn_call : Type :=
  | CSchedule (prev : tid) | CTick (t : tid) | CTaskNew (t : tid) (on_rq running : bool)
  | CWakeUp (t : tid) | CBlock (t : tid) | CExit (t : tid) | CReleaseTimer (o : tid).

Definition psn_exec (c : psn_call) : M world unit :=
  match c with
  | CSchedule prev => psnedf_schedule prev;; mret tt
  | CTick t => psnedf_tick t
  | CTaskNew t on_rq running => psnedf_task_new t on_rq running
  | CWakeUp t => psnedf_task_wake_up t
  | CBlock t => psnedf_task_block t
  | CExit t => psnedf_task_exit t
  | CReleaseTimer o => on_release_timer (default_release_jobs edf_ready_order psnedf_check_resched) o
  end.

(** How the rest of the kernel calls the handlers. *)
Definition psn_pre (c : psn_call) w : Prop :=
  match c with
  | CSchedule prev => forall t, sched_of w (this_cpu w) = Some t -> t = prev
  | CTick t => is_realtime (tasks w t) = true -> sched_of w (this_cpu w) = Some t
  | CTaskNew t _ running =>
      in_heap (tasks w t) = false /\ is_realtime (tasks w t) = true /\ (forall c, sched_of w c <> Some t) /\
      (running = true -> sched_of w (get_partition (tasks w t)) = None)
  | CWakeUp t => in_heap (tasks w t) = false /\ is_realtime (tasks w t) = true
  | CBlock t => in_heap (tasks w t) = false /\ is_realtime (tasks w t) = true
  | CExit t => forall d o, ~ at_place w t (PRelease d o)
  | CReleaseTimer o => active w o
  end.

(** What happens between calls: time passes, tasks execute and block, and the
    rest of the kernel changes tasks, but not what the queues depend on. *)
Record psn_env w w' : Prop := {
  pe_doms : doms w' = doms w;
  pe_rheaps : rheaps w' = rheaps w;
  pe_plugin : plugin w' = plugin w;
  pe_tick : tick_period w' = tick_period w;
  pe_fixed x : pid (tasks w' x) = pid (tasks w x) /\ inh_task (tasks w' x) = None /\
    in_heap (tasks w' x) = in_heap (tasks w x);
  pe_queued x : in_heap (tasks w x) = true ->
    is_realtime (tasks w' x) = is_realtime (tasks w x) /\ get_deadline (tasks w' x) = get_deadline (tasks w x) /\
    get_release (tasks w' x) = get_release (tasks w x) /\ get_partition (tasks w' x) = get_partition (tasks w x);
  pe_running c x : sched_of w c = Some x ->
    is_realtime (tasks w' x) = is_realtime (tasks w x) /\ get_partition (tasks w' x) = get_partition (tasks w x)
}.

Inductive psn_step : world -> world -> Prop :=
  | psn_step_call c w w' : time_ok w -> psn_pre c w -> psn_exec c w = Some (tt, w') -> psn_step w w'
  | psn_step_env w w' : psn_env w w' -> psn_step w w'.

Lemma psn_call_ok c w : psn_inv w -> time_ok w -> psn_pre c w -> wp (psn_exec c) (fun _ w' => psn_inv w') w.
Proof.
  intros Hi Ht Hp. destruct c as [prev|t|t on_rq running|t|t|t|o]; simpl in *.
  - wp_steps. assert (wp (psnedf_schedule prev) (scheduled_well w) w) as Hs.
    { destruct (sched_of w (this_cpu w)) as [t|] eqn:E.
      - rewrite <- (Hp t eq_refl) in *. by apply psn_schedule_busy.
      - by apply psn_schedule_idle. }
    eapply wp_mono; [exact Hs|]. intros next w' Hw. wp_steps. apply Hw.
  - by apply psn_tick_ok.
  - destruct Hp as (? & ? & ? & ?). eapply wp_mono; [by apply psn_task_new_ok|]. intros ? w' (? & _). done.
  - destruct Hp. eapply wp_mono; [by apply psn_wake_up_ok|]. intros ? w' (? & _). done.
  - destruct Hp as [Hh Hr]. unfold psnedf_task_block, get_task. wp_steps; [by rewrite Hr|done|done].
  - eapply wp_mono; [by apply psn_exit_ok|]. intros ? w' (? & _). done.
  - eapply wp_mono; [by apply psn_timer_ok|]. intros ? w' (? & _). done.
Qed.

Lemma psn_env_wf w w' (q : Q tid) :
  psn_inv w -> psn_env w w' -> (forall x, x ∈ pq_elems q -> in_heap (tasks w x) = true) ->
  pq_wf (edf_ok (tasks w)) (edf_ready_order (tasks w)) q ->
  pq_wf (edf_ok (tasks w')) (edf_ready_order (tasks w')) q.
Proof.
  intros Hi He Hq Hwf. pose proof (pi_inh _ _ (psn_pinv _ Hi)) as Hn.
  assert (no_inheritance (tasks w')) as Hn' by (intros x; apply (pe_fixed _ _ He)).
  eapply pq_wf_ext; [exact Hwf| |].
  - pose proof (pq_wf_D _ _ _ Hwf) as HD. rewrite Forall_forall in *. intros x Hx. specialize (HD x Hx).
    unfold edf_ok, edf_dom, eff in *. rewrite Hn in HD. rewrite Hn'. simpl in *.
    destruct (pe_queued _ _ He x (Hq x Hx)) as (-> & -> & _). done.
  - intros a b Ha Hb. apply edf_order_same; [done..| |]; split_and!; try (rewrite Hn, Hn'; done);
      (apply (pe_fixed _ _ He) || (apply (pe_queued _ _ He); by apply Hq)).
Qed.

Lemma psn_env_ok w w' : psn_inv w -> psn_env w w' -> psn_inv w'.
Proof.
  intros Hi He. pose proof (psn_pinv _ Hi) as Hp. pose proof (pi_dom _ _ Hp) as Hd.
  assert (forall x p, at_place w' x p <-> at_place w x p) as Hat.
  { intros x [d|d o]; simpl; unfold ready_elems, active, rel_elems; by rewrite (pe_doms _ _ He) || rewrite (pe_rheaps _ _ He). }
  assert (forall x p, at_place w x p -> in_heap (tasks w x) = true) as Hin by (intros x p Hx; apply (qo_heap _ _ _ Hd); eauto).
  assert (sched_of w' = sched_of w) as Hs by (unfold sched_of; by rewrite (pe_plugin _ _ He)).
  assert (edom_ok w') as Hd'.
  { split; unfold ready_elems, active, rel_elems, slot_of in *; rewrite ?(pe_doms _ _ He), ?(pe_rheaps _ _ He), ?(pe_tick _ _ He).
    - intros t p p'. rewrite !Hat. apply (qo_unique _ _ _ Hd).
    - intros t. destruct (pe_fixed _ _ He t) as (_ & _ & ->). rewrite (qo_heap _ _ _ Hd t).
      split; intros [p Hpp]; exists p; by apply Hat.
    - apply (qo_nodup_ready _ _ _ Hd).
    - apply (qo_nodup_rel _ _ _ Hd).
    - apply (qo_slot _ _ _ Hd).
    - apply (qo_sorted _ _ _ Hd).
    - apply (qo_owner _ _ _ Hd).
    - intros o t Ho Ht. destruct (pe_queued _ _ He t) as (_ & _ & -> & _); [|by apply (qo_time _ _ _ Hd)].
      by apply (Hin t (PRelease (rh_dom (rheaps w o)) o)).
    - apply (qo_window _ _ _ Hd).
    - apply (qo_tobe _ _ _ Hd).
    - intros d. eapply psn_env_wf; [done..| |apply (qo_ready_wf _ _ _ Hd)]. intros x Hx. by apply (Hin x (PReady d)).
    - intros o Ho. eapply psn_env_wf; [done..| |by apply (qo_rel_wf _ _ _ Hd)].
      intros x Hx. by apply (Hin x (PRelease (rh_dom (rheaps w o)) o)). }
  split; unfold pinv; rewrite Hs.
  - split; [done|..].
    + intros a b E. apply (pi_pids _ _ Hp). destruct (pe_fixed _ _ He a) as (<- & _). by destruct (pe_fixed _ _ He b) as (<- & _).
    + intros x. apply (pe_fixed _ _ He).
    + intros c. rewrite (pe_plugin _ _ He). apply Hp.
    + intros c t E. destruct (pi_sched _ _ Hp c t E) as [Hh Hr]. destruct (pe_fixed _ _ He t) as (_ & _ & ->).
      by destruct (pe_running _ _ He c t E) as [-> _].
    + apply Hp.
    + intros t p Hpp. apply Hat in Hpp. destruct (pe_queued _ _ He t (Hin t p Hpp)) as (_ & _ & _ & ->).
      by apply (pi_part _ _ Hp).
  - intros c t E. destruct (pe_running _ _ He c t E) as [_ ->]. by apply (psn_home _ Hi).
Qed.

(** The state after [init_psn_edf]: empty queues, no timers, idle CPUs. *)
Record psn_blank w : Prop := {
  pb_doms d : doms w d = mk_rt_domain pq_init (fun _ => []) [] NO_CPU;
  pb_timers o : rh_timer (rheaps w o) = None;
  pb_plugin c : plugin w c = mk_pcpu c None;
  pb_pids : pids_unique (tasks w);
  pb_inh : no_inheritance (tasks w);
  pb_heap x : in_heap (tasks w x) = false
}.

Lemma psn_blank_ok w : psn_blank w -> psn_inv w.
Proof.
  intros [Hd Ht Hp Hu Hn Hh].
  destruct (blank_domains w Hd Ht Hh) as [Hok Hno]. split; [split|].
  - done.
  - done.
  - done.
  - intros c. by rewrite Hp.
  - intros c t. unfold sched_of. by rewrite Hp.
  - intros c c' t. unfold sched_of. by rewrite Hp.
  - intros t p Hp1. by destruct (Hno t p).
  - intros c t. unfold sched_of. by rewrite Hp.
Qed.

Lemma psn_steps_inv w0 w : psn_inv w0 -> rtc psn_step w0 w -> psn_inv w.
Proof.
  intros Hi Hs. induction Hs as [|w1 w2 w3 Hst _ IH]; [done|]. apply IH.
  destruct Hst as [c w w' Ht Hp E|w w' He]; [|by eapply psn_env_ok].
  pose proof (psn_call_ok c w Hi Ht Hp) as Hc. unfold wp in Hc. by rewrite E in Hc.
Qed.

(** C11: Every state the plugin can reach from its initial state satisfies the
    invariant: a task is in at most one queue and is not queued while it runs,
    queues are EDF-ordered, release heaps are sorted, armed and hold jobs of
    their release time, and every task is on the CPU of its partition. *)
Theorem psn_reachable_inv w0 w : psn_blank w0 -> rtc psn_step w0 w -> psn_inv w.
Proof. intros Hb. apply psn_steps_inv. by apply psn_blank_ok. Qed.


End Correct.
