(* ===== verification/EdfFm.v ===== *)
(** * EDF-fm: semi-partitioned EDF that migrates between jobs

    The plugin of src/litmus2010/litmus/sched_edf_fm.c.  A migratory task has two
    processors and a share on each; when a job completes the task may change its
    processor for the next one.  First the functions of the code, on a task
    ([None] is a [BUG_ON] or a division by zero) and on the kernel state; then
    the choice of the processor, over the whole life of a task; then the
    [schedule] function. *)

From stdpp Require Import sorting.
From S2P Require Import Prelude Task Edf PrioQueue Kernel RtDomain RtInv EdfDomain Partitioned.
Open Scope Z_scope.

(** ** The migratory task *)
Section Task.
Implicit Types t : task_struct.

Definition edffm_params_of t : edffm_params := fm (task_params t).
Definition is_migrat_task t : bool := negb (fm_nr_cpus (edffm_params_of t) =? 0).
(** t is on the wrong CPU (it should be requeued properly) *)
Definition wrong_cpu t : bool := is_migrat_task t && negb (task_cpu t =? get_partition t).
Definition on_first_cpu t : bool := get_partition t =? (fm_cpus (edffm_params_of t)).1.
Definition migrat_next_cpu t : Z :=
  if on_first_cpu t then (fm_cpus (edffm_params_of t)).2 else (fm_cpus (edffm_params_of t)).1.
Definition migrat_cur_cpu t : Z :=
  if on_first_cpu t then (fm_cpus (edffm_params_of t)).1 else (fm_cpus (edffm_params_of t)).2.
Definition cur_cpu_fract_num t : Z :=
  if on_first_cpu t then (fm_fraction (edffm_params_of t)).1.1 else (fm_fraction (edffm_params_of t)).1.2.
Definition cur_cpu_fract_den t : Z :=
  if on_first_cpu t then (fm_fraction (edffm_params_of t)).2.1 else (fm_fraction (edffm_params_of t)).2.2.
Definition cur_cpu_job_no t : Z :=
  if on_first_cpu t then cpu_job_no 0 (semi_part t) else cpu_job_no 1 (semi_part t).
Definition edffm_cpu_pos (c : Z) t : Z := if c =? (fm_cpus (edffm_params_of t)).1 then 0 else 1.

(** Update statistics for the current job. *)
Definition update_job_counter t : task_struct :=
  let cpu_pos := edffm_cpu_pos (get_partition t) t in
  set_semi_part (set_cpu_job_no cpu_pos (cpu_job_no cpu_pos (semi_part t) + 1) (semi_part t)) t.

(** What is the next cpu for this job? *)
Definition next_cpu_for_job t : option Z :=
  if negb (is_migrat_task t) then None                   (* BUG_ON *)
  else if cur_cpu_fract_num t =? 0 then None             (* division by zero *)
  else Some (if job_no (job_params t) =? u64 (cur_cpu_job_no t * cur_cpu_fract_den t) / cur_cpu_fract_num t
             then (fm_cpus (edffm_params_of t)).1 else (fm_cpus (edffm_params_of t)).2).

Definition change_migrat_cpu_if_needed t : option task_struct :=
  if negb (is_migrat_task t) then None                   (* BUG_ON *)
  else
    c ← next_cpu_for_job t;
    Some (if negb (c =? migrat_cur_cpu t)
          then set_task_params (set_cpu (migrat_next_cpu t) (task_params t)) t else t).

Definition fm_job_completion t : option task_struct :=
  t ← (if is_migrat_task t then change_migrat_cpu_if_needed (update_job_counter t) else Some t);
  Some (prepare_for_next_period (set_rt_flags RT_F_SLEEP t)).

Definition edffm_admit_task t : Z := if task_cpu t =? get_partition t then 0 else - EINVAL.

End Task.

(** EDF-fm: migratory tasks have higher prio than fixed, EDF in both classes. *)
Definition edffm_higher_prio (T : tid -> task_struct) (first second : option tid) : bool :=
  let mig o := match o with Some t => is_migrat_task (T t) | None => false end in
  if mig first || mig second then
    if mig first && mig second then edf_higher_prio T first second
    else mig first
  else edf_higher_prio T first second.

(** ** The handlers *)
Section Handlers.
Context {Q : Type -> Type} `{PrioQueue Q}.
Abbreviation world := (world Q pstate).
Abbreviation K := (M world).

Definition upd_task_some (t : tid) (f : task_struct -> option task_struct) : K unit :=
  x ← get_task t; y ← of_option (f x); upd_task t (fun _ => y).

Definition edffm_preemption_needed (d : Z) (t : option tid) : K bool :=
  pending ← __jobs_pending d;
  if negb pending then mret false
  else
    match t with
    | None => mret true
    | Some t =>
        x ← get_task t;
        if negb (is_realtime x) then mret true
        else
          hn ← __next_ready edf_ready_order d;
          T ← gets tasks;
          mret (edffm_higher_prio T hn (Some t))
    end.

Definition fm_preempt : Z -> K unit := preempt_cpu true.

Definition edffm_release_jobs (d : Z) (o : tid) : K unit :=
  __merge_ready edf_ready_order dummy_resched d o;;
  s ← get_scheduled d;
  needed ← edffm_preemption_needed d s;
  when needed (fm_preempt d).

(** The release master is set for the time of the call, so that the timer is
    armed on the CPU of the next job. *)
Definition edffm_add_release_remote (t : tid) : K unit :=
  x ← get_task t;
  let d := get_partition x in
  upd_dom d (set_release_master (get_partition x));;
  __add_release edf_ready_order d t;;
  upd_dom d (set_release_master NO_CPU).

(** With the lock of the remote domain held as well. *)
Definition insert_task_in_remote_ready (t : tid) : K unit :=
  x ← get_task t;
  let d := get_partition x in
  dcpu ← get_pcpu d;
  BUG_ON (negb (get_partition x =? dcpu));;
  __add_ready edf_ready_order dummy_resched d t;;
  fm_preempt d.

Definition fm_requeue (t : tid) (d : Z) : K unit :=
  upd_task t (set_rt_flags RT_F_RUNNING);;
  now ← litmus_clock;
  x ← get_task t;
  if is_released x now then
    (* already tardy: migrated and inserted in the remote ready queue *)
    if wrong_cpu x then insert_task_in_remote_ready t
    else __add_ready edf_ready_order dummy_resched d t
  else
    if wrong_cpu x then edffm_add_release_remote t
    else add_release edf_ready_order d t.

Definition edffm_tick (t : tid) : K unit :=
  me ← gets this_cpu;
  s ← get_scheduled me;
  x ← get_task t;
  BUG_ON (is_realtime x && bool_decide (s <> Some t));;
  when (is_realtime x && budget_enforced x && budget_exhausted x) (set_tsk_need_resched t).

Definition fm_switch (me : Z) (t : option tid) (again : bool) : K (option tid) :=
  match t with
  | Some t => when again (fm_requeue t me)
  | None => mret tt
  end;;
  __take_ready edf_ready_order me.

Definition edffm_schedule (prev : tid) : K (option tid) :=
  me ← gets this_cpu;
  s ← get_scheduled me;
  xprev ← get_task prev;
  BUG_ON (match s with Some t => bool_decide (t <> prev) | None => false end);;
  BUG_ON (match s with Some _ => negb (is_realtime xprev) | None => false end);;
  (* (0) Determine state *)
  T ← gets tasks;
  let on_s (f : task_struct -> bool) := match s with Some t => f (T t) | None => false end in
  let exists_ := on_s (fun _ => true) in
  let blocks := on_s (fun x => negb (is_running x)) in
  let out_of_time := on_s (fun x => budget_enforced x && budget_exhausted x) in
  let sleep := on_s (fun x => get_rt_flags x =? RT_F_SLEEP) in
  let change_cpu := on_s wrong_cpu in
  preempt ← edffm_preemption_needed me (Some prev);
  BUG_ON (blocks && change_cpu);;
  (* Any task that exhausts its execution budget or wants to sleep completes. *)
  let completes := (out_of_time || sleep) && negb blocks in
  when completes (match s with Some t => upd_task_some t fm_job_completion | None => mret tt end);;
  let resched := preempt || blocks || change_cpu || completes in
  (* The final scheduling decision. *)
  next ← (if resched || negb exists_ then fm_switch me s (negb blocks)
          else mret (if exists_ then Some prev else None));
  pedf_commit me next.

(** Prepare a task for running in RT mode *)
Definition edffm_task_new (t : tid) (on_rq running : bool) : K unit :=
  x ← get_task t;
  let d := get_partition x in
  now ← litmus_clock;
  upd_task t (release_at now);;
  upd_task t update_job_counter;;
  if running then
    s ← get_scheduled d;
    BUG_ON (bool_decide (s <> None));;
    set_scheduled d (Some t)
  else
    fm_requeue t d;;
    fm_preempt d.

Definition edffm_task_wake_up (t : tid) : K unit :=
  x ← get_task t;
  let d := get_partition x in
  BUG_ON (in_heap x);;
  now ← litmus_clock;
  when (is_tardy x now)
    (* a new job will be released: update the counter, switch CPU if needed *)
    (when (is_migrat_task x) (upd_task_some t (fun x => change_migrat_cpu_if_needed (update_job_counter x)));;
     upd_task t (release_at now));;
  s ← get_scheduled d;
  when (bool_decide (s <> Some t)) (fm_requeue t d).

Definition edffm_task_block (t : tid) : K unit :=
  x ← get_task t;
  BUG_ON (negb (is_realtime x));;
  when (in_heap x) (me ← gets this_cpu; remove edf_ready_order me t).

Definition edffm_task_exit (t : tid) : K unit :=
  x ← get_task t;
  let d := get_partition x in
  when (in_heap x) (remove edf_ready_order d t);;
  s ← get_scheduled d;
  when (bool_decide (s = Some t)) (set_scheduled d None);;
  fm_preempt d.

(** [init_edffm], for the CPUs [0 ... n-1]. *)
Fixpoint init_edffm (n : nat) : K unit :=
  match n with
  | O => mret tt
  | S n => init_edffm n;; pedf_domain_init (Z.of_nat n)
  end.

End Handlers.

(** ** The counters in the shared word *)
Section Counters.
Implicit Types s : semi_part_t.

Lemma u32_ones x : u32 x = Z.land x (Z.ones 32).
Proof. by rewrite Z.land_ones. Qed.

Lemma u32_bits x i : 0 <= i -> Z.testbit (u32 x) i = Z.testbit x i && (i <? 32).
Proof.
  intros Hi. rewrite u32_ones, Z.land_spec, Z.testbit_ones by lia. f_equal.
  destruct (Z.leb_spec 0 i), (Z.ltb_spec i 32); lia || done.
Qed.

Lemma pack_words hi lo : Z.lor (Z.shiftl hi 32) (u32 lo) = hi * two32 + u32 lo.
Proof.
  assert (Z.land (Z.shiftl hi 32) (u32 lo) = 0) as E.
  { apply Z.bits_inj'. intros i Hi. rewrite Z.land_spec, Z.shiftl_spec, u32_bits, Z.bits_0 by lia.
    destruct (Z.ltb_spec i 32); [by rewrite Z.testbit_neg_r by lia|by rewrite !andb_false_r]. }
  rewrite <- Z.lxor_lor, <- Z.add_nocarry_lxor, Z.shiftl_mul_pow2 by done. done.
Qed.

Lemma word_lo hi lo : u32 (Z.shiftr (hi * two32 + u32 lo) (32 * 0)) = u32 lo.
Proof.
  rewrite Z.mul_0_r, Z.shiftr_0_r. unfold u32. by rewrite Z.add_comm, Z_mod_plus_full, Zmod_mod.
Qed.

Lemma word_hi hi lo : u32 (Z.shiftr (u32 hi * two32 + u32 lo) (32 * 1)) = u32 hi.
Proof.
  rewrite Z.mul_1_r, Z.shiftr_div_pow2 by done. change (2 ^ 32) with two32.
  rewrite Z.div_add_l by done. unfold u32. rewrite (Z.div_small (lo `mod` two32)).
  - by rewrite Z.add_0_r, Zmod_mod.
  - by apply Z.mod_pos_bound.
Qed.

Lemma cpu_job_no_set s v i j :
  (i = 0 \/ i = 1) -> (j = 0 \/ j = 1) ->
  cpu_job_no j (set_cpu_job_no i v s) = if j =? i then u32 v else cpu_job_no j s.
Proof.
  intros Hi Hj. unfold set_cpu_job_no, cpu_job_no. simpl.
  destruct Hi as [-> | ->], Hj as [-> | ->]; simpl; rewrite ?pack_words, ?word_lo, ?word_hi; done.
Qed.

End Counters.

(** ** The processors of a migratory task over its life *)

(** The jobs of the task complete one after the other. *)
Fixpoint fm_jobs (n : nat) (t : task_struct) : option task_struct :=
  match n with
  | O => Some t
  | S n => t ← fm_jobs n t; fm_job_completion t
  end.

(** A task with processors [p0] and [p1] and shares [n0/d0] and [n1/d1], whose
    counters are [c0] and [c1] and whose current job is number [j]. *)
Record fm_at (p0 p1 n0 d0 n1 d1 c0 c1 j : Z) (first : bool) (t : task_struct) : Prop := {
  fa_migrat : is_migrat_task t = true;
  fa_cpus : fm_cpus (edffm_params_of t) = (p0, p1);
  fa_share : fm_fraction (edffm_params_of t) = ((n0, n1), (d0, d1));
  fa_cpu : get_partition t = if first then p0 else p1;
  fa_c0 : cpu_job_no 0 (semi_part t) = c0;
  fa_c1 : cpu_job_no 1 (semi_part t) = c1;
  fa_job : job_no (job_params t) = j }.

Section Life.
Context (p0 p1 n0 d0 n1 d1 : Z).
Hypothesis Hp : p0 <> p1.
Hypothesis Hn0 : 0 < n0 < two32.
Hypothesis Hn1 : 0 < n1 < two32.
Hypothesis Hd0 : 0 <= d0 < two32.
Hypothesis Hd1 : 0 <= d1 < two32.
Abbreviation at_job := (fm_at p0 p1 n0 d0 n1 d1).

Lemma count_at c0 c1 j first t :
  at_job c0 c1 j first t -> 0 <= c0 < two32 - 1 -> 0 <= c1 < two32 - 1 ->
  at_job (if first then c0 + 1 else c0) (if first then c1 else c1 + 1) j first (update_job_counter t).
Proof.
  intros [Hm Hcp Hsh Hc H0 H1 Hj] Hc0 Hc1. unfold update_job_counter, edffm_cpu_pos. rewrite Hcp, Hc. simpl.
  destruct first; rewrite ?Z.eqb_refl, ?(proj2 (Z.eqb_neq p1 p0)) by done;
    split; try done; simpl; rewrite cpu_job_no_set by auto; simpl; rewrite ?H0, ?H1; try done;
    apply Z.mod_small; unfold two32 in *; lia.
Qed.

Lemma change_at c0 c1 j first t :
  at_job c0 c1 j first t -> 0 <= c0 < two32 -> 0 <= c1 < two32 ->
  exists t', change_migrat_cpu_if_needed t = Some t' /\
    at_job c0 c1 j (if first then j =? c0 * d0 / n0 else j =? c1 * d1 / n1) t'.
Proof.
  intros [Hm Hcp Hsh Hc H0 H1 Hj] Hc0 Hc1.
  assert (on_first_cpu t = first) as Hf.
  { unfold on_first_cpu. rewrite Hcp, Hc. simpl. destruct first; [apply Z.eqb_refl|by apply Z.eqb_neq]. }
  assert (u64 (cur_cpu_job_no t * cur_cpu_fract_den t) = if first then c0 * d0 else c1 * d1) as Eu.
  { unfold cur_cpu_job_no, cur_cpu_fract_den. rewrite Hf, Hsh. simpl.
    destruct first; rewrite ?H0, ?H1; apply Z.mod_small; unfold two32, two64 in *; nia. }
  unfold change_migrat_cpu_if_needed, next_cpu_for_job. rewrite Hm. simpl. rewrite Eu, Hj.
  unfold cur_cpu_fract_num, migrat_cur_cpu, migrat_next_cpu. rewrite Hf, Hsh, Hcp. simpl.
  destruct first; rewrite (proj2 (Z.eqb_neq _ 0)) by lia; simpl; eexists; (split; [done|]).
  - destruct (j =? c0 * d0 / n0); rewrite ?Z.eqb_refl, ?(proj2 (Z.eqb_neq p1 p0)) by done; by split.
  - destruct (j =? c1 * d1 / n1); rewrite ?Z.eqb_refl, ?(proj2 (Z.eqb_neq p0 p1)) by done; by split.
Qed.

Lemma completion_at c0 c1 j first t :
  at_job c0 c1 j first t -> 0 <= c0 < two32 - 1 -> 0 <= c1 < two32 - 1 ->
  exists t', fm_job_completion t = Some t' /\
    at_job (if first then c0 + 1 else c0) (if first then c1 else c1 + 1) (u32 (j + 1))
      (if first then j =? (c0 + 1) * d0 / n0 else j =? (c1 + 1) * d1 / n1) t'.
Proof.
  intros Ht Hc0 Hc1. pose proof (count_at _ _ _ _ _ Ht Hc0 Hc1) as Hu.
  destruct (change_at _ _ _ _ _ Hu) as (t' & E & Ht'); [destruct first; lia..|].
  unfold fm_job_completion. rewrite (fa_migrat _ _ _ _ _ _ _ _ _ _ _ Ht), E. simpl.
  eexists. split; [done|]. destruct first, Ht' as [? ? ? ? ? ? Ej]; (split; try done); simpl; by rewrite Ej.
Qed.

(** A task whose job number has fallen behind on its second processor. *)
Lemma behind_at c0 c1 j t n :
  at_job c0 c1 j false t -> 0 <= c0 < two32 - 1 -> 0 <= c1 -> 0 <= j -> n1 <= d1 -> j < (c1 + 1) * d1 / n1 ->
  c1 + Z.of_nat n < two32 - 1 -> j + Z.of_nat n < two32 ->
  exists t', fm_jobs n t = Some t' /\ at_job c0 (c1 + Z.of_nat n) (j + Z.of_nat n) false t'.
Proof.
  intros Ht Hc0 Hc1 Hj Hnd Hb. induction n as [|n IH]; intros Hn Hjn.
  - exists t. simpl. by rewrite !Z.add_0_r.
  - destruct IH as (t1 & E1 & Ht1); [lia..|]. simpl. rewrite E1. simpl.
    destruct (completion_at _ _ _ _ _ Ht1) as (t2 & E2 & Ht2); [lia..|]. exists t2. split; [done|].
    assert (j + Z.of_nat n < (c1 + Z.of_nat n + 1) * d1 / n1) as Hlt.
    { assert ((c1 + 1) * d1 / n1 + Z.of_nat n <= (c1 + Z.of_nat n + 1) * d1 / n1); [|lia].
      rewrite <- Z.div_add by lia. apply Z.div_le_mono; [lia|]. nia. }
    rewrite (proj2 (Z.eqb_neq _ _)) in Ht2 by lia.
    unfold u32 in Ht2. rewrite Z.mod_small in Ht2 by lia.
    replace (c1 + Z.of_nat (S n)) with (c1 + Z.of_nat n + 1) by lia.
    by replace (j + Z.of_nat (S n)) with (j + Z.of_nat n + 1) by lia.
Qed.

End Life.

(** The shares [(k-1)/k] and [1/k]: [q] rounds of [k] jobs and [r] more. *)
Lemma round_robin k c0 q r :
  3 <= k -> 0 <= q -> 0 <= r < k -> c0 = q * (k - 1) + r ->
  (q * k + r =? c0 * k / (k - 1)) = negb (r =? k - 1).
Proof.
  intros Hk Hq Hr ->.
  replace ((q * (k - 1) + r) * k) with (r * k + (q * k) * (k - 1)) by ring. rewrite Z.div_add by lia.
  replace (r * k) with (r + r * (k - 1)) by ring. rewrite Z.div_add by lia.
  destruct (Z.eqb_spec r (k - 1)) as [->|Hne]; simpl.
  - rewrite Z.div_same by lia. apply Z.eqb_neq. lia.
  - rewrite Z.div_small by lia. apply Z.eqb_eq. lia.
Qed.


(** With other shares the rule breaks down.  [next_cpu_for_job] compares the
    job number with [cpu_job_no * den / num] of the processor the task is on; the
    EDF-fm rule uses the first processor's throughout.  If on its second
    processor the job number is below that quotient, the task stays there for
    ever, whatever its share on the first. *)
Theorem fm_never_returns p0 p1 n0 d0 n1 d1 c0 c1 j t n :
  p0 <> p1 -> 0 < n0 < two32 -> 0 < n1 <= d1 -> 0 <= d0 < two32 -> d1 < two32 ->
  fm_at p0 p1 n0 d0 n1 d1 c0 c1 j false t -> 0 <= c0 < two32 - 1 -> 0 <= c1 -> 0 <= j ->
  j < (c1 + 1) * d1 / n1 -> c1 + Z.of_nat n < two32 - 1 -> j + Z.of_nat n < two32 ->
  exists t', fm_jobs n t = Some t' /\ get_partition t' = p1.
Proof.
  intros Hp Hn0 Hn1 Hd0 Hd1 Ht Hc0 Hc1 Hj Hb Hn Hjn.
  destruct (behind_at p0 p1 n0 d0 n1 d1 Hp Hn0 ltac:(lia) Hd0 ltac:(lia) c0 c1 j t n) as (t' & E & Ht'); try done; [lia|].
  exists t'. split; [done|]. by destruct Ht'.
Qed.
