(* ===== verification/EdfFmSched.v ===== *)
(** * Scheduling under EDF-fm

    What [edffm_schedule] (EdfFm.v) guarantees: the queue invariant of
    Partitioned.v, the choice of the next task, and the migration of a task whose
    next job belongs to its other processor. *)

From stdpp Require Import sorting.
From S2P Require Import Prelude Task Edf PrioQueue Kernel RtDomain RtInv EdfDomain Partitioned EdfFm.
Open Scope Z_scope.

Section Sched.
Context {Q : Type -> Type} `{PrioQueueLaws Q}.
Abbreviation world := (world Q pstate).
Abbreviation K := (M world).
Implicit Types (w : world) (t prev : tid) (x : task_struct) (s : Z -> option tid).

(** The release master of a domain is read when a timer is armed only. *)
Lemma release_master_spec d v w :
  edom_ok w -> wp (upd_dom d (set_release_master v)) (fun _ w' => quiet w w' /\ tasks w' = tasks w /\ edom_ok w') w.
Proof.
  intros Hw. unfold upd_dom. wp_steps.
  assert (forall A (f : rt_domain Q -> A) d', (forall r, f (set_release_master v r) = f r) ->
    f (upd (doms w) d (set_release_master v (doms w d)) d') = f (doms w d')) as Hf
    by (intros A f d' Hf; unfold upd; case_decide; subst; [apply Hf|done]).
  set (w' := set_doms _ w).
  assert (forall t p, at_place w' t p <-> at_place w t p) as Hat.
  { intros t [d'|d' o]; [|done]. unfold at_place, ready_elems. simpl.
    by rewrite (Hf _ (fun r => pq_elems (ready_queue r))). }
  split_and!; [by split|done|]. destruct Hw. split; try done.
  - intros t p p' ?%Hat ?%Hat. eauto.
  - intros t. change (tasks w' t) with (tasks w t). rewrite qo_heap. by setoid_rewrite Hat.
  - intros d'. unfold ready_elems. simpl. rewrite (Hf _ (fun r => pq_elems (ready_queue r))) by done. apply qo_nodup_ready.
  - intros d' i o. simpl. rewrite (Hf _ (fun r => release_queue r)) by done. apply qo_slot.
  - intros d' i. simpl. rewrite (Hf _ (fun r => release_queue r)) by done. apply qo_sorted.
  - intros d'. simpl. rewrite (Hf _ (fun r => tobe_released r)) by done. apply qo_tobe.
  - intros d'. simpl. rewrite (Hf _ (fun r => ready_queue r)) by done. apply qo_ready_wf.
Qed.

Lemma requeued_quiet t d w w1 w2 : requeued t d w w1 -> quiet w1 w2 -> edom_ok w2 -> requeued t d w w2.
Proof. intros (_ & p & Hp & M) Hq Hw2. split; [done|]. exists p. split; [done|]. by eapply moves_quiet. Qed.

Lemma prepared_quiet t w w1 w2 :
  prepared t w w1 -> quiet w1 w2 -> tasks w2 = tasks w1 -> edom_ok w2 -> prepared t w w2.
Proof. intros [] Hq Ht Hw2. split; rewrite ?Ht; try done. by eapply moves_quiet. Qed.

Lemma remote_ready_spec t w w2 :
  prepared t w w2 -> (forall c, pcpu (plugin w c) = c) ->
  wp (insert_task_in_remote_ready t) (fun _ w' => requeued t (get_partition (tasks w t)) w w') w2.
Proof.
  intros Hp Hcpu. unfold insert_task_in_remote_ready, get_task, get_pcpu. wp_steps.
  { rewrite (ms_plugin _ _ _ _ _ (pp_moves _ _ _ Hp)), Hcpu. by rewrite Z.eqb_refl. }
  rewrite (pp_task _ _ _ Hp).
  eapply wp_mono; [apply (prepared_ready _ t (get_partition (tasks w t)) w); [apply dummy_calm|done]|].
  intros ? w3 Hr. eapply wp_mono; [apply preempt_cpu_spec, Hr|]. intros _ w4 [Hq Hw4]. by eapply requeued_quiet; [exact Hr|..].
Qed.

Lemma release_remote_spec t w w2 :
  prepared t w w2 ->
  wp (edffm_add_release_remote t) (fun _ w' => requeued t (get_partition (tasks w t)) w w') w2.
Proof.
  intros Hp. unfold edffm_add_release_remote, get_task. wp_steps. rewrite (pp_task _ _ _ Hp).
  eapply wp_mono; [apply release_master_spec, Hp|]. intros _ w3 (Hq3 & Ht3 & Hw3). wp_steps.
  pose proof (prepared_quiet _ _ _ _ Hp Hq3 Ht3 Hw3) as Hp3.
  eapply wp_mono; [apply (prepared_release t (get_partition (tasks w t)) NO_CPU w w3 Hp3)|].
  intros ? w4 Hr. eapply wp_mono; [apply release_master_spec, Hr|]. intros _ w5 (Hq5 & _ & Hw5). by eapply requeued_quiet; [exact Hr|..].
Qed.

(** Whatever the processor of its next job, the task is queued there. *)
Lemma fm_requeue_spec t d w :
  edom_ok w -> pids_unique (tasks w) -> no_inheritance (tasks w) -> (forall c, pcpu (plugin w c) = c) ->
  clock_ok w -> queueable w t -> (wrong_cpu (tasks w t) = false -> get_partition (tasks w t) = d) ->
  wp (fm_requeue t d) (fun _ w' => requeued t (get_partition (tasks w t)) w w') w.
Proof.
  intros Hw Hu Hni Hcpu Hc Hq Hd. unfold fm_requeue. apply wp_bind.
  eapply wp_mono; [|intros ? w1 Hw1; apply wp_bind; exact Hw1].
  apply requeue_begin; [done..|]. intros now w2 Hp. unfold get_task. wp_steps. rewrite (pp_task _ _ _ Hp).
  change (wrong_cpu (set_rt_flags RT_F_RUNNING (tasks w t))) with (wrong_cpu (tasks w t)).
  destruct (is_released _ _), (wrong_cpu (tasks w t)).
  - by apply remote_ready_spec.
  - rewrite Hd by done. apply prepared_ready; [apply dummy_calm|done].
  - by apply release_remote_spec.
  - rewrite Hd by done. exact (prepared_release t d NO_CPU w w2 Hp).
Qed.

(** With the task that ran going back into the queues of its processor, or of
    the processor of its next job. *)
Lemma fm_switch_again_spec s me t w :
  part_inv s w -> s me = Some t -> clock_ok w -> queueable w t ->
  (wrong_cpu (tasks w t) = false -> get_partition (tasks w t) = me) ->
  wp (fm_switch me (Some t) true) (fun next w' =>
    part_inv (upd s me next) w' /\ best w' me next /\ plugin w' = plugin w /\
    (forall n, next = Some n -> get_partition (tasks w' n) = me) /\
    (forall y, core (tasks w' y) = core (if decide (y = t) then set_rt_flags RT_F_RUNNING (tasks w t) else tasks w y)) /\
    (forall y, tracked (upd s me next) w' y <-> tracked s w y)) w.
Proof.
  intros Hi Hme Hc Hq Hd. unfold fm_switch. wp_steps.
  eapply wp_mono; [apply fm_requeue_spec; try done; apply Hi|]. intros [] w1 (Hw1 & p & Hpd & M).
  by eapply switch_pick.
Qed.

(** ** The decision *)

(** Why [t] keeps its processor: no ready task has a higher EDF priority; or [t]
    is migratory and the ready task with the earliest deadline is not. *)
Definition fm_keeps w d t : Prop :=
  best w d (Some t) \/
  (is_migrat_task (tasks w t) = true /\
   exists h, h ∈ ready_elems w d /\ is_migrat_task (tasks w h) = false /\
     Forall (fun e => edf_ready_order (tasks w) e h = false) (ready_elems w d)).

Lemma fm_preemption_spec d t w :
  pids_unique (tasks w) -> edom_ok w -> (is_realtime (tasks w t) = true -> edf_ok (tasks w) t) ->
  wp (edffm_preemption_needed d (Some t)) (fun b w' => quiet w w' /\ edom_ok w' /\ tasks w' = tasks w /\
    (b = false -> fm_keeps w d t)) w.
Proof.
  intros Hu Hw Hok. pose proof (edf_swo (tasks w) 0 Hu) as Ho. unfold edffm_preemption_needed, get_task. wp_steps.
  apply jobs_pending_spec. case_bool_decide as He; simpl.
  2: { wp_steps. split_and!; [done..|]. intros _. left.
       unfold best. rewrite He. constructor. }
  wp_steps. destruct (is_realtime (tasks w t)) eqn:Er; simpl; [|by wp_steps]. wp_steps.
  eapply wp_mono; [exact (next_ready_spec edf_ready_order edf_ok d w Ho Hw)|].
  intros hn w1 (Hq1 & Hw1 & Ht1 & Hbest). wp_steps. split_and!; [done..|]. rewrite Ht1.
  destruct hn as [h|]; [|done]. destruct Hbest as [Hin Hbest].
  assert (edf_higher_prio (tasks w) (Some h) (Some t) = false -> best w d (Some t)) as Hedf.
  { intros E. apply Forall_forall. intros e He'. rewrite Forall_forall in Hbest.
    pose proof (pq_wf_D _ _ _ (qo_ready_wf _ _ _ Hw d)) as HD. rewrite Forall_forall in HD.
    apply (swo_neg_trans _ _ Ho e h t); [by apply HD|by apply HD|by apply Hok|by apply Hbest|done]. }
  unfold edffm_higher_prio. destruct (is_migrat_task (tasks w h)) eqn:Eh, (is_migrat_task (tasks w t)) eqn:Et; simpl.
  - intros E. left. auto.
  - done.
  - intros _. right. eauto.
  - intros E. left. auto.
Qed.

(** The job of a task can be completed. *)
Record fm_job_ok x : Prop := {
  fj_release : 0 <= get_release x < two63;
  fj_deadline : 0 <= get_deadline x;
  fj_period : 0 <= get_rt_period x;
  fj_next : get_deadline x + get_rt_period x < two63;
  fj_share : is_migrat_task x = true ->
    (fm_fraction (edffm_params_of x)).1.1 <> 0 /\ (fm_fraction (edffm_params_of x)).1.2 <> 0 }.

Definition fm_wants_completion x : bool :=
  ((budget_enforced x && budget_exhausted x) || (get_rt_flags x =? RT_F_SLEEP)) && is_running x.

(** The task after the decision whether its job is over. *)
Definition fm_after x : task_struct :=
  if fm_wants_completion x then default x (fm_job_completion x) else x.

(** What completing a job leaves alone. *)
Record fm_steady x y : Prop := {
  fs_pid : pid y = pid x; fs_inh : inh_task y = inh_task x; fs_rt : is_realtime y = is_realtime x;
  fs_heap : in_heap y = in_heap x; fs_state : is_running y = is_running x; fs_cpu : task_cpu y = task_cpu x;
  fs_migrat : is_migrat_task y = is_migrat_task x;
  fs_part : is_migrat_task x = false -> get_partition y = get_partition x }.

Lemma change_ok x :
  is_migrat_task x = true -> (fm_fraction (edffm_params_of x)).1.1 <> 0 -> (fm_fraction (edffm_params_of x)).1.2 <> 0 ->
  exists y, change_migrat_cpu_if_needed (update_job_counter x) = Some y /\ fm_steady x y /\ job_params y = job_params x /\
    get_rt_period y = get_rt_period x.
Proof.
  intros Hm Hs0 Hs1. set (u := update_job_counter x).
  assert (is_migrat_task u = true) as Hmu by done.
  assert (cur_cpu_fract_num u <> 0) as Hn by (unfold cur_cpu_fract_num; by destruct (on_first_cpu u)).
  unfold change_migrat_cpu_if_needed, next_cpu_for_job. rewrite Hmu, (proj2 (Z.eqb_neq _ 0)) by done. simpl.
  eexists. split; [done|]. destruct (negb _); (split; [|done]); split; done || (intros E; congruence).
Qed.

Lemma fm_completion_ok x :
  fm_job_ok x -> exists y, fm_job_completion x = Some y /\ fm_steady x y /\
    0 <= get_release y < two63 /\ 0 <= get_deadline y < two63.
Proof.
  intros [Hr Hd Hp Hdp Hsh].
  assert (exists y, (if is_migrat_task x then change_migrat_cpu_if_needed (update_job_counter x) else Some x) = Some y /\
    fm_steady x y /\ job_params y = job_params x /\ get_rt_period y = get_rt_period x) as (y & E & Hst & Ej & Ep).
  { destruct (is_migrat_task x) eqn:Em; [by apply change_ok; [|apply Hsh..]|]. by exists x. }
  unfold fm_job_completion. rewrite E. simpl. eexists. split; [done|]. split; [by destruct Hst|].
  assert (get_deadline (set_rt_flags RT_F_SLEEP y) = get_deadline x) as Ed by (unfold get_deadline; simpl; by rewrite Ej).
  change (get_rt_period y) with (get_rt_period (set_rt_flags RT_F_SLEEP y)) in Ep.
  destruct (next_job_window (set_rt_flags RT_F_SLEEP y)) as (Er & Edl & _); rewrite ?Ed, ?Ep; [done..|].
  rewrite Er, Edl, Ed, Ep. lia.
Qed.

Lemma fm_after_ok x :
  fm_job_ok x -> fm_steady x (fm_after x) /\ 0 <= get_release (fm_after x) < two63 /\
    0 <= get_deadline (fm_after x) < two63 /\
    (fm_wants_completion x = true -> fm_job_completion x = Some (fm_after x)).
Proof.
  intros Hj. unfold fm_after. destruct (fm_wants_completion x).
  - destruct (fm_completion_ok x Hj) as (y & E & Hs & Hr & Hd). rewrite E. done.
  - destruct Hj. split_and!; try done; lia.
Qed.

(** ** The schedule function *)

(** A running task is where Linux believes it is, and a fixed task is at home. *)
Record fm_inv w : Prop := {
  fi_pinv : pinv w;
  fi_home c t : sched_of w c = Some t -> task_cpu (tasks w t) = c /\
    (is_migrat_task (tasks w t) = false -> get_partition (tasks w t) = c) }.

(** What [edffm_schedule] establishes. *)
Record fm_scheduled w (next : option tid) w' : Prop := {
  fsd_inv : pinv w';
  fsd_next : sched_of w' (this_cpu w) = next;
  fsd_other c : c <> this_cpu w -> sched_of w' c = sched_of w c;
  (* the earliest deadline among the ready tasks, or the task that ran *)
  fsd_pick : best w' (this_cpu w) next \/
    exists t, next = Some t /\ sched_of w (this_cpu w) = Some t /\ fm_keeps w (this_cpu w) t;
  (* the next task belongs on this CPU *)
  fsd_home n : next = Some n -> get_partition (tasks w' n) = this_cpu w;
  (* no task is lost, unless it has blocked *)
  fsd_tracked u : tracked (sched_of w') w' u <->
    tracked (sched_of w) w u /\ ~ (sched_of w (this_cpu w) = Some u /\ is_running (tasks w u) = false);
  (* the job that ran is completed, with the processor of the next job chosen *)
  fsd_job t : sched_of w (this_cpu w) = Some t -> is_running (tasks w t) = true ->
    core (tasks w' t) = core (set_rt_flags RT_F_RUNNING (fm_after (tasks w t)))
}.

Lemma fm_core_run x y : core x = core y -> core (set_rt_flags RT_F_RUNNING x) = core (set_rt_flags RT_F_RUNNING y).
Proof. apply (core_congr (set_rt_flags RT_F_RUNNING)). core_tac. Qed.

(** From the decision to the end. *)
Lemma fm_finish w w2 next :
  let me := this_cpu w in
  part_inv (upd (sched_of w) me next) w2 -> plugin w2 = plugin w ->
  (best w2 me next \/ exists t, next = Some t /\ sched_of w me = Some t /\ fm_keeps w me t) ->
  (forall n, next = Some n -> get_partition (tasks w2 n) = me) ->
  (forall u, tracked (upd (sched_of w) me next) w2 u <->
     tracked (sched_of w) w u /\ ~ (sched_of w me = Some u /\ is_running (tasks w u) = false)) ->
  (forall t, sched_of w me = Some t -> is_running (tasks w t) = true ->
     core (if decide (next = Some t) then set_rt_flags RT_F_RUNNING (tasks w2 t) else tasks w2 t) =
     core (set_rt_flags RT_F_RUNNING (fm_after (tasks w t)))) ->
  wp (pedf_commit me next) (fm_scheduled w) w2.
Proof.
  intros me Hi2 Hp2 Hb2 Hn Ht2 Hj.
  eapply wp_mono; [apply (commit_finish (sched_of w)); [done|]|].
  { intros c _. unfold sched_of. by rewrite Hp2. }
  intros r w' (-> & Hi' & Hsc & Hb' & Hpt & Htr & Hcore & _). split; fold me.
  - done.
  - by rewrite Hsc, upd_eq.
  - intros c Hc. by rewrite Hsc, upd_ne.
  - destruct Hb2; [left; auto|by right].
  - intros n En. rewrite Hpt. by apply Hn.
  - intros u. by rewrite Htr, Ht2.
  - intros t Hs Hr. rewrite Hcore. by apply Hj.
Qed.

(** The task [prev] ran and is [fm_after] once it is decided whether its job is
    over. *)
Record fm_deciding w prev w2 : Prop := {
  fd_inv : fm_inv w;
  fd_sched : sched_of w (this_cpu w) = Some prev;
  fd_adj : adjusted (sched_of w) prev (fm_after (tasks w prev)) w w2;
  fd_job : fm_job_ok (tasks w prev) }.

Lemma fm_deciding_core w prev w2 : fm_deciding w prev w2 -> core (tasks w2 prev) = core (fm_after (tasks w prev)).
Proof.
  intros Hd. pose proof (ms_core _ _ _ _ _ (ad_moves _ _ _ _ _ (fd_adj _ _ _ Hd)) prev) as E.
  by rewrite decide_True in E.
Qed.

Lemma fm_deciding_tracked w prev w2 u :
  fm_deciding w prev w2 -> tracked (sched_of w) w2 u <-> tracked (sched_of w) w u.
Proof. intros [[Hi _] Hs A _]. by eapply tracked_adjusted. Qed.

Lemma fm_not_blocked w prev u :
  sched_of w (this_cpu w) = Some prev -> is_running (tasks w prev) = true ->
  ~ (sched_of w (this_cpu w) = Some u /\ is_running (tasks w u) = false).
Proof. intros Hs Hr [E Eu]. rewrite Hs in E. injection E as <-. congruence. Qed.

(** The task that ran goes back into the queues. *)
Lemma fm_again w w2 prev :
  let me := this_cpu w in
  fm_deciding w prev w2 -> is_running (tasks w prev) = true ->
  wp (next ← fm_switch me (Some prev) true; pedf_commit me next) (fm_scheduled w) w2.
Proof.
  intros me Hd Hr. pose proof (fm_deciding_core _ _ _ Hd) as E2. pose proof Hd as [[Hi Hhome] Hs [Hi2 M2 Hc2] Hj].
  destruct (fm_after_ok _ Hj) as (Hst & Hrel & Hdl & _). destruct (pi_sched _ _ Hi me prev Hs) as [_ Hrt].
  destruct (pi_sched _ _ Hi2 me prev Hs) as [Hh2 _]. destruct (Hhome me prev Hs) as [Hcpu Hpart]. wp_steps.
  eapply wp_mono; [eapply (fm_switch_again_spec (sched_of w) me prev); [exact Hi2|done|done| |]|].
  - split; [done|..]; [rewrite (core_field is_realtime _ _ (fun _ => eq_refl) E2), (fs_rt _ _ Hst)
      |rewrite (core_field get_deadline _ _ (fun _ => eq_refl) E2)
      |rewrite (core_field get_release _ _ (fun _ => eq_refl) E2)]; done.
  - rewrite (core_field wrong_cpu _ _ (fun _ => eq_refl) E2), (core_field get_partition _ _ (fun _ => eq_refl) E2).
    unfold wrong_cpu. rewrite (fs_migrat _ _ Hst), (fs_cpu _ _ Hst), Hcpu.
    destruct (is_migrat_task (tasks w prev)) eqn:Em; simpl.
    + intros Ep%negb_false_iff%Z.eqb_eq. done.
    + intros _. rewrite (fs_part _ _ Hst) by done. by apply Hpart.
  - intros next w3 (Hi3 & Hb3 & Hp3 & Hn3 & Hc3 & Ht3). apply fm_finish; try done.
    + by rewrite Hp3, (ms_plugin _ _ _ _ _ M2).
    + by left.
    + intros u. fold me. rewrite Ht3, (fm_deciding_tracked _ _ _ _ Hd). split; [|by intros [? _]].
      intros Ht. split; [done|]. by eapply fm_not_blocked.
    + intros t Ht _. unfold me in Ht. rewrite Hs in Ht. injection Ht as <-.
      pose proof (Hc3 prev) as E3. rewrite decide_True in E3 by done.
      assert (core (tasks w3 prev) = core (set_rt_flags RT_F_RUNNING (fm_after (tasks w prev)))) as E4.
      { rewrite E3. apply fm_core_run. by rewrite E2. }
      case_decide; [|done]. etransitivity; [by apply fm_core_run|done].
Qed.

(** [fm_switch] without the task that ran is [pedf_switch]. *)
Lemma fm_switch_leave me (t : option tid) : fm_switch (Q := Q) me t false = pedf_switch true me t false.
Proof. by destruct t. Qed.

(** The task that ran has blocked. *)
Lemma fm_block w w2 prev :
  let me := this_cpu w in
  fm_deciding w prev w2 -> is_running (tasks w prev) = false ->
  wp (next ← fm_switch me (Some prev) false; pedf_commit me next) (fm_scheduled w) w2.
Proof.
  intros me Hd Hr. pose proof Hd as [[Hi _] Hs [Hi2 M2 Hc2] _]. rewrite fm_switch_leave. wp_steps.
  eapply wp_mono; [eapply (switch_leave_spec true (sched_of w) me (Some prev)); [exact Hi2|done]|].
  intros next w3 (Hi3 & Hb3 & Hp3 & Hn3 & Hc3 & Ht3 & _). apply fm_finish; try done.
  - by rewrite Hp3, (ms_plugin _ _ _ _ _ M2).
  - by left.
  - intros u. fold me. rewrite Ht3, (fm_deciding_tracked _ _ _ _ Hd). unfold me. rewrite Hs. naive_solver.
  - intros t Ht Hrt. unfold me in Ht. rewrite Hs in Ht. injection Ht as <-. congruence.
Qed.

(** The task that ran continues. *)
Lemma fm_continue w w2 prev :
  let me := this_cpu w in
  fm_deciding w prev w2 -> is_running (tasks w prev) = true -> fm_wants_completion (tasks w prev) = false ->
  wrong_cpu (tasks w prev) = false -> fm_keeps w me prev ->
  wp (pedf_commit me (Some prev)) (fm_scheduled w) w2.
Proof.
  intros me Hd Hr Hnc Hwc Hk. pose proof (fm_deciding_core _ _ _ Hd) as E2.
  pose proof Hd as [[Hi Hhome] Hs [Hi2 M2 Hc2] _]. assert (fm_after (tasks w prev) = tasks w prev) as Ea by (unfold fm_after; by rewrite Hnc).
  fold me in Hs. rewrite Ea in E2. destruct (Hhome me prev Hs) as [Hcpu Hpart]. apply fm_finish; try done.
  - eapply part_inv_ext; [|exact Hi2]. intros c. unfold upd. case_decide; by subst.
  - apply M2.
  - right. eauto.
  - intros n [= <-]. rewrite (core_field get_partition _ _ (fun _ => eq_refl) E2).
    unfold wrong_cpu in Hwc. destruct (is_migrat_task (tasks w prev)); simpl in Hwc; [|by apply Hpart].
    apply negb_false_iff, Z.eqb_eq in Hwc. by rewrite <- Hwc.
  - intros u. fold me. assert (tracked (upd (sched_of w) me (Some prev)) w2 u <-> tracked (sched_of w) w2 u) as ->.
    { unfold tracked. apply or_iff_compat_l.
      split; intros [c Hcc]; exists c; revert Hcc; unfold upd; case_decide; subst; congruence. }
    rewrite (fm_deciding_tracked _ _ _ _ Hd). split; [|by intros [? _]].
    intros Ht. split; [done|]. by eapply fm_not_blocked.
  - intros t Ht _. fold me in Ht. rewrite Hs in Ht. injection Ht as <-. rewrite decide_True, Ea by done.
    by apply fm_core_run.
Qed.

(** Scheduling on an idle CPU. *)
Lemma fm_schedule_idle prev w :
  pinv w -> (is_realtime (tasks w prev) = true -> 0 <= get_deadline (tasks w prev) < two63) ->
  sched_of w (this_cpu w) = None -> wp (edffm_schedule prev) (fm_scheduled w) w.
Proof.
  intros Hi Hwin Hs. unfold edffm_schedule, get_scheduled, get_task. set (me := this_cpu w) in *.
  pose proof Hs as Hs0. unfold sched_of in Hs. wp_steps; fold me; rewrite ?Hs; try done.
  eapply wp_mono; [apply fm_preemption_spec; [apply Hi|apply Hi|]|].
  { intros Hr. apply edf_ok_intro; [apply Hi|done|by apply Hwin]. }
  intros preempt w1 (Hq1 & Hw1 & _ & _). wp_steps; [done|]. simpl. wp_steps. rewrite orb_true_r.
  change (fm_switch me None true) with (pedf_switch (Q := Q) true me None false).
  pose proof (part_inv_quiet _ _ _ Hi Hq1 Hw1) as Hi1.
  eapply wp_mono; [eapply (switch_leave_spec true (sched_of w) me None); [exact Hi1|done]|].
  intros next w2 (Hi2 & Hb2 & Hp2 & Hn2 & Hc2 & Ht2 & _). apply fm_finish; fold me; try done.
  - rewrite Hp2. apply Hq1.
  - by left.
  - intros u. rewrite Ht2, Hs0. unfold tracked.
    assert (forall p, at_place w1 u p <-> at_place w u p) as Hat by (intros p; apply Hq1). naive_solver.
  - by rewrite Hs0.
Qed.

(** Scheduling on a CPU that runs a task. *)
Lemma fm_schedule_busy prev w :
  fm_inv w -> clock_ok w -> sched_of w (this_cpu w) = Some prev -> fm_job_ok (tasks w prev) ->
  (is_running (tasks w prev) = false -> wrong_cpu (tasks w prev) = false) ->
  wp (edffm_schedule prev) (fm_scheduled w) w.
Proof.
  intros Hfi Hc Hs Hj Hnb. pose proof Hfi as [Hi Hhome]. unfold edffm_schedule, get_scheduled, get_task.
  set (me := this_cpu w) in *. destruct (pi_sched _ _ Hi me prev Hs) as [Hh Hr].
  destruct (fm_after_ok (tasks w prev) Hj) as (Hst & Hrel & Hdl & Hcomp).
  pose proof Hs as Hs0. unfold sched_of in Hs. wp_steps; fold me; rewrite ?Hs.
  { by apply bool_decide_false; intros []. }
  { by rewrite Hr. }
  eapply wp_mono; [apply fm_preemption_spec; [apply Hi|apply Hi|]|].
  { intros _. apply edf_ok_intro; [apply Hi|done|]. destruct Hj. lia. }
  intros preempt w1 (Hq1 & Hw1 & Ht1 & Hpre). wp_steps.
  { destruct (is_running (tasks w prev)); [done|]. by rewrite Hnb. }
  pose proof (part_inv_quiet _ _ _ Hi Hq1 Hw1) as Hi1.
  assert (clock_ok w1) as Hc1 by (eapply same_clock_ok; [split; apply Hq1|done]).
  pose proof (adjusted_refl (sched_of w) me prev w1 Hi1 Hs0 Hc1) as A1. rewrite negb_involutive.
  fold (fm_wants_completion (tasks w prev)).
  apply (wp_mono _ (fun _ w2 => fm_deciding w prev w2)).
  - apply (wp_mono _ (fun _ w2 => adjusted (sched_of w) prev (fm_after (tasks w prev)) w1 w2)).
    + apply wp_when. destruct (fm_wants_completion (tasks w prev)) eqn:Ew.
      * unfold upd_task_some, get_task. wp_steps. rewrite Ht1. exists (fm_after (tasks w prev)). split; [by apply Hcomp|].
        eapply (adjusted_upd _ me prev _ w1); [exact A1|done|..]; rewrite Ht1; apply Hst.
      * unfold fm_after. rewrite Ew, <- Ht1. exact A1.
    + intros _ w2 [Hi2 M2 Hc2]. split; [done|done| |done]. split; [done| |done].
      eapply (moves_trans prev); [apply quiet_moves; [|exact Hq1]; intros p; by eapply sched_nowhere|done].
  - intros _ w2 Hd. rewrite orb_false_r. destruct (is_running (tasks w prev)) eqn:Erun; simpl.
    + destruct (preempt || false || wrong_cpu (tasks w prev) || fm_wants_completion (tasks w prev)) eqn:Er.
      * by apply fm_again.
      * rewrite !orb_false_iff in Er. destruct Er as [[[-> _] Hwc] Hwant]. wp_steps. apply fm_continue; auto.
    + rewrite orb_true_r. simpl. by apply fm_block.
Qed.


(** Migratory tasks do not have priority in the ready queue, although the
    plugin's comment gives them a higher priority than fixed tasks and
    [edffm_higher_prio] compares that way: the queue is ordered by deadline
    alone.  On an idle CPU with a migratory task [m] and a fixed task [f] of
    earlier deadline ready, [edffm_schedule] does not pick [m]. *)
Theorem fm_migratory_waits prev w m f :
  pinv w -> (is_realtime (tasks w prev) = true -> 0 <= get_deadline (tasks w prev) < two63) ->
  sched_of w (this_cpu w) = None -> m ∈ ready_elems w (this_cpu w) -> f ∈ ready_elems w (this_cpu w) ->
  is_migrat_task (tasks w m) = true -> is_migrat_task (tasks w f) = false ->
  edf_ready_order (tasks w) f m = true ->
  edffm_higher_prio (tasks w) (Some m) (Some f) = true /\
  wp (edffm_schedule prev) (fun next w' => exists n, next = Some n /\ n <> m) w.
Proof.
  intros Hi Hwin Hs Hm Hf Em Ef Hfm. split; [unfold edffm_higher_prio; by rewrite Em, Ef|].
  unfold edffm_schedule, get_scheduled, get_task. set (me := this_cpu w) in *.
  unfold sched_of in Hs. wp_steps; fold me; rewrite ?Hs; try done.
  eapply wp_mono; [apply fm_preemption_spec; [apply Hi|apply Hi|]|].
  { intros Hr. apply edf_ok_intro; [apply Hi|done|by apply Hwin]. }
  intros preempt w1 (Hq1 & Hw1 & Ht1 & _). wp_steps; [done|]. simpl. wp_steps. rewrite orb_true_r.
  unfold fm_switch. wp_steps. eapply wp_mono; [apply edf_take_spec; [rewrite Ht1; apply Hi|done]|].
  apply (elem_ready_quiet w w1) in Hm, Hf; [|done..]. intros next w2 [_ Hn].
  destruct next as [n|].
  - destruct Hn as (_ & _ & Hbest). unfold pedf_commit, upd_task, set_scheduled. wp_steps. exists n. split; [done|].
    intros ->. rewrite Forall_forall in Hbest. specialize (Hbest f Hf). rewrite Ht1 in Hbest. congruence.
  - destruct Hn as [E _]. rewrite E in Hm. by apply not_elem_of_nil in Hm.
Qed.

End Sched.
