(* ===== verification/Sliced.v ===== *)
(** * Sliced jobs

    The code EDF-WM, C=D and HIME share (src/litmus2010/litmus/sched_edf_wm.c,
    sched_cd.c, sched_hime.c).  The job of a sliced task executes on several
    CPUs, one slice after the other; each slice has a CPU and a budget.  The
    three files differ in the parameters of a slice and in what they write into
    the job; those parts are the fields of [slice_plugin].

    Changes of one task are functions on its [task_struct] ([None]: the code
    stops at a [BUG_ON] or reads outside the slice array); the handlers lift
    them to the kernel state. *)

From stdpp Require Import sorting.
From S2P Require Import Prelude Task Edf PrioQueue Kernel RtDomain RtInv EdfDomain Partitioned.
Open Scope Z_scope.

Record slice_plugin : Type := mk_slice_plugin {
  sp_count : task_struct -> Z;                  (* task_params.semi_part.X.count *)
  sp_budget : task_struct -> Z -> option Z;     (* task_params.semi_part.X.slices[i].budget *)
  sp_slice : semi_part_t -> Z;                  (* semi_part.X.slice - slices *)
  sp_set_slice : Z -> semi_part_t -> semi_part_t;
  sp_exec_time : semi_part_t -> Z;              (* semi_part.X.exec_time *)
  sp_suspend_time : semi_part_t -> Z;           (* semi_part.X.suspend_time *)
  sp_set_suspend_time : Z -> semi_part_t -> semi_part_t;
  sp_job_deadline : semi_part_t -> Z;           (* semi_part.X.job_deadline *)
  sp_set_job_deadline : Z -> semi_part_t -> semi_part_t;
  sp_depleted : semi_part_t -> Z;               (* what advance_next_slice compares exec_time with *)
  sp_compute : task_struct -> option task_struct;  (* compute_slice_params *)
  sp_complete : task_struct -> task_struct;     (* complete_sliced_job and the rest of the job completion *)
  sp_task_new : task_struct -> task_struct      (* the parameters task_new initialises *)
}.

(** ** One task *)
Section Task.
Variable X : slice_plugin.
Implicit Types (t x : task_struct).

Definition is_sliced_task t : bool := negb (sp_count X t =? 0).
(** as an index *)
Definition get_last_slice t : Z := sp_count X t - 1.
Definition cur_slice t : Z := sp_slice X (semi_part t).
Definition slice_budget t : option Z := sp_budget X t (cur_slice t).

Definition slice_exec_time t : Z := u64 (get_exec_time t - sp_exec_time X (semi_part t)).
Definition slice_budget_exhausted t : option bool := b ← slice_budget t; Some (b <=? slice_exec_time t).
(** assumes positive remainder; overflows otherwise *)
Definition slice_budget_remaining t : option Z := b ← slice_budget t; Some (u64 (b - slice_exec_time t)).

(** [wm_budget_exhausted], ... *)
Definition sl_budget_exhausted t : option bool :=
  if is_sliced_task t then slice_budget_exhausted t else Some (budget_exhausted t).

Definition advance_next_slice (completion_signaled : bool) t : option task_struct :=
  if negb (is_sliced_task t) || in_heap t then None           (* BUG_ON *)
  else
    let idx := cur_slice t in
    let idx := if completion_signaled || (sp_depleted X (semi_part t) <=? get_exec_time t) then 0
               else (idx + 1) `mod` sp_count X t in
    (* point to next slice *)
    let t := on_semi (sp_set_slice X idx) t in
    (* Check if we need to update essential job parameters. *)
    let t := if idx =? 0 then sp_complete X t else t in
    (* Update job parameters for new slice. *)
    sp_compute X t.

(** [while (time_passed && time_passed >= slice_budget_remaining(t))]; at most
    one round per slice, because the last slice is a BUG *)
Fixpoint fast_forward_loop (fuel : nat) t (time_passed : Z) : option (task_struct * Z) :=
  match fuel with
  | O => None
  | S fuel =>
      if time_passed =? 0 then Some (t, time_passed) else
      rem ← slice_budget_remaining t;
      if time_passed <? rem then Some (t, time_passed)
      else
        (* slice completely exhausted *)
        let time_passed := time_passed - rem in
        let t := on_job (fun j => set_exec_time (u64 (exec_time j + rem)) j) t in
        ex ← slice_budget_exhausted t;
        rem' ← slice_budget_remaining t;
        if negb ex || negb (rem' =? 0) || (cur_slice t =? get_last_slice t) then None   (* BUG_ON *)
        else t ← advance_next_slice false t; fast_forward_loop fuel t time_passed
  end.

Definition fast_forward_slices (time_passed : Z) t : option task_struct :=
  if budget_remaining t <=? time_passed then None              (* BUG_ON *)
  else
    ex ← sl_budget_exhausted t;
    t ← (if (ex : bool) then advance_next_slice false t else Some t);
    '(t, rest) ← fast_forward_loop (S (Z.to_nat (sp_count X t))) t time_passed;
    (* add remainder to exec cost *)
    Some (on_job (fun j => set_exec_time (u64 (exec_time j + rest)) j) t).

Definition regular_job_completion t : task_struct := prepare_for_next_period (set_rt_flags RT_F_SLEEP t).

Definition job_or_slice_completion (completion_signaled : bool) t : option task_struct :=
  if is_sliced_task t then advance_next_slice completion_signaled t else Some (regular_job_completion t).

(** [wm_release_at], ... *)
Definition sl_release_at (start : Z) t : option task_struct :=
  if is_sliced_task t then
    (* simulate wrapping to the first slice *)
    let t := on_semi (sp_set_job_deadline X start) t in
    let t := on_semi (sp_set_slice X (get_last_slice t)) t in
    t ← advance_next_slice false t;
    Some (set_rt_flags RT_F_RUNNING t)
  else
    (* generic code handles it *)
    Some (release_at start t).

Definition earliest_release t (now : Z) : Z :=
  let deadline := if is_sliced_task t then sp_job_deadline X (semi_part t) else get_deadline t in
  if lt_before deadline now then now else deadline.

(** The part of [task_wake_up] that accounts for the time the task slept. *)
Definition account_sleep (now : Z) t : option task_struct :=
  let sleep_time := u64 (now - sp_suspend_time X (semi_part t)) in
  if get_exec_cost t <=? u64 (get_exec_time t + sleep_time) then
    (* first job is not really tardy in this sense *)
    if negb (job_no (job_params t) =? 2) && (get_exec_time t =? 0) then
      sl_release_at (earliest_release t now) t     (* new sporadic release *)
    else Some t
  else if is_sliced_task t then
    (* figure out which slice we should be executing on *)
    t ← fast_forward_slices sleep_time t;
    ex ← sl_budget_exhausted t;
    if (ex : bool) then None else Some t           (* BUG_ON *)
  else Some (on_job (fun j => set_exec_time (u64 (exec_time j + sleep_time)) j) t).

End Task.

(** ** The handlers *)
Section Handlers.
Context {Q : Type -> Type} `{PrioQueue Q}.
Variable X : slice_plugin.
Abbreviation world := (world Q pstate).
Abbreviation K := (M world).

Definition upd_task_opt (t : tid) (f : task_struct -> option task_struct) : K unit :=
  x ← get_task t; y ← of_option (f x); upd_task t (fun _ => y).

Definition sl_preempt : Z -> K unit := preempt_cpu false.
Definition sl_check_resched : Z -> K bool := pedf_check_resched false.
Definition sl_domain_init : Z -> K unit := pedf_domain_init.
Definition sl_requeue_local : tid -> Z -> K unit := pedf_requeue false.

(** After the lock of the old domain is dropped. *)
Definition sl_requeue_remote (t : tid) : K unit :=
  x ← get_task t;
  let d := get_partition x in
  upd_task t (set_rt_flags RT_F_RUNNING);;
  now ← litmus_clock;
  x ← get_task t;
  if is_released x now then add_ready edf_ready_order sl_check_resched d t
  else add_release_on edf_ready_order d t (get_partition x).

Definition sl_tick (t : tid) : K unit :=
  me ← gets this_cpu;
  s ← get_scheduled me;
  x ← get_task t;
  BUG_ON (is_realtime x && bool_decide (s <> Some t));;
  if is_realtime x && budget_enforced x then
    ex ← of_option (sl_budget_exhausted X x);
    when ex (set_tsk_need_resched t)
  else mret tt.

Definition sl_schedule (prev : tid) : K (option tid) :=
  me ← gets this_cpu;
  s ← get_scheduled me;
  xprev ← get_task prev;
  (* Sanity checking *)
  BUG_ON (match s with Some t => bool_decide (t <> prev) | None => false end);;
  BUG_ON (match s with Some _ => negb (is_realtime xprev) | None => false end);;
  (* (0) Determine state *)
  T ← gets tasks;
  dcpu ← get_pcpu me;
  let on_s (f : task_struct -> bool) := match s with Some t => f (T t) | None => false end in
  let exists_ := on_s (fun _ => true) in
  let wrong_cpu := on_s (fun x => negb (get_partition x =? dcpu)) in
  let blocks := on_s (fun x => negb (is_running x)) in
  out_of_time ← (match s with
                 | Some t => if budget_enforced (T t) then of_option (sl_budget_exhausted X (T t)) else mret false
                 | None => mret false
                 end);
  let sleep := on_s (fun x => get_rt_flags x =? RT_F_SLEEP) in
  preempt ← edf_preemption_needed me (Some prev);
  (* Any task that is preemptable and either exhausts its execution budget or
     wants to sleep completes. *)
  let completes := (out_of_time || sleep) && negb blocks in
  when completes
    (match s with Some t => upd_task_opt t (job_or_slice_completion X sleep) | None => mret tt end);;
  let resched := preempt || blocks || wrong_cpu || completes in
  (* The final scheduling decision. *)
  T ← gets tasks;
  let local := match s with Some t => get_partition (T t) =? dcpu | None => true end in
  let migrate := (resched || negb exists_) && negb blocks && negb local in
  next ← (if resched || negb exists_ then pedf_switch false me s (negb blocks && local)
          else mret (if exists_ then Some prev else None));
  next ← pedf_commit me next;
  (* check if we need to push the previous task onto another queue *)
  when migrate (match s with Some t => sl_requeue_remote t | None => mret tt end);;
  mret next.

(** Prepare a task for running in RT mode *)
Definition sl_task_new (t : tid) (on_rq running : bool) : K unit :=
  x ← get_task t;
  let d := get_partition x in
  now ← litmus_clock;
  upd_task t (release_at now);;
  x ← get_task t;
  when (is_sliced_task X x) (upd_task t (sp_task_new X));;
  if running then
    s ← get_scheduled d;
    BUG_ON (bool_decide (s <> None));;
    set_scheduled d (Some t)
  else
    sl_requeue_local t d;;
    sl_preempt d.

Definition sl_task_wake_up (t : tid) : K unit :=
  x ← get_task t;
  let d := get_partition x in
  BUG_ON (in_heap x);;
  now ← litmus_clock;
  upd_task_opt t (account_sleep X now);;
  s ← get_scheduled d;
  dcpu ← get_pcpu d;
  x ← get_task t;
  if bool_decide (s <> Some t) then
    if get_partition x =? dcpu then sl_requeue_local t d
    else sl_requeue_remote t           (* after unlocking *)
  else mret tt.

Definition sl_task_block (t : tid) : K unit :=
  x ← get_task t;
  let d := get_partition x in
  now ← litmus_clock;
  upd_task t (on_semi (sp_set_suspend_time X now));;
  x ← get_task t;
  when (in_heap x) (remove edf_ready_order d t);;
  x ← get_task t;
  BUG_ON (negb (is_realtime x)).

Definition sl_task_exit (t : tid) : K unit :=
  x ← get_task t;
  let d := get_partition x in
  when (in_heap x) (remove edf_ready_order d t);;
  s ← get_scheduled d;
  when (bool_decide (s = Some t)) (set_scheduled d None);;
  sl_preempt d.

End Handlers.
