(* ===== verification/SliceInv.v ===== *)
(** * The life of a sliced job

    What EDF-WM, C=D and HIME have to provide for the code of Sliced.v
    ([SliceLaws]), the invariant of a sliced job, and what advancing to the next
    slice, releasing a job and accounting for suspensions do to it. *)

From S2P Require Import Prelude Task Edf Kernel Sliced.
Open Scope Z_scope.

(** What no operation on a sliced job changes. *)
Record kept (X : slice_plugin) (slice_cpu : task_struct -> Z -> option Z) (x y : task_struct) : Prop := {
  kp_count : sp_count X y = sp_count X x;
  kp_budget i : sp_budget X y i = sp_budget X x i;
  kp_cpu i : slice_cpu y i = slice_cpu x i;
  kp_period : get_rt_period y = get_rt_period x;
  kp_policy : budget_policy (task_params y) = budget_policy (task_params x);
  kp_pid : pid y = pid x;
  kp_inh : inh_task y = inh_task x;
  kp_rt : is_realtime y = is_realtime x;
  kp_heap : in_heap y = in_heap x;
  kp_state : is_running y = is_running x
}.

(** What a plugin promises to the code of Sliced.v.  [slice_cpu x i] is the CPU
    of slice [i], [job_cost] the cached budget of the whole job, [job_start] the
    release of the whole job. *)
Class SliceLaws (X : slice_plugin) : Type := {
  slice_cpu : task_struct -> Z -> option Z;
  job_cost : semi_part_t -> Z;
  job_start : task_struct -> Z;

  sl_set_slice x i :
    let y := on_semi (sp_set_slice X i) x in
    kept X slice_cpu x y /\ cur_slice X y = i /\ job_cost (semi_part y) = job_cost (semi_part x) /\
    sp_exec_time X (semi_part y) = sp_exec_time X (semi_part x) /\
    sp_job_deadline X (semi_part y) = sp_job_deadline X (semi_part x) /\ job_start y = job_start x;
  sl_set_deadline x v :
    let y := on_semi (sp_set_job_deadline X v) x in
    kept X slice_cpu x y /\ job_cost (semi_part y) = job_cost (semi_part x) /\
    sp_job_deadline X (semi_part y) = v;
  sl_compute x b c :
    sp_budget X x (cur_slice X x) = Some b -> slice_cpu x (cur_slice X x) = Some c ->
    exists y, sp_compute X x = Some y /\ kept X slice_cpu x y /\ cur_slice X y = cur_slice X x /\
      get_exec_cost y = u64 (get_exec_cost x + b) /\ get_partition y = c /\
      get_exec_time y = get_exec_time x /\ sp_exec_time X (semi_part y) = get_exec_time x /\
      job_cost (semi_part y) = job_cost (semi_part x) /\
      sp_job_deadline X (semi_part y) = sp_job_deadline X (semi_part x) /\
      sp_depleted X (semi_part y) = sp_depleted X (semi_part x) /\ job_start y = job_start x /\
      flags y = flags x;
  sl_complete x :
    let y := sp_complete X x in
    kept X slice_cpu x y /\ cur_slice X y = cur_slice X x /\ get_exec_cost y = 0 /\ get_exec_time y = 0 /\
    job_cost (semi_part y) = job_cost (semi_part x) /\
    sp_job_deadline X (semi_part y) = u64 (sp_job_deadline X (semi_part x) + get_rt_period x) /\
    job_start y = sp_job_deadline X (semi_part x);
  sl_depleted_slice x i :
    sp_depleted X (semi_part (on_semi (sp_set_slice X i) x)) = sp_depleted X (semi_part x);
  (* execution time and flags change none of the above *)
  sl_exec x v :
    let y := on_job (set_exec_time v) x in
    kept X slice_cpu x y /\ job_start y = job_start x;
  sl_flags x v :
    let y := set_rt_flags v x in
    kept X slice_cpu x y /\ job_start y = job_start x
}.

Section Inv.
Context (X : slice_plugin) {L : SliceLaws X}.
Implicit Types (x y : task_struct) (i c : Z).
Abbreviation same := (kept X slice_cpu).

(** The budget of the first [n] slices. *)
Definition cum x (n : Z) : Z :=
  sum_Z ((fun k => default 0 (sp_budget X x (Z.of_nat k))) <$> seq 0 (Z.to_nat n)).
Definition total x : Z := cum x (sp_count X x).

(** The parameters of a sliced task. *)
Record well_sliced x : Prop := {
  ws_count : 2 <= sp_count X x;
  ws_budget i : 0 <= i < sp_count X x -> exists b, sp_budget X x i = Some b /\ 0 < b;
  ws_cpu i : 0 <= i < sp_count X x -> exists c, slice_cpu x i = Some c;
  ws_total : total x < two63;
  ws_cost : job_cost (semi_part x) = total x
}.

(** The job executes slice [cur_slice], on its CPU; [exec_cost] is [c] more than
    the budget of the slices so far ([c = 0] but for the first job). *)
Record slice_inv c x : Prop := {
  si_ws : well_sliced x;
  si_cur : 0 <= cur_slice X x < sp_count X x;
  si_cost : get_exec_cost x = c + cum x (cur_slice X x + 1);
  si_cpu : slice_cpu x (cur_slice X x) = Some (get_partition x);
  (* the slice started after the slices before it were used up *)
  si_ref : cum x (cur_slice X x) <= sp_exec_time X (semi_part x) <= get_exec_time x;
  si_exec : get_exec_time x < two63
}.

Lemma cum_0 x : cum x 0 = 0.
Proof. done. Qed.

Lemma cum_S x n b : 0 <= n -> sp_budget X x n = Some b -> cum x (n + 1) = cum x n + b.
Proof.
  intros Hn Hb. unfold cum. rewrite Z2Nat.inj_add, Nat.add_1_r, seq_S, fmap_app, sum_Z_app by lia. simpl.
  change (sum_Z [?v]) with (v + 0). rewrite Z2Nat.id, Hb by lia. simpl. lia.
Qed.

(** The budgets as the array lists them. *)
Lemma cum_list {A} (f : A -> Z) (l : list A) x n :
  (forall k : nat, sp_budget X x (Z.of_nat k) = f <$> l !! k) -> cum x n = sum_Z (f <$> take (Z.to_nat n) l).
Proof.
  intros Hf. unfold cum. induction (Z.to_nat n) as [|k IH]; [done|].
  rewrite seq_S, fmap_app, sum_Z_app, IH. simpl. rewrite Hf. change (sum_Z [?v]) with (v + 0).
  destruct (l !! k) as [a|] eqn:E.
  - rewrite (take_S_r l k a E), fmap_app, sum_Z_app. done.
  - apply lookup_ge_None in E. rewrite !take_ge by lia. simpl. lia.
Qed.

Lemma cum_kept x y n : same x y -> cum y n = cum x n.
Proof. intros K. unfold cum. f_equal. apply list_fmap_ext. intros k i _. by rewrite (kp_budget _ _ _ _ K). Qed.

Lemma cum_mono x n m : well_sliced x -> 0 <= n <= m -> m <= sp_count X x -> cum x n <= cum x m.
Proof.
  intros W Hn Hm. remember (Z.to_nat (m - n)) as k eqn:Ek. revert m Hn Hm Ek.
  induction k as [|k IH]; intros m Hn Hm Ek.
  - assert (m = n) as -> by lia. done.
  - destruct (ws_budget _ W (m - 1)) as (b & Hb & Hb0); [lia|].
    assert (cum x m = cum x (m - 1) + b) as ->.
    { rewrite <- (cum_S x (m - 1) b) by (done || lia). f_equal. lia. }
    specialize (IH (m - 1) ltac:(lia) ltac:(lia) ltac:(lia)). lia.
Qed.

Lemma cum_nonneg x n : well_sliced x -> 0 <= n <= sp_count X x -> 0 <= cum x n.
Proof. intros W Hn. rewrite <- (cum_0 x). apply cum_mono; [done|lia|lia]. Qed.

Lemma well_sliced_kept x y :
  same x y -> job_cost (semi_part y) = job_cost (semi_part x) -> well_sliced x -> well_sliced y.
Proof.
  intros K E [W1 W2 W3 W4 W5].
  assert (total y = total x) as Et by (unfold total; by rewrite (kp_count _ _ _ _ K), (cum_kept x y)).
  split.
  - by rewrite (kp_count _ _ _ _ K).
  - intros i. rewrite (kp_count _ _ _ _ K), (kp_budget _ _ _ _ K). apply W2.
  - intros i. rewrite (kp_count _ _ _ _ K), (kp_cpu _ _ _ _ K). apply W3.
  - by rewrite Et.
  - by rewrite E, Et.
Qed.

Lemma kept_refl x : same x x.
Proof. done. Qed.

Lemma kept_trans x y z : same x y -> same y z -> same x z.
Proof. intros [] []. split; try intros i; congruence. Qed.

Lemma sliced_count x : well_sliced x -> is_sliced_task X x = true.
Proof. intros []. unfold is_sliced_task. destruct (Z.eqb_spec (sp_count X x) 0); [lia|done]. Qed.

(** ** The current slice *)
Lemma slice_budget_val c x :
  slice_inv c x -> exists b, slice_budget X x = Some b /\ 0 < b /\ cum x (cur_slice X x + 1) = cum x (cur_slice X x) + b.
Proof.
  intros [W Hc _ _ _ _]. destruct (ws_budget _ W _ Hc) as (b & Hb & Hb0). exists b.
  split_and!; [done|done|]. apply cum_S; [lia|done].
Qed.

Lemma cum_total c x : slice_inv c x -> 0 <= cum x (cur_slice X x) /\ cum x (cur_slice X x + 1) <= total x < two63.
Proof.
  intros [W Hc _ _ _ _]. split; [apply cum_nonneg; [done|lia]|]. split; [|apply W].
  apply cum_mono; [done|lia|lia].
Qed.

Lemma slice_exec_val c x :
  slice_inv c x -> slice_exec_time X x = get_exec_time x - sp_exec_time X (semi_part x).
Proof.
  intros Hi. pose proof (cum_total c x Hi). destruct Hi as [_ _ _ _ Hr He].
  unfold slice_exec_time. apply u64_id. unfold is_u64, two63, two64 in *. lia.
Qed.

(** The invariant is about the slice, not about how far it got. *)
Lemma slice_inv_later c x y :
  slice_inv c x -> same x y -> semi_part y = semi_part x -> get_exec_cost y = get_exec_cost x ->
  get_partition y = get_partition x -> get_exec_time x <= get_exec_time y < two63 -> slice_inv c y.
Proof.
  intros [W Hc Hcost Hcpu Hr He] K Es Ec Ep Ht.
  assert (cur_slice X y = cur_slice X x) as Ecur by (unfold cur_slice; by rewrite Es).
  split; rewrite ?Ecur, ?Es, ?(cum_kept _ _ _ K), ?(kp_cpu _ _ _ _ K), ?(kp_count _ _ _ _ K), ?Ec, ?Ep; try done; try lia.
  eapply well_sliced_kept; [exact K|by rewrite Es|done].
Qed.

(** ** Advancing *)

(** From the new slice on. *)
Lemma compute_inv c x i :
  well_sliced x -> 0 <= i < sp_count X x -> get_exec_cost x = c + cum x i -> 0 <= c -> c + total x < two64 ->
  cur_slice X x = i -> cum x i <= get_exec_time x < two63 ->
  exists y, sp_compute X x = Some y /\ same x y /\ slice_inv c y /\ cur_slice X y = i /\
    get_exec_time y = get_exec_time x /\ sp_exec_time X (semi_part y) = get_exec_time x /\
    job_cost (semi_part y) = job_cost (semi_part x) /\
    sp_job_deadline X (semi_part y) = sp_job_deadline X (semi_part x) /\
    sp_depleted X (semi_part y) = sp_depleted X (semi_part x) /\ job_start y = job_start x.
Proof.
  intros W Hi Hcost Hc Hct Hcur Hex. destruct (ws_budget _ W i Hi) as (b & Hb & Hb0). destruct (ws_cpu _ W i Hi) as (cc & Hcc).
  destruct (sl_compute x b cc) as (y & Hy & K & H1 & H2 & H3 & H4 & H5 & H6 & H7 & H8 & H9 & _);
    [by rewrite Hcur|by rewrite Hcur|].
  rewrite Hcur in H1. exists y. split_and!; try done. pose proof (cum_S x i b ltac:(lia) Hb) as Ec.
  assert (cum x (i + 1) <= total x) by (apply cum_mono; [done|lia|lia]).
  pose proof (cum_nonneg x i W ltac:(lia)).
  split; rewrite ?H1, ?(kp_count _ _ _ _ K), ?(cum_kept x y), ?H4, ?H5, ?H3, ?(kp_cpu _ _ _ _ K) by done; try done.
  - by eapply well_sliced_kept.
  - rewrite H2, Hcost, Ec, u64_id; [lia|]. unfold is_u64. lia.
  - lia.
  - lia.
Qed.

(** The job is over: the task says so, its budget is used up, or this is the
    last slice. *)
Definition job_over (sig : bool) x : bool :=
  sig || (sp_depleted X (semi_part x) <=? get_exec_time x) || (cur_slice X x =? get_last_slice X x).

Definition slice_used x : Prop := slice_budget_exhausted X x = Some true.

Lemma next_index sig x :
  well_sliced x -> 0 <= cur_slice X x < sp_count X x ->
  (if sig || (sp_depleted X (semi_part x) <=? get_exec_time x) then 0 else (cur_slice X x + 1) `mod` sp_count X x)
  = if job_over sig x then 0 else cur_slice X x + 1.
Proof.
  intros W Hc. unfold job_over, get_last_slice. destruct (sig || _); [done|]. simpl.
  destruct (Z.eqb_spec (cur_slice X x) (sp_count X x - 1)) as [->|Hne].
  - replace (sp_count X x - 1 + 1) with (sp_count X x) by lia. apply Z_mod_same_full.
  - apply Z.mod_small. lia.
Qed.

(** The job ends: the next one starts with the first slice. *)
Lemma advance_over sig x :
  well_sliced x -> 0 <= cur_slice X x < sp_count X x -> in_heap x = false -> job_over sig x = true ->
  exists y, advance_next_slice X sig x = Some y /\ same x y /\ slice_inv 0 y /\ cur_slice X y = 0 /\
    get_exec_time y = 0 /\ job_start y = sp_job_deadline X (semi_part x) /\
    sp_job_deadline X (semi_part y) = u64 (sp_job_deadline X (semi_part x) + get_rt_period x).
Proof.
  intros W Hc Hh Ho. unfold advance_next_slice. rewrite (sliced_count x W), Hh. simpl.
  rewrite (next_index sig x W Hc), Ho, Z.eqb_refl.
  destruct (sl_set_slice x 0) as (K1 & C1 & J1 & _ & D1 & _). set (x1 := on_semi _ x) in *.
  destruct (sl_complete x1) as (K2 & C2 & E2 & T2 & J2 & D2 & S2). set (x2 := sp_complete X x1) in *.
  assert (same x x2) as K by (by eapply kept_trans).
  assert (well_sliced x2) as W2 by (eapply (well_sliced_kept x); [done|congruence|done]).
  assert (cur_slice X x2 = 0) as Ec by congruence. pose proof (ws_total _ W2). pose proof (ws_count _ W2).
  destruct (compute_inv 0 x2 0) as (y & Hy & K3 & Hi & H1 & H2 & H3 & _ & H5 & _ & H7);
    [done|lia|by rewrite E2, cum_0|done|unfold two63, two64 in *; lia|done|rewrite cum_0, T2; done|].
  exists y. split_and!; [done|by eapply kept_trans|done|done|congruence| |].
  - by rewrite H7, S2, D1.
  - by rewrite H5, D2, D1, (kp_period _ _ _ _ K1).
Qed.

(** The job goes on with the next slice. *)
Lemma advance_next c x :
  slice_inv c x -> 0 <= c -> c + total x < two64 -> in_heap x = false -> job_over false x = false -> slice_used x ->
  exists y, advance_next_slice X false x = Some y /\ same x y /\ slice_inv c y /\ cur_slice X y = cur_slice X x + 1 /\
    get_exec_time y = get_exec_time x /\ sp_exec_time X (semi_part y) = get_exec_time x /\
    job_start y = job_start x /\ sp_job_deadline X (semi_part y) = sp_job_deadline X (semi_part x) /\
    sp_depleted X (semi_part y) = sp_depleted X (semi_part x).
Proof.
  intros Hi Hc0 Hct Hh Ho Hu. pose proof (slice_exec_val c x Hi) as Hse. pose proof (cum_total c x Hi).
  destruct (slice_budget_val c x Hi) as (b & Hb & Hb0 & Ecum). destruct Hi as [W Hc Hcost Hcpu Hr He].
  unfold slice_used, slice_budget_exhausted in Hu. rewrite Hb in Hu. simpl in Hu.
  injection Hu as Hu%Z.leb_le. rewrite Hse in Hu.
  unfold advance_next_slice. rewrite (sliced_count x W), Hh. simpl.
  pose proof (next_index false x W Hc) as En. simpl in En. rewrite En, Ho.
  assert (cur_slice X x + 1 < sp_count X x) as Hlt.
  { unfold job_over, get_last_slice in Ho. apply orb_false_iff in Ho as [_ Ho%Z.eqb_neq]. lia. }
  destruct (Z.eqb_spec (cur_slice X x + 1) 0); [lia|].
  destruct (sl_set_slice x (cur_slice X x + 1)) as (K1 & C1 & J1 & _ & D1 & S1). set (x1 := on_semi _ x) in *.
  assert (well_sliced x1) as W1 by (by eapply (well_sliced_kept x)).
  assert (total x1 = total x) as Et by (unfold total; by rewrite (kp_count _ _ _ _ K1), (cum_kept x x1)).
  destruct (compute_inv c x1 (cur_slice X x + 1)) as (y & Hy & K3 & Hiy & H1 & H2 & H3 & _ & H5 & H6 & H7).
  all: rewrite ?Et, ?(cum_kept x x1), ?(kp_count _ _ _ _ K1) by done; try done; try lia.
  - change (get_exec_time x1) with (get_exec_time x). lia.
  - exists y. split_and!; try done; [by eapply kept_trans|congruence|congruence|].
    rewrite H6. apply sl_depleted_slice.
Qed.

(** C31: Advancing a sliced job whose current slice is used up, or that signals
    its completion.  If the job is over, the next job starts with the first
    slice, on that slice's CPU, with no execution time, at the deadline of the
    old job; otherwise the job goes on with the next slice, on that slice's CPU,
    and keeps its execution time.  The invariant is kept. *)
Theorem advance_correct c sig x :
  slice_inv c x -> 0 <= c -> c + total x < two64 -> in_heap x = false -> sig = true \/ slice_used x ->
  exists y, advance_next_slice X sig x = Some y /\ same x y /\
    if job_over sig x then
      slice_inv 0 y /\ cur_slice X y = 0 /\ get_exec_time y = 0 /\
      job_start y = sp_job_deadline X (semi_part x) /\
      sp_job_deadline X (semi_part y) = u64 (sp_job_deadline X (semi_part x) + get_rt_period x)
    else
      slice_inv c y /\ cur_slice X y = cur_slice X x + 1 /\ get_exec_time y = get_exec_time x /\
      job_start y = job_start x /\ sp_job_deadline X (semi_part y) = sp_job_deadline X (semi_part x).
Proof.
  intros Hi Hc Hct Hh Hs. destruct (job_over sig x) eqn:Eo.
  - destruct (advance_over sig x) as (y & Hy & K & ? & ? & ? & ? & ?); [apply Hi..|done|done|]. by exists y.
  - destruct sig; [done|]. destruct Hs as [?|Hu]; [done|].
    destruct (advance_next c x) as (y & Hy & K & ? & ? & ? & _ & ? & ? & _); [done..|]. by exists y.
Qed.

(** Releasing a sliced task at [start] (for its first job, from user space, or
    after a long suspension) starts a job with the first slice, on that slice's
    CPU; the deadline of the job is one period later. *)
Theorem sl_release_at_correct start x :
  well_sliced x -> in_heap x = false ->
  exists y, sl_release_at X start x = Some y /\ slice_inv 0 y /\ cur_slice X y = 0 /\ get_exec_time y = 0 /\
    job_start y = start /\ sp_job_deadline X (semi_part y) = u64 (start + get_rt_period x) /\
    get_rt_flags y = RT_F_RUNNING.
Proof.
  intros W Hh. unfold sl_release_at. rewrite (sliced_count x W).
  destruct (sl_set_deadline x start) as (K1 & J1 & D1). set (x1 := on_semi _ x) in *.
  destruct (sl_set_slice x1 (get_last_slice X x1)) as (K2 & C2 & J2 & _ & D2 & S2). set (x2 := on_semi _ x1) in *.
  assert (same x x2) as K by (by eapply kept_trans).
  assert (well_sliced x2) as W2 by (eapply (well_sliced_kept x); [done|congruence|done]).
  assert (cur_slice X x2 = get_last_slice X x2) as Ec by (rewrite C2; unfold get_last_slice; by rewrite (kp_count _ _ _ _ K2)).
  pose proof (ws_count _ W2).
  destruct (advance_over false x2) as (y & Hy & K3 & Hi & H1 & H2 & H3 & H4).
  - done.
  - rewrite Ec. unfold get_last_slice. lia.
  - by rewrite (kp_heap _ _ _ _ K).
  - unfold job_over. by rewrite Ec, Z.eqb_refl, orb_true_r.
  - exists (set_rt_flags RT_F_RUNNING y). rewrite Hy. simpl.
    destruct (sl_flags y RT_F_RUNNING) as [K4 S4]. split_and!; try done.
    + eapply slice_inv_later; [exact Hi|exact K4|done..|]. split; [done|]. apply Hi.
    + by rewrite S4, H3, D2, D1.
    + change (semi_part (set_rt_flags RT_F_RUNNING y)) with (semi_part y).
      by rewrite H4, D2, D1, (kp_period _ _ _ _ K).
Qed.

(** ** Suspensions *)

Lemma slice_remaining_val c x :
  slice_inv c x -> get_exec_time x < sp_exec_time X (semi_part x) + (cum x (cur_slice X x + 1) - cum x (cur_slice X x)) ->
  slice_budget_exhausted X x = Some false /\
  slice_budget_remaining X x = Some (sp_exec_time X (semi_part x) + (cum x (cur_slice X x + 1) - cum x (cur_slice X x)) - get_exec_time x).
Proof.
  intros Hi Hlt. pose proof (slice_exec_val c x Hi) as Hse. pose proof (cum_total c x Hi).
  destruct (slice_budget_val c x Hi) as (b & Hb & Hb0 & Ecum). destruct Hi as [W Hc Hcost Hcpu Hr He].
  unfold slice_budget_exhausted, slice_budget_remaining. rewrite Hb, Hse, Ecum in *. simpl. split.
  - f_equal. apply Z.leb_gt. lia.
  - f_equal. rewrite u64_id; [lia|]. unfold is_u64, two63, two64 in *. lia.
Qed.

Lemma budget_remaining_val x :
  0 <= get_exec_time x < get_exec_cost x -> get_exec_cost x < two64 ->
  budget_remaining x = get_exec_cost x - get_exec_time x.
Proof.
  intros H1 H2. unfold budget_remaining, budget_exhausted. destruct (Z.leb_spec (get_exec_cost x) (get_exec_time x)); [lia|].
  simpl. apply u64_id. unfold is_u64. lia.
Qed.

(** In every job but the first, [fast_forward_slices] never leaves the current
    slice: its assertion bounds the time that passed by the rest of the job's
    [exec_cost], which is the budget of the slices up to the current one, so all
    it does is to add the time to the execution time. *)
Theorem fast_forward_stays x time_passed :
  slice_inv 0 x -> 0 <= time_passed < budget_remaining x ->
  fast_forward_slices X time_passed x =
    Some (on_job (fun j => set_exec_time (u64 (exec_time j + time_passed)) j) x).
Proof.
  intros Hi Ht. pose proof (cum_total 0 x Hi). pose proof (si_ref _ _ Hi). pose proof (si_cost _ _ Hi) as Hcost.
  assert (get_exec_time x < get_exec_cost x) as Hlt.
  { unfold budget_remaining, budget_exhausted in Ht. destruct (Z.leb_spec (get_exec_cost x) (get_exec_time x)); simpl in *; lia. }
  rewrite budget_remaining_val in Ht by (unfold two63, two64 in *; lia).
  destruct (slice_remaining_val 0 x Hi) as [He Hr]; [lia|].
  unfold fast_forward_slices. rewrite budget_remaining_val by (unfold two63, two64 in *; lia).
  destruct (Z.leb_spec (get_exec_cost x - get_exec_time x) time_passed); [lia|].
  unfold sl_budget_exhausted. rewrite (sliced_count x (si_ws _ _ Hi)), He. simpl. rewrite Hr. simpl.
  destruct (Z.eqb_spec time_passed 0) as [->|]; [done|].
  match goal with |- context [time_passed <? ?r] => destruct (Z.ltb_spec time_passed r); [done|lia] end.
Qed.

(** In every job but the first, a suspension that outlasts the current slice
    is not accounted for at all: the job neither moves on to the slice it should
    be executing nor has its execution time increased. *)
Theorem long_sleep_ignored x now :
  slice_inv 0 x -> is_u64 (now - sp_suspend_time X (semi_part x)) ->
  cum x (cur_slice X x + 1) <= get_exec_time x + (now - sp_suspend_time X (semi_part x)) < two64 ->
  0 < get_exec_time x -> account_sleep X now x = Some x.
Proof.
  intros Hi Hu Hlong Hpos. unfold account_sleep. rewrite (u64_id _ Hu), u64_id by (unfold is_u64 in *; lia).
  rewrite (si_cost _ _ Hi). destruct (Z.leb_spec (0 + cum x (cur_slice X x + 1)) (get_exec_time x + (now - sp_suspend_time X (semi_part x)))); [|lia].
  destruct (Z.eqb_spec (get_exec_time x) 0); [lia|]. by rewrite andb_false_r.
Qed.

(** The job got every slice in time: the current one started when the budget of
    the ones before it was used up, and is not used up. *)
Definition on_time x : Prop :=
  sp_exec_time X (semi_part x) = cum x (cur_slice X x) /\ get_exec_time x < cum x (cur_slice X x + 1).

(** One round of the loop: the rest of the slice is accounted for. *)
Lemma fast_forward_round c x :
  slice_inv c x -> 0 <= c -> c + total x < two64 -> in_heap x = false -> on_time x ->
  cum x (cur_slice X x + 1) < total x -> cum x (cur_slice X x + 1) < sp_depleted X (semi_part x) ->
  let x1 := on_job (set_exec_time (cum x (cur_slice X x + 1))) x in
  slice_budget_exhausted X x1 = Some true /\ slice_budget_remaining X x1 = Some 0 /\
  cur_slice X x1 <> get_last_slice X x1 /\
  exists y, advance_next_slice X false x1 = Some y /\ same x y /\ slice_inv c y /\ on_time y /\
    cur_slice X y = cur_slice X x + 1 /\ get_exec_time y = cum x (cur_slice X x + 1) /\
    sp_depleted X (semi_part y) = sp_depleted X (semi_part x).
Proof.
  intros Hi Hc0 Hct Hh [Hot Hlt] Htot Hdep x1. pose proof (cum_total c x Hi). pose proof (si_cur _ _ Hi) as Hcur.
  destruct (sl_exec x (cum x (cur_slice X x + 1))) as [K1 _]. fold x1 in K1.
  assert (slice_inv c x1) as Hi1.
  { eapply slice_inv_later; [exact Hi|done..|]. change (get_exec_time x1) with (cum x (cur_slice X x + 1)). lia. }
  pose proof (slice_exec_val c x1 Hi1) as Hse. destruct (slice_budget_val c x1 Hi1) as (b & Hb & Hb0 & Ecum).
  change (cur_slice X x1) with (cur_slice X x) in *. rewrite !(cum_kept x x1) in Ecum by done.
  change (get_exec_time x1) with (cum x (cur_slice X x + 1)) in Hse.
  change (semi_part x1) with (semi_part x) in Hse. rewrite Hot in Hse.
  assert (total x1 = total x) as Et by (unfold total; by rewrite (kp_count _ _ _ _ K1), (cum_kept x x1)).
  assert (slice_budget_exhausted X x1 = Some true) as Hex.
  { unfold slice_budget_exhausted. rewrite Hb, Hse. simpl. f_equal. apply Z.leb_le. lia. }
  assert (cur_slice X x <> sp_count X x - 1) as Hnl.
  { intros E. rewrite E in Htot. unfold total in Htot. replace (sp_count X x - 1 + 1) with (sp_count X x) in Htot; lia. }
  split_and!; [done| |unfold get_last_slice; by rewrite (kp_count _ _ _ _ K1)|].
  { unfold slice_budget_remaining. rewrite Hb, Hse. simpl. f_equal.
    replace (b - (cum x (cur_slice X x + 1) - cum x (cur_slice X x))) with 0 by lia. done. }
  destruct (advance_next c x1) as (y & Hy & K & Hiy & H1 & H2 & H3 & _ & _ & H6); try done.
  - by rewrite Et.
  - unfold job_over, get_last_slice. rewrite (kp_count _ _ _ _ K1). simpl. apply orb_false_iff.
    split; [by apply Z.leb_gt|by apply Z.eqb_neq].
  - assert (same x y) as Kxy by (by eapply kept_trans). exists y. split_and!; try done.
    destruct (slice_budget_val c y Hiy) as (b' & _ & Hb'0 & Ecum'). unfold on_time.
    rewrite H3, H2, Ecum', H1, !(cum_kept x y) by done. split; [done|].
    change (get_exec_time x1) with (cum x (cur_slice X x + 1)). change (cur_slice X x1) with (cur_slice X x). lia.
Qed.

Lemma fast_forward_loop_spec fuel c x tp :
  slice_inv c x -> 0 <= c -> c + total x < two64 -> in_heap x = false -> on_time x ->
  0 <= tp -> get_exec_time x + tp < total x -> get_exec_time x + tp < sp_depleted X (semi_part x) ->
  sp_count X x - cur_slice X x < Z.of_nat fuel ->
  exists y rest, fast_forward_loop X fuel x tp = Some (y, rest) /\ same x y /\ slice_inv c y /\ on_time y /\
    0 <= rest /\ get_exec_time y + rest = get_exec_time x + tp /\
    get_exec_time x + tp < cum x (cur_slice X y + 1).
Proof.
  revert x tp. induction fuel as [|fuel IH]; intros x tp Hi Hc0 Hct Hh Hot Htp Htot Hdep Hf;
    [pose proof (si_cur _ _ Hi); lia|].
  pose proof (cum_total c x Hi). pose proof (si_ref _ _ Hi). pose proof Hot as [Href Hlt].
  destruct (slice_remaining_val c x Hi) as [He Hr]; [lia|]. simpl.
  destruct (Z.eqb_spec tp 0) as [->|Hnz].
  { exists x, 0. split_and!; try done. lia. }
  rewrite Hr. simpl. set (rem := _ - get_exec_time x). destruct (Z.ltb_spec tp rem).
  { exists x, tp. split_and!; try done. lia. }
  replace (on_job _ x) with (on_job (set_exec_time (cum x (cur_slice X x + 1))) x).
  2: { unfold on_job. f_equal. f_equal. change (exec_time (job_params x)) with (get_exec_time x).
       rewrite u64_id; [lia|]. unfold is_u64, two63, two64 in *. lia. }
  destruct (fast_forward_round c x) as (Hex & Hrem & Hl & y & Hy & K & Hiy & Hoty & Hcy & Hey & Hdy); try done; try lia.
  rewrite Hex. simpl. rewrite Hrem. simpl. rewrite (proj2 (Z.eqb_neq _ _) Hl), Hy. simpl.
  assert (total y = total x) as Et by (unfold total; by rewrite (kp_count _ _ _ _ K), (cum_kept x y)).
  destruct (IH y (tp - rem)) as (z & rest & Hz & Kz & Hiz & Hotz & Hr0 & Hrz & Hbz).
  all: rewrite ?Et, ?(kp_heap _ _ _ _ K), ?Hdy, ?Hey, ?Hcy, ?(kp_count _ _ _ _ K); try done; try lia.
  exists z, rest. rewrite Hey in *. rewrite (cum_kept x y) in Hbz by done.
  split_and!; [done|by eapply kept_trans|done|done|done|lia|lia].
Qed.

(** When the whole budget of the job is still in [exec_cost] (its first job),
    [fast_forward_slices] moves a job that got its slices in time to the slice
    that contains its execution time plus the time that passed, without
    tripping one of its assertions. *)
Theorem fast_forward_first_job x c time_passed :
  slice_inv c x -> total x <= c + cum x 1 -> 0 <= c -> c + total x < two64 -> in_heap x = false -> on_time x ->
  0 <= time_passed -> get_exec_time x + time_passed < total x ->
  get_exec_time x + time_passed < sp_depleted X (semi_part x) ->
  exists y, fast_forward_slices X time_passed x = Some y /\ slice_inv c y /\
    get_exec_time y = get_exec_time x + time_passed /\
    cum x (cur_slice X y) <= get_exec_time x + time_passed < cum x (cur_slice X y + 1) /\
    slice_budget_exhausted X y = Some false.
Proof.
  intros Hi Hc1 Hc0 Hct Hh Hot Htp Htot Hdep. pose proof (cum_total c x Hi). pose proof (si_ref _ _ Hi).
  pose proof (si_cost _ _ Hi) as Hcost. pose proof (si_cur _ _ Hi) as Hcur. pose proof Hot as [Href Hlt].
  assert (cum x 1 <= cum x (cur_slice X x + 1)) by (apply cum_mono; [apply Hi|lia|lia]).
  destruct (slice_remaining_val c x Hi) as [He _]; [lia|].
  unfold fast_forward_slices. rewrite budget_remaining_val by (unfold two63, two64 in *; lia).
  destruct (Z.leb_spec (get_exec_cost x - get_exec_time x) time_passed); [lia|].
  unfold sl_budget_exhausted. rewrite (sliced_count x (si_ws _ _ Hi)), He. cbn [mbind option_bind].
  destruct (fast_forward_loop_spec (S (Z.to_nat (sp_count X x))) c x time_passed)
    as (y & rest & Hy & K & Hiy & [Hrefy Hlty] & Hr0 & Hr & Hb); try done; [lia|].
  rewrite Hy. cbn [mbind option_bind].
  pose proof (cum_total c y Hiy). pose proof (si_ref _ _ Hiy).
  destruct (sl_exec y (get_exec_time y + rest)) as [K2 _].
  exists (on_job (set_exec_time (get_exec_time y + rest)) y).
  assert (slice_inv c (on_job (set_exec_time (get_exec_time y + rest)) y)) as Hi2.
  { eapply slice_inv_later; [exact Hiy|done..|]. cbn. unfold get_exec_time in *. lia. }
  split_and!; [| done| | | |].
  - f_equal. unfold on_job. f_equal. f_equal. change (exec_time (job_params y)) with (get_exec_time y).
    apply u64_id. unfold is_u64, two63, two64 in *. lia.
  - done.
  - change (cur_slice X (on_job _ y)) with (cur_slice X y). rewrite <- (cum_kept x y) by done. lia.
  - exact Hb.
  - destruct (slice_remaining_val c _ Hi2) as [He2 _]; [|done].
    rewrite !(cum_kept _ _ _ K2). change (cur_slice X (on_job _ y)) with (cur_slice X y).
    change (sp_exec_time X (semi_part (on_job _ y))) with (sp_exec_time X (semi_part y)).
    change (get_exec_time (on_job _ y)) with (get_exec_time y + rest). rewrite Hrefy, !(cum_kept x y) by done. lia.
Qed.

End Inv.

(** A step of an admission test. *)
Lemma reject_iff (b : bool) (e : Z) : (if b then - EINVAL else e) = 0 <-> b = false /\ e = 0.
Proof. destruct b; [|naive_solver]. split; [done|by intros [? _]]. Qed.
