(* ===== verification/SliceSched.v ===== *)
(** * Scheduling sliced jobs

    What the [schedule] function and the other handlers of EDF-WM, C=D and HIME
    guarantee (Sliced.v): the queue invariant of Partitioned.v, the choice of the
    next task, and the migration of the job that ran to the CPU of its next
    slice. *)

From stdpp Require Import sorting.
From S2P Require Import Prelude Task Edf PrioQueue Kernel RtDomain RtInv EdfDomain Partitioned Sliced SliceInv.
Open Scope Z_scope.

Section Sched.
Context {Q : Type -> Type} `{PrioQueueLaws Q}.
Context (X : slice_plugin) {L : SliceLaws X}.
Abbreviation world := (world Q pstate).
Abbreviation K := (M world).
Implicit Types (w : world) (t prev : tid) (x y : task_struct).

(** Release and deadline are in the range where times can be compared. *)
Definition in_window x : Prop := 0 <= get_release x < two63 /\ 0 <= get_deadline x < two63.

(** A job a CPU can execute: a regular one whose next period is in range, or a
    sliced one whose next slice is. *)
Inductive job_ok x : Prop :=
  | job_ok_regular : is_sliced_task X x = false -> in_window x -> 0 <= get_rt_period x ->
      get_deadline x + get_rt_period x < two63 -> job_ok x
  | job_ok_sliced c : slice_inv X c x -> 0 <= c -> c + total X x < two64 -> in_window x ->
      (forall sig y, advance_next_slice X sig x = Some y -> in_window y) -> job_ok x.

(** The task completes its job or slice when it is scheduled out. *)
Definition wants_completion x : bool :=
  ((budget_enforced x && default false (sl_budget_exhausted X x)) || (get_rt_flags x =? RT_F_SLEEP)) && is_running x.

(** The task after the decision whether its job or slice is over. *)
Definition after_completion x : task_struct :=
  if wants_completion x then default x (job_or_slice_completion X (get_rt_flags x =? RT_F_SLEEP) x) else x.

(** What completing a job leaves alone. *)
Record steady x y : Prop := {
  st_pid : pid y = pid x; st_inh : inh_task y = inh_task x; st_rt : is_realtime y = is_realtime x;
  st_heap : in_heap y = in_heap x; st_state : is_running y = is_running x
}.

Lemma kept_steady x y : kept X slice_cpu x y -> steady x y.
Proof. by intros []. Qed.

Lemma job_ok_window x : job_ok x -> in_window x.
Proof. by intros [|]. Qed.

Lemma job_ok_exhausted x : job_ok x -> exists b, sl_budget_exhausted X x = Some b.
Proof.
  unfold sl_budget_exhausted. intros [Hs _|c Hi _ _ _ _].
  - rewrite Hs. eauto.
  - rewrite (sliced_count X x (si_ws _ _ _ Hi)). destruct (slice_budget_val X c x Hi) as (b & Hb & _).
    unfold slice_budget_exhausted. rewrite Hb. simpl. eauto.
Qed.

Lemma completion_ok x sig :
  job_ok x -> in_heap x = false -> sig = true \/ sl_budget_exhausted X x = Some true ->
  exists y, job_or_slice_completion X sig x = Some y /\ steady x y /\ in_window y.
Proof.
  unfold job_or_slice_completion, sl_budget_exhausted. intros [Hs [Hr Hd] Hp Hdp|c Hi Hc Hct _ Hw] Hh Hu.
  - rewrite Hs. eexists. split; [done|]. split; [done|].
    destruct (next_job_window (set_rt_flags RT_F_SLEEP x)) as (Er & Ed & _); [apply Hd|done|done|].
    unfold in_window, regular_job_completion. rewrite Er, Ed.
    change (get_deadline (set_rt_flags RT_F_SLEEP x)) with (get_deadline x).
    change (get_rt_period (set_rt_flags RT_F_SLEEP x)) with (get_rt_period x). lia.
  - rewrite (sliced_count X x (si_ws _ _ _ Hi)) in *. destruct (job_over X sig x) eqn:Eo.
    + destruct (advance_over X sig x) as (y & Hy & K & _); [apply Hi..|done|done|].
      exists y. split_and!; [done|by apply kept_steady|by eapply Hw].
    + destruct sig; [done|]. destruct Hu as [?|Hu]; [done|].
      destruct (advance_next X c x) as (y & Hy & K & _); try done.
      exists y. split_and!; [done|by apply kept_steady|by eapply Hw].
Qed.

Lemma after_completion_ok x :
  job_ok x -> in_heap x = false ->
  steady x (after_completion x) /\ in_window (after_completion x) /\
  (wants_completion x = true -> job_or_slice_completion X (get_rt_flags x =? RT_F_SLEEP) x = Some (after_completion x)).
Proof.
  intros Hj Hh. unfold after_completion. destruct (wants_completion x) eqn:Ew; [|split_and!; [done|by apply job_ok_window|done]].
  unfold wants_completion in Ew. apply andb_true_iff in Ew as [Ew _].
  destruct (job_ok_exhausted x Hj) as [b Hb]. rewrite Hb in Ew. simpl in Ew.
  destruct (completion_ok x (get_rt_flags x =? RT_F_SLEEP)) as (y & Hy & Hs & Hw); [done|done| |].
  - apply orb_true_iff in Ew as [[_ ->]%andb_true_iff|Ew]; [by right|by left].
  - by rewrite Hy.
Qed.

(** ** Moving to another CPU *)
Lemma requeue_remote_spec t w :
  pinv w -> clock_ok w -> queueable w t -> (forall c, sched_of w c <> Some t) ->
  wp (sl_requeue_remote t) (fun _ w' => pinv w' /\ sched_of w' = sched_of w /\
    exists p, place_dom p = get_partition (tasks w t) /\
      moves t (set_rt_flags RT_F_RUNNING (tasks w t)) (Some p) w w') w.
Proof.
  intros Hi Hc Hq Hns. unfold sl_requeue_remote, get_task. apply wp_bind, wp_gets.
  eapply wp_mono; [apply (requeue_on_spec false t (get_partition (tasks w t)) get_partition w); try done; apply Hi|].
  intros _ w' (Hw' & p & Hp & M).
  assert (sched_of w' = sched_of w) as Hs by (unfold sched_of; by rewrite (ms_plugin _ _ _ _ _ M)).
  split_and!; [|done|by exists p]. unfold pinv. rewrite Hs.
  eapply part_inv_moves; [exact Hi|exact M|done..|apply Hi|done|]. intros q [= <-]. by rewrite Hp.
Qed.

(** What [schedule] establishes. *)
Record sl_scheduled w (next : option tid) w' : Prop := {
  ss_inv : pinv w';
  ss_next : sched_of w' (this_cpu w) = next;
  ss_other c : c <> this_cpu w -> sched_of w' c = sched_of w c;
  (* no ready task of the CPU has a higher priority than the next task *)
  ss_best : best w' (this_cpu w) next;
  (* the next task belongs on this CPU *)
  ss_home n : next = Some n -> get_partition (tasks w' n) = this_cpu w;
  (* no task is lost, unless it has blocked *)
  ss_tracked u : tracked (sched_of w') w' u <->
    tracked (sched_of w) w u /\ ~ (sched_of w (this_cpu w) = Some u /\ is_running (tasks w u) = false);
  (* the job that ran is completed or advanced to its next slice *)
  ss_job t : sched_of w (this_cpu w) = Some t -> is_running (tasks w t) = true ->
    core (tasks w' t) = core (set_rt_flags RT_F_RUNNING (after_completion (tasks w t)))
}.

(** Marking a task as running, seen through [core]. *)
Lemma core_run x y : core x = core y -> core (set_rt_flags RT_F_RUNNING x) = core (set_rt_flags RT_F_RUNNING y).
Proof. apply (core_congr (set_rt_flags RT_F_RUNNING)). core_tac. Qed.

(** From the decision to the end, without a migration. *)
Lemma sl_finish w w2 next :
  let me := this_cpu w in
  part_inv (upd (sched_of w) me next) w2 -> plugin w2 = plugin w -> best w2 me next ->
  (forall n, next = Some n -> get_partition (tasks w2 n) = me) ->
  (forall u, tracked (upd (sched_of w) me next) w2 u <->
     tracked (sched_of w) w u /\ ~ (sched_of w me = Some u /\ is_running (tasks w u) = false)) ->
  (forall t, sched_of w me = Some t -> is_running (tasks w t) = true ->
     core (if decide (next = Some t) then set_rt_flags RT_F_RUNNING (tasks w2 t) else tasks w2 t) =
     core (set_rt_flags RT_F_RUNNING (after_completion (tasks w t)))) ->
  wp (pedf_commit me next) (sl_scheduled w) w2.
Proof.
  intros me Hi2 Hp2 Hb2 Hn Ht2 Hj.
  eapply wp_mono; [apply (commit_finish (sched_of w)); [done|]|].
  { intros c _. unfold sched_of. by rewrite Hp2. }
  intros r w' (-> & Hi' & Hsc & Hb' & Hpt & Htr & Hcore & _). split; fold me.
  - done.
  - by rewrite Hsc, upd_eq.
  - intros c Hc. by rewrite Hsc, upd_ne.
  - auto.
  - intros n En. rewrite Hpt. by apply Hn.
  - intros u. by rewrite Htr, Ht2.
  - intros t Hs Hr. rewrite Hcore. by apply Hj.
Qed.

(** The decision when the job that ran has to leave for another CPU. *)
Lemma sl_leave w w2 prev y :
  let me := this_cpu w in
  pinv w -> sched_of w me = Some prev -> is_running (tasks w prev) = true ->
  adjusted (sched_of w) prev y w w2 -> is_realtime y = true -> in_window y -> core y = core (after_completion (tasks w prev)) ->
  get_partition y <> me ->
  wp (next ← pedf_switch false me (Some prev) false; next ← pedf_commit me next;
      sl_requeue_remote prev;; mret next) (sl_scheduled w) w2.
Proof.
  intros me Hi Hs Hr A Hrt Hwin Ey Hne. pose proof (fun u => tracked_adjusted _ me prev y w w2 u Hi Hs A) as Htr2.
  destruct A as [Hi2 M2 Hc2]. wp_steps.
  eapply wp_mono; [eapply (switch_leave_spec false (sched_of w) me (Some prev)); [exact Hi2|done]|].
  intros next w3 (Hi3 & Hb3 & Hp3 & Hn3 & Hc3 & Ht3 & Hcl3). wp_steps.
  eapply wp_mono; [apply (commit_finish (sched_of w)); [done|]|].
  { intros c _. unfold sched_of. by rewrite Hp3, (ms_plugin _ _ _ _ _ M2). }
  intros r w4 (-> & Hi4 & Hs4 & Hb4 & Hpt4 & Ht4 & Hc4 & Hcl4).
  assert (forall u, tracked (sched_of w4) w4 u <-> tracked (sched_of w) w u /\ u <> prev) as Htr4.
  { intros u. rewrite Ht4, Ht3, Htr2. split; intros [? ?]; (split; [done|congruence]). }
  assert (~ tracked (sched_of w4) w4 prev) as Hnt by (rewrite Htr4; by intros [_ []]).
  assert (next <> Some prev) as Hnp.
  { intros ->. apply Hnt. right. exists me. by rewrite Hs4, upd_eq. }
  assert (core (tasks w4 prev) = core y) as E4.
  { rewrite Hc4, decide_False, Hc3 by done. rewrite (ms_core _ _ _ _ _ M2). by rewrite decide_True. }
  assert (get_partition (tasks w4 prev) = get_partition y) as Ep by (by apply (core_field get_partition)).
  wp_steps. eapply wp_mono; [apply (requeue_remote_spec prev w4); [done| | |]|].
  - eapply same_clock_ok; [exact Hcl4|]. by eapply same_clock_ok.
  - by eapply queueable_intro; [exact Hi4|done|exact E4|done|apply Hwin|apply Hwin].
  - intros c E. apply Hnt. right. eauto.
  - intros _ w5 (Hi5 & Hs5 & p & Hpd & M5). wp_steps. rewrite Ep in Hpd. split; fold me.
    + done.
    + by rewrite Hs5, Hs4, upd_eq.
    + intros c Hc. by rewrite Hs5, Hs4, upd_ne.
    + eapply best_other; [exact M5|congruence|done|auto].
    + intros n En. rewrite (core_field get_partition _ _ (fun _ => eq_refl) (ms_core _ _ _ _ _ M5 n)).
      rewrite decide_False by congruence. rewrite Hpt4. by apply Hn3.
    + intros u. rewrite Hs5, Hs, (tracked_queued _ _ _ _ _ _ _ M5), Htr4. split.
      * intros [->|[Ht Hu]]; (split; [|intros [E E']; congruence]); [right; eauto|done].
      * intros [Ht _]. destruct (decide (u = prev)); auto.
    + intros t Ht _. rewrite Hs in Ht. injection Ht as <-. rewrite (ms_core _ _ _ _ _ M5), decide_True by done.
      apply core_run. by rewrite E4.
Qed.

(** What the decisions below start from: the task [prev] ran and is [y] after the
    decision whether its job or slice is over. *)
Record deciding w prev y w2 : Prop := {
  dc_inv : pinv w;
  dc_sched : sched_of w (this_cpu w) = Some prev;
  dc_adj : adjusted (sched_of w) prev y w w2;
  dc_rt : is_realtime y = true;
  dc_window : in_window y;
  dc_after : core y = core (after_completion (tasks w prev))
}.

Lemma deciding_core w prev y w2 : deciding w prev y w2 -> core (tasks w2 prev) = core y.
Proof.
  intros Hd. pose proof (ms_core _ _ _ _ _ (ad_moves _ _ _ _ _ (dc_adj _ _ _ _ Hd)) prev) as E.
  by rewrite decide_True in E.
Qed.

Lemma deciding_tracked w prev y w2 u :
  deciding w prev y w2 -> tracked (sched_of w) w2 u <-> tracked (sched_of w) w u.
Proof. intros [Hi Hs A _ _ _]. by eapply tracked_adjusted. Qed.

Lemma not_blocked w prev y w2 u :
  deciding w prev y w2 -> is_running (tasks w prev) = true ->
  ~ (sched_of w (this_cpu w) = Some u /\ is_running (tasks w u) = false).
Proof. intros Hd Hr [E Eu]. rewrite (dc_sched _ _ _ _ Hd) in E. injection E as <-. congruence. Qed.

(** The job that ran goes back into the queues of its CPU. *)
Lemma sl_again w w2 prev y :
  let me := this_cpu w in
  deciding w prev y w2 -> is_running (tasks w prev) = true -> get_partition y = me ->
  wp (next ← pedf_switch false me (Some prev) true; pedf_commit me next) (sl_scheduled w) w2.
Proof.
  intros me Hd Hr Hp. pose proof (deciding_core _ _ _ _ Hd) as E2. pose proof Hd as [Hi Hs A Hrt Hwin Ey].
  destruct A as [Hi2 M2 Hc2]. destruct (pi_sched _ _ Hi2 me prev Hs) as [Hh2 _]. wp_steps.
  eapply wp_mono; [eapply (switch_again_spec false (sched_of w) me prev); [exact Hi2|done|done| |]|].
  - split; [done|rewrite (core_field is_realtime _ _ (fun _ => eq_refl) E2)
      |rewrite (core_field get_deadline _ _ (fun _ => eq_refl) E2)
      |rewrite (core_field get_release _ _ (fun _ => eq_refl) E2)]; done || apply Hwin.
  - by rewrite (core_field get_partition _ _ (fun _ => eq_refl) E2).
  - intros next w3 (Hi3 & Hb3 & Hp3 & Hn3 & Hc3 & Ht3). apply sl_finish; try done.
    + by rewrite Hp3, (ms_plugin _ _ _ _ _ M2).
    + intros u. fold me. rewrite Ht3, (deciding_tracked _ _ _ _ _ Hd). split; [|by intros [? _]].
      intros Ht. split; [done|]. by eapply not_blocked.
    + intros t Ht _. unfold me in Ht. rewrite Hs in Ht. injection Ht as <-.
      pose proof (Hc3 prev) as E3. rewrite decide_True in E3 by done.
      assert (core (tasks w3 prev) = core (set_rt_flags RT_F_RUNNING (after_completion (tasks w prev)))) as E4.
      { rewrite E3. apply core_run. by rewrite E2. }
      case_decide; [|done]. etransitivity; [by apply core_run|done].
Qed.

(** The job that ran has blocked. *)
Lemma sl_block w w2 prev y :
  let me := this_cpu w in
  deciding w prev y w2 -> is_running (tasks w prev) = false ->
  wp (next ← pedf_switch false me (Some prev) false; pedf_commit me next) (sl_scheduled w) w2.
Proof.
  intros me Hd Hr. pose proof Hd as [Hi Hs [Hi2 M2 Hc2] _ _ _]. wp_steps.
  eapply wp_mono; [eapply (switch_leave_spec false (sched_of w) me (Some prev)); [exact Hi2|done]|].
  intros next w3 (Hi3 & Hb3 & Hp3 & Hn3 & Hc3 & Ht3 & _). apply sl_finish; try done.
  - by rewrite Hp3, (ms_plugin _ _ _ _ _ M2).
  - intros u. fold me. rewrite Ht3, (deciding_tracked _ _ _ _ _ Hd). unfold me. rewrite Hs. naive_solver.
  - intros t Ht Hrt. unfold me in Ht. rewrite Hs in Ht. injection Ht as <-. congruence.
Qed.

(** The job that ran continues. *)
Lemma sl_continue w w2 prev :
  let me := this_cpu w in
  deciding w prev (tasks w prev) w2 -> is_running (tasks w prev) = true -> get_partition (tasks w prev) = me ->
  best w me (Some prev) -> wp (pedf_commit me (Some prev)) (sl_scheduled w) w2.
Proof.
  intros me Hd Hr Hp Hbest. pose proof (deciding_core _ _ _ _ Hd) as E2. pose proof Hd as [Hi Hs [Hi2 M2 Hc2] _ _ Ey].
  fold me in Hs. apply sl_finish; try done.
  - eapply part_inv_ext; [|exact Hi2]. intros c. unfold upd. case_decide; by subst.
  - apply M2.
  - simpl in *. rewrite Forall_forall in *. intros e He.
    rewrite (order_moves prev (tasks w prev) None w w2) by done. apply Hbest.
    apply (ms_at _ _ _ _ _ M2 e (PReady me)) in He. by case_decide.
  - intros n [= <-]. by rewrite (core_field get_partition _ _ (fun _ => eq_refl) E2).
  - intros u. fold me. assert (tracked (upd (sched_of w) me (Some prev)) w2 u <-> tracked (sched_of w) w2 u) as ->.
    { unfold tracked. apply or_iff_compat_l.
      split; intros [c Hcc]; exists c; revert Hcc; unfold upd; case_decide; subst; congruence. }
    rewrite (deciding_tracked _ _ _ _ _ Hd). split; [|by intros [? _]].
    intros Ht. split; [done|]. by eapply not_blocked.
  - intros t Ht _. fold me in Ht. rewrite Hs in Ht. injection Ht as <-. rewrite decide_True by done.
    apply core_run. by rewrite E2.
Qed.

(** The decision when the CPU runs a task. *)
Lemma sl_decide w w2 prev (preempt : bool) :
  let me := this_cpu w in
  let x := tasks w prev in
  let resched := preempt || negb (is_running x) || negb (get_partition x =? me) || wants_completion x in
  let local := get_partition (tasks w2 prev) =? me in
  deciding w prev (after_completion x) w2 -> (preempt = false -> best w me (Some prev)) ->
  wp (next ← (if resched || negb true then pedf_switch false me (Some prev) (is_running x && local)
              else mret (Some prev));
      next ← pedf_commit me next;
      when ((resched || negb true) && is_running x && negb local) (sl_requeue_remote prev);;
      mret next) (sl_scheduled w) w2.
Proof.
  intros me x resched local Hd Hbest. pose proof (deciding_core _ _ _ _ Hd) as E2.
  assert (local = (get_partition (after_completion x) =? me)) as ->.
  { unfold local. by rewrite (core_field get_partition _ _ (fun _ => eq_refl) E2). }
  rewrite orb_false_r. destruct resched eqn:Er.
  - destruct (is_running x) eqn:Erun; simpl.
    + destruct (Z.eqb_spec (get_partition (after_completion x)) me) as [Ep|Ep]; simpl.
      * pose proof (sl_again w w2 prev _ Hd Erun Ep) as Hw. apply wp_bind in Hw. wp_steps.
        eapply wp_mono; [exact Hw|]. intros next w3 Hc. wp_steps. eapply wp_mono; [exact Hc|]. intros r w4 Hok. by wp_steps.
      * apply (sl_leave w w2 prev (after_completion x)); try done; apply Hd.
    + pose proof (sl_block w w2 prev _ Hd Erun) as Hw. apply wp_bind in Hw. wp_steps.
      eapply wp_mono; [exact Hw|]. intros next w3 Hc. wp_steps. eapply wp_mono; [exact Hc|]. intros r w4 Hok. by wp_steps.
  - unfold resched in Er. rewrite !orb_false_iff in Er.
    destruct Er as [[[-> Hr%negb_false_iff] Hp%negb_false_iff%Z.eqb_eq] Hw].
    assert (after_completion x = x) as Ex by (unfold after_completion; by rewrite Hw). rewrite Ex in Hd.
    wp_steps. eapply wp_mono; [by apply (sl_continue w w2 prev); [..|apply Hbest]|]. intros r w4 Hok. by wp_steps.
Qed.

Lemma clock_ok_quiet w w' : quiet w w' -> clock_ok w -> clock_ok w'.
Proof. intros Hq. apply same_clock_ok. split; apply Hq. Qed.

(** Scheduling on an idle CPU. *)
Lemma sl_schedule_idle prev w :
  pinv w -> (is_realtime (tasks w prev) = true -> in_window (tasks w prev)) ->
  sched_of w (this_cpu w) = None -> wp (sl_schedule X prev) (sl_scheduled w) w.
Proof.
  intros Hi Hwin Hs. unfold sl_schedule, get_scheduled, get_task, get_pcpu. set (me := this_cpu w) in *.
  pose proof Hs as Hs0. unfold sched_of in Hs. wp_steps; fold me; rewrite ?Hs; try done. wp_steps.
  eapply wp_mono; [apply preemption_needed_spec; [apply Hi|apply Hi|]|].
  { intros t [= <-] Hr. apply edf_ok_intro; [apply Hi|done|by apply Hwin]. }
  intros preempt w1 (Hq1 & Hw1 & _ & _). wp_steps. simpl. wp_steps. rewrite orb_true_r. simpl. wp_steps.
  pose proof (part_inv_quiet _ _ _ Hi Hq1 Hw1) as Hi1.
  eapply wp_mono; [eapply (switch_leave_spec false (sched_of w) me None); [exact Hi1|done]|].
  intros next w2 (Hi2 & Hb2 & Hp2 & Hn2 & Hc2 & Ht2 & _). wp_steps.
  eapply wp_mono; [apply sl_finish; fold me; try done|intros r w3 Hok; wp_steps; simpl; by wp_steps].
  - rewrite Hp2. apply Hq1.
  - intros u. rewrite Ht2, Hs0. unfold tracked.
    assert (forall p, at_place w1 u p <-> at_place w u p) as Hat by (intros p; apply Hq1). naive_solver.
  - by rewrite Hs0.
Qed.

(** Scheduling on a CPU that runs a task. *)
Lemma sl_schedule_busy prev w :
  pinv w -> clock_ok w -> sched_of w (this_cpu w) = Some prev -> job_ok (tasks w prev) ->
  wp (sl_schedule X prev) (sl_scheduled w) w.
Proof.
  intros Hi Hc Hs Hj. unfold sl_schedule, get_scheduled, get_task, get_pcpu.
  set (me := this_cpu w) in *. destruct (pi_sched _ _ Hi me prev Hs) as [Hh Hr].
  destruct (after_completion_ok (tasks w prev) Hj Hh) as (Hst & Hwin & Hcomp).
  destruct (job_ok_exhausted _ Hj) as [ex Hex].
  pose proof Hs as Hs0. unfold sched_of in Hs. wp_steps; fold me; rewrite ?Hs.
  { by apply bool_decide_false; intros []. }
  { by rewrite Hr. }
  wp_steps. apply (wp_mono _ (fun b w' => b = budget_enforced (tasks w prev) && default false (sl_budget_exhausted X (tasks w prev)) /\ w' = w)).
  { rewrite Hex. destruct (budget_enforced _); wp_steps; [|done]. by exists ex. }
  intros oot ? [-> ->]. wp_steps. eapply wp_mono; [apply preemption_needed_spec; [apply Hi|apply Hi|]|].
  { intros t [= <-] _. apply edf_ok_intro; [apply Hi|done|]. by apply job_ok_window. }
  intros preempt w1 (Hq1 & Hw1 & Ht1 & Hpre). wp_steps.
  pose proof (part_inv_quiet _ _ _ Hi Hq1 Hw1) as Hi1. pose proof (clock_ok_quiet _ _ Hq1 Hc) as Hc1.
  pose proof (adjusted_refl (sched_of w) me prev w1 Hi1 Hs0 Hc1) as A1. rewrite negb_involutive.
  fold (wants_completion (tasks w prev)).
  apply (wp_mono _ (fun _ w2 => adjusted (sched_of w) prev (after_completion (tasks w prev)) w w2)).
  - apply (wp_mono _ (fun _ w2 => adjusted (sched_of w) prev (after_completion (tasks w prev)) w1 w2)).
    + apply wp_when. destruct (wants_completion (tasks w prev)) eqn:Ew.
      * unfold upd_task_opt, get_task. wp_steps. rewrite Ht1. exists (after_completion (tasks w prev)). split; [by apply Hcomp|].
        eapply (adjusted_upd _ me prev _ w1); [exact A1|done|..]; rewrite Ht1; apply Hst.
      * unfold after_completion. rewrite Ew, <- Ht1. exact A1.
    + intros _ w2 [Hi2 M2 Hc2]. split; [done| |done].
      eapply (moves_trans prev); [apply quiet_moves; [|exact Hq1]; intros p; by eapply sched_nowhere|done].
  - intros _ w2 A2. wp_steps. rewrite (pi_cpu _ _ Hi). pose proof (sl_decide w w2 prev preempt) as Hd.
    fold me in Hd. cbv zeta in Hd.
    eapply wp_bind, Hd; [split; try done; by rewrite (st_rt _ _ Hst)|].
    intros ->. simpl. apply Forall_forall. intros e He.
    destruct (edf_ready_order (tasks w) e prev) eqn:E; [|done].
    assert (false = true); [|done]. apply Hpre, Exists_exists. exists e. split; [done|by right].
Qed.

(** C2: [schedule] of EDF-WM, C=D and HIME.  It hits no [BUG_ON]; the CPU runs a
    task of its own that no ready task of the CPU beats; the job that ran is
    completed or advanced to its next slice when its budget is used up or it
    asks for it, and is then queued on the CPU of that slice, which is another
    CPU when the job migrates; no task is lost and the queue invariant is kept. *)
Theorem sl_schedule_correct prev w :
  pinv w -> clock_ok w -> (is_realtime (tasks w prev) = true -> in_window (tasks w prev)) ->
  (forall t, sched_of w (this_cpu w) = Some t -> t = prev /\ job_ok (tasks w t)) ->
  wp (sl_schedule X prev) (sl_scheduled w) w.
Proof.
  intros Hi Hc Hwin Hp. destruct (sched_of w (this_cpu w)) as [t|] eqn:E.
  - destruct (Hp t eq_refl) as [-> Hj]. by apply sl_schedule_busy.
  - by apply sl_schedule_idle.
Qed.

End Sched.
