(* ===== verification/EdfWm.v ===== *)
(** * EDF-WM

    The parts of src/litmus2010/litmus/sched_edf_wm.c that differ from the other
    sliced plugins: the parameters of a slice, the completion of a job and the
    admission test; and the plugin's functions, the ones of Sliced.v at these
    parameters. *)

From stdpp Require Import sorting.
From S2P Require Import Prelude Task Edf PrioQueue Kernel RtDomain RtInv EdfDomain Partitioned Sliced SliceInv.
Open Scope Z_scope.

Definition wm_slices_of (x : task_struct) : list edf_wm_slice := wm_slices (wm (task_params x)).
Definition wm_count_of (x : task_struct) : Z := wm_count (wm (task_params x)).
(** [slices[i]] *)
Definition wm_slice_at (x : task_struct) (i : Z) : option edf_wm_slice :=
  if 0 <=? i then wm_slices_of x !! Z.to_nat i else None.

Definition wm_compute_slice_params (x : task_struct) : option task_struct :=
  let p := semi_part x in
  s ← wm_slice_at x (wm_cur_slice p);
  (* overwrite the job-level release and deadline fields *)
  let x := on_job (set_deadline (u64 (wm_job_release p + wms_deadline s))) x in
  let x := on_job (set_release (u64 (wm_job_release p + wms_offset s))) x in
  (* exec_cost is the cumulative cost of all slices until now *)
  let x := on_params (fun q => set_exec_cost (u64 (exec_cost q + wms_budget s)) q) x in
  let x := on_params (set_cpu (wms_cpu s)) x in
  (* update the per-slice budget reference *)
  Some (on_semi (set_wm_exec_time (get_exec_time x)) x).

Definition wm_complete_sliced_job (x : task_struct) : task_struct :=
  let p := semi_part x in
  (* undo our trickery to the job parameters *)
  let x := on_job (set_release (wm_job_release p)) x in
  let x := on_job (set_deadline (wm_job_deadline p)) x in
  let x := on_params (set_exec_cost (wm_job_exec_cost p)) x in
  let x := prepare_for_next_period x in
  (* cache the updated parameters *)
  let x := on_semi (set_wm_job_release (get_release x)) x in
  on_semi (set_wm_job_deadline (get_deadline x)) x.

(** The block [if (!idx)] of [advance_next_slice] *)
Definition wm_finish_sliced_job (x : task_struct) : task_struct :=
  let x := wm_complete_sliced_job x in
  on_params (set_exec_cost 0) x.

(** What [wm_task_new] writes into a sliced task *)
Definition wm_task_new_params (x : task_struct) : task_struct :=
  let x := on_semi (set_wm_exec_time 0) x in
  let x := on_semi (set_wm_job_release (get_release x)) x in
  let x := on_semi (set_wm_job_deadline (get_deadline x)) x in
  let x := on_semi (set_wm_job_exec_cost (get_exec_cost x)) x in
  let x := on_semi (set_wm_cur_slice 0) x in
  on_job (set_exec_time 0) x.

(** ** Admission *)

(** the slices [i = 0; i < count] that the loops of the admission test visit *)
Definition wm_used (x : task_struct) : list edf_wm_slice := take (Z.to_nat (wm_count_of x)) (wm_slices_of x).

Definition wm_check_params (cpu_online : Z -> bool) (x : task_struct) : Z :=
  if wm_count_of x =? 0 then 0      (* regular task; nothing to check *)
  (* (1) Either not sliced, or more than 1 slice. *)
  else if (wm_count_of x =? 1) || (MAX_EDF_WM_SLICES <? wm_count_of x) then - EINVAL
  (* (2) The partition has to agree with the first slice. *)
  else if match wm_slice_at x 0 with Some s => negb (get_partition x =? wms_cpu s) | None => true end then - EINVAL
  (* (3) The total budget must agree. *)
  else if negb (get_exec_cost x =? foldl (fun tmp s => u64 (tmp + wms_budget s)) 0 (wm_used x)) then - EINVAL
  (* (4) The release of each slice must not precede the previous deadline. *)
  else if negb (pairwise (fun a b => wms_deadline a <=? wms_offset b) (wm_used x)) then - EINVAL
  (* (5) The budget of each slice must fit within [offset, deadline] *)
  else if negb (forallb (fun s => negb (lt_before (wms_deadline s) (wms_offset s)) &&
                                  (wms_budget s <=? u64 (wms_deadline s - wms_offset s))) (wm_used x)) then - EINVAL
  (* The budget of each slice must exceed the minimum budget size. *)
  else if negb (forallb (fun s => MIN_EDF_WM_SLICE_SIZE <=? wms_budget s) (wm_used x)) then - EINVAL
  (* The CPU of each slice must be different from the previous CPU. *)
  else if negb (pairwise (fun a b => negb (wms_cpu a =? wms_cpu b)) (wm_used x)) then - EINVAL
  (* The CPU of each slice must be online. *)
  else if negb (forallb (fun s => cpu_online (wms_cpu s)) (wm_used x)) then - EINVAL
  (* A sliced task's budget must be precisely enforced. *)
  else if negb (budget_precisely_enforced x) then - EINVAL
  else 0.

Definition wm_admit_task (cpu_online : Z -> bool) (x : task_struct) : Z :=
  if task_cpu x =? get_partition x then wm_check_params cpu_online x else - EINVAL.

(** ** The plugin *)
Definition wm_ops : slice_plugin := {|
  sp_count := wm_count_of;
  sp_budget x i := s ← wm_slice_at x i; Some (wms_budget s);
  sp_slice := wm_cur_slice;
  sp_set_slice := set_wm_cur_slice;
  sp_exec_time := wm_exec_time;
  sp_suspend_time := wm_suspend_time;
  sp_set_suspend_time := set_wm_suspend_time;
  sp_job_deadline := wm_job_deadline;
  sp_set_job_deadline := set_wm_job_deadline;
  sp_depleted := cd_job_exec_cost;
  sp_compute := wm_compute_slice_params;
  sp_complete := wm_finish_sliced_job;
  sp_task_new := wm_task_new_params
|}.

Definition wm_is_sliced_task : task_struct -> bool := is_sliced_task wm_ops.
Definition wm_get_last_slice : task_struct -> Z := get_last_slice wm_ops.
Definition wm_slice_budget : task_struct -> option Z := slice_budget wm_ops.
Definition wm_slice_exec_time : task_struct -> Z := slice_exec_time wm_ops.
Definition wm_slice_budget_exhausted : task_struct -> option bool := slice_budget_exhausted wm_ops.
Definition wm_slice_budget_remaining : task_struct -> option Z := slice_budget_remaining wm_ops.
Definition wm_budget_exhausted : task_struct -> option bool := sl_budget_exhausted wm_ops.
Definition wm_advance_next_slice : bool -> task_struct -> option task_struct := advance_next_slice wm_ops.
Definition wm_fast_forward_slices : Z -> task_struct -> option task_struct := fast_forward_slices wm_ops.
Definition wm_regular_job_completion : task_struct -> task_struct := regular_job_completion.
Definition wm_job_or_slice_completion : bool -> task_struct -> option task_struct := job_or_slice_completion wm_ops.
Definition wm_release_at : Z -> task_struct -> option task_struct := sl_release_at wm_ops.
Definition wm_earliest_release : task_struct -> Z -> Z := earliest_release wm_ops.

(** ** The plugin provides what Sliced.v expects *)
#[export] Program Instance wm_laws : SliceLaws wm_ops := {|
  slice_cpu x i := wms_cpu <$> wm_slice_at x i;
  job_cost := wm_job_exec_cost;
  job_start x := wm_job_release (semi_part x)
|}.
Solve All Obligations with (intros; by repeat split).
Next Obligation.
  intros x b c Hb Hc. simpl in *. unfold wm_compute_slice_params, cur_slice in *. simpl in *.
  destruct (wm_slice_at x (wm_cur_slice (semi_part x))) as [s|]; [|done]. simpl in *.
  injection Hb as <-. injection Hc as <-. eexists. split; [done|]. by repeat split.
Qed.

Section Handlers.
Context {Q : Type -> Type} `{PrioQueue Q}.
Abbreviation K := (M (world Q pstate)).

Definition wm_preempt : Z -> K unit := sl_preempt.
Definition wm_check_resched : Z -> K bool := sl_check_resched.
Definition wm_domain_init : Z -> K unit := sl_domain_init.
Definition wm_requeue_local : tid -> Z -> K unit := sl_requeue_local.
Definition wm_requeue_remote : tid -> K unit := sl_requeue_remote.
Definition wm_tick : tid -> K unit := sl_tick wm_ops.
Definition wm_schedule : tid -> K (option tid) := sl_schedule wm_ops.
Definition wm_task_new : tid -> bool -> bool -> K unit := sl_task_new wm_ops.
Definition wm_task_wake_up : tid -> K unit := sl_task_wake_up wm_ops.
Definition wm_task_block : tid -> K unit := sl_task_block wm_ops.
Definition wm_task_exit : tid -> K unit := sl_task_exit.

End Handlers.

(** ** Admission *)

(** The parameters as user space can pass them: a full array of slices, and
    budgets whose sum is a time. *)
Record wm_params_ok (x : task_struct) : Prop := {
  wm_pk_array : length (wm_slices_of x) = Z.to_nat MAX_EDF_WM_SLICES;
  wm_pk_count : 0 <= wm_count_of x;
  wm_pk_slice : Forall (fun s => 0 <= wms_budget s /\ 0 <= wms_deadline s < two63 /\ 0 <= wms_offset s < two63) (wm_slices_of x);
  wm_pk_sum : sum_Z (wms_budget <$> wm_used x) < two63
}.

(** What the admission test is for. *)
Record wm_admissible (cpu_online : Z -> bool) (x : task_struct) : Prop := {
  wm_ad_cpu : task_cpu x = get_partition x;
  wm_ad_count : 2 <= wm_count_of x <= MAX_EDF_WM_SLICES;
  wm_ad_first : wms_cpu <$> wm_slice_at x 0 = Some (get_partition x);
  wm_ad_total : get_exec_cost x = total wm_ops x;
  wm_ad_slices s : s ∈ wm_used x -> MIN_EDF_WM_SLICE_SIZE <= wms_budget s /\ cpu_online (wms_cpu s) = true /\
    wms_offset s + wms_budget s <= wms_deadline s;
  wm_ad_next k a b : wm_used x !! k = Some a -> wm_used x !! S k = Some b ->
    wms_cpu a <> wms_cpu b /\ wms_deadline a <= wms_offset b;
  wm_ad_enforced : budget_precisely_enforced x = true
}.

Lemma wm_total_used x : total wm_ops x = sum_Z (wms_budget <$> wm_used x).
Proof.
  unfold total. apply (cum_list wm_ops wms_budget). intros k. simpl. unfold wm_slice_at.
  destruct (Z.leb_spec 0 (Z.of_nat k)); [|lia]. rewrite Nat2Z.id. by destruct (wm_slices_of x !! k).
Qed.

Lemma wm_slice_total x i :
  wm_params_ok x -> 0 <= i < wm_count_of x -> wm_count_of x <= MAX_EDF_WM_SLICES -> exists s, wm_slice_at x i = Some s /\ s ∈ wm_used x.
Proof.
  intros [Hl _ _ _] Hi Hm. destruct (lookup_lt_is_Some_2 (wm_slices_of x) (Z.to_nat i)) as [s Hs]; [lia|].
  exists s. unfold wm_slice_at. destruct (Z.leb_spec 0 i); [|lia]. split; [done|].
  apply list_elem_of_lookup. exists (Z.to_nat i). unfold wm_used. apply lookup_take_Some. split; [done|lia].
Qed.

Lemma wm_budget_sum x :
  wm_params_ok x -> foldl (fun tmp s => u64 (tmp + wms_budget s)) 0 (wm_used x) = total wm_ops x.
Proof.
  intros Hp. change 0 with (u64 0) at 1. rewrite (foldl_u64 wms_budget), u64_id, wm_total_used; [done|].
  pose proof (wm_pk_sum _ Hp). unfold is_u64, two63, two64 in *. split; [|lia]. apply sum_Z_nonneg.
  apply Forall_fmap, Forall_take. eapply Forall_impl; [apply (wm_pk_slice _ Hp)|]. cbn. intros. lia.
Qed.

Lemma wm_fit x s :
  wm_params_ok x -> s ∈ wm_used x ->
  negb (lt_before (wms_deadline s) (wms_offset s)) && (wms_budget s <=? u64 (wms_deadline s - wms_offset s)) = true <->
  wms_offset s + wms_budget s <= wms_deadline s.
Proof.
  intros Hp Hs. pose proof (Forall_take _ (Z.to_nat (wm_count_of x)) _ (wm_pk_slice _ Hp)) as Hf.
  rewrite Forall_forall in Hf. destruct (Hf s Hs) as (Hb & Hd & Ho).
  rewrite lt_before_window, andb_true_iff, negb_true_iff, Z.ltb_ge, Z.leb_le by lia. split.
  - intros [Hle Hfit]. rewrite u64_id in Hfit by (unfold is_u64, two63, two64 in *; lia). lia.
  - intros Hle. rewrite u64_id by (unfold is_u64, two63, two64 in *; lia). lia.
Qed.

Lemma wm_admit_admissible cpu_online x :
  wm_params_ok x -> wm_count_of x <> 0 -> wm_admit_task cpu_online x = 0 <-> wm_admissible cpu_online x.
Proof.
  intros Hp Hc. pose proof (wm_pk_count _ Hp). unfold wm_admit_task, wm_check_params.
  destruct (Z.eqb_spec (wm_count_of x) 0); [done|]. rewrite (wm_budget_sum x Hp).
  destruct (Z.eqb_spec (task_cpu x) (get_partition x)) as [Ecpu|Ecpu]; [|split; [done|by intros []]].
  rewrite !reject_iff, !negb_false_iff, !forallb_Forall, !pairwise_iff, !Forall_forall, orb_false_iff, Z.eqb_neq, Z.ltb_ge, Z.eqb_eq.
  setoid_rewrite Z.leb_le. setoid_rewrite negb_true_iff. setoid_rewrite Z.eqb_neq. split.
  - intros (? & Hf & ? & Hord & Hfit & Hmin & Hmig & Hon & Henf & _). split; [done|lia| |done| | |done].
    + destruct (wm_slice_at x 0); [|done]. simpl. apply negb_false_iff, Z.eqb_eq in Hf. by rewrite Hf.
    + intros s Hs. destruct (wm_fit x s Hp Hs) as [Hf1 _]. split_and!; auto.
    + intros k a b Ha Hb. split; [by apply (Hmig k)|by apply (Hord k)].
  - intros [_ ? Hf ? Hs Hn ?]. split_and!; [lia|lia| |done| | | | | |done|done].
    + destruct (wm_slice_at x 0); [|done]. simpl in *. injection Hf as ->. by rewrite Z.eqb_refl.
    + intros k a b Ha Hb. by apply (Hn k).
    + intros s Hin. apply (proj2 (wm_fit x s Hp Hin)). by apply Hs.
    + intros s Hin. by apply Hs.
    + intros k a b Ha Hb. by apply (Hn k).
    + intros s Hin. by apply Hs.
Qed.

(** EDF-WM admits a sliced task exactly when it
    is on the CPU of its partition, has 2 to 24 slices, the first on its
    partition, whose budgets add up to its execution cost; every slice has the
    minimum budget, fits its budget between its offset and its deadline, runs on
    an online CPU that differs from the next slice's, and is over when the next
    one starts; and the budget is precisely enforced. *)
Theorem wm_admit_iff cpu_online x :
  wm_params_ok x -> wm_count_of x <> 0 -> wm_admit_task cpu_online x = 0 <-> wm_admissible cpu_online x.
Proof. apply wm_admit_admissible. Qed.

(** A sliced task that is admitted starts its first job with the first slice,
    in time and with the invariant, except that [exec_cost] is the budget of the
    whole job and not of the first slice. *)
Theorem wm_first_job cpu_online x now :
  wm_params_ok x -> wm_admissible cpu_online x ->
  let y := wm_task_new_params (release_at now x) in
  slice_inv wm_ops (total wm_ops x - cum wm_ops x 1) y /\ on_time wm_ops y /\ cur_slice wm_ops y = 0 /\
  get_exec_cost y = total wm_ops x /\ get_release y = now /\
  wm_job_deadline (semi_part y) = u64 (now + get_rt_period x).
Proof.
  intros Hp Ha y. pose proof (wm_ad_count _ _ Ha) as Hc. pose proof (wm_ad_total _ _ Ha) as Ht.
  assert (kept wm_ops slice_cpu x y) as K by done.
  assert (forall n, cum wm_ops y n = cum wm_ops x n) as Ecum by (intros n; by apply (cum_kept wm_ops)).
  assert (total wm_ops y = total wm_ops x) as Et by done.
  destruct (wm_slice_total x 0 Hp ltac:(lia) ltac:(lia)) as (s & Hs & Hin). pose proof (wm_ad_slices _ _ Ha s Hin) as [Hmin _].
  assert (cum wm_ops x 1 = wms_budget s) as E1.
  { change 1 with (0 + 1). rewrite (cum_S wm_ops x 0 (wms_budget s)); [done|done|]. simpl. by rewrite Hs. }
  assert (well_sliced wm_ops y) as W.
  { split; [apply Hc|..].
    - intros i Hi. destruct (wm_slice_total x i Hp) as (s' & Hs' & Hin'); [simpl in *; done|lia|].
      exists (wms_budget s'). split; [by simpl; change (wm_slice_at y i) with (wm_slice_at x i); rewrite Hs'|].
      destruct (wm_ad_slices _ _ Ha s' Hin') as [Hb _]. unfold MIN_EDF_WM_SLICE_SIZE in Hb. lia.
    - intros i Hi. destruct (wm_slice_total x i Hp) as (s' & Hs' & _); [simpl in *; done|lia|].
      exists (wms_cpu s'). simpl. change (wm_slice_at y i) with (wm_slice_at x i). by rewrite Hs'.
    - rewrite Et, wm_total_used. apply Hp.
    - rewrite Et. exact Ht. }
  unfold MIN_EDF_WM_SLICE_SIZE in *. split_and!; try done.
  - split; try done.
    + change (0 <= 0 < wm_count_of x). lia.
    + change (cur_slice wm_ops y + 1) with 1. rewrite Ecum. change (get_exec_cost y) with (get_exec_cost x). lia.
    + exact (wm_ad_first _ _ Ha).
  - split; [done|]. change (cur_slice wm_ops y + 1) with 1. rewrite Ecum. change (get_exec_time y) with 0. lia.
Qed.

(** ** Slices and times *)

(** A slice is released at its offset and has its deadline, both counted from
    the release of the job. *)
Theorem wm_slice_times x s :
  wm_slice_at x (wm_cur_slice (semi_part x)) = Some s ->
  0 <= wm_job_release (semi_part x) -> 0 <= wms_offset s <= wms_deadline s ->
  wm_job_release (semi_part x) + wms_deadline s < two63 ->
  exists y, wm_compute_slice_params x = Some y /\
    get_release y = wm_job_release (semi_part x) + wms_offset s /\
    get_deadline y = wm_job_release (semi_part x) + wms_deadline s /\ get_partition y = wms_cpu s.
Proof.
  intros Hs Hr Ho Hd. unfold wm_compute_slice_params. rewrite Hs. simpl. eexists. split; [done|].
  unfold two63 in *. split_and!; [..|done]; cbn; (rewrite u64_id; [done|unfold is_u64, two64; lia]).
Qed.

(** A job whose execution time has reached its budget goes on with the next
    slice, on another CPU, as long as the number of nanoseconds it has executed
    is below its absolute deadline: [advance_next_slice] compares the execution
    time with [semi_part.cd.job_exec_cost], which in the union is the word of
    [semi_part.wm.job_deadline]. *)
Theorem wm_advance_past_budget c x :
  slice_inv wm_ops c x -> 0 <= c -> c + total wm_ops x < two64 -> in_heap x = false ->
  cur_slice wm_ops x < wm_get_last_slice x -> slice_used wm_ops x ->
  wm_job_exec_cost (semi_part x) <= get_exec_time x < wm_job_deadline (semi_part x) ->
  exists y, wm_advance_next_slice false x = Some y /\ cur_slice wm_ops y = cur_slice wm_ops x + 1 /\
    get_exec_time y = get_exec_time x /\ slice_cpu x (cur_slice wm_ops x + 1) = Some (get_partition y).
Proof.
  intros Hi Hc Hct Hh Hl Hu [_ Hd].
  destruct (advance_next wm_ops c x) as (y & Hy & K & Hiy & Hcy & He & _); try done.
  - unfold job_over, get_last_slice. unfold wm_get_last_slice, get_last_slice in Hl. simpl in *. apply orb_false_iff.
    split; [apply Z.leb_gt; exact Hd|apply Z.eqb_neq; lia].
  - exists y. split_and!; try done. rewrite <- Hcy, <- (kp_cpu _ _ _ _ K). apply Hiy.
Qed.
