(* ===== verification/Cd.v ===== *)
(** * C=D

    The parts of src/litmus2010/litmus/sched_cd.c that differ from the other
    sliced plugins: the parameters of a slice, the completion of a job and the
    admission test; and the plugin's functions, the ones of Sliced.v at these
    parameters. *)

From stdpp Require Import sorting.
From S2P Require Import Prelude Task Edf PrioQueue Kernel RtDomain RtInv EdfDomain Partitioned Sliced SliceInv.
Open Scope Z_scope.

Definition cd_slices_of (x : task_struct) : list cd_slice := cd_slices (cd (task_params x)).
Definition cd_count_of (x : task_struct) : Z := cd_count (cd (task_params x)).
(** [slices[i]] *)
Definition cd_slice_at (x : task_struct) (i : Z) : option cd_slice :=
  if 0 <=? i then cd_slices_of x !! Z.to_nat i else None.

Definition cd_compute_slice_params (x : task_struct) : option task_struct :=
  let p := semi_part x in
  s ← cd_slice_at x (cd_cur_slice p);
  (* the release is not changed *)
  let x := on_job (set_deadline (u64 (get_release x + cds_deadline s))) x in
  (* exec_cost is the cumulative cost of all slices until now *)
  let x := on_params (fun q => set_exec_cost (u64 (exec_cost q + cds_budget s)) q) x in
  let x := on_params (set_cpu (cds_cpu s)) x in
  (* update the per-slice budget reference *)
  Some (on_semi (set_cd_exec_time (get_exec_time x)) x).

Definition cd_complete_sliced_job (x : task_struct) : task_struct :=
  let p := semi_part x in
  (* undo our trickery to the job parameters *)
  let x := on_job (set_deadline (cd_job_deadline p)) x in
  let x := on_params (set_exec_cost (cd_job_exec_cost p)) x in
  let x := prepare_for_next_period x in
  (* cache the updated parameters *)
  on_semi (set_cd_job_deadline (get_deadline x)) x.

(** The block [if (!idx)] of [advance_next_slice] *)
Definition cd_finish_sliced_job (x : task_struct) : task_struct :=
  let x := cd_complete_sliced_job x in
  on_params (set_exec_cost 0) x.

(** What [cd_task_new] writes into a sliced task *)
Definition cd_task_new_params (x : task_struct) : task_struct :=
  let x := on_semi (set_cd_exec_time 0) x in
  let x := on_semi (set_cd_job_deadline (get_deadline x)) x in
  let x := on_semi (set_cd_job_exec_cost (get_exec_cost x)) x in
  let x := on_semi (set_cd_cur_slice 0) x in
  on_job (set_exec_time 0) x.

(** ** Admission *)

(** the slices [i = 0; i < count] that the loops of the admission test visit *)
Definition cd_used (x : task_struct) : list cd_slice := take (Z.to_nat (cd_count_of x)) (cd_slices_of x).

Definition cd_check_params (cpu_online : Z -> bool) (x : task_struct) : Z :=
  if cd_count_of x =? 0 then 0      (* regular task; nothing to check *)
  (* (1) Either not sliced, or more than 1 slice. *)
  else if (cd_count_of x =? 1) || (MAX_CD_SLICES <? cd_count_of x) then - EINVAL
  (* (2) The partition has to agree with the first slice. *)
  else if match cd_slice_at x 0 with Some s => negb (get_partition x =? cds_cpu s) | None => true end then - EINVAL
  (* (3) The total budget must agree. *)
  else if negb (get_exec_cost x =? foldl (fun tmp s => u64 (tmp + cds_budget s)) 0 (cd_used x)) then - EINVAL
  (* The budget of each slice must exceed the minimum budget size. *)
  else if negb (forallb (fun s => MIN_CD_SLICE_SIZE <=? cds_budget s) (cd_used x)) then - EINVAL
  (* The CPU of each slice must be different from the previous CPU. *)
  else if negb (pairwise (fun a b => negb (cds_cpu a =? cds_cpu b)) (cd_used x)) then - EINVAL
  (* The CPU of each slice must be online. *)
  else if negb (forallb (fun s => cpu_online (cds_cpu s)) (cd_used x)) then - EINVAL
  (* A sliced task's budget must be precisely enforced. *)
  else if negb (budget_precisely_enforced x) then - EINVAL
  else 0.

Definition cd_admit_task (cpu_online : Z -> bool) (x : task_struct) : Z :=
  if task_cpu x =? get_partition x then cd_check_params cpu_online x else - EINVAL.

(** ** The plugin *)
Definition cd_ops : slice_plugin := {|
  sp_count := cd_count_of;
  sp_budget x i := s ← cd_slice_at x i; Some (cds_budget s);
  sp_slice := cd_cur_slice;
  sp_set_slice := set_cd_cur_slice;
  sp_exec_time := cd_exec_time;
  sp_suspend_time := cd_suspend_time;
  sp_set_suspend_time := set_cd_suspend_time;
  sp_job_deadline := cd_job_deadline;
  sp_set_job_deadline := set_cd_job_deadline;
  sp_depleted := cd_job_exec_cost;
  sp_compute := cd_compute_slice_params;
  sp_complete := cd_finish_sliced_job;
  sp_task_new := cd_task_new_params
|}.

Definition cd_is_sliced_task : task_struct -> bool := is_sliced_task cd_ops.
Definition cd_get_last_slice : task_struct -> Z := get_last_slice cd_ops.
Definition cd_slice_budget : task_struct -> option Z := slice_budget cd_ops.
Definition cd_slice_exec_time : task_struct -> Z := slice_exec_time cd_ops.
Definition cd_slice_budget_exhausted : task_struct -> option bool := slice_budget_exhausted cd_ops.
Definition cd_slice_budget_remaining : task_struct -> option Z := slice_budget_remaining cd_ops.
Definition cd_budget_exhausted : task_struct -> option bool := sl_budget_exhausted cd_ops.
Definition cd_advance_next_slice : bool -> task_struct -> option task_struct := advance_next_slice cd_ops.
Definition cd_fast_forward_slices : Z -> task_struct -> option task_struct := fast_forward_slices cd_ops.
Definition cd_regular_job_completion : task_struct -> task_struct := regular_job_completion.
Definition cd_job_or_slice_completion : bool -> task_struct -> option task_struct := job_or_slice_completion cd_ops.
Definition cd_release_at : Z -> task_struct -> option task_struct := sl_release_at cd_ops.
Definition cd_earliest_release : task_struct -> Z -> Z := earliest_release cd_ops.

(** ** The plugin provides what Sliced.v expects *)
#[export] Program Instance cd_laws : SliceLaws cd_ops := {|
  slice_cpu x i := cds_cpu <$> cd_slice_at x i;
  job_cost := cd_job_exec_cost;
  job_start x := get_release x
|}.
Solve All Obligations with (intros; by repeat split).
Next Obligation.
  intros x b c Hb Hc. simpl in *. unfold cd_compute_slice_params, cur_slice in *. simpl in *.
  destruct (cd_slice_at x (cd_cur_slice (semi_part x))) as [s|]; [|done]. simpl in *.
  injection Hb as <-. injection Hc as <-. eexists. split; [done|]. by repeat split.
Qed.

Section Handlers.
Context {Q : Type -> Type} `{PrioQueue Q}.
Abbreviation K := (M (world Q pstate)).

Definition cd_preempt : Z -> K unit := sl_preempt.
Definition cd_check_resched : Z -> K bool := sl_check_resched.
Definition cd_domain_init : Z -> K unit := sl_domain_init.
Definition cd_requeue_local : tid -> Z -> K unit := sl_requeue_local.
Definition cd_requeue_remote : tid -> K unit := sl_requeue_remote.
Definition cd_tick : tid -> K unit := sl_tick cd_ops.
Definition cd_schedule : tid -> K (option tid) := sl_schedule cd_ops.
Definition cd_task_new : tid -> bool -> bool -> K unit := sl_task_new cd_ops.
Definition cd_task_wake_up : tid -> K unit := sl_task_wake_up cd_ops.
Definition cd_task_block : tid -> K unit := sl_task_block cd_ops.
Definition cd_task_exit : tid -> K unit := sl_task_exit.

End Handlers.

(** ** Admission *)

(** The parameters as user space can pass them: a full array of slices, and
    budgets whose sum is a time. *)
Record cd_params_ok (x : task_struct) : Prop := {
  cd_pk_array : length (cd_slices_of x) = Z.to_nat MAX_CD_SLICES;
  cd_pk_count : 0 <= cd_count_of x;
  cd_pk_slice : Forall (fun s => 0 <= cds_budget s) (cd_slices_of x);
  cd_pk_sum : sum_Z (cds_budget <$> cd_used x) < two63
}.

(** What the admission test is for. *)
Record cd_admissible (cpu_online : Z -> bool) (x : task_struct) : Prop := {
  cd_ad_cpu : task_cpu x = get_partition x;
  cd_ad_count : 2 <= cd_count_of x <= MAX_CD_SLICES;
  cd_ad_first : cds_cpu <$> cd_slice_at x 0 = Some (get_partition x);
  cd_ad_total : get_exec_cost x = total cd_ops x;
  cd_ad_slices s : s ∈ cd_used x -> MIN_CD_SLICE_SIZE <= cds_budget s /\ cpu_online (cds_cpu s) = true;
  cd_ad_next k a b : cd_used x !! k = Some a -> cd_used x !! S k = Some b ->
    cds_cpu a <> cds_cpu b;
  cd_ad_enforced : budget_precisely_enforced x = true
}.

Lemma cd_total_used x : total cd_ops x = sum_Z (cds_budget <$> cd_used x).
Proof.
  unfold total. apply (cum_list cd_ops cds_budget). intros k. simpl. unfold cd_slice_at.
  destruct (Z.leb_spec 0 (Z.of_nat k)); [|lia]. rewrite Nat2Z.id. by destruct (cd_slices_of x !! k).
Qed.

Lemma cd_slice_total x i :
  cd_params_ok x -> 0 <= i < cd_count_of x -> cd_count_of x <= MAX_CD_SLICES -> exists s, cd_slice_at x i = Some s /\ s ∈ cd_used x.
Proof.
  intros [Hl _ _ _] Hi Hm. destruct (lookup_lt_is_Some_2 (cd_slices_of x) (Z.to_nat i)) as [s Hs]; [lia|].
  exists s. unfold cd_slice_at. destruct (Z.leb_spec 0 i); [|lia]. split; [done|].
  apply list_elem_of_lookup. exists (Z.to_nat i). unfold cd_used. apply lookup_take_Some. split; [done|lia].
Qed.

Lemma cd_budget_sum x :
  cd_params_ok x -> foldl (fun tmp s => u64 (tmp + cds_budget s)) 0 (cd_used x) = total cd_ops x.
Proof.
  intros Hp. change 0 with (u64 0) at 1. rewrite (foldl_u64 cds_budget), u64_id, cd_total_used; [done|].
  pose proof (cd_pk_sum _ Hp). unfold is_u64, two63, two64 in *. split; [|lia]. apply sum_Z_nonneg.
  apply Forall_fmap, Forall_take. eapply Forall_impl; [apply (cd_pk_slice _ Hp)|]. cbn. intros. lia.
Qed.

(** C=D admits a sliced task exactly when it
    is on the CPU of its partition, has 2 to 24 slices, the first on its
    partition, whose budgets add up to its execution cost; every slice has the
    minimum budget and an online CPU that differs from the next slice's, and the
    budget is precisely enforced. *)
Theorem cd_admit_iff cpu_online x :
  cd_params_ok x -> cd_count_of x <> 0 -> cd_admit_task cpu_online x = 0 <-> cd_admissible cpu_online x.
Proof.
  intros Hp Hc. pose proof (cd_pk_count _ Hp). unfold cd_admit_task, cd_check_params.
  destruct (Z.eqb_spec (cd_count_of x) 0); [done|]. rewrite (cd_budget_sum x Hp).
  destruct (Z.eqb_spec (task_cpu x) (get_partition x)) as [Ecpu|Ecpu]; [|split; [done|by intros []]].
  rewrite !reject_iff, !negb_false_iff, !forallb_Forall, !pairwise_iff, !Forall_forall, orb_false_iff, Z.eqb_neq, Z.ltb_ge, Z.eqb_eq.
  setoid_rewrite Z.leb_le. setoid_rewrite negb_true_iff. setoid_rewrite Z.eqb_neq. split.
  - intros (? & Hf & ? & Hmin & Hmig & Hon & Henf & _). split; [done|lia| |done| | |done].
    + destruct (cd_slice_at x 0); [|done]. simpl. apply negb_false_iff, Z.eqb_eq in Hf. by rewrite Hf.
    + intros s Hs. split_and!; auto.
    + intros k a b Ha Hb. by apply (Hmig k).
  - intros [_ ? Hf ? Hs Hn ?]. split_and!; [lia|lia| |done| | | |done|done].
    + destruct (cd_slice_at x 0); [|done]. simpl in *. injection Hf as ->. by rewrite Z.eqb_refl.
    + intros s Hin. by apply Hs.
    + intros k a b Ha Hb. by apply (Hn k).
    + intros s Hin. by apply Hs.
Qed.

(** A sliced task that is admitted starts its first job with the first slice,
    in time and with the invariant, except that [exec_cost] is the budget of the
    whole job and not of the first slice. *)
Theorem cd_first_job cpu_online x now :
  cd_params_ok x -> cd_admissible cpu_online x ->
  let y := cd_task_new_params (release_at now x) in
  slice_inv cd_ops (total cd_ops x - cum cd_ops x 1) y /\ on_time cd_ops y /\ cur_slice cd_ops y = 0 /\
  get_exec_cost y = total cd_ops x /\ get_release y = now /\
  cd_job_deadline (semi_part y) = u64 (now + get_rt_period x).
Proof.
  intros Hp Ha y. pose proof (cd_ad_count _ _ Ha) as Hc. pose proof (cd_ad_total _ _ Ha) as Ht.
  assert (kept cd_ops slice_cpu x y) as K by done.
  assert (forall n, cum cd_ops y n = cum cd_ops x n) as Ecum by (intros n; by apply (cum_kept cd_ops)).
  assert (total cd_ops y = total cd_ops x) as Et by done.
  destruct (cd_slice_total x 0 Hp ltac:(lia) ltac:(lia)) as (s & Hs & Hin). pose proof (cd_ad_slices _ _ Ha s Hin) as [Hmin _].
  assert (cum cd_ops x 1 = cds_budget s) as E1.
  { change 1 with (0 + 1). rewrite (cum_S cd_ops x 0 (cds_budget s)); [done|done|]. simpl. by rewrite Hs. }
  assert (well_sliced cd_ops y) as W.
  { split; [apply Hc|..].
    - intros i Hi. destruct (cd_slice_total x i Hp) as (s' & Hs' & Hin'); [simpl in *; done|lia|].
      exists (cds_budget s'). split; [by simpl; change (cd_slice_at y i) with (cd_slice_at x i); rewrite Hs'|].
      destruct (cd_ad_slices _ _ Ha s' Hin') as [Hb _]. unfold MIN_CD_SLICE_SIZE in Hb. lia.
    - intros i Hi. destruct (cd_slice_total x i Hp) as (s' & Hs' & _); [simpl in *; done|lia|].
      exists (cds_cpu s'). simpl. change (cd_slice_at y i) with (cd_slice_at x i). by rewrite Hs'.
    - rewrite Et, cd_total_used. apply Hp.
    - rewrite Et. exact Ht. }
  unfold MIN_CD_SLICE_SIZE in *. split_and!; try done.
  - split; try done.
    + change (0 <= 0 < cd_count_of x). lia.
    + change (cur_slice cd_ops y + 1) with 1. rewrite Ecum. change (get_exec_cost y) with (get_exec_cost x). lia.
    + exact (cd_ad_first _ _ Ha).
  - split; [done|]. change (cur_slice cd_ops y + 1) with 1. rewrite Ecum. change (get_exec_time y) with 0. lia.
Qed.

(** A job whose execution time has reached its budget is over, also when
    overruns used the budget up before the last slice: the next job starts on
    the first slice. *)
Theorem cd_depleted_completes c x :
  slice_inv cd_ops c x -> in_heap x = false -> total cd_ops x <= get_exec_time x ->
  exists y, cd_advance_next_slice false x = Some y /\ slice_inv cd_ops 0 y /\ cur_slice cd_ops y = 0 /\
    get_exec_time y = 0 /\ get_release y = cd_job_deadline (semi_part x).
Proof.
  intros Hi Hh Ht. destruct (advance_over cd_ops false x) as (y & Hy & _ & Hiy & Hc & He & Hs & _); try apply Hi; try done.
  - unfold job_over. simpl. apply orb_true_iff. left. apply Z.leb_le.
    change (cd_job_exec_cost (semi_part x)) with (cd_job_exec_cost (semi_part x)).
    rewrite <- (ws_cost _ _ (si_ws _ _ _ Hi)) in Ht. exact Ht.
  - by exists y.
Qed.

(** A slice keeps the release of the job and has its own deadline, counted
    from it. *)
Theorem cd_slice_times x s :
  cd_slice_at x (cd_cur_slice (semi_part x)) = Some s ->
  0 <= get_release x -> 0 <= cds_deadline s -> get_release x + cds_deadline s < two63 ->
  exists y, cd_compute_slice_params x = Some y /\ get_release y = get_release x /\
    get_deadline y = get_release x + cds_deadline s /\ get_partition y = cds_cpu s.
Proof.
  intros Hs Hr Ho Hd. unfold cd_compute_slice_params. rewrite Hs. simpl. eexists. split; [done|].
  unfold two63 in *. split_and!; [done| |done]. cbn. apply u64_id. unfold is_u64, two64, get_release in *. lia.
Qed.
