(* ===== verification/Hime.v ===== *)
(** * HIME

    The parts of src/litmus2010/litmus/sched_hime.c that differ from the other
    sliced plugins: the parameters of a slice, the completion of a job and the
    admission test; and the plugin's functions, the ones of Sliced.v at these
    parameters. *)

From stdpp Require Import sorting.
From S2P Require Import Prelude Task Edf PrioQueue Kernel RtDomain RtInv EdfDomain Partitioned Sliced SliceInv.
Open Scope Z_scope.

Definition hime_slices_of (x : task_struct) : list hime_slice := hime_slices (hime (task_params x)).
Definition hime_count_of (x : task_struct) : Z := hime_count (hime (task_params x)).
(** [slices[i]] *)
Definition hime_slice_at (x : task_struct) (i : Z) : option hime_slice :=
  if 0 <=? i then hime_slices_of x !! Z.to_nat i else None.

Definition hime_compute_slice_params (x : task_struct) : option task_struct :=
  let p := semi_part x in
  s ← hime_slice_at x (hime_cur_slice p);
  (* the deadline has been changed to 0 exactly before a new job starts *)
  (* exec_cost is the cumulative cost of all slices until now *)
  let x := on_params (fun q => set_exec_cost (u64 (exec_cost q + hms_budget s)) q) x in
  let x := on_params (set_cpu (hms_cpu s)) x in
  (* update the per-slice budget reference *)
  Some (on_semi (set_hime_exec_time (get_exec_time x)) x).

Definition hime_complete_sliced_job (x : task_struct) : task_struct :=
  let p := semi_part x in
  (* undo our trickery to the job parameters; the deadline that was 0 must be corrected *)
  let x := on_job (set_deadline (hime_job_deadline p)) x in
  let x := on_params (set_exec_cost (hime_job_exec_cost p)) x in
  let x := prepare_for_next_period x in
  (* cache the updated parameters *)
  on_semi (set_hime_job_deadline (get_deadline x)) x.

(** The block [if (!idx)] of [advance_next_slice] *)
Definition hime_finish_sliced_job (x : task_struct) : task_struct :=
  let x := hime_complete_sliced_job x in
  let x := on_params (set_exec_cost 0) x in
  (* Set maximum priority for the new job. Cache the real deadline first. *)
  let x := on_semi (set_hime_job_deadline (get_deadline x)) x in
  on_job (set_deadline 0) x.

(** What [hime_task_new] writes into a sliced task *)
Definition hime_task_new_params (x : task_struct) : task_struct :=
  let x := on_semi (set_hime_exec_time 0) x in
  let x := on_semi (set_hime_job_deadline (get_deadline x)) x in
  let x := on_semi (set_hime_job_exec_cost (get_exec_cost x)) x in
  let x := on_semi (set_hime_cur_slice 0) x in
  on_job (set_exec_time 0) x.

(** ** Admission *)

(** the slices [i = 0; i < count] that the loops of the admission test visit *)
Definition hime_used (x : task_struct) : list hime_slice := take (Z.to_nat (hime_count_of x)) (hime_slices_of x).

Definition hime_check_params (cpu_online : Z -> bool) (x : task_struct) : Z :=
  if hime_count_of x =? 0 then 0      (* regular task; nothing to check *)
  (* (1) Either not sliced, or more than 1 slice. *)
  else if (hime_count_of x =? 1) || (MAX_HIME_SLICES <? hime_count_of x) then - EINVAL
  (* (2) The partition has to agree with the first slice. *)
  else if match hime_slice_at x 0 with Some s => negb (get_partition x =? hms_cpu s) | None => true end then - EINVAL
  (* (3) The total budget must agree. *)
  else if negb (get_exec_cost x =? foldl (fun tmp s => u64 (tmp + hms_budget s)) 0 (hime_used x)) then - EINVAL
  (* The budget of each slice must exceed the minimum budget size. *)
  else if negb (forallb (fun s => MIN_HIME_SLICE_SIZE <=? hms_budget s) (hime_used x)) then - EINVAL
  (* The CPU of each slice must be different from the previous CPU. *)
  else if negb (pairwise (fun a b => negb (hms_cpu a =? hms_cpu b)) (hime_used x)) then - EINVAL
  (* The CPU of each slice must be online. *)
  else if negb (forallb (fun s => cpu_online (hms_cpu s)) (hime_used x)) then - EINVAL
  (* A sliced task's budget must be precisely enforced. *)
  else if negb (budget_precisely_enforced x) then - EINVAL
  else 0.

Definition hime_admit_task (cpu_online : Z -> bool) (x : task_struct) : Z :=
  if task_cpu x =? get_partition x then hime_check_params cpu_online x else - EINVAL.

(** ** The plugin *)
Definition hime_ops : slice_plugin := {|
  sp_count := hime_count_of;
  sp_budget x i := s ← hime_slice_at x i; Some (hms_budget s);
  sp_slice := hime_cur_slice;
  sp_set_slice := set_hime_cur_slice;
  sp_exec_time := hime_exec_time;
  sp_suspend_time := hime_suspend_time;
  sp_set_suspend_time := set_hime_suspend_time;
  sp_job_deadline := hime_job_deadline;
  sp_set_job_deadline := set_hime_job_deadline;
  sp_depleted := cd_job_exec_cost;
  sp_compute := hime_compute_slice_params;
  sp_complete := hime_finish_sliced_job;
  sp_task_new := hime_task_new_params
|}.

Definition hime_is_sliced_task : task_struct -> bool := is_sliced_task hime_ops.
Definition hime_get_last_slice : task_struct -> Z := get_last_slice hime_ops.
Definition hime_slice_budget : task_struct -> option Z := slice_budget hime_ops.
Definition hime_slice_exec_time : task_struct -> Z := slice_exec_time hime_ops.
Definition hime_slice_budget_exhausted : task_struct -> option bool := slice_budget_exhausted hime_ops.
Definition hime_slice_budget_remaining : task_struct -> option Z := slice_budget_remaining hime_ops.
Definition hime_budget_exhausted : task_struct -> option bool := sl_budget_exhausted hime_ops.
Definition hime_advance_next_slice : bool -> task_struct -> option task_struct := advance_next_slice hime_ops.
Definition hime_fast_forward_slices : Z -> task_struct -> option task_struct := fast_forward_slices hime_ops.
Definition hime_regular_job_completion : task_struct -> task_struct := regular_job_completion.
Definition hime_job_or_slice_completion : bool -> task_struct -> option task_struct := job_or_slice_completion hime_ops.
Definition hime_release_at : Z -> task_struct -> option task_struct := sl_release_at hime_ops.
Definition hime_earliest_release : task_struct -> Z -> Z := earliest_release hime_ops.

(** ** The plugin provides what Sliced.v expects *)
#[export] Program Instance hime_laws : SliceLaws hime_ops := {|
  slice_cpu x i := hms_cpu <$> hime_slice_at x i;
  job_cost := hime_job_exec_cost;
  job_start x := get_release x
|}.
Solve All Obligations with (intros; by repeat split).
Next Obligation.
  intros x b c Hb Hc. simpl in *. unfold hime_compute_slice_params, cur_slice in *. simpl in *.
  destruct (hime_slice_at x (hime_cur_slice (semi_part x))) as [s|]; [|done]. simpl in *.
  injection Hb as <-. injection Hc as <-. eexists. split; [done|]. by repeat split.
Qed.

Section Handlers.
Context {Q : Type -> Type} `{PrioQueue Q}.
Abbreviation K := (M (world Q pstate)).

Definition hime_preempt : Z -> K unit := sl_preempt.
Definition hime_check_resched : Z -> K bool := sl_check_resched.
Definition hime_domain_init : Z -> K unit := sl_domain_init.
Definition hime_requeue_local : tid -> Z -> K unit := sl_requeue_local.
Definition hime_requeue_remote : tid -> K unit := sl_requeue_remote.
Definition hime_tick : tid -> K unit := sl_tick hime_ops.
Definition hime_schedule : tid -> K (option tid) := sl_schedule hime_ops.
Definition hime_task_new : tid -> bool -> bool -> K unit := sl_task_new hime_ops.
Definition hime_task_wake_up : tid -> K unit := sl_task_wake_up hime_ops.
Definition hime_task_block : tid -> K unit := sl_task_block hime_ops.
Definition hime_task_exit : tid -> K unit := sl_task_exit.

End Handlers.

(** ** Admission *)

(** The parameters as user space can pass them: a full array of slices, and
    budgets whose sum is a time. *)
Record hime_params_ok (x : task_struct) : Prop := {
  hime_pk_array : length (hime_slices_of x) = Z.to_nat MAX_HIME_SLICES;
  hime_pk_count : 0 <= hime_count_of x;
  hime_pk_slice : Forall (fun s => 0 <= hms_budget s) (hime_slices_of x);
  hime_pk_sum : sum_Z (hms_budget <$> hime_used x) < two63
}.

(** What the admission test is for. *)
Record hime_admissible (cpu_online : Z -> bool) (x : task_struct) : Prop := {
  hime_ad_cpu : task_cpu x = get_partition x;
  hime_ad_count : 2 <= hime_count_of x <= MAX_HIME_SLICES;
  hime_ad_first : hms_cpu <$> hime_slice_at x 0 = Some (get_partition x);
  hime_ad_total : get_exec_cost x = total hime_ops x;
  hime_ad_slices s : s ∈ hime_used x -> MIN_HIME_SLICE_SIZE <= hms_budget s /\ cpu_online (hms_cpu s) = true;
  hime_ad_next k a b : hime_used x !! k = Some a -> hime_used x !! S k = Some b ->
    hms_cpu a <> hms_cpu b;
  hime_ad_enforced : budget_precisely_enforced x = true
}.

Lemma hime_total_used x : total hime_ops x = sum_Z (hms_budget <$> hime_used x).
Proof.
  unfold total. apply (cum_list hime_ops hms_budget). intros k. simpl. unfold hime_slice_at.
  destruct (Z.leb_spec 0 (Z.of_nat k)); [|lia]. rewrite Nat2Z.id. by destruct (hime_slices_of x !! k).
Qed.

Lemma hime_slice_total x i :
  hime_params_ok x -> 0 <= i < hime_count_of x -> hime_count_of x <= MAX_HIME_SLICES -> exists s, hime_slice_at x i = Some s /\ s ∈ hime_used x.
Proof.
  intros [Hl _ _ _] Hi Hm. destruct (lookup_lt_is_Some_2 (hime_slices_of x) (Z.to_nat i)) as [s Hs]; [lia|].
  exists s. unfold hime_slice_at. destruct (Z.leb_spec 0 i); [|lia]. split; [done|].
  apply list_elem_of_lookup. exists (Z.to_nat i). unfold hime_used. apply lookup_take_Some. split; [done|lia].
Qed.

Lemma hime_budget_sum x :
  hime_params_ok x -> foldl (fun tmp s => u64 (tmp + hms_budget s)) 0 (hime_used x) = total hime_ops x.
Proof.
  intros Hp. change 0 with (u64 0) at 1. rewrite (foldl_u64 hms_budget), u64_id, hime_total_used; [done|].
  pose proof (hime_pk_sum _ Hp). unfold is_u64, two63, two64 in *. split; [|lia]. apply sum_Z_nonneg.
  apply Forall_fmap, Forall_take. eapply Forall_impl; [apply (hime_pk_slice _ Hp)|]. cbn. intros. lia.
Qed.

(** HIME admits a sliced task exactly when it
    is on the CPU of its partition, has 2 to 24 slices, the first on its
    partition, whose budgets add up to its execution cost; every slice has the
    minimum budget and an online CPU that differs from the next slice's, and the
    budget is precisely enforced. *)
Theorem hime_admit_iff cpu_online x :
  hime_params_ok x -> hime_count_of x <> 0 -> hime_admit_task cpu_online x = 0 <-> hime_admissible cpu_online x.
Proof.
  intros Hp Hc. pose proof (hime_pk_count _ Hp). unfold hime_admit_task, hime_check_params.
  destruct (Z.eqb_spec (hime_count_of x) 0); [done|]. rewrite (hime_budget_sum x Hp).
  destruct (Z.eqb_spec (task_cpu x) (get_partition x)) as [Ecpu|Ecpu]; [|split; [done|by intros []]].
  rewrite !reject_iff, !negb_false_iff, !forallb_Forall, !pairwise_iff, !Forall_forall, orb_false_iff, Z.eqb_neq, Z.ltb_ge, Z.eqb_eq.
  setoid_rewrite Z.leb_le. setoid_rewrite negb_true_iff. setoid_rewrite Z.eqb_neq. split.
  - intros (? & Hf & ? & Hmin & Hmig & Hon & Henf & _). split; [done|lia| |done| | |done].
    + destruct (hime_slice_at x 0); [|done]. simpl. apply negb_false_iff, Z.eqb_eq in Hf. by rewrite Hf.
    + intros s Hs. split_and!; auto.
    + intros k a b Ha Hb. by apply (Hmig k).
  - intros [_ ? Hf ? Hs Hn ?]. split_and!; [lia|lia| |done| | | |done|done].
    + destruct (hime_slice_at x 0); [|done]. simpl in *. injection Hf as ->. by rewrite Z.eqb_refl.
    + intros s Hin. by apply Hs.
    + intros k a b Ha Hb. by apply (Hn k).
    + intros s Hin. by apply Hs.
Qed.

(** A sliced task that is admitted starts its first job with the first slice,
    in time and with the invariant, except that [exec_cost] is the budget of the
    whole job and not of the first slice. *)
Theorem hime_first_job cpu_online x now :
  hime_params_ok x -> hime_admissible cpu_online x ->
  let y := hime_task_new_params (release_at now x) in
  slice_inv hime_ops (total hime_ops x - cum hime_ops x 1) y /\ on_time hime_ops y /\ cur_slice hime_ops y = 0 /\
  get_exec_cost y = total hime_ops x /\ get_release y = now /\
  hime_job_deadline (semi_part y) = u64 (now + get_rt_period x).
Proof.
  intros Hp Ha y. pose proof (hime_ad_count _ _ Ha) as Hc. pose proof (hime_ad_total _ _ Ha) as Ht.
  assert (kept hime_ops slice_cpu x y) as K by done.
  assert (forall n, cum hime_ops y n = cum hime_ops x n) as Ecum by (intros n; by apply (cum_kept hime_ops)).
  assert (total hime_ops y = total hime_ops x) as Et by done.
  destruct (hime_slice_total x 0 Hp ltac:(lia) ltac:(lia)) as (s & Hs & Hin). pose proof (hime_ad_slices _ _ Ha s Hin) as [Hmin _].
  assert (cum hime_ops x 1 = hms_budget s) as E1.
  { change 1 with (0 + 1). rewrite (cum_S hime_ops x 0 (hms_budget s)); [done|done|]. simpl. by rewrite Hs. }
  assert (well_sliced hime_ops y) as W.
  { split; [apply Hc|..].
    - intros i Hi. destruct (hime_slice_total x i Hp) as (s' & Hs' & Hin'); [simpl in *; done|lia|].
      exists (hms_budget s'). split; [by simpl; change (hime_slice_at y i) with (hime_slice_at x i); rewrite Hs'|].
      destruct (hime_ad_slices _ _ Ha s' Hin') as [Hb _]. unfold MIN_HIME_SLICE_SIZE in Hb. lia.
    - intros i Hi. destruct (hime_slice_total x i Hp) as (s' & Hs' & _); [simpl in *; done|lia|].
      exists (hms_cpu s'). simpl. change (hime_slice_at y i) with (hime_slice_at x i). by rewrite Hs'.
    - rewrite Et, hime_total_used. apply Hp.
    - rewrite Et. exact Ht. }
  unfold MIN_HIME_SLICE_SIZE in *. split_and!; try done.
  - split; try done.
    + change (0 <= 0 < hime_count_of x). lia.
    + change (cur_slice hime_ops y + 1) with 1. rewrite Ecum. change (get_exec_cost y) with (get_exec_cost x). lia.
    + exact (hime_ad_first _ _ Ha).
  - split; [done|]. change (cur_slice hime_ops y + 1) with 1. rewrite Ecum. change (get_exec_time y) with 0. lia.
Qed.

(** A job whose execution time has reached its budget is over, also when
    overruns used the budget up before the last slice: the next job starts on
    the first slice. *)
Theorem hime_depleted_completes c x :
  slice_inv hime_ops c x -> in_heap x = false -> total hime_ops x <= get_exec_time x ->
  exists y, hime_advance_next_slice false x = Some y /\ slice_inv hime_ops 0 y /\ cur_slice hime_ops y = 0 /\
    get_exec_time y = 0 /\ get_release y = hime_job_deadline (semi_part x).
Proof.
  intros Hi Hh Ht. destruct (advance_over hime_ops false x) as (y & Hy & _ & Hiy & Hc & He & Hs & _); try apply Hi; try done.
  - unfold job_over. simpl. apply orb_true_iff. left. apply Z.leb_le.
    change (cd_job_exec_cost (semi_part x)) with (hime_job_exec_cost (semi_part x)).
    rewrite <- (ws_cost _ _ (si_ws _ _ _ Hi)) in Ht. exact Ht.
  - by exists y.
Qed.

Lemma hime_compute_keeps x y :
  sp_compute hime_ops x = Some y ->
  get_deadline y = get_deadline x /\ hime_job_deadline (semi_part y) = hime_job_deadline (semi_part x).
Proof.
  simpl. unfold hime_compute_slice_params. destruct (hime_slice_at _ _); [|done]. simpl. by intros [= <-].
Qed.

Lemma hime_complete_times x :
  get_deadline (sp_complete hime_ops x) = 0 /\
  hime_job_deadline (semi_part (sp_complete hime_ops x)) = u64 (hime_job_deadline (semi_part x) + get_rt_period x).
Proof. done. Qed.

Lemma hime_set_slice_keeps i x :
  hime_job_deadline (semi_part (on_semi (sp_set_slice hime_ops i) x)) = hime_job_deadline (semi_part x) /\
  get_rt_period (on_semi (sp_set_slice hime_ops i) x) = get_rt_period x.
Proof. done. Qed.

(** From the end of its first job on, a sliced task has deadline 0, that is
    the highest priority EDF knows, while the real deadline is cached. *)
Theorem hime_next_job_first sig x :
  well_sliced hime_ops x -> 0 <= cur_slice hime_ops x < hime_count_of x -> in_heap x = false ->
  job_over hime_ops sig x = true ->
  exists y, hime_advance_next_slice sig x = Some y /\ get_deadline y = 0 /\
    hime_job_deadline (semi_part y) = u64 (hime_job_deadline (semi_part x) + get_rt_period x).
Proof.
  intros W Hc Hh Ho. destruct (advance_over hime_ops sig x W Hc Hh Ho) as (y & Hy & _). exists y. split; [done|].
  unfold advance_next_slice in Hy. rewrite (sliced_count hime_ops x W), Hh in Hy. cbn [negb orb] in Hy.
  rewrite (next_index hime_ops sig x W Hc), Ho in Hy. cbn [Z.eqb] in Hy.
  destruct (hime_compute_keeps _ _ Hy) as [-> ->]. rewrite !(proj1 (hime_complete_times _)), !(proj2 (hime_complete_times _)).
  by destruct (hime_set_slice_keeps 0 x) as [-> ->].
Qed.
