(* ===== verification/Budget.v ===== *)
(** * Budget enforcement

    What the enforcement timer of src/litmus2010/litmus/budget.c guarantees when
    the kernel calls [update_enforcement_timer] for the task it switches to, and
    how it interacts with the budgets of sliced jobs. *)

From S2P Require Import Prelude Task Edf PrioQueue Kernel Sliced SliceInv.
Open Scope Z_scope.

Section Budget.
Context {Q : Type -> Type} {P : Type}.
Abbreviation world := (world Q P).
Implicit Types (w : world) (t : tid) (x : task_struct).

(** The timer of the CPU the code runs on. *)
Definition timer_of w : enforcement_timer := budget_timer w (this_cpu w).

(** [hrtimer_try_to_cancel] of a timer that is armed and not running returns 1. *)
Definition cancels (w : world) (ret : Z) : Prop := armed (timer_of w) = true -> ret = 1.

Lemma get_et_spec w (Φ : enforcement_timer -> world -> Prop) : Φ (timer_of w) w -> wp get_et Φ w.
Proof. done. Qed.

Lemma put_et_timer e w : wp (put_et e) (fun _ w' => timer_of w' = e /\ tasks w' = tasks w) w.
Proof. unfold put_et. wp_steps. split; [|done]. unfold timer_of. simpl. by rewrite upd_eq. Qed.

Lemma cancel_spec ret w :
  cancels w ret -> wp (cancel_enforcement_timer ret) (fun _ w' => armed (timer_of w') = false) w.
Proof.
  intros Hc. unfold cancel_enforcement_timer. wp_steps. apply get_et_spec. apply wp_when.
  destruct (armed (timer_of w)) eqn:E; [|done]. rewrite (Hc E). wp_steps; [done..|].
  eapply wp_mono; [apply put_et_timer|]. by intros _ w' [-> _].
Qed.


(** A sliced job whose earlier slices overran stops the machine.  When the
    execution time reaches the budget of the slices up to the current one (which
    is when the enforcement timer fires), the current slice, counted from its
    late start, is not used up, so the scheduler neither completes the slice nor
    preempts the job; [update_enforcement_timer] then finds the budget exhausted
    and hits the [BUG_ON] of [arm_enforcement_timer]. *)
Theorem overrun_trips_timer (X : slice_plugin) {L : SliceLaws X} ret t w :
  let x := tasks w t in
  slice_inv X 0 x -> budget_precisely_enforced x = true -> is_np x = false ->
  cum X x (cur_slice X x + 1) <= get_exec_time x ->
  get_exec_time x < sp_exec_time X (semi_part x) + (cum X x (cur_slice X x + 1) - cum X x (cur_slice X x)) ->
  sl_budget_exhausted X x = Some false /\ update_enforcement_timer ret (Some t) w = None.
Proof.
  intros x Hi Hb Hnp Hge Hlt. split.
  - unfold sl_budget_exhausted. rewrite (sliced_count X x (si_ws _ _ _ Hi)).
    by destruct (slice_remaining_val X 0 x Hi Hlt).
  - unfold update_enforcement_timer, arm_enforcement_timer, get_task, get_et, gets, mbind, M_bind.
    fold x. rewrite Hb. fold x. unfold budget_exhausted. rewrite (si_cost _ _ _ Hi), Hnp.
    by destruct (Z.leb_spec (0 + cum X x (cur_slice X x + 1)) (get_exec_time x)); [|lia].
Qed.

End Budget.
