(* ===== verification/Examples.v ===== *)
(** * Concrete states

    Small heaps and kernel states on which the theorems of the development are
    instantiated: a heap of three nodes in memory, a machine that runs PSN-EDF
    tasks, and sliced tasks of EDF-WM, C=D and HIME. *)

From stdpp Require Import sorting.
From S2P Require Import Prelude BHeap BinForest BHeapRefine BHeapDelete HeapSpec PrioQueue Task Edf Kernel.
From S2P Require Import Srp RtDomain RtInv EdfDomain Partitioned PsnEdf EdfFm EdfFmSched Sliced SliceInv SliceSched EdfWm Cd Hime Budget.
Open Scope Z_scope.

(** ** A heap in memory *)
Section Heap.

Definition any (_ : Z) : Prop := True.

Lemma any_order : swo_on any Z.ltb.
Proof. split; unfold any; intros; rewrite ?Z.ltb_lt, ?Z.ltb_ge in *; lia. Qed.

Abbreviation ex_order := (BHeapRefine.order Z.ltb).

(** [example_mem] after nodes 4, 2 and 5 were inserted into one heap and node 3
    into another; node 1 is free. *)
Definition ex_insert : M (mem Z) (bheap * bheap) :=
  h ← bheap_insert ex_order bheap_init 4%positive;
  h ← bheap_insert ex_order h 2%positive;
  h ← bheap_insert ex_order h 5%positive;
  h2 ← bheap_insert ex_order bheap_init 3%positive;
  mret (h, h2).
Definition ex_h : bheap := match ex_insert example_mem with Some ((h, _), _) => h | None => bheap_init end.
Definition ex_h2 : bheap := match ex_insert example_mem with Some ((_, h2), _) => h2 | None => bheap_init end.
Definition ex_m : mem Z := match ex_insert example_mem with Some (_, m) => m | None => example_mem end.

Definition ex_cell (k : positive) : positive * Z * positive := (k, Zpos k, k).
Definition ex_item (k : positive) : Z * positive := (Zpos k, k).

Lemma ex_heap : is_heap any Z.ltb ex_m ex_h [ex_item 2; ex_item 4; ex_item 5].
Proof.
  exists (foldl (fh_insert Z.ltb) fh_init [ex_cell 4; ex_cell 2; ex_cell 5]). split_and!.
  - split; [by vm_compute|by vm_compute|vm_compute; by repeat split|vm_compute; intros c E; inversion E|..].
    + apply (bool_decide_unpack _). by vm_compute.
    + split; apply (bool_decide_unpack _); by vm_compute.
    + by vm_compute.
  - split; [|done]. vm_compute. repeat (constructor; try done).
  - split; vm_compute; repeat constructor.
  - vm_compute. solve_Permutation.
Qed.

Lemma ex_heap2 : is_heap any Z.ltb ex_m ex_h2 [ex_item 3].
Proof.
  exists (fh_insert Z.ltb fh_init (ex_cell 3)). split_and!.
  - split; [by vm_compute|by vm_compute|vm_compute; by repeat split|vm_compute; intros c E; inversion E|..].
    + apply (bool_decide_unpack _). by vm_compute.
    + split; apply (bool_decide_unpack _); by vm_compute.
    + by vm_compute.
  - split; [|done]. vm_compute. repeat (constructor; try done).
  - split; vm_compute; repeat constructor.
  - by vm_compute.
Qed.

Lemma insert_heap_witness :
  exists h' m', bheap_insert ex_order ex_h 1%positive ex_m = Some (h', m') /\
    is_heap any Z.ltb m' h' [ex_item 1; ex_item 2; ex_item 4; ex_item 5] /\ vars m' = vars ex_m.
Proof.
  apply (insert_heap any Z.ltb any_order ex_m ex_h _ 1%positive (ex_item 1) ex_heap); [|done].
  split_and!; [by vm_compute| |repeat constructor; by vm_compute].
  exists (mk_node None None None NOT_IN_HEAP 1 1%positive). by vm_compute.
Defined.

Lemma take_heap_witness :
  exists o h' m', bheap_take ex_order ex_h ex_m = Some ((o, h'), m') /\ vars m' = vars ex_m /\
    match o with
    | None => [ex_item 2; ex_item 4; ex_item 5] = [] /\ is_heap any Z.ltb m' h' []
    | Some p => exists i items', [ex_item 2; ex_item 4; ex_item 5] ≡ₚ i :: items' /\ is_heap any Z.ltb m' h' items' /\
        vars m' !! i.2 = Some p /\ detached m' p i /\
        Forall (fun j => (j.1 <? i.1) = false) [ex_item 2; ex_item 4; ex_item 5]
    end.
Proof. exact (take_heap any Z.ltb any_order ex_m ex_h _ ex_heap). Defined.

Lemma peek_heap_witness :
  exists o h' m', bheap_peek ex_order ex_h ex_m = Some ((o, h'), m') /\
    is_heap any Z.ltb m' h' [ex_item 2; ex_item 4; ex_item 5] /\ vars m' = vars ex_m /\
    match o with
    | None => [ex_item 2; ex_item 4; ex_item 5] = []
    | Some p => exists i, i ∈ [ex_item 2; ex_item 4; ex_item 5] /\ vars m' !! i.2 = Some p /\
        Forall (fun j => (j.1 <? i.1) = false) [ex_item 2; ex_item 4; ex_item 5]
    end.
Proof. exact (peek_heap any Z.ltb any_order ex_m ex_h _ ex_heap). Defined.

Lemma union_heap_witness :
  exists h' m', bheap_union ex_order ex_h ex_h2 ex_m = Some ((h', bheap_init), m') /\
    is_heap any Z.ltb m' h' [ex_item 2; ex_item 4; ex_item 5; ex_item 3] /\ vars m' = vars ex_m.
Proof.
  apply (union_heap any Z.ltb any_order ex_m ex_h ex_h2 _ _ ex_heap ex_heap2).
  repeat constructor; by vm_compute.
Defined.

Lemma delete_heap_witness :
  exists h' m' items' p', bheap_delete ex_order ex_h 4%positive ex_m = Some (h', m') /\
    [ex_item 2; ex_item 4; ex_item 5] ≡ₚ ex_item 4 :: items' /\
    is_heap any Z.ltb m' h' items' /\ vars m' !! 4%positive = Some p' /\ detached m' p' (ex_item 4) /\
    (forall r, r ∉ snd <$> [ex_item 2; ex_item 4; ex_item 5] -> vars m' !! r = vars ex_m !! r).
Proof.
  apply (delete_heap any Z.ltb any_order ex_m ex_h _ (ex_item 4) 4%positive ex_heap); [|by vm_compute].
  right. left.
Defined.

End Heap.

(** Times are in range for tasks 1 and 2, the only real-time tasks. *)
Ltac time_tac :=
  split; [split; [by vm_compute|repeat constructor]|];
  intros [[p|p|]|[p|p|]|]; vm_compute; intros Hrt; try done; by inversion Hrt.

(** ** A machine that runs PSN-EDF *)
Section Psn.

Definition ex_params (cpu : Z) : rt_task :=
  mk_rt_task 1000000 10000000 0 cpu RT_CLASS_HARD PRECISE_ENFORCEMENT (mk_fm (0, 0) 0 ((0, 0), (0, 0))) 0
    (mk_wm [] 0) (mk_hime [] 0) (mk_cd [] 0).

(** Tasks 1 and 2 are real-time tasks of CPU 0. *)
Definition ex_tasks (t : tid) : task_struct :=
  mk_task (Zpos t) (match t with 1%positive | 2%positive => true | _ => false end) true false false 0 0 0 false false
    (ex_params 0) (mk_rt_job 0 0 0 0) None 0 NO_CPU NO_CPU 0 false None (mk_semi 0 0 0 0 0 0).

(** Nothing is queued, no CPU runs a real-time task, and the time is 1000. *)
Definition ex_world (T : tid -> task_struct) : world fheap pstate :=
  mk_world T (fun _ => mk_rt_domain pq_init (fun _ => []) [] NO_CPU) (fun _ => mk_release_heap 0 pq_init None 0)
    1000 [] 0 (fun _ => 3%positive) [] (fun _ => mk_et false 0) 1000000 (fun c => mk_pcpu c None).

Lemma ex_blank : psn_blank (ex_world ex_tasks).
Proof. split; try done. intros a b E. by injection E. Qed.

Definition run_call (c : psn_call) (w : world fheap pstate) : world fheap pstate :=
  match psn_exec c w with Some (_, w') => w' | None => w end.

Lemma run_call_ok c (w : world fheap pstate) :
  psn_inv w -> time_ok w -> psn_pre c w -> psn_exec c w = Some (tt, run_call c w) /\ psn_inv (run_call c w).
Proof.
  intros Hi Ht Hp. pose proof (psn_call_ok c w Hi Ht Hp) as Hc. apply wp_run in Hc as ([] & w' & E & Hi').
  unfold run_call. by rewrite E.
Qed.

(** Task 1 runs on CPU 0 and task 2 is ready there. *)
Definition ex_w1 : world fheap pstate := run_call (CTaskNew 1%positive false true) (ex_world ex_tasks).
Definition ex_w2 : world fheap pstate := run_call (CTaskNew 2%positive false false) ex_w1.

Lemma ex_time_0 : time_ok (ex_world ex_tasks).
Proof. time_tac. Qed.

Lemma ex_time_1 : time_ok ex_w1.
Proof. time_tac. Qed.

Lemma ex_time_2 : time_ok ex_w2.
Proof. time_tac. Qed.

Lemma ex_pre_1 : psn_pre (CTaskNew 1%positive false true) (ex_world ex_tasks).
Proof. by split_and!. Qed.

Lemma ex_step_1 :
  psn_exec (CTaskNew 1%positive false true) (ex_world ex_tasks) = Some (tt, ex_w1) /\ psn_inv ex_w1.
Proof. apply run_call_ok; [apply psn_blank_ok, ex_blank|apply ex_time_0|apply ex_pre_1]. Qed.

Lemma ex_pre_2 : psn_pre (CTaskNew 2%positive false false) ex_w1.
Proof.
  split_and!; [by vm_compute|by vm_compute| |intros E; discriminate E]. intros [|p|p]; by vm_compute.
Qed.

Lemma ex_step_2 : psn_exec (CTaskNew 2%positive false false) ex_w1 = Some (tt, ex_w2) /\ psn_inv ex_w2.
Proof. exact (run_call_ok _ ex_w1 (proj2 ex_step_1) ex_time_1 ex_pre_2). Qed.

Lemma ex_reaches_2 : rtc psn_step (ex_world ex_tasks) ex_w2.
Proof.
  apply (rtc_l _ _ ex_w1).
  - exact (psn_step_call _ _ _ ex_time_0 ex_pre_1 (proj1 ex_step_1)).
  - apply rtc_once. exact (psn_step_call _ _ _ ex_time_1 ex_pre_2 (proj1 ex_step_2)).
Qed.

Lemma psnedf_schedule_witness :
  wp (psnedf_schedule 1%positive) (scheduled_well ex_w2) ex_w2.
Proof.
  apply psnedf_schedule_correct; [apply ex_step_2|apply ex_time_2|].
  intros t. vm_compute. by intros [= <-].
Defined.

Lemma psn_reachable_witness : psn_inv ex_w2.
Proof. exact (psn_reachable_inv (ex_world ex_tasks) ex_w2 ex_blank ex_reaches_2). Defined.


(** Task 1 finishes its job and is scheduled out: it waits for its next release. *)
Definition ex_w3 : world fheap pstate :=
  set_tasks (upd (tasks ex_w2) 1%positive (complete_job (tasks ex_w2 1%positive))) ex_w2.
Definition ex_w4 : world fheap pstate := run_call (CSchedule 1%positive) ex_w3.

Lemma complete_env t (w : world fheap pstate) :
  psn_inv w -> psn_env w (set_tasks (upd (tasks w) t (complete_job (tasks w t))) w).
Proof.
  intros Hi. pose proof (pi_inh _ _ (psn_pinv _ Hi)) as Hn. split; try done; simpl; unfold upd.
  - intros x. case_decide; subst; split_and!; try done; apply Hn.
  - intros x. by case_decide; subst.
  - intros c x. by case_decide; subst.
Qed.

Lemma ex_step_4 : psn_inv ex_w4.
Proof.
  apply run_call_ok.
  - exact (psn_env_ok _ _ (proj2 ex_step_2) (complete_env _ _ (proj2 ex_step_2))).
  - time_tac.
  - intros t. vm_compute. by intros [= <-].
Qed.

Lemma psnedf_exit_waiting_witness : psnedf_task_exit 1%positive ex_w4 = None.
Proof.
  apply (psnedf_exit_waiting_faults 1%positive 0 1%positive ex_w4 ex_step_4).
  vm_compute. split_and!; [by eexists|done|left].
Defined.

End Psn.

(** ** Sliced tasks *)
Section Sliced.

(** Two slices of 60 us, on CPUs 0 and 1, in an array of 24. *)
Definition ex_wm : edf_wm_params :=
  mk_wm ([mk_wm_slice 0 5000000 60000 0; mk_wm_slice 1 10000000 60000 5000000] ++ replicate 22 (mk_wm_slice 0 0 0 0)) 2.
Definition ex_cd : cd_params :=
  mk_cd ([mk_cd_slice 0 60000 60000; mk_cd_slice 1 10000000 60000] ++ replicate 22 (mk_cd_slice 0 0 0)) 2.
Definition ex_hime : hime_params :=
  mk_hime ([mk_hime_slice 0 60000; mk_hime_slice 1 60000] ++ replicate 22 (mk_hime_slice 0 0)) 2.

(** A task with these slices: its [exec_cost], its CPU, how long its job has
    executed, and the state of the plugin. *)
Definition ex_sliced (cost c exec : Z) (s : semi_part_t) : task_struct :=
  mk_task 1 true true false false 0 0 0 false false
    (mk_rt_task cost 10000000 0 c RT_CLASS_HARD PRECISE_ENFORCEMENT (mk_fm (0, 0) 0 ((0, 0), (0, 0))) 0 ex_wm ex_hime ex_cd)
    (mk_rt_job 1000 5001000 exec 3) None 0 NO_CPU NO_CPU 0 false None s.

(** The state of EDF-WM, and of C=D and HIME: reference time, current slice. *)
Definition ex_wm_state (ref cur : Z) : semi_part_t := mk_semi ref 40000 1000 10001000 120000 cur.
Definition ex_cd_state (ref cur : Z) : semi_part_t := mk_semi ref 40000 10001000 120000 cur 0.

Lemma two_slices (i : Z) : 0 <= i < 2 -> i = 0 \/ i = 1.
Proof. lia. Qed.

Ltac sliced_tac :=
  split; [by vm_compute|intros i [-> | ->]%two_slices; eexists; by vm_compute
    |intros i [-> | ->]%two_slices; eexists; by vm_compute|by vm_compute|by vm_compute].

Lemma ex_wm_sliced cost c exec ref cur : well_sliced wm_ops (ex_sliced cost c exec (ex_wm_state ref cur)).
Proof. sliced_tac. Qed.
Lemma ex_cd_sliced cost c exec ref cur : well_sliced cd_ops (ex_sliced cost c exec (ex_cd_state ref cur)).
Proof. sliced_tac. Qed.
Lemma ex_hime_sliced cost c exec ref cur : well_sliced hime_ops (ex_sliced cost c exec (ex_cd_state ref cur)).
Proof. sliced_tac. Qed.

Ltac inv_tac L := split; [apply L|by vm_compute..].

(** A job that has used up its first slice. *)
Definition ex_wm_late : task_struct := ex_sliced 60000 0 70000 (ex_wm_state 0 0).
Lemma ex_wm_late_inv : slice_inv wm_ops 0 ex_wm_late.
Proof. inv_tac ex_wm_sliced. Qed.

Lemma advance_witness :
  exists y, advance_next_slice wm_ops false ex_wm_late = Some y /\ slice_inv wm_ops 0 y /\ cur_slice wm_ops y = 1 /\
    get_exec_time y = 70000.
Proof.
  destruct (advance_correct wm_ops 0 false ex_wm_late ex_wm_late_inv) as (y & Hy & _ & Hp);
    [by vm_compute|by vm_compute|done|by right|].
  exists y. split; [done|]. replace (job_over wm_ops false ex_wm_late) with false in Hp by (by vm_compute).
  destruct Hp as (Hi & Hc & He & _). done.
Defined.

Lemma release_witness :
  exists y, cd_release_at 20000000 (ex_sliced 60000 0 0 (ex_cd_state 0 0)) = Some y /\ slice_inv cd_ops 0 y /\
    get_release y = 20000000.
Proof.
  destruct (sl_release_at_correct cd_ops 20000000 (ex_sliced 60000 0 0 (ex_cd_state 0 0))) as (y & Hy & Hi & _ & _ & Hs & _);
    [apply ex_cd_sliced|done|]. by exists y.
Defined.

(** A job in its first slice that has executed for 10 us. *)
Definition ex_cd_early : task_struct := ex_sliced 60000 0 10000 (ex_cd_state 0 0).
Lemma ex_cd_early_inv : slice_inv cd_ops 0 ex_cd_early.
Proof. inv_tac ex_cd_sliced. Qed.

Lemma fast_forward_stays_witness :
  fast_forward_slices cd_ops 20000 ex_cd_early =
    Some (on_job (fun j => set_exec_time (u64 (exec_time j + 20000)) j) ex_cd_early).
Proof. apply (fast_forward_stays cd_ops ex_cd_early 20000 ex_cd_early_inv). by vm_compute. Defined.

Lemma long_sleep_witness : account_sleep cd_ops 140000 ex_cd_early = Some ex_cd_early.
Proof. apply (long_sleep_ignored cd_ops ex_cd_early 140000 ex_cd_early_inv); by vm_compute. Defined.

(** The same in the first job. *)
Definition ex_cd_first : task_struct := ex_sliced 120000 0 10000 (ex_cd_state 0 0).
Lemma ex_cd_first_inv : slice_inv cd_ops 60000 ex_cd_first.
Proof. inv_tac ex_cd_sliced. Qed.

Lemma fast_forward_first_witness :
  exists y, fast_forward_slices cd_ops 70000 ex_cd_first = Some y /\ get_exec_time y = 80000 /\ cum cd_ops ex_cd_first (cur_slice cd_ops y) <= 80000.
Proof.
  destruct (fast_forward_first_job cd_ops ex_cd_first 60000 70000 ex_cd_first_inv) as (y & Hy & _ & He & Hc & _);
    [by vm_compute..|]. exists y. split; [done|]. split; [done|]. apply Hc.
Defined.

(** The task as user space passes it to the admission test. *)
Definition ex_new : task_struct := ex_sliced 120000 0 0 (mk_semi 0 0 0 0 0 0).

Ltac params_tac := split; [done|done|repeat (constructor; [by vm_compute|]); constructor|by vm_compute].
Ltac admissible_tac :=
  split; [done|by vm_compute|done|by vm_compute| | |done];
  [intros s Hs; match type of Hs with _ ∈ ?l => let l' := eval vm_compute in l in change (s ∈ l') in Hs end; rewrite !elem_of_cons, elem_of_nil in Hs;
   destruct Hs as [-> |[-> |[]]]; by vm_compute
  |intros [|[|k]] a b; vm_compute; [by intros [= <-] [= <-]|by intros _ E|by intros E]].

Lemma ex_wm_params : wm_params_ok ex_new.
Proof. params_tac. Qed.
Lemma ex_wm_admissible : wm_admissible (fun c => c <? 2) ex_new.
Proof. admissible_tac. Qed.
Lemma ex_cd_params : cd_params_ok ex_new.
Proof. params_tac. Qed.
Lemma ex_cd_admissible : cd_admissible (fun c => c <? 2) ex_new.
Proof. admissible_tac. Qed.
Lemma ex_hime_params : hime_params_ok ex_new.
Proof. params_tac. Qed.
Lemma ex_hime_admissible : hime_admissible (fun c => c <? 2) ex_new.
Proof. admissible_tac. Qed.

Lemma wm_admit_witness : wm_admit_task (fun c => c <? 2) ex_new = 0.
Proof. apply (wm_admit_iff (fun c => c <? 2) ex_new ex_wm_params); [done|]. apply ex_wm_admissible. Defined.

Lemma wm_first_job_witness : slice_inv wm_ops 60000 (wm_task_new_params (release_at 7000 ex_new)).
Proof.
  destruct (wm_first_job (fun c => c <? 2) ex_new 7000 ex_wm_params ex_wm_admissible) as (Hi & _).
  replace 60000 with (total wm_ops ex_new - cum wm_ops ex_new 1) by (by vm_compute). exact Hi.
Defined.

Lemma cd_admit_witness : cd_admit_task (fun c => c <? 2) ex_new = 0.
Proof. apply (cd_admit_iff (fun c => c <? 2) ex_new ex_cd_params); [done|]. apply ex_cd_admissible. Defined.

Lemma cd_first_job_witness : slice_inv cd_ops 60000 (cd_task_new_params (release_at 7000 ex_new)).
Proof.
  destruct (cd_first_job (fun c => c <? 2) ex_new 7000 ex_cd_params ex_cd_admissible) as (Hi & _).
  replace 60000 with (total cd_ops ex_new - cum cd_ops ex_new 1) by (by vm_compute). exact Hi.
Defined.

Lemma hime_admit_witness : hime_admit_task (fun c => c <? 2) ex_new = 0.
Proof. apply (hime_admit_iff (fun c => c <? 2) ex_new ex_hime_params); [done|]. apply ex_hime_admissible. Defined.

Lemma hime_first_job_witness : slice_inv hime_ops 60000 (hime_task_new_params (release_at 7000 ex_new)).
Proof.
  destruct (hime_first_job (fun c => c <? 2) ex_new 7000 ex_hime_params ex_hime_admissible) as (Hi & _).
  replace 60000 with (total hime_ops ex_new - cum hime_ops ex_new 1) by (by vm_compute). exact Hi.
Defined.

Lemma wm_slice_times_witness :
  exists y, wm_compute_slice_params (ex_sliced 60000 0 0 (ex_wm_state 0 1)) = Some y /\
    get_release y = 1000 + 5000000 /\ get_deadline y = 1000 + 10000000 /\ get_partition y = 1.
Proof.
  exact (wm_slice_times (ex_sliced 60000 0 0 (ex_wm_state 0 1)) (mk_wm_slice 1 10000000 60000 5000000)
    ltac:(done) ltac:(done) ltac:(done) ltac:(done)).
Defined.

Lemma cd_slice_times_witness :
  exists y, cd_compute_slice_params (ex_sliced 60000 0 0 (ex_cd_state 0 1)) = Some y /\
    get_release y = 1000 /\ get_deadline y = 1000 + 10000000 /\ get_partition y = 1.
Proof.
  exact (cd_slice_times (ex_sliced 60000 0 0 (ex_cd_state 0 1)) (mk_cd_slice 1 10000000 60000)
    ltac:(done) ltac:(done) ltac:(done) ltac:(done)).
Defined.

(** A job that has executed for more than its budget of 120 us. *)
Lemma wm_past_budget_witness :
  exists y, wm_advance_next_slice false (ex_sliced 60000 0 130000 (ex_wm_state 0 0)) = Some y /\
    cur_slice wm_ops y = 0 + 1 /\ get_exec_time y = 130000 /\ Some 1 = Some (get_partition y).
Proof.
  apply (wm_advance_past_budget 0 (ex_sliced 60000 0 130000 (ex_wm_state 0 0))); [inv_tac ex_wm_sliced|done|by vm_compute..].
Defined.

Lemma cd_depleted_witness :
  exists y, cd_advance_next_slice false (ex_sliced 60000 0 130000 (ex_cd_state 0 0)) = Some y /\
    slice_inv cd_ops 0 y /\ cur_slice cd_ops y = 0 /\ get_exec_time y = 0 /\ get_release y = 10001000.
Proof.
  apply (cd_depleted_completes 0 (ex_sliced 60000 0 130000 (ex_cd_state 0 0))); [inv_tac ex_cd_sliced|done|by vm_compute].
Defined.

Lemma hime_depleted_witness :
  exists y, hime_advance_next_slice false (ex_sliced 60000 0 130000 (ex_cd_state 0 0)) = Some y /\
    slice_inv hime_ops 0 y /\ cur_slice hime_ops y = 0 /\ get_exec_time y = 0 /\ get_release y = 10001000.
Proof.
  apply (hime_depleted_completes 0 (ex_sliced 60000 0 130000 (ex_cd_state 0 0))); [inv_tac ex_hime_sliced|done|by vm_compute].
Defined.

Lemma hime_next_job_witness :
  exists y, hime_advance_next_slice true (ex_sliced 60000 0 20000 (ex_cd_state 0 0)) = Some y /\ get_deadline y = 0 /\
    hime_job_deadline (semi_part y) = u64 (10001000 + 10000000).
Proof.
  apply (hime_next_job_first true (ex_sliced 60000 0 20000 (ex_cd_state 0 0))); [apply ex_hime_sliced|by vm_compute|done|done].
Defined.

(** CPU 0 runs a sliced task whose first slice is used up. *)
Definition ex_sl_tasks (t : tid) : task_struct :=
  if decide (t = 1%positive) then ex_wm_late else set_policy_litmus false (ex_tasks t).
Definition ex_sl_world : world fheap pstate :=
  set_plugin (upd (plugin (ex_world ex_sl_tasks)) 0 (mk_pcpu 0 (Some 1%positive))) (ex_world ex_sl_tasks).

Lemma ex_sl_blank : psn_blank (ex_world ex_sl_tasks).
Proof.
  split; try done; unfold ex_sl_tasks; simpl.
  - intros a b. simpl. repeat case_decide; subst; simpl; intros E; [done|by injection E as <-|by injection E as ->|by injection E].
  - intros x. simpl. by case_decide.
  - intros x. simpl. by case_decide.
Qed.

Lemma ex_sl_inv : pinv ex_sl_world.
Proof. exact (psn_pinv _ (psn_run 0 1%positive _ (psn_blank_ok _ ex_sl_blank) eq_refl eq_refl eq_refl ltac:(done))). Qed.

Lemma ex_sl_job : job_ok wm_ops ex_wm_late.
Proof.
  apply (job_ok_sliced _ _ 0 ex_wm_late_inv); [done|by vm_compute|by vm_compute|].
  intros sig y Hy. destruct sig; vm_compute in Hy; injection Hy as <-; split; by vm_compute.
Qed.

Lemma sl_schedule_witness : wp (wm_schedule 1%positive) (sl_scheduled wm_ops ex_sl_world) ex_sl_world.
Proof.
  apply (sl_schedule_correct wm_ops 1%positive ex_sl_world ex_sl_inv).
  - split; [done|constructor].
  - by vm_compute.
  - intros t Ht. vm_compute in Ht. injection Ht as <-. split; [done|]. exact ex_sl_job.
Defined.


(** The second slice started 10 us late and has executed for 55 of its 60 us. *)
Definition ex_overrun : task_struct := ex_sliced 120000 1 125000 (ex_wm_state 70000 1).
Lemma overrun_witness :
  update_enforcement_timer 1 (Some 1%positive) (ex_world (fun _ => ex_overrun)) = None.
Proof.
  apply (overrun_trips_timer wm_ops 1 1%positive (ex_world (fun _ => ex_overrun))); [|done|done|by vm_compute..].
  inv_tac ex_wm_sliced.
Defined.

End Sliced.

(** ** Two tasks that share an SRP semaphore *)
Section SrpExample.

Abbreviation ex_cpu := (get_partition (ex_tasks 1%positive)).
Abbreviation srp_st x st := (match x st with Some (_, st') => st' | None => st end).

Definition ex_srp1 : srp_state := srp_st (create_srp_semaphore (Some 7%positive)) srp_init.
Definition ex_srp2 : srp_state := srp_st (open_srp_semaphore ex_tasks true 1%positive 7%positive) ex_srp1.
Definition ex_srp3 : srp_state := srp_st (open_srp_semaphore ex_tasks true 2%positive 7%positive) ex_srp2.
Definition ex_srp4 : srp_state := srp_st (sys_srp_down 2%positive ex_cpu (Some 7%positive)) ex_srp3.
Definition ex_srp5 : srp_state := srp_st (srp_ceiling_block ex_tasks 1%positive ex_cpu) ex_srp4.

Lemma ex_srp_task t : t = 1%positive \/ t = 2%positive -> srp_task ex_tasks ex_cpu t.
Proof. intros [->| ->]; by vm_compute. Qed.

(** Task 2 runs and both tasks have opened semaphore 7. *)
Definition ex_srp_open : srp_world :=
  mk_sw ex_srp3 (Some 2%positive) [(2%positive, 7%positive); (1%positive, 7%positive)].

Lemma ex_srp_opened : srp_reachable ex_tasks ex_cpu ex_srp_open.
Proof.
  eapply rtc_l; [by apply (sw_create _ _ _ ex_srp1 _ _ 7%positive)|].
  eapply rtc_l; [apply (sw_dispatch _ _ _ ex_srp1 _ _ 1%positive true); [apply ex_srp_task; by left|by vm_compute]|].
  eapply rtc_l; [apply (sw_open _ _ _ ex_srp2 _ _ 7%positive); [by eexists|by vm_compute]|].
  eapply rtc_l; [apply (sw_dispatch _ _ _ ex_srp2 _ _ 2%positive true); [apply ex_srp_task; by right|by vm_compute]|].
  eapply rtc_l; [apply (sw_open _ _ _ ex_srp3 _ _ 7%positive); [by eexists|by vm_compute]|].
  done.
Qed.


(** Task 2 holds the semaphore and runs again after task 1 was blocked. *)
Definition ex_srp_blocked : srp_world :=
  mk_sw ex_srp5 (Some 2%positive) [(2%positive, 7%positive); (1%positive, 7%positive)].

Lemma ex_srp_waits : srp_reachable ex_tasks ex_cpu ex_srp_blocked.
Proof.
  unfold srp_reachable. etrans; [exact ex_srp_opened|].
  eapply rtc_l; [apply (sw_down _ _ _ ex_srp4 _ _ 7%positive 0); [left|by intros (? & [= <-] & [=])|by vm_compute]|].
  eapply rtc_l; [apply (sw_dispatch _ _ _ ex_srp5 _ _ 1%positive false); [apply ex_srp_task; by left|by vm_compute]|].
  eapply rtc_l; [apply (sw_dispatch _ _ _ ex_srp5 _ _ 2%positive true); [apply ex_srp_task; by right|by vm_compute]|].
  done.
Qed.

Lemma srp_system_ceiling_witness : NoDup (ceilings (srp_of ex_srp5 ex_cpu)).
Proof. exact (proj1 (srp_system_ceiling ex_tasks ex_cpu ex_srp_blocked ex_srp_waits)). Defined.

Lemma srp_up_wakes_witness :
  wp (sys_srp_up ex_tasks ex_cpu (Some 7%positive)) (fun ret st' => ret = 0 /\ unheld st' 7%positive /\
    forall u, u ∈ [1%positive] -> get_partition (ex_tasks u) = ex_cpu ->
      passes ex_tasks ex_cpu st' u -> u ∈ woken st') ex_srp5.
Proof.
  apply (srp_up_wakes ex_tasks ex_cpu ex_srp_blocked 2%positive 7%positive ex_srp_waits eq_refl).
  eexists. by split; [vm_compute|].
Defined.

End SrpExample.

(** ** EDF-fm tasks *)
Section Fm.

(** A migratory task of CPUs 0 and 1 with shares [n0/d] and [n1/d], on CPU [cpu],
    executing job [j], with [c0] and [c1] jobs counted. *)
Definition ex_fm_task (d n0 n1 c0 c1 j cpu : Z) : task_struct :=
  mk_task 2 true true false false 0 0 0 false false
    (mk_rt_task 1000000 10000000 0 cpu RT_CLASS_HARD PRECISE_ENFORCEMENT (mk_fm (0, 1) 1 ((n0, n1), (d, d))) 0
       (mk_wm [] 0) (mk_hime [] 0) (mk_cd [] 0))
    (mk_rt_job 0 10000000 0 j) None 0 NO_CPU NO_CPU 0 false None (mk_semi (c0 + c1 * two32) 0 0 0 0 0).


(** Shares 3/5 and 2/5: the second job after the release moves to CPU 1, and a
    hundred jobs later the task is still there. *)
Lemma fm_never_returns_witness :
  (exists t, fm_jobs 2 (ex_fm_task 5 3 2 1 0 2 0) = Some t /\ get_partition t = 1 /\ job_no (job_params t) = 4) /\
  exists t', fm_jobs 100 (ex_fm_task 5 3 2 2 1 4 1) = Some t' /\ get_partition t' = 1.
Proof.
  split; [eexists; split_and!; [by vm_compute|done|done]|].
  apply (fm_never_returns 0 1 3 5 2 5 2 1 4); try done; by vm_compute.
Defined.


(** Task 1 is fixed, task 2 is migratory; both become ready on an idle CPU 0. *)
Definition ex_fm_tasks (t : tid) : task_struct :=
  match t with
  | 2%positive => ex_fm_task 3 2 1 0 0 0 0
  | _ => ex_tasks t
  end.
Definition ex_fm_w1 : world fheap pstate := run_call (CTaskNew 1%positive false false) (ex_world ex_fm_tasks).
Definition ex_fm_w2 : world fheap pstate := run_call (CTaskNew 2%positive false false) ex_fm_w1.

Lemma ex_fm_inv : psn_inv ex_fm_w2.
Proof.
  assert (psn_blank (ex_world ex_fm_tasks)) as Hb.
  { split; try done.
    - assert (forall a, pid (ex_fm_tasks a) = Zpos a) as Hp by (by intros [|[]|]).
      intros a b. simpl. rewrite !Hp. by intros [= ->].
    - by intros [|[]|].
    - by intros [|[]|]. }
  assert (psn_inv ex_fm_w1) as H1.
  { apply run_call_ok; [by apply psn_blank_ok|time_tac|by split_and!]. }
  apply (run_call_ok (CTaskNew 2%positive false false) ex_fm_w1 H1); [time_tac|].
  split_and!; [by vm_compute|by vm_compute| |intros E; discriminate E]. intros [|p|p]; by vm_compute.
Qed.

Lemma fm_migratory_waits_witness :
  edffm_higher_prio (tasks ex_fm_w2) (Some 2%positive) (Some 1%positive) = true /\
  wp (edffm_schedule 3%positive) (fun next w' => exists n, next = Some n /\ n <> 2%positive) ex_fm_w2.
Proof.
  apply (fm_migratory_waits 3%positive ex_fm_w2 2%positive 1%positive (psn_pinv _ ex_fm_inv)).
  - intros E. vm_compute in E. discriminate E.
  - by vm_compute.
  - apply (bool_decide_unpack _). by vm_compute.
  - apply (bool_decide_unpack _). by vm_compute.
  - by vm_compute.
  - by vm_compute.
  - by vm_compute.
Defined.

End Fm.
