(* ===== verification/Syscalls.v ===== *)
(** * Admission, system calls and plugin switching

    litmus/litmus.c, the plugin registry of litmus/sched_plugin.c, the control
    page of litmus/ctrldev.c, and the places of the Linux kernel that call them:
    [__sched_setscheduler] (kernel/sched.c) and [dup_task_struct] (kernel/fork.c).
    The state is what these functions share: the tasks with the memory they own,
    the number of real-time tasks, the active plugin and the registered ones.
    What a plugin does with a task is in the files of the plugins; here a plugin
    is its name and its admission test.

    The theorems are about every state reached by any sequence of these calls:
    a real-time task owns its heap node, its release heap and its control page
    alone, [rt_task_count] is the number of real-time tasks, and each of them
    passed the admission test of the plugin that is active now. *)
From stdpp Require Import strings.
From S2P Require Import Prelude Task.
Local Open Scope Z_scope.

(** A task with the addresses of what is allocated for it ([None]: NULL). *)
Record ltask := mk_ltask {
  tsk : task_struct;
  heap_node : option positive;
  rel_heap : option positive;
  ctrl_addr : option positive }.

Record sched_plugin := mk_plugin { plugin_name : string; admit_task : task_struct -> Z }.

Record lstate := mk_lstate {
  ltasks : gmap tid ltask;
  nodes : gset positive;            (* allocated heap nodes *)
  rels : gset positive;             (* allocated release heaps *)
  pages : gset positive;            (* allocated control pages *)
  rt_task_count : Z;
  litmus : sched_plugin;
  sched_plugins : list sched_plugin }.

Definition set_ltasks v s := mk_lstate v (nodes s) (rels s) (pages s) (rt_task_count s) (litmus s) (sched_plugins s).
Definition set_nodes v s := mk_lstate (ltasks s) v (rels s) (pages s) (rt_task_count s) (litmus s) (sched_plugins s).
Definition set_rels v s := mk_lstate (ltasks s) (nodes s) v (pages s) (rt_task_count s) (litmus s) (sched_plugins s).
Definition set_pages v s := mk_lstate (ltasks s) (nodes s) (rels s) v (rt_task_count s) (litmus s) (sched_plugins s).
Definition set_count v s := mk_lstate (ltasks s) (nodes s) (rels s) (pages s) v (litmus s) (sched_plugins s).
Definition set_litmus v s := mk_lstate (ltasks s) (nodes s) (rels s) (pages s) (rt_task_count s) v (sched_plugins s).
Definition set_plugins v s := mk_lstate (ltasks s) (nodes s) (rels s) (pages s) (rt_task_count s) (litmus s) v.

Definition set_tsk v x := mk_ltask v (heap_node x) (rel_heap x) (ctrl_addr x).
Definition set_heaps h r x := mk_ltask (tsk x) h r (ctrl_addr x).
Definition set_ctrl_addr v x := mk_ltask (tsk x) (heap_node x) (rel_heap x) v.

Abbreviation K := (M lstate).

Definition get_lt (t : tid) : K ltask := x ← gets (fun s => ltasks s !! t); of_option x.
Definition put_lt (t : tid) (x : ltask) : K unit := modify (fun s => set_ltasks (<[t := x]> (ltasks s)) s).

(** ** The allocators

    An allocator returns an address or NULL.  Freeing follows the pointer
    ([release_heap_free] first cancels the timer inside the heap), so NULL
    faults, and so does an address that is not allocated. *)
Definition add_addr (p : option positive) (l : gset positive) : gset positive :=
  match p with Some p => {[p]} ∪ l | None => l end.

Definition heap_node_free (p : option positive) : K unit :=
  p ← of_option p; l ← gets nodes; BUG_ON (bool_decide (p ∉ l));; modify (set_nodes (l ∖ {[p]})).
Definition release_heap_free (p : option positive) : K unit :=
  p ← of_option p; l ← gets rels; BUG_ON (bool_decide (p ∉ l));; modify (set_rels (l ∖ {[p]})).
Definition free_page (p : positive) : K unit :=
  l ← gets pages; BUG_ON (bool_decide (p ∉ l));; modify (set_pages (l ∖ {[p]})).

(** [pg] is what [get_zeroed_page] returns. *)
Definition alloc_ctrl_page (t : tid) (pg : option positive) : K Z :=
  x ← get_lt t;
  match ctrl_addr x with
  | Some _ => mret 0
  | None =>
      modify (fun s => set_pages (add_addr pg (pages s)) s);;
      put_lt t (set_ctrl_addr pg (set_tsk (set_ctrl_page ((fun _ => mk_ctrl false false) <$> pg) (tsk x)) x));;
      mret (match pg with Some _ => 0 | None => - ENOMEM end)
  end.

(** ** The plugin registry *)

(** The Linux plugin rejects every task. *)
Definition litmus_dummy_admit_task (_ : task_struct) : Z := - EINVAL.
Definition linux_sched_plugin : sched_plugin := mk_plugin "Linux" litmus_dummy_admit_task.

(** A plugin without an admission test gets the dummy one. *)
Definition register_sched_plugin (name : string) (test : option (task_struct -> Z)) : K Z :=
  modify (fun s => set_plugins (mk_plugin name (default litmus_dummy_admit_task test) :: sched_plugins s) s);;
  mret 0.

Fixpoint find_in (name : string) (l : list sched_plugin) : option sched_plugin :=
  match l with
  | [] => None
  | p :: l => if String.eqb (plugin_name p) name then Some p else find_in name l
  end.
Definition find_sched_plugin (name : string) : K (option sched_plugin) :=
  l ← gets sched_plugins; mret (find_in name l).

(** ** System calls *)
Section Calls.
Context (cpu_online : Z -> bool) (find_task_by_vpid : Z -> option tid).

(** The values of [budget_policy] user space may pass. *)
Definition budget_policy_of (v : Z) : option budget_policy_t :=
  if v =? 0 then Some NO_ENFORCEMENT else if v =? 1 then Some QUANTUM_ENFORCEMENT
  else if v =? 2 then Some PRECISE_ENFORCEMENT else None.

(** The structure in user memory: its budget policy is any number. *)
Record user_param := mk_user { up_task : rt_task; up_policy : Z }.

(** [param] is NULL, or [copy_from_user] fails on it, or it is read. *)
Definition sys_set_rt_task_param (pid : Z) (param : option (option user_param)) : K Z :=
  match param with
  | None => mret (- EINVAL)
  | Some up =>
      if pid <? 0 then mret (- EINVAL)
      else
        match up with
        | None => mret (- EFAULT)
        | Some up =>
            let tp := up_task up in
            match find_task_by_vpid pid with
            | None => mret (- ESRCH)
            | Some target =>
                x ← get_lt target;
                if is_realtime (tsk x) then mret (- EBUSY)
                else if exec_cost tp <=? 0 then mret (- EINVAL)
                else if period tp <=? 0 then mret (- EINVAL)
                else if negb (cpu_online (cpu tp)) then mret (- EINVAL)
                else if period tp <? exec_cost tp then mret (- EINVAL)
                else
                  match budget_policy_of (up_policy up) with
                  | None => mret (- EINVAL)
                  | Some pol =>
                      put_lt target (set_tsk (on_params (fun _ => set_budget_policy pol tp) (tsk x)) x);;
                      mret 0
                  end
            end
        end
  end.

(** With the parameters that reach user space; [faults]: [copy_to_user] fails. *)
Definition sys_get_rt_task_param (pid : Z) (param_null faults : bool) : K (Z * option rt_task) :=
  if param_null || (pid <? 0) then mret (- EINVAL, None)
  else
    match find_task_by_vpid pid with
    | None => mret (- ESRCH, None)
    | Some source =>
        x ← get_lt source;
        mret (if faults then (- EFAULT, None) else (0, Some (task_params (tsk x))))
    end.

(** ** Becoming and ceasing to be a real-time task *)

(** [memset(&p->rt_param, 0, sizeof(p->rt_param))] *)
Definition clear_rt_param (x : task_struct) : task_struct :=
  mk_task (pid x) (policy_litmus x) (state_running x) (preempt_active x) (need_resched x) (task_cpu x)
    (time_slice x) 0 false false
    (mk_rt_task 0 0 0 0 RT_CLASS_HARD NO_ENFORCEMENT (mk_fm (0, 0) 0 ((0, 0), (0, 0))) 0
       (mk_wm [] 0) (mk_hime [] 0) (mk_cd [] 0))
    (mk_rt_job 0 0 0 0) None 0 0 0 0 false None (mk_semi 0 0 0 0 0 0).

(** p is a real-time task. Re-init its state as a best-effort task. *)
Definition reinit_litmus_state (restore : bool) (x : ltask) : ltask :=
  let user_config := task_params (tsk x) in
  let y := mk_ltask (clear_rt_param (tsk x)) None None None in
  if restore then
    mk_ltask (set_ctrl_page (ctrl_page (tsk x)) (on_params (fun _ => user_config) (tsk y))) None None (ctrl_addr x)
  else y.

(** [hn] and [rh] are what the allocators return. *)
Definition litmus_admit_task (t : tid) (hn rh : option positive) : K Z :=
  x ← get_lt t;
  BUG_ON (is_realtime (tsk x));;
  if (get_rt_period (tsk x) =? 0) || (get_rt_period (tsk x) <? get_exec_cost (tsk x)) then mret (- EINVAL)
  else if negb (cpu_online (get_partition (tsk x))) then mret (- EINVAL)
  else
    (* allocate heap node for this task *)
    modify (fun s => set_nodes (add_addr hn (nodes s)) s);;
    modify (fun s => set_rels (add_addr rh (rels s)) s);;
    put_lt t (set_heaps hn rh x);;
    if bool_decide (hn = None) || bool_decide (rh = None) then
      heap_node_free hn;; release_heap_free rh;; mret (- ENOMEM)
    else
      let x := set_tsk (set_in_heap false (tsk x)) (set_heaps hn rh x) in    (* bheap_node_init *)
      put_lt t x;;
      pl ← gets litmus;
      let retval := admit_task pl (tsk x) in
      when (retval =? 0) (modify (fun s => set_count (rt_task_count s + 1) s));;
      mret retval.

(** [queued]: the plugin's [task_exit] has left the task in a queue. *)
Definition litmus_exit_task (t : tid) (queued : bool) : K unit :=
  x ← get_lt t;
  when (is_realtime (tsk x))
    (BUG_ON queued;;
     heap_node_free (heap_node x);;
     release_heap_free (rel_heap x);;
     modify (fun s => set_count (rt_task_count s - 1) s);;
     put_lt t (reinit_litmus_state true x)).

(** What LITMUS^RT adds to [__sched_setscheduler]; [to_litmus]: the new policy
    is SCHED_LITMUS. *)
Definition setscheduler (t : tid) (to_litmus : bool) (hn rh : option positive) (queued : bool) : K Z :=
  x ← get_lt t;
  if to_litmus && is_realtime (tsk x) then mret (- EINVAL)
  else
    ret ← (if to_litmus then litmus_admit_task t hn rh else mret 0);
    if negb (ret =? 0) then mret ret
    else
      litmus_exit_task t queued;;
      x ← get_lt t;
      put_lt t (set_tsk (set_policy_litmus to_litmus (tsk x)) x);;
      mret 0.

(** [deact] and [act] are the results of the plugins' callbacks. *)
Definition switch_sched_plugin (p : sched_plugin) (deact act : Z) : K Z :=
  n ← gets rt_task_count;
  if n =? 0 then
    if negb (deact =? 0) then mret deact
    else modify (set_litmus (if act =? 0 then p else linux_sched_plugin));; mret act
  else mret (- EBUSY).

(** ** Fork, exec and exit *)

(** [x] is a copy of the parent. *)
Definition litmus_fork (x : ltask) : ltask :=
  if is_realtime (tsk x) then reinit_litmus_state false x
  else set_ctrl_addr None (set_tsk (set_ctrl_page None (tsk x)) x).

(** [*tsk = *orig; litmus_fork(tsk)]: the policy is copied, and [sched_fork]
    later resets only SCHED_FIFO and SCHED_RR. *)
Definition dup_task_struct (orig child : tid) : K unit :=
  x ← get_lt orig; put_lt child (litmus_fork x).

Definition litmus_exec (t : tid) : K unit :=
  x ← get_lt t;
  when (is_realtime (tsk x))
    match ctrl_addr x with
    | Some p => free_page p;; put_lt t (set_ctrl_addr None (set_tsk (set_ctrl_page None (tsk x)) x))
    | None => mret tt
    end.

Definition exit_litmus (t : tid) (queued : bool) : K unit :=
  x ← get_lt t;
  match ctrl_addr x with Some p => free_page p | None => mret tt end;;
  when (is_realtime (tsk x)) (litmus_exit_task t queued).

(** ** The transitions

    Between the calls a task's [task_struct] changes as Linux and the plugin
    please, but its policy stays, and of its parameters only [exec_cost] is
    rewritten (by the plugins that slice jobs).  A real-time task that forks is
    left out here: see [forked_exit_faults]. *)
Definition same_params (x y : task_struct) : Prop :=
  set_exec_cost 0 (task_params x) = set_exec_cost 0 (task_params y).

Definition fresh (p : option positive) (l : gset positive) : Prop := forall q, p = Some q -> q ∉ l.

Inductive lstep (s : lstate) : lstate -> Prop :=
| step_set_param pid param r s' : sys_set_rt_task_param pid param s = Some (r, s') -> lstep s s'
| step_setscheduler t b hn rh q r s' : fresh hn (nodes s) -> fresh rh (rels s) ->
    setscheduler t b hn rh q s = Some (r, s') -> lstep s s'
| step_ctrl_page t pg r s' : fresh pg (pages s) -> alloc_ctrl_page t pg s = Some (r, s') -> lstep s s'
| step_register name test r s' : register_sched_plugin name test s = Some (r, s') -> lstep s s'
| step_switch name p deact act r s' : find_sched_plugin name s = Some (Some p, s) ->
    switch_sched_plugin p deact act s = Some (r, s') -> lstep s s'
| step_fork t c x s' : ltasks s !! t = Some x -> is_realtime (tsk x) = false -> ltasks s !! c = None ->
    dup_task_struct t c s = Some (tt, s') -> lstep s s'
| step_exec t s' : litmus_exec t s = Some (tt, s') -> lstep s s'
| step_exit t q s' : exit_litmus t q s = Some (tt, s') -> lstep s (set_ltasks (delete t (ltasks s')) s')
| step_run t x y : ltasks s !! t = Some x -> is_realtime y = is_realtime (tsk x) -> same_params y (tsk x) ->
    lstep s (set_ltasks (<[t := set_tsk y x]> (ltasks s)) s).

(** The state after booting: no task is a real-time task. *)
Definition booted (s : lstate) : Prop :=
  map_Forall (fun _ x => is_realtime (tsk x) = false /\ ctrl_addr x = None) (ltasks s) /\
  rt_task_count s = 0 /\ litmus s = linux_sched_plugin.

Definition lreachable (s : lstate) : Prop := exists s0, booted s0 /\ rtc lstep s0 s.

(** ** The invariant *)
Definition is_rt (x : ltask) : Prop := is_realtime (tsk x) = true.
Global Instance is_rt_dec x : Decision (is_rt x).
Proof. unfold is_rt. apply _. Defined.

Definition rt_tasks (m : gmap tid ltask) : gmap tid ltask := filter (fun p => is_rt p.2) m.

(** What a real-time task owns *)
Definition own_node (x : ltask) : option positive := if decide (is_rt x) then heap_node x else None.
Definition own_rel (x : ltask) : option positive := if decide (is_rt x) then rel_heap x else None.

(** Every address in the field [f] of a task is allocated, and no other task's. *)
Definition owns (f : ltask -> option positive) (m : gmap tid ltask) (l : gset positive) : Prop :=
  (forall t x p, m !! t = Some x -> f x = Some p -> p ∈ l) /\
  (forall t u x y p, m !! t = Some x -> m !! u = Some y -> f x = Some p -> f y = Some p -> t = u).

Definition valid_params (x : task_struct) : Prop :=
  get_rt_period x <> 0 /\ get_exec_cost x <= get_rt_period x /\ cpu_online (get_partition x) = true.

(** The task has valid parameters with which [pl] admitted it. *)
Definition admitted_by (pl : sched_plugin) (x : task_struct) : Prop :=
  exists x0, admit_task pl x0 = 0 /\ same_params x x0 /\ valid_params x0.

Record lit_inv (s : lstate) : Prop := {
  li_has : map_Forall (fun _ x => is_rt x -> is_Some (heap_node x) /\ is_Some (rel_heap x)) (ltasks s);
  li_nodes : owns own_node (ltasks s) (nodes s);
  li_rels : owns own_rel (ltasks s) (rels s);
  li_pages : owns ctrl_addr (ltasks s) (pages s);
  li_count : rt_task_count s = Z.of_nat (size (rt_tasks (ltasks s)));
  li_admitted : map_Forall (fun _ x => is_rt x -> admitted_by (litmus s) (tsk x)) (ltasks s) }.

(** *** Ownership *)
Lemma owns_keep f m l t x y :
  owns f m l -> m !! t = Some y -> (f x = None \/ f x = f y) -> owns f (<[t := x]> m) l.
Proof.
  intros [Ha Hi] Hy Hx.
  assert (forall u z p, <[t := x]> m !! u = Some z -> f z = Some p -> exists z', m !! u = Some z' /\ f z' = Some p) as H.
  { intros u z p [[<- <-]|[? ?]]%lookup_insert_Some Hp; [|eauto]. exists y. split; [done|]. destruct Hx; congruence. }
  split.
  - intros u z p Hz Hp. destruct (H _ _ _ Hz Hp) as (? & ? & ?). eauto.
  - intros u v z z' p Hz Hz' Hp Hp'. destruct (H _ _ _ Hz Hp) as (? & ? & ?).
    destruct (H _ _ _ Hz' Hp') as (? & ? & ?). eauto.
Qed.

Lemma owns_mono f m l l' : owns f m l -> l ⊆ l' -> owns f m l'.
Proof. intros [Ha Hi] Hl. split; [|done]. intros. apply Hl. eauto. Qed.

Lemma owns_new f m l t x :
  owns f m l -> f x = None -> owns f (<[t := x]> m) l.
Proof.
  intros [Ha Hi] Hx.
  assert (forall u z p, <[t := x]> m !! u = Some z -> f z = Some p -> m !! u = Some z) as H.
  { intros u z p [[<- <-]|[? ?]]%lookup_insert_Some Hp; [congruence|done]. }
  split; [intros; eauto|]. intros u v z z' p Hz Hz' Hp Hp'. eauto.
Qed.

Lemma owns_fresh f m l t x p :
  owns f m l -> p ∉ l -> f x = Some p -> owns f (<[t := x]> m) ({[p]} ∪ l).
Proof.
  intros [Ha Hi] Hp Hx. split.
  - intros u z q [[<- <-]|[? ?]]%lookup_insert_Some Hq; [|set_solver].
    assert (q = p) as -> by congruence. set_solver.
  - intros u v z z' q [[<- <-]|[? ?]]%lookup_insert_Some [[<- <-]|[? ?]]%lookup_insert_Some Hq Hq'; [done| | |eauto].
    + assert (q = p) as -> by congruence. exfalso. eauto.
    + assert (q = p) as -> by congruence. exfalso. eauto.
Qed.

Lemma owns_delete f m l t : owns f m l -> owns f (delete t m) l.
Proof.
  intros [Ha Hi]. split.
  - intros u z p [_ Hz]%lookup_delete_Some. eauto.
  - intros u v z z' p [_ Hz]%lookup_delete_Some [_ Hz']%lookup_delete_Some. eauto.
Qed.

(** Giving back what the task owns *)
Lemma owns_free f m l t y p : owns f m l -> m !! t = Some y -> f y = Some p -> owns f (delete t m) (l ∖ {[p]}).
Proof.
  intros [Ha Hi] Hy Hp. split; [|by apply (owns_delete f m l t)].
  intros u z q [Hu Hz]%lookup_delete_Some Hq. apply elem_of_difference. split; [eauto|].
  intros ->%elem_of_singleton. eauto.
Qed.

Lemma owns_release f m l t x : owns f (delete t m) l -> f x = None -> owns f (<[t := x]> m) l.
Proof. intros H Hx. rewrite <-insert_delete_eq. by apply owns_new. Qed.

(** *** The number of real-time tasks *)
Definition rt_one (o : option ltask) : nat :=
  match o with Some x => if decide (is_rt x) then 1 else 0 | None => 0 end.

Lemma rt_tasks_delete m t : (size (rt_tasks (delete t m)) + rt_one (m !! t) = size (rt_tasks m))%nat.
Proof.
  destruct (m !! t) as [x|] eqn:E; simpl; [|rewrite delete_id by done; lia].
  rewrite <-(insert_delete_id m t x E) at 2. unfold rt_tasks. case_decide as Hx.
  - rewrite map_filter_insert_True, map_size_insert_None; [lia| |done].
    apply map_lookup_filter_None. left. apply lookup_delete_eq.
  - rewrite map_filter_insert_False, delete_delete_eq by done. lia.
Qed.

Lemma rt_tasks_insert m t x :
  (size (rt_tasks (<[t := x]> m)) + rt_one (m !! t) = size (rt_tasks m) + rt_one (Some x))%nat.
Proof.
  pose proof (rt_tasks_delete (<[t := x]> m) t) as H. rewrite lookup_insert_eq, delete_insert_eq in H.
  pose proof (rt_tasks_delete m t). lia.
Qed.

Lemma rt_tasks_same m t x y :
  m !! t = Some y -> (is_rt x <-> is_rt y) -> size (rt_tasks (<[t := x]> m)) = size (rt_tasks m).
Proof.
  intros Hy Hxy. pose proof (rt_tasks_insert m t x) as H. rewrite Hy in H. simpl in H.
  do 2 case_decide; naive_solver lia.
Qed.

(** *** What the calls do *)
Lemma get_lt_run t x s : ltasks s !! t = Some x -> get_lt t s = Some (x, s).
Proof. intros Hx. unfold get_lt, gets, mbind, M_bind. by rewrite Hx. Qed.

Lemma get_lt_inv t x s s' : get_lt t s = Some (x, s') -> ltasks s !! t = Some x /\ s' = s.
Proof. unfold get_lt, gets, mbind, M_bind. destruct (ltasks s !! t); simpl; [|done]. by intros [= <- <-]. Qed.

Local Ltac run_free :=
  unfold of_option, gets, BUG_ON, modify, mret, M_ret, mbind, M_bind; case_bool_decide as E; [done|].

Lemma heap_node_free_inv p s u s' :
  heap_node_free p s = Some (u, s') -> exists q, p = Some q /\ q ∈ nodes s /\ s' = set_nodes (nodes s ∖ {[q]}) s.
Proof.
  unfold heap_node_free. destruct p as [q|]; [|done]. run_free.
  intros [= <- <-]. exists q. done.
Qed.

Lemma release_heap_free_inv p s u s' :
  release_heap_free p s = Some (u, s') -> exists q, p = Some q /\ q ∈ rels s /\ s' = set_rels (rels s ∖ {[q]}) s.
Proof.
  unfold release_heap_free. destruct p as [q|]; [|done]. run_free.
  intros [= <- <-]. exists q. done.
Qed.

Lemma free_page_inv p s u s' :
  free_page p s = Some (u, s') -> p ∈ pages s /\ s' = set_pages (pages s ∖ {[p]}) s.
Proof.
  unfold free_page. run_free. intros [= <- <-].
  done.
Qed.

Local Ltac run := unfold put_lt, modify, gets, when, BUG_ON, mret, M_ret, mbind, M_bind; cbv beta iota; cbn [negb orb].

(** A task with its new heap node and release heap *)
Definition with_heaps (p q : positive) (x : ltask) : ltask :=
  set_tsk (set_in_heap false (tsk x)) (set_heaps (Some p) (Some q) x).
Definition allocated (t : tid) (p q : positive) (x : ltask) (n : Z) (s : lstate) : lstate :=
  mk_lstate (<[t := with_heaps p q x]> (ltasks s)) ({[p]} ∪ nodes s) ({[q]} ∪ rels s) (pages s)
    (rt_task_count s + n) (litmus s) (sched_plugins s).

Lemma admit_inv t hn rh x s r s' :
  ltasks s !! t = Some x -> litmus_admit_task t hn rh s = Some (r, s') ->
  is_realtime (tsk x) = false /\
  ((r = - EINVAL /\ s' = s /\ ~ valid_params (tsk x)) \/
   exists p q, hn = Some p /\ rh = Some q /\ r = admit_task (litmus s) (tsk (with_heaps p q x)) /\
     s' = allocated t p q x (if r =? 0 then 1 else 0) s /\ valid_params (tsk x)).
Proof.
  intros Hx. unfold litmus_admit_task. rewrite (bind_ok _ _ _ _ _ (get_lt_run _ _ _ Hx)).
  destruct (is_realtime (tsk x)); [done|]. intros H. split; [done|]. revert H. run.
  destruct (_ || _) eqn:E1; [intros [= <- <-]; left; split_and!; [done..|intros (? & ? & ?); lia]|].
  destruct (cpu_online _) eqn:E2; [|intros [= <- <-]; left; split_and!; [done..|intros (? & ? & ?); congruence]]. run.
  apply orb_false_iff in E1 as [E1 E3]. assert (valid_params (tsk x)) as V by (split_and!; [lia|lia|done]).
  destruct hn as [p|]; [destruct rh as [q|]|].
  - rewrite !bool_decide_false by done. run. intros H. right. exists p, q. do 2 (split; [done|]). revert H.
    change (tsk (set_tsk (set_in_heap false (tsk x)) _)) with (tsk (with_heaps p q x)).
    cbn [negb orb]. simpl litmus.
    set (a := admit_task _ _). intros H.
    assert (r = a /\ s' = allocated t p q x (if a =? 0 then 1 else 0) s) as [-> ->].
    { revert H. unfold allocated, set_ltasks, set_rels, set_nodes, with_heaps.
      destruct (a =? 0); run; simpl; rewrite insert_insert_eq; intros [= <- <-]; [done|]. by rewrite Z.add_0_r. }
    done.
  - rewrite (bool_decide_true (None = None)) by done. rewrite orb_true_r. run.
    match goal with |- context [heap_node_free ?a ?b] => by destruct (heap_node_free a b) as [[? ?]|] end.
  - rewrite (bool_decide_true (None = None)) by done. done.
Qed.

(** A task that has given back its heap node and its release heap *)
Definition released (t : tid) (p q : positive) (x : ltask) (s : lstate) : lstate :=
  mk_lstate (<[t := reinit_litmus_state true x]> (ltasks s)) (nodes s ∖ {[p]}) (rels s ∖ {[q]}) (pages s)
    (rt_task_count s - 1) (litmus s) (sched_plugins s).

Lemma exit_inv t b x s u s' :
  ltasks s !! t = Some x -> litmus_exit_task t b s = Some (u, s') ->
  (is_realtime (tsk x) = false /\ s' = s) \/
  (is_rt x /\ exists p q, heap_node x = Some p /\ rel_heap x = Some q /\ p ∈ nodes s /\ q ∈ rels s /\
     s' = released t p q x s).
Proof.
  intros Hx. unfold litmus_exit_task. rewrite (bind_ok _ _ _ _ _ (get_lt_run _ _ _ Hx)). unfold is_rt.
  destruct (is_realtime (tsk x)); run; [|by intros [= <- <-]; left].
  destruct b; [done|]. intros H. right. split; [done|]. revert H.
  destruct (heap_node_free (heap_node x) s) as [[? s1]|] eqn:E1; [|done].
  apply heap_node_free_inv in E1 as (p & -> & Hp & ->).
  destruct (release_heap_free (rel_heap x) _) as [[? s2]|] eqn:E2; [|done].
  apply release_heap_free_inv in E2 as (q & -> & Hq & ->). intros [= <- <-]. eauto 10.
Qed.

Lemma exit_run t x s p q :
  ltasks s !! t = Some x -> is_rt x -> heap_node x = Some p -> rel_heap x = Some q -> p ∈ nodes s -> q ∈ rels s ->
  litmus_exit_task t false s = Some (tt, released t p q x s).
Proof.
  intros Hx Hr Hp Hq Hn Hl. unfold litmus_exit_task. rewrite (bind_ok _ _ _ _ _ (get_lt_run _ _ _ Hx)), Hr. run.
  rewrite Hp, Hq. unfold heap_node_free, release_heap_free, of_option. run.
  rewrite bool_decide_false by (by intros []). run. simpl. rewrite bool_decide_false by (by intros []). done.
Qed.

(** *** Preservation *)
Lemma same_params_trans x y z : same_params x y -> same_params y z -> same_params x z.
Proof. unfold same_params. congruence. Qed.

(** A change that leaves policy and heaps alone *)
Lemma inv_update_pages s t x y l :
  lit_inv s -> ltasks s !! t = Some x -> is_realtime (tsk y) = is_realtime (tsk x) ->
  heap_node y = heap_node x -> rel_heap y = rel_heap x ->
  owns ctrl_addr (<[t := y]> (ltasks s)) l -> (is_rt x -> same_params (tsk y) (tsk x)) ->
  lit_inv (set_pages l (set_ltasks (<[t := y]> (ltasks s)) s)).
Proof.
  intros [I1 I2 I3 I4 I5 I6] Hx Hr Hn Hl Hc Hp.
  assert (is_rt y <-> is_rt x) as Hrt by (unfold is_rt; by rewrite Hr).
  split; simpl; try done.
  - apply map_Forall_insert_2; [|done]. rewrite Hrt, Hn, Hl. by apply (I1 t x).
  - eapply owns_keep; [done|done|]. right. unfold own_node. rewrite Hn. by do 2 case_decide; try tauto.
  - eapply owns_keep; [done|done|]. right. unfold own_rel. rewrite Hl. by do 2 case_decide; try tauto.
  - rewrite I5. f_equal. symmetry. by eapply rt_tasks_same.
  - apply map_Forall_insert_2; [|done]. intros Hy%Hrt. destruct (I6 t x Hx Hy) as (x0 & ? & Hs & ?).
    exists x0. split_and!; try done; try tauto. eapply same_params_trans; [|done]. auto.
Qed.

Lemma inv_update s t x y :
  lit_inv s -> ltasks s !! t = Some x -> is_realtime (tsk y) = is_realtime (tsk x) ->
  heap_node y = heap_node x -> rel_heap y = rel_heap x -> ctrl_addr y = ctrl_addr x ->
  (is_rt x -> same_params (tsk y) (tsk x)) -> lit_inv (set_ltasks (<[t := y]> (ltasks s)) s).
Proof.
  intros I Hx Hr Hn Hl Hc Hp. apply (inv_update_pages s t x y (pages s)); try done.
  eapply owns_keep; [apply I|done|by right].
Qed.

(** The plugin rejects the task: it stays as it was, with the memory it got. *)
Lemma inv_rejected s t x p q :
  lit_inv s -> ltasks s !! t = Some x -> is_realtime (tsk x) = false -> lit_inv (allocated t p q x 0 s).
Proof.
  intros [I1 I2 I3 I4 I5 I6] Hx Hr. assert (~ is_rt (with_heaps p q x)) as Hy by (change (~ is_rt x); unfold is_rt; congruence).
  assert (~ is_rt x) by (unfold is_rt; congruence). split; simpl; try done.
  - by apply map_Forall_insert_2.
  - apply owns_new; [eapply owns_mono; [done|set_solver]|]. unfold own_node. by rewrite decide_False.
  - apply owns_new; [eapply owns_mono; [done|set_solver]|]. unfold own_rel. by rewrite decide_False.
  - eapply owns_keep; [done|done|by right].
  - rewrite I5, Z.add_0_r. f_equal. symmetry. by eapply rt_tasks_same.
  - by apply map_Forall_insert_2.
Qed.

(** The plugin admits the task, which gets the policy SCHED_LITMUS. *)
Lemma inv_admitted s t x p q y :
  lit_inv s -> ltasks s !! t = Some x -> is_realtime (tsk x) = false -> p ∉ nodes s -> q ∉ rels s ->
  y = set_tsk (set_policy_litmus true (tsk (with_heaps p q x))) (with_heaps p q x) ->
  admitted_by (litmus s) (tsk y) ->
  lit_inv (set_ltasks (<[t := y]> (ltasks s)) (allocated t p q x 1 s)).
Proof.
  intros [I1 I2 I3 I4 I5 I6] Hx Hr Hp Hq Ey Ha. assert (is_rt y) as Hy by by subst.
  assert (~ is_rt x) as Hn by (unfold is_rt; congruence). split; simpl; try done.
  - apply map_Forall_insert_2; [|done]. subst y. by split; eexists.
  - apply owns_fresh; [done|done|]. unfold own_node. rewrite decide_True by done. by subst.
  - apply owns_fresh; [done|done|]. unfold own_rel. rewrite decide_True by done. by subst.
  - eapply owns_keep; [done|done|right; by subst].
  - pose proof (rt_tasks_insert (ltasks s) t y) as Hc. rewrite Hx in Hc. simpl in Hc.
    rewrite decide_False, decide_True in Hc by done. lia.
  - by apply map_Forall_insert_2.
Qed.

(** The real-time task leaves: with another policy ([y]), or for good. *)
Lemma inv_gone s t x p q :
  lit_inv s -> ltasks s !! t = Some x -> is_rt x -> heap_node x = Some p -> rel_heap x = Some q ->
  owns own_node (delete t (ltasks s)) (nodes s ∖ {[p]}) /\ owns own_rel (delete t (ltasks s)) (rels s ∖ {[q]}) /\
  rt_task_count s - 1 = Z.of_nat (size (rt_tasks (delete t (ltasks s)))).
Proof.
  intros [I1 I2 I3 I4 I5 I6] Hx Hr Hp Hq. split_and!.
  - eapply owns_free; [done|done|]. unfold own_node. by rewrite decide_True.
  - eapply owns_free; [done|done|]. unfold own_rel. by rewrite decide_True.
  - pose proof (rt_tasks_delete (ltasks s) t) as Hc. rewrite Hx in Hc. simpl in Hc.
    rewrite decide_True in Hc by done. lia.
Qed.

Lemma inv_released s t x p q y :
  lit_inv s -> ltasks s !! t = Some x -> is_rt x -> heap_node x = Some p -> rel_heap x = Some q ->
  ~ is_rt y -> ctrl_addr y = ctrl_addr x ->
  lit_inv (set_ltasks (<[t := y]> (ltasks s)) (released t p q x s)).
Proof.
  intros I Hx Hr Hp Hq Hy Hc. destruct (inv_gone s t x p q I Hx Hr Hp Hq) as (G1 & G2 & G3).
  destruct I as [I1 I2 I3 I4 I5 I6]. split; simpl; try done.
  - by apply map_Forall_insert_2.
  - apply owns_release; [done|]. unfold own_node. by rewrite decide_False.
  - apply owns_release; [done|]. unfold own_rel. by rewrite decide_False.
  - eapply owns_keep; [done|done|by right].
  - pose proof (rt_tasks_delete (<[t := y]> (ltasks s)) t) as Hd.
    rewrite lookup_insert_eq, delete_insert_eq in Hd. simpl in Hd. rewrite decide_False in Hd by done. lia.
  - by apply map_Forall_insert_2.
Qed.

Lemma set_param_inv s pid param r s' :
  lit_inv s -> sys_set_rt_task_param pid param s = Some (r, s') -> lit_inv s'.
Proof.
  intros I. unfold sys_set_rt_task_param. destruct param as [up|]; [|by intros [= <- <-]].
  destruct (_ <? _); [by intros [= <- <-]|]. destruct up as [up|]; [|by intros [= <- <-]].
  destruct (find_task_by_vpid pid) as [t|]; [|by intros [= <- <-]].
  intros (x & s1 & [Hx ->]%get_lt_inv & H)%bind_inv. revert H.
  destruct (is_realtime (tsk x)) eqn:Hr; [by intros [= <- <-]|].
  do 4 (case_match; [by intros [= <- <-]|]). case_match; [|by intros [= <- <-]]. run. intros [= <- <-].
  eapply inv_update; try done. unfold is_rt. congruence.
Qed.

Lemma setscheduler_inv s t b hn rh q r s' :
  lit_inv s -> fresh hn (nodes s) -> fresh rh (rels s) ->
  setscheduler t b hn rh q s = Some (r, s') -> lit_inv s'.
Proof.
  intros I Fn Fr (x & s1 & [Hx ->]%get_lt_inv & H)%bind_inv. revert H.
  destruct (b && is_realtime (tsk x)) eqn:Hb; [by intros [= <- <-]|].
  intros (ret & s1 & Ha & H)%bind_inv. revert H. destruct b; simpl in Hb.
  - apply (admit_inv _ _ _ _ _ _ _ Hx) in Ha as [Hr [(-> & -> & _)|(p & q' & -> & -> & Er & -> & V)]].
    { by intros [= <- <-]. }
    destruct (ret =? 0) eqn:E0; simpl; [|intros [= <- <-]; by eapply inv_rejected].
    intros (u & s1 & He & H)%bind_inv.
    apply (exit_inv _ _ (with_heaps p q' x)) in He as [[_ ->]|[Hc _]]; [|by change (is_rt x) in Hc; unfold is_rt in Hc; congruence|apply lookup_insert_eq].
    revert H. intros (y & s1 & [Hy ->]%get_lt_inv & H)%bind_inv. revert H. run. intros [= <- <-].
    simpl in Hy. rewrite lookup_insert_eq in Hy. injection Hy as <-. simpl. rewrite insert_insert_eq.
    eapply inv_admitted; try done; [by apply Fn|by apply Fr|].
    exists (tsk (with_heaps p q' x)). split_and!; [lia|done|exact V].
  - injection Ha as <- <-. simpl. intros (u & s1 & He & H)%bind_inv. revert H.
    apply (exit_inv _ _ _ _ _ _ Hx) in He as [[Hr ->]|(Hr & p & q' & Hp & Hq & _ & _ & ->)].
    + rewrite (bind_ok _ _ _ _ _ (get_lt_run _ _ _ Hx)). run. intros [= <- <-].
      by eapply inv_update.
    + intros (y & s1 & [Hy ->]%get_lt_inv & H)%bind_inv. revert H. run. intros [= <- <-].
      simpl in Hy. rewrite lookup_insert_eq in Hy. injection Hy as <-. simpl. rewrite insert_insert_eq.
      by eapply inv_released.
Qed.

Lemma ctrl_page_inv s t pg r s' :
  lit_inv s -> fresh pg (pages s) -> alloc_ctrl_page t pg s = Some (r, s') -> lit_inv s'.
Proof.
  intros I Fp (x & s1 & [Hx ->]%get_lt_inv & H)%bind_inv. revert H.
  destruct (ctrl_addr x) eqn:Ec; [by intros [= <- <-]|]. run. intros [= <- <-].
  eapply (inv_update_pages s t x); try done. destruct pg as [p|]; simpl.
  - apply owns_fresh; [apply I|by apply Fp|done].
  - by apply owns_new; [apply I|].
Qed.

Lemma exec_inv s t s' : lit_inv s -> litmus_exec t s = Some (tt, s') -> lit_inv s'.
Proof.
  intros I (x & s1 & [Hx ->]%get_lt_inv & H)%bind_inv. revert H. unfold when.
  destruct (is_realtime (tsk x)); [|by intros [= <-]]. destruct (ctrl_addr x) as [p|] eqn:Ec; [|by intros [= <-]].
  intros (u & s1 & [Hp ->]%free_page_inv & H)%bind_inv. revert H. run. intros [= <-].
  eapply (inv_update_pages s t x); try done. apply owns_release; [|done]. eapply owns_free; [apply I|done|done].
Qed.

(** The task is gone, and its control page with it. *)
Lemma inv_delete s t x l :
  lit_inv s -> ltasks s !! t = Some x -> is_realtime (tsk x) = false ->
  owns ctrl_addr (delete t (ltasks s)) l -> lit_inv (set_ltasks (delete t (ltasks s)) (set_pages l s)).
Proof.
  intros [I1 I2 I3 I4 I5 I6] Hx Hr Hl. split; simpl; try done.
  - by apply map_Forall_delete.
  - by apply owns_delete.
  - by apply owns_delete.
  - pose proof (rt_tasks_delete (ltasks s) t) as Hc. rewrite Hx in Hc. simpl in Hc.
    rewrite decide_False in Hc by (unfold is_rt; congruence). lia.
  - by apply map_Forall_delete.
Qed.

Lemma exit_page s t x :
  ltasks s !! t = Some x -> owns ctrl_addr (ltasks s) (pages s) ->
  forall u s', match ctrl_addr x with Some p => free_page p | None => mret tt end s = Some (u, s') ->
  exists l, s' = set_pages l s /\ owns ctrl_addr (delete t (ltasks s)) l.
Proof.
  intros Hx Ho u s'. destruct (ctrl_addr x) as [p|] eqn:Ec.
  - intros [Hp ->]%free_page_inv. eexists. split; [done|]. by eapply owns_free.
  - intros [= <- <-]. exists (pages s). split; [by destruct s|]. by apply owns_delete.
Qed.

Lemma exit_litmus_inv s t q s' :
  lit_inv s -> exit_litmus t q s = Some (tt, s') -> lit_inv (set_ltasks (delete t (ltasks s')) s').
Proof.
  intros I (x & s1 & [Hx ->]%get_lt_inv & H)%bind_inv. apply bind_inv in H as (u & s1 & H1 & H).
  destruct (exit_page s t x Hx (li_pages s I) u s1 H1) as (l & -> & Hl). revert H. unfold when.
  destruct (is_realtime (tsk x)) eqn:Hr; [|intros [= <-]; exact (inv_delete s t x l I Hx Hr Hl)].
  intros [[Hc _]|(_ & p & q' & Hp & Hq & _ & _ & ->)]%(exit_inv t q x); [congruence| |done]. simpl.
  rewrite delete_insert_eq. destruct (inv_gone s t x p q' I Hx Hr Hp Hq) as (G1 & G2 & G3).
  destruct I as [I1 I2 I3 I4 I5 I6]. split; simpl; try done; by apply map_Forall_delete.
Qed.

Lemma switch_inv s p deact act r s' :
  lit_inv s -> switch_sched_plugin p deact act s = Some (r, s') -> lit_inv s'.
Proof.
  intros [I1 I2 I3 I4 I5 I6]. unfold switch_sched_plugin. run. destruct (rt_task_count s =? 0) eqn:E; [|by intros [= <- <-]].
  destruct (deact =? 0); run; [|by intros [= <- <-]]. intros [= <- <-]. split; simpl; try done.
  intros t x Hx Hr. exfalso. assert (size (rt_tasks (ltasks s)) = 0%nat) as Hs by lia.
  apply map_size_empty_inv in Hs. pose proof (map_lookup_filter_Some_2 (fun p => is_rt p.2) (ltasks s) t x Hx Hr) as Hf.
  unfold rt_tasks in Hs. rewrite Hs in Hf. by rewrite lookup_empty in Hf.
Qed.

Lemma fork_inv s t c x s' :
  lit_inv s -> ltasks s !! t = Some x -> is_realtime (tsk x) = false -> ltasks s !! c = None ->
  dup_task_struct t c s = Some (tt, s') -> lit_inv s'.
Proof.
  intros [I1 I2 I3 I4 I5 I6] Hx Hr Hc. unfold dup_task_struct. rewrite (bind_ok _ _ _ _ _ (get_lt_run _ _ _ Hx)). run.
  intros [= <-]. unfold litmus_fork. rewrite Hr. set (y := set_ctrl_addr _ _).
  assert (~ is_rt y) as Hy by (change (~ is_rt x); unfold is_rt; congruence). split; simpl.
  - by apply map_Forall_insert_2.
  - apply owns_new; [done|]. unfold own_node. by rewrite decide_False.
  - apply owns_new; [done|]. unfold own_rel. by rewrite decide_False.
  - by apply owns_new.
  - pose proof (rt_tasks_insert (ltasks s) c y) as Hs. rewrite Hc in Hs. simpl in Hs. rewrite decide_False in Hs by done. lia.
  - by apply map_Forall_insert_2.
Qed.

Lemma lstep_inv s s' : lit_inv s -> lstep s s' -> lit_inv s'.
Proof.
  intros I Hs. destruct Hs.
  - by eapply set_param_inv.
  - by eapply setscheduler_inv.
  - by eapply ctrl_page_inv.
  - match goal with H : register_sched_plugin _ _ _ = _ |- _ => revert H end. intros [= <- <-]. by destruct I.
  - by eapply switch_inv.
  - by eapply fork_inv.
  - by eapply exec_inv.
  - by eapply exit_litmus_inv.
  - by eapply inv_update.
Qed.

Lemma booted_inv s : booted s -> lit_inv s.
Proof.
  intros (Hb & Hc & _). assert (forall t x, ltasks s !! t = Some x -> ~ is_rt x) as Hn.
  { intros t x Hx. destruct (Hb t x Hx). unfold is_rt. congruence. }
  assert (rt_tasks (ltasks s) = ∅) as Hr.
  { apply map_empty. intros t. apply map_lookup_filter_None. right. intros x Hx. by eapply Hn. }
  assert (forall f l, (forall t x, ltasks s !! t = Some x -> f x = None) -> owns f (ltasks s) l) as Ho.
  { intros f l H. split; intros *; [intros ?%H|intros ?%H]; congruence. }
  split; [intros t x Hx Hr'; by destruct (Hn t x)| | | |by rewrite Hr, map_size_empty|
          intros t x Hx Hr'; by destruct (Hn t x)].
  - apply Ho. intros t x Hx%Hn. unfold own_node. by rewrite decide_False.
  - apply Ho. intros t x Hx%Hn. unfold own_rel. by rewrite decide_False.
  - apply Ho. intros t x Hx. by destruct (Hb t x Hx).
Qed.

Lemma lreachable_inv s : lreachable s -> lit_inv s.
Proof.
  intros (s0 & Hb & Hr). apply booted_inv in Hb. induction Hr as [|s1 s2 s3 H _ IH]; [done|].
  apply IH. by eapply lstep_inv.
Qed.

(** Becoming a real-time task *)
Lemma setscheduler_run s t x p q b :
  ltasks s !! t = Some x -> is_realtime (tsk x) = false -> valid_params (tsk x) ->
  admit_task (litmus s) (tsk (with_heaps p q x)) = 0 ->
  setscheduler t true (Some p) (Some q) b s =
  Some (0, set_ltasks (<[t := set_tsk (set_policy_litmus true (tsk (with_heaps p q x))) (with_heaps p q x)]> (ltasks s))
             (allocated t p q x 1 s)).
Proof.
  intros Hx Hr (V1 & V2 & V3) Ha. unfold setscheduler. rewrite (bind_ok _ _ _ _ _ (get_lt_run _ _ _ Hx)), Hr. cbn [andb].
  rewrite (bind_ok _ _ s 0 (allocated t p q x 1 s)).
  2: { unfold litmus_admit_task. rewrite (bind_ok _ _ _ _ _ (get_lt_run _ _ _ Hx)), Hr. run.
    destruct (Z.eqb_spec (get_rt_period (tsk x)) 0); [done|]. destruct (Z.ltb_spec (get_rt_period (tsk x)) (get_exec_cost (tsk x))); [lia|].
    rewrite V3, !bool_decide_false by done. run. simpl. rewrite insert_insert_eq. simpl in Ha. by rewrite Ha. }
  cbn [negb Z.eqb]. unfold litmus_exit_task. assert (ltasks (allocated t p q x 1 s) !! t = Some (with_heaps p q x)) as Hy.
  { apply lookup_insert_eq. }
  erewrite (bind_ok _ _ _ tt (allocated t p q x 1 s)).
  2: { rewrite (bind_ok _ _ _ _ _ (get_lt_run _ _ _ Hy)).
    change (is_realtime (tsk (with_heaps p q x))) with (is_realtime (tsk x)). by rewrite Hr. }
  rewrite (bind_ok _ _ _ _ _ (get_lt_run _ _ _ Hy)). run. simpl. by rewrite insert_insert_eq.
Qed.

(** ** Theorems *)

(** A real-time task can be torn down: nothing is freed twice or missing. *)
Lemma exit_litmus_run s t x :
  lit_inv s -> ltasks s !! t = Some x -> exists s', exit_litmus t false s = Some (tt, s').
Proof.
  intros I Hx. unfold exit_litmus. rewrite (bind_ok _ _ _ _ _ (get_lt_run _ _ _ Hx)).
  assert (exists l, match ctrl_addr x with Some p => free_page p | None => mret tt end s = Some (tt, set_pages l s)) as [l Hl].
  { destruct (ctrl_addr x) as [p|] eqn:Ec; [|exists (pages s); by destruct s].
    exists (pages s ∖ {[p]}). unfold free_page. run. rewrite bool_decide_false; [done|].
    intros Hn. apply Hn. by eapply (proj1 (li_pages s I)). }
  rewrite (bind_ok _ _ _ _ _ Hl). unfold when. destruct (is_realtime (tsk x)) eqn:Hr; [|eauto].
  destruct (li_has s I t x Hx Hr) as [[p Hp] [q Hq]]. eexists. apply (exit_run t x _ p q); try done.
  - apply (proj1 (li_nodes s I) t x p Hx). unfold own_node. by rewrite decide_True.
  - apply (proj1 (li_rels s I) t x q Hx). unfold own_rel. by rewrite decide_True.
Qed.


Lemma no_rt_size s :
  lit_inv s -> rt_task_count s = 0 <-> (forall t x, ltasks s !! t = Some x -> is_realtime (tsk x) = false).
Proof.
  intros I. rewrite (li_count s I). split.
  - intros H t x Hx. destruct (is_realtime (tsk x)) eqn:Hr; [|done]. exfalso.
    assert (size (rt_tasks (ltasks s)) = 0%nat) as Hs%map_size_empty_inv by lia.
    pose proof (map_lookup_filter_Some_2 (fun p => is_rt p.2) (ltasks s) t x Hx Hr) as Hf.
    unfold rt_tasks in Hs. rewrite Hs in Hf. by rewrite lookup_empty in Hf.
  - intros H. assert (rt_tasks (ltasks s) = ∅) as ->; [|by rewrite map_size_empty].
    apply map_empty. intros t. apply map_lookup_filter_None. right. intros x Hx%H. unfold is_rt. simpl. congruence.
Qed.

(** The plugin is switched exactly when there is no real-time task: then the
    new plugin is installed (the Linux plugin if it cannot be activated), unless
    the old one cannot be deactivated; otherwise the call fails with EBUSY and
    changes nothing. *)
Theorem switch_needs_no_rt_task s p deact act :
  lreachable s ->
  (forall t x, ltasks s !! t = Some x -> is_realtime (tsk x) = true -> switch_sched_plugin p deact act s = Some (- EBUSY, s)) /\
  ((forall t x, ltasks s !! t = Some x -> is_realtime (tsk x) = false) ->
   switch_sched_plugin p deact act s =
   Some (if deact =? 0 then (act, set_litmus (if act =? 0 then p else linux_sched_plugin) s) else (deact, s))).
Proof.
  intros I%lreachable_inv. pose proof (no_rt_size s I) as H0. unfold switch_sched_plugin. run. split.
  - intros t x Hx Hr. destruct (Z.eqb_spec (rt_task_count s) 0) as [E|]; [|done].
    rewrite (proj1 H0 E t x Hx) in Hr. done.
  - intros Hn. rewrite (proj2 H0 Hn). simpl. by destruct (deact =? 0).
Qed.


(** C39: [sys_set_rt_task_param] either fails and changes nothing, or the target is
    not a real-time task, the parameters are valid, and [sys_get_rt_task_param]
    reads them back; no other task changes. *)
Theorem set_param_get_param s pid param r s' :
  sys_set_rt_task_param pid param s = Some (r, s') ->
  (r <> 0 /\ s' = s) \/
  (r = 0 /\ exists t x up pol, find_task_by_vpid pid = Some t /\ ltasks s !! t = Some x /\
     is_realtime (tsk x) = false /\ param = Some (Some up) /\ budget_policy_of (up_policy up) = Some pol /\
     0 < exec_cost (up_task up) <= period (up_task up) /\ cpu_online (cpu (up_task up)) = true /\
     sys_get_rt_task_param pid false false s' = Some (0, Some (set_budget_policy pol (up_task up)), s') /\
     delete t (ltasks s') = delete t (ltasks s)).
Proof.
  unfold sys_set_rt_task_param. destruct param as [up|]; [|by intros [= <- <-]; left].
  destruct (pid <? 0) eqn:Epid; [by intros [= <- <-]; left|]. destruct up as [up|]; [|by intros [= <- <-]; left].
  destruct (find_task_by_vpid pid) as [t|] eqn:Ef; [|by intros [= <- <-]; left].
  intros (x & s1 & [Hx ->]%get_lt_inv & H)%bind_inv. revert H.
  destruct (is_realtime (tsk x)) eqn:Hr; [by intros [= <- <-]; left|].
  destruct (exec_cost (up_task up) <=? 0) eqn:E1; [by intros [= <- <-]; left|].
  destruct (period (up_task up) <=? 0) eqn:E2; [by intros [= <- <-]; left|].
  destruct (cpu_online (cpu (up_task up))) eqn:E3; [|by intros [= <- <-]; left]. cbn [negb].
  destruct (period (up_task up) <? exec_cost (up_task up)) eqn:E4; [by intros [= <- <-]; left|].
  destruct (budget_policy_of (up_policy up)) as [pol|] eqn:E5; [|by intros [= <- <-]; left]. run.
  intros [= <- <-]. right. split; [done|]. exists t, x, up, pol. split_and!; try done; try lia.
  - unfold sys_get_rt_task_param. rewrite Epid, Ef. cbn [orb].
    eapply eq_trans; [apply bind_ok, get_lt_run, lookup_insert_eq|done].
  - simpl. by rewrite delete_insert_eq.
Qed.

(** A child forked by a real-time task keeps the policy SCHED_LITMUS without a
    heap node, and its exit always faults on the NULL pointer. *)
Theorem forked_exit_faults s t c x :
  ltasks s !! t = Some x -> is_realtime (tsk x) = true ->
  exists y s', dup_task_struct t c s = Some (tt, s') /\ ltasks s' !! c = Some y /\
    is_realtime (tsk y) = true /\ heap_node y = None /\ forall q, exit_litmus c q s' = None.
Proof.
  intros Hx Hr. exists (litmus_fork x), (set_ltasks (<[c := litmus_fork x]> (ltasks s)) s).
  split; [unfold dup_task_struct; by rewrite (bind_ok _ _ _ _ _ (get_lt_run _ _ _ Hx))|].
  split; [apply lookup_insert_eq|]. unfold litmus_fork. rewrite Hr. split; [done|]. split; [done|]. intros q.
  unfold exit_litmus. erewrite bind_ok by (apply get_lt_run; apply lookup_insert_eq). simpl ctrl_addr. cbv iota.
  rewrite (bind_ok _ _ _ _ _ eq_refl). simpl tsk. change (is_realtime (clear_rt_param (tsk x))) with (is_realtime (tsk x)).
  rewrite Hr. unfold when, litmus_exit_task. erewrite bind_ok by (apply get_lt_run; apply lookup_insert_eq).
  simpl tsk. change (is_realtime (clear_rt_param (tsk x))) with (is_realtime (tsk x)). rewrite Hr. by destruct q.
Qed.

End Calls.

(** A task whose admission the plugin refuses keeps the heap node and the
    release heap that were allocated for it; the next attempt overwrites the
    pointers, and then the first node is allocated but no task's. *)
Theorem rejected_admission_leaks cpu_online s t x p q p' q' r1 s1 r2 s2 :
  ltasks s !! t = Some x -> valid_params cpu_online (tsk x) ->
  (forall u y, ltasks s !! u = Some y -> heap_node y <> Some p) -> p <> p' ->
  litmus_admit_task cpu_online t (Some p) (Some q) s = Some (r1, s1) -> r1 <> 0 ->
  litmus_admit_task cpu_online t (Some p') (Some q') s1 = Some (r2, s2) ->
  p ∈ nodes s2 /\ rt_task_count s1 = rt_task_count s /\
  forall u y, ltasks s2 !! u = Some y -> heap_node y <> Some p.
Proof.
  intros Hx V Hf Hne H1 Hr1 H2.
  apply (admit_inv _ _ _ _ _ _ _ _ Hx) in H1 as [_ [(_ & _ & ?)|(? & ? & [= <-] & [= <-] & _ & -> & _)]]; [done|].
  apply (admit_inv _ _ _ _ (with_heaps p q x)) in H2 as [_ [(_ & _ & ?)|(? & ? & [= <-] & [= <-] & _ & -> & _)]];
    [done| |apply lookup_insert_eq].
  simpl. split_and!; [set_solver|destruct (Z.eqb_spec r1 0); lia|].
  rewrite insert_insert_eq. intros u y [[<- <-]|[_ Hy]]%lookup_insert_Some; [by intros [= ->]|by apply (Hf u)].
Qed.

(** When no release heap can be allocated, admission does not fail with ENOMEM
    as intended: it passes the NULL pointer on to [release_heap_free], which
    faults on it. *)
Theorem admit_without_memory_faults cpu_online s t x hn :
  ltasks s !! t = Some x -> valid_params cpu_online (tsk x) -> litmus_admit_task cpu_online t hn None s = None.
Proof.
  intros Hx V. destruct (litmus_admit_task cpu_online t hn None s) as [[r s']|] eqn:E; [|done].
  by apply (admit_inv _ _ _ _ _ _ _ _ Hx) in E as [_ [(_ & _ & ?)|(? & ? & _ & [=] & _)]].
Qed.
