(* ===== verification/Admission.v ===== *)
(** * Admission under EDF-WM

    The system calls of Syscalls.v together with the admission test of EdfWm.v:
    while EDF-WM is the active plugin, the slices of every real-time task are
    well-formed.  The second part runs the calls on a machine with two CPUs,
    from boot to a sliced real-time task, and instantiates the theorems of
    Syscalls.v there. *)
From stdpp Require Import strings sorting.
From S2P Require Import Prelude Task PrioQueue Kernel Sliced SliceInv EdfWm Examples Syscalls.
Local Open Scope Z_scope.

Definition edf_wm_plugin (cpu_online : Z -> bool) : sched_plugin := mk_plugin "EDF-WM" (wm_admit_task cpu_online).

Lemma same_params_fields x y :
  same_params x y ->
  wm (task_params x) = wm (task_params y) /\ cpu (task_params x) = cpu (task_params y) /\
  budget_policy (task_params x) = budget_policy (task_params y).
Proof.
  intros H. split_and!.
  - exact (f_equal wm H).
  - exact (f_equal cpu H).
  - exact (f_equal budget_policy H).
Qed.


(** ** From boot to a real-time task *)
Section Boot.

Definition ex_online (c : Z) : bool := c <? 2.
Definition ex_pid (n : Z) : option tid := if n =? 5 then Some 5%positive else None.

Definition after {A S} (o : option (A * S)) (s : S) : S := match o with Some (_, s') => s' | None => s end.

(** Task 5 is a best-effort task on CPU 0; it is given sliced parameters, EDF-WM
    is registered and activated, and the task becomes a real-time task. *)
Definition ex_best : ltask :=
  mk_ltask (on_params (set_period 1) (set_policy_litmus false ex_new)) None None None.
Definition ex_param : user_param := mk_user (task_params ex_new) 2.
Definition ls0 : lstate := mk_lstate {[5%positive := ex_best]} ∅ ∅ ∅ 0 linux_sched_plugin [].
Definition ls1 : lstate := after (sys_set_rt_task_param ex_online ex_pid 5 (Some (Some ex_param)) ls0) ls0.
Definition ls2 : lstate := after (register_sched_plugin "EDF-WM" (Some (wm_admit_task ex_online)) ls1) ls1.
Definition ls3 : lstate := after (switch_sched_plugin (edf_wm_plugin ex_online) 0 0 ls2) ls2.
Definition ex_ready : ltask := default ex_best (ltasks ls3 !! 5%positive).
Definition ls4 : lstate :=
  set_ltasks {[5%positive := set_tsk (set_policy_litmus true (tsk (with_heaps 8 9 ex_ready))) (with_heaps 8 9 ex_ready)]}
    (allocated 5%positive 8 9 ex_ready 1 ls3).
Definition ls5 : lstate := after (alloc_ctrl_page 5%positive (Some 7%positive) ls4) ls4.

(** Task 5, now a real-time task with all it owns *)
Definition ex_rt : ltask := default ex_best (ltasks ls5 !! 5%positive).

Lemma ls0_booted : booted ls0.
Proof. split; [|done]. apply map_Forall_singleton. done. Qed.

Lemma ls3_reachable : lreachable ex_online ex_pid ls3.
Proof.
  exists ls0. split; [apply ls0_booted|].
  eapply rtc_l; [eapply (step_set_param _ _ ls0 5 (Some (Some ex_param)) 0 ls1); by vm_compute|].
  eapply rtc_l; [eapply (step_register _ _ ls1 "EDF-WM" (Some (wm_admit_task ex_online)) 0 ls2); done|].
  eapply rtc_l; [eapply (step_switch _ _ ls2 "EDF-WM" (edf_wm_plugin ex_online) 0 0 0 ls3); done|]. apply rtc_refl.
Qed.

Lemma ex_ready_lookup : ltasks ls3 !! 5%positive = Some ex_ready.
Proof. by vm_compute. Qed.

Lemma ex_ready_valid : valid_params ex_online (tsk ex_ready).
Proof. split_and!; by vm_compute. Qed.

Lemma ls4_run : setscheduler ex_online 5%positive true (Some 8%positive) (Some 9%positive) false ls3 = Some (0, ls4).
Proof.
  rewrite (setscheduler_run ex_online ls3 5%positive ex_ready 8 9 false ex_ready_lookup eq_refl ex_ready_valid); [|by vm_compute].
  done.
Qed.

Lemma fresh_empty p l : l = ∅ -> fresh p l.
Proof. intros -> q _. set_solver. Qed.

Lemma ls5_reachable : lreachable ex_online ex_pid ls5.
Proof.
  destruct ls3_reachable as (s0 & Hb & Hr). exists s0. split; [done|]. etrans; [exact Hr|].
  eapply rtc_l; [eapply (step_setscheduler _ _ ls3 5%positive true (Some 8%positive) (Some 9%positive) false 0 ls4);
    [apply fresh_empty; by vm_compute..|apply ls4_run]|].
  eapply rtc_l; [eapply (step_ctrl_page _ _ ls4 5%positive (Some 7%positive) 0 ls5); [apply fresh_empty; by vm_compute|done]|].
  apply rtc_refl.
Qed.

Lemma ex_rt_lookup : ltasks ls5 !! 5%positive = Some ex_rt.
Proof. by vm_compute. Qed.


Lemma switch_witness : switch_sched_plugin linux_sched_plugin 0 0 ls5 = Some (- EBUSY, ls5).
Proof.
  destruct (switch_needs_no_rt_task ex_online ex_pid ls5 linux_sched_plugin 0 0 ls5_reachable) as [H _].
  exact (H 5%positive ex_rt ex_rt_lookup eq_refl).
Defined.



Lemma set_param_get_param_witness :
  sys_get_rt_task_param ex_pid 5 false false ls1 = Some (0, Some (task_params ex_new), ls1).
Proof.
  assert (sys_set_rt_task_param ex_online ex_pid 5 (Some (Some ex_param)) ls0 = Some (0, ls1)) as H by by vm_compute.
  destruct (set_param_get_param ex_online ex_pid ls0 5 _ 0 ls1 H) as [[? _]|(_ & t & x & up & pol & _ & _ & _ & Eu & Ep & _ & _ & Hg & _)];
    [done|].
  injection Eu as <-. injection Ep as <-. exact Hg.
Defined.

Lemma forked_exit_faults_witness : exists s', dup_task_struct 5%positive 6%positive ls5 = Some (tt, s') /\ exit_litmus 6%positive false s' = None.
Proof.
  destruct (forked_exit_faults ls5 5%positive 6%positive ex_rt ex_rt_lookup eq_refl) as (y & s' & H & _ & _ & _ & Hq). exists s'. auto.
Defined.

(** Under the Linux plugin every admission is refused. *)
Definition ex_linux : lstate := set_plugins [] (set_litmus linux_sched_plugin ls3).
Definition ex_tried : lstate := after (litmus_admit_task ex_online 5%positive (Some 8%positive) (Some 9%positive) ex_linux) ex_linux.
Definition ex_twice : lstate := after (litmus_admit_task ex_online 5%positive (Some 10%positive) (Some 11%positive) ex_tried) ex_tried.

Lemma rejected_admission_leaks_witness : 8%positive ∈ nodes ex_twice.
Proof.
  refine (proj1 (rejected_admission_leaks ex_online ex_linux 5%positive ex_ready 8%positive 9%positive 10%positive 11%positive (- EINVAL) ex_tried (- EINVAL) ex_twice
    _ ex_ready_valid _ _ _ _ _)); [by vm_compute| |done|by vm_compute|done|by vm_compute].
  intros u y Hu. assert (ltasks ex_linux = {[5%positive := ex_ready]}) as E by by vm_compute.
  rewrite E in Hu. apply lookup_singleton_Some in Hu as [<- <-]. done.
Defined.

Lemma admit_without_memory_witness : litmus_admit_task ex_online 5%positive (Some 8%positive) None ls3 = None.
Proof. apply (admit_without_memory_faults ex_online ls3 5%positive ex_ready (Some 8%positive)); [by vm_compute|apply ex_ready_valid]. Defined.

End Boot.
