(* ===== verification/GlobalEdf.v ===== *)
(** * Global and clustered EDF

    src/litmus2010/litmus/sched_gsn_edf.c and sched_cedf.c.  C-EDF is GSN-EDF
    once per cluster of processors: the code is written here once, over what the
    two differ in ([gplugin]), and instantiated at the end.

    Every processor has an entry that says which task is linked to it (should
    run there) and which one is scheduled (does run there); the entries of a
    cluster are in a heap whose top is the processor with the lowest priority.
    The plugin keeps the links up to date whenever a job arrives or completes;
    [schedule] makes the linked task the scheduled one. *)

From S2P Require Import Prelude Task Edf PrioQueue Kernel RtDomain EdfDomain.
Open Scope Z_scope.

(** [cpu_entry_t] *)
Record cpu_entry : Type := mk_entry {
  e_cpu : Z;
  e_cluster : Z;             (* owning cluster (C-EDF) *)
  linked : option tid;       (* only RT tasks *)
  e_scheduled : option tid;  (* only RT tasks *)
  will_schedule : bool;
  hn_in_heap : bool          (* bheap_node_in_heap(hn) *)
}.

Definition set_linked v e := mk_entry (e_cpu e) (e_cluster e) v (e_scheduled e) (will_schedule e) (hn_in_heap e).
Definition set_e_scheduled v e := mk_entry (e_cpu e) (e_cluster e) (linked e) v (will_schedule e) (hn_in_heap e).
Definition set_will v e := mk_entry (e_cpu e) (e_cluster e) (linked e) (e_scheduled e) v (hn_in_heap e).
Definition set_hn v e := mk_entry (e_cpu e) (e_cluster e) (linked e) (e_scheduled e) (will_schedule e) v.

(** The state of the plugin; clusters are numbered, GSN-EDF has cluster 0 only. *)
Record gstate (Q : Type -> Type) : Type := mk_gstate {
  entries : Z -> cpu_entry;        (* per_cpu(.., cpu) *)
  cpu_heap : Z -> Q Z;             (* of each cluster, by CPU *)
  cl_cpus : Z -> list Z            (* the array cpus of each cluster *)
}.
Arguments mk_gstate {Q}.
Arguments entries {Q}.
Arguments cpu_heap {Q}.
Arguments cl_cpus {Q}.

(** What the plugins differ in: the cluster of a task and of an entry, and
    whether a dedicated release master exists. *)
Record gplugin : Type := mk_gplugin {
  task_cluster : (Z -> cpu_entry) -> task_struct -> Z;
  entry_cluster : cpu_entry -> Z;
  has_master : bool
}.

(** [_a->value] and [_b->value] are the entries of [a] and [b]; we want the
    lowest-priority CPU at the top of the heap. *)
Definition cpu_lower_prio (T : tid -> task_struct) (E : Z -> cpu_entry) (a b : Z) : bool :=
  edf_higher_prio T (linked (E b)) (linked (E a)).

Section Ops.
Context {Q : Type -> Type} `{PrioQueue Q}.
Abbreviation world := (world Q (gstate Q)).
Abbreviation K := (M world).
Variable G : gplugin.

Definition get_entry (c : Z) : K cpu_entry := gets (fun w => entries (plugin w) c).
Definition upd_entry (c : Z) (f : cpu_entry -> cpu_entry) : K unit :=
  modify (fun w => set_plugin (mk_gstate (upd (entries (plugin w)) c (f (entries (plugin w) c)))
                                 (cpu_heap (plugin w)) (cl_cpus (plugin w))) w).
Definition put_heap (d : Z) (h : Q Z) : K unit :=
  modify (fun w => set_plugin (mk_gstate (entries (plugin w)) (upd (cpu_heap (plugin w)) d h)
                                 (cl_cpus (plugin w))) w).

(** The domain of a task is that of its cluster. *)
Definition task_dom (t : tid) : K Z := x ← get_task t; g ← gets plugin; mret (task_cluster G (entries g) x).

Definition set_will_schedule : K unit := c ← gets this_cpu; upd_entry c (set_will true).
Definition clear_will_schedule : K unit := c ← gets this_cpu; upd_entry c (set_will false).
Definition test_will_schedule (c : Z) : K bool := e ← get_entry c; mret (will_schedule e).

(** ** The links *)

(** Move the cpu entry to the correct place to maintain order in the cpu queue. *)
Definition update_cpu_position (c : Z) : K unit :=
  e ← get_entry c;
  T ← gets tasks;
  let d := entry_cluster G e in
  when (hn_in_heap e)
    (g ← gets plugin;
     h ← of_option (pq_delete (cpu_lower_prio T (entries g)) (fun x => x =? c) (cpu_heap g d));
     put_heap d h);;
  g ← gets plugin;
  put_heap d (pq_insert (cpu_lower_prio T (entries g)) c (cpu_heap g d));;
  upd_entry c (set_hn true).

(** [bheap_peek] may move the minimum into the cache of the heap. *)
Definition lowest_prio_cpu (d : Z) : K Z :=
  T ← gets tasks;
  g ← gets plugin;
  let '(hn, h) := pq_peek (cpu_lower_prio T (entries g)) (cpu_heap g d) in
  put_heap d h;;
  of_option hn.

(** Handles the case where the to-be-linked task is already scheduled on a
    different CPU.  The result is what becomes linked to [c]. *)
Definition link_elsewhere (t : tid) (c : Z) : K (option tid) :=
  x ← get_task t;
  let on_cpu := scheduled_on x in
  if on_cpu =? NO_CPU then mret (Some t)
  else
    sched ← get_entry on_cpu;
    BUG_ON (bool_decide (linked sched = Some t));;
    if on_cpu =? c then mret (Some t)
    else
      upd_task t (set_linked_on (e_cpu sched));;
      upd_entry on_cpu (set_linked (Some t));;
      update_cpu_position on_cpu;;
      mret (linked sched).

Definition link_task_to_cpu (lnk : option tid) (c : Z) : K unit :=
  (match lnk with Some t => x ← get_task t; BUG_ON (negb (is_realtime x)) | None => mret tt end);;
  (* Currently linked task is set to be unlinked. *)
  e ← get_entry c;
  (match linked e with Some l => upd_task l (set_linked_on NO_CPU) | None => mret tt end);;
  (* Link new task to CPU. *)
  lnk ← match lnk with
        | Some t =>
            upd_task t (set_rt_flags RT_F_RUNNING);;
            lnk ← link_elsewhere t c;
            (match lnk with Some t => upd_task t (set_linked_on (e_cpu e)) | None => mret tt end);;
            mret lnk
        | None => mret None
        end;
  upd_entry c (set_linked lnk);;
  update_cpu_position c.

(** Make sure a task is not linked any longer to an entry where it was linked
    before. *)
Definition unlink (t : tid) : K unit :=
  x ← get_task t;
  if negb (linked_on x =? NO_CPU) then
    upd_task t (set_linked_on NO_CPU);;
    link_task_to_cpu None (linked_on x)
  else when (in_heap x) (d ← task_dom t; remove edf_ready_order d t).

(** force a CPU to reschedule *)
Definition gedf_preempt (c : Z) : K unit :=
  e ← get_entry c; preempt_if_preemptable (e_scheduled e) (e_cpu e).

(** Put an unlinked task into its domain. *)
Definition gedf_requeue (t : tid) : K unit :=
  x ← get_task t;
  BUG_ON (in_heap x);;
  d ← task_dom t;
  now ← litmus_clock;
  x ← get_task t;
  if is_released x now then __add_ready edf_ready_order dummy_resched d t
  else (* it has got to wait *) add_release edf_ready_order d t.

(** One round of the loop below: whether the loop goes on. *)
Definition preempt_once (d : Z) : K bool :=
  last ← lowest_prio_cpu d;
  e ← get_entry last;
  needed ← edf_preemption_needed d (linked e);
  if negb needed then mret false
  else
    (* preemption necessary *)
    task ← __take_ready edf_ready_order d;
    (match linked e with Some l => gedf_requeue l | None => mret tt end);;
    link_task_to_cpu task last;;
    gedf_preempt last;;
    mret true.

(** check for any necessary preemptions; [fuel] bounds the rounds *)
Fixpoint preempt_loop (fuel : nat) (d : Z) : K unit :=
  match fuel with
  | O => fault
  | S n => again ← preempt_once d; if (again : bool) then preempt_loop n d else mret tt
  end.

(** At most one round per CPU of the cluster links a task. *)
Definition check_for_preemptions (d : Z) : K unit :=
  g ← gets plugin; preempt_loop (S (length (pq_elems (cpu_heap g d)))) d.

(** task is either resumed or released *)
Definition gedf_job_arrival (t : tid) : K unit :=
  d ← task_dom t;
  gedf_requeue t;;
  check_for_preemptions d.

Definition gedf_release_jobs (d : Z) (o : tid) : K unit :=
  __merge_ready edf_ready_order dummy_resched d o;;
  check_for_preemptions d.

Definition gedf_job_completion (t : tid) : K unit :=
  (* prepare for next period *)
  upd_task t (fun x => prepare_for_next_period (set_rt_flags RT_F_SLEEP x));;
  _ ← litmus_clock;                 (* whether the next release is traced *)
  unlink t;;
  (* requeue, but don't requeue a blocking task *)
  x ← get_task t;
  when (is_running x) (gedf_job_arrival t).

(** ** The handlers *)
Definition gedf_tick (t : tid) : K unit :=
  x ← get_task t;
  when (is_realtime x && budget_enforced x && budget_exhausted x)
    (if negb (is_np x) then
       (* np tasks will be preempted when they become preemptable again *)
       set_tsk_need_resched t;; set_will_schedule
     else when (is_user_np x) (upd_task t request_exit_np)).

(** The final scheduling decision. Do we need to switch for some reason? *)
Definition gedf_decide (me : Z) (prev : tid) (np blocks exists_ : bool) : K (option tid) :=
  e ← get_entry me;
  if (negb np || blocks) && bool_decide (linked e <> e_scheduled e) then
    (* Schedule a linked job? *)
    (match linked e with Some l => upd_task l (set_scheduled_on (e_cpu e)) | None => mret tt end);;
    (* not gonna be scheduled soon *)
    (match e_scheduled e with Some s => upd_task s (set_scheduled_on NO_CPU) | None => mret tt end);;
    mret (linked e)
  else
    (* Only override Linux scheduler if we have a real-time task scheduled that
       needs to continue. *)
    mret (if exists_ then Some prev else None).

Definition gedf_schedule (prev : tid) : K (option tid) :=
  me ← gets this_cpu;
  e ← get_entry me;
  let d := entry_cluster G e in
  r ← get_dom d;
  (* The release master never schedules any real-time tasks. *)
  if has_master G && (release_master r =? e_cpu e) then mret None
  else
    clear_will_schedule;;
    x ← get_task prev;
    (* sanity checking *)
    BUG_ON (bool_decide (e_scheduled e <> None) && bool_decide (e_scheduled e <> Some prev));;
    BUG_ON (bool_decide (e_scheduled e <> None) && negb (is_realtime x));;
    BUG_ON (is_realtime x && bool_decide (e_scheduled e = None));;
    (* (0) Determine state *)
    y ← match e_scheduled e with Some s => x ← get_task s; mret (Some x) | None => mret None end;
    let test f := match y with Some x => f x | None => false end in
    let exists_ := bool_decide (e_scheduled e <> None) in
    let blocks := test (fun x => negb (is_running x)) in
    let out_of_time := test (fun x => budget_enforced x && budget_exhausted x) in
    let np := test is_np in
    let sleep := test (fun x => get_rt_flags x =? RT_F_SLEEP) in
    let preempt := bool_decide (e_scheduled e <> linked e) in
    (* If a task blocks we have no choice but to reschedule. *)
    (match e_scheduled e with
     | Some s =>
         when blocks (unlink s);;
         (* Request a sys_exit_np() call if we would like to preempt but cannot. *)
         when (np && (out_of_time || preempt || sleep)) (unlink s;; upd_task s request_exit_np);;
         (* Any task that is preemptable and either exhausts its execution budget
            or wants to sleep completes. *)
         when (negb np && (out_of_time || sleep) && negb blocks && negb preempt) (gedf_job_completion s)
     | None => mret tt
     end);;
    (* Link pending task if we became unlinked. *)
    e ← get_entry me;
    when (bool_decide (linked e = None)) (n ← __take_ready edf_ready_order d; link_task_to_cpu n me);;
    gedf_decide me prev np blocks exists_.

(** we just finished the switch away from prev *)
Definition gedf_finish_switch : K unit :=
  me ← gets this_cpu;
  c ← get_current;
  x ← get_task c;
  upd_entry me (set_e_scheduled (if is_realtime x then Some c else None)).

(** Prepare a task for running in RT mode *)
Definition gedf_task_new (t : tid) (on_rq running : bool) : K unit :=
  (* setup job params *)
  now ← litmus_clock;
  upd_task t (release_at now);;
  x ← get_task t;
  (if running then
     e ← get_entry (task_cpu x);
     BUG_ON (bool_decide (e_scheduled e <> None));;
     r ← get_dom (entry_cluster G e);
     if has_master G && (e_cpu e =? release_master r) then
       (* do not schedule on release master *)
       gedf_preempt (task_cpu x);; upd_task t (set_scheduled_on NO_CPU)
     else
       upd_entry (task_cpu x) (set_e_scheduled (Some t));;
       upd_task t (set_scheduled_on (task_cpu x))
   else upd_task t (set_scheduled_on NO_CPU));;
  upd_task t (set_linked_on NO_CPU);;
  gedf_job_arrival t.

Definition gedf_task_wake_up (t : tid) : K unit :=
  x ← get_task t;
  (* If a job resumes after being suspended due to acquiring a semaphore, it
     should never be treated as a new job release. *)
  (if get_rt_flags x =? RT_F_EXIT_SEM then upd_task t (set_rt_flags RT_F_RUNNING)
   else
     now ← litmus_clock;
     if is_tardy x now then upd_task t (release_at now)      (* new sporadic release *)
     else when (negb (time_slice x =? 0)) (upd_task t (set_rt_flags RT_F_RUNNING)));;
  gedf_job_arrival t.

Definition gedf_task_block (t : tid) : K unit :=
  unlink t;;
  x ← get_task t;
  BUG_ON (negb (is_realtime x)).

(** The entry is looked up in the array [cpus] of the cluster. *)
Definition gedf_task_exit (t : tid) : K unit :=
  d ← task_dom t;
  unlink t;;
  x ← get_task t;
  when (negb (scheduled_on x =? NO_CPU))
    (l ← gets (fun w => cl_cpus (plugin w) d);
     c ← of_option (l !! Z.to_nat (scheduled_on x));
     upd_entry c (set_e_scheduled None);;
     upd_task t (set_scheduled_on NO_CPU));;
  x ← get_task t;
  BUG_ON (negb (is_realtime x)).

End Ops.

(** ** GSN-EDF *)

(** The one domain of GSN-EDF *)
Definition gsnedf : Z := 0.
Definition gsn_plugin : gplugin := mk_gplugin (fun _ _ => gsnedf) (fun _ => gsnedf) true.

Section Gsn.
Context {Q : Type -> Type} `{PrioQueue Q}.
Abbreviation K := (M (world Q (gstate Q))).

Definition gsnedf_job_arrival : tid -> K unit := gedf_job_arrival gsn_plugin.
Definition gsnedf_release_jobs : Z -> tid -> K unit := gedf_release_jobs gsn_plugin.
Definition gsnedf_tick : tid -> K unit := gedf_tick.
Definition gsnedf_schedule : tid -> K (option tid) := gedf_schedule gsn_plugin.
Definition gsnedf_finish_switch : K unit := gedf_finish_switch.
Definition gsnedf_task_new : tid -> bool -> bool -> K unit := gedf_task_new gsn_plugin.
Definition gsnedf_task_wake_up : tid -> K unit := gedf_task_wake_up gsn_plugin.
Definition gsnedf_task_block : tid -> K unit := gedf_task_block gsn_plugin.
Definition gsnedf_task_exit : tid -> K unit := gedf_task_exit gsn_plugin.
Definition gsnedf_admit_task (_ : task_struct) : Z := 0.

(** The body of the loop of [gsnedf_activate_plugin] *)
Definition gsnedf_activate_cpu (c : Z) : K unit :=
  upd_entry c (fun e => set_e_scheduled None (set_linked None (set_will false (set_hn false e))));;
  r ← get_dom gsnedf;
  when (negb (c =? release_master r)) (update_cpu_position gsn_plugin c).

Fixpoint for_each_cpu (f : Z -> K unit) (l : list Z) : K unit :=
  match l with [] => mret tt | c :: l => f c;; for_each_cpu f l end.

(** [release_master_cpu] and the online CPUs are global variables of the kernel. *)
Definition gsnedf_activate_plugin (release_master_cpu : Z) (online : list Z) : K Z :=
  put_heap gsnedf pq_init;;
  upd_dom gsnedf (set_release_master release_master_cpu);;
  for_each_cpu gsnedf_activate_cpu online;;
  mret 0.

(** Before the plugin is registered; [NR_CPUS] is the size of the array. *)
Definition init_gsn_edf (NR_CPUS : nat) : K unit :=
  put_heap gsnedf pq_init;;
  modify (fun w => set_plugin (mk_gstate (entries (plugin w)) (cpu_heap (plugin w))
                                 (upd (cl_cpus (plugin w)) gsnedf (Z.of_nat <$> seq 0 NR_CPUS))) w);;
  for_each_cpu (fun c => upd_entry c (fun e => mk_entry c gsnedf (linked e) (e_scheduled e) false false))
    (Z.of_nat <$> seq 0 NR_CPUS);;
  edf_domain_init gsnedf.

End Gsn.

(** ** C-EDF *)
Definition remote_cluster (E : Z -> cpu_entry) (c : Z) : Z := e_cluster (E c).
Definition task_cpu_cluster (E : Z -> cpu_entry) (x : task_struct) : Z := remote_cluster E (get_partition x).
Definition cedf_plugin : gplugin := mk_gplugin task_cpu_cluster e_cluster false.

Section Cedf.
Context {Q : Type -> Type} `{PrioQueue Q}.
Abbreviation K := (M (world Q (gstate Q))).

Definition cedf_link_task_to_cpu : option tid -> Z -> K unit := link_task_to_cpu cedf_plugin.
Definition cedf_unlink : tid -> K unit := unlink cedf_plugin.
Definition cedf_requeue : tid -> K unit := gedf_requeue cedf_plugin.
Definition cedf_check_for_preemptions : Z -> K unit := check_for_preemptions cedf_plugin.
Definition cedf_job_arrival : tid -> K unit := gedf_job_arrival cedf_plugin.
Definition cedf_release_jobs : Z -> tid -> K unit := gedf_release_jobs cedf_plugin.
Definition cedf_job_completion : tid -> K unit := gedf_job_completion cedf_plugin.
Definition cedf_tick : tid -> K unit := gedf_tick.
Definition cedf_schedule : tid -> K (option tid) := gedf_schedule cedf_plugin.
Definition cedf_finish_switch : K unit := gedf_finish_switch.
Definition cedf_task_new : tid -> bool -> bool -> K unit := gedf_task_new cedf_plugin.
Definition cedf_task_wake_up : tid -> K unit := gedf_task_wake_up cedf_plugin.
Definition cedf_task_block : tid -> K unit := gedf_task_block cedf_plugin.
Definition cedf_task_exit : tid -> K unit := gedf_task_exit cedf_plugin.
Definition cedf_admit_task (x : task_struct) : Z :=
  if task_cpu x =? get_partition x then 0 else - EINVAL.

End Cedf.
