(* ===== verification/GlobalInv.v ===== *)
(** * Global EDF: links and queues

    The invariant of the global and clustered EDF plugins (GlobalEdf.v) and the
    effect of the operations on the links: each cluster's heap orders its
    processors by the priority of the linked tasks, links are symmetric, a
    linked task is in no queue, and a task that is scheduled somewhere is linked
    there or nowhere. *)

From stdpp Require Import sorting.
From S2P Require Import Prelude Task Edf PrioQueue Kernel RtDomain RtInv EdfDomain Partitioned GlobalEdf.
Open Scope Z_scope.

(** The clusters of tasks and entries are fixed. *)
Class GPluginLaws (G : gplugin) : Prop := {
  gl_task E E' x x' :
    (forall c, e_cluster (E' c) = e_cluster (E c)) -> get_partition x' = get_partition x ->
    task_cluster G E' x' = task_cluster G E x;
  gl_entry e e' : e_cluster e' = e_cluster e -> entry_cluster G e' = entry_cluster G e
}.

#[global] Instance gsn_laws : GPluginLaws gsn_plugin.
Proof. done. Qed.

#[global] Instance cedf_laws : GPluginLaws cedf_plugin.
Proof. split; [|done]. intros E E' x x' HE Hx. simpl. unfold task_cpu_cluster, remote_cluster. by rewrite Hx, HE. Qed.

(** The part of a task linking does not change. *)
Definition steady (x : task_struct) : task_struct := core (set_rt_flags 0 (set_linked_on 0 x)).

Lemma steady_field {A} (f : task_struct -> A) x y :
  (forall z, f (steady z) = f z) -> steady x = steady y -> f x = f y.
Proof. intros Hf E. by rewrite <- (Hf x), E, Hf. Qed.

Lemma core_steady x y : core x = core y -> steady x = steady y.
Proof.
  intros E. unfold steady. apply (core_congr (fun z => set_rt_flags 0 (set_linked_on 0 z))); [core_tac|done].
Qed.

Lemma steady_prio x y : steady x = steady y -> same_prio x y.
Proof. intros E. split_and!; by eapply (steady_field _ x y). Qed.

(** ** The order of the processors *)
Definition cpu_ok (T : tid -> task_struct) (E : Z -> cpu_entry) (c : Z) : Prop :=
  forall t, linked (E c) = Some t -> edf_ok T t.

Lemma prio_none T o : edf_higher_prio T None o = false.
Proof. done. Qed.

Lemma prio_idle T a : edf_higher_prio T (Some a) None = true.
Proof. unfold edf_higher_prio. rewrite bool_decide_false by done. done. Qed.

Lemma cpu_swo T E : pids_unique T -> swo_on (cpu_ok T E) (cpu_lower_prio T E).
Proof.
  intros Hu. pose proof (edf_swo T 0 Hu) as [I Tr N]. unfold cpu_ok, cpu_lower_prio. split.
  - intros a Ha. destruct (linked (E a)) as [t|]; [|done]. by apply I, Ha.
  - intros a b c Ha Hb Hc. destruct (linked (E b)) as [tb|]; [|by rewrite prio_none].
    destruct (linked (E c)) as [tc|]; [|by rewrite prio_none]. destruct (linked (E a)) as [ta|].
    + intros H1 H2. by apply (Tr tc tb ta); [apply Hc|apply Hb|apply Ha|..].
    + intros _ _. apply prio_idle.
  - intros a b c Ha Hb Hc. destruct (linked (E c)) as [tc|]; [|by rewrite prio_none].
    destruct (linked (E b)) as [tb|]; [|by rewrite prio_idle]. destruct (linked (E a)) as [ta|]; [|by rewrite prio_idle].
    intros H1 H2. by apply (N tc tb ta); [apply Hc|apply Hb|apply Ha|..].
Qed.

Section Global.
Context {Q : Type -> Type} `{PrioQueueLaws Q}.
Abbreviation world := (world Q (gstate Q)).
Abbreviation K := (M world).
Context (G : gplugin) `{!GPluginLaws G}.
(** The task whose job just completed, if any: it may wait for its next release
    though it has not been descheduled yet. *)
Context (busy : option tid).
Implicit Types (w : world) (t : tid) (c d : Z).

Abbreviation ent w := (entries (plugin w)).
Abbreviation link_of w c := (linked (entries (plugin w) c)).
Definition cpus_of w d : list Z := pq_elems (cpu_heap (plugin w) d).
Definition cl_task w t : Z := task_cluster G (ent w) (tasks w t).
Definition cl_entry w c : Z := entry_cluster G (ent w c).

(** [hole] names a processor whose linked task is already back in a queue. *)
Record ginv_at (hole : option Z) w : Prop := {
  gi_dom : edom_ok w;
  gi_pids : pids_unique (tasks w);
  gi_inh : no_inheritance (tasks w);
  gi_cpu c : e_cpu (ent w c) = c;
  gi_nocpu : hn_in_heap (ent w NO_CPU) = false;
  (* the heap of a cluster holds its processors, ordered by their links *)
  gi_heap d c : c ∈ cpus_of w d <-> hn_in_heap (ent w c) = true /\ cl_entry w c = d;
  gi_nodup d : NoDup (cpus_of w d);
  gi_wf d : pq_wf (cpu_ok (tasks w) (ent w)) (cpu_lower_prio (tasks w) (ent w)) (cpu_heap (plugin w) d);
  (* links *)
  gi_linked c t : link_of w c = Some t ->
    linked_on (tasks w t) = c /\ hn_in_heap (ent w c) = true /\ is_realtime (tasks w t) = true /\
    edf_ok (tasks w) t /\ cl_task w t = cl_entry w c /\ get_release (tasks w t) <= clock w;
  gi_on t : is_realtime (tasks w t) = true -> linked_on (tasks w t) <> NO_CPU ->
    link_of w (linked_on (tasks w t)) = Some t;
  gi_unqueued c t p : link_of w c = Some t -> hole <> Some c -> ~ at_place w t p;
  (* queues *)
  gi_place t p : at_place w t p -> cl_task w t = place_dom p;
  gi_ready t d : at_place w t (PReady d) -> get_release (tasks w t) <= clock w;
  (* where tasks are scheduled *)
  gi_home c t : link_of w c = Some t -> scheduled_on (tasks w t) = NO_CPU \/ scheduled_on (tasks w t) = c;
  gi_sched t : is_realtime (tasks w t) = true -> scheduled_on (tasks w t) <> NO_CPU ->
    hn_in_heap (ent w (scheduled_on (tasks w t))) = true /\ cl_entry w (scheduled_on (tasks w t)) = cl_task w t;
  gi_once t u : is_realtime (tasks w t) = true -> is_realtime (tasks w u) = true ->
    scheduled_on (tasks w t) <> NO_CPU -> scheduled_on (tasks w u) = scheduled_on (tasks w t) -> t = u;
  gi_wait t d o : is_realtime (tasks w t) = true -> scheduled_on (tasks w t) <> NO_CPU -> busy <> Some t ->
    ~ at_place w t (PRelease d o)
}.

Definition ginv : world -> Prop := ginv_at None.

(** Only the links change, and what depends on them. *)
Record relink w w' : Prop := {
  rl_task y : steady (tasks w' y) = steady (tasks w y);
  rl_entry c : set_will false (set_linked None (ent w' c)) = set_will false (set_linked None (ent w c));
  rl_heap d : cpus_of w' d ≡ₚ cpus_of w d;
  rl_cpus : cl_cpus (plugin w') = cl_cpus (plugin w);
  rl_cpu : this_cpu w' = this_cpu w;
  rl_curr : curr w' = curr w;
  rl_tick : tick_period w' = tick_period w
}.

Lemma relink_refl w : relink w w.
Proof. done. Qed.

Lemma relink_trans w1 w2 w3 : relink w1 w2 -> relink w2 w3 -> relink w1 w3.
Proof. intros [] []. split; intros; etransitivity; eauto. Qed.

Lemma relink_field {A} (f : task_struct -> A) w w' y :
  (forall z, f (steady z) = f z) -> relink w w' -> f (tasks w' y) = f (tasks w y).
Proof. intros Hf Hr. apply (steady_field f); [done|]. apply Hr. Qed.

Lemma relink_efield {A} (f : cpu_entry -> A) w w' c :
  (forall e, f (set_will false (set_linked None e)) = f e) -> relink w w' -> f (ent w' c) = f (ent w c).
Proof. intros Hf Hr. by rewrite <- (Hf (ent w' c)), (rl_entry _ _ Hr), Hf. Qed.

Lemma relink_entry w w' c : relink w w' -> cl_entry w' c = cl_entry w c.
Proof. intros Hr. apply gl_entry. by apply (relink_efield e_cluster). Qed.

Lemma relink_cluster w w' t : relink w w' -> cl_task w' t = cl_task w t.
Proof.
  intros Hr. apply gl_task; [intros c; by apply (relink_efield e_cluster)|]. by apply (relink_field get_partition).
Qed.

Lemma relink_prio w w' a b : relink w w' -> edf_higher_prio (tasks w') a b = edf_higher_prio (tasks w) a b.
Proof. intros Hr. apply edf_higher_prio_ext. intros y. apply steady_prio, Hr. Qed.

Lemma relink_ok w w' t : relink w w' -> edf_ok (tasks w) t -> edf_ok (tasks w') t.
Proof.
  intros Hr. unfold edf_ok, edf_dom, eff. rewrite (relink_field inh_task w w') by done.
  by rewrite (relink_field is_realtime w w'), (relink_field get_deadline w w') by done.
Qed.

(** The fields that stay the same *)
Ltac relink_facts R :=
  match type of R with
  | relink ?w ?w' =>
      assert (forall y, is_realtime (tasks w' y) = is_realtime (tasks w y)) as Frt by (intros y; by apply (relink_field is_realtime));
      assert (forall y, scheduled_on (tasks w' y) = scheduled_on (tasks w y)) as Fs by (intros y; by apply (relink_field scheduled_on));
      assert (forall y, get_release (tasks w' y) = get_release (tasks w y)) as Frel by (intros y; by apply (relink_field get_release));
      assert (forall c, hn_in_heap (ent w' c) = hn_in_heap (ent w c)) as Fh by (intros c; by apply (relink_efield hn_in_heap));
      assert (forall y, cl_task w' y = cl_task w y) as Ft by (intros y; by apply relink_cluster);
      assert (forall c, cl_entry w' c = cl_entry w c) as Fe by (intros c; by apply relink_entry)
  end.

(** ** The position of a processor *)
Lemma update_position_spec c w T0 E0 (Φ : unit -> world -> Prop) :
  let d := cl_entry w c in
  hn_in_heap (ent w c) = true -> c ∈ cpus_of w d -> NoDup (cpus_of w d) ->
  pids_unique T0 -> pids_unique (tasks w) ->
  pq_wf (cpu_ok T0 E0) (cpu_lower_prio T0 E0) (cpu_heap (plugin w) d) ->
  (forall a b, a <> c -> b <> c -> cpu_lower_prio (tasks w) (ent w) a b = cpu_lower_prio T0 E0 a b) ->
  (forall a, a <> c -> cpu_ok T0 E0 a -> cpu_ok (tasks w) (ent w) a) -> cpu_ok (tasks w) (ent w) c ->
  (forall g, (forall x, entries g x = ent w x) -> cl_cpus g = cl_cpus (plugin w) ->
     (forall d', pq_elems (cpu_heap g d') ≡ₚ cpus_of w d') ->
     (forall d', d' <> d -> cpu_heap g d' = cpu_heap (plugin w) d') ->
     pq_wf (cpu_ok (tasks w) (ent w)) (cpu_lower_prio (tasks w) (ent w)) (cpu_heap g d) ->
     Φ tt (set_plugin g w)) ->
  wp (update_cpu_position G c) Φ w.
Proof.
  intros d Hh Hin Hnd Hu0 Hu Hwf Hp Hk Hok HΦ. unfold update_cpu_position, get_entry. wp_steps. rewrite Hh.
  change (entry_cluster G (ent w c)) with d.
  set (lt := cpu_lower_prio (tasks w) (ent w)). set (lt0 := cpu_lower_prio T0 E0) in *.
  apply elem_of_Permutation in Hin as [r Hr].
  assert (forall a b, a ∈ r -> b ∈ r -> lt a b = lt0 a b) as Hlt.
  { intros a b Ha Hb. assert (a <> c /\ b <> c) as [Hac Hbc].
    { rewrite Hr in Hnd. apply NoDup_cons in Hnd as [Hn _]. split; by intros ->. }
    by apply Hp. }
  assert (Forall (fun e => (e =? c) = false) r) as Hne.
  { rewrite Hr in Hnd. apply NoDup_cons in Hnd as [Hn _]. apply Forall_forall. intros e He. apply Z.eqb_neq. by intros ->. }
  assert (pq_delete lt (fun x => x =? c) (cpu_heap (plugin w) d) = pq_delete lt0 (fun x => x =? c) (cpu_heap (plugin w) d)) as Hdel.
  { by apply (pq_delete_ext lt0 lt (fun x => x =? c) _ c r Hr (Z.eqb_refl c)). }
  destruct (pq_delete_total lt0 (fun x => x =? c) (cpu_heap (plugin w) d) c) as [h Hd].
  { fold (cpus_of w d). rewrite Hr. by left. } { apply Z.eqb_refl. }
  destruct (pq_delete_elems _ _ _ _ Hd) as (v & ->%Z.eqb_eq & Hv).
  assert (pq_elems h ≡ₚ r) as Hhr by (apply (Permutation_cons_inv (a := c)); rewrite <- Hv; exact Hr).
  pose proof (pq_delete_wf _ _ _ _ _ (cpu_swo T0 E0 Hu0) Hwf Hd) as Hw0.
  assert (pq_wf (cpu_ok (tasks w) (ent w)) lt h) as Hw1.
  { eapply pq_wf_ext; [exact Hw0| |intros a b; rewrite Hhr; apply Hlt].
    pose proof (pq_wf_D _ _ _ Hw0) as HD. rewrite Forall_forall in *. intros a Ha. apply Hk; [|by apply HD]. rewrite Hhr in Ha.
    intros ->. specialize (Hne c Ha). by rewrite Z.eqb_refl in Hne. }
  unfold when. wp_steps. change (cpu_lower_prio (tasks w) (ent w)) with lt. exists h. rewrite Hdel. split; [done|]. unfold put_heap. wp_steps. simpl. rewrite upd_eq.
  unfold upd_entry. wp_steps. simpl. apply HΦ; simpl.
  - intros x. unfold upd. case_decide; [|done]. subst x. destruct (ent w c). simpl in *. by subst.
  - done.
  - intros d'. unfold upd at 1. case_decide as Ed.
    + subst d'. rewrite pq_insert_elems, Hhr. by rewrite Hr.
    + by rewrite upd_ne.
  - intros d' Hd'. by rewrite !upd_ne.
  - rewrite upd_eq. apply pq_insert_wf; [by apply cpu_swo|done|done].
Qed.

(** ** Changing links *)

(** The task may be linked in the cluster [d]. *)
Record linkable w t d : Prop := {
  lb_rt : is_realtime (tasks w t) = true;
  lb_ok : edf_ok (tasks w) t;
  lb_cluster : cl_task w t = d;
  lb_release : get_release (tasks w t) <= clock w;
  lb_place p : ~ at_place w t p
}.

Lemma linked_linkable hole w c t :
  ginv_at hole w -> link_of w c = Some t -> hole <> Some c -> linkable w t (cl_entry w c).
Proof. intros I Hl Hh. destruct (gi_linked _ _ I c t Hl) as (_ & _ & ? & ? & ? & ?). split; try done. intros p. by eapply (gi_unqueued _ _ I). Qed.

Lemma linked_once hole w c c' t : ginv_at hole w -> link_of w c = Some t -> link_of w c' = Some t -> c = c'.
Proof. intros I H1 H2. apply (gi_linked _ _ I) in H1 as (<- & _), H2 as (? & _). done. Qed.

Lemma ginv_relink hole w w' :
  ginv_at hole w -> relink w w' -> edom_ok w' -> clock w <= clock w' ->
  (forall y p, at_place w' y p <-> at_place w y p) ->
  (forall d, pq_wf (cpu_ok (tasks w') (ent w')) (cpu_lower_prio (tasks w') (ent w')) (cpu_heap (plugin w') d)) ->
  (forall c t, link_of w' c = Some t -> linkable w t (cl_entry w c) /\ hn_in_heap (ent w c) = true /\
     linked_on (tasks w' t) = c /\ (scheduled_on (tasks w t) = NO_CPU \/ scheduled_on (tasks w t) = c)) ->
  (forall t, is_realtime (tasks w t) = true -> linked_on (tasks w' t) <> NO_CPU ->
     link_of w' (linked_on (tasks w' t)) = Some t) ->
  ginv w'.
Proof.
  intros I R Hd Hc Ha Hw Hl Hon.
  relink_facts R.
  destruct I. split; try done.
  - intros a b E. apply gi_pids0. by rewrite <- !(relink_field pid w w') by done.
  - intros y. by rewrite (relink_field inh_task w w').
  - intros c. by rewrite (relink_efield e_cpu w w').
  - by rewrite Fh.
  - intros d c. rewrite Fh, Fe, <- gi_heap0. by rewrite (rl_heap _ _ R).
  - intros d. by rewrite (rl_heap _ _ R).
  - intros c t E. destruct (Hl c t E) as ([] & ? & ? & ?). rewrite Fh, Frt, Ft, Fe, Frel.
    split_and!; try done; [by eapply relink_ok|lia].
  - intros t. rewrite Frt. apply Hon.
  - intros c t p E _. destruct (Hl c t E) as ([] & _). rewrite Ha. auto.
  - intros t p. rewrite Ha, Ft. apply gi_place0.
  - intros t d Hp%Ha. rewrite Frel. specialize (gi_ready0 t d Hp). lia.
  - intros c t E. rewrite Fs. by apply Hl.
  - intros t. rewrite Frt, Fs, Fh, Fe, Ft. apply gi_sched0.
  - intros t u. rewrite !Frt, !Fs. apply gi_once0.
  - intros t d o. rewrite Frt, Fs, Ha. apply gi_wait0.
Qed.

(** *** The heaps *)
Definition heaps_ok w : Prop :=
  forall d, pq_wf (cpu_ok (tasks w) (ent w)) (cpu_lower_prio (tasks w) (ent w)) (cpu_heap (plugin w) d).
Definition members_ok w : Prop :=
  forall d, NoDup (cpus_of w d) /\ forall c, c ∈ cpus_of w d <-> hn_in_heap (ent w c) = true /\ cl_entry w c = d.

(** [w] differs from [w'] in the heaps of the processors only. *)
Record reheaped w w' : Prop := {
  rh_world : exists g, w' = set_plugin g w;
  rh_entry x : ent w' x = ent w x;
  rh_cpus : cl_cpus (plugin w') = cl_cpus (plugin w);
  rh_members d : cpus_of w' d ≡ₚ cpus_of w d;
  rh_ok : heaps_ok w'
}.

(** The link of [c] changed after the heaps were in order (in [w0]); the order of
    the other processors is still the same. *)
Record others_same c w0 w : Prop := {
  os_order a b : a <> c -> b <> c -> cpu_lower_prio (tasks w) (ent w) a b = cpu_lower_prio (tasks w0) (ent w0) a b;
  os_ok a : a <> c -> cpu_ok (tasks w0) (ent w0) a -> cpu_ok (tasks w) (ent w) a
}.

Lemma reposition_spec c w0 w :
  heaps_ok w0 -> members_ok w -> cpu_heap (plugin w) = cpu_heap (plugin w0) ->
  pids_unique (tasks w0) -> pids_unique (tasks w) -> others_same c w0 w ->
  hn_in_heap (ent w c) = true -> cpu_ok (tasks w) (ent w) c ->
  wp (update_cpu_position G c) (fun _ w' => reheaped w w') w.
Proof.
  intros Hw0 Hm Eh Hu0 Hu [Hp Hk] Hc Hok. set (d := cl_entry w c). destruct (Hm d) as [Hnd Hin].
  apply (update_position_spec c w (tasks w0) (ent w0)); fold d; try done.
  - by apply Hin.
  - rewrite Eh. apply Hw0.
  - intros g He Hcp Hmem Hoth Hwf. split; try done; [by eexists|]. intros d'. simpl.
    assert (forall a b, cpu_lower_prio (tasks w) (entries g) a b = cpu_lower_prio (tasks w) (ent w) a b) as Ho.
    { intros a b. unfold cpu_lower_prio. by rewrite !He. }
    assert (forall a, cpu_ok (tasks w) (ent w) a -> cpu_ok (tasks w) (entries g) a) as Hoa.
    { intros a Ha t. rewrite He. apply Ha. }
    destruct (decide (d' = d)) as [->|Hne].
    + eapply pq_wf_ext; [exact Hwf| |intros; apply Ho]. eapply Forall_impl; [by eapply pq_wf_D|done].
    + rewrite Hoth by done. assert (forall a, a ∈ cpus_of w d' -> a <> c) as Hac.
      { intros a Ha ->. apply Hne. symmetry. by apply (proj2 (Hm d')) in Ha as [_ ?]. }
      specialize (Hw0 d'). rewrite <- Eh in Hw0. eapply pq_wf_ext; [exact Hw0| |].
      * pose proof (pq_wf_D _ _ _ Hw0) as HD. rewrite Forall_forall in *. intros a Ha. apply Hoa, Hk; [by apply Hac|by apply HD].
      * intros a b Ha Hb. rewrite Ho. apply Hp; by apply Hac.
Qed.

(** The links and the priorities of the others are the same. *)
Lemma others_steady c w0 w :
  (forall y, same_prio (tasks w y) (tasks w0 y)) -> (forall a, a <> c -> link_of w a = link_of w0 a) -> others_same c w0 w.
Proof.
  intros Hp Hl. split.
  - intros a b Ha Hb. unfold cpu_lower_prio. rewrite !Hl by done. apply edf_higher_prio_ext. intros y. apply Hp.
  - intros a Ha Hok t. rewrite Hl by done. intros Ht%Hok. revert Ht. unfold edf_ok, edf_dom, eff. destruct (Hp t) as (-> & _).
    by destruct (Hp (default t (inh_task (tasks w0 t)))) as (_ & _ & -> & ->).
Qed.

Lemma ginv_members hole w : ginv_at hole w -> members_ok w.
Proof. intros I d. split; [apply (gi_nodup _ _ I)|apply (gi_heap _ _ I)]. Qed.

(** *** Setting [linked_on] *)
Definition put_on (v : Z) (o : option tid) (T : tid -> task_struct) : tid -> task_struct :=
  match o with Some l => upd T l (set_linked_on v (T l)) | None => T end.

Lemma put_on_on v o T y : linked_on (put_on v o T y) = if decide (o = Some y) then v else linked_on (T y).
Proof. destruct o as [l|]; simpl; [|done]. unfold upd. repeat case_decide; naive_solver. Qed.

Lemma put_on_steady v o T y : steady (put_on v o T y) = steady (T y) /\ in_heap (put_on v o T y) = in_heap (T y).
Proof. destruct o as [l|]; simpl; [|done]. unfold upd. case_decide; by subst. Qed.

Lemma wp_put_on v o w (Φ : unit -> world -> Prop) :
  Φ tt (set_tasks (put_on v o (tasks w)) w) ->
  wp (match o with Some l => upd_task l (set_linked_on v) | None => mret tt end) Φ w.
Proof. destruct o as [l|]; simpl; [done|]. by destruct w. Qed.

Lemma wp_upd_task t f w (Φ : unit -> world -> Prop) :
  Φ tt (set_tasks (upd (tasks w) t (f (tasks w t))) w) -> wp (upd_task t f) Φ w.
Proof. done. Qed.

Lemma wp_upd_entry c f w (Φ : unit -> world -> Prop) :
  Φ tt (set_plugin (mk_gstate (upd (ent w) c (f (ent w c))) (cpu_heap (plugin w)) (cl_cpus (plugin w))) w) ->
  wp (upd_entry c f) Φ w.
Proof. done. Qed.

Lemma flags_steady f t (T : tid -> task_struct) y :
  steady (upd T t (set_rt_flags f (T t)) y) = steady (T y) /\ in_heap (upd T t (set_rt_flags f (T t)) y) = in_heap (T y) /\
  linked_on (upd T t (set_rt_flags f (T t)) y) = linked_on (T y).
Proof. unfold upd. case_decide; by subst. Qed.

(** *** The new links *)

(** Everything but tasks and plugin state is the same. *)
Definition only_links w w' : Prop := exists T g, w' = set_plugin g (set_tasks T w).

Record linked_as (lk : Z -> option tid) w w' : Prop := {
  la_inv : ginv w';
  la_relink : relink w w';
  la_only : only_links w w';
  la_link x : link_of w' x = lk x
}.

Lemma link_finish hole w w3 w' lk :
  ginv_at hole w -> only_links w w3 -> reheaped w3 w' ->
  (forall y, steady (tasks w3 y) = steady (tasks w y) /\ in_heap (tasks w3 y) = in_heap (tasks w y)) ->
  (forall x, ent w3 x = set_linked (lk x) (ent w x)) -> cl_cpus (plugin w3) = cl_cpus (plugin w) ->
  (forall d, cpus_of w3 d ≡ₚ cpus_of w d) ->
  (forall c t, lk c = Some t -> linkable w t (cl_entry w c) /\ hn_in_heap (ent w c) = true /\
     linked_on (tasks w3 t) = c /\ (scheduled_on (tasks w t) = NO_CPU \/ scheduled_on (tasks w t) = c)) ->
  (forall t, is_realtime (tasks w t) = true -> linked_on (tasks w3 t) <> NO_CPU -> lk (linked_on (tasks w3 t)) = Some t) ->
  linked_as lk w w'.
Proof.
  intros I (T & g3 & ->) [(g & ->) He Hcp Hmem Hok] HT HE Hcp3 Hmem3 Hl Hon. simpl in *.
  change (set_plugin g (set_plugin g3 (set_tasks T w))) with (set_plugin g (set_tasks T w)) in *.
  assert (forall x, linked (entries g x) = lk x) as Hlk by (intros x; by rewrite He, HE).
  assert (relink w (set_plugin g (set_tasks T w))) as R.
  { split; simpl; try done.
    - intros y. apply HT.
    - intros c. rewrite He, HE. by destruct (ent w c).
    - intros d. etransitivity; [apply Hmem|]. apply Hmem3.
    - congruence. }
  split; [|done|by exists T, g|done]. apply (ginv_relink hole w); try done.
  - apply edom_ok_plugin. apply edom_ok_prio; [apply I| | |]; intros y.
    + apply steady_prio, HT.
    + apply (steady_field get_release); [done|apply HT].
    + apply HT.
  - intros c t E. simpl in *. rewrite Hlk in E. by apply Hl.
  - intros t Hr Ho. simpl in *. rewrite Hlk. by apply Hon.
Qed.

(** What [link_task_to_cpu] makes of the links: a task that is scheduled on [s]
    is linked there, and the task that was linked there takes its place. *)
Definition relinked (lk : Z -> option tid) (c : Z) (t : tid) (s : Z) : Z -> option tid :=
  if bool_decide (s = NO_CPU \/ s = c) then upd lk c (Some t) else upd (upd lk s (Some t)) c (lk s).

Section Link.
Context (w : world) (t : tid) (c : Z).
Hypothesis Hinv : ginv_at (Some c) w.
Hypothesis Hhn : hn_in_heap (ent w c) = true.
Hypothesis Hlb : linkable w t (cl_entry w c).
Hypothesis Hfree : forall x, link_of w x <> Some t.

(** The tasks after the old link is undone *)
Definition cleared : tid -> task_struct :=
  let T := put_on NO_CPU (link_of w c) (tasks w) in upd T t (set_rt_flags RT_F_RUNNING (T t)).

Lemma cleared_steady y : steady (cleared y) = steady (tasks w y) /\ in_heap (cleared y) = in_heap (tasks w y).
Proof.
  unfold cleared. set (T := put_on _ _ _). destruct (flags_steady RT_F_RUNNING t T y) as (-> & -> & _).
  apply put_on_steady.
Qed.

Lemma cleared_on y : linked_on (cleared y) = if decide (link_of w c = Some y) then NO_CPU else linked_on (tasks w y).
Proof.
  unfold cleared. set (T := put_on _ _ _). destruct (flags_steady RT_F_RUNNING t T y) as (_ & _ & ->). apply put_on_on.
Qed.

Lemma not_no_cpu x : hn_in_heap (ent w x) = true -> x <> NO_CPU.
Proof. intros Hx ->. by rewrite (gi_nocpu _ _ Hinv) in Hx. Qed.

Lemma pids_steady T : (forall y, steady (T y) = steady (tasks w y)) -> pids_unique T.
Proof.
  intros HT a b E. apply (gi_pids _ _ Hinv). by rewrite <- !(steady_field pid _ _ (fun _ => eq_refl) (HT _)).
Qed.

Lemma ok_steady T y : (forall y, steady (T y) = steady (tasks w y)) -> edf_ok (tasks w) y -> edf_ok T y.
Proof.
  intros HT. unfold edf_ok, edf_dom, eff. rewrite (steady_field inh_task _ _ (fun _ => eq_refl) (HT y)).
  set (z := default y _). by rewrite (steady_field is_realtime _ _ (fun _ => eq_refl) (HT z)),
    (steady_field get_deadline _ _ (fun _ => eq_refl) (HT z)).
Qed.

(** The task is not scheduled elsewhere. *)
Lemma link_here w3 :
  scheduled_on (tasks w t) = NO_CPU \/ scheduled_on (tasks w t) = c ->
  w3 = set_plugin (mk_gstate (upd (ent w) c (set_linked (Some t) (ent w c))) (cpu_heap (plugin w)) (cl_cpus (plugin w)))
         (set_tasks (put_on c (Some t) cleared) w) ->
  wp (update_cpu_position G c) (fun _ w' => linked_as (upd (fun x => link_of w x) c (Some t)) w w') w3.
Proof.
  intros Hs ->. set (w3 := set_plugin _ _).
  assert (forall y, steady (tasks w3 y) = steady (tasks w y) /\ in_heap (tasks w3 y) = in_heap (tasks w y)) as HT.
  { intros y. change (tasks w3 y) with (put_on c (Some t) cleared y). destruct (put_on_steady c (Some t) cleared y) as [-> ->]. apply cleared_steady. }
  assert (forall y, linked_on (tasks w3 y) = if decide (y = t) then c else if decide (link_of w c = Some y) then NO_CPU else linked_on (tasks w y)) as Hon.
  { intros y. change (tasks w3 y) with (put_on c (Some t) cleared y). rewrite put_on_on, cleared_on. repeat case_decide; naive_solver. }
  assert (forall x, ent w3 x = set_linked (upd (fun x => link_of w x) c (Some t) x) (ent w x)) as HE.
  { intros x. simpl. unfold upd. case_decide; [by subst|]. by destruct (ent w x). }
  eapply wp_mono; [apply (reposition_spec c w w3)|]; try done.
  - exact (gi_wf _ _ Hinv).
  - intros d. destruct (ginv_members _ _ Hinv d) as [? Hin]. split; [done|]. intros x.
    change (cpus_of w3 d) with (cpus_of w d). unfold cl_entry. rewrite HE. simpl.
    rewrite (gl_entry (ent w x)) by done. apply Hin.
  - apply Hinv.
  - apply pids_steady. intros y. apply HT.
  - apply others_steady; [intros y; apply steady_prio, HT|]. intros a Ha. rewrite HE. simpl. by rewrite upd_ne.
  - rewrite HE. done.
  - intros u. rewrite HE. simpl. rewrite upd_eq. intros [= <-]. apply ok_steady; [intros y; apply HT|apply Hlb].
  - intros ? w' Hr. apply (link_finish (Some c) w w3); try done.
    + by eexists _, _.
    + intros x u. unfold upd. case_decide as Ex.
      * subst x. intros [= <-]. split_and!; [done|done| |done]. by rewrite Hon, decide_True.
      * intros E. assert (u <> t) by (intros ->; by destruct (Hfree x)).
        assert (link_of w c <> Some u) by (intros E'; apply Ex; symmetry; by eapply (linked_once (Some c) w)).
        split_and!; [eapply (linked_linkable (Some c)); try done; congruence|apply (gi_linked _ _ Hinv x u E)|
          |by apply (gi_home _ _ Hinv)].
        rewrite Hon, !decide_False by done. apply (gi_linked _ _ Hinv x u E).
    + intros u Hr'. rewrite Hon. case_decide as Eu; [intros _; subst; by rewrite upd_eq|]. case_decide as El; [done|].
      intros Ho. pose proof (gi_on _ _ Hinv u Hr' Ho) as E. rewrite upd_ne; [done|]. intros Ec. rewrite Ec in E. done.
Qed.

(** The task is scheduled on [s]: first [s] is linked to it. *)
Abbreviation s := (scheduled_on (tasks w t)).
Definition swapping : world :=
  set_plugin (mk_gstate (upd (ent w) s (set_linked (Some t) (ent w s))) (cpu_heap (plugin w)) (cl_cpus (plugin w)))
    (set_tasks (put_on s (Some t) cleared) w).

Lemma swapping_entry x : ent swapping x = set_linked (upd (fun x => link_of w x) s (Some t) x) (ent w x).
Proof. simpl. unfold upd. case_decide as E; [by rewrite E|]. by destruct (ent w x). Qed.

Lemma swapping_steady y : steady (tasks swapping y) = steady (tasks w y) /\ in_heap (tasks swapping y) = in_heap (tasks w y).
Proof.
  change (tasks swapping y) with (put_on s (Some t) cleared y). destruct (put_on_steady s (Some t) cleared y) as [-> ->].
  apply cleared_steady.
Qed.

Lemma swapping_members : members_ok swapping.
Proof.
  intros d. destruct (ginv_members _ _ Hinv d) as [? Hin]. split; [done|]. intros x.
  change (cpus_of swapping d) with (cpus_of w d). unfold cl_entry. rewrite swapping_entry. simpl.
  rewrite (gl_entry (ent w x)) by done. apply Hin.
Qed.

Lemma link_swap_first : s <> NO_CPU -> wp (update_cpu_position G s) (fun _ w' => reheaped swapping w') swapping.
Proof.
  intros Hs. apply (reposition_spec s w swapping); try done.
  - exact (gi_wf _ _ Hinv).
  - apply swapping_members.
  - apply Hinv.
  - apply pids_steady. intros y. apply swapping_steady.
  - apply others_steady; [intros y; apply steady_prio, swapping_steady|].
    intros a Ha. rewrite swapping_entry. simpl. by rewrite upd_ne.
  - rewrite swapping_entry. apply (gi_sched _ _ Hinv); [apply Hlb|done].
  - intros u. rewrite swapping_entry. simpl. rewrite upd_eq. intros [= <-].
    apply ok_steady; [intros y; apply swapping_steady|apply Hlb].
Qed.

Lemma link_swap_second w4 w5 :
  s <> NO_CPU -> s <> c -> reheaped swapping w4 ->
  w5 = set_plugin (mk_gstate (upd (ent w4) c (set_linked (link_of w s) (ent w4 c))) (cpu_heap (plugin w4)) (cl_cpus (plugin w4)))
         (set_tasks (put_on c (link_of w s) (tasks w4)) w4) ->
  wp (update_cpu_position G c) (fun _ w' => linked_as (upd (upd (fun x => link_of w x) s (Some t)) c (link_of w s)) w w') w5.
Proof.
  intros Hs Hsc [(g & ->) He Hcp Hmem Hok] ->. set (w4 := set_plugin g swapping) in *. set (w5 := set_plugin _ _).
  set (lk := upd (upd _ s (Some t)) c (link_of w s)).
  assert (forall y, steady (tasks w5 y) = steady (tasks w y) /\ in_heap (tasks w5 y) = in_heap (tasks w y)) as HT.
  { intros y. change (tasks w5 y) with (put_on c (link_of w s) (tasks swapping) y).
    destruct (put_on_steady c (link_of w s) (tasks swapping) y) as [-> ->]. apply swapping_steady. }
  assert (link_of w s <> Some t) as Hst by apply Hfree.
  assert (forall y, linked_on (tasks w5 y) = if decide (y = t) then s else if decide (link_of w s = Some y) then c else
    if decide (link_of w c = Some y) then NO_CPU else linked_on (tasks w y)) as Hon.
  { intros y. change (tasks w5 y) with (put_on c (link_of w s) (put_on s (Some t) cleared) y).
    rewrite !put_on_on, cleared_on. repeat case_decide; naive_solver. }
  assert (forall x, ent w5 x = set_linked (lk x) (ent w x)) as HE.
  { intros x. unfold lk. simpl. unfold upd at 1 2. case_decide as E; [subst x|]; rewrite He, swapping_entry; done. }
  eapply wp_mono; [apply (reposition_spec c w4 w5)|]; try done.
  - intros d. destruct (swapping_members d) as [Hnd Hin]. change (cpus_of w5 d) with (cpus_of w4 d).
    split; [by rewrite (Hmem d)|]. intros x. rewrite (Hmem d), Hin. unfold cl_entry. rewrite HE, swapping_entry. simpl.
    assert (forall o, entry_cluster G (set_linked o (ent w x)) = entry_cluster G (ent w x)) as F by (intros o; by apply gl_entry).
    by rewrite !F.
  - apply pids_steady. intros y. apply swapping_steady.
  - apply pids_steady. intros y. apply HT.
  - apply others_steady; [|intros a Ha; simpl; by rewrite upd_ne].
    intros y. apply steady_prio. rewrite (proj1 (HT y)). symmetry. apply swapping_steady.
  - rewrite HE. done.
  - intros u. rewrite HE. unfold lk. simpl. rewrite upd_eq. intros E. apply ok_steady; [intros y; apply HT|].
    by apply (gi_linked _ _ Hinv) in E as (_ & _ & _ & ? & _).
  - intros ? w' Hr. destruct (gi_sched _ _ Hinv t (lb_rt _ _ _ Hlb) Hs) as [Hhs Hcs]. rewrite (lb_cluster _ _ _ Hlb) in Hcs.
    apply (link_finish (Some c) w w5); try done.
    + by eexists _, _.
    + intros x u. unfold lk, upd. case_decide as Ex; [subst x|case_decide as Es; [subst x|]].
      * intros E. destruct (gi_linked _ _ Hinv s u E) as (Hu & _ & Hur & _). split_and!; [|done| |].
        -- rewrite <- Hcs. eapply (linked_linkable (Some c)); try done. congruence.
        -- rewrite Hon, decide_False, decide_True by congruence. done.
        -- destruct (gi_home _ _ Hinv s u E) as [?|Eh]; [by left|]. exfalso. apply Hst. rewrite E. f_equal.
           by apply (gi_once _ _ Hinv u t Hur (lb_rt _ _ _ Hlb)); rewrite Eh.
      * intros [= <-]. split_and!; [by rewrite Hcs|done|by rewrite Hon, decide_True|by right].
      * intros E. assert (u <> t) by (intros ->; by destruct (Hfree x)).
        assert (forall z, z <> x -> link_of w z <> Some u) as Hz by (intros z Hz E'; apply Hz; by eapply (linked_once (Some c) w)).
        split_and!; [eapply (linked_linkable (Some c)); try done; congruence|apply (gi_linked _ _ Hinv x u E)|
          |by apply (gi_home _ _ Hinv)].
        rewrite Hon, !decide_False by auto. apply (gi_linked _ _ Hinv x u E).
    + intros u Hr'. rewrite Hon. unfold lk. case_decide as Eu; [intros _; subst; by rewrite upd_ne, upd_eq|].
      case_decide as El; [intros _; by rewrite upd_eq|]. case_decide as El'; [done|].
      intros Ho. pose proof (gi_on _ _ Hinv u Hr' Ho) as E. rewrite !upd_ne; [done|intros Ec; by rewrite Ec in E..].
Qed.

Lemma link_task_spec :
  wp (link_task_to_cpu G (Some t) c) (fun _ w' => linked_as (relinked (fun x => link_of w x) c t s) w w') w.
Proof.
  unfold link_task_to_cpu, get_task, get_entry. wp_steps; [by rewrite (lb_rt _ _ _ Hlb)|]. wp_steps.
  apply wp_put_on. wp_step. apply wp_bind, wp_upd_task. wp_step.
  change (set_tasks _ _) with (set_tasks cleared w).
  unfold link_elsewhere, get_task, get_entry. wp_steps. simpl tasks.
  assert (scheduled_on (cleared t) = s) as -> by (apply (steady_field scheduled_on); [done|apply cleared_steady]).
  rewrite (gi_cpu _ _ Hinv). unfold relinked. destruct (Z.eqb_spec s NO_CPU) as [En|En].
  - rewrite bool_decide_true by auto. wp_steps. apply (wp_put_on c (Some t)). wp_steps. apply wp_upd_entry.
    apply link_here; [by left|done].
  - wp_steps; [apply bool_decide_false, Hfree|]. destruct (Z.eqb_spec s c) as [Ec|Ec].
    + rewrite bool_decide_true by auto. wp_steps. apply (wp_put_on c (Some t)). wp_steps. apply wp_upd_entry.
      apply link_here; [by right|done].
    + rewrite bool_decide_false by naive_solver. rewrite (gi_cpu _ _ Hinv). wp_step. apply (wp_put_on s (Some t)).
      wp_step. apply wp_upd_entry. wp_step. eapply wp_mono; [apply link_swap_first, En|]. intros ? w4 Hr. wp_steps.
      apply (wp_put_on c (link_of w s)). wp_steps. apply wp_upd_entry. by apply (link_swap_second w4).
Qed.

End Link.

(** *** No task is linked *)

(** [T] has [linked_on] cleared for what was linked to [c]. *)
Lemma link_none_spec c w w1 :
  ginv w -> hn_in_heap (ent w c) = true -> (exists T, w1 = set_tasks T w) ->
  (forall y, steady (tasks w1 y) = steady (tasks w y) /\ in_heap (tasks w1 y) = in_heap (tasks w y)) ->
  (forall y, link_of w c <> Some y -> linked_on (tasks w1 y) = linked_on (tasks w y)) ->
  wp (link_task_to_cpu G None c) (fun _ w' => linked_as (upd (fun x => link_of w x) c None) w w') w1.
Proof.
  intros Hinv Hhn (T1 & ->) HT1 Hon1. unfold link_task_to_cpu, get_entry. wp_steps. apply wp_put_on. wp_steps.
  apply wp_upd_entry. set (w3 := set_plugin _ _). simpl in HT1, Hon1.
  assert (forall y, steady (tasks w3 y) = steady (tasks w y) /\ in_heap (tasks w3 y) = in_heap (tasks w y)) as HT.
  { intros y. change (tasks w3 y) with (put_on NO_CPU (link_of w c) T1 y).
    destruct (put_on_steady NO_CPU (link_of w c) T1 y) as [-> ->]. apply HT1. }
  assert (forall y, linked_on (tasks w3 y) = if decide (link_of w c = Some y) then NO_CPU else linked_on (tasks w y)) as Hon.
  { intros y. change (tasks w3 y) with (put_on NO_CPU (link_of w c) T1 y). rewrite put_on_on. case_decide; [done|auto]. }
  assert (forall x, ent w3 x = set_linked (upd (fun x => link_of w x) c None x) (ent w x)) as HE.
  { intros x. simpl. unfold upd. case_decide; [by subst|]. by destruct (ent w x). }
  eapply wp_mono; [apply (reposition_spec c w w3)|]; try done.
  - exact (gi_wf _ _ Hinv).
  - intros d. destruct (ginv_members _ _ Hinv d) as [? Hin]. split; [done|]. intros x.
    change (cpus_of w3 d) with (cpus_of w d). unfold cl_entry. rewrite HE. simpl.
    rewrite (gl_entry (ent w x)) by done. apply Hin.
  - apply Hinv.
  - intros a b E. apply (gi_pids _ _ Hinv). by rewrite <- !(steady_field pid _ _ (fun _ => eq_refl) (proj1 (HT _))).
  - apply others_steady; [intros y; apply steady_prio, HT|]. intros a Ha. rewrite HE. simpl. by rewrite upd_ne.
  - by rewrite HE.
  - intros u. rewrite HE. simpl. by rewrite upd_eq.
  - intros ? w' Hr. apply (link_finish None w w3); try done.
    + by eexists _, _.
    + intros x u. unfold upd. case_decide as Ex; [done|]. intros E.
      assert (link_of w c <> Some u) by (intros E'; apply Ex; symmetry; by eapply (linked_once None w)).
      split_and!; [by eapply (linked_linkable None)|apply (gi_linked _ _ Hinv x u E)| |by apply (gi_home _ _ Hinv)].
      rewrite Hon, decide_False by done. apply (gi_linked _ _ Hinv x u E).
    + intros u Hr'. rewrite Hon. case_decide as El; [done|]. intros Ho. pose proof (gi_on _ _ Hinv u Hr' Ho) as E.
      rewrite upd_ne; [done|]. intros Ec. by rewrite Ec in E.
Qed.

(** [unlink] of a linked task *)
Lemma unlink_linked_spec c t w :
  ginv w -> link_of w c = Some t ->
  wp (unlink G t) (fun _ w' => linked_as (upd (fun x => link_of w x) c None) w w') w.
Proof.
  intros Hinv Hl. destruct (gi_linked _ _ Hinv c t Hl) as (Ho & Hh & _). unfold unlink, get_task. wp_steps. rewrite Ho.
  destruct (Z.eqb_spec c NO_CPU) as [->|]; [by rewrite (gi_nocpu _ _ Hinv) in Hh|]. simpl. unfold upd_task. wp_steps.
  apply link_none_spec; [done|done|by eexists| |]; intros y; simpl; unfold upd; case_decide; subst; try done.
Qed.

(** ** Queue operations *)

Lemma only_links_timed w w' : only_links w w' -> timed w w'.
Proof. intros (T & g & ->). by apply timed_same. Qed.
Lemma in_time_relink w w' : relink w w' -> timed w w' -> in_time w -> in_time w'.
Proof.
  intros R (_ & Hc & He) [Hk Ht]. split; [auto|]. intros t. rewrite He.
  rewrite (relink_field is_realtime w w'), (relink_field get_release w w'), (relink_field get_deadline w w') by done. apply Ht.
Qed.

Lemma env_relink w w' : same_env w w' -> relink w w'.
Proof.
  intros [Hcore _ _ Hcpu Hcur Htick Hpl]. split; rewrite ?Hpl; try done.
  - intros y. by apply core_steady.
  - intros d. unfold cpus_of. by rewrite Hpl.
Qed.

(** The conditions a task in a queue meets. *)
Definition place_ok w u (q : place) : Prop :=
  cl_task w u = place_dom q /\
  match q with
  | PReady _ => get_release (tasks w u) <= clock w
  | PRelease _ _ => is_realtime (tasks w u) = true -> busy <> Some u -> scheduled_on (tasks w u) = NO_CPU
  end.

Lemma ginv_place_ok hole w u q : ginv_at hole w -> at_place w u q -> place_ok w u q.
Proof.
  intros I Hq. split; [by apply (gi_place _ _ I)|]. destruct q as [d|d o]; [by eapply (gi_ready _ _ I)|]. intros Hr Hb.
  destruct (decide (scheduled_on (tasks w u) = NO_CPU)) as [|Hs]; [done|]. by destruct (gi_wait _ _ I u d o Hr Hs Hb).
Qed.

(** Operations on the queues leave the links alone. *)
Lemma ginv_env hole hole' w w' :
  ginv_at hole w -> same_env w w' -> edom_ok w' ->
  (forall c u q, link_of w c = Some u -> hole' <> Some c -> ~ at_place w' u q) ->
  (forall u q, at_place w' u q -> place_ok w u q) -> ginv_at hole' w'.
Proof.
  intros I Henv Hd Hun Hp. pose proof (env_relink w w' Henv) as R. destruct Henv as [Hcore Hclk _ Hcpu Hcur Htick Hpl].
  assert (forall y, linked_on (tasks w' y) = linked_on (tasks w y)) as Fl by (intros y; by apply (core_field linked_on)).
  relink_facts R. destruct I. split; try done; rewrite ?Hpl; try done.
  - intros a b E. apply gi_pids0. by rewrite <- !(relink_field pid w w') by done.
  - intros y. by rewrite (relink_field inh_task w w').
  - intros d c. rewrite Fe. unfold cpus_of. rewrite Hpl. apply gi_heap0.
  - intros d. unfold cpus_of. rewrite Hpl. apply gi_nodup0.
  - intros d. eapply pq_wf_ext; [apply gi_wf0| |].
    + eapply Forall_impl; [eapply pq_wf_D, gi_wf0|]. intros c Hc u Hu. eapply relink_ok; [done|]. by apply Hc.
    + intros a b _ _. by apply relink_prio.
  - intros c u E. rewrite Fl, Frt, Ft, Fe, Frel, Hclk. destruct (gi_linked0 c u E) as (? & ? & ? & ? & ? & ?).
    split_and!; try done. by eapply relink_ok.
  - intros u. rewrite Frt, Fl. apply gi_on0.
  - intros u q Hq%Hp. rewrite Ft. apply Hq.
  - intros u d Hq%Hp. rewrite Frel, Hclk. apply Hq.
  - intros c u E. rewrite Fs. by apply gi_home0.
  - intros u. rewrite Frt, Fs, Fe, Ft. apply gi_sched0.
  - intros u v. rewrite !Frt, !Fs. apply gi_once0.
  - intros u d o. rewrite Frt, Fs. intros Hr Hs Hb Hq%Hp. by apply Hs, Hq.
Qed.

Lemma ginv_quiet hole w w' : ginv_at hole w -> quiet w w' -> edom_ok w' -> ginv_at hole w'.
Proof.
  intros I [Henv Ha] Hd. apply (ginv_env hole hole w); try done.
  - intros c u q E Hh. rewrite Ha. by eapply (gi_unqueued _ _ I).
  - intros u q Hq%Ha. by eapply ginv_place_ok.
Qed.

(** The task [t] is moved to [p]. *)
Lemma ginv_moved hole hole' t p w w' :
  ginv_at hole w -> moved t p w w' -> edom_ok w' -> hole = hole' \/ hole = None ->
  (forall q, p = Some q -> place_ok w t q /\ forall c, link_of w c = Some t -> hole' = Some c) ->
  ginv_at hole' w'.
Proof.
  intros I [Henv Ha] Hd Hh Hp. apply (ginv_env hole hole' w); try done.
  - intros c u q E Hc. rewrite Ha. case_decide as Eu.
    + subst u. intros Eq. destruct (Hp q Eq) as [_ Hx]. by apply Hc, Hx.
    + apply (gi_unqueued _ _ I c u q E). destruct Hh; subst; done.
  - intros u q. rewrite Ha. case_decide as Eu; [|by eapply ginv_place_ok]. subst u. intros Eq. by destruct (Hp q Eq).
Qed.

Lemma ginv_clock hole w c ds : ginv_at hole w -> clock w <= c -> ginv_at hole (clock_to c ds w).
Proof.
  intros I Hc. destruct I. split; try done; try by apply edom_ok_clock.
  - intros x t E. destruct (gi_linked0 x t E) as (? & ? & ? & ? & ? & ?). split_and!; try done. simpl. lia.
  - intros t d E. specialize (gi_ready0 t d E). simpl. lia.
Qed.

Lemma ginv_weaken hole w : ginv w -> ginv_at hole w.
Proof. intros []. split; try done. intros c t p E _. by eapply gi_unqueued0. Qed.

Lemma ginv_reheap hole w w' : ginv_at hole w -> reheaped w w' -> ginv_at hole w' /\ relink w w'.
Proof.
  intros I [(g & ->) He Hcp Hmem Hok].
  assert (relink w (set_plugin g w)) as R by (split; try done; intros c; by rewrite He).
  split; [|done].
  assert (forall y, cl_task (set_plugin g w) y = cl_task w y) as Ft by (intros y; by apply relink_cluster).
  assert (forall c, cl_entry (set_plugin g w) c = cl_entry w c) as Fe by (intros c; by apply relink_entry).
  destruct I. split; try done.
  - by apply edom_ok_plugin.
  - intros c. by rewrite He.
  - by rewrite He.
  - intros d c. by rewrite (Hmem d), He, Fe.
  - intros d. by rewrite (Hmem d).
  - intros c t. rewrite He, Fe, Ft. apply gi_linked0.
  - intros t. rewrite He. apply gi_on0.
  - intros c t p. rewrite He. apply gi_unqueued0.
  - intros t p. rewrite Ft. apply gi_place0.
  - intros c t. rewrite He. apply gi_home0.
  - intros t. rewrite He, Fe, Ft. apply gi_sched0.
Qed.

(** ** Changes outside links and queues *)

(** Entries may change in what says which task is scheduled. *)
Lemma ginv_entries hole w g :
  ginv_at hole w -> (forall x, linked (entries g x) = link_of w x /\ hn_in_heap (entries g x) = hn_in_heap (ent w x) /\
    e_cpu (entries g x) = e_cpu (ent w x) /\ e_cluster (entries g x) = e_cluster (ent w x)) ->
  cpu_heap g = cpu_heap (plugin w) -> ginv_at hole (set_plugin g w).
Proof.
  intros I He Hh. set (w' := set_plugin g w).
  assert (forall x, link_of w' x = link_of w x) as Fl by apply He.
  assert (forall x, hn_in_heap (ent w' x) = hn_in_heap (ent w x)) as Fh by apply He.
  assert (forall x, e_cpu (ent w' x) = e_cpu (ent w x)) as Fc by apply He.
  assert (forall y, cl_task w' y = cl_task w y) as Ft by (intros y; apply gl_task; [apply He|done]).
  assert (forall c, cl_entry w' c = cl_entry w c) as Fe by (intros c; apply gl_entry, He).
  assert (forall d, cpus_of w' d = cpus_of w d) as Fm by (intros d; unfold cpus_of; simpl; by rewrite Hh).
  assert (forall a b, cpu_lower_prio (tasks w') (ent w') a b = cpu_lower_prio (tasks w) (ent w) a b) as Fp.
  { intros a b. unfold cpu_lower_prio. by rewrite !Fl. }
  destruct I. split; try done.
  - by apply edom_ok_plugin.
  - intros c. by rewrite Fc.
  - by rewrite Fh.
  - intros d c. by rewrite Fm, Fh, Fe.
  - intros d. by rewrite Fm.
  - intros d. change (cpu_heap (plugin w') d) with (cpu_heap g d). rewrite Hh. eapply pq_wf_ext; [apply gi_wf0| |intros; apply Fp].
    eapply Forall_impl; [eapply pq_wf_D, gi_wf0|]. intros c Hc t. rewrite Fl. apply Hc.
  - intros c t. rewrite Fl, Fh, Fe, Ft. apply gi_linked0.
  - intros t. rewrite Fl. apply gi_on0.
  - intros c t p. rewrite Fl. apply gi_unqueued0.
  - intros t p. rewrite Ft. apply gi_place0.
  - intros c t. rewrite Fl. apply gi_home0.
  - intros t. rewrite Fh, Fe, Ft. apply gi_sched0.
Qed.

(** A task that is neither linked nor queued may change. *)
Record idle w t : Prop := {
  id_link c : link_of w c <> Some t;
  id_place p : ~ at_place w t p
}.

Lemma idle_heap hole w t : ginv_at hole w -> idle w t -> in_heap (tasks w t) = false.
Proof.
  intros I [_ Hp]. destruct (in_heap (tasks w t)) eqn:E; [|done].
  apply (qo_heap _ _ _ (gi_dom _ _ I)) in E as [p Hq]. by destruct (Hp p).
Qed.

Lemma ginv_free t w T' :
  ginv w -> idle w t -> (forall y, y <> t -> T' y = tasks w y) ->
  in_heap (T' t) = false -> pid (T' t) = pid (tasks w t) -> inh_task (T' t) = None ->
  (is_realtime (T' t) = true -> linked_on (T' t) = NO_CPU) ->
  (is_realtime (T' t) = true -> scheduled_on (T' t) = NO_CPU \/
     hn_in_heap (ent w (scheduled_on (T' t))) = true /\ cl_entry w (scheduled_on (T' t)) = task_cluster G (ent w) (T' t) /\
     forall u, u <> t -> is_realtime (tasks w u) = true -> scheduled_on (tasks w u) <> scheduled_on (T' t)) ->
  ginv (set_tasks T' w).
Proof.
  intros I Hid HT Hh Hpid Hinh Hon Hs. set (w' := set_tasks T' w). pose proof (idle_heap _ _ _ I Hid) as Hh0.
  destruct Hid as [Hl Hp].
  assert (no_inheritance T') as Hni.
  { intros y. destruct (decide (y = t)) as [->|Hy]; [done|]. rewrite HT by done. apply (gi_inh _ _ I). }
  assert (forall y, y <> t -> cl_task w' y = cl_task w y) as Ft by (intros y Hy; apply gl_task; [done|]; simpl; by rewrite HT).
  assert (forall c u, link_of w c = Some u -> u <> t) as Hlt by (intros c u E ->; by destruct (Hl c)).
  assert (forall u p, at_place w u p -> u <> t) as Hpt by (intros u p E ->; by destruct (Hp p)).
  assert (forall y, y <> t -> edf_ok (tasks w) y -> edf_ok T' y) as Hok.
  { intros y Hy. eapply (edf_ok_local (tasks w)); [apply I|done|by apply HT]. }
  destruct I. split; try done.
  - by apply (edom_ok_other w t).
  - intros a b. simpl. destruct (decide (a = t)) as [->|Ha], (decide (b = t)) as [->|Hb]; rewrite ?Hpid, ?(HT a), ?(HT b) by done; auto.
  - intros d. eapply pq_wf_ext; [apply gi_wf0| |].
    + eapply Forall_impl; [eapply pq_wf_D, gi_wf0|]. intros c Hc u E. apply Hok; [by eapply Hlt|by apply Hc].
    + intros a b _ _. unfold cpu_lower_prio. simpl. destruct (link_of w a) as [ta|] eqn:Ea, (link_of w b) as [tb|] eqn:Eb; try done.
      apply (edf_order_local (tasks w) T'); [done|done|apply HT; by eapply Hlt..].
  - intros c u E. pose proof (Hlt c u E) as Hu. simpl. rewrite HT, Ft by done. destruct (gi_linked0 c u E) as (? & ? & ? & ? & ? & ?).
    split_and!; try done. by apply Hok.
  - intros u. simpl. destruct (decide (u = t)) as [->|Hu]; [intros Hr; by rewrite (Hon Hr)|]. rewrite HT by done. apply gi_on0.
  - intros u p E. rewrite Ft by exact (Hpt u p E). by apply gi_place0.
  - intros u d E. simpl. rewrite HT by exact (Hpt u (PReady d) E). by apply (gi_ready0 u d).
  - intros c u E. simpl. rewrite HT by exact (Hlt c u E). by apply gi_home0.
  - intros u. simpl. destruct (decide (u = t)) as [->|Hu].
    + intros Hr Hn. destruct (Hs Hr) as [?|(? & ? & _)]; done.
    + rewrite (HT u Hu), (Ft u Hu). apply gi_sched0.
  - intros u v. simpl. destruct (decide (u = t)) as [->|Hu], (decide (v = t)) as [->|Hv]; [done|..].
    + rewrite (HT v Hv). intros Hr Hrv Hn E. destruct (Hs Hr) as [?|(_ & _ & Hx)]; [done|]. by destruct (Hx v Hv Hrv).
    + rewrite (HT u Hu). intros Hru Hr Hn E. destruct (Hs Hr) as [?|(_ & _ & Hx)]; [congruence|]. by destruct (Hx u Hu Hru).
    + rewrite (HT u Hu), (HT v Hv). apply gi_once0.
  - intros u d o Hr Hn Hb Hq. pose proof (Hpt u (PRelease d o) Hq) as Hu. simpl in *. rewrite HT in Hr, Hn by done. by apply (gi_wait0 u d o Hr Hn Hb).
Qed.

(** ... in particular what does not concern where it runs. *)
Lemma ginv_free_same t w T' :
  ginv w -> idle w t -> is_realtime (tasks w t) = true -> (forall y, y <> t -> T' y = tasks w y) ->
  in_heap (T' t) = false -> pid (T' t) = pid (tasks w t) -> inh_task (T' t) = None ->
  linked_on (T' t) = NO_CPU -> scheduled_on (T' t) = scheduled_on (tasks w t) -> get_partition (T' t) = get_partition (tasks w t) ->
  ginv (set_tasks T' w).
Proof.
  intros I Hid Hr HT Hh Hpid Hinh Hon Hs Hpt. apply (ginv_free t); try done. intros _. rewrite Hs.
  destruct (decide (scheduled_on (tasks w t) = NO_CPU)) as [|Hn]; [by left|]. right.
  destruct (gi_sched _ _ I t Hr Hn) as [Hh' Hc]. split_and!; [done| |].
  - rewrite Hc. symmetry. by apply gl_task.
  - intros u Hu Hru E. apply Hu. symmetry. by apply (gi_once _ _ I t u).
Qed.

(** Only where tasks are scheduled changes. *)
Lemma ginv_scheduled w T' :
  ginv w -> (forall y, set_scheduled_on 0 (T' y) = set_scheduled_on 0 (tasks w y)) ->
  (forall c t, link_of w c = Some t -> scheduled_on (T' t) = NO_CPU \/ scheduled_on (T' t) = c) ->
  (forall t, is_realtime (T' t) = true -> scheduled_on (T' t) <> NO_CPU ->
     scheduled_on (T' t) = scheduled_on (tasks w t) \/ link_of w (scheduled_on (T' t)) = Some t) ->
  (forall t u, is_realtime (T' t) = true -> is_realtime (T' u) = true -> scheduled_on (T' t) <> NO_CPU ->
     scheduled_on (T' u) = scheduled_on (T' t) -> t = u) ->
  ginv (set_tasks T' w).
Proof.
  intros I HT Hl Hs Ho. set (w' := set_tasks T' w).
  assert (forall {A} (f : task_struct -> A), (forall z, f (set_scheduled_on 0 z) = f z) -> forall y, f (T' y) = f (tasks w y)) as HF.
  { intros A f Hf y. by rewrite <- (Hf (T' y)), HT, Hf. }
  assert (forall y, same_prio (T' y) (tasks w y)) as Hp by (intros y; split_and!; by apply HF).
  assert (forall y, cl_task w' y = cl_task w y) as Ft by (intros y; apply gl_task; [done|by apply (HF _ get_partition)]).
  pose proof (HF _ is_realtime (fun _ => eq_refl)) as Frt. pose proof (HF _ get_release (fun _ => eq_refl)) as Frel.
  pose proof (HF _ linked_on (fun _ => eq_refl)) as Fl.
  assert (forall y, edf_ok (tasks w) y -> edf_ok T' y) as Hok.
  { intros y. unfold edf_ok, edf_dom, eff. rewrite (HF _ inh_task), (HF _ is_realtime), (HF _ get_deadline) by done. done. }
  destruct I. split; try done.
  - apply edom_ok_prio; [done..|]. by apply (HF _ in_heap).
  - intros a b. simpl. rewrite !(HF _ pid) by done. apply gi_pids0.
  - intros y. simpl. by rewrite (HF _ inh_task).
  - intros d. eapply pq_wf_ext; [apply gi_wf0| |].
    + eapply Forall_impl; [eapply pq_wf_D, gi_wf0|]. intros c Hc u E. by apply Hok, Hc.
    + intros a b _ _. by apply edf_higher_prio_ext.
  - intros c t E. rewrite Ft. simpl. rewrite Fl, Frt, Frel. destruct (gi_linked0 c t E) as (? & ? & ? & ? & ? & ?).
    split_and!; auto.
  - intros t. simpl. rewrite Frt, Fl. apply gi_on0.
  - intros t p. rewrite Ft. apply gi_place0.
  - intros t d. simpl. rewrite Frel. apply gi_ready0.
  - intros t Hr Hn. destruct (Hs t Hr Hn) as [E|E]; rewrite Ft; simpl in *.
    + rewrite E in Hn |- *. rewrite Frt in Hr. by apply gi_sched0.
    + destruct (gi_linked0 _ t E) as (_ & ? & _ & _ & Hc & _). by rewrite Hc.
  - intros t d o Hr Hn Hb. simpl in *. destruct (Hs t Hr Hn) as [E|E].
    + rewrite E in Hn. rewrite Frt in Hr. by apply gi_wait0.
    + by apply (gi_unqueued0 _ t (PRelease d o) E).
Qed.

(** Unlinking a task that has changed while it was linked: as if it had been
    unlinked first, and changed then. *)
Lemma unlink_changed s me w0 T2 :
  ginv w0 -> link_of w0 me = Some s -> (forall y, y <> s -> T2 y = tasks w0 y) ->
  pid (T2 s) = pid (tasks w0 s) -> inh_task (T2 s) = None ->
  wp (link_task_to_cpu G None me) (fun _ w' => exists wr T', w' = set_tasks T' wr /\
    linked_as (upd (fun x => link_of w0 x) me None) w0 wr /\
    (forall y, y <> s -> T' y = tasks wr y) /\ T' s = set_linked_on NO_CPU (T2 s)) (set_tasks T2 w0).
Proof.
  intros I Hl HT2 Hpid Hinh. destruct (gi_linked _ _ I me s Hl) as (Ho & Hhn & _).
  unfold link_task_to_cpu, get_entry. wp_steps. apply wp_put_on. wp_steps. apply wp_upd_entry. simpl plugin. rewrite Hl.
  set (g := mk_gstate _ _ _). set (T3 := put_on NO_CPU (Some s) T2). set (w3 := set_plugin _ _).
  assert (T3 s = set_linked_on NO_CPU (T2 s)) as H3s by apply upd_eq.
  assert (forall y, y <> s -> T3 y = tasks w0 y) as H3 by (intros y Hy; unfold T3, put_on; rewrite upd_ne by done; by apply HT2).
  assert (forall y, pid (T3 y) = pid (tasks w0 y)) as H3p.
  { intros y. destruct (decide (y = s)) as [->|Hy]; [by rewrite H3s|by rewrite H3]. }
  assert (no_inheritance T3) as Hni.
  { intros y. destruct (decide (y = s)) as [->|Hy]; [by rewrite H3s|]. rewrite H3 by done. apply (gi_inh _ _ I). }
  assert (forall x, ent w3 x = set_linked (upd (fun x => link_of w0 x) me None x) (ent w0 x)) as HE.
  { intros x. simpl. unfold upd. case_decide; [by subst|]. by destruct (ent w0 x). }
  assert (forall a u, a <> me -> link_of w0 a = Some u -> u <> s) as Hne.
  { intros a u Ha E ->. apply Ha. by eapply (linked_once None w0). }
  eapply wp_mono; [apply (reposition_spec me w0 w3)|]; try done.
  - exact (gi_wf _ _ I).
  - intros d. destruct (ginv_members _ _ I d) as [? Hin]. split; [done|]. intros x.
    change (cpus_of w3 d) with (cpus_of w0 d). unfold cl_entry. rewrite HE. simpl.
    rewrite (gl_entry (ent w0 x)) by done. apply Hin.
  - apply I.
  - intros a b. change (tasks w3) with T3. rewrite !H3p. apply (gi_pids _ _ I).
  - split.
    + intros a b Ha Hb. unfold cpu_lower_prio. rewrite !HE. simpl. rewrite !upd_ne by done.
      destruct (link_of w0 a) as [ta|] eqn:Ea, (link_of w0 b) as [tb|] eqn:Eb; try done.
      apply (edf_order_local (tasks w0) T3); [apply I|done|exact (H3 _ (Hne b tb Hb Eb))|exact (H3 _ (Hne a ta Ha Ea))].
    + intros a Ha Hk u. rewrite HE. simpl. rewrite upd_ne by done. intros E.
      apply (edf_ok_local (tasks w0) T3); [apply I|done|exact (H3 _ (Hne a u Ha E))|by apply Hk].
  - by rewrite HE.
  - intros u. rewrite HE. simpl. by rewrite upd_eq.
  - intros ? w' [(g' & ->) He Hcp Hmem Hok]. set (old := set_linked_on NO_CPU (tasks w0 s)).
    set (Tr := upd T3 s old). set (w3r := set_plugin g (set_tasks Tr w0)). set (wr := set_plugin g' w3r).
    assert (forall x, linked (entries g' x) <> Some s) as Hns.
    { intros x. rewrite He, HE. simpl. unfold upd. case_decide; [done|]. intros E. by eapply (Hne x s). }
    assert (forall y, y <> s -> Tr y = T3 y) as HTr by (intros y Hy; by apply upd_ne).
    assert (no_inheritance Tr) as Hnr.
    { intros y. unfold Tr, upd. case_decide; [|done]. apply (gi_inh _ _ I). }
    exists wr, T3. split_and!; [done| |intros y Hy; symmetry; by apply HTr|done].
    apply (link_finish None w0 w3r); try done.
    + by eexists _, _.
    + split; try done; [by eexists|]. intros d. eapply pq_wf_ext; [exact (Hok d)| |].
      * eapply Forall_impl; [eapply pq_wf_D, (Hok d)|]. intros c Hc u E. assert (u <> s) by (intros ->; by apply (Hns c)).
        eapply (edf_ok_local T3 Tr); [done|done|by apply HTr|by apply Hc].
      * intros i j _ _. unfold cpu_lower_prio. simpl.
        destruct (linked (entries g' i)) as [ti|] eqn:Ei, (linked (entries g' j)) as [tj|] eqn:Ej; try done.
        apply (edf_order_local T3 Tr); [done|done|apply HTr; intros ->; by eapply Hns..].
    + intros y. simpl. unfold Tr, upd. case_decide as Ey; [by subst|]. by rewrite H3.
    + intros x u. unfold upd. case_decide as Ex; [done|]. intros E. pose proof (Hne x u Ex E) as Hu.
      split_and!; [by eapply (linked_linkable None)|apply (gi_linked _ _ I x u E)| |by apply (gi_home _ _ I)].
      simpl. rewrite HTr, H3 by done. apply (gi_linked _ _ I x u E).
    + intros u Hr'. simpl. destruct (decide (u = s)) as [->|Hu]; [unfold Tr; by rewrite upd_eq|]. rewrite HTr, H3 by done.
      intros Hno. pose proof (gi_on _ _ I u Hr' Hno) as E. rewrite upd_ne; [done|]. intros Ec. rewrite Ec in E. congruence.
Qed.

End Global.

(** The task whose job completed *)
Section Busy.
Context {Q : Type -> Type} `{PrioQueueLaws Q} (G : gplugin).
Implicit Types w : world Q (gstate Q).

Lemma ginv_forget busy w : ginv G None w -> ginv G busy w.
Proof. intros []. split; try done. intros t d o Hr Hs _. by apply gi_wait0. Qed.

Lemma ginv_settle busy w :
  ginv G busy w -> (forall t d o, busy = Some t -> scheduled_on (tasks w t) <> NO_CPU -> ~ at_place w t (PRelease d o)) ->
  ginv G None w.
Proof.
  intros [] Hb. split; try done. intros t d o Hr Hs _. destruct (decide (busy = Some t)); [by apply Hb|by apply gi_wait0].
Qed.

End Busy.
