(* ===== verification/GlobalSched.v ===== *)
(** * Global EDF: the highest-priority jobs are linked

    [check_for_preemptions] ends and leaves, in a cluster of m processors, the m
    jobs with the highest priorities linked; the handlers of GlobalEdf.v keep
    this so, and [schedule] lets every processor run the task linked to it, which
    runs nowhere else. *)

From stdpp Require Import sorting.
From S2P Require Import Prelude Task Edf PrioQueue Kernel RtDomain RtInv EdfDomain Partitioned GlobalEdf GlobalInv.
Open Scope Z_scope.

Section Loop.
Context {Q : Type -> Type} `{PrioQueueLaws Q}.
Abbreviation world := (world Q (gstate Q)).
Abbreviation K := (M world).
Context (G : gplugin) `{!GPluginLaws G} (busy : option tid).
Implicit Types (w : world) (t : tid) (c d : Z).

Abbreviation ent w := (entries (plugin w)).
Abbreviation link_of w c := (linked (entries (plugin w) c)).
Abbreviation ginv := (ginv G busy).

(** The task is linked to a processor or queued. *)
Definition kept w t : Prop := (exists c, link_of w c = Some t) \/ exists p, at_place w t p.

(** No ready task of the cluster has a higher priority than a linked one, and
    no processor is idle while a task is ready. *)
Definition top w d : Prop :=
  forall t c, t ∈ ready_elems w d -> c ∈ cpus_of w d ->
    exists l, link_of w c = Some l /\ edf_higher_prio (tasks w) (Some t) (Some l) = false.

(** What an operation on the cluster [d] leaves alone. *)
Record within d w w' : Prop := {
  wi_relink : relink w w';
  wi_timed : timed w w';
  wi_ready t d' : d' <> d -> t ∈ ready_elems w' d' <-> t ∈ ready_elems w d';
  wi_link c : cl_entry G w c <> d -> link_of w' c = link_of w c
}.

Lemma within_refl d w : within d w w.
Proof. split; [apply relink_refl|apply timed_refl|done|done]. Qed.

Lemma within_trans d w1 w2 w3 : within d w1 w2 -> within d w2 w3 -> within d w1 w3.
Proof.
  intros [R1 T1 A1 L1] [R2 T2 A2 L2]. split.
  - by eapply relink_trans.
  - by eapply timed_trans.
  - intros t d' Hd. by rewrite A2, A1.
  - intros c Hc. rewrite L2, L1; [done..|]. by rewrite (relink_entry G w1 w2).
Qed.

Lemma within_top d d' w w' : within d w w' -> d' <> d -> top w d' -> ginv w -> top w' d'.
Proof.
  intros [R _ A L] Hd Ht I t c. rewrite A, (rl_heap _ _ R) by done. intros Hr Hc.
  assert (cl_entry G w c <> d) as Hne by (apply (gi_heap _ _ _ _ I) in Hc as [_ ->]; done).
  rewrite L by done. setoid_rewrite (relink_prio w w'); [|done]. by apply Ht.
Qed.

Lemma quiet_within d w w' : quiet w w' -> within d w w'.
Proof.
  intros [Henv Ha]. split; [by apply env_relink|by apply env_timed| |].
  - intros t d' _. apply (Ha t (PReady d')).
  - intros c _. by rewrite (se_plugin _ _ Henv).
Qed.

Lemma quiet_kept w w' t : quiet w w' -> kept w' t <-> kept w t.
Proof.
  intros [Henv Ha]. unfold kept. rewrite (se_plugin _ _ Henv). by setoid_rewrite Ha.
Qed.

Lemma moved_within d t p w w' :
  moved t p w w' -> (forall d', d' <> d -> ~ at_place w t (PReady d')) -> (forall d', p = Some (PReady d') -> d' = d) ->
  within d w w'.
Proof.
  intros [Henv Ha] Hw Hp. split; [by apply env_relink|by apply env_timed| |].
  - intros u d' Hd. rewrite (Ha u (PReady d')). case_decide as E; [subst|done]. split.
    + intros Ep. by destruct Hd; apply Hp.
    + intros Hu. by destruct (Hw d').
  - intros c _. by rewrite (se_plugin _ _ Henv).
Qed.

Lemma clock_within d w c ds : clock w <= c -> clock_ok (clock_to c ds w) -> time_end (clock_to c ds w) = time_end w ->
  within d w (clock_to c ds w).
Proof. intros Hc Hk He. split; try done. Qed.

(** ** The processor with the lowest priority *)
Lemma lowest_prio_spec d w (Φ : Z -> world -> Prop) :
  ginv w -> cpus_of w d <> [] ->
  (forall c w', c ∈ cpus_of w d -> (forall x, x ∈ cpus_of w d -> edf_higher_prio (tasks w) (link_of w c) (link_of w x) = false) ->
     reheaped w w' -> Φ c w') ->
  wp (lowest_prio_cpu d) Φ w.
Proof.
  intros I Hne HΦ. unfold lowest_prio_cpu. wp_steps.
  pose proof (cpu_swo (tasks w) (ent w) (gi_pids _ _ _ _ I)) as Ho. pose proof (gi_wf _ _ _ _ I d) as Hwf.
  set (lt := cpu_lower_prio (tasks w) (ent w)) in *. set (h := cpu_heap (plugin w) d) in *.
  destruct (pq_peek lt h) as [hn h'] eqn:Ep. unfold put_heap. wp_steps.
  assert (hn = (pq_peek lt h).1 /\ h' = (pq_peek lt h).2) as [-> ->] by by rewrite Ep. clear Ep.
  destruct (pq_peek lt h).1 as [c|] eqn:E; [|by apply pq_peek_none in E].
  exists c. split; [done|]. apply HΦ.
  - by eapply pq_peek_in.
  - pose proof (pq_peek_best _ _ _ _ Ho Hwf E) as Hb. rewrite Forall_forall in Hb. exact Hb.
  - assert (forall d', pq_elems (upd (cpu_heap (plugin w)) d (pq_peek lt h).2 d') ≡ₚ cpus_of w d') as Hm.
    { intros d'. unfold upd. case_decide; [subst d'; apply pq_peek_elems|done]. }
    split; try done; [by eexists|]. intros d'. simpl. unfold upd. case_decide; [by apply pq_peek_wf|apply (gi_wf _ _ _ _ I)].
Qed.

Lemma reheaped_within d w w' : reheaped w w' -> ginv w -> within d w w' /\ ginv w' /\ forall t, kept w' t <-> kept w t.
Proof.
  intros R I. destruct (ginv_reheap G busy _ _ _ I R) as [I' Hr]. destruct R as [(g & ->) He _ _ _]. split_and!; [|done|].
  - split; [done|by apply timed_same|done|]. intros c _. by rewrite He.
  - intros t. unfold kept. by setoid_rewrite He.
Qed.

(** ** Requeueing a preempted task *)
Lemma released_now w t now : in_time w -> is_realtime (tasks w t) = true -> get_release (tasks w t) <= clock w ->
  clock w <= now <= time_end w -> is_released (tasks w t) now = true.
Proof.
  intros Ht Hr Hrel Hn. destruct (it_task _ Ht t Hr) as (Hr0 & _ & He). destruct (it_clock _ Ht) as [Hc _].
  unfold is_released. rewrite lt_before_eq_window; lia.
Qed.

Lemma requeue_linked_spec c l w :
  ginv w -> in_time w -> link_of w c = Some l ->
  wp (gedf_requeue G l) (fun _ w' => exists w1, timed w w1 /\ (exists k ds, w1 = clock_to k ds w) /\
    moved l (Some (PReady (cl_entry G w c))) w1 w' /\ ginv_at G busy (Some c) w') w.
Proof.
  intros I Ht Hl. destruct (linked_linkable G busy None w c l I Hl) as [Hr Hok Hcl Hrel Hno]; [done|].
  assert (in_heap (tasks w l) = false) as Hh.
  { destruct (in_heap (tasks w l)) eqn:E; [|done]. apply (qo_heap _ _ _ (gi_dom _ _ _ _ I)) in E as [p Hp]. by destruct (Hno p). }
  unfold gedf_requeue, get_task, task_dom. wp_steps; [done|]. unfold get_task. wp_steps.
  apply clock_spec; [apply Ht|]. intros k ds Hk Hck He. wp_steps. simpl tasks.
  rewrite (released_now w l k) by done. set (w1 := clock_to k ds w).
  change (task_cluster G (ent w) (tasks w l)) with (cl_task G w l). rewrite Hcl.
  assert (ginv w1) as I1 by (apply ginv_clock; [done|lia]).
  eapply wp_mono; [apply edf_add_ready_spec; [apply dummy_calm|apply I1|apply I1|done|done]|].
  intros ? w' [M Hd]. exists w1. split_and!; [split_and!; try done; simpl; lia|by eexists _, _|done|].
  apply (ginv_moved G busy None (Some c) l _ w1 w' I1 M Hd); [by right|]. intros q [= <-]. split; [split; [exact Hcl|]|].
  - simpl. lia.
  - intros x Hx. f_equal. by eapply (linked_once G busy None w).
Qed.

(** ** Progress *)

(** A ready task should run instead of the one linked. *)
Definition loses w d (o : option tid) : bool :=
  existsb (fun e => edf_higher_prio (tasks w) (Some e) o) (ready_elems w d).
Definition losers w d : nat := length (filter (fun o => loses w d o = true) ((fun c => link_of w c) <$> cpus_of w d)).

Lemma loses_iff w d o : loses w d o = true <-> exists e, e ∈ ready_elems w d /\ edf_higher_prio (tasks w) (Some e) o = true.
Proof. unfold loses. rewrite existsb_exists. by setoid_rewrite list_elem_of_In. Qed.

Lemma losers_bound w d : (losers w d <= length (cpus_of w d))%nat.
Proof. unfold losers. etransitivity; [apply length_filter|]. by rewrite length_fmap. Qed.

Lemma relinked_perm (lk : Z -> option tid) c t s l r :
  NoDup l -> l ≡ₚ c :: r -> s = NO_CPU \/ s = c \/ s ∈ l -> NO_CPU ∉ l ->
  relinked lk c t s <$> l ≡ₚ Some t :: (lk <$> r).
Proof.
  intros Hnd Hl Hs Hno. rewrite Hl in Hnd |- *. apply NoDup_cons in Hnd as [Hc Hnd]. unfold relinked. case_bool_decide as E.
  - csimpl. rewrite upd_eq. assert (upd lk c (Some t) <$> r = lk <$> r) as ->; [|done].
    apply list_fmap_ext. intros i x Hx%list_elem_of_lookup_2. apply upd_ne. by intros ->.
  - assert (s <> NO_CPU /\ s <> c) as [En Ec] by tauto.
    assert (s ∈ r) as [r' Hr]%elem_of_Permutation.
    { destruct Hs as [?|[?|Hs]]; [done..|]. rewrite Hl in Hs. apply elem_of_cons in Hs as [?|?]; done. }
    rewrite Hr in Hnd, Hc |- *. apply NoDup_cons in Hnd as [Hs' _]. apply not_elem_of_cons in Hc as [_ Hc].
    csimpl. rewrite upd_eq, (upd_ne _ c), upd_eq by done.
    assert (upd (upd lk s (Some t)) c (lk s) <$> r' = lk <$> r') as ->.
    { apply list_fmap_ext. intros i x Hx%list_elem_of_lookup_2. rewrite !upd_ne; [done|by intros ->..]. }
    apply Permutation_swap.
Qed.

Lemma filter_length_mono {A} (f g : A -> bool) l :
  (forall a, a ∈ l -> f a = true -> g a = true) ->
  (length (filter (fun a => f a = true) l) <= length (filter (fun a => g a = true) l))%nat.
Proof.
  induction l as [|a l IH]; intros Hfg; [done|]. rewrite !filter_cons.
  assert (length (filter (fun a => f a = true) l) <= length (filter (fun a => g a = true) l))%nat by (apply IH; set_solver).
  repeat case_decide; simpl; try lia. exfalso. set_solver.
Qed.

(** One round links a task that loses to no ready one. *)
Lemma round_progress d c t w w' :
  let l := link_of w c in let prio a b := edf_higher_prio (tasks w) a b in
  relink w w' -> NoDup (cpus_of w d) -> NO_CPU ∉ cpus_of w d -> c ∈ cpus_of w d ->
  scheduled_on (tasks w t) = NO_CPU \/ scheduled_on (tasks w t) = c \/ scheduled_on (tasks w t) ∈ cpus_of w d ->
  (forall x, link_of w' x = relinked (fun x => link_of w x) c t (scheduled_on (tasks w t)) x) ->
  (forall e, e ∈ ready_elems w' d <-> e ∈ ready_elems w d /\ e <> t \/ l = Some e) ->
  t ∈ ready_elems w d -> (forall e, e ∈ ready_elems w d -> prio (Some e) (Some t) = false) ->
  (forall x, x ∈ cpus_of w d -> prio l (link_of w x) = false) ->
  prio (Some t) l = true -> prio l (Some t) = false ->
  (losers w' d < losers w d)%nat.
Proof.
  intros l prio R Hnd Hno Hc Hs Hlk Hrd Ht Hbest Hlow Hwin Hlose. unfold losers.
  apply elem_of_Permutation in Hc as [r Hr].
  rewrite (rl_heap _ _ R d), (list_fmap_ext _ _ _ (fun i x _ => Hlk x)). rewrite (relinked_perm _ c t _ _ r Hnd Hr Hs Hno).
  rewrite Hr at 1. csimpl. rewrite !filter_cons.
  assert (loses w d l = true) as Hl by (apply loses_iff; eauto).
  assert (loses w' d (Some t) = false) as Hl'.
  { apply not_true_iff_false. rewrite loses_iff. intros (e & He & Hp). rewrite (relink_prio w w') in Hp by done.
    change (prio (Some e) (Some t) = true) in Hp.
    apply Hrd in He as [[He _]|He]; [by rewrite (Hbest e He) in Hp|]. rewrite He in Hlose. congruence. }
  rewrite decide_False by congruence. rewrite decide_True by done. simpl. apply le_n_S. apply filter_length_mono.
  intros o Ho Hlo. apply loses_iff in Hlo as (e & He & Hp). rewrite (relink_prio w w') in Hp by done.
  apply Hrd in He as [[He _]|He]; [apply loses_iff; eauto|]. exfalso.
  apply list_elem_of_fmap in Ho as (x & -> & Hx). change (prio (Some e) (link_of w x) = true) in Hp. rewrite <- He in Hp.
  rewrite Hlow in Hp; [done|]. rewrite Hr. by right.
Qed.

Lemma relink_nonempty w w' d : relink w w' -> cpus_of w d <> [] -> cpus_of w' d <> [].
Proof. intros R Hne E. apply Hne. pose proof (rl_heap _ _ R d) as Hp. rewrite E in Hp. by apply Permutation_nil_l in Hp. Qed.

(** ** One round *)
Lemma requeue_step c w :
  ginv w -> in_time w ->
  wp (match link_of w c with Some l => gedf_requeue G l | None => mret tt end) (fun _ w' =>
    ginv_at G busy (Some c) w' /\ within (cl_entry G w c) w w' /\ plugin w' = plugin w /\
    forall u p, at_place w' u p <-> if decide (link_of w c = Some u) then p = PReady (cl_entry G w c) else at_place w u p) w.
Proof.
  intros I Ht. destruct (link_of w c) as [l|] eqn:Hl.
  - eapply wp_mono; [by apply (requeue_linked_spec c)|]. intros ? w' (w1 & Htm & (k & ds & ->) & M & I'). split_and!; [done| | |].
    + apply (within_trans _ _ (clock_to k ds w)).
      * split; [done|exact Htm|done|done].
      * eapply moved_within; [exact M| |by intros d' [= ->]]. intros d' _ Hp. by apply (gi_unqueued _ _ _ _ I c l (PReady d') Hl).
    + by rewrite (se_plugin _ _ (mv_env _ _ _ _ M)).
    + intros u p. rewrite (mv_at _ _ _ _ M). do 2 case_decide; naive_solver.
  - wp_steps. split_and!; [by apply ginv_weaken|apply within_refl|done|]. intros u p. by rewrite decide_False.
Qed.

Lemma order_neg_trans w (a b c : tid) :
  pids_unique (tasks w) -> edf_ok (tasks w) a -> edf_ok (tasks w) b -> edf_ok (tasks w) c ->
  edf_higher_prio (tasks w) (Some a) (Some b) = false -> edf_higher_prio (tasks w) (Some b) (Some c) = false ->
  edf_higher_prio (tasks w) (Some a) (Some c) = false.
Proof. intros Hu. apply (swo_neg_trans _ _ (edf_swo (tasks w) 0 Hu)). Qed.

Lemma ready_ok w d t : ginv w -> t ∈ ready_elems w d -> edf_ok (tasks w) t.
Proof.
  intros I Ht. pose proof (pq_wf_D _ _ _ (qo_ready_wf _ _ _ (gi_dom _ _ _ _ I) d)) as HD. rewrite Forall_forall in HD. by apply HD.
Qed.

Lemma ready_rt w d t : ginv w -> t ∈ ready_elems w d -> is_realtime (tasks w t) = true.
Proof. intros I [Hr _]%(ready_ok w d); [|done]. unfold eff in Hr. by rewrite (gi_inh _ _ _ _ I) in Hr. Qed.

(** The lowest processor is no loser: none is. *)
Lemma not_needed_top d c w :
  ginv w -> c ∈ cpus_of w d ->
  (forall x, x ∈ cpus_of w d -> edf_higher_prio (tasks w) (link_of w c) (link_of w x) = false) ->
  ~ Exists (beats w (link_of w c)) (ready_elems w d) -> top w d.
Proof.
  intros I Hc Hlow Hno t x Ht Hx. rewrite Exists_exists in Hno.
  destruct (link_of w c) as [l|] eqn:El; [|destruct Hno; eexists; split; [done|exact Logic.I]].
  assert (edf_higher_prio (tasks w) (Some t) (Some l) = false) as Htl.
  { apply not_true_iff_false. intros E. apply Hno. exists t. split; [done|by right]. }
  specialize (Hlow x Hx). destruct (link_of w x) as [l'|] eqn:Ex; [|by rewrite prio_idle in Hlow].
  exists l'. split; [done|]. apply (order_neg_trans w t l l'); try done; [apply I|by eapply ready_ok| |].
  - by apply (gi_linked _ _ _ _ I) in El as (_ & _ & _ & ? & _).
  - by apply (gi_linked _ _ _ _ I) in Ex as (_ & _ & _ & ? & _).
Qed.

(** Linking the best ready task [t] to the processor [c]; [w2] is the state in
    which [t] was taken out of the ready queue and the old task put back. *)
Record link_round d c t w w' : Prop := {
  ro_inv : ginv w';
  ro_within : within d w w';
  ro_link x : link_of w' x = relinked (fun x => link_of w x) c t (scheduled_on (tasks w t)) x;
  ro_at u p : at_place w' u p <-> if decide (link_of w c = Some u) then p = PReady d else u <> t /\ at_place w u p
}.

Lemma link_ready_spec d c t w w2 :
  ginv w -> c ∈ cpus_of w d -> t ∈ ready_elems w d -> ginv_at G busy (Some c) w2 -> within d w w2 -> plugin w2 = plugin w ->
  (forall u p, at_place w2 u p <-> if decide (link_of w c = Some u) then p = PReady d else u <> t /\ at_place w u p) ->
  wp (link_task_to_cpu G (Some t) c) (fun _ w' => link_round d c t w w') w2.
Proof.
  intros I Hc Hin I2 W Hp A. apply (gi_heap _ _ _ _ I) in Hc as [Hhn Hcl].
  assert (forall x, link_of w x <> Some t) as Hfree.
  { intros x E. by apply (gi_unqueued _ _ _ _ I x t (PReady d) E). }
  eapply wp_mono; [apply (link_task_spec G busy w2 t c I2)|].
  - by rewrite Hp.
  - split.
    + rewrite (relink_field is_realtime w w2 _ (fun _ => eq_refl) (wi_relink _ _ _ W)). by eapply ready_rt.
    + eapply relink_ok; [apply W|]. by eapply ready_ok.
    + rewrite (relink_cluster G w w2), (relink_entry G w w2), Hcl by apply W. by apply (gi_place _ _ _ _ I t (PReady d)).
    + rewrite (relink_field get_release w w2 _ (fun _ => eq_refl) (wi_relink _ _ _ W)). pose proof (gi_ready _ _ _ _ I t d Hin).
      destruct (wi_timed _ _ _ W) as (? & _). lia.
    + intros p. rewrite A. case_decide as E; [by destruct (Hfree c)|]. naive_solver.
  - intros x. rewrite Hp. apply Hfree.
  - intros ? w3 [I3 R3 O3 L3].
    assert (within d w2 w3) as W3.
    { split; [done|by apply only_links_timed|by destruct O3 as (T & g & ->)|]. intros x Hx. rewrite L3.
      unfold relinked. assert (x <> c) as Hxc by (intros ->; by rewrite (relink_entry G w w2), Hcl in Hx by apply W).
      case_bool_decide as Es; [by rewrite upd_ne|]. rewrite upd_ne by done. rewrite upd_ne; [done|]. intros ->. apply Hx.
      rewrite (relink_entry G w w2) by apply W. rewrite (relink_field scheduled_on w w2 _ (fun _ => eq_refl) (wi_relink _ _ _ W)) in Es |- *.
      destruct (gi_sched _ _ _ _ I t) as [_ ->]; [by eapply ready_rt|naive_solver|]. by apply (gi_place _ _ _ _ I t (PReady d)). }
    split.
    + done.
    + by eapply within_trans.
    + intros x. rewrite L3, (relink_field scheduled_on w w2 _ (fun _ => eq_refl) (wi_relink _ _ _ W)). unfold relinked. by rewrite Hp.
    + intros u p. destruct O3 as (T & g & ->). apply A.
Qed.

Lemma round_quiet d c t w w' w'' : link_round d c t w w' -> quiet w' w'' -> edom_ok w'' -> link_round d c t w w''.
Proof.
  intros [I W L A] Hq Hd. split.
  - by eapply ginv_quiet.
  - eapply within_trans; [exact W|]. by apply quiet_within.
  - intros x. by rewrite (se_plugin _ _ (qt_env _ _ Hq)).
  - intros u p. by rewrite (qt_at _ _ Hq).
Qed.

Lemma taken_within d t w w1 : ginv w -> t ∈ ready_elems w d -> moved t None w w1 -> edom_ok w1 -> ginv w1 /\ within d w w1.
Proof.
  intros I Hin M Hd1. split; [by apply (ginv_moved G busy None None t None w w1); [..|by left|]|].
  eapply moved_within; [exact M| |done]. intros d' Hne Hp. apply Hne.
  by injection (qo_unique _ _ _ (gi_dom _ _ _ _ I) t (PReady d') (PReady d) Hp Hin).
Qed.

Lemma round_spec d c t w w1 :
  ginv w -> in_time w -> c ∈ cpus_of w d -> t ∈ ready_elems w d -> moved t None w w1 -> edom_ok w1 ->
  wp ((match link_of w c with Some l => gedf_requeue G l | None => mret tt end);;
      link_task_to_cpu G (Some t) c;; gedf_preempt c) (fun _ w' => link_round d c t w w') w1.
Proof.
  intros I Ht Hc Hin M Hd1. pose proof (proj1 (gi_heap _ _ _ _ I d c) Hc) as [Hhn Hcl].
  destruct (taken_within d t w w1 I Hin M Hd1) as [I1 W1]. pose proof (se_plugin _ _ (mv_env _ _ _ _ M)) as Hp1.
  rewrite <- Hp1. wp_steps. eapply wp_mono; [apply requeue_step; [done|]|].
  { eapply in_time_relink; [apply W1..|done]. }
  intros _ w2 (I2 & W2 & Hp2 & A2). rewrite (relink_entry G w w1), Hcl in W2, A2 by apply W1. wp_steps.
  eapply wp_mono; [apply (link_ready_spec d c t w w2)|]; try done.
  - by eapply within_trans.
  - by rewrite Hp2.
  - intros u p. rewrite A2, Hp1. case_decide; [done|]. rewrite (mv_at _ _ _ _ M). case_decide; naive_solver.
  - intros ? w3 R3. unfold gedf_preempt, get_entry. wp_steps. eapply wp_mono; [apply edf_preempt_spec, R3|].
    intros ? w4 [Hq Hd]. exact (round_quiet d c t w w3 w4 R3 Hq Hd).
Qed.

Lemma round_kept d c t w w' u :
  ginv w -> c ∈ cpus_of w d -> t ∈ ready_elems w d -> link_round d c t w w' -> kept w' u <-> kept w u.
Proof.
  intros I Hc Hin [I' W L A]. unfold kept. setoid_rewrite A. setoid_rewrite L.
  assert (scheduled_on (tasks w t) <> c -> scheduled_on (tasks w t) <> NO_CPU -> True) as _ by done.
  unfold relinked. destruct (decide (link_of w c = Some u)) as [El|El].
  - split; [left; eauto|]. intros _. right. eauto.
  - destruct (decide (u = t)) as [->|Hut].
    + split; [intros _; right; by exists (PReady d)|]. intros _. left. case_bool_decide as Es.
      * exists c. by rewrite upd_eq.
      * exists (scheduled_on (tasks w t)). rewrite upd_ne by naive_solver. by rewrite upd_eq.
    + assert ((exists p, u <> t /\ at_place w u p) <-> exists p, at_place w u p) as -> by naive_solver.
      apply or_iff_compat_r. case_bool_decide as Es.
      * split; intros [x Hx]; exists x; revert Hx; unfold upd; case_decide; subst; naive_solver.
      * split; intros [x Hx].
        -- revert Hx. unfold upd. repeat case_decide; subst; [eauto|naive_solver|eauto].
        -- destruct (decide (x = scheduled_on (tasks w t))) as [->|Hx'].
           ++ exists c. by rewrite upd_eq.
           ++ exists x. rewrite !upd_ne; [done|done|]. intros ->. done.
Qed.

Lemma round_losers d c t w w' :
  ginv w -> c ∈ cpus_of w d -> t ∈ ready_elems w d ->
  Forall (fun e => edf_ready_order (tasks w) e t = false) (ready_elems w d) ->
  (forall x, x ∈ cpus_of w d -> edf_higher_prio (tasks w) (link_of w c) (link_of w x) = false) ->
  Exists (beats w (link_of w c)) (ready_elems w d) -> link_round d c t w w' -> (losers w' d < losers w d)%nat.
Proof.
  intros I Hc Hin Hbest Hlow Hex [I' W L A]. rewrite Forall_forall in Hbest. apply Exists_exists in Hex as (e & He & Hb).
  assert (forall x, link_of w x <> Some t) as Hfree.
  { intros x E. by apply (gi_unqueued _ _ _ _ I x t (PReady d) E). }
  assert (edf_higher_prio (tasks w) (Some t) (link_of w c) = true) as Hwin.
  { destruct (link_of w c) as [l|] eqn:El; [|apply prio_idle].
    destruct (gi_linked _ _ _ _ I c l El) as (_ & _ & Hrl & Hol & _). destruct Hb as [Hb|Hb]; [congruence|].
    apply not_false_iff_true. intros E. rewrite (order_neg_trans w e t l) in Hb; try done; [apply I|by eapply ready_ok..|by apply Hbest]. }
  apply (round_progress d c t w w'); try done.
  - apply W.
  - apply (gi_nodup _ _ _ _ I).
  - intros Hn. apply (gi_heap _ _ _ _ I) in Hn as [Hn _]. by rewrite (gi_nocpu _ _ _ _ I) in Hn.
  - destruct (decide (scheduled_on (tasks w t) = NO_CPU)) as [|Hs]; [by left|]. right. right.
    apply (gi_heap _ _ _ _ I). destruct (gi_sched _ _ _ _ I t (ready_rt _ _ _ I Hin) Hs) as [? ->]. split; [done|].
    by apply (gi_place _ _ _ _ I t (PReady d)).
  - intros u. rewrite (A u (PReady d)). case_decide as E; [naive_solver|].
    change (at_place w u (PReady d)) with (u ∈ ready_elems w d). naive_solver.
  - destruct (link_of w c) as [l|] eqn:El; [|done]. destruct (gi_linked _ _ _ _ I c l El) as (_ & _ & Hrl & Hol & _).
    apply (swo_asym (edf_swo (tasks w) 0 (gi_pids _ _ _ _ I)) t l); [by eapply ready_ok|done|done].
Qed.

Lemma preempt_once_spec d w :
  ginv w -> in_time w -> cpus_of w d <> [] ->
  wp (preempt_once G d) (fun b w' => ginv w' /\ within d w w' /\ (forall t, kept w' t <-> kept w t) /\
    if (b : bool) then (losers w' d < losers w d)%nat else top w' d) w.
Proof.
  intros I Ht Hne. unfold preempt_once. wp_step. apply lowest_prio_spec; [done|done|]. intros c w1 Hc Hlow R1.
  destruct (reheaped_within d w w1 R1 I) as (W1 & I1 & K1). destruct R1 as [(g & ->) He _ Hm _].
  set (w1 := set_plugin g w) in *. rewrite <- (Hm d) in Hc. setoid_rewrite <- (Hm d) in Hlow.
  assert (forall x, x ∈ cpus_of w1 d -> edf_higher_prio (tasks w1) (link_of w1 c) (link_of w1 x) = false) as Hlow1.
  { intros x Hx. rewrite !He. by apply Hlow. }
  assert (losers w1 d = losers w d) as Hls.
  { unfold losers. rewrite (Hm d). f_equal. f_equal. apply list_fmap_ext. intros i x _. by rewrite He. }
  unfold get_entry. wp_steps. eapply wp_mono; [apply preemption_needed_spec; [apply I1|apply I1|]|].
  { intros t E _. by apply (gi_linked _ _ _ _ I1) in E as (_ & _ & _ & ? & _). }
  intros b w2 (Hq & Hd2 & HT & Hb). pose proof (ginv_quiet G busy _ _ _ I1 Hq Hd2) as I2. pose proof (quiet_within d _ _ Hq) as W2.
  pose proof (within_trans _ _ _ _ W1 W2) as W. pose proof (se_plugin _ _ (qt_env _ _ Hq)) as Hp.
  assert (forall t, kept w2 t <-> kept w t) as K2 by (intros t; by rewrite (quiet_kept w1 w2), K1).
  assert (forall e, e ∈ ready_elems w2 d <-> e ∈ ready_elems w1 d) as Hrd by (intros e; apply (qt_at _ _ Hq e (PReady d))).
  assert (cpus_of w2 d = cpus_of w1 d) as Hcp by (unfold cpus_of; by rewrite Hp).
  assert (Exists (beats w1 (link_of w1 c)) (ready_elems w1 d) <-> Exists (beats w2 (link_of w2 c)) (ready_elems w2 d)) as Hex.
  { rewrite !Exists_exists. setoid_rewrite Hrd. unfold beats. by rewrite Hp, HT. }
  rewrite <- Hcp, <- Hp, <- HT in *. destruct b; cbn [negb].
  2: { wp_steps. split_and!; [done..|]. apply (not_needed_top d c); try done. rewrite <- Hex. intros E. by apply Hb in E. }
  apply proj1 in Hb. specialize (Hb eq_refl). rewrite Hex in Hb. wp_step.
  eapply wp_mono; [apply edf_take_spec; apply I2|]. intros hn w3 [Hd3 Hhn].
  destruct hn as [t|]; [|destruct Hhn as [E _]; rewrite E in Hb; by inversion Hb]. destruct Hhn as (Hin & M & Hbest).
  assert (c ∈ cpus_of w2 d) as Hc2 by done.
  assert (in_time w2) as Ht2 by (eapply in_time_relink; [apply W..|done]).
  pose proof (round_spec d c t w2 w3 I2 Ht2 Hc2 Hin M Hd3) as HR. apply wp_bind in HR. wp_step.
  eapply wp_mono; [exact HR|]. intros ? w4 HR4. apply wp_bind in HR4. wp_step. eapply wp_mono; [exact HR4|].
  intros ? w5 HR5. wp_step. eapply wp_mono; [exact HR5|]. intros ? w6 R. wp_steps. split_and!.
  - apply R.
  - eapply within_trans; [exact W|apply R].
  - intros u. rewrite <- K2. by eapply round_kept.
  - assert (losers w2 d = losers w d) as <-; [|by eapply round_losers].
    rewrite <- Hls. unfold losers. rewrite Hcp, Hp. f_equal. apply list_filter_iff. intros o. unfold loses. rewrite HT.
    rewrite !existsb_exists. setoid_rewrite <- list_elem_of_In. by setoid_rewrite Hrd.
Qed.

Lemma preempt_loop_spec fuel d w :
  ginv w -> in_time w -> cpus_of w d <> [] -> (losers w d < fuel)%nat ->
  wp (preempt_loop G fuel d) (fun _ w' => ginv w' /\ within d w w' /\ (forall t, kept w' t <-> kept w t) /\ top w' d) w.
Proof.
  revert w. induction fuel as [|fuel IH]; intros w I Ht Hne Hf; [lia|]. cbn [preempt_loop]. wp_step.
  eapply wp_mono; [by apply preempt_once_spec|]. intros b w1 (I1 & W1 & K1 & Hb). destruct b; [|by wp_steps].
  eapply wp_mono; [apply IH|]; [done| | |lia|].
  - eapply in_time_relink; [apply W1..|done].
  - eapply relink_nonempty; [apply W1|done].
  - intros _ w2 (I2 & W2 & K2 & T2). split_and!; [done|by eapply within_trans| |done]. intros t. by rewrite K2, K1.
Qed.

Lemma check_spec d w :
  ginv w -> in_time w -> cpus_of w d <> [] ->
  wp (check_for_preemptions G d) (fun _ w' => ginv w' /\ within d w w' /\ (forall t, kept w' t <-> kept w t) /\ top w' d) w.
Proof.
  intros I Ht Hne. unfold check_for_preemptions. wp_steps. apply preempt_loop_spec; try done. pose proof (losers_bound w d).
  unfold cpus_of in *. lia.
Qed.

(** ** Arrivals *)

(** The task [t], neither linked nor queued, is put into a queue. *)
Lemma requeue_idle_spec t w :
  ginv w -> in_time w -> idle w t -> is_realtime (tasks w t) = true ->
  (busy <> Some t -> scheduled_on (tasks w t) <> NO_CPU -> get_release (tasks w t) <= clock w) ->
  wp (gedf_requeue G t) (fun _ w' => ginv w' /\ within (cl_task G w t) w w' /\
    (forall c, link_of w' c = link_of w c) /\ forall u, kept w' u <-> kept w u \/ u = t) w.
Proof.
  intros I Ht Hid Hr Hs. pose proof (idle_heap G busy _ _ _ I Hid) as Hh. destruct (it_task _ Ht t Hr) as (Hrel & Hdl & Hend).
  unfold gedf_requeue, get_task, task_dom. wp_steps; [done|]. unfold get_task. wp_steps.
  apply clock_spec; [apply Ht|]. intros k ds Hk Hck He. wp_steps. simpl tasks. set (w1 := clock_to k ds w).
  change (task_cluster G (ent w) (tasks w t)) with (cl_task G w t). set (d := cl_task G w t).
  assert (ginv w1) as I1 by (apply ginv_clock; [done|lia]).
  assert (within d w w1) as W1 by (split; [done|split_and!; try done; simpl; lia|done|done]).
  assert (edf_ok (tasks w) t) as Hok by (apply edf_ok_intro; [apply I|done|lia]).
  assert (is_released (tasks w t) k = (get_release (tasks w t) <=? k)) as ->.
  { destruct (it_clock _ Ht). unfold is_released. apply lt_before_eq_window; lia. }
  assert (forall p w', moved t (Some p) w1 w' -> edom_ok w' -> place_ok G busy w1 t p -> ginv w' /\ within d w w' /\
    (forall c, link_of w' c = link_of w c) /\ forall u, kept w' u <-> kept w u \/ u = t) as Hfin.
  { intros p w' M Hd Hp. split_and!.
    - apply (ginv_moved G busy None None t (Some p) w1 w' I1 M Hd); [by left|]. intros q [= <-]. split; [done|].
      intros c E. by destruct (id_link _ _ Hid c).
    - eapply within_trans; [exact W1|]. eapply moved_within; [exact M|intros d' _; exact (id_place _ _ Hid (PReady d'))|].
      intros d' [= ->]. symmetry. apply Hp.
    - intros c. by rewrite (se_plugin _ _ (mv_env _ _ _ _ M)).
    - intros u. unfold kept. rewrite (se_plugin _ _ (mv_env _ _ _ _ M)). setoid_rewrite (mv_at _ _ _ _ M).
      destruct (decide (u = t)) as [->|Hu]; [|naive_solver]. split; [by right|]. intros _. right. by exists p. }
  destruct (Z.leb_spec (get_release (tasks w t)) k) as [Hle|Hlt].
  - eapply wp_mono; [apply edf_add_ready_spec; [apply dummy_calm|apply I1|apply I1|done|done]|].
    intros ? w' [M Hd]. by apply (Hfin (PReady d)).
  - eapply wp_mono; [apply edf_add_release_spec; [apply I1|apply I1|done|done|done]|].
    intros ? w' [[o M] Hd]. apply (Hfin (PRelease d o)); [done|done|]. split; [done|]. intros _ Hb.
    destruct (decide (scheduled_on (tasks w t) = NO_CPU)) as [|Hn]; [done|]. specialize (Hs Hb Hn). lia.
Qed.

Lemma arrival_spec t w :
  let d := cl_task G w t in
  ginv w -> in_time w -> idle w t -> is_realtime (tasks w t) = true ->
  (busy <> Some t -> scheduled_on (tasks w t) <> NO_CPU -> get_release (tasks w t) <= clock w) -> cpus_of w d <> [] ->
  wp (gedf_job_arrival G t) (fun _ w' => ginv w' /\ within d w w' /\ top w' d /\ forall u, kept w' u <-> kept w u \/ u = t) w.
Proof.
  intros d I Ht Hid Hr Hs Hne. unfold gedf_job_arrival, task_dom, get_task. wp_steps.
  eapply wp_mono; [by apply requeue_idle_spec|]. intros ? w1 (I1 & W1 & _ & K1).
  eapply wp_mono; [apply (check_spec d w1 I1)|].
  - eapply in_time_relink; [apply W1..|done].
  - eapply relink_nonempty; [apply W1|done].
  - intros ? w2 (I2 & W2 & K2 & T2). split_and!; [done|by eapply within_trans|done|]. intros u. by rewrite K2, K1.
Qed.

(** ** Leaving *)

(** The task is neither linked nor queued any longer. *)
Record gone t w w' : Prop := {
  go_inv : ginv w';
  go_relink : relink w w';
  go_timed : timed w w';
  go_link c : link_of w' c = if decide (link_of w c = Some t) then None else link_of w c;
  go_at u p : at_place w' u p <-> u <> t /\ at_place w u p
}.

Lemma gone_idle t w w' : gone t w w' -> idle w' t.
Proof.
  intros [_ _ _ L A]. split.
  - intros c. rewrite L. by case_decide.
  - intros p. rewrite A. naive_solver.
Qed.

Lemma gone_kept t w w' u : gone t w w' -> kept w' u <-> kept w u /\ u <> t.
Proof.
  intros Hg. pose proof (gone_idle _ _ _ Hg) as [Hl Hp]. destruct Hg as [_ _ _ L A]. unfold kept. setoid_rewrite A. split.
  - intros [[c E]|[p [? ?]]].
    + assert (u <> t) by (intros ->; by apply (Hl c)). rewrite L in E. case_decide; [done|]. split; eauto.
    + split; eauto.
  - intros [[[c E]|[p E]] Hu]; [|eauto]. left. exists c. rewrite L, decide_False; [done|]. naive_solver.
Qed.

Lemma gone_refl t w : ginv w -> idle w t -> gone t w w.
Proof.
  intros I [Hl Hp]. split; [done|done|apply timed_refl| |].
  - intros c. case_decide as E; [by destruct (Hl c)|done].
  - intros u p. split; [|naive_solver]. intros E. split; [|done]. intros ->. by apply (Hp p).
Qed.

Lemma linked_as_gone c t w w' :
  ginv w -> link_of w c = Some t -> linked_as G busy (upd (fun x => link_of w x) c None) w w' -> gone t w w'.
Proof.
  intros I Hl [I' R O L]. split; [done|done|by apply only_links_timed| |].
  - intros x. rewrite L. unfold upd. case_decide as Ex; [subst; by rewrite decide_True|].
    rewrite decide_False; [done|]. intros E. apply Ex. by eapply (linked_once G busy None w).
  - intros u p. destruct O as (T & g & ->). change (at_place w u p <-> u <> t /\ at_place w u p). split; [|naive_solver].
    intros E. split; [|done]. intros ->. by apply (gi_unqueued _ _ _ _ I c t p Hl).
Qed.

(** [unlink] of a task that is not waiting for its release *)
Lemma unlink_spec t w :
  ginv w -> is_realtime (tasks w t) = true -> (forall d o, ~ at_place w t (PRelease d o)) ->
  wp (unlink G t) (fun _ w' => gone t w w') w.
Proof.
  intros I Hr Hw. destruct (decide (linked_on (tasks w t) = NO_CPU)) as [En|En].
  - assert (forall c, link_of w c <> Some t) as Hnl.
    { intros c E. destruct (gi_linked _ _ _ _ I c t E) as (Ho & Hh & _). rewrite En in Ho. subst c. by rewrite (gi_nocpu _ _ _ _ I) in Hh. }
    unfold unlink, get_task. wp_steps. rewrite En, Z.eqb_refl. simpl. destruct (in_heap (tasks w t)) eqn:Hh; cbn [when].
    + apply (qo_heap _ _ _ (gi_dom _ _ _ _ I)) in Hh as [[d|d o] Hp]; [|by destruct (Hw d o)].
      unfold task_dom, get_task. wp_steps. change (task_cluster G (ent w) (tasks w t)) with (cl_task G w t).
      rewrite (gi_place _ _ _ _ I t _ Hp). simpl place_dom.
      eapply wp_mono; [apply edf_remove_spec; [apply I|apply I|done]|]. intros ? w' [M Hd]. split.
      * by apply (ginv_moved G busy None None t None w w' I M Hd); [left|].
      * apply env_relink, M.
      * apply env_timed, M.
      * intros c. rewrite (se_plugin _ _ (mv_env _ _ _ _ M)). by rewrite decide_False.
      * intros u p. rewrite (mv_at _ _ _ _ M). case_decide; naive_solver.
    + wp_steps. apply gone_refl; [done|]. split; [done|]. intros p E. assert (in_heap (tasks w t) = true); [|congruence].
      apply (qo_heap _ _ _ (gi_dom _ _ _ _ I)). by exists p.
  - pose proof (gi_on _ _ _ _ I t Hr En) as El. eapply wp_mono; [by apply (unlink_linked_spec G busy (linked_on (tasks w t)))|].
    intros ? w' L. by eapply linked_as_gone.
Qed.

End Loop.
