(* ===== verification/GlobalCpu.v ===== *)
(** * Global EDF: completing jobs and scheduling

    Job completion and the scheduling decision of the global and clustered EDF
    plugins (GlobalEdf.v): a processor runs the task linked to it, that task runs
    nowhere else, and the highest-priority jobs stay linked. *)

From stdpp Require Import sorting.
From S2P Require Import Prelude Task Edf PrioQueue Kernel RtDomain RtInv EdfDomain Partitioned GlobalEdf GlobalInv GlobalSched.
Open Scope Z_scope.

Section Cpu.
Context {Q : Type -> Type} `{PrioQueueLaws Q}.
Abbreviation world := (world Q (gstate Q)).
Abbreviation K := (M world).
Context (G : gplugin) `{!GPluginLaws G}.
Implicit Types (w : world) (t : tid) (c d : Z).

Abbreviation ent w := (entries (plugin w)).
Abbreviation link_of w c := (linked (entries (plugin w) c)).
Abbreviation ginv := (ginv G).

(** What stays the same until the task to run next is chosen. *)
Record same_sched w w' : Prop := {
  ss_on y : scheduled_on (tasks w' y) = scheduled_on (tasks w y);
  ss_rt y : is_realtime (tasks w' y) = is_realtime (tasks w y);
  ss_entry c : set_will false (set_linked None (ent w' c)) = set_will false (set_linked None (ent w c));
  ss_heap d : cpus_of w' d ≡ₚ cpus_of w d;
  ss_cpu : this_cpu w' = this_cpu w;
  ss_curr : curr w' = curr w
}.

Lemma same_sched_refl w : same_sched w w.
Proof. done. Qed.

Lemma same_sched_trans w1 w2 w3 : same_sched w1 w2 -> same_sched w2 w3 -> same_sched w1 w3.
Proof. intros [] []. split; intros; etransitivity; eauto. Qed.

Lemma relink_same_sched w w' : relink w w' -> same_sched w w'.
Proof.
  intros R. split; try apply R.
  - intros y. by apply (relink_field scheduled_on w w').
  - intros y. by apply (relink_field is_realtime w w').
Qed.

Lemma same_sched_field {A} (f : cpu_entry -> A) w w' c :
  (forall e, f (set_will false (set_linked None e)) = f e) -> same_sched w w' -> f (ent w' c) = f (ent w c).
Proof. intros Hf S. by rewrite <- (Hf (ent w' c)), (ss_entry _ _ S), Hf. Qed.

Lemma same_sched_cluster w w' c : same_sched w w' -> cl_entry G w' c = cl_entry G w c.
Proof. intros S. apply gl_entry. by apply (same_sched_field e_cluster). Qed.

(** ** Completion of a job *)

(** The task [s] leaves its link with its job already replaced by the next one. *)
Record retired s w w' : Prop := {
  rt_inv : ginv None w';
  rt_idle : idle w' s;
  rt_time : in_time w';
  rt_timed : timed w w';
  rt_same : same_sched w w';
  rt_state : is_running (tasks w' s) = is_running (tasks w s);
  rt_cluster : cl_task G w' s = cl_task G w s;
  rt_kept u : kept w' u <-> kept w u /\ u <> s;
  rt_top d : cl_task G w s <> d -> top w d -> top w' d
}.

Definition next_job (x : task_struct) : task_struct := prepare_for_next_period (set_rt_flags RT_F_SLEEP x).

Lemma next_job_in_time w s T :
  time_ok w -> is_realtime (tasks w s) = true -> T s = next_job (tasks w s) ->
  0 <= get_release (T s) < two63 /\ 0 <= get_deadline (T s) < two63 /\ time_end w < two63.
Proof.
  intros Ht Hr ->. destruct (to_task _ Ht s Hr) as (? & ? & ? & ? & ?). unfold next_job.
  destruct (next_job_window (set_rt_flags RT_F_SLEEP (tasks w s))) as (-> & -> & _); try done.
  cbn. unfold get_deadline, get_rt_period in *. cbn in *. lia.
Qed.

(** [w0] is a state in which the task [s] was linked, [wr] the one in which it is not. *)
Lemma retired_by s w k ds wr T' :
  let w0 := clock_to k ds w in
  ginv None w -> time_ok w -> is_realtime (tasks w s) = true -> in_heap (tasks w s) = false -> timed w w0 ->
  (forall c, link_of w c = Some s -> cl_entry G w c = cl_task G w s) ->
  gone G None s w0 wr -> (forall y, y <> s -> T' y = tasks wr y) -> T' s = set_linked_on NO_CPU (next_job (tasks w s)) ->
  retired s w (set_tasks T' wr).
Proof.
  intros w0 I Ht Hr Hh Htm Hcl Hg HT' Hs. pose proof (gone_idle _ _ _ _ _ Hg) as Hid. pose proof (go_relink _ _ _ _ _ Hg) as R.
  assert (ginv None (set_tasks T' wr)) as I3.
  { apply (ginv_free_same G None s wr T'); rewrite ?Hs; try done; [apply Hg|by rewrite (relink_field is_realtime w0 wr)| | | |].
    - by rewrite (relink_field pid w0 wr).
    - apply (gi_inh _ _ _ _ I).
    - by rewrite (relink_field scheduled_on w0 wr).
    - by rewrite (relink_field get_partition w0 wr). }
  assert (timed w (set_tasks T' wr)) as Htm3 by (eapply (timed_trans _ w0); [done|exact (go_timed _ _ _ _ _ Hg)]).
  split; try done.
  - by destruct Hid.
  - split; [exact (proj1 (proj2 Htm3) (to_clock _ Ht))|]. intros y. simpl. destruct (decide (y = s)) as [->|Hy].
    + intros _. destruct Htm3 as (_ & _ & E). change (time_end (set_tasks T' wr)) with (time_end wr) in *. rewrite E.
      destruct (next_job_in_time w s (fun _ => next_job (tasks w s)) Ht Hr eq_refl) as (? & ? & ?). by rewrite Hs.
    + rewrite HT' by done. apply (it_task wr).
      eapply in_time_relink; [exact R|apply Hg|]. destruct (time_ok_in_time _ Ht) as [Hk Hit]. destruct Htm as (? & ? & E).
      split; [auto|]. rewrite E. exact Hit.
  - eapply (same_sched_trans _ w0); [done|]. eapply (same_sched_trans _ wr); [by apply relink_same_sched|].
    split; try done; intros y; simpl; (destruct (decide (y = s)) as [->|Hy]; [rewrite Hs|by rewrite HT']).
    + symmetry. exact (relink_field scheduled_on w0 wr s (fun _ => eq_refl) R).
    + symmetry. exact (relink_field is_realtime w0 wr s (fun _ => eq_refl) R).
  - simpl. by rewrite Hs.
  - unfold cl_task. simpl. rewrite Hs. apply gl_task; [|done]. intros c. exact (relink_efield e_cluster w0 wr c (fun _ => eq_refl) R).
  - intros u. exact (gone_kept G None s w0 wr u Hg).
  - intros d Hd Htop t c Hrd Hc. apply (go_at _ _ _ _ _ Hg t (PReady d)) in Hrd as [Hts Hrd].
    change (c ∈ cpus_of wr d) in Hc. rewrite (rl_heap _ _ R d) in Hc. destruct (Htop t c Hrd Hc) as (l & El & Hp). exists l.
    assert (l <> s) as Hls.
    { intros ->. apply Hd. rewrite <- (Hcl c El). apply (gi_heap _ _ _ _ I d c) in Hc. apply Hc. }
    simpl. rewrite (go_link _ _ _ _ _ Hg c), decide_False by (change (link_of w c <> Some s); congruence). split; [done|]. rewrite <- Hp.
    rewrite <- (relink_prio w0 wr _ _ R). apply (edf_order_local (tasks wr) T'); [apply Hg|apply I3|by apply HT'..].
Qed.

Lemma retire_spec c s w :
  ginv None w -> time_ok w -> link_of w c = Some s ->
  wp (upd_task s next_job;; litmus_clock;; unlink G s) (fun _ w' => retired s w w') w.
Proof.
  intros I Ht Hl. destruct (gi_linked _ _ _ _ I c s Hl) as (Ho & Hhn & Hr & _ & Hcl & _).
  wp_step. apply wp_upd_task. set (x1 := next_job (tasks w s)). wp_step. apply clock_spec; [apply Ht|].
  intros k ds Hk Hck He. change (clock w <= k <= time_end w) in Hk. change (clock_ok (clock_to k ds w)) in Hck.
  change (time_end (clock_to k ds w) = time_end w) in He. set (w0 := clock_to k ds w). assert (ginv None w0) as I0 by (apply ginv_clock; [done|lia]).
  unfold unlink, get_task. wp_steps. simpl tasks. rewrite upd_eq. change (linked_on x1) with (linked_on (tasks w s)). rewrite Ho.
  assert (c <> NO_CPU) as Hc by (intros ->; by rewrite (gi_nocpu _ _ _ _ I) in Hhn).
  rewrite (proj2 (Z.eqb_neq c NO_CPU) Hc). simpl. wp_step. apply wp_upd_task. simpl tasks. rewrite upd_eq.
  set (T2 := upd _ _ _). assert (T2 s = set_linked_on NO_CPU x1) as Hs by apply upd_eq.
  assert (forall y, y <> s -> T2 y = tasks w0 y) as HT2 by (intros y Hy; unfold T2; by rewrite !upd_ne).
  change (set_tasks T2 _) with (set_tasks T2 w0).
  eapply wp_mono; [apply (unlink_changed G None s c w0 T2 I0 Hl HT2)|]; rewrite ?Hs; [done|apply (gi_inh _ _ _ _ I)|].
  intros ? w3 (wr & T' & -> & L & HT' & Hs'). pose proof (linked_as_gone G None c s w0 wr I0 Hl L) as Hg.
  assert (in_heap (tasks w s) = false) as Hh.
  { destruct (in_heap (tasks w s)) eqn:E; [|done]. apply (qo_heap _ _ _ (gi_dom _ _ _ _ I)) in E as [p Hp].
    by destruct (gi_unqueued _ _ _ _ I c s p Hl). }
  apply (retired_by s w k ds wr T'); try done.
  - split_and!; [simpl; lia|done|done].
  - intros x E. by rewrite (linked_once G None None w x c s).
Qed.

(** The job of [s] is replaced by its next one, which is queued or linked. *)
Record completed d s w w' : Prop := {
  co_inv : ginv (Some s) w';
  co_timed : timed w w';
  co_same : same_sched w w';
  co_top : top w' d;
  co_tops d' : d' <> d -> top w d' -> top w' d';
  co_kept u : kept w' u <-> kept w u
}.

Lemma completion_spec c s w :
  ginv None w -> time_ok w -> link_of w c = Some s -> is_running (tasks w s) = true ->
  wp (gedf_job_completion G s) (fun _ w' => completed (cl_entry G w c) s w w') w.
Proof.
  intros I Ht Hl Hrun. destruct (gi_linked _ _ _ _ I c s Hl) as (_ & Hhn & Hr & _ & Hcl & _).
  pose proof (retire_spec c s w I Ht Hl) as HR. apply wp_bind in HR. unfold gedf_job_completion. wp_step.
  eapply wp_mono; [exact HR|]. intros ? w1 HR1. apply wp_bind in HR1. wp_step.
  eapply wp_mono; [exact HR1|]. intros ? w2 HR2. wp_step. eapply wp_mono; [exact HR2|]. intros ? w3 [I3 Hid Hit Htm S Hst Hc3 K3 T3].
  unfold get_task. wp_steps. rewrite Hst, Hrun. cbn [when]. rewrite <- Hcl.
  eapply wp_mono; [apply (arrival_spec G (Some s) s w3)|]; try done.
  - by apply ginv_forget.
  - by rewrite (ss_rt _ _ S).
  - rewrite Hc3, Hcl. intros E. assert (c ∈ cpus_of w (cl_entry G w c)) as Hin by by apply (gi_heap _ _ _ _ I).
    rewrite <- (ss_heap _ _ S), E in Hin. by apply not_elem_of_nil in Hin.
  - rewrite Hc3. intros ? w4 (I4 & W4 & T4 & K4). split; try done.
    + eapply timed_trans; [exact Htm|apply W4].
    + eapply same_sched_trans; [exact S|]. apply relink_same_sched, W4.
    + intros d' Hd Ht'. eapply (within_top G (Some s)); [exact W4|done| |by apply ginv_forget]. by apply T3.
    + intros u. rewrite K4, K3. destruct (decide (u = s)) as [->|]; [|tauto]. split; [|tauto]. intros _. left. by exists c.
Qed.

(** ** Filling the processor *)

(** The highest-priority jobs are linked to the processors other than [me]. *)
Definition top_but me w d : Prop :=
  forall t c, t ∈ ready_elems w d -> c ∈ cpus_of w d -> c <> me ->
    exists l, link_of w c = Some l /\ edf_higher_prio (tasks w) (Some t) (Some l) = false.

Lemma top_top_but me w d : top w d -> top_but me w d.
Proof. intros Ht t c Hr Hc _. by apply Ht. Qed.

Lemma refill_top busy me t w w' :
  let d := cl_entry G w me in
  ginv busy w -> link_of w me = None -> top_but me w d -> t ∈ ready_elems w d ->
  Forall (fun e => edf_ready_order (tasks w) e t = false) (ready_elems w d) -> link_round G busy d me t w w' -> top w' d.
Proof.
  intros d I Hl Htb Hin Hbest [_ W L A] e c He Hc. rewrite Forall_forall in Hbest.
  apply (A e (PReady d)) in He. rewrite decide_False in He by congruence. destruct He as [Het He].
  rewrite (rl_heap _ _ (wi_relink _ _ _ _ W)) in Hc. setoid_rewrite (relink_prio w w'); [|apply W]. rewrite L. unfold relinked.
  case_bool_decide as Es.
  - unfold upd. case_decide as Ec; [|by apply Htb]. exists t. split; [done|by apply Hbest].
  - destruct (gi_sched _ _ _ _ I t) as [Hhs Hcs]; [by eapply ready_rt|tauto|].
    rewrite (gi_place _ _ _ _ I t (PReady d) Hin) in Hcs.
    unfold upd. case_decide as Ec; [|case_decide as Ec'; [|by apply Htb]].
    + apply Htb; [done| |tauto]. by apply (gi_heap _ _ _ _ I).
    + exists t. split; [done|by apply Hbest].
Qed.

Lemma refill_spec busy me w :
  let d := cl_entry G w me in
  ginv busy w -> hn_in_heap (ent w me) = true -> link_of w me = None -> top_but me w d ->
  wp (n ← __take_ready edf_ready_order d; link_task_to_cpu G n me)
    (fun _ w' => ginv busy w' /\ within G d w w' /\ top w' d /\ forall u, kept w' u <-> kept w u) w.
Proof.
  intros d I Hhn Hl Htb. assert (me ∈ cpus_of w d) as Hme by by apply (gi_heap _ _ _ _ I).
  wp_step. eapply wp_mono; [apply edf_take_spec; apply I|]. intros [t|] w1 [Hd1 Ht1].
  - destruct Ht1 as (Hin & M & Hbest). destruct (taken_within G busy d t w w1 I Hin M Hd1) as [I1 W1].
    eapply wp_mono; [apply (link_ready_spec G busy d me t w w1)|]; try done.
    + by apply ginv_weaken.
    + by rewrite (se_plugin _ _ (mv_env _ _ _ _ M)).
    + intros u p. rewrite Hl, decide_False, (mv_at _ _ _ _ M) by done. case_decide; naive_solver.
    + intros ? w2 R2. split_and!; [apply R2..| |intros u; by eapply round_kept]. by eapply refill_top.
  - destruct Ht1 as [Hempty Hq]. pose proof (ginv_quiet G busy None w w1 I Hq Hd1) as I1. pose proof (se_plugin _ _ (qt_env _ _ Hq)) as Hp.
    eapply wp_mono; [apply (link_none_spec G busy me w1 w1 I1); [by rewrite Hp|by exists (tasks w1); destruct w1|done|done]|].
    intros ? w2 [I2 R2 O2 L2]. assert (forall x, link_of w2 x = link_of w x) as Hlk.
    { intros x. rewrite L2, Hp. unfold upd. case_decide; [by subst|done]. }
    assert (forall u p, at_place w2 u p <-> at_place w u p) as Ha.
    { intros u p. destruct O2 as (T & g & ->). apply (qt_at _ _ Hq). }
    split_and!; [done| | |].
    + split; [by eapply relink_trans; [apply env_relink, Hq|]| |intros u d' _; apply (Ha u (PReady d'))|intros c _; apply Hlk].
      eapply timed_trans; [apply env_timed, Hq|by apply only_links_timed].
    + intros t c Ht%(Ha t (PReady d)). unfold at_place in Ht. rewrite Hempty in Ht. by apply not_elem_of_nil in Ht.
    + intros u. unfold kept. setoid_rewrite Hlk. by setoid_rewrite Ha.
Qed.

(** ** The decision *)

(** The task scheduled on the processor [me] before the decision *)
Record coherent prev me w : Prop := {
  ch_me : this_cpu w = me;
  ch_heap : hn_in_heap (ent w me) = true;
  ch_on y : is_realtime (tasks w y) = true -> scheduled_on (tasks w y) = me <-> e_scheduled (ent w me) = Some y;
  ch_rt s : e_scheduled (ent w me) = Some s -> is_realtime (tasks w s) = true;
  ch_prev s : e_scheduled (ent w me) = Some s -> s = prev
}.

Lemma coherent_same prev me w w' : same_sched w w' -> coherent prev me w -> coherent prev me w'.
Proof.
  intros S [Hm Hh Ho Hr Hp]. pose proof (same_sched_field e_scheduled w w' me (fun _ => eq_refl) S) as Fs. split.
  - by rewrite (ss_cpu _ _ S).
  - by rewrite (same_sched_field hn_in_heap w w' me (fun _ => eq_refl) S).
  - intros y. rewrite (ss_rt _ _ S), (ss_on _ _ S), Fs. apply Ho.
  - intros s. rewrite Fs, (ss_rt _ _ S). apply Hr.
  - intros s. rewrite Fs. apply Hp.
Qed.

Definition here_now next prev me : tid -> Z -> Z := fun y old =>
  if decide (next = Some y) then me else if decide (prev = Some y) then NO_CPU else old.

Lemma decide_spec prev me blocks w :
  e_cpu (ent w me) = me -> coherent prev me w ->
  wp (gedf_decide me prev false blocks (bool_decide (e_scheduled (ent w me) <> None))) (fun next w' =>
    next = link_of w me /\ exists T', w' = set_tasks T' w /\
    (forall y, set_scheduled_on 0 (T' y) = set_scheduled_on 0 (tasks w y)) /\
    forall y, is_realtime (tasks w y) = true ->
      scheduled_on (T' y) = here_now next (e_scheduled (ent w me)) me y (scheduled_on (tasks w y))) w.
Proof.
  intros Hcpu [Hm Hh Ho Hr Hp]. unfold gedf_decide, get_entry, here_now. wp_steps. rewrite Hcpu. simpl orb. simpl andb.
  case_bool_decide as Ene.
  - destruct (link_of w me) as [l|], (e_scheduled (ent w me)) as [s|]; try done; wp_steps; unfold upd_task; wp_steps;
      (split; [done|]); eexists; (split; [reflexivity|]); split; intros y; simpl; unfold upd; repeat case_decide; naive_solver.
  - wp_steps. split.
    + rewrite Ene. case_bool_decide as E; [|by destruct (e_scheduled (ent w me)); [destruct E|]].
      destruct (e_scheduled (ent w me)) as [s|] eqn:Es; [|done]. by rewrite (Hp s).
    + exists (tasks w). split; [by destruct w|]. split; [done|]. intros y Hy. case_decide as E1; [|case_decide as E2].
      * apply Ho; [done|]. revert E1. case_bool_decide as E; [|done]. intros [= ->].
        destruct (e_scheduled (ent w me)) as [s|]; [|done]. by rewrite (Hp s).
      * exfalso. apply E1. rewrite bool_decide_true by (by rewrite E2). by rewrite (Hp y).
      * done.
Qed.

(** What happens to the task scheduled so far *)
Record vacated me w w' : Prop := {
  va_inv : ginv (e_scheduled (ent w me)) w';
  va_timed : timed w w';
  va_same : same_sched w w';
  va_but : top_but me w' (cl_entry G w me);
  va_top : link_of w' me <> None -> top w' (cl_entry G w me);
  va_tops d : d <> cl_entry G w me -> top w d -> top w' d;
  va_kept u : kept w' u <-> kept w u /\ ~ (e_scheduled (ent w me) = Some u /\ is_running (tasks w u) = false)
}.

Lemma vacated_refl me w :
  ginv None w -> top w (cl_entry G w me) ->
  (forall s, e_scheduled (ent w me) = Some s -> is_running (tasks w s) = true) -> vacated me w w.
Proof.
  intros I Ht Hr. split; try done; [by apply ginv_forget|by apply top_top_but|].
  intros u. split; [|tauto]. intros Hk. split; [done|]. intros [Es Hb]. by rewrite (Hr u Es) in Hb.
Qed.

(** A task that blocks *)
Lemma vacated_gone me s w w' :
  ginv None w -> top w (cl_entry G w me) -> e_scheduled (ent w me) = Some s -> is_running (tasks w s) = false ->
  (forall c, link_of w c = Some s -> c = me) -> gone G None s w w' -> vacated me w w'.
Proof.
  intros I Ht Hs Hb Hl Hg. pose proof (fun u => gone_kept G None s w w' u Hg) as Hk. destruct Hg as [I' R Htm L A]. set (d := cl_entry G w me) in *.
  assert (forall d, top w d -> forall t c, t ∈ ready_elems w' d -> c ∈ cpus_of w' d -> link_of w c <> Some s ->
    exists l, link_of w' c = Some l /\ edf_higher_prio (tasks w') (Some t) (Some l) = false) as Htop.
  { intros d' Ht' t c Hr Hc Hne. apply (A t (PReady d')) in Hr as [_ Hr]. rewrite (rl_heap _ _ R) in Hc.
    rewrite L, decide_False by done. setoid_rewrite (relink_prio w w'); [|done]. by apply Ht'. }
  split; try done.
  - by apply ginv_forget.
  - by apply relink_same_sched.
  - intros t c Hr Hc Hne. apply (Htop d); try done. by intros E%Hl.
  - intros Hne t c Hr Hc. apply (Htop d); try done. intros E. pose proof (Hl c E) as ->. by rewrite L, decide_True in Hne.
  - intros d' Hd Ht' t c Hr Hc. apply (Htop d'); try done. intros E. pose proof (Hl c E) as ->. apply Hd.
    rewrite (rl_heap _ _ R) in Hc. by apply (gi_heap _ _ _ _ I) in Hc as [_ <-].
  - intros u. rewrite Hk, Hs. naive_solver.
Qed.

Lemma vacated_completed me s w w' :
  e_scheduled (ent w me) = Some s -> is_running (tasks w s) = true -> completed (cl_entry G w me) s w w' -> vacated me w w'.
Proof.
  intros Hs Hr [I Htm S Ht Hts Hk]. split; try done; [by rewrite Hs|by apply top_top_but|].
  intros u. rewrite Hk. split; [|tauto]. intros Hu. split; [done|]. intros [E Hb]. rewrite Hs in E. injection E as <-. congruence.
Qed.

Lemma vacate_spec prev me s (done_ b : bool) (c : K unit) w :
  ginv None w -> time_ok w -> coherent prev me w -> top w (cl_entry G w me) -> e_scheduled (ent w me) = Some s ->
  wp (when (negb (is_running (tasks w s))) (unlink G s);; when (false && b) c;;
      when (negb false && done_ && negb (negb (is_running (tasks w s))) && negb (bool_decide (Some s <> link_of w me)))
        (gedf_job_completion G s)) (fun _ w' => vacated me w w') w.
Proof.
  intros I Ht Hch Htop Hs. pose proof (ch_rt _ _ _ Hch s Hs) as Hr. pose proof (proj2 (ch_on _ _ _ Hch s Hr) Hs) as Hon.
  assert (scheduled_on (tasks w s) <> NO_CPU) as Hno.
  { rewrite Hon. intros E. pose proof (ch_heap _ _ _ Hch) as Hh. by rewrite E, (gi_nocpu _ _ _ _ I) in Hh. }
  assert (forall c, link_of w c = Some s -> c = me) as Hl.
  { intros x E. destruct (gi_home _ _ _ _ I x s E) as [?|<-]; [done|done]. }
  destruct (is_running (tasks w s)) eqn:Hrun; cbn [negb when andb].
  - wp_steps. rewrite andb_true_r. destruct (done_ && negb (bool_decide (Some s <> link_of w me))) eqn:Ed; cbn [when].
    + apply andb_true_iff in Ed as [_ Ed%negb_true_iff]. apply bool_decide_eq_false in Ed. apply dec_stable in Ed.
      eapply wp_mono; [by apply (completion_spec me)|]. intros ? w' Hc. by eapply vacated_completed.
    + wp_steps. apply vacated_refl; [done|done|]. intros u E. congruence.
  - wp_step. eapply wp_mono; [apply (unlink_spec G None s w I Hr)|].
    + intros d o. by apply (gi_wait _ _ _ _ I).
    + intros ? w' Hg. rewrite !andb_false_r. cbn [andb when]. wp_steps. by eapply vacated_gone.
Qed.

(** The flag of the processor does not matter. *)
Lemma will_spec busy me b w :
  ginv busy w ->
  let w' := set_plugin (mk_gstate (upd (ent w) me (set_will b (ent w me))) (cpu_heap (plugin w)) (cl_cpus (plugin w))) w in
  ginv busy w' /\ relink w w' /\ (forall x, link_of w' x = link_of w x) /\ (forall u p, at_place w' u p <-> at_place w u p).
Proof.
  intros I w'. assert (forall x, ent w' x = set_will (will_schedule (ent w' x)) (ent w x)) as He.
  { intros x. simpl. unfold upd. case_decide; [by subst|by destruct (ent w x)]. }
  assert (forall x, link_of w' x = link_of w x) as Hl by (intros x; by rewrite He).
  split_and!; [|split; try done; intros x; by rewrite He|done|done].
  apply (ginv_entries G busy); [done| |done]. intros x. simpl. unfold upd. case_decide; by subst.
Qed.

(** The task [next] is what the processor runs from now on. *)
Record picked me w next w' : Prop := {
  pk_inv : ginv None w';
  pk_next : link_of w' me = next;
  pk_here y : is_realtime (tasks w' y) = true -> scheduled_on (tasks w' y) = me <-> next = Some y;
  pk_free y : next = Some y -> scheduled_on (tasks w y) = NO_CPU \/ scheduled_on (tasks w y) = me;
  pk_top d : top w d -> top w' d;
  pk_kept u : kept w' u <-> kept w u /\ ~ (e_scheduled (ent w me) = Some u /\ is_running (tasks w u) = false)
}.

Lemma decided_picked prev me w2 T' :
  ginv (e_scheduled (ent w2 me)) w2 -> coherent prev me w2 ->
  (forall y, set_scheduled_on 0 (T' y) = set_scheduled_on 0 (tasks w2 y)) ->
  (forall y, is_realtime (tasks w2 y) = true ->
      scheduled_on (T' y) = here_now (link_of w2 me) (e_scheduled (ent w2 me)) me y (scheduled_on (tasks w2 y))) ->
  ginv None (set_tasks T' w2) /\
  forall y, is_realtime (T' y) = true -> scheduled_on (T' y) = me <-> link_of w2 me = Some y.
Proof.
  intros I Hch HT Hs. assert (forall y, is_realtime (T' y) = is_realtime (tasks w2 y)) as Fr.
  { intros y. change (is_realtime (set_scheduled_on 0 (T' y)) = is_realtime (set_scheduled_on 0 (tasks w2 y))). by rewrite HT. }
  assert (me <> NO_CPU) as Hno.
  { intros E. pose proof (ch_heap _ _ _ Hch) as Hh. by rewrite E, (gi_nocpu _ _ _ _ I) in Hh. }
  assert (forall y, is_realtime (T' y) = true -> scheduled_on (T' y) = me <-> link_of w2 me = Some y) as Hme.
  { intros y. rewrite Fr. intros Hy. rewrite Hs by done. unfold here_now. case_decide as E1; [done|]. case_decide as E2; [naive_solver|].
    split; [|done]. intros E. by apply (ch_on _ _ _ Hch) in E. }
  split; [|done]. eapply ginv_settle; [apply (ginv_scheduled G _ w2 T' I HT)|].
  - intros c t E. destruct (gi_linked _ _ _ _ I c t E) as (_ & _ & Hr & _). rewrite Hs by done. unfold here_now. case_decide as E1.
    + right. by eapply (linked_once G _ None w2).
    + case_decide; [by left|]. by apply (gi_home _ _ _ _ I).
  - intros t Hr Hn. rewrite Fr in Hr. rewrite Hs in * by done. unfold here_now in *. repeat case_decide; naive_solver.
  - intros t u Ht Hu Hn E. destruct (decide (scheduled_on (T' t) = me)) as [Em|Em].
    + assert (link_of w2 me = Some t) by by apply Hme. assert (link_of w2 me = Some u) by (apply Hme; congruence). congruence.
    + assert (forall y, is_realtime (T' y) = true -> scheduled_on (T' y) <> NO_CPU -> scheduled_on (T' y) <> me ->
        scheduled_on (T' y) = scheduled_on (tasks w2 y)) as Hold.
      { intros y Hy. rewrite Fr in Hy. rewrite Hs by done. unfold here_now. repeat case_decide; done. }
      rewrite Fr in Ht, Hu. apply (gi_once _ _ _ _ I t u Ht Hu); rewrite <- !Hold; congruence || by rewrite Fr.
  - intros t d o Eb. simpl. pose proof (ch_rt _ _ _ Hch t Eb) as Hr. rewrite Hs by done. unfold here_now. case_decide as E1.
    + intros _. exact (gi_unqueued _ _ _ _ I me t (PRelease d o) E1 ltac:(done)).
    + by rewrite decide_True.
Qed.

(** The state in which a processor, not the release master, schedules; its task
    is not in a non-preemptive section. *)
Record schedulable prev w : Prop := {
  sd_inv : ginv None w;
  sd_time : time_ok w;
  sd_coh : coherent prev (this_cpu w) w;
  sd_rt : e_scheduled (ent w (this_cpu w)) = None -> is_realtime (tasks w prev) = false;
  sd_np s : e_scheduled (ent w (this_cpu w)) = Some s -> is_np (tasks w s) = false;
  sd_master : has_master G && (release_master (doms w (cl_entry G w (this_cpu w))) =? this_cpu w) = false;
  sd_top : top w (cl_entry G w (this_cpu w))
}.

Lemma finish_spec prev me blocks w1 w2 :
  coherent prev me w1 -> vacated me w1 w2 ->
  wp (e ← get_entry me;
      when (bool_decide (linked e = None))
        (n ← __take_ready edf_ready_order (cl_entry G w1 me); link_task_to_cpu G n me);;
      gedf_decide me prev false blocks (bool_decide (e_scheduled (ent w1 me) <> None)))
    (fun next w' => picked me w1 next w') w2.
Proof.
  intros Hch [I2 Htm S Hb Ht Hts Hk]. unfold get_entry. wp_steps. pose proof (coherent_same _ _ _ _ S Hch) as Hch2.
  pose proof (same_sched_cluster w1 w2 me S) as Hcl. set (d := cl_entry G w1 me) in *.
  set (P := fun w3 : world => ginv (e_scheduled (ent w1 me)) w3 /\ same_sched w2 w3 /\
    (forall d', top w1 d' -> top w3 d') /\ forall u, kept w3 u <-> kept w2 u).
  assert (wp (when (bool_decide (link_of w2 me = None)) (n ← __take_ready edf_ready_order d; link_task_to_cpu G n me)) (fun _ => P) w2) as HP.
  { case_bool_decide as El; cbn [when].
    - rewrite <- Hcl. eapply wp_mono; [apply (refill_spec _ me w2 I2 (ch_heap _ _ _ Hch2) El); by rewrite Hcl|].
      intros ? w3 (I3 & W3 & T3 & K3). rewrite Hcl in *. split_and!; [done|apply relink_same_sched, W3| |done].
      intros d' Hd'. destruct (decide (d' = d)) as [->|Hne]; [done|]. eapply within_top; [exact W3|done| |done]. by apply Hts.
    - wp_steps. split_and!; [done|done| |done]. intros d' Hd'. destruct (decide (d' = d)) as [->|Hne]; [by apply Ht|by apply Hts]. }
  eapply wp_mono; [exact HP|]. intros ? w3 (I3 & S3 & T3 & K3). pose proof (same_sched_trans _ _ _ S S3) as S13.
  pose proof (same_sched_field e_scheduled w1 w3 me (fun _ => eq_refl) S13) as Fs. rewrite <- Fs in I3.
  pose proof (coherent_same _ _ _ _ S13 Hch) as Hch3. rewrite <- Fs.
  eapply wp_mono; [apply decide_spec; [apply (gi_cpu _ _ _ _ I3)|done]|]. intros next w4 (-> & T' & -> & HT & Hs).
  destruct (decided_picked prev me w3 T' I3 Hch3 HT Hs) as [I4 Hme]. split; try done.
  - intros y El. rewrite <- (ss_on _ _ S13). by apply (gi_home _ _ _ _ I3).
  - intros d' Hd' t c Hr Hc. destruct (T3 d' Hd' t c Hr Hc) as (l & El & Hp). exists l. split; [done|]. rewrite <- Hp.
    apply edf_higher_prio_ext. intros y. specialize (HT y). exact (conj (f_equal inh_task HT) (conj (f_equal pid HT) (conj (f_equal is_realtime HT) (f_equal get_deadline HT)))).
  - intros u. rewrite <- Hk. exact (K3 u).
Qed.

Lemma will_top w w1 d :
  relink w w1 -> (forall x, link_of w1 x = link_of w x) -> (forall u p, at_place w1 u p <-> at_place w u p) -> top w d -> top w1 d.
Proof.
  intros R L A Ht t c Hr%(A t (PReady d)) Hc. rewrite (rl_heap _ _ R) in Hc. rewrite L. setoid_rewrite (relink_prio w w1); [|done]. by apply Ht.
Qed.

Lemma schedule_spec prev w :
  schedulable prev w -> wp (gedf_schedule G prev) (fun next w' => picked (this_cpu w) w next w') w.
Proof.
  intros [I Ht Hch Hrt Hnp Hms Htop]. set (me := this_cpu w) in *.
  unfold gedf_schedule, get_entry, get_dom. wp_steps. rewrite (gi_cpu _ _ _ _ I). fold me. change (entry_cluster G (ent w me)) with (cl_entry G w me).
  rewrite Hms. unfold clear_will_schedule. wp_steps. apply wp_upd_entry. fold me.
  destruct (will_spec None me false w I) as (I1 & R1 & L1 & A1). set (w1 := set_plugin _ w) in *.
  pose proof (relink_efield e_scheduled w w1 me (fun _ => eq_refl) R1) as Fs. pose proof (relink_entry G w w1 me R1) as Fc.
  assert (forall next w', picked me w1 next w' -> picked me w next w') as Hpk.
  { intros next w' [Iw Hn Hh Hf Htp Hk]. split; try done.
    - intros d Hd. apply Htp. by apply (will_top w w1).
    - intros u. rewrite Hk, Fs. unfold kept. setoid_rewrite L1. by setoid_rewrite A1. }
  pose proof (coherent_same _ _ _ _ (relink_same_sched _ _ R1) Hch) as Hch1.
  assert (time_ok w1) as Ht1 by by destruct Ht.
  assert (top w1 (cl_entry G w1 me)) as Htop1 by (rewrite Fc; by apply (will_top w w1)).
  rewrite <- Fs, <- (L1 me), <- Fc. rewrite <- Fs in Hrt, Hnp. unfold get_task.
  destruct (e_scheduled (ent w1 me)) as [s|] eqn:Es.
  - pose proof (ch_prev _ _ _ Hch1 s Es) as <-. pose proof (ch_rt _ _ _ Hch1 s Es) as Hr. specialize (Hnp s eq_refl).
    wp_steps; [by rewrite (bool_decide_false (Some s <> Some s)) by auto|by rewrite Hr|by rewrite andb_false_r|].
    wp_steps. change (is_np (tasks w1 s) = false) in Hnp. rewrite Hnp.
    refine (proj1 (wp_bind _ _ _ _) _). eapply wp_mono; [by eapply (vacate_spec s me s)|].
    intros ? w2 HV. eapply wp_mono; [|exact Hpk]. pose proof (finish_spec s me (negb (is_running (tasks w1 s))) w1 w2 Hch1 HV) as HF.
    by rewrite Es in HF.
  - assert (is_realtime (tasks w1 prev) = false) as Hrp by exact (Hrt eq_refl). wp_steps; [done..|by rewrite Hrp|].
    refine (proj1 (wp_bind _ _ _ _) _). eapply wp_mono; [|exact Hpk].
    pose proof (finish_spec prev me false w1 w1 Hch1) as HF. rewrite Es in HF. apply HF. apply vacated_refl; [done|done|].
    intros s E. congruence.
Qed.

End Cpu.
