(* ===== verification/GlobalTask.v ===== *)
(** * Global EDF: releases, arrivals and departures

    The handlers of the global and clustered EDF plugins (GlobalEdf.v) that bring
    tasks in and take them out: release timers, new tasks, wake-ups, blocking and
    exiting tasks, and the activation of GSN-EDF. *)

From stdpp Require Import sorting.
From S2P Require Import Prelude Task Edf PrioQueue Kernel RtDomain RtInv EdfDomain Partitioned GlobalEdf GlobalInv GlobalSched GlobalCpu.
Open Scope Z_scope.

Section Tasks.
Context {Q : Type -> Type} `{PrioQueueLaws Q}.
Abbreviation world := (world Q (gstate Q)).
Abbreviation K := (M world).
Context (G : gplugin) `{!GPluginLaws G}.
Implicit Types (w : world) (t : tid) (c d : Z).

Abbreviation ent w := (entries (plugin w)).
Abbreviation link_of w c := (linked (entries (plugin w) c)).
Abbreviation ginv := (ginv G None).

(** ** Release timers *)
Lemma ginv_released o w w' :
  ginv w -> active w o -> rh_time (rheaps w o) <= clock w -> released o w w' -> edom_ok w' -> ginv w'.
Proof.
  intros I Ha Hk [Henv Hat] Hd. apply (ginv_env G None None None w w' I Henv Hd).
  - intros c u q E _. rewrite Hat. case_decide as Hu; [|by apply (gi_unqueued _ _ _ _ I c u q E)].
    intros _. by apply (gi_unqueued _ _ _ _ I c u (PRelease (rh_dom (rheaps w o)) o) E).
  - intros u q. rewrite Hat. case_decide as Hu; [|by eapply ginv_place_ok].
    intros ->. split; [by apply (gi_place _ _ _ _ I u (PRelease (rh_dom (rheaps w o)) o))|].
    by rewrite (qo_time _ _ _ (gi_dom _ _ _ _ I) o u).
Qed.

Lemma released_kept o w w' u : active w o -> released o w w' -> kept w' u <-> kept w u.
Proof.
  intros Ha [Henv Hat]. unfold kept. rewrite (se_plugin _ _ Henv). setoid_rewrite Hat. apply or_iff_compat_l.
  case_decide as Hu; [|done]. split; [|by eauto]. intros _. by exists (PRelease (rh_dom (rheaps w o)) o).
Qed.

Lemma released_within o w w' : ginv w -> active w o -> released o w w' -> within G (rh_dom (rheaps w o)) w w'.
Proof.
  intros I Ha [Henv Hat]. split; [by apply env_relink|by apply env_timed| |].
  - intros u d' Hd. rewrite (Hat u (PReady d')). case_decide as Hu; [|done]. split; [by intros [= E]|]. intros Hr.
    by pose proof (qo_unique _ _ _ (gi_dom _ _ _ _ I) u (PReady d') (PRelease (rh_dom (rheaps w o)) o) Hr (conj Ha (conj eq_refl Hu))).
  - intros c _. by rewrite (se_plugin _ _ Henv).
Qed.

Lemma timer_spec o w :
  let d := rh_dom (rheaps w o) in
  ginv w -> in_time w -> active w o -> rh_time (rheaps w o) <= clock w -> cpus_of w d <> [] ->
  wp (on_release_timer (gedf_release_jobs G) o)
    (fun _ w' => ginv w' /\ within G d w w' /\ top w' d /\ forall u, kept w' u <-> kept w u) w.
Proof.
  intros d I Ht Ha Hk Hne.
  pose proof (edf_timer_spec dummy_resched o w dummy_calm (gi_pids _ _ _ _ I) (gi_dom _ _ _ _ I) Ha) as HT.
  unfold on_release_timer, default_release_jobs, merge_ready in HT |- *.
  unfold get_rheap, upd_rheap, upd_dom in HT |- *. wp_steps. unfold gedf_release_jobs. wp_step.
  eapply (wp_mono _ (fun _ w' => released o w w' /\ edom_ok w')); [exact HT|]. intros ? w1 [Hrl Hd1]. pose proof (ginv_released o w w1 I Ha Hk Hrl Hd1) as I1.
  pose proof (released_within o w w1 I Ha Hrl) as W1.
  eapply wp_mono; [apply (check_spec G None d w1 I1)|].
  - eapply in_time_relink; [apply W1..|done].
  - eapply relink_nonempty; [apply W1|done].
  - intros ? w2 (I2 & W2 & K2 & T2). split_and!; [done|by eapply within_trans|done|]. intros u. rewrite K2. by eapply released_kept.
Qed.

(** ** Wake-ups *)

(** A blocked task may change, apart from what says where it is. *)
Lemma idle_change t x w :
  ginv w -> idle w t -> is_realtime (tasks w t) = true -> is_realtime x = true -> in_heap x = in_heap (tasks w t) ->
  pid x = pid (tasks w t) -> inh_task x = inh_task (tasks w t) -> linked_on x = linked_on (tasks w t) ->
  scheduled_on x = scheduled_on (tasks w t) -> get_partition x = get_partition (tasks w t) ->
  let w' := set_tasks (upd (tasks w) t x) w in
  ginv w' /\ idle w' t /\ same_sched w w' /\ cl_task G w' t = cl_task G w t /\ (forall u, kept w' u <-> kept w u) /\
  forall d, top w d -> top w' d.
Proof.
  intros I Hid Hr Hr' Hh Hp Hi Hl Hs Hpt w'. pose proof Hid as [Hnl Hnp].
  assert (ginv w') as I'.
  { apply (ginv_free_same G None t); rewrite ?upd_eq; try done; [intros y Hy; by apply upd_ne|..].
    - rewrite Hh. by apply (idle_heap G None None).
    - rewrite Hi. apply (gi_inh _ _ _ _ I).
    - rewrite Hl. destruct (decide (linked_on (tasks w t) = NO_CPU)) as [|Hn]; [done|].
      by destruct (Hnl _ (gi_on _ _ _ _ I t Hr Hn)). }
  split_and!; [done|done| | |done|].
  - split; try done; intros y; simpl; unfold upd; case_decide; subst; congruence.
  - apply gl_task; [done|]. simpl. by rewrite upd_eq.
  - intros d Ht u c Hu Hc. destruct (Ht u c Hu Hc) as (l & El & Hp'). exists l. split; [done|]. rewrite <- Hp'.
    apply (edf_order_local (tasks w)); [apply I|apply I'|apply upd_ne..].
    + intros ->. by apply (Hnp (PReady d)).
    + intros ->. by apply (Hnl c).
Qed.

(** The job of the blocked task [t] is chosen; nothing else changes. *)
Record prepared t w w' : Prop := {
  pp_inv : ginv w';
  pp_idle : idle w' t;
  pp_time : in_time w';
  pp_timed : timed w w';
  pp_same : same_sched w w';
  pp_cluster : cl_task G w' t = cl_task G w t;
  pp_kept u : kept w' u <-> kept w u;
  pp_top d : top w d -> top w' d;
  pp_rel : scheduled_on (tasks w' t) <> NO_CPU -> get_release (tasks w' t) <= clock w'
}.

Lemma prepared_clock t w k ds :
  ginv w -> in_time w -> idle w t -> clock w <= k -> clock_ok (clock_to k ds w) -> time_end (clock_to k ds w) = time_end w ->
  (scheduled_on (tasks w t) <> NO_CPU -> get_release (tasks w t) <= clock w) -> prepared t w (clock_to k ds w).
Proof.
  intros I [Hc Ht] Hid Hk Hck He Hrel. split; try done.
  - by apply ginv_clock.
  - by destruct Hid.
  - split; [done|]. rewrite He. exact Ht.
  - intros Hs. specialize (Hrel Hs). simpl. lia.
Qed.

(** The task is replaced by [x], whose job is in range. *)
Lemma prepared_change t x w :
  prepared t w w -> is_realtime (tasks w t) = true -> is_realtime x = true -> in_heap x = in_heap (tasks w t) ->
  pid x = pid (tasks w t) -> inh_task x = inh_task (tasks w t) -> linked_on x = linked_on (tasks w t) ->
  scheduled_on x = scheduled_on (tasks w t) -> get_partition x = get_partition (tasks w t) ->
  0 <= get_release x < two63 -> 0 <= get_deadline x < two63 ->
  (scheduled_on x <> NO_CPU -> get_release x <= clock w) -> prepared t w (set_tasks (upd (tasks w) t x) w).
Proof.
  intros [I Hid [Hc Ht] _ _ _ _ _ _] Hr Hr' Hh Hp Hi Hl Hs Hpt Hrel Hdl Hre.
  destruct (idle_change t x w I Hid Hr Hr' Hh Hp Hi Hl Hs Hpt) as (I' & Hid' & S & Hcl & Hk & Htop). split; try done.
  - split; [done|]. intros y. simpl. unfold upd. case_decide as E; [|apply Ht]. intros _. split_and!; [apply Hrel..|apply Hdl|apply Hdl|].
    exact (proj2 (proj2 (Ht t Hr))).
  - simpl. by rewrite upd_eq.
Qed.

Lemma prepared_trans t w1 w2 w3 : prepared t w1 w2 -> prepared t w2 w3 -> prepared t w1 w3.
Proof.
  intros P1 P2. split; try apply P2.
  - eapply timed_trans; [apply P1|apply P2].
  - eapply same_sched_trans; [apply P1|apply P2].
  - by rewrite (pp_cluster _ _ _ P2), (pp_cluster _ _ _ P1).
  - intros u. by rewrite (pp_kept _ _ _ P2), (pp_kept _ _ _ P1).
  - intros d Hd. by apply P2, P1.
Qed.

Lemma prepared_self t w w' : prepared t w w' -> prepared t w' w'.
Proof. intros []. split; done. Qed.

(** A task comes in: it is queued or linked, and the highest-priority jobs are linked. *)
Record arrived t w w' : Prop := {
  ar_inv : ginv w';
  ar_timed : timed w w';
  ar_same : same_sched w w';
  ar_top : top w' (cl_task G w t);
  ar_tops d : top w d -> top w' d;
  ar_kept u : kept w' u <-> kept w u \/ u = t
}.

Lemma prepared_arrival t w w1 :
  prepared t w w1 -> is_realtime (tasks w t) = true -> cpus_of w (cl_task G w t) <> [] ->
  wp (gedf_job_arrival G t) (fun _ w' => arrived t w w') w1.
Proof.
  intros P Hr Hne. pose proof (pp_cluster _ _ _ P) as Hcl. destruct P as [I1 Hid Hit Htm S _ Hk Htop Hrel].
  eapply wp_mono; [apply (arrival_spec G None t w1)|]; try done.
  - by rewrite (ss_rt _ _ S).
  - rewrite Hcl. intros E. apply Hne. pose proof (ss_heap _ _ S (cl_task G w t)) as Hp. rewrite E in Hp. by apply Permutation_nil_l in Hp.
  - rewrite Hcl. intros ? w2 (I2 & W2 & T2 & K2). split; try done.
    + eapply timed_trans; [exact Htm|apply W2].
    + eapply same_sched_trans; [exact S|]. apply relink_same_sched, W2.
    + intros d Hd. destruct (decide (d = cl_task G w t)) as [->|Hne']; [done|]. eapply within_top; [exact W2|done| |done]. by apply Htop.
    + intros u. by rewrite K2, Hk.
Qed.

Lemma wake_up_spec t w :
  ginv w -> time_ok w -> idle w t -> is_realtime (tasks w t) = true ->
  (scheduled_on (tasks w t) <> NO_CPU -> get_release (tasks w t) <= clock w) -> cpus_of w (cl_task G w t) <> [] ->
  wp (gedf_task_wake_up G t) (fun _ w' => arrived t w w') w.
Proof.
  intros I Ht Hid Hr Hrel Hne. destruct (to_task _ Ht t Hr) as (Hrl & Hdl & Hpe & Hdp & Hend).
  pose proof (time_ok_in_time _ Ht) as Hit.
  assert (prepared t w w) as P0 by (split; try done).
  unfold gedf_task_wake_up, get_task. wp_steps. eapply (wp_mono _ (fun _ w1 => prepared t w w1)).
  2: { intros ? w1 P. by apply prepared_arrival. }
  destruct (_ =? _).
  - apply wp_upd_task. apply prepared_change; try done; unfold get_deadline in *; simpl; lia.
  - wp_step. apply clock_spec; [apply Ht|]. intros k ds Hk Hck He.
    assert (prepared t w (clock_to k ds w)) as P1 by (apply prepared_clock; try done; lia). destruct (is_tardy _ _).
    + apply wp_upd_task. eapply prepared_trans; [exact P1|]. pose proof (it_clock _ Hit) as [Hc0 _].
      destruct (release_at_window k (tasks w t)) as [Er Ed]; [lia..|].
      apply prepared_change; try done; rewrite ?Er, ?Ed; try (simpl; lia). by eapply prepared_self.
    + apply wp_when. destruct (negb _); [|done]. apply wp_upd_task. eapply prepared_trans; [exact P1|].
      apply prepared_change; try done; [by eapply prepared_self|unfold get_deadline in *; simpl; lia|].
      exact (pp_rel _ _ _ P1).
Qed.

(** ** New tasks *)

(** The task [t] has just become a real-time task ([x0] is the task before that). *)
Record newborn t w : Prop := {
  nb_rt : is_realtime (tasks w t) = true;
  nb_heap : in_heap (tasks w t) = false;
  nb_inh : inh_task (tasks w t) = None;
  nb_before : exists x0, is_realtime x0 = false /\ pid x0 = pid (tasks w t) /\ ginv (set_tasks (upd (tasks w) t x0) w);
  nb_idle : idle w t
}.

(** The processor [c] can take the task [t]. *)
Record vacant t c w : Prop := {
  vc_sched : e_scheduled (ent w c) = None;
  vc_heap : hn_in_heap (ent w c) = true;
  vc_cluster : cl_entry G w c = cl_task G w t;
  vc_free u : u <> t -> is_realtime (tasks w u) = true -> scheduled_on (tasks w u) <> c;
  vc_master : has_master G && (c =? release_master (doms w (cl_entry G w c))) = false
}.

(** The entries may change in what says which task is scheduled. *)
Definition same_links (g g' : gstate Q) : Prop :=
  (forall x, linked (entries g' x) = linked (entries g x) /\ hn_in_heap (entries g' x) = hn_in_heap (entries g x) /\
    e_cpu (entries g' x) = e_cpu (entries g x) /\ e_cluster (entries g' x) = e_cluster (entries g x)) /\
  cpu_heap g' = cpu_heap g.

Lemma newborn_spec t v k ds g T1 w :
  let w1 := set_tasks T1 (set_plugin g (clock_to k ds w)) in
  newborn t w -> time_ok w -> clock w <= k <= time_end w -> clock_ok (clock_to k ds w) -> time_end (clock_to k ds w) = time_end w ->
  same_links (plugin w) g -> (forall y, y <> t -> T1 y = tasks w y) ->
  T1 t = set_linked_on NO_CPU (set_scheduled_on v (release_at k (tasks w t))) ->
  v = NO_CPU \/ hn_in_heap (ent w v) = true /\ cl_entry G w v = cl_task G w t /\
    (forall u, u <> t -> is_realtime (tasks w u) = true -> scheduled_on (tasks w u) <> v) ->
  prepared t w1 w1 /\ cl_task G w1 t = cl_task G w t /\ (forall u, kept w1 u <-> kept w u) /\ forall d, top w d -> top w1 d.
Proof.
  intros w1 [Hr Hh Hinh (x0 & Hx0 & Hpid & I0) Hid] Ht Hk Hck He [Hg Hgh] HT Ht1 Hv.
  destruct (to_task _ Ht t Hr) as (Hrl & Hdl & Hpe & Hdp & Hend). destruct (to_clock _ Ht) as [Hc0 _].
  destruct (release_at_window k (tasks w t)) as [Er Ed]; [lia..|].
  assert (forall x, link_of w1 x = link_of w x) as Hl by apply Hg.
  assert (no_inheritance (tasks w)) as Hni.
  { intros y. pose proof (gi_inh _ _ _ _ I0 y) as E. simpl in E. unfold upd in E. case_decide; [by subst|done]. }
  assert (cl_task G w1 t = cl_task G w t) as Hcl.
  { apply gl_task; [apply Hg|]. simpl. by rewrite Ht1. }
  assert (idle w1 t) as Hid1.
  { destruct Hid as [Hnl Hnp]. split; [intros c; by rewrite Hl|done]. }
  assert (ginv w1) as I1.
  { set (wb := set_plugin g (clock_to k ds (set_tasks (upd (tasks w) t x0) w))).
    assert (ginv wb) as Ib by (apply (ginv_entries G None); [apply ginv_clock; [done|simpl; lia]|done|done]).
    apply (ginv_free G None t wb T1 Ib); rewrite ?Ht1; try done; simpl; rewrite ?upd_eq; try done.
    - split; [intros c; change (linked (entries g c) <> Some t); rewrite (proj1 (Hg c)); apply Hid|apply Hid].
    - intros y Hy. by rewrite upd_ne, HT.
    - intros _. destruct Hv as [->|(Hhv & Hcv & Hfv)]; [by left|]. right. split_and!.
      + by rewrite (proj1 (proj2 (Hg v))).
      + transitivity (cl_entry G w v); [apply gl_entry, Hg|]. rewrite Hcv. symmetry. apply gl_task; [apply Hg|done].
      + intros u Hu. rewrite upd_ne by done. by apply Hfv. }
  assert (in_time w1) as Hit1.
  { split; [exact Hck|]. change (time_end w1) with (time_end (clock_to k ds w)). rewrite He. intros y. simpl. destruct (decide (y = t)) as [->|Hy].
    - intros _. rewrite Ht1. change (get_release (set_linked_on _ (set_scheduled_on _ ?z))) with (get_release z).
      change (get_deadline (set_linked_on _ (set_scheduled_on _ ?z))) with (get_deadline z). rewrite Er, Ed. lia.
    - rewrite HT by done. apply time_ok_in_time in Ht. apply (it_task _ Ht). }
  split_and!; [|done| |].
  - split; try done. intros _. simpl. rewrite Ht1. change (get_release (release_at k (tasks w t)) <= k). lia.
  - intros u. unfold kept. by setoid_rewrite Hl.
  - intros d Htop u c Hu Hc. assert (cpus_of w1 d = cpus_of w d) as Em by (unfold cpus_of; simpl; by rewrite Hgh). rewrite Em in Hc.
    destruct (Htop u c Hu Hc) as (l & El & Hp). exists l. rewrite Hl. split; [done|]. rewrite <- Hp.
    destruct Hid as [Hnl Hnp]. apply (edf_order_local (tasks w)); [done|apply I1|apply HT..].
    + intros ->. by apply (Hnp (PReady d)).
    + intros ->. by apply (Hnl c).
Qed.

Lemma task_new_spec t on_rq (running : bool) w :
  let c := task_cpu (tasks w t) in
  newborn t w -> time_ok w -> cpus_of w (cl_task G w t) <> [] -> (running = true -> vacant t c w) ->
  (forall x, e_cpu (ent w x) = x) ->
  wp (gedf_task_new G t on_rq running) (fun _ w' => ginv w' /\ top w' (cl_task G w t) /\ (forall d, top w d -> top w' d) /\
    (forall u, kept w' u <-> kept w u \/ u = t) /\ scheduled_on (tasks w' t) = if running then c else NO_CPU) w.
Proof.
  intros c Hnb Ht Hne Hv Hcpu. unfold gedf_task_new. wp_step. apply clock_spec; [apply Ht|]. intros k ds Hk Hck He.
  assert (forall v g T1, same_links (plugin w) g -> (forall y, y <> t -> T1 y = tasks w y) ->
    T1 t = set_linked_on NO_CPU (set_scheduled_on v (release_at k (tasks w t))) -> v = (if running then c else NO_CPU) ->
    wp (gedf_job_arrival G t) (fun _ w' => ginv w' /\ top w' (cl_task G w t) /\ (forall d, top w d -> top w' d) /\
      (forall u, kept w' u <-> kept w u \/ u = t) /\ scheduled_on (tasks w' t) = if running then c else NO_CPU)
      (set_tasks T1 (set_plugin g (clock_to k ds w)))) as Hfin.
  { intros v g T1 Hg HT HT1 Ev. destruct (newborn_spec t v k ds g T1 w Hnb Ht Hk Hck He Hg HT HT1) as (P & Hcl & Hkp & Htp).
    - destruct running; [|by left]. right. destruct (Hv eq_refl) as [_ ? ? ? _]. by subst v.
    - eapply wp_mono; [apply (prepared_arrival t _ _ P)|].
      + simpl. rewrite HT1. exact (nb_rt _ _ Hnb).
      + rewrite Hcl. unfold cpus_of. simpl. by rewrite (proj2 Hg).
      + intros ? w' [I' _ S Ht1 Hts Hk']. rewrite Hcl in Ht1. split_and!; [done|done|intros d Hd; by apply Hts, Htp| |].
        * intros u. by rewrite Hk', Hkp.
        * rewrite (ss_on _ _ S). simpl. by rewrite HT1. }
  unfold upd_task, get_task, get_entry, get_dom, upd_entry. wp_steps. simpl tasks. rewrite upd_eq.
  change (task_cpu (release_at k (tasks w t))) with c. destruct running.
  - destruct (Hv eq_refl) as [Hvs _ _ _ Hvm]. wp_steps; [simpl; by rewrite Hvs|]. simpl. rewrite Hcpu.
    change (entry_cluster G (ent w c)) with (cl_entry G w c). rewrite Hvm. wp_steps. simpl. rewrite !upd_eq.
    apply (Hfin c (mk_gstate _ _ _) _); simpl; try done.
    + split; [|done]. intros x. simpl. unfold upd. case_decide; by subst.
    + intros y Hy. by rewrite !upd_ne.
    + by rewrite upd_eq.
  - wp_steps. simpl. rewrite !upd_eq. apply (Hfin NO_CPU (plugin w) _); try done.
    + intros y Hy. by rewrite !upd_ne.
    + by rewrite upd_eq.
Qed.

(** ** Blocking and leaving *)
Lemma block_spec t w :
  ginv w -> is_realtime (tasks w t) = true -> (forall d o, ~ at_place w t (PRelease d o)) ->
  wp (gedf_task_block G t) (fun _ w' => gone G None t w w') w.
Proof.
  intros I Hr Hw. unfold gedf_task_block, get_task. wp_step. eapply wp_mono; [by apply unlink_spec|]. intros ? w' Hg. wp_steps; [|done].
  by rewrite (relink_field is_realtime w w' t (fun _ => eq_refl) (go_relink _ _ _ _ _ Hg)), Hr.
Qed.

(** The task leaves the processor it is scheduled on. *)
Record left_cpu t w w' : Prop := {
  lv_inv : ginv w';
  lv_idle : idle w' t;
  lv_kept u : kept w' u <-> kept w u /\ u <> t;
  lv_on : scheduled_on (tasks w' t) = NO_CPU;
  lv_sched : scheduled_on (tasks w t) <> NO_CPU -> e_scheduled (ent w' (scheduled_on (tasks w t))) = None
}.

Lemma off_cpu t c w :
  ginv w -> idle w t -> is_realtime (tasks w t) = true -> scheduled_on (tasks w t) = c ->
  let g := mk_gstate (upd (ent w) c (set_e_scheduled None (ent w c))) (cpu_heap (plugin w)) (cl_cpus (plugin w)) in
  let w' := set_tasks (upd (tasks w) t (set_scheduled_on NO_CPU (tasks w t))) (set_plugin g w) in
  ginv w' /\ idle w' t /\ (forall u, kept w' u <-> kept w u).
Proof.
  intros I [Hnl Hnp] Hr Hc g w'. assert (forall x, link_of w' x = link_of w x) as Hl.
  { intros x. simpl. unfold upd. case_decide; by subst. }
  assert (forall y, y <> t -> upd (tasks w) t (set_scheduled_on NO_CPU (tasks w t)) y = tasks w y) as HT by (intros; by apply upd_ne).
  split_and!.
  - apply (ginv_free G None t (set_plugin g w)); rewrite ?upd_eq; try done.
    + apply (ginv_entries G None None w g); [done| |done]. intros x. simpl. unfold upd. case_decide; by subst.
    + split; [|done]. intros x. change (link_of w' x <> Some t). by rewrite Hl.
    + by apply (idle_heap G None None).
    + apply (gi_inh _ _ _ _ I).
    + intros _. simpl. destruct (decide (linked_on (tasks w t) = NO_CPU)) as [|Hn]; [done|]. by destruct (Hnl _ (gi_on _ _ _ _ I t Hr Hn)).
    + by left.
  - split; [|done]. intros x. by rewrite Hl.
  - intros u. unfold kept. by setoid_rewrite Hl.
Qed.

Lemma exit_spec t w :
  ginv w -> is_realtime (tasks w t) = true -> (forall d o, ~ at_place w t (PRelease d o)) ->
  (scheduled_on (tasks w t) <> NO_CPU ->
     cl_cpus (plugin w) (cl_task G w t) !! Z.to_nat (scheduled_on (tasks w t)) = Some (scheduled_on (tasks w t))) ->
  wp (gedf_task_exit G t) (fun _ w' => left_cpu t w w') w.
Proof.
  intros I Hr Hw Hcp. unfold gedf_task_exit, task_dom, get_task. wp_steps. eapply wp_mono; [by apply unlink_spec|].
  intros ? w1 Hg. pose proof (gone_idle _ _ _ _ _ Hg) as Hid. pose proof (go_relink _ _ _ _ _ Hg) as R. wp_steps.
  pose proof (relink_field is_realtime w w1 t (fun _ => eq_refl) R) as Fr. pose proof (relink_field scheduled_on w w1 t (fun _ => eq_refl) R) as Fs.
  rewrite Fs. destruct (Z.eqb_spec (scheduled_on (tasks w t)) NO_CPU) as [En|En]; cbn [negb when].
  - wp_steps; [by rewrite Fr, Hr|]. split; [apply Hg|done|intros u; exact (gone_kept G None t w w1 u Hg)|by rewrite Fs|done].
  - wp_steps. change (task_cluster G (ent w) (tasks w t)) with (cl_task G w t). rewrite (rl_cpus _ _ R).
    exists (scheduled_on (tasks w t)). split; [by apply Hcp|]. wp_step. apply wp_upd_entry. unfold upd_task. wp_steps; [simpl; rewrite upd_eq|].
    { change (negb (is_realtime (tasks w1 t)) = false). by rewrite Fr, Hr. }
    destruct (off_cpu t _ w1 (go_inv _ _ _ _ _ Hg) Hid (eq_trans Fr Hr) Fs) as (I2 & Hid2 & Hk2). split; try done.
    + intros u. rewrite Hk2. exact (gone_kept G None t w w1 u Hg).
    + simpl. by rewrite upd_eq.
    + intros _. simpl. by rewrite upd_eq.
Qed.

(** The entry of the processor is looked up beyond the array of the cluster. *)
Lemma exit_faults t w :
  ginv w -> is_realtime (tasks w t) = true -> (forall d o, ~ at_place w t (PRelease d o)) -> scheduled_on (tasks w t) <> NO_CPU ->
  cl_cpus (plugin w) (cl_task G w t) !! Z.to_nat (scheduled_on (tasks w t)) = None -> gedf_task_exit G t w = None.
Proof.
  intros I Hr Hw Hn Hcp. destruct (proj1 (wp_run _ _ _) (unlink_spec G None t w I Hr Hw)) as ([] & w1 & Hun & Hg).
  pose proof (go_relink _ _ _ _ _ Hg) as R. unfold gedf_task_exit.
  rewrite (bind_ok (task_dom G t) _ w (cl_task G w t) w) by done. rewrite (bind_ok _ _ _ _ _ Hun).
  rewrite (bind_ok (get_task t) _ w1 (tasks w1 t) w1) by done. apply bind_fault.
  rewrite (relink_field scheduled_on w w1 t (fun _ => eq_refl) R), (proj2 (Z.eqb_neq _ _) Hn). cbn [negb when].
  rewrite (bind_ok (gets _) _ w1 (cl_cpus (plugin w1) (cl_task G w t)) w1) by done. rewrite (rl_cpus _ _ R), Hcp. done.
Qed.

(** A task that is to be preempted in a non-preemptive section is taken out of
    the ready queue, and runs on. *)
Lemma np_spec prev l w :
  let me := this_cpu w in
  ginv w -> coherent prev me w -> e_scheduled (ent w me) = Some prev -> link_of w me = Some l -> l <> prev ->
  is_np (tasks w prev) = true -> is_running (tasks w prev) = true ->
  has_master G && (release_master (doms w (cl_entry G w me)) =? me) = false ->
  wp (gedf_schedule G prev) (fun next w' => next = Some prev /\ idle w' prev) w.
Proof.
  intros me I Hch Es El Hlp Hnp Hrun Hms. pose proof (ch_rt _ _ _ Hch prev Es) as Hr.
  unfold gedf_schedule, get_entry, get_dom. wp_steps. rewrite (gi_cpu _ _ _ _ I). fold me.
  change (entry_cluster G (ent w me)) with (cl_entry G w me). rewrite Hms. unfold clear_will_schedule. wp_steps. apply wp_upd_entry. fold me.
  destruct (will_spec G None me false w I) as (I1 & R1 & L1 & A1). set (w1 := set_plugin _ w) in *.
  rewrite Es, El. unfold get_task. wp_steps; [by rewrite (bool_decide_false (Some prev <> Some prev)) by auto| |by rewrite andb_false_r|].
  { change (tasks w1) with (tasks w). by rewrite Hr. }
  change (tasks w1) with (tasks w). rewrite Hnp, Hrun. rewrite (bool_decide_true (Some prev <> Some l)) by congruence.
  rewrite orb_true_r. cbn [negb when andb orb]. wp_steps.
  assert (scheduled_on (tasks w prev) <> NO_CPU) as Hon.
  { rewrite (proj2 (ch_on _ _ _ Hch prev Hr) Es). intros E. pose proof (ch_heap _ _ _ Hch) as Hh. by rewrite E, (gi_nocpu _ _ _ _ I) in Hh. }
  eapply wp_mono; [apply (unlink_spec G None prev w1 I1 Hr)|].
  - intros d o. by apply (gi_wait _ _ _ _ I1 prev d o).
  - intros ? w2 Hg. pose proof (gone_idle _ _ _ _ _ Hg) as [Hnl Hq].
    assert (link_of w2 me = Some l) as El2.
    { rewrite (go_link _ _ _ _ _ Hg), L1, El. rewrite decide_False; [done|congruence]. }
    unfold upd_task. wp_steps. simpl plugin. rewrite El2. cbn [when bool_decide]. rewrite bool_decide_false by done. cbn [when]. wp_steps.
    unfold gedf_decide, get_entry. wp_steps. cbn [negb orb andb]. wp_steps. split; [by rewrite bool_decide_true|by split].
Qed.

End Tasks.

(** ** Activation of GSN-EDF *)
Section Activate.
Context {Q : Type -> Type} `{PrioQueueLaws Q}.
Abbreviation world := (world Q (gstate Q)).
Abbreviation K := (M world).
Implicit Types (w : world) (t : tid) (c d : Z).

Abbreviation ent w := (entries (plugin w)).

(** No task is a real-time task, and nothing is queued. *)
Record quiescent w : Prop := {
  qs_rt t : is_realtime (tasks w t) = false;
  qs_dom : edom_ok w;
  qs_place t p : ~ at_place w t p;
  qs_pids : pids_unique (tasks w);
  qs_inh : no_inheritance (tasks w);
  qs_cpu c : e_cpu (ent w c) = c;
  qs_heap d : d <> gsnedf -> cpu_heap (plugin w) d = pq_init
}.

(** The processors [done_] have been activated. *)
Record activated master (done_ : list Z) w0 w : Prop := {
  ac_world : exists g, w = set_plugin g (set_doms (upd (doms w0) gsnedf (set_release_master master (doms w0 gsnedf))) w0);
  ac_entry c : ent w c = if decide (c ∈ done_) then
      set_e_scheduled None (set_linked None (set_will false (set_hn (bool_decide (c <> master)) (ent w0 c)))) else ent w0 c;
  ac_cpus d : pq_elems (cpu_heap (plugin w) d) ≡ₚ
    if decide (d = gsnedf) then filter (fun c => c <> master) done_ else pq_elems (cpu_heap (plugin w0) d);
  ac_heap d : d <> gsnedf -> cpu_heap (plugin w) d = cpu_heap (plugin w0) d;
  ac_wf : pq_wf (cpu_ok (tasks w0) (ent w)) (cpu_lower_prio (tasks w0) (ent w)) (cpu_heap (plugin w) gsnedf)
}.

(** The order of idle processors does not depend on the rest of their entries. *)
Lemma order_linked T (E E' : Z -> cpu_entry) (h : Q Z) :
  (forall x, x ∈ pq_elems h -> linked (E' x) = linked (E x)) ->
  pq_wf (cpu_ok T E) (cpu_lower_prio T E) h -> pq_wf (cpu_ok T E') (cpu_lower_prio T E') h.
Proof.
  intros He Hwf. eapply pq_wf_ext; [exact Hwf| |].
  - pose proof (pq_wf_D _ _ _ Hwf) as HD. rewrite Forall_forall in *. intros x Hx t. rewrite (He x Hx). by apply HD.
  - intros a b Ha Hb. unfold cpu_lower_prio. by rewrite (He a Ha), (He b Hb).
Qed.

Lemma activate_cpu_spec master c done_ w0 w :
  pids_unique (tasks w0) -> c ∉ done_ -> activated master done_ w0 w ->
  wp (gsnedf_activate_cpu c) (fun _ w' => activated master (done_ ++ [c]) w0 w') w.
Proof.
  intros Hu Hc [(g & ->) He Hcp Hh Hwf]. unfold gsnedf_activate_cpu, get_dom. simpl in *. wp_step. apply wp_upd_entry. wp_steps.
  simpl doms. rewrite upd_eq. simpl. set (E1 := upd _ _ _). set (w1 := set_plugin _ _).
  assert (forall x, x ∈ pq_elems (cpu_heap g gsnedf) -> x <> c) as Hne.
  { intros x. rewrite Hcp, decide_True by done. intros [_ Hx]%list_elem_of_filter ->. done. }
  assert (pq_wf (cpu_ok (tasks w0) E1) (cpu_lower_prio (tasks w0) E1) (cpu_heap g gsnedf)) as Hwf1.
  { eapply order_linked; [|exact Hwf]. intros x Hx. unfold E1. rewrite upd_ne; [done|]. by apply Hne. }
  assert (forall b x, (x = c -> b = bool_decide (c <> master)) ->
    (if decide (x = c) then set_hn b (E1 c) else E1 x) = if decide (x ∈ done_ ++ [c]) then
      set_e_scheduled None (set_linked None (set_will false (set_hn (bool_decide (x <> master)) (ent w0 x)))) else ent w0 x) as HE.
  { intros b x Hb. unfold E1. destruct (decide (x = c)) as [->|Hx].
    - rewrite upd_eq, He, decide_False, decide_True by set_solver. by rewrite Hb.
    - rewrite upd_ne, He by done. destruct (decide (x ∈ done_)) as [Hd|Hd]; [rewrite decide_True by set_solver|rewrite decide_False by set_solver]; done. }
  destruct (Z.eqb_spec c master) as [Em|Em]; cbn [negb when].
  - wp_steps. split; [by eexists| | |done|exact Hwf1].
    + intros x. rewrite <- (HE false x) by (intros _; by rewrite bool_decide_false by auto).
      destruct (decide (x = c)) as [->|Hx]; [|done]. change (E1 c = set_hn false (E1 c)). unfold E1. by rewrite upd_eq.
    + intros d. simpl. rewrite Hcp. case_decide; [|done]. rewrite filter_app, filter_cons_False, filter_nil, app_nil_r by auto. done.
  - unfold update_cpu_position, get_entry, put_heap, upd_entry. wp_steps. simpl.
    assert (hn_in_heap (E1 c) = false) as -> by (unfold E1; by rewrite upd_eq). cbn [when]. wp_steps. simpl.
    assert (linked (E1 c) = None) as Hl1 by (unfold E1; by rewrite upd_eq).
    split; [by eexists| | | |].
    + intros x. rewrite <- (HE true x) by (intros _; by rewrite bool_decide_true). simpl. unfold upd at 1. by destruct (decide (x = c)).
    + intros d. simpl. unfold upd. destruct (decide (d = gsnedf)) as [->|Hd].
      * rewrite pq_insert_elems, Hcp, decide_True by done. rewrite filter_app, filter_cons_True, filter_nil by done. solve_Permutation.
      * by rewrite Hcp, decide_False.
    + intros d Hd. simpl. rewrite upd_ne by done. by apply Hh.
    + simpl. rewrite upd_eq. eapply (order_linked _ E1).
      * intros x _. destruct (decide (x = c)) as [->|Hx]; [by rewrite upd_eq|by rewrite upd_ne].
      * apply pq_insert_wf; [by apply cpu_swo| |done]. intros t. by rewrite Hl1.
Qed.

Lemma activate_loop_spec master l done_ w0 w :
  pids_unique (tasks w0) -> NoDup (done_ ++ l) -> activated master done_ w0 w ->
  wp (for_each_cpu gsnedf_activate_cpu l) (fun _ w' => activated master (done_ ++ l) w0 w') w.
Proof.
  intros Hu. revert done_ w. induction l as [|c l IH]; intros done_ w Hnd Ha; cbn [for_each_cpu].
  - wp_steps. by rewrite app_nil_r.
  - wp_step. eapply wp_mono; [apply (activate_cpu_spec master c done_ w0 w Hu); [|done]|].
    + apply NoDup_app in Hnd as (_ & Hd & _). intros Hin. apply (Hd c Hin). by left.
    + intros ? w1 H1. replace (done_ ++ c :: l) with ((done_ ++ [c]) ++ l) in * by by rewrite <- app_assoc. by apply IH.
Qed.

Lemma edom_ok_master d m w : edom_ok w -> edom_ok (set_doms (upd (doms w) d (set_release_master m (doms w d))) w).
Proof.
  intros Hw. set (w' := set_doms _ w).
  assert (forall d', ready_queue (doms w' d') = ready_queue (doms w d') /\ release_queue (doms w' d') = release_queue (doms w d') /\
    tobe_released (doms w' d') = tobe_released (doms w d')) as HD by (intros d'; simpl; unfold upd; case_decide; by subst).
  assert (forall t p, at_place w' t p <-> at_place w t p) as Ha.
  { intros t [d'|d' o]; [|done]. unfold at_place, ready_elems. by rewrite (proj1 (HD d')). }
  destruct Hw. split; try done.
  - intros t p p'. rewrite !Ha. apply qo_unique.
  - intros t. setoid_rewrite Ha. apply qo_heap.
  - intros d'. unfold ready_elems. rewrite (proj1 (HD d')). apply qo_nodup_ready.
  - intros d' i o. rewrite (proj1 (proj2 (HD d'))). apply qo_slot.
  - intros d' i. rewrite (proj1 (proj2 (HD d'))). apply qo_sorted.
  - intros d'. rewrite (proj2 (proj2 (HD d'))). apply qo_tobe.
  - intros d'. rewrite (proj1 (HD d')). apply qo_ready_wf.
Qed.

(** A machine without real-time tasks, whose heaps hold the processors *)
Lemma idle_ginv G w :
  (forall t, is_realtime (tasks w t) = false) -> edom_ok w -> (forall t p, ~ at_place w t p) -> pids_unique (tasks w) ->
  no_inheritance (tasks w) -> (forall c, e_cpu (ent w c) = c) -> hn_in_heap (ent w NO_CPU) = false ->
  (forall c, linked (ent w c) = None) ->
  (forall d c, c ∈ cpus_of w d <-> hn_in_heap (ent w c) = true /\ cl_entry G w c = d) -> (forall d, NoDup (cpus_of w d)) ->
  (forall d, pq_wf (cpu_ok (tasks w) (ent w)) (cpu_lower_prio (tasks w) (ent w)) (cpu_heap (plugin w) d)) ->
  ginv G None w.
Proof.
  intros Hrt Hd Hp Hu Hi Hc Hno Hl Hh Hnd Hwf. split; try done.
  - intros c t. by rewrite Hl.
  - intros t. by rewrite Hrt.
  - intros t p Hq. by destruct (Hp t p).
  - intros t d Hq. by destruct (Hp t (PReady d)).
  - intros c t. by rewrite Hl.
  - intros t. by rewrite Hrt.
  - intros t u. by rewrite Hrt.
Qed.

Lemma activate_spec master online w :
  quiescent w -> NoDup online -> NO_CPU ∉ online ->
  (forall c, c ∉ online -> linked (ent w c) = None /\ hn_in_heap (ent w c) = false) ->
  wp (gsnedf_activate_plugin master online) (fun r w' => r = 0 /\ ginv gsn_plugin None w' /\
    cpus_of w' gsnedf ≡ₚ filter (fun c => c <> master) online /\ forall d, top w' d) w.
Proof.
  intros [Hrt Hd Hp Hu Hi Hc Hh] Hnd Hno Hoff. unfold gsnedf_activate_plugin, put_heap, upd_dom. wp_steps.
  set (w1 := set_doms _ _).
  assert (activated master [] w w1) as H1.
  { split; [by eexists| | | |].
    - intros c. by rewrite decide_False by apply not_elem_of_nil.
    - intros d. simpl. unfold upd. case_decide; [by rewrite pq_init_elems|done].
    - intros d Hne. simpl. by rewrite upd_ne.
    - simpl. rewrite upd_eq. apply pq_init_wf. }
  eapply wp_mono; [by apply (activate_loop_spec master online [] w w1)|]. clear H1 w1.
  intros ? w' [(g & ->) He Hcp Hhp Hwf]. wp_steps. split; [done|]. set (w' := set_plugin _ _) in *. simpl app in *.
  assert (forall d t, t ∉ ready_elems w' d) as Hr.
  { intros d t Hin. apply (Hp t (PReady d)). unfold at_place, ready_elems in *. simpl in Hin. unfold upd in Hin. by case_decide; subst. }
  split_and!.
  - apply idle_ginv; try done.
    + apply edom_ok_plugin, edom_ok_master, Hd.
    + intros t [d|d o]; [apply Hr|apply (Hp t (PRelease d o))].
    + intros c. rewrite He. case_decide; apply Hc.
    + rewrite He, decide_False by done. by apply Hoff.
    + intros c. rewrite He. case_decide; [done|by apply Hoff].
    + intros d c. unfold cl_entry, cpus_of. simpl entry_cluster. rewrite Hcp, He. destruct (decide (d = gsnedf)) as [->|Hne].
      * rewrite list_elem_of_filter. case_decide as Hin; simpl; [rewrite bool_decide_eq_true; tauto|].
        destruct (Hoff c Hin) as [_ ->]. split; [tauto|by intros []].
      * rewrite Hh, pq_init_elems by done. split; [by intros ?%not_elem_of_nil|]. intros [_ E]. by destruct Hne.
    + intros d. unfold cpus_of. rewrite Hcp. case_decide as E; [by apply NoDup_filter|]. rewrite Hh, pq_init_elems by done. constructor.
    + intros d. destruct (decide (d = gsnedf)) as [->|Hne]; [done|]. rewrite Hhp, Hh by done. apply pq_init_wf.
  - unfold cpus_of. by rewrite Hcp, decide_True.
  - intros d t c Ht. by destruct (Hr d t).
Qed.

End Activate.

(** ** Theorems about GSN-EDF and C-EDF *)
Section Theorems.
Context {Q : Type -> Type} `{PrioQueueLaws Q}.
Abbreviation world := (world Q (gstate Q)).
Context (G : gplugin) `{!GPluginLaws G}.
Implicit Types (w : world) (t : tid) (c d : Z).

Abbreviation ent w := (entries (plugin w)).
Abbreviation link_of w c := (linked (entries (plugin w) c)).
Abbreviation ginv := (ginv G None).

(** C3: [check_for_preemptions] ends, hits no [BUG_ON], and leaves the tasks
    with the highest priorities linked to the processors of the cluster: no
    ready task has a higher priority than a linked one, and no processor is
    without a linked task while a task is ready.  Every task that was linked or
    queued still is, and other clusters are as good as before. *)
Theorem check_for_preemptions_top d w :
  ginv w -> in_time w -> cpus_of w d <> [] ->
  wp (check_for_preemptions G d) (fun _ w' => ginv w' /\ top w' d /\ (forall t, kept w' t <-> kept w t) /\
    forall d', top w d' -> top w' d') w.
Proof.
  intros I Ht Hne. eapply wp_mono; [by apply (check_spec G None)|]. intros ? w' (I' & W & K & T). split_and!; try done.
  intros d' Hd'. destruct (decide (d' = d)) as [->|E]; [done|]. by eapply within_top.
Qed.


(** When a release timer expires, the jobs of its release heap become ready,
    the tasks with the highest priorities are linked, and no task is lost. *)
Theorem gedf_release_correct o w :
  ginv w -> in_time w -> active w o -> rh_time (rheaps w o) <= clock w -> cpus_of w (rh_dom (rheaps w o)) <> [] ->
  wp (on_release_timer (gedf_release_jobs G) o) (fun _ w' => ginv w' /\ top w' (rh_dom (rheaps w o)) /\
    (forall u, kept w' u <-> kept w u) /\ forall d, top w d -> top w' d) w.
Proof.
  intros I Ht Ha Hk Hne. eapply wp_mono; [by apply timer_spec|]. intros ? w' (I' & W & T & K). split_and!; try done.
  intros d Hd. destruct (decide (d = rh_dom (rheaps w o))) as [->|E]; [done|]. by eapply within_top.
Qed.

(** A task that wakes up is queued or linked afterwards, the tasks with the highest priorities are linked, and nothing is lost. *)
Theorem gedf_wake_up_correct t w :
  ginv w -> time_ok w -> idle w t -> is_realtime (tasks w t) = true ->
  (scheduled_on (tasks w t) <> NO_CPU -> get_release (tasks w t) <= clock w) -> cpus_of w (cl_task G w t) <> [] ->
  wp (gedf_task_wake_up G t) (fun _ w' => ginv w' /\ top w' (cl_task G w t) /\ (forall d, top w d -> top w' d) /\
    (forall u, kept w' u <-> kept w u \/ u = t) /\ forall y, scheduled_on (tasks w' y) = scheduled_on (tasks w y)) w.
Proof.
  intros I Ht Hid Hr Hs Hne. eapply wp_mono; [by apply wake_up_spec|]. intros ? w' [I' _ S T Ts K]. split_and!; try done. apply S.
Qed.

(** A new task gets a first job at the present time and is linked or queued;
    one that already runs stays on its processor if that has no task. *)
Theorem gedf_task_new_correct t on_rq (running : bool) w :
  newborn G t w -> time_ok w -> cpus_of w (cl_task G w t) <> [] -> (running = true -> vacant G t (task_cpu (tasks w t)) w) ->
  (forall x, e_cpu (ent w x) = x) ->
  wp (gedf_task_new G t on_rq running) (fun _ w' => ginv w' /\ top w' (cl_task G w t) /\ (forall d, top w d -> top w' d) /\
    (forall u, kept w' u <-> kept w u \/ u = t) /\ scheduled_on (tasks w' t) = if running then task_cpu (tasks w t) else NO_CPU) w.
Proof. apply (task_new_spec G). Qed.

(** C34: When the task of a processor is to be preempted but is in a
    non-preemptive section, [schedule] takes it out of the ready queue and lets
    it run on: afterwards it is neither linked nor queued, so that it is lost
    once it is preempted. *)
Theorem np_task_lost prev l w :
  ginv w -> coherent prev (this_cpu w) w -> e_scheduled (ent w (this_cpu w)) = Some prev ->
  link_of w (this_cpu w) = Some l -> l <> prev -> is_np (tasks w prev) = true -> is_running (tasks w prev) = true ->
  has_master G && (release_master (doms w (cl_entry G w (this_cpu w))) =? this_cpu w) = false ->
  wp (gedf_schedule G prev) (fun next w' => next = Some prev /\ ~ kept w' prev) w.
Proof.
  intros I Hch Es El Hlp Hnp Hrun Hms. eapply wp_mono; [by eapply np_spec|]. intros next w' [-> [Hl Hp]]. split; [done|].
  intros [[c E]|[p E]]; [by apply (Hl c)|by apply (Hp p)].
Qed.

End Theorems.

(** [cedf_task_exit] faults when the number of the processor on which the
    task is scheduled is not below the size of its cluster: the array of the
    cluster is indexed by the number of the processor in the machine, and the
    entries beyond those of the cluster were never initialised. *)
Theorem cedf_exit_out_of_range {Q} `{PrioQueueLaws Q} t (w : world Q (gstate Q)) :
  ginv cedf_plugin None w -> is_realtime (tasks w t) = true -> (forall d o, ~ at_place w t (PRelease d o)) ->
  scheduled_on (tasks w t) <> NO_CPU ->
  (length (cl_cpus (plugin w) (cl_task cedf_plugin w t)) <= Z.to_nat (scheduled_on (tasks w t)))%nat ->
  cedf_task_exit t w = None.
Proof. intros I Hr Hw Hn Hlen. apply (exit_faults cedf_plugin); try done. by apply lookup_ge_None. Qed.

(** [gsnedf_activate_plugin] on a machine without real-time tasks makes
    every online processor but the release master available, idle. *)
Theorem gsnedf_activate_correct {Q} `{PrioQueueLaws Q} master online (w : world Q (gstate Q)) :
  quiescent w -> NoDup online -> NO_CPU ∉ online ->
  (forall c, c ∉ online -> linked (entries (plugin w) c) = None /\ hn_in_heap (entries (plugin w) c) = false) ->
  wp (gsnedf_activate_plugin master online) (fun r w' => r = 0 /\ ginv gsn_plugin None w' /\
    cpus_of w' gsnedf ≡ₚ filter (fun c => c <> master) online /\ forall d, top w' d) w.
Proof. apply activate_spec. Qed.
