(* ===== verification/GlobalExamples.v ===== *)
(** * Concrete states of the global plugins

    A machine with two processors on which GSN-EDF is activated and three tasks
    enter, and one with two clusters of two processors under C-EDF; the theorems
    of GlobalTask.v are instantiated on them. *)

From stdpp Require Import sorting.
From S2P Require Import Prelude BinForest PrioQueue Task Edf Kernel RtDomain RtInv EdfDomain Partitioned GlobalEdf GlobalInv GlobalSched GlobalCpu GlobalTask.
Open Scope Z_scope.

Abbreviation gworld := (world fheap (gstate fheap)).

(** The state after a computation *)
Definition after {A} (c : M gworld A) (w : gworld) : gworld := match c w with Some (_, w') => w' | None => w end.

Lemma after_ok {A} (c : M gworld A) (Φ : A -> gworld -> Prop) w : wp c Φ w -> exists a, Φ a (after c w).
Proof. unfold wp, after. destruct (c w) as [[a w']|]; [by exists a|done]. Qed.

(** Times are in range for tasks 1 to 3. *)
Ltac gtime_tac :=
  split; [split; [by vm_compute|vm_compute; repeat constructor]|];
  intros [[p|p|]|[p|[p|p|]|]|]; vm_compute; intros Hrt; first [discriminate Hrt|repeat split; discriminate].

Lemma idle_flags G (w : gworld) t :
  ginv G None w -> linked_on (tasks w t) = NO_CPU \/ is_realtime (tasks w t) = false -> in_heap (tasks w t) = false -> idle w t.
Proof.
  intros I Hl Hh. split.
  - intros c E. destruct (gi_linked _ _ _ _ I c t E) as (Ho & Hn & Hr & _). destruct Hl as [Hl|Hl]; [|congruence].
    rewrite Hl in Ho. subst c. by rewrite (gi_nocpu _ _ _ _ I) in Hn.
  - intros p Hp. assert (in_heap (tasks w t) = true); [|congruence]. apply (qo_heap _ _ _ (gi_dom _ _ _ _ I)). by exists p.
Qed.

(** The task [t] becomes a real-time task. *)
Definition enter t (w : gworld) : gworld := set_tasks (upd (tasks w) t (set_policy_litmus true (tasks w t))) w.

Lemma enter_newborn G t (w : gworld) `{!GPluginLaws G} :
  ginv G None w -> is_realtime (tasks w t) = false -> in_heap (tasks w t) = false ->
  newborn G t (enter t w) /\ forall d, top w d -> top (enter t w) d.
Proof.
  intros I Hr Hh. destruct (idle_flags G w t I (or_intror Hr) Hh) as [Hl Hp]. split.
  - split; simpl; rewrite ?upd_eq; try done; [apply (gi_inh _ _ _ _ I)|]. exists (tasks w t). split_and!; [done|done|].
    set (T' := upd _ t _). assert (T' t = tasks w t) as Et by apply upd_eq.
    apply (ginv_free G None t w T'); rewrite ?Et; try done; [intros y Hy; unfold T'; by rewrite !upd_ne|apply (gi_inh _ _ _ _ I)|..]; congruence.
  - intros d Ht u c Hu Hc. destruct (Ht u c Hu Hc) as (l & El & Hpr). exists l. split; [done|]. rewrite <- Hpr.
    assert (forall y, inh_task (tasks (enter t w) y) = None) as Hi.
    { intros y. simpl. unfold upd. case_decide; apply (gi_inh _ _ _ _ I). }
    apply (edf_order_local (tasks w)); [apply I|done|apply upd_ne..].
    + intros ->. by apply (Hp (PReady d)).
    + intros ->. by apply (Hl c).
Qed.

Lemma enter_cpu G t (w : gworld) : ginv G None w -> forall c, e_cpu (entries (plugin (enter t w)) c) = c.
Proof. intros I. apply (gi_cpu _ _ _ _ I). Qed.

(** ** GSN-EDF *)
Definition gx_params (t : tid) : rt_task :=
  mk_rt_task 1000000 (match t with 1%positive => 10000000 | 2%positive => 20000000 | _ => 5000000 end) 0 0 RT_CLASS_HARD
    PRECISE_ENFORCEMENT (mk_fm (0, 0) 0 ((0, 0), (0, 0))) 0 (mk_wm [] 0) (mk_hime [] 0) (mk_cd [] 0).

(** No task is a real-time task yet; task 2 does not want to be preempted. *)
Definition gx_tasks (t : tid) : task_struct :=
  mk_task (Zpos t) false true false false 0 0 0 false false (gx_params t) (mk_rt_job 0 0 0 0) None
    (match t with 2%positive => 1 | _ => 0 end) NO_CPU NO_CPU 0 false None (mk_semi 0 0 0 0 0 0).

Definition gx_world (g : gstate fheap) : gworld :=
  mk_world gx_tasks (fun _ => mk_rt_domain pq_init (fun _ => []) [] NO_CPU) (fun _ => mk_release_heap 0 pq_init None 0)
    1000 [] 0 (fun _ => 4%positive) [] (fun _ => mk_et false 0) 1000000 g.

Definition gx_boot : gworld := gx_world (mk_gstate (fun c => mk_entry c 0 None None false false) (fun _ => pq_init) (fun _ => [0; 1])).


Lemma gx_quiescent : quiescent gx_boot.
Proof.
  destruct (blank_domains gx_boot) as [Hd Hp]; try done. split; try done. intros a b E. by injection E.
Qed.

(** Processors 0 and 1 are available. *)
Definition gx0 : gworld := after (gsnedf_activate_plugin NO_CPU [0; 1]) gx_boot.

Definition good (w : gworld) : Prop := ginv gsn_plugin None w /\ forall d, top w d.

Lemma gx0_good : good gx0.
Proof.
  destruct (after_ok _ _ _ (activate_spec NO_CPU [0; 1] gx_boot gx_quiescent ltac:(apply (bool_decide_unpack _); done)
    ltac:(apply (bool_decide_unpack _); done) ltac:(done))) as (r & _ & I & _ & T). done.
Qed.

(** The task [t] is admitted while it does not run. *)
Definition arrive t (w : gworld) : gworld := after (gedf_task_new gsn_plugin t false false) (enter t w).

Lemma arrive_good t w :
  good w -> is_realtime (tasks w t) = false -> in_heap (tasks w t) = false -> time_ok (enter t w) -> cpus_of w gsnedf <> [] ->
  good (arrive t w).
Proof.
  intros [I T] Hr Hh Ht Hne. destruct (enter_newborn gsn_plugin t w I Hr Hh) as [Hnb Htop].
  destruct (after_ok _ _ _ (task_new_spec gsn_plugin t false false (enter t w) Hnb Ht Hne ltac:(done) (gi_cpu _ _ _ _ I)))
    as (_ & I' & _ & T' & _). split; [done|]. intros d. by apply T', Htop.
Qed.

(** Task 1 and 2 are linked; task 3 takes the place of task 2, which is ready. *)
Definition gx1 : gworld := arrive 1%positive gx0.
Definition gx2 : gworld := arrive 2%positive gx1.
Definition gx3 : gworld := arrive 3%positive gx2.

Lemma gx1_good : good gx1.
Proof. apply arrive_good; [apply gx0_good|by vm_compute|by vm_compute|gtime_tac|by vm_compute]. Qed.

Lemma gx2_good : good gx2.
Proof. apply arrive_good; [apply gx1_good|by vm_compute|by vm_compute|gtime_tac|by vm_compute]. Qed.

Lemma gx3_good : good gx3.
Proof. apply arrive_good; [apply gx2_good|by vm_compute|by vm_compute|gtime_tac|by vm_compute]. Qed.

Lemma gsnedf_activate_witness :
  wp (gsnedf_activate_plugin NO_CPU [0; 1]) (fun r w' => r = 0 /\ ginv gsn_plugin None w' /\
    cpus_of w' gsnedf ≡ₚ filter (fun c => c <> NO_CPU) [0; 1] /\ forall d, top w' d) gx_boot.
Proof.
  apply (gsnedf_activate_correct NO_CPU [0; 1] gx_boot gx_quiescent); [apply (bool_decide_unpack _); done..|done].
Defined.

(** Case analysis on the tasks, 1 to 4 apart *)
Ltac task_cases := intros [[p|p|]|[p|[p|p|]|]|]; vm_compute.

Lemma gx3_schedulable : schedulable gsn_plugin 4%positive gx3.
Proof.
  destruct gx3_good as [I T]. split; [exact I|gtime_tac|split| | | |exact (T _)].
  - by vm_compute.
  - by vm_compute.
  - task_cases; split; discriminate.
  - intros s. vm_compute. discriminate.
  - intros s. vm_compute. discriminate.
  - by vm_compute.
  - intros s. vm_compute. discriminate.
  - by vm_compute.
Qed.


(** Task 1 blocks; later it is queued again, with both processors idle. *)
Definition gx_blocked : gworld := after (gedf_task_block gsn_plugin 1%positive) gx1.
Definition gx_queued : gworld := after (gedf_requeue gsn_plugin 1%positive) gx_blocked.

Lemma gx_blocked_gone : gone gsn_plugin None 1%positive gx1 gx_blocked.
Proof.
  destruct gx1_good as [I T]. refine (let '(ex_intro _ _ Hg) := after_ok _ _ _ (block_spec gsn_plugin 1%positive gx1 I _ _) in Hg).
  - by vm_compute.
  - intros d o. apply (gi_unqueued _ _ _ _ I 0 1%positive (PRelease d o)); [by vm_compute|done].
Qed.

Lemma gx_queued_inv : ginv gsn_plugin None gx_queued.
Proof.
  pose proof gx_blocked_gone as Hg.
  assert (time_ok gx_blocked) as Ht by gtime_tac.
  destruct (after_ok _ _ _ (requeue_idle_spec gsn_plugin None 1%positive gx_blocked (go_inv _ _ _ _ _ Hg) (time_ok_in_time _ Ht)
    (gone_idle _ _ _ _ _ Hg) ltac:(by vm_compute) ltac:(by vm_compute))) as (_ & I & _). exact I.
Qed.

Lemma check_for_preemptions_witness :
  wp (check_for_preemptions gsn_plugin gsnedf) (fun _ w' => ginv gsn_plugin None w' /\ top w' gsnedf /\
    (forall t, kept w' t <-> kept gx_queued t) /\ forall d', top gx_queued d' -> top w' d') gx_queued.
Proof.
  apply (check_for_preemptions_top gsn_plugin gsnedf gx_queued gx_queued_inv); [|by vm_compute].
  apply time_ok_in_time. gtime_tac.
Defined.

Lemma gedf_wake_up_witness :
  wp (gedf_task_wake_up gsn_plugin 1%positive) (fun _ w' => ginv gsn_plugin None w' /\ top w' (cl_task gsn_plugin gx_blocked 1%positive) /\
    (forall d, top gx_blocked d -> top w' d) /\ (forall u, kept w' u <-> kept gx_blocked u \/ u = 1%positive) /\
    forall y, scheduled_on (tasks w' y) = scheduled_on (tasks gx_blocked y)) gx_blocked.
Proof.
  apply (gedf_wake_up_correct gsn_plugin 1%positive gx_blocked); [apply gx_blocked_gone|gtime_tac| |by vm_compute..].
  apply (gone_idle gsn_plugin None _ gx1), gx_blocked_gone.
Defined.

Lemma gedf_task_new_witness :
  wp (gedf_task_new gsn_plugin 1%positive false true) (fun _ w' => ginv gsn_plugin None w' /\
    top w' (cl_task gsn_plugin (enter 1%positive gx0) 1%positive) /\ (forall d, top (enter 1%positive gx0) d -> top w' d) /\
    (forall u, kept w' u <-> kept (enter 1%positive gx0) u \/ u = 1%positive) /\ scheduled_on (tasks w' 1%positive) = task_cpu (tasks (enter 1%positive gx0) 1%positive))
    (enter 1%positive gx0).
Proof.
  apply (gedf_task_new_correct gsn_plugin 1%positive false true (enter 1%positive gx0)).
  - exact (proj1 (enter_newborn gsn_plugin 1%positive gx0 (proj1 gx0_good) ltac:(by vm_compute) ltac:(by vm_compute))).
  - gtime_tac.
  - by vm_compute.
  - intros _. split; try by vm_compute. intros u _. revert u. by task_cases.
  - exact (enter_cpu gsn_plugin 1%positive gx0 (proj1 gx0_good)).
Defined.

(** Task 1 has completed its job; its next one is released now. *)
Definition gx_due : gworld := clock_to 20000000 [] (after (gedf_job_completion gsn_plugin 1%positive) gx1).

Lemma gx_due_inv : ginv gsn_plugin None gx_due.
Proof.
  destruct gx1_good as [I T].
  destruct (after_ok _ _ _ (completion_spec gsn_plugin 0 1%positive gx1 I ltac:(gtime_tac) ltac:(by vm_compute) ltac:(by vm_compute)))
    as (_ & [I' _ _ _ _ _]).
  apply ginv_clock; [|by vm_compute]. apply (ginv_settle _ (Some 1%positive)); [done|]. intros t d o [= <-]. by vm_compute.
Qed.

Lemma gedf_release_witness :
  wp (on_release_timer (gedf_release_jobs gsn_plugin) 1%positive) (fun _ w' => ginv gsn_plugin None w' /\
    top w' (rh_dom (rheaps gx_due 1%positive)) /\ (forall u, kept w' u <-> kept gx_due u) /\ forall d, top gx_due d -> top w' d) gx_due.
Proof.
  apply (gedf_release_correct gsn_plugin 1%positive gx_due gx_due_inv); [|eexists; by vm_compute|by vm_compute..].
  apply time_ok_in_time. gtime_tac.
Defined.

(** The switch to the task [t] on the processor [c] is finished. *)
Definition switched c (o : option tid) (w : gworld) : gworld :=
  set_plugin (mk_gstate (upd (entries (plugin w)) c (set_e_scheduled o (entries (plugin w) c))) (cpu_heap (plugin w)) (cl_cpus (plugin w))) w.

Lemma switched_good c o w : good w -> good (switched c o w).
Proof.
  intros [I T]. assert (forall x, linked (entries (plugin (switched c o w)) x) = linked (entries (plugin w) x)) as Hl.
  { intros x. simpl. unfold upd. case_decide; by subst. }
  split.
  - apply (ginv_entries gsn_plugin None); [done| |done]. intros x. simpl. unfold upd. case_decide; by subst.
  - intros d t x Ht Hx. destruct (T d t x Ht Hx) as (l & El & Hp). exists l. split; [by rewrite Hl|done].
Qed.

Lemma schedule_good prev w : good w -> schedulable gsn_plugin prev w -> good (after (gedf_schedule gsn_plugin prev) w).
Proof.
  intros [_ T] Hs. destruct (after_ok _ _ _ (schedule_spec gsn_plugin prev w Hs)) as (next & P).
  split; [exact (pk_inv _ _ _ _ _ P)|]. intros d. by apply (pk_top _ _ _ _ _ P).
Qed.

(** Task 2, which may not be preempted, runs on processor 0 and task 1 is linked
    to processor 1; then task 3 arrives and is linked to processor 0. *)
Definition gy1 : gworld := arrive 2%positive gx0.
Definition gy2 : gworld := arrive 1%positive gy1.
Definition gy3 : gworld := switched 0 (Some 2%positive) (after (gedf_schedule gsn_plugin 4%positive) gy2).
Definition gy4 : gworld := arrive 3%positive gy3.

Lemma gy2_good : good gy2.
Proof.
  apply arrive_good; [apply arrive_good; [apply gx0_good|by vm_compute|by vm_compute|gtime_tac|by vm_compute]|by vm_compute|by vm_compute|gtime_tac|by vm_compute].
Qed.

Lemma gy2_schedulable : schedulable gsn_plugin 4%positive gy2.
Proof.
  destruct gy2_good as [I T]. split; [exact I|gtime_tac|split| | | |exact (T _)].
  - by vm_compute.
  - by vm_compute.
  - task_cases; split; discriminate.
  - intros s. vm_compute. discriminate.
  - intros s. vm_compute. discriminate.
  - by vm_compute.
  - intros s. vm_compute. discriminate.
  - by vm_compute.
Qed.

Lemma gy4_good : good gy4.
Proof.
  apply arrive_good; [|by vm_compute|by vm_compute|gtime_tac|by vm_compute].
  apply switched_good, schedule_good; [apply gy2_good|apply gy2_schedulable].
Qed.

Lemma gy4_coherent : coherent 2%positive (this_cpu gy4) gy4.
Proof.
  split.
  - by vm_compute.
  - by vm_compute.
  - task_cases; intros Hr; first [discriminate Hr|split; intros E; first [discriminate E|reflexivity]].
  - intros s. vm_compute. intros E. by injection E as <-.
  - intros s. vm_compute. intros E. by injection E as <-.
Qed.

Lemma np_task_lost_witness :
  wp (gedf_schedule gsn_plugin 2%positive) (fun next w' => next = Some 2%positive /\ ~ kept w' 2%positive) gy4.
Proof.
  apply (np_task_lost gsn_plugin 2%positive 3%positive gy4 (proj1 gy4_good) gy4_coherent); by vm_compute.
Defined.

(** ** C-EDF *)

(** Clusters 0 and 1 have the processors 0, 1 and 2, 3. *)
Definition cx_tasks (t : tid) : task_struct :=
  mk_task (Zpos t) false true false false 2 0 0 false false
    (mk_rt_task 1000000 10000000 0 2 RT_CLASS_HARD PRECISE_ENFORCEMENT (mk_fm (0, 0) 0 ((0, 0), (0, 0))) 0 (mk_wm [] 0) (mk_hime [] 0) (mk_cd [] 0))
    (mk_rt_job 0 0 0 0) None 0 NO_CPU NO_CPU 0 false None (mk_semi 0 0 0 0 0 0).

Definition cx_entries (c : Z) : cpu_entry :=
  mk_entry c (if bool_decide (c = 2 \/ c = 3) then 1 else 0) None None false (bool_decide (c ∈ [0; 1; 2; 3])).

Definition cx_cpus (d : Z) : list Z := if bool_decide (d = 0) then [0; 1] else if bool_decide (d = 1) then [2; 3] else [].

Definition cx_heap (d : Z) : fheap Z := foldr (pq_insert (cpu_lower_prio cx_tasks cx_entries)) pq_init (cx_cpus d).

Definition cx_boot : gworld :=
  mk_world cx_tasks (fun _ => mk_rt_domain pq_init (fun _ => []) [] NO_CPU) (fun _ => mk_release_heap 0 pq_init None 0)
    1000 [] 2 (fun _ => 4%positive) [] (fun _ => mk_et false 0) 1000000 (mk_gstate cx_entries cx_heap cx_cpus).

Lemma cx_heap_ok d :
  pq_elems (cx_heap d) ≡ₚ cx_cpus d /\ pq_wf (cpu_ok cx_tasks cx_entries) (cpu_lower_prio cx_tasks cx_entries) (cx_heap d).
Proof.
  assert (pids_unique cx_tasks) as Hu by (intros a b E; by injection E).
  unfold cx_heap. induction (cx_cpus d) as [|c l [IH1 IH2]]; cbn [foldr].
  - split; [by rewrite pq_init_elems|apply pq_init_wf].
  - split; [by rewrite pq_insert_elems, IH1|]. by apply pq_insert_wf; [apply cpu_swo|..].
Qed.

Lemma cx_boot_inv : ginv cedf_plugin None cx_boot.
Proof.
  destruct (blank_domains cx_boot) as [Hd Hp]; try done.
  apply idle_ginv; try done.
  - intros a b E. by injection E.
  - intros d c. unfold cpus_of. cbn [cx_boot plugin cpu_heap]. rewrite (proj1 (cx_heap_ok d)). unfold cl_entry. simpl. unfold cx_cpus.
    rewrite bool_decide_eq_true. repeat case_bool_decide; set_solver by lia.
  - intros d. unfold cpus_of. cbn [cx_boot plugin cpu_heap]. rewrite (proj1 (cx_heap_ok d)). unfold cx_cpus.
    repeat case_bool_decide; apply (bool_decide_unpack _); by vm_compute.
  - intros d. apply cx_heap_ok.
Qed.

(** A task of the second cluster runs on processor 2. *)
Definition cx1 : gworld := after (gedf_task_new cedf_plugin 1%positive false true) (enter 1%positive cx_boot).

Lemma cx1_inv : ginv cedf_plugin None cx1.
Proof.
  pose proof cx_boot_inv as I. pose proof (proj1 (enter_newborn cedf_plugin 1%positive cx_boot I ltac:(by vm_compute) ltac:(by vm_compute))) as Hnb.
  refine (let '(ex_intro _ _ (conj I' _)) := after_ok _ _ _ (task_new_spec cedf_plugin 1%positive false true _ Hnb _ _ _ (enter_cpu _ _ _ I)) in I').
  - gtime_tac.
  - by vm_compute.
  - intros _. split; try by vm_compute. intros u _. revert u. by task_cases.
Qed.

Lemma cedf_exit_witness : cedf_task_exit 1%positive cx1 = None.
Proof.
  apply (cedf_exit_out_of_range 1%positive cx1 cx1_inv); [by vm_compute| |by vm_compute|vm_compute; lia].
  intros d o. apply (gi_unqueued _ _ _ _ cx1_inv 2 1%positive (PRelease d o)); [by vm_compute|done].
Defined.
