(* ===== verification/NpsF.v ===== *)
(** * NPS-F: notional processors

    The plugin of src/litmus2010/litmus/sched_npsf.c.  A server (notional
    processor) has an EDF domain and executes its tasks in reserves, fractions of
    a time slot on one or more processors.  Every processor goes through the
    reserves of its list in each slot; a server with reserves on several
    processors is handed from one to the next.

    Reserves and servers are allocated objects: maps from addresses, and a
    dangling pointer faults.  The domain of a server has the address of the
    server.  [litmus_clock()] and [ktime_get()] are the same clock. *)

From stdpp Require Import sorting.
From S2P Require Import Prelude Task Edf PrioQueue Kernel RtDomain EdfDomain.
Open Scope Z_scope.

Definition ENODEV : Z := 19.
Definition EACCES : Z := 13.

(** [npsf_reserve_t] *)
Record npsf_reserve : Type := mk_reserve {
  r_server : option Z;
  budget : Z;
  r_cpu : Z;                        (* cpu *)
  r_id : Z;                         (* npsf_id *)
  next_npsf : option positive;
  is_currently_scheduled : bool
}.

(** [npsf_server_t], without its domain *)
Record npsf_server : Type := mk_server {
  highest_prio : option tid;
  curr_reserve : option positive;
  first_reserve : option positive;
  first_cpu_wants_ipi : bool
}.

(** [cpu_entry_t] *)
Record npsf_entry : Type := mk_nentry {
  cpu_reserve : option positive;
  npsf_reserves : list positive;
  n_cpu : Z;                        (* cpu *)
  n_timer : option Z;               (* when the timer expires, if it is active *)
  should_expire : Z;
  last_seen_npsf_id : Z
}.

Record nstate : Type := mk_nstate {
  reserves : gmap positive npsf_reserve;
  servers : gmap Z npsf_server;
  npsf_cpu_entries : Z -> npsf_entry;
  all_servers_added : bool;
  timers_activated : bool;
  time_origin : Z;
  npsf_slot_length : Z;
  _online_cpus : Z;                 (* unsigned int *)
  reserves_allocated : bool;
  cpu_online : list Z;              (* cpu_online_mask *)
  n_rt_tasks : Z                    (* rt_task_count of litmus.c *)
}.

Definition set_r_server (v : option Z) (r : npsf_reserve) : npsf_reserve :=
  mk_reserve v (budget r) (r_cpu r) (r_id r) (next_npsf r) (is_currently_scheduled r).
Definition set_next_npsf (v : option positive) (r : npsf_reserve) : npsf_reserve :=
  mk_reserve (r_server r) (budget r) (r_cpu r) (r_id r) v (is_currently_scheduled r).
Definition set_is_currently_scheduled (v : bool) (r : npsf_reserve) : npsf_reserve :=
  mk_reserve (r_server r) (budget r) (r_cpu r) (r_id r) (next_npsf r) v.
Definition set_highest_prio (v : option tid) (r : npsf_server) : npsf_server :=
  mk_server v (curr_reserve r) (first_reserve r) (first_cpu_wants_ipi r).
Definition set_curr_reserve (v : option positive) (r : npsf_server) : npsf_server :=
  mk_server (highest_prio r) v (first_reserve r) (first_cpu_wants_ipi r).
Definition set_first_cpu_wants_ipi (v : bool) (r : npsf_server) : npsf_server :=
  mk_server (highest_prio r) (curr_reserve r) (first_reserve r) v.
Definition set_cpu_reserve (v : option positive) (r : npsf_entry) : npsf_entry :=
  mk_nentry v (npsf_reserves r) (n_cpu r) (n_timer r) (should_expire r) (last_seen_npsf_id r).
Definition set_npsf_reserves (v : list positive) (r : npsf_entry) : npsf_entry :=
  mk_nentry (cpu_reserve r) v (n_cpu r) (n_timer r) (should_expire r) (last_seen_npsf_id r).
Definition set_n_timer (v : option Z) (r : npsf_entry) : npsf_entry :=
  mk_nentry (cpu_reserve r) (npsf_reserves r) (n_cpu r) v (should_expire r) (last_seen_npsf_id r).
Definition set_should_expire (v : Z) (r : npsf_entry) : npsf_entry :=
  mk_nentry (cpu_reserve r) (npsf_reserves r) (n_cpu r) (n_timer r) v (last_seen_npsf_id r).
Definition set_reserves (v : gmap positive npsf_reserve) (r : nstate) : nstate :=
  mk_nstate v (servers r) (npsf_cpu_entries r) (all_servers_added r) (timers_activated r) (time_origin r) (npsf_slot_length r) (_online_cpus r) (reserves_allocated r) (cpu_online r) (n_rt_tasks r).
Definition set_servers (v : gmap Z npsf_server) (r : nstate) : nstate :=
  mk_nstate (reserves r) v (npsf_cpu_entries r) (all_servers_added r) (timers_activated r) (time_origin r) (npsf_slot_length r) (_online_cpus r) (reserves_allocated r) (cpu_online r) (n_rt_tasks r).
Definition set_npsf_cpu_entries (v : Z -> npsf_entry) (r : nstate) : nstate :=
  mk_nstate (reserves r) (servers r) v (all_servers_added r) (timers_activated r) (time_origin r) (npsf_slot_length r) (_online_cpus r) (reserves_allocated r) (cpu_online r) (n_rt_tasks r).
Definition set_all_servers_added (v : bool) (r : nstate) : nstate :=
  mk_nstate (reserves r) (servers r) (npsf_cpu_entries r) v (timers_activated r) (time_origin r) (npsf_slot_length r) (_online_cpus r) (reserves_allocated r) (cpu_online r) (n_rt_tasks r).
Definition set_timers_activated (v : bool) (r : nstate) : nstate :=
  mk_nstate (reserves r) (servers r) (npsf_cpu_entries r) (all_servers_added r) v (time_origin r) (npsf_slot_length r) (_online_cpus r) (reserves_allocated r) (cpu_online r) (n_rt_tasks r).
Definition set_time_origin (v : Z) (r : nstate) : nstate :=
  mk_nstate (reserves r) (servers r) (npsf_cpu_entries r) (all_servers_added r) (timers_activated r) v (npsf_slot_length r) (_online_cpus r) (reserves_allocated r) (cpu_online r) (n_rt_tasks r).
Definition set_npsf_slot_length (v : Z) (r : nstate) : nstate :=
  mk_nstate (reserves r) (servers r) (npsf_cpu_entries r) (all_servers_added r) (timers_activated r) (time_origin r) v (_online_cpus r) (reserves_allocated r) (cpu_online r) (n_rt_tasks r).
Definition set__online_cpus (v : Z) (r : nstate) : nstate :=
  mk_nstate (reserves r) (servers r) (npsf_cpu_entries r) (all_servers_added r) (timers_activated r) (time_origin r) (npsf_slot_length r) v (reserves_allocated r) (cpu_online r) (n_rt_tasks r).
Definition set_reserves_allocated (v : bool) (r : nstate) : nstate :=
  mk_nstate (reserves r) (servers r) (npsf_cpu_entries r) (all_servers_added r) (timers_activated r) (time_origin r) (npsf_slot_length r) (_online_cpus r) v (cpu_online r) (n_rt_tasks r).

(** The first element of the list that [f] accepts. *)
Fixpoint find_first {A} (f : A -> bool) (l : list A) : option A :=
  match l with
  | [] => None
  | a :: l => if f a then Some a else find_first f l
  end.

(** [list_is_last(&curr->node, head) ? first : next], [first] being the first
    node of the list *)
Fixpoint node_after (first curr : positive) (l : list positive) : option positive :=
  match l with
  | [] => None
  | r :: l' => if decide (r = curr) then Some (match l' with [] => first | n :: _ => n end)
               else node_after first curr l'
  end.

Definition local_next_reserve (curr : positive) (e : npsf_entry) : option positive :=
  first ← head (npsf_reserves e); node_after first curr (npsf_reserves e).

Definition local_prev_reserve (curr : positive) (e : npsf_entry) : option positive :=
  last ← head (reverse (npsf_reserves e)); node_after last curr (reverse (npsf_reserves e)).

Definition no_reserves (e : npsf_entry) : bool := bool_decide (npsf_reserves e = []).

(** ** Time slots *)

(** When did this slot start?  A division by zero faults. *)
Definition slot_begin (g : nstate) (now : Z) : option Z :=
  if npsf_slot_length g =? 0 then None
  else Some (u64 (u64 (u64 (now - time_origin g) / npsf_slot_length g * npsf_slot_length g) + time_origin g)).

(** The delta from the beginning of the current slot *)
Definition delta_from_slot_begin (g : nstate) (now : Z) : option Z :=
  b ← slot_begin g now; Some (u64 (now - b)).

(** The linear search through the reserves; falling off the list is a [BUG()].
    [B] gives the budgets, [reservation_end] is where the reserves seen so far
    end. *)
Fixpoint reserve_for_offset (B : positive -> option Z) (l : list positive) (offset reservation_end : Z)
  : option (positive * Z) :=
  match l with
  | [] => None
  | tmp :: l =>
      b ← B tmp;
      let reservation_end := u64 (reservation_end + b) in
      if offset <? reservation_end then Some (tmp, reservation_end)
      else reserve_for_offset B l offset reservation_end
  end.

Definition budget_of (g : nstate) (r : positive) : option Z := budget <$> reserves g !! r.

(** Given an offset into a slot, the eligible reserve and the relative time at
    which it ends *)
Definition get_reserve_for_offset (g : nstate) (e : npsf_entry) (offset : Z) : option (positive * Z) :=
  reserve_for_offset (budget_of g) (npsf_reserves e) offset 0.

Section NpsF.
Context {Q : Type -> Type} `{PrioQueue Q}.
Abbreviation world := (world Q nstate).
Abbreviation K := (M world).

(** ** Access to the state *)
Definition get_reserve (r : positive) : K npsf_reserve :=
  R ← gets (fun w => reserves (plugin w)); of_option (R !! r).
Definition upd_reserve (r : positive) (f : npsf_reserve -> npsf_reserve) : K unit :=
  x ← get_reserve r;
  modify (fun w => set_plugin (set_reserves (<[r := f x]> (reserves (plugin w))) (plugin w)) w).
Definition get_server (s : Z) : K npsf_server :=
  S ← gets (fun w => servers (plugin w)); of_option (S !! s).
Definition upd_server (s : Z) (f : npsf_server -> npsf_server) : K unit :=
  x ← get_server s;
  modify (fun w => set_plugin (set_servers (<[s := f x]> (servers (plugin w))) (plugin w)) w).
Definition get_entry (c : Z) : K npsf_entry := gets (fun w => npsf_cpu_entries (plugin w) c).
Definition upd_entry (c : Z) (f : npsf_entry -> npsf_entry) : K unit :=
  modify (fun w => set_plugin
    (set_npsf_cpu_entries (upd (npsf_cpu_entries (plugin w)) c (f (npsf_cpu_entries (plugin w) c))) (plugin w)) w).
Definition upd_state (f : nstate -> nstate) : K unit := modify (fun w => set_plugin (f (plugin w)) w).
(** [npsf->server], which must not be NULL *)
Definition server_of (r : positive) : K Z := x ← get_reserve r; of_option (r_server x).

Definition task_npsfid (x : task_struct) : Z := npsf_id (task_params x).

(** ** Queues and servers *)

(** The domains of the servers have no reschedule check. *)
Definition npsf_requeue (t : tid) (edf : Z) : K unit :=
  x ← get_task t;
  BUG_ON (in_heap x);;
  upd_task t (set_rt_flags RT_F_RUNNING);;
  now ← litmus_clock;
  x ← get_task t;
  if is_released x now then __add_ready edf_ready_order dummy_resched edf t
  else add_release edf_ready_order edf t. (* it has got to wait *)

Definition npsf_preempt (npsf : positive) : K unit :=
  r ← get_reserve npsf;
  e ← get_entry (r_cpu r);
  preempt_if_preemptable None (n_cpu e).

Definition npsf_preempt_if_server_is_scheduled (srv : Z) : K unit :=
  s ← get_server srv;
  reserve ← of_option (curr_reserve s);
  r ← get_reserve reserve;
  when (is_currently_scheduled r) (npsf_preempt reserve).

Definition npsf_reschedule_server (srv : Z) : K unit :=
  s ← get_server srv;
  let hp := highest_prio s in
  needed ← edf_preemption_needed srv hp;
  when needed
    (n ← __take_ready edf_ready_order srv;
     upd_server srv (set_highest_prio n);;
     match hp with
     | Some t => npsf_requeue t srv (* no longer highest prio *)
     | None => mret tt
     end;;
     npsf_preempt_if_server_is_scheduled srv).

Definition npsf_release_jobs (rt : Z) (o : tid) : K unit :=
  __merge_ready edf_ready_order dummy_resched rt o;;
  npsf_reschedule_server rt.

Definition npsf_job_completion (t : tid) : K unit :=
  upd_task t (fun x => prepare_for_next_period (set_rt_flags RT_F_SLEEP x)).

(** ** Time *)

(** Which reserve is eligible now? *)
Definition get_current_reserve (c : Z) : K positive :=
  now ← litmus_clock;
  g ← gets plugin;
  offset ← of_option (delta_from_slot_begin g now);
  p ← of_option (get_reserve_for_offset g (npsf_cpu_entries g c) offset);
  mret p.1.

(** Spins until the clock reaches [target]; each round reads the clock once. *)
Fixpoint catchup_time (fuel : nat) (from target : Z) : K Z :=
  if lt_before from target then
    match fuel with
    | O => fault
    | S fuel => from ← litmus_clock; catchup_time fuel from target
    end
  else mret from.

(** The next absolute timer value *)
Definition get_next_reserve_switch_time : K Z :=
  me ← gets this_cpu;
  e ← get_entry me;
  now ← litmus_clock;
  g ← gets plugin;
  slot_start ← of_option (slot_begin g now);
  let offset := u64 (now - slot_start) in
  p ← of_option (get_reserve_for_offset g e offset);
  let next_time := u64 (p.2 + slot_start) in
  reserve ← of_option (local_next_reserve p.1 e);
  r ← get_reserve reserve;
  srv ← server_of reserve;
  s ← get_server srv;
  (* a continuing reserve: the previous processor will send an IPI instead *)
  mret (if bool_decide (first_reserve s <> Some reserve) then u64 (next_time + budget r) else next_time).

(** The timer of the processor [c] fires; [fuel] bounds the rounds it waits for
    when it fired early. *)
Definition reserve_switch_tick (fuel : nat) (c : Z) : K unit :=
  now ← litmus_clock;
  e ← get_entry c;
  let late := 0 <=? s64 (now - should_expire e) in
  (if late then mret now else catchup_time fuel now (should_expire e));;
  g ← gets plugin;
  BUG_ON (negb (all_servers_added g));;
  BUG_ON (no_reserves e);;
  next ← get_next_reserve_switch_time;
  upd_entry c (fun e => set_n_timer (Some next) (set_should_expire next e));;
  (* reschedule local cpu *)
  cur ← get_current;
  set_tsk_need_resched cur.

Definition npsf_scheduler_tick (t : tid) : K unit :=
  x ← get_task t;
  when (is_realtime x && budget_enforced x && budget_exhausted x) (set_tsk_need_resched t).

(** ** Scheduling *)

(** Caller holds the lock of the server [srv] of [entry->cpu_reserve]. *)
Definition npsf_schedule_server (prev : tid) (srv : Z) : K unit :=
  x ← get_task prev;
  let exists_ := is_realtime x in
  let blocks := exists_ && negb (is_running x) in
  let out_of_time := exists_ && budget_enforced x && budget_exhausted x in
  let sleep := exists_ && (get_rt_flags x =? RT_F_SLEEP) in
  when ((out_of_time || sleep) && negb blocks)
    (npsf_job_completion prev;;
     s ← get_server srv;
     when (bool_decide (highest_prio s <> Some prev))
       (x ← get_task prev;
        BUG_ON (negb (in_heap x));;
        remove edf_ready_order srv prev);;
     npsf_requeue prev srv;;
     when (bool_decide (highest_prio s = Some prev))
       (n ← __take_ready edf_ready_order srv;
        upd_server srv (set_highest_prio n)));;
  s ← get_server srv;
  BUG_ON (blocks && bool_decide (highest_prio s = Some prev)).

Definition npsf_notify_next_cpu (npsf_prev : positive) : K unit :=
  r ← get_reserve npsf_prev;
  when (bool_decide (next_npsf r <> Some npsf_prev))
    (* This reserve is shared: update its owner and notify the next CPU. *)
    (srv ← of_option (r_server r);
     upd_server srv (set_curr_reserve (next_npsf r));;
     s ← get_server srv;
     when (bool_decide (first_reserve s <> curr_reserve s) || first_cpu_wants_ipi s)
       (upd_server srv (set_first_cpu_wants_ipi false);;
        n ← of_option (curr_reserve s);
        npsf_preempt n)).

(** [npsf_schedule] takes and releases the locks of two servers in turn; each
    part below is what runs under one of them. *)
Inductive served : Type :=
  | Stay (next : option tid)
  | Switch (npsf_prev npsf_next : positive).

(** With the lock of the server being left: what are we serving, what should we
    serve, and the update of the server of [prev]. *)
Definition npsf_serve (prev : tid) : K served :=
  me ← gets this_cpu;
  e ← get_entry me;
  BUG_ON (no_reserves e);;
  npsf_prev ← of_option (cpu_reserve e);
  srv_prev ← server_of npsf_prev;
  npsf_next ← get_current_reserve me;
  x ← get_task prev;
  rp ← get_reserve npsf_prev;
  when (is_realtime x && (task_npsfid x =? r_id rp)) (npsf_schedule_server prev srv_prev);;
  if decide (npsf_prev = npsf_next) then
    s ← get_server srv_prev;
    mret (Stay (highest_prio s))
  else
    upd_reserve npsf_prev (set_is_currently_scheduled false);;
    mret (Switch npsf_prev npsf_next).

(** With the lock of the next server: [None] when the previous owner has not
    handed it over yet. *)
Definition npsf_claim (npsf_next : positive) : K (option (option tid)) :=
  me ← gets this_cpu;
  srv_next ← server_of npsf_next;
  upd_reserve npsf_next (set_is_currently_scheduled true);;
  s ← get_server srv_next;
  if decide (curr_reserve s = Some npsf_next) then
    upd_entry me (set_cpu_reserve (Some npsf_next));;
    mret (Some (highest_prio s))
  else
    (* the first CPU needs to request a notification explicitly *)
    when (bool_decide (first_reserve s = Some npsf_next)) (upd_server srv_next (set_first_cpu_wants_ipi true));;
    upd_reserve npsf_next (set_is_currently_scheduled false);;
    mret None.

(** With the lock of the server being left again: keep it one more time. *)
Definition npsf_keep (npsf_prev : positive) : K (option tid) :=
  srv_prev ← server_of npsf_prev;
  upd_reserve npsf_prev (set_is_currently_scheduled true);;
  s ← get_server srv_prev;
  mret (highest_prio s).

Definition npsf_enact (next : option tid) : K (option tid) :=
  match next with
  | Some n => upd_task n (set_rt_flags RT_F_RUNNING)
  | None => mret tt
  end;;
  mret next.

Definition npsf_schedule (prev : tid) : K (option tid) :=
  g ← gets plugin;
  (* servers not ready yet, yield to linux *)
  if negb (all_servers_added g) then mret None
  else
    v ← npsf_serve prev;
    next ← match v with
           | Stay next => mret next
           | Switch npsf_prev npsf_next =>
               c ← npsf_claim npsf_next;
               match c with
               | Some next => npsf_notify_next_cpu npsf_prev;; mret next
               | None => npsf_keep npsf_prev
               end
           end;
    npsf_enact next.

(** ** The other handlers *)

(** The reserve for the task on its processor.  When there is none, the pointer
    the loop of [npsf_task_new] leaves is no reserve. *)
Definition reserve_of_task (g : nstate) (e : npsf_entry) (x : task_struct) : option positive :=
  find_first (fun r => bool_decide (r_id <$> reserves g !! r = Some (task_npsfid x))) (npsf_reserves e).

Definition npsf_task_new (t : tid) (on_rq running : bool) : K unit :=
  x ← get_task t;
  e ← get_entry (get_partition x);
  BUG_ON (no_reserves e);;
  g ← gets plugin;
  npsf ← of_option (reserve_of_task g e x);
  srv ← server_of npsf;
  upd_task t (set_domain_of srv);;
  (* setup job parameters *)
  now ← litmus_clock;
  upd_task t (release_at now);;
  npsf_requeue t srv;;
  (* reschedule will cause a remote preemption, if required *)
  npsf_reschedule_server srv;;
  set_tsk_need_resched t.

Definition npsf_task_wake_up (t : tid) : K unit :=
  x ← get_task t;
  BUG_ON (negb (is_realtime x));;
  let srv := domain_of x in
  BUG_ON (in_heap x);;
  now ← litmus_clock;
  (* new sporadic release *)
  when (is_tardy x now) (upd_task t (release_at now));;
  s ← get_server srv;
  when (bool_decide (highest_prio s <> Some t))
    (npsf_requeue t srv;;
     npsf_reschedule_server srv).

Definition remove_from_server (t : tid) (srv : Z) : K unit :=
  s ← get_server srv;
  x ← get_task t;
  if decide (highest_prio s = Some t) then
    upd_server srv (set_highest_prio None);;
    npsf_reschedule_server srv
  else when (in_heap x) (remove edf_ready_order srv t).

Definition npsf_task_block (t : tid) : K unit :=
  x ← get_task t;
  BUG_ON (negb (is_realtime x));;
  remove_from_server t (domain_of x).

Definition npsf_task_exit (t : tid) : K unit :=
  x ← get_task t;
  BUG_ON (negb (is_realtime x));;
  remove_from_server t (domain_of x).

Definition npsf_admit_task (g : nstate) (x : task_struct) : Z :=
  if negb (all_servers_added g) then - ENODEV
  else if negb (task_cpu x =? get_partition x) then - EINVAL
  else if reserve_of_task g (npsf_cpu_entries g (get_partition x)) x then 0 else - EINVAL.

End NpsF.
