(* ===== verification/NpsInv.v ===== *)
(** * NPS-F: the invariant of the servers

    "srv->highest_prio is always the highest-priority job in the server, and it
    is always runnable.  Any update to the server must maintain this invariant."
    (comment in src/litmus2010/litmus/sched_npsf.c).  The operations on one
    server leave the others alone, and those on which the handlers are built
    establish and keep the invariant. *)

From stdpp Require Import sorting.
From S2P Require Import Prelude Task Edf PrioQueue Kernel RtDomain RtInv EdfDomain Partitioned Frames NpsF.
Open Scope Z_scope.

Section Inv.
Context {Q : Type -> Type} `{PrioQueueLaws Q}.
Abbreviation world := (world Q nstate).
Abbreviation K := (M world).
Implicit Types (w : world) (t y : tid) (s : Z) (hp : Z -> option tid) (v : npsf_server).

Definition hp_of w s : option tid := servers (plugin w) !! s ≫= highest_prio.

(** ** The queues and the tasks at the head of the servers

    [hp s] is the task the server [s] should be scheduling. *)
Record sinv hp w : Prop := {
  si_dom : edom_ok w;
  si_pids : pids_unique (tasks w);
  si_inh : no_inheritance (tasks w);
  (* it is in no queue *)
  si_hp s t : hp s = Some t ->
    in_heap (tasks w t) = false /\ is_realtime (tasks w t) = true /\ domain_of (tasks w t) = s;
  (* a queued task is in the queues of its server *)
  si_home t p : at_place w t p -> domain_of (tasks w t) = place_dom p
}.

(** The task belongs to the server and waits for its next job or for the
    processor, or has it. *)
Definition member hp w s y : Prop := hp s = Some y \/ exists p, place_dom p = s /\ at_place w y p.

Definition homes w w' : Prop := forall y, domain_of (tasks w' y) = domain_of (tasks w y).

Lemma sinv_ext hp hp' w : (forall s, hp' s = hp s) -> sinv hp w -> sinv hp' w.
Proof. intros E []. split; try done. intros s t. rewrite E. apply si_hp0. Qed.

Lemma sinv_drop hp s w : sinv hp w -> sinv (upd hp s None) w.
Proof. intros []. split; try done. intros s' t. unfold upd. case_decide; [done|apply si_hp0]. Qed.

Lemma hp_nowhere hp w s t p : sinv hp w -> hp s = Some t -> ~ at_place w t p.
Proof. intros Hi Hs. apply (unqueued_nowhere edf_ready_order edf_ok); [apply Hi|]. by eapply (si_hp _ _ Hi). Qed.

Lemma queued_not_hp hp w s t p : sinv hp w -> at_place w t p -> hp s <> Some t.
Proof. intros Hi Hp Hs. by eapply hp_nowhere. Qed.

Lemma hp_once hp w s s' t : sinv hp w -> hp s = Some t -> hp s' = Some t -> s = s'.
Proof. intros Hi E1 E2. apply (si_hp _ _ Hi) in E1 as (_ & _ & <-), E2 as (_ & _ & <-). done. Qed.

Lemma unqueued_heap w t : edom_ok w -> (forall p, ~ at_place w t p) -> in_heap (tasks w t) = false.
Proof.
  intros Hw Hno. destruct (in_heap (tasks w t)) eqn:E; [|done].
  apply (qo_heap _ _ _ Hw) in E as [p Hp]. by destruct (Hno p).
Qed.

Lemma ready_realtime hp w t s : sinv hp w -> t ∈ ready_elems w s -> is_realtime (tasks w t) = true.
Proof.
  intros Hi Hin. pose proof (pq_wf_D _ _ _ (qo_ready_wf _ _ _ (si_dom _ _ Hi) s)) as HD. rewrite Forall_forall in HD.
  specialize (HD t Hin) as [Hr _]. unfold eff in Hr. by rewrite (si_inh _ _ Hi) in Hr.
Qed.

Lemma sinv_moves hp t x p w w' :
  sinv hp w -> moves t x p w w' -> edom_ok w' -> homes w w' ->
  pid x = pid (tasks w t) -> inh_task x = None -> is_realtime x = is_realtime (tasks w t) ->
  (forall q, p = Some q -> place_dom q = domain_of (tasks w t) /\ forall s, hp s <> Some t) -> sinv hp w'.
Proof.
  intros Hi M Hw' Hh Hpid Hinh Hrt Hp. pose proof (ms_core _ _ _ _ _ M) as Hc.
  assert (forall {A} (f : task_struct -> A) y, (forall z, f (core z) = f z) ->
    f (tasks w' y) = f (if decide (y = t) then x else tasks w y)) as Hf by (intros A f y Hf; by apply (core_field f)).
  split; [done|..].
  - intros a b. rewrite !(Hf _ pid) by done. intros E. apply (si_pids _ _ Hi). revert E. repeat case_decide; subst; congruence.
  - intros y. rewrite (Hf _ inh_task) by done. case_decide; [done|apply Hi].
  - intros s y Hy. destruct (si_hp _ _ Hi s y Hy) as (Eh & Er & Ed). split_and!.
    + apply unqueued_heap; [done|]. intros q Hq. apply (ms_at _ _ _ _ _ M) in Hq. case_decide; [subst y|by eapply hp_nowhere].
      destruct (Hp q Hq) as [_ Hne]. by destruct (Hne s).
    + rewrite (Hf _ is_realtime) by done. case_decide; subst; congruence.
    + by rewrite Hh.
  - intros y q Hq. rewrite Hh. apply (ms_at _ _ _ _ _ M) in Hq. case_decide; [subst y|by apply (si_home _ _ Hi)]. by destruct (Hp q Hq).
Qed.

Lemma sinv_quiet hp w w' : sinv hp w -> quiet w w' -> edom_ok w' -> homes w w' -> sinv hp w'.
Proof.
  intros Hi Hq Hw' Hh. pose proof (qt_env _ _ Hq) as He. split; [done|..].
  - eapply pids_unique_core; [done|apply Hi].
  - intros y. rewrite (core_field inh_task (tasks w' y) (tasks w y)) by (done || apply He). apply Hi.
  - intros s y Hy. destruct (si_hp _ _ Hi s y Hy) as (Eh & Er & Ed). split_and!; [|..|by rewrite Hh].
    + apply unqueued_heap; [done|]. intros q Hp%(qt_at _ _ Hq). by eapply hp_nowhere.
    + by rewrite (core_field is_realtime (tasks w' y) (tasks w y)) by (done || apply He).
  - intros y q Hp%(qt_at _ _ Hq). rewrite Hh. by apply (si_home _ _ Hi).
Qed.

(** ** Operations on one server *)

(** Everything but which task each server should be scheduling. *)
Definition wiring (g : nstate) : nstate := set_servers (set_highest_prio None <$> servers g) g.

(** Only the server [s] and its tasks change. *)
Record local_to s w w' : Prop := {
  lc_core y : domain_of (tasks w y) <> s -> core (tasks w' y) = core (tasks w y);
  lc_home : homes w w';
  lc_at y p : place_dom p <> s -> at_place w' y p <-> at_place w y p;
  lc_srv s' : s' <> s -> servers (plugin w') !! s' = servers (plugin w) !! s';
  lc_wiring : wiring (plugin w') = wiring (plugin w);
  lc_cpu : this_cpu w' = this_cpu w;
  lc_curr : curr w' = curr w;
  lc_time : clock_ok w -> timed w w'
}.

#[global] Instance local_to_preorder s : PreOrder (local_to s).
Proof.
  split.
  - intros w. by split.
  - intros w1 w2 w3 [C1 D1 A1 S1 W1 U1 R1 T1] [C2 D2 A2 S2 W2 U2 R2 T2]. split; try congruence.
    + intros y Hy. rewrite C2 by (by rewrite D1). by apply C1.
    + intros y p Hp. by rewrite A2, A1.
    + intros s' Hs. by rewrite S2, S1.
    + intros Hc. specialize (T1 Hc). eapply timed_trans; [exact T1|]. by apply T2, T1.
Qed.

Lemma local_clock s w w' : local_to s w w' -> clock_ok w -> clock_ok w'.
Proof. intros L Hc. by apply (lc_time _ _ _ L Hc). Qed.

Lemma local_moves hp t x p w w' :
  let s := domain_of (tasks w t) in
  sinv hp w -> moves t x p w w' -> drift t s w w' -> (forall q, p = Some q -> place_dom q = s) -> local_to s w w'.
Proof.
  intros s Hi M D Hp. assert (homes w w') as Hh by (intros y; by apply (drift_home t s)).
  split; try apply M; [|done|..|apply D].
  - intros y Hy. rewrite (ms_core _ _ _ _ _ M). case_decide; by subst.
  - intros y q Hq. rewrite (ms_at _ _ _ _ _ M). case_decide; [subst y|done]. split; intros E.
    + by specialize (Hp q E).
    + by apply (si_home _ _ Hi) in E.
  - intros s' _. by rewrite (ms_plugin _ _ _ _ _ M).
  - by rewrite (ms_plugin _ _ _ _ _ M).
Qed.

Lemma local_quiet s w w' : quiet w w' -> homes w w' -> local_to s w w'.
Proof.
  intros [He A] Hh. split; try apply He; try done.
  - intros y _. apply He.
  - intros s' _. by rewrite (se_plugin _ _ He).
  - by rewrite (se_plugin _ _ He).
  - intros _. by apply env_timed.
Qed.

(** What the invariant says of a server that is not touched. *)
Lemma best_frame w w' s (n : option tid) :
  no_inheritance (tasks w) -> no_inheritance (tasks w') ->
  (forall e, e ∈ ready_elems w' s <-> e ∈ ready_elems w s) ->
  (forall e, e ∈ ready_elems w s \/ n = Some e -> same_prio (tasks w' e) (tasks w e)) -> best w s n -> best w' s n.
Proof.
  intros Hn Hn' He Hp. destruct n as [n|]; simpl.
  - rewrite !Forall_forall. intros Hb e Hin%He. rewrite (edf_order_same (tasks w)); auto.
  - intros Hb. destruct (ready_elems w' s) as [|e l]; [done|]. destruct (not_elem_of_nil e). rewrite <- Hb. apply He. by left.
Qed.

Lemma best_local hp hp' s s' w w' :
  sinv hp w -> sinv hp' w' -> local_to s w w' -> s' <> s -> best w s' (hp s') -> best w' s' (hp s').
Proof.
  intros Hi Hi' L Hs. apply best_frame; [apply Hi|apply Hi'|..].
  - intros e. apply (lc_at _ _ _ L e (PReady s')). done.
  - intros e He. apply core_same_prio, (lc_core _ _ _ L). destruct He as [He|He].
    + apply (si_home _ _ Hi e (PReady s')) in He. simpl in He. congruence.
    + apply (si_hp _ _ Hi) in He as (_ & _ & He). congruence.
Qed.

End Inv.
