(* ===== verification/NpsServer.v ===== *)
(** * NPS-F: operations on one server

    Taking the next task, requeueing, and [npsf_reschedule_server], on which all
    handlers of src/litmus2010/litmus/sched_npsf.c are built. *)

From stdpp Require Import sorting.
From S2P Require Import Prelude Task Edf PrioQueue Kernel RtDomain RtInv EdfDomain Partitioned Frames NpsF NpsInv.
Open Scope Z_scope.

Section Server.
Context {Q : Type -> Type} `{PrioQueueLaws Q}.
Abbreviation world := (world Q nstate).
Abbreviation K := (M world).
Implicit Types (w : world) (t y : tid) (s : Z) (hp : Z -> option tid) (v : npsf_server).

(** ** The head of a server *)
Definition put_hp s (n : option tid) v w : world :=
  set_plugin (set_servers (<[s := set_highest_prio n v]> (servers (plugin w))) (plugin w)) w.

Lemma set_hp_spec s n v w (Φ : unit -> world -> Prop) :
  servers (plugin w) !! s = Some v -> Φ tt (put_hp s n v w) -> wp (upd_server s (set_highest_prio n)) Φ w.
Proof. intros Hv HΦ. unfold upd_server, get_server. wp_steps. exists v. split; [done|]. by wp_steps. Qed.

Lemma hp_put s n v w s' : hp_of (put_hp s n v w) s' = upd (hp_of w) s n s'.
Proof.
  unfold hp_of, upd. simpl. case_decide; [subst; by rewrite lookup_insert_eq|by rewrite lookup_insert_ne].
Qed.

Lemma local_put s n v w : servers (plugin w) !! s = Some v -> local_to s w (put_hp s n v w).
Proof.
  intros Hv. split; try done.
  - intros s' Hs. simpl. by rewrite lookup_insert_ne.
  - assert (set_highest_prio None <$> <[s := set_highest_prio n v]> (servers (plugin w)) =
      set_highest_prio None <$> servers (plugin w)) as E.
    { rewrite fmap_insert. apply insert_id. rewrite lookup_fmap, Hv. by destruct v. }
    unfold wiring, set_servers. simpl. by rewrite E.
Qed.

Lemma sinv_put hp s n v w : sinv hp w -> sinv hp (put_hp s n v w).
Proof. intros []. split; try done. by apply edom_ok_plugin. Qed.

(** ** Steps that keep every task in its domain *)
Lemma still_frames {A} (c : K A) (Φ : A -> world -> Prop) w :
  (forall t d, frames (drift t d) c) -> wp c Φ w ->
  wp c (fun a w' => Φ a w' /\ homes w w' /\ (clock_ok w -> timed w w')) w.
Proof.
  intros Hf Hc. set (d := domain_of (tasks w 1%positive)).
  eapply wp_mono; [exact (wp_frames _ _ _ _ Hc (Hf 1%positive d))|]. intros a w' [HΦ D]. split_and!; [done| |apply D].
  intros y. by apply (drift_home 1%positive d).
Qed.

Lemma homes_frames {A} (c : K A) (Φ : A -> world -> Prop) w :
  (forall t d, frames (drift t d) c) -> wp c Φ w -> wp c (fun a w' => Φ a w' /\ homes w w') w.
Proof. intros Hf Hc. eapply wp_mono; [by apply still_frames|]. naive_solver. Qed.

(** ** Taking the next task *)
Lemma serv_take hp s w :
  sinv hp w -> hp s = None ->
  wp (__take_ready edf_ready_order s) (fun n w' =>
    sinv (upd hp s n) w' /\ best w' s n /\ local_to s w w' /\ plugin w' = plugin w /\
    (forall y, core (tasks w' y) = core (tasks w y)) /\
    (forall y q, at_place w' y q <-> n <> Some y /\ at_place w y q) /\
    (forall t, n = Some t -> t ∈ ready_elems w s /\
       Forall (fun e => edf_ready_order (tasks w) e t = false) (ready_elems w s))) w.
Proof.
  intros Hi Hs. eapply wp_mono; [apply homes_frames; [eauto with litmus|apply edf_take_spec; apply Hi]|].
  intros [n|] w' [[Hw' Hn] Hh].
  - destruct Hn as (Hin & Hm & Hbest). pose proof (moves_of_moved _ _ _ _ Hm) as M.
    assert (sinv hp w') as Hi' by (eapply sinv_moves; try done; apply Hi).
    assert (domain_of (tasks w n) = s) as Hd by exact (si_home _ _ Hi n (PReady s) Hin).
    assert (in_heap (tasks w' n) = false) as Hnh.
    { apply unqueued_heap; [done|]. intros p Hp. apply (ms_at _ _ _ _ _ M) in Hp. by rewrite decide_True in Hp. }
    split_and!; [|..].
    + destruct Hi' as [D' P' I' HP' HO']. split; try done. intros s' t. unfold upd. case_decide; [|apply HP'].
      intros [= <-]. subst s'. split_and!; [done| |by rewrite Hh].
      rewrite (core_field is_realtime (tasks w' n) (tasks w n)) by (done || apply Hm). by eapply ready_realtime.
    + apply Forall_forall. intros e He. rewrite (order_moves n (tasks w n) None w) by done.
      rewrite Forall_forall in Hbest. apply Hbest. apply (ms_at _ _ _ _ _ M e (PReady s)) in He. by case_decide.
    + subst s. apply (local_moves hp n (tasks w n) None); [done|done| |done].
      split; [intros y; left; apply Hh|]. intros _. apply env_timed, Hm.
    + apply M.
    + intros y. apply Hm.
    + intros y q. rewrite (ms_at _ _ _ _ _ M). case_decide; subst; naive_solver.
    + by intros t [= <-].
  - destruct Hn as [He Hq]. pose proof (sinv_quiet _ _ _ Hi Hq Hw' Hh) as Hi'. split_and!; try apply Hq; try done.
    + eapply sinv_ext; [|exact Hi']. intros s'. unfold upd. by case_decide; subst.
    + unfold best. destruct (ready_elems w' s) as [|e l] eqn:E; [done|].
      assert (e ∈ ready_elems w s) as Hin by (apply (elem_ready_quiet w w'); [done|rewrite E; by left]).
      rewrite He in Hin. by apply elem_of_nil in Hin.
    + by apply local_quiet.
    + intros y q. rewrite (qt_at _ _ Hq). naive_solver.
Qed.

(** ** Requeueing *)
Lemma drift_requeue t d : frames (drift t d) (npsf_requeue t d).
Proof. unfold npsf_requeue, get_task, add_release, dummy_resched. frames_tac. Qed.

Lemma serv_requeue hp t w :
  let s := domain_of (tasks w t) in
  sinv hp w -> clock_ok w -> queueable w t -> (forall s', hp s' <> Some t) ->
  wp (npsf_requeue t s) (fun _ w' => sinv hp w' /\ local_to s w w' /\
    exists p, place_dom p = s /\ moves t (set_rt_flags RT_F_RUNNING (tasks w t)) (Some p) w w') w.
Proof.
  intros s Hi Hc Hq Hne.
  assert (wp (npsf_requeue t s) (fun _ w' => requeued t s w w') w) as Hwp.
  { unfold npsf_requeue, get_task. wp_steps; [apply Hq|].
    eapply wp_mono; [|intros ? w1 Hw1; apply wp_bind; exact Hw1].
    apply requeue_begin; try done; try apply Hi. intros now w2 Hp. wp_steps. destruct (is_released _ _).
    - apply prepared_ready; [apply dummy_calm|done].
    - exact (prepared_release t s NO_CPU w w2 Hp). }
  eapply wp_mono; [exact (wp_frames _ _ _ _ Hwp (drift_requeue t s))|]. intros _ w' [(Hw' & p & Hp & M) D].
  split_and!; [| |eauto].
  - eapply sinv_moves; [exact Hi|exact M|done| |done|apply Hi|done|].
    + intros y. by apply (drift_home t s).
    + intros q [= <-]. by split.
  - eapply (local_moves hp t); [done|exact M|done|]. by intros q [= <-].
Qed.

(** ** Asking a processor to reschedule *)

(** The processor [c] will call the scheduler. *)
Definition asked w (c : Z) : Prop :=
  if decide (c = this_cpu w) then need_resched (tasks w (curr w c)) = true else c ∈ ipis w.

(** The processor that executes the server, if one does. *)
Definition serving_cpu (g : nstate) s : option Z :=
  v ← servers g !! s;
  r ← curr_reserve v;
  x ← reserves g !! r;
  if is_currently_scheduled x then Some (n_cpu (npsf_cpu_entries g (r_cpu x))) else None.

(** The server exists and has a current reserve. *)
Definition wired (g : nstate) s : Prop :=
  exists v r x, servers g !! s = Some v /\ curr_reserve v = Some r /\ reserves g !! r = Some x.

Lemma wiring_server g g' s v :
  wiring g' = wiring g -> servers g !! s = Some v ->
  exists v', servers g' !! s = Some v' /\ set_highest_prio None v' = set_highest_prio None v.
Proof.
  intros E Hv. assert (servers (wiring g') !! s = servers (wiring g) !! s) as E' by (by rewrite E).
  unfold wiring in E'. simpl in E'. rewrite !lookup_fmap, Hv in E'. destruct (servers g' !! s) as [v'|]; [|done].
  exists v'. split; [done|]. by apply (inj Some) in E'.
Qed.

Lemma wiring_reserves g g' : wiring g' = wiring g -> reserves g' = reserves g.
Proof. intros E. change (reserves (wiring g') = reserves (wiring g)). by rewrite E. Qed.
Lemma wiring_entries g g' : wiring g' = wiring g -> npsf_cpu_entries g' = npsf_cpu_entries g.
Proof. intros E. change (npsf_cpu_entries (wiring g') = npsf_cpu_entries (wiring g)). by rewrite E. Qed.

Lemma wired_wiring g g' s : wiring g' = wiring g -> wired g s -> wired g' s.
Proof.
  intros E (v & r & x & Hv & Hr & Hx). destruct (wiring_server g g' s v E Hv) as (v' & Hv' & Ev).
  exists v', r, x. split_and!; [done| |by rewrite (wiring_reserves _ _ E)].
  rewrite <- Hr. exact (f_equal curr_reserve Ev).
Qed.

Lemma serving_wiring g g' s : wiring g' = wiring g -> wired g s -> serving_cpu g' s = serving_cpu g s.
Proof.
  intros E (v & r & x & Hv & Hr & Hx). destruct (wiring_server g g' s v E Hv) as (v' & Hv' & Ev).
  unfold serving_cpu. rewrite Hv, Hv'. simpl. 
  assert (curr_reserve v' = curr_reserve v) as -> by exact (f_equal curr_reserve Ev).
  rewrite Hr. simpl. by rewrite (wiring_reserves _ _ E), (wiring_entries _ _ E).
Qed.

Lemma preempt_asks c w :
  edom_ok w -> wp (preempt_if_preemptable None c) (fun _ w' => (quiet w w' /\ edom_ok w') /\ asked w' c) w.
Proof.
  intros Hw. apply wp_and; [by apply edf_preempt_spec|].
  unfold preempt_if_preemptable, get_current, set_tsk_need_resched, smp_send_reschedule, upd_task, asked. wp_steps.
  destruct (this_cpu w =? c) eqn:E; wp_steps.
  - apply Z.eqb_eq in E. simpl. rewrite decide_True by done. subst c. by rewrite upd_eq.
  - apply Z.eqb_neq in E. apply wp_when. wp_steps. simpl. rewrite decide_False by done. by left.
Qed.

Lemma preempt_server_spec s w :
  edom_ok w -> wired (plugin w) s ->
  wp (npsf_preempt_if_server_is_scheduled s) (fun _ w' => quiet w w' /\ edom_ok w' /\ homes w w' /\
    forall c, serving_cpu (plugin w) s = Some c -> asked w' c) w.
Proof.
  intros Hw (v & r & x & Hv & Hr & Hx).
  unfold npsf_preempt_if_server_is_scheduled, npsf_preempt, get_server, get_reserve, get_entry, serving_cpu.
  wp_steps. exists v. split; [done|]. wp_steps. exists r. split; [done|]. wp_steps. exists x. split; [done|].
  rewrite Hv. simpl. rewrite Hr. simpl. rewrite Hx. simpl. apply wp_when. destruct (is_currently_scheduled x); [|done].
  wp_steps. exists x. split; [done|]. wp_steps.
  eapply wp_mono; [apply homes_frames; [eauto with litmus|by apply preempt_asks]|].
  intros _ w' [[[Hq Hw'] Ha] Hh]. split_and!; [done..|]. by intros c [= <-].
Qed.

(** ** Rescheduling a server *)

Lemma hp_queueable hp w s t : sinv hp w -> in_time w -> hp s = Some t -> queueable w t.
Proof.
  intros Hi Ht Hs. destruct (si_hp _ _ Hi s t Hs) as (Hh & Hr & _).
  destruct (it_task _ Ht t Hr) as (? & ? & ?). by split.
Qed.

(** A queued task moves to the head. *)
Lemma member_take hp s (n : option tid) w w' y :
  hp s = None -> (forall y q, at_place w' y q <-> n <> Some y /\ at_place w y q) ->
  (forall t, n = Some t -> t ∈ ready_elems w s) -> member (upd hp s n) w' s y <-> member hp w s y.
Proof.
  intros Hs Hat Hin. unfold member. rewrite upd_eq, Hs. split.
  - intros [->|(p & Hp & Hq)]; [right; exists (PReady s); split; [done|by apply Hin]|].
    right. exists p. split; [done|]. by apply Hat.
  - intros [?|(p & Hp & Hq)]; [done|]. destruct (decide (n = Some y)) as [->|Hne]; [by left|].
    right. exists p. split; [done|]. by apply Hat.
Qed.

(** A task is put into the queues. *)
Lemma member_queued hp t x p w w' y :
  moves t x (Some p) w w' -> member hp w' (place_dom p) y <-> y = t \/ member hp w (place_dom p) y.
Proof.
  intros M. unfold member. setoid_rewrite (ms_at _ _ _ _ _ M). destruct (decide (y = t)) as [->|Hne]; [|naive_solver].
  split; [by left|]. intros _. right. by exists p.
Qed.

Lemma member_ext hp hp' w s y : hp' s = hp s -> member hp' w s y <-> member hp w s y.
Proof. unfold member. by intros ->. Qed.

(** The displaced head does not beat the task that displaces it. *)
Lemma displaced_lower hp w s t n :
  sinv hp w -> in_time w -> hp s = Some t -> Exists (beats w (Some t)) (ready_elems w s) -> n ∈ ready_elems w s ->
  Forall (fun e => edf_ready_order (tasks w) e n = false) (ready_elems w s) -> edf_ready_order (tasks w) t n = false.
Proof.
  intros Hi Ht Hs (e & He & Hb)%Exists_exists Hn Hbest. destruct (si_hp _ _ Hi s t Hs) as (_ & Hr & _).
  destruct Hb as [Hb|Hb]; [congruence|]. rewrite Forall_forall in Hbest. specialize (Hbest e He).
  destruct (edf_ready_order (tasks w) t n) eqn:E; [|done].
  pose proof (pq_wf_D _ _ _ (qo_ready_wf _ _ _ (si_dom _ _ Hi) s)) as HD. rewrite Forall_forall in HD.
  pose proof (edf_swo (tasks w) 0 (si_pids _ _ Hi)) as Ho.
  assert (edf_ok (tasks w) t) as Hok.
  { apply edf_ok_intro; [apply Hi|done|]. by destruct (it_task _ Ht t Hr) as (_ & ? & _). }
  assert (edf_ready_order (tasks w) e n = true); [|congruence].
  eapply (swo_trans _ _ Ho e t n); [by apply HD|done|by apply HD|exact Hb|done].
Qed.

(** The next task of the server, if there is one, becomes its head; [hp] says
    which tasks are at the head before, none in [s]. *)
Record taken hp s (n : option tid) w w' : Prop := {
  tk_inv : sinv (hp_of w') w';
  tk_hp s' : hp_of w' s' = upd hp s n s';
  tk_best : best w' s n;
  tk_local : local_to s w w';
  tk_core y : core (tasks w' y) = core (tasks w y);
  tk_at y q : at_place w' y q <-> n <> Some y /\ at_place w y q;
  tk_in t : n = Some t -> t ∈ ready_elems w s /\
    Forall (fun e => edf_ready_order (tasks w) e t = false) (ready_elems w s);
  tk_member y : member (hp_of w') w' s y <-> member hp w s y
}.

Lemma take_hp_spec hp s v w :
  sinv hp w -> hp s = None -> (forall s', s' <> s -> hp_of w s' = hp s') -> servers (plugin w) !! s = Some v ->
  wp (n ← __take_ready edf_ready_order s; upd_server s (set_highest_prio n)) (fun _ w' => exists n, taken hp s n w w') w.
Proof.
  intros Hi Hs Hhp Hv. wp_steps. eapply wp_mono; [by apply serv_take|].
  intros n w1 (Hi1 & Hb1 & L1 & Hp1 & Hc1 & Hat1 & Hin1). wp_steps.
  apply (set_hp_spec _ _ v); [by rewrite Hp1|]. exists n. set (w2 := put_hp s n v w1).
  assert (forall s', hp_of w2 s' = upd hp s n s') as Hhp2.
  { intros s'. unfold w2. rewrite hp_put. unfold upd. case_decide; [done|]. rewrite <- Hhp by done. unfold hp_of. by rewrite Hp1. }
  pose proof (sinv_put _ s n v w1 Hi1) as Hi2. split; try done.
  - by eapply sinv_ext.
  - etransitivity; [exact L1|]. apply local_put. by rewrite Hp1.
  - intros y. rewrite (member_ext _ _ w2 s y (Hhp2 s)). apply (member_take hp s n w w2); [done|done|]. intros t E. by apply Hin1.
Qed.

(** What rescheduling the server [s] establishes. *)
Record rescheduled s w w' : Prop := {
  rs_inv : sinv (hp_of w') w';
  rs_best : best w' s (hp_of w' s);
  rs_local : local_to s w w';
  rs_member y : member (hp_of w') w' s y <-> member (hp_of w) w s y
}.

(** The head is queued again after a task with a higher priority has been taken. *)
Lemma displace_spec s t n w w2 :
  sinv (hp_of w) w -> in_time w -> hp_of w s = Some t -> Exists (beats w (Some t)) (ready_elems w s) ->
  taken (upd (hp_of w) s None) s (Some n) w w2 -> wp (npsf_requeue t s) (fun _ w' => rescheduled s w w') w2.
Proof.
  intros Hi Ht Es Hex [Hi2 Hhp2 Hb2 L2 Hc2 Hat2 Hin2 Hm2]. destruct (si_hp _ _ Hi s t Es) as (Hh & Hr & Hd).
  destruct (Hin2 n eq_refl) as [Hn Hbest].
  assert (queueable w2 t) as Hq2.
  { destruct (it_task _ Ht t Hr) as (Hrel & Hdl & _). split.
    - apply unqueued_heap; [apply Hi2|]. intros p [_ Hp]%Hat2. exact (hp_nowhere _ w s t p Hi Es Hp).
    - by rewrite (core_field is_realtime _ _ (fun _ => eq_refl) (Hc2 t)).
    - by rewrite (core_field get_deadline _ _ (fun _ => eq_refl) (Hc2 t)).
    - by rewrite (core_field get_release _ _ (fun _ => eq_refl) (Hc2 t)). }
  assert (domain_of (tasks w2 t) = s) as Hd2 by (by rewrite (lc_home _ _ _ L2)). rewrite <- Hd2.
  eapply wp_mono; [apply (serv_requeue (hp_of w2)); [exact Hi2|by eapply local_clock, Ht|exact Hq2|]|].
  { intros s'. rewrite Hhp2. unfold upd. repeat case_decide.
    - intros [= ->]. exact (hp_nowhere _ w s t (PReady s) Hi Es Hn).
    - intros E. by destruct (hp_once _ w s s' t Hi Es E). }
  rewrite Hd2. intros _ w3 (Hi3 & L3 & p & Hp3 & M3).
  assert (forall s', hp_of w3 s' = hp_of w2 s') as Hhp3 by (intros s'; unfold hp_of; by rewrite (ms_plugin _ _ _ _ _ M3)).
  split.
  - by eapply sinv_ext.
  - rewrite Hhp3, Hhp2, upd_eq. simpl. apply Forall_forall. intros e He.
    rewrite (order_moves t _ _ w2 w3 e n M3) by done. rewrite (edf_order_core (tasks w2) (tasks w)) by exact Hc2.
    apply (ms_at _ _ _ _ _ M3 e (PReady s)) in He. case_decide; [subst e; by eapply displaced_lower|].
    rewrite Forall_forall in Hbest. apply Hbest. apply (Hat2 e (PReady s)), He.
  - by etransitivity.
  - intros y. rewrite (member_ext _ _ w3 s y (Hhp3 s)). rewrite <- Hp3 at 1.
    rewrite (member_queued _ _ _ _ _ _ _ M3), Hp3, Hm2. unfold member. rewrite upd_eq, Es. naive_solver.
Qed.

Lemma swap_head_spec s v w :
  sinv (hp_of w) w -> in_time w -> servers (plugin w) !! s = Some v ->
  Exists (beats w (hp_of w s)) (ready_elems w s) ->
  wp (n ← __take_ready edf_ready_order s;
      upd_server s (set_highest_prio n);;
      match hp_of w s with Some t => npsf_requeue t s | None => mret tt end) (fun _ w' => rescheduled s w w') w.
Proof.
  intros Hi Ht Hv Hex.
  assert (wp (n ← __take_ready edf_ready_order s; upd_server s (set_highest_prio n))
    (fun _ w' => exists n, taken (upd (hp_of w) s None) s n w w') w) as Htake.
  { apply (take_hp_spec _ _ v); [by apply sinv_drop|by rewrite upd_eq| |done]. intros s' Hs'. by rewrite upd_ne. }
  apply wp_bind. apply wp_bind in Htake. eapply wp_mono; [exact Htake|]. intros n' w1 Hw1. wp_steps.
  eapply wp_mono; [exact Hw1|]. intros _ w2 [n T]. destruct (hp_of w s) as [t|] eqn:Es.
  - destruct n as [n|]; [by eapply displace_spec|]. exfalso. apply Exists_exists in Hex as (e & He & _).
    pose proof (tk_best _ _ _ _ _ T) as Hb. simpl in Hb.
    assert (e ∈ ready_elems w2 s) as He2 by (by apply (tk_at _ _ _ _ _ T e (PReady s))).
    rewrite Hb in He2. by apply elem_of_nil in He2.
  - wp_steps. destruct T as [Hi2 Hhp2 Hb2 L2 Hc2 Hat2 Hin2 Hm2]. split; [done| |done|].
    + by rewrite Hhp2, upd_eq.
    + intros y. rewrite Hm2. apply member_ext. by rewrite upd_eq, Es.
Qed.

Lemma hp_of_quiet w w' s : quiet w w' -> hp_of w' s = hp_of w s.
Proof. intros Hq. unfold hp_of. by rewrite (se_plugin _ _ (qt_env _ _ Hq)). Qed.

Lemma member_quiet hp w w' s y : quiet w w' -> member hp w' s y <-> member hp w s y.
Proof. intros Hq. unfold member. by setoid_rewrite (qt_at _ _ Hq). Qed.

Lemma best_quiet w w' s (n : option tid) : quiet w w' -> best w s n -> best w' s n.
Proof.
  intros Hq. pose proof (fun e => elem_ready_quiet w w' e s Hq) as He. destruct n as [n|]; simpl.
  - rewrite !Forall_forall. intros Hb e Hin%He. rewrite (order_quiet w w') by done. auto.
  - intros Hb. destruct (ready_elems w' s) as [|e l]; [done|]. destruct (not_elem_of_nil e). rewrite <- Hb. apply He. by left.
Qed.

Lemma rescheduled_quiet_l s w w1 w2 : quiet w w1 -> homes w w1 -> rescheduled s w1 w2 -> rescheduled s w w2.
Proof.
  intros Hq Hh [Hi Hb L Hm]. split; [done|done| |].
  - etransitivity; [by apply local_quiet|done].
  - intros y. rewrite Hm, (member_quiet _ w w1) by done. apply member_ext. by apply hp_of_quiet.
Qed.

Lemma rescheduled_quiet_r s w w1 w2 :
  rescheduled s w w1 -> quiet w1 w2 -> edom_ok w2 -> homes w1 w2 -> rescheduled s w w2.
Proof.
  intros [Hi Hb L Hm] Hq Hw Hh. pose proof (fun s => hp_of_quiet w1 w2 s Hq) as E. split.
  - eapply sinv_ext; [exact E|]. by eapply sinv_quiet.
  - rewrite E. by eapply best_quiet.
  - etransitivity; [done|by apply local_quiet].
  - intros y. rewrite <- Hm, (member_quiet _ w1 w2) by done. by apply member_ext.
Qed.

Lemma in_time_env w w' : in_time w -> same_env w w' -> in_time w'.
Proof.
  intros [Hc Ht] He. destruct (env_timed _ _ He) as (_ & Hc' & Ee). split; [auto|].
  intros t. rewrite (core_field is_realtime _ _ (fun _ => eq_refl) (se_core _ _ He t)), Ee,
    (core_field get_release _ _ (fun _ => eq_refl) (se_core _ _ He t)),
    (core_field get_deadline _ _ (fun _ => eq_refl) (se_core _ _ He t)). apply Ht.
Qed.

(** Nothing has to be done when no ready task beats the head. *)
Lemma unbeaten_best hp w s :
  sinv hp w -> ~ Exists (beats w (hp s)) (ready_elems w s) -> best w s (hp s).
Proof.
  intros Hi Hno. destruct (hp s) as [t|] eqn:Es; simpl.
  - apply Forall_forall. intros e He. destruct (edf_ready_order (tasks w) e t) eqn:E; [|done].
    destruct Hno. apply Exists_exists. exists e. split; [done|by right].
  - destruct (ready_elems w s) as [|e l]; [done|]. destruct Hno. by constructor.
Qed.

(** The processor that executes the server is asked to reschedule if the server
    gets another head. *)
Definition announced s w w' : Prop :=
  hp_of w' s <> hp_of w s -> forall c, serving_cpu (plugin w) s = Some c -> asked w' c.

Lemma reschedule_spec s w :
  sinv (hp_of w) w -> in_time w -> wired (plugin w) s ->
  wp (npsf_reschedule_server s) (fun _ w' => rescheduled s w w' /\ announced s w w') w.
Proof.
  intros Hi Ht Hwd. pose proof Hwd as (v & r & x & Hv & Hr & Hx). unfold npsf_reschedule_server, get_server. wp_steps.
  exists v. split; [done|]. assert (highest_prio v = hp_of w s) as -> by (unfold hp_of; by rewrite Hv). wp_steps.
  eapply wp_mono; [apply homes_frames; [eauto with litmus|apply preemption_needed_spec; [apply Hi|apply Hi|]]|].
  { intros t E _. destruct (si_hp _ _ Hi s t E) as (_ & Hrt & _). apply edf_ok_intro; [apply Hi|done|]. by apply (it_task _ Ht). }
  intros b w1 [(Hq1 & Hw1 & Ht1 & Hb) Hh1]. pose proof (sinv_quiet _ _ _ Hi Hq1 Hw1 Hh1) as Hi1. apply wp_when.
  pose proof (se_plugin _ _ (qt_env _ _ Hq1)) as Hp1. assert (hp_of w1 = hp_of w) as Eh by (unfold hp_of; by rewrite Hp1).
  assert (b = true <-> Exists (beats w1 (hp_of w s)) (ready_elems w1 s)) as Hb1.
  { rewrite Hb, !Exists_exists. apply exist_proper. intros e. rewrite (elem_ready_quiet w w1 e s Hq1).
    unfold beats. by rewrite Ht1. }
  destruct b.
  - pose proof (swap_head_spec s v w1) as Hsw. rewrite Hp1, Eh in Hsw.
    specialize (Hsw Hi1 (in_time_env _ _ Ht (qt_env _ _ Hq1)) Hv (proj1 Hb1 eq_refl)).
    apply wp_bind in Hsw. wp_steps. eapply wp_mono; [exact Hsw|]. intros n w2 Hw2. apply wp_bind in Hw2.
    wp_steps. eapply wp_mono; [exact Hw2|]. intros ? w3 Hw3. wp_steps. eapply wp_mono; [exact Hw3|]. intros ? w4 R4.
    assert (wiring (plugin w4) = wiring (plugin w)) as Ew by (rewrite (lc_wiring _ _ _ (rs_local _ _ _ R4)); by rewrite Hp1).
    eapply wp_mono; [apply preempt_server_spec; [apply R4|by eapply wired_wiring]|].
    intros _ w5 (Hq5 & Hw5 & Hh5 & Ha). split.
    + apply (rescheduled_quiet_l s w w1); [exact Hq1|exact Hh1|]. by apply (rescheduled_quiet_r s w1 w4).
    + intros _ c Hc. apply Ha. by rewrite (serving_wiring _ _ _ Ew Hwd).
  - split; [|intros E; by rewrite Eh in E]. split; rewrite ?Eh; [done| |by apply local_quiet|].
    + apply unbeaten_best; [done|]. by rewrite <- Hb1.
    + intros y. by apply member_quiet.
Qed.

End Server.
