(* ===== verification/NpsTask.v ===== *)
(** * NPS-F: tasks that arrive, wake up, block and leave

    The handlers of src/litmus2010/litmus/sched_npsf.c that add a task to a
    server or take one out keep the invariant of the servers, and tell the
    processor that executes the server when its highest-priority task changes. *)

From stdpp Require Import sorting.
From S2P Require Import Prelude Task Edf PrioQueue Kernel RtDomain RtInv EdfDomain Partitioned Frames.
From S2P Require Import NpsF NpsInv NpsServer.
Open Scope Z_scope.

Section Tasks.
Context {Q : Type -> Type} `{PrioQueueLaws Q}.
Abbreviation world := (world Q nstate).
Abbreviation K := (M world).
Implicit Types (w : world) (t y : tid) (s : Z) (hp : Z -> option tid) (v : npsf_server).

(** The invariant, except that the head of [s] need not be the best task when
    [but = Some s]. *)
Record ninv_at (but : option Z) w : Prop := {
  ni_serv : sinv (hp_of w) w;
  ni_best s : but <> Some s -> best w s (hp_of w s);
  ni_wired s : is_Some (servers (plugin w) !! s) -> wired (plugin w) s;
  ni_live t p : at_place w t p -> is_Some (servers (plugin w) !! place_dom p)
}.
Definition npsf_inv : world -> Prop := ninv_at None.

Lemma ninv_weaken s w : npsf_inv w -> ninv_at (Some s) w.
Proof. intros []. split; try done. intros s' _. by apply ni_best0. Qed.

Lemma wiring_live g g' s : wiring g' = wiring g -> is_Some (servers g' !! s) -> is_Some (servers g !! s).
Proof.
  intros E [v Hv]. destruct (wiring_server g' g s v (eq_sym E) Hv) as (v' & Hv' & _). eauto.
Qed.

(** After rescheduling, the head is the best task again. *)
Lemma ninv_rescheduled s w w' : ninv_at (Some s) w -> wired (plugin w) s -> rescheduled s w w' -> npsf_inv w'.
Proof.
  intros [Hi Hb Hwd Hl] Hs [Hi' Hb' L Hm]. pose proof (lc_wiring _ _ _ L) as Ew. split; [done|..].
  - intros s' _. destruct (decide (s' = s)) as [->|Hne]; [done|].
    assert (hp_of w' s' = hp_of w s') as -> by (unfold hp_of; by rewrite (lc_srv _ _ _ L)).
    apply (best_local (hp_of w) (hp_of w') s s' w w'); try done. apply Hb. congruence.
  - intros s' Hs'. eapply wired_wiring; [exact Ew|]. apply Hwd. by eapply wiring_live.
  - intros t p Hp. apply (wiring_live _ _ _ (eq_sym Ew)). destruct (decide (place_dom p = s)) as [->|Hne].
    + destruct Hs as (v & ? & ? & Hv & _). eauto.
    + eapply Hl. by apply (lc_at _ _ _ L).
Qed.

Lemma in_time_moves t x p w w' :
  in_time w -> moves t x p w w' -> (clock_ok w -> timed w w') ->
  (is_realtime x = true -> 0 <= get_release x < two63 /\ 0 <= get_deadline x < two63 /\ time_end w < two63) -> in_time w'.
Proof.
  intros [Hc Ht] M T Hx. destruct (T Hc) as (_ & Hc' & Ee). split; [auto|]. intros y. rewrite Ee.
  rewrite (core_field is_realtime _ _ (fun _ => eq_refl) (ms_core _ _ _ _ _ M y)),
    (core_field get_release _ _ (fun _ => eq_refl) (ms_core _ _ _ _ _ M y)),
    (core_field get_deadline _ _ (fun _ => eq_refl) (ms_core _ _ _ _ _ M y)). case_decide; [done|apply Ht].
Qed.

(** ** A task joins a server *)

(** The task is in no server. *)
Definition outside w t : Prop := in_heap (tasks w t) = false /\ forall s, hp_of w s <> Some t.

(** It changes to [x], with its domain kept. *)
Lemma ninv_change t x w w' :
  npsf_inv w -> outside w t -> moves t x None w w' -> edom_ok w' -> homes w w' ->
  pid x = pid (tasks w t) -> inh_task x = None -> is_realtime x = is_realtime (tasks w t) ->
  npsf_inv w' /\ outside w' t.
Proof.
  intros [Hi Hb Hwd Hl] [Hh Hne] M Hw' Hho Hp Hn Hr. pose proof (ms_plugin _ _ _ _ _ M) as Epl.
  assert (hp_of w' = hp_of w) as Eh by (unfold hp_of; by rewrite Epl).
  assert (sinv (hp_of w) w') as Hi' by (eapply sinv_moves; done).
  assert (forall y q, at_place w' y q <-> at_place w y q) as Hat.
  { intros y q. rewrite (ms_at _ _ _ _ _ M). case_decide; [subst y|done]. split; [done|].
    intros Hq. by apply (unqueued_nowhere edf_ready_order edf_ok) in Hq; [|apply Hi|]. }
  split; [split; rewrite ?Eh, ?Epl; try done|].
  - intros s _. apply (best_frame w); [apply Hi|apply Hi'|..|by apply Hb].
    + intros e. apply (Hat e (PReady s)).
    + intros e He. apply core_same_prio. rewrite (ms_core _ _ _ _ _ M). rewrite decide_False; [done|]. intros ->.
      destruct He as [He|He]; [|by destruct (Hne s)]. apply (unqueued_nowhere edf_ready_order edf_ok w t (PReady s)); [apply Hi|done|done].
  - intros y p Hy%Hat. by eapply Hl.
  - split; [|by rewrite Eh]. apply unqueued_heap; [done|]. intros p Hpl%(ms_at _ _ _ _ _ M). by rewrite decide_True in Hpl.
Qed.

(** The invariant holds, [t] is in the server [s] now, and nothing else changed
    servers. *)
Record joined t s w w' : Prop := {
  jn_inv : npsf_inv w';
  jn_local : local_to s w w';
  jn_member y : member (hp_of w') w' s y <-> y = t \/ member (hp_of w) w s y;
  jn_asked : announced s w w'
}.

Lemma join_spec t w :
  let s := domain_of (tasks w t) in
  npsf_inv w -> in_time w -> queueable w t -> (forall s', hp_of w s' <> Some t) -> is_Some (servers (plugin w) !! s) ->
  wp (npsf_requeue t s;; npsf_reschedule_server s) (fun _ w' => joined t s w w') w.
Proof.
  intros s Hinv Ht Hq Hne Hs. pose proof Hinv as [Hi Hb Hwd Hl]. wp_steps.
  eapply wp_mono; [by apply (serv_requeue (hp_of w)); [|apply Ht|..]|].
  intros _ w1 (Hi1 & L1 & p & Hp & M1). pose proof (ms_plugin _ _ _ _ _ M1) as Epl.
  assert (hp_of w1 = hp_of w) as Eh by (unfold hp_of; by rewrite Epl).
  assert (in_time w1) as Ht1.
  { eapply in_time_moves; [exact Ht|exact M1|apply L1|]. intros _. destruct (it_task _ Ht t (qb_rt _ _ Hq)) as (? & ? & ?). done. }
  assert (ninv_at (Some s) w1) as Hinv1.
  { split; rewrite ?Eh, ?Epl; try done.
    - intros s' Hs'. apply (best_local (hp_of w) (hp_of w) s s' w w1); [done|done|done|congruence|by apply Hb].
    - intros y q Hy%(ms_at _ _ _ _ _ M1). case_decide; [|by eapply Hl]. injection Hy as <-. by rewrite Hp. }
  eapply wp_mono; [apply reschedule_spec; [by rewrite Eh|done|by rewrite Epl; apply Hwd]|].
  intros _ w2 [R2 A2]. split.
  - eapply ninv_rescheduled; [exact Hinv1|rewrite Epl; by apply Hwd|done].
  - etransitivity; [exact L1|apply R2].
  - intros y. rewrite (rs_member _ _ _ R2), Eh. pose proof (member_queued (hp_of w) _ _ _ _ _ y M1) as E. by rewrite Hp in E.
  - unfold announced in *. by rewrite Eh, Epl in A2.
Qed.

(** ** Before it joins *)

(** Time goes on and the job of the task [t], which is in no server, changes. *)
Record aside t w w' : Prop := {
  as_inv : npsf_inv w';
  as_out : outside w' t;
  as_moves : moves t (tasks w' t) None w w';
  as_home : homes w w';
  as_time : clock_ok w -> timed w w'
}.

Lemma outside_nowhere w t p : npsf_inv w -> outside w t -> ~ at_place w t p.
Proof. intros Hi [Hh _]. apply (unqueued_nowhere edf_ready_order edf_ok); [apply Hi|done]. Qed.

Lemma aside_trans t w1 w2 w3 : aside t w1 w2 -> aside t w2 w3 -> aside t w1 w3.
Proof.
  intros [_ _ M1 D1 T1] [I2 O2 M2 D2 T2]. split; [done|done|by eapply moves_trans| |].
  - intros y. by rewrite D2.
  - intros Hc. specialize (T1 Hc). eapply timed_trans; [exact T1|]. by apply T2, T1.
Qed.

Lemma npsf_clock c ds w : npsf_inv w -> npsf_inv (clock_to c ds w).
Proof. intros [[] Hb Hwd Hl]. split; [|done..]. split; try done. by apply edom_ok_clock. Qed.

Lemma aside_clock t c ds w :
  npsf_inv w -> outside w t -> (clock_ok w -> timed w (clock_to c ds w)) -> aside t w (clock_to c ds w).
Proof.
  intros Hi Ho Ht. split; [by apply npsf_clock|done| |done|done]. exact (moves_clock t c ds w (fun p => outside_nowhere w t p Hi Ho)).
Qed.

Lemma aside_upd t f w :
  npsf_inv w -> outside w t -> in_heap (f (tasks w t)) = in_heap (tasks w t) -> pid (f (tasks w t)) = pid (tasks w t) ->
  inh_task (f (tasks w t)) = inh_task (tasks w t) -> is_realtime (f (tasks w t)) = is_realtime (tasks w t) ->
  domain_of (f (tasks w t)) = domain_of (tasks w t) ->
  wp (upd_task t f) (fun _ w' => aside t w w' /\ w' = set_tasks (upd (tasks w) t (f (tasks w t))) w) w.
Proof.
  intros Hi Ho Hh Hp Hn Hr Hd. unfold upd_task. wp_steps. set (x := f (tasks w t)) in *. set (w' := set_tasks _ w).
  pose proof (si_inh _ _ (ni_serv _ _ Hi)) as Hni.
  assert (moves t x None w w') as M by (apply moves_upd; intros p; by apply outside_nowhere).
  destruct (edom_ok_upd w t x (si_dom _ _ (ni_serv _ _ Hi)) (proj1 Ho)) as [Hw' _]; [rewrite Hh; apply Ho|done|by rewrite Hn|].
  assert (homes w w') as Hho by (intros y; simpl; unfold upd; case_decide; by subst).
  destruct (ninv_change t x w w') as [Hi' Ho']; try done; [by rewrite Hn|]. split; [|done].
  split; [done|done| |done|intros _; by apply timed_same]. eapply moves_core_eq; [|exact M]. simpl. by rewrite upd_eq.
Qed.

Lemma aside_joined t s w w1 w2 :
  npsf_inv w -> aside t w w1 -> domain_of (tasks w t) = s -> joined t s w1 w2 -> joined t s w w2.
Proof.
  intros Hi [Hi1 Ho1 M1 D1 T1] Hd [Hi2 L2 Hm2 A2]. pose proof (ms_plugin _ _ _ _ _ M1) as Epl.
  assert (hp_of w1 = hp_of w) as Eh by (unfold hp_of; by rewrite Epl). split; [done|..].
  - etransitivity; [|exact L2]. subst s. eapply (local_moves (hp_of w) t); [apply Hi|exact M1| |done].
    split; [intros y; left; apply D1|done].
  - intros y. rewrite Hm2, Eh. unfold member. setoid_rewrite (ms_at _ _ _ _ _ M1).
    destruct (decide (y = t)) as [->|Hne]; naive_solver.
  - unfold announced in *. by rewrite Eh, Epl in A2.
Qed.

(** A job released now *)
Lemma fresh_job t c w w1 :
  aside t w w1 -> in_time w1 -> is_realtime (tasks w1 t) = true -> 0 <= c -> 0 <= get_rt_period (tasks w1 t) ->
  c + get_rt_period (tasks w1 t) < two63 ->
  wp (upd_task t (release_at c)) (fun _ w' => aside t w w' /\ in_time w' /\ queueable w' t) w1.
Proof.
  intros A1 It1 Hr Hc0 Hp Hcp. destruct (release_at_window c (tasks w1 t)) as [Er Ed]; [done..|].
  destruct (it_task _ It1 t Hr) as (_ & _ & Hte).
  eapply wp_mono; [apply aside_upd; [apply A1|apply A1|done..]|]. intros _ w2 [A2 ->].
  assert (0 <= get_release (release_at c (tasks w1 t)) < two63 /\ 0 <= get_deadline (release_at c (tasks w1 t)) < two63)
    as [Hr2 Hd2] by (rewrite Er, Ed; lia).
  split_and!; [by eapply aside_trans| |].
  - eapply in_time_moves; [exact It1|apply A2|apply A2|]. intros _. simpl. rewrite upd_eq.
    split; [exact Hr2|split; [exact Hd2|done]].
  - split; simpl; rewrite upd_eq; [apply (as_out _ _ _ A1)|exact Hr|exact Hd2|exact Hr2].
Qed.

(** ** npsf_task_wake_up *)

Lemma serv_wake_up t w :
  npsf_inv w -> time_ok w -> is_realtime (tasks w t) = true -> outside w t ->
  is_Some (servers (plugin w) !! domain_of (tasks w t)) ->
  wp (npsf_task_wake_up t) (fun _ w' => joined t (domain_of (tasks w t)) w w') w.
Proof.
  intros Hi Ht Hr Ho Hs. destruct (to_task _ Ht t Hr) as (Hrel & Hdl & Hper & Hdp & Hend).
  unfold npsf_task_wake_up, get_task, get_server. wp_steps; [by rewrite Hr|apply Ho|].
  apply clock_spec; [apply Ht|]. intros c ds Hc Hck Hte. wp_steps. set (w1 := clock_to c ds w).
  assert (aside t w w1) as A1 by (apply aside_clock; [done|done|]; intros _; split_and!; [apply Hc|done|done]).
  apply (wp_mono _ (fun _ w' => aside t w w' /\ in_time w' /\ queueable w' t)).
  - assert (in_time w1) as It1.
    { eapply in_time_moves; [by apply time_ok_in_time|apply A1|apply A1|]. intros _. change (tasks w1 t) with (tasks w t). lia. }
    apply wp_when. destruct (is_tardy _ _).
    + destruct Ht as [[Hc0 _] _]. apply fresh_job; try done; change (tasks w1 t) with (tasks w t); lia.
    + split_and!; [done|done|]. split; change (tasks w1 t) with (tasks w t); [apply Ho|done|lia|done].
  - intros _ w2 (A2 & It2 & Q2). wp_steps. destruct (as_out _ _ _ A2) as [_ Hne2].
    destruct Hs as [v Hv]. pose proof (ms_plugin _ _ _ _ _ (as_moves _ _ _ A2)) as Epl. exists v. rewrite Epl. split; [done|].
    assert (highest_prio v = hp_of w2 (domain_of (tasks w t))) as -> by (unfold hp_of; by rewrite Epl, Hv).
    apply wp_when. rewrite bool_decide_true by apply Hne2.
    pose proof (join_spec t w2) as J. cbn zeta in J. rewrite (as_home _ _ _ A2 t) in J.
    eapply wp_mono; [apply J; [apply A2|done|done|done|rewrite Epl; eauto]|].
    intros ? w3 J3. by eapply aside_joined.
Qed.

(** ** npsf_task_new *)

(** [tsk_rt(t)->domain = edf] *)
Definition rehomed t s w : world := set_tasks (upd (tasks w) t (set_domain_of s (tasks w t))) w.

Lemma rehome_spec t s w (Φ : unit -> world -> Prop) : Φ tt (rehomed t s w) -> wp (upd_task t (set_domain_of s)) Φ w.
Proof. done. Qed.

Lemma npsf_rehomed t s w : npsf_inv w -> outside w t -> npsf_inv (rehomed t s w) /\ outside (rehomed t s w) t.
Proof.
  intros Hinv [Hh Hne]. pose proof Hinv as [Hi Hb Hwd Hl]. set (w' := rehomed t s w).
  assert (forall x, core (tasks w' x) = core (tasks w x)) as Hc by (intros x; simpl; unfold upd; case_decide; by subst).
  assert (forall x, in_heap (tasks w' x) = in_heap (tasks w x)) as Hih by (intros x; simpl; unfold upd; case_decide; by subst).
  assert (quiet w w') as Hq by exact (quiet_tasks w (tasks w') Hc).
  assert (forall y, y <> t -> domain_of (tasks w' y) = domain_of (tasks w y)) as Hd by (intros y Hy; simpl; by rewrite upd_ne).
  assert (sinv (hp_of w) w') as Hi'.
  { split.
    - exact (dom_ok_tasks _ _ edf_order_core edf_ok_core w (tasks w') (si_dom _ _ Hi) Hc Hih).
    - eapply pids_unique_core; [apply Hq|apply Hi].
    - intros y. rewrite (core_field inh_task _ _ (fun _ => eq_refl) (Hc y)). apply Hi.
    - intros s' y Hy. destruct (si_hp _ _ Hi s' y Hy) as (? & ? & ?).
      rewrite Hih, (core_field is_realtime _ _ (fun _ => eq_refl) (Hc y)), Hd; [done|]. intros ->. by destruct (Hne s').
    - intros y p Hy. rewrite Hd; [by apply (si_home _ _ Hi)|]. intros ->. by apply (outside_nowhere w t p). }
  split; [split; try done|by split; [rewrite Hih|]]. intros s' _. eapply best_quiet; [exact Hq|]. by apply Hb.
Qed.

Lemma asked_need_resched y w c : asked w c -> asked (set_tasks (upd (tasks w) y (set_need_resched true (tasks w y))) w) c.
Proof. unfold asked. simpl. case_decide; [|done]. intros E. unfold upd. by case_decide. Qed.

Lemma joined_resched t s w w1 :
  joined t s w w1 -> wp (set_tsk_need_resched t) (fun _ w' => joined t s w w' /\ need_resched (tasks w' t) = true) w1.
Proof.
  intros [Hi L Hm A]. unfold set_tsk_need_resched, upd_task. wp_steps. set (w2 := set_tasks _ w1).
  assert (forall x, core (tasks w2 x) = core (tasks w1 x)) as Hc by (intros x; simpl; unfold upd; case_decide; by subst).
  assert (forall x, in_heap (tasks w2 x) = in_heap (tasks w1 x)) as Hih by (intros x; simpl; unfold upd; case_decide; by subst).
  assert (homes w1 w2) as Hho by (intros y; simpl; unfold upd; case_decide; by subst).
  assert (quiet w1 w2) as Hq by exact (quiet_tasks w1 (tasks w2) Hc).
  assert (edom_ok w2) as Hw2.
  { exact (dom_ok_tasks _ _ edf_order_core edf_ok_core w1 (tasks w2) (si_dom _ _ (ni_serv _ _ Hi)) Hc Hih). }
  split; [split|simpl; by rewrite upd_eq].
  - destruct Hi as [Hs Hb Hwd Hl]. split; try done; [by eapply sinv_quiet|]. intros s' _. eapply best_quiet; [exact Hq|by apply Hb].
  - etransitivity; [exact L|by apply local_quiet].
  - done.
  - intros E c Hcs. apply asked_need_resched. by apply A.
Qed.

Lemma find_first_in {A} (f : A -> bool) l a : find_first f l = Some a -> a ∈ l /\ f a = true.
Proof.
  induction l as [|b l IH]; simpl; [done|]. destruct (f b) eqn:E; [intros [= <-]; split; [by left|done]|].
  intros [? ?]%IH. split; [by right|done].
Qed.

Lemma serv_task_new t on_rq running r rx s w :
  npsf_inv w -> time_ok w -> is_realtime (tasks w t) = true -> outside w t ->
  reserve_of_task (plugin w) (npsf_cpu_entries (plugin w) (get_partition (tasks w t))) (tasks w t) = Some r ->
  reserves (plugin w) !! r = Some rx -> r_server rx = Some s -> is_Some (servers (plugin w) !! s) ->
  wp (npsf_task_new t on_rq running)
    (fun _ w' => joined t s (rehomed t s w) w' /\ need_resched (tasks w' t) = true) w.
Proof.
  intros Hi Ht Hr Ho Hf Hx Hsx Hs. destruct (to_task _ Ht t Hr) as (Hrel & Hdl & Hper & Hdp & Hend).
  unfold npsf_task_new, server_of, get_task, get_entry, get_reserve. wp_steps.
  { apply find_first_in in Hf as [Hin _]. unfold no_reserves. case_bool_decide as E; [|done]. rewrite E in Hin. by apply elem_of_nil in Hin. }
  exists r. split; [done|]. wp_steps. exists rx. split; [done|]. wp_steps. exists s. split; [done|].
  wp_steps. apply rehome_spec. wp_steps. set (w0 := rehomed t s w).
  destruct (npsf_rehomed t s w Hi Ho) as [Hi0 Ho0]. fold w0 in Hi0, Ho0.
  assert (domain_of (tasks w0 t) = s) as Hd0 by (simpl; by rewrite upd_eq).
  assert (in_time w0) as It0.
  { destruct (time_ok_in_time _ Ht) as [Hc Hj]. split; [done|]. intros y. simpl. unfold upd. case_decide; [subst y|]; apply Hj. }
  apply clock_spec; [apply Ht|]. intros c ds Hc Hck Hte. wp_steps. set (w1 := clock_to c ds w0).
  assert (aside t w0 w1) as A1 by (apply aside_clock; [done|done|]; intros _; split_and!; [apply Hc|done|done]).
  assert (tasks w1 t = set_domain_of s (tasks w t)) as Ex by (simpl; by rewrite upd_eq).
  assert (get_rt_period (tasks w1 t) = get_rt_period (tasks w t)) as Ep by (by rewrite Ex).
  change (time_end w0) with (time_end w) in *. change (clock w0) with (clock w) in *.
  assert (in_time w1) as It1.
  { eapply in_time_moves; [exact It0|apply A1|apply A1|]. intros _. rewrite Ex. exact (it_task _ (time_ok_in_time _ Ht) t Hr). }
  eapply wp_mono; [apply (fresh_job t c w0); [done|done|by rewrite Ex|destruct Ht as [[? _] _]; lia|by rewrite Ep|rewrite Ep; lia]|].
  intros ? w2 (A2 & It2 & Q2). pose proof (ms_plugin _ _ _ _ _ (as_moves _ _ _ A2)) as Epl.
  pose proof (join_spec t w2) as J. cbn zeta in J. rewrite (as_home _ _ _ A2 t), Hd0 in J.
  specialize (J (as_inv _ _ _ A2) It2 Q2 (proj2 (as_out _ _ _ A2))). rewrite Epl in J. specialize (J Hs).
  apply wp_bind in J. wp_steps. eapply wp_mono; [exact J|]. clear J. intros ? w3 J. wp_steps.
  eapply wp_mono; [exact J|]. intros ? w4 J4. apply joined_resched. by eapply aside_joined.
Qed.

(** ** A task leaves its server *)

Record departed t s w w' : Prop := {
  dp_inv : npsf_inv w';
  dp_local : local_to s w w';
  dp_member y : member (hp_of w') w' s y <-> y <> t /\ member (hp_of w) w s y;
  dp_asked n : hp_of w' s = Some n -> hp_of w s <> Some n -> forall c, serving_cpu (plugin w) s = Some c -> asked w' c
}.

(** The head leaves. *)
Lemma depart_head t s w :
  npsf_inv w -> in_time w -> hp_of w s = Some t ->
  wp (upd_server s (set_highest_prio None);; npsf_reschedule_server s) (fun _ w' => departed t s w w') w.
Proof.
  intros Hinv Ht Hs. pose proof Hinv as [Hi Hb Hwd Hl]. unfold hp_of in Hs. destruct (servers (plugin w) !! s) as [v|] eqn:Hv; [|done].
  simpl in Hs. wp_steps. apply (set_hp_spec _ _ v); [done|]. set (w1 := put_hp s None v w).
  assert (forall s', hp_of w1 s' = upd (hp_of w) s None s') as Eh by (intros s'; apply hp_put).
  assert (hp_of w s = Some t) as Hst by (unfold hp_of; by rewrite Hv).
  pose proof (local_put s None v w Hv) as L1. pose proof (lc_wiring _ _ _ L1) as Ew. fold w1 in L1, Ew.
  assert (wired (plugin w1) s) as Hwd1 by (eapply wired_wiring; [exact Ew|]; apply Hwd; by rewrite Hv).
  assert (ninv_at (Some s) w1) as Hinv1.
  { split.
    - eapply sinv_ext; [exact Eh|]. by apply sinv_put, sinv_drop.
    - intros s' Hs'. rewrite Eh, upd_ne by congruence. by apply Hb.
    - intros s' Hs'. eapply wired_wiring; [exact Ew|]. apply Hwd. by eapply wiring_live.
    - intros y p Hp. apply (wiring_live _ _ _ (eq_sym Ew)). by eapply (Hl y). }
  eapply wp_mono; [apply reschedule_spec; [apply Hinv1|by destruct Ht; split|done]|]. intros _ w2 [R2 A2]. split.
  - by eapply ninv_rescheduled.
  - etransitivity; [exact L1|apply R2].
  - intros y. rewrite (rs_member _ _ _ R2). unfold member. rewrite Eh, upd_eq, Hst. split.
    + intros [?|(p & Hp & Hy)]; [done|]. split; [|by eauto]. intros ->. exact (hp_nowhere _ w s t p Hi Hst Hy).
    + intros [Hne [[= <-]|Hy]]; [done|by right].
  - intros n En _ c Hc. apply A2; [rewrite En, Eh, upd_eq; done|]. rewrite (serving_wiring _ _ _ Ew); [done|].
    apply Hwd. by rewrite Hv.
Qed.

(** A ready task leaves. *)
Lemma depart_ready t s w :
  npsf_inv w -> at_place w t (PReady s) -> wp (remove edf_ready_order s t) (fun _ w' => departed t s w w') w.
Proof.
  intros Hinv Hin. pose proof Hinv as [Hi Hb Hwd Hl].
  eapply wp_mono; [apply homes_frames; [eauto with litmus|by apply edf_remove_spec; [apply Hi..|]]|].
  intros _ w' [[Hm Hw'] Hho]. pose proof (moves_of_moved _ _ _ _ Hm) as M. pose proof (ms_plugin _ _ _ _ _ M) as Epl.
  assert (hp_of w' = hp_of w) as Eh by (unfold hp_of; by rewrite Epl).
  assert (sinv (hp_of w) w') as Hi' by (eapply sinv_moves; try done; apply Hi).
  assert (forall y q, at_place w' y q -> at_place w y q) as Hat by (intros y q Hq%(ms_at _ _ _ _ _ M); by case_decide).
  assert (domain_of (tasks w t) = s) as Hd by exact (si_home _ _ Hi t (PReady s) Hin).
  split; rewrite ?Eh.
  - split; rewrite ?Eh, ?Epl; try done; [|intros y p Hy%Hat; by eapply Hl]. intros s' _. specialize (Hb s' ltac:(done)).
    destruct (hp_of w s') as [n|]; simpl in *.
    + rewrite Forall_forall in *. intros e He. rewrite (order_moves t _ _ w w' e n M) by done. apply Hb, (Hat e (PReady s')), He.
    + destruct (ready_elems w' s') as [|e l] eqn:E; [done|]. destruct (not_elem_of_nil e). rewrite <- Hb.
      apply (Hat e (PReady s')). simpl. rewrite E. by left.
  - rewrite <- Hd. eapply (local_moves (hp_of w) t); [done|exact M| |done].
    split; [intros y; left; apply Hho|]. intros _. apply env_timed, Hm.
  - intros y. unfold member. setoid_rewrite (ms_at _ _ _ _ _ M). destruct (decide (y = t)) as [->|Hne]; [|naive_solver].
    split; [|by intros []]. intros [E|(p & _ & [=])]. exfalso. exact (hp_nowhere _ w s t (PReady s) Hi E Hin).
  - intros n E E'. congruence.
Qed.

Lemma depart_spec t w :
  let s := domain_of (tasks w t) in
  npsf_inv w -> in_time w -> is_Some (servers (plugin w) !! s) -> (forall d o, ~ at_place w t (PRelease d o)) ->
  wp (remove_from_server t s) (fun _ w' => departed t s w w') w.
Proof.
  intros s Hinv Ht [v Hv] Hno. pose proof Hinv as [Hi Hb Hwd Hl].
  unfold remove_from_server, get_server, get_task. wp_steps. exists v. split; [done|]. wp_steps.
  assert (highest_prio v = hp_of w s) as -> by (unfold hp_of; by rewrite Hv).
  case_decide as E; [by apply depart_head|]. apply wp_when. destruct (in_heap (tasks w t)) eqn:Eh.
  - apply depart_ready; [done|]. apply (qo_heap _ _ _ (si_dom _ _ Hi)) in Eh as [[d|d o] Hp]; [|by destruct (Hno d o)].
    pose proof (si_home _ _ Hi t (PReady d) Hp) as Ed. simpl in Ed. subst s. by rewrite Ed.
  - split; [done|done| |by intros n ? []]. intros y. split; [|by intros []]. intros Hy. split; [|done]. intros ->.
    destruct Hy as [Hy|(p & _ & Hp)]; [done|]. by apply (unqueued_nowhere edf_ready_order edf_ok w t p (si_dom _ _ Hi) Eh).
Qed.

(** ** The release timer *)

Lemma drift_timer t d order o : frames (drift t d) (on_release_timer (Q:=Q) (P:=nstate) (default_release_jobs order dummy_resched) o).
Proof. unfold on_release_timer, default_release_jobs, merge_ready, dummy_resched, get_rheap. frames_tac. Qed.

Lemma sinv_released hp o w w' :
  sinv hp w -> active w o -> released o w w' -> edom_ok w' -> homes w w' -> sinv hp w'.
Proof.
  intros Hi Ha Hrl Hw' Hho. pose proof (rl_env _ _ _ Hrl) as He.
  assert (forall y q, at_place w' y q -> exists q', at_place w y q' /\ place_dom q' = place_dom q) as Hat.
  { intros y q Hq%(rl_at _ _ _ Hrl). case_decide; [|by eauto]. subst q. by exists (PRelease (rh_dom (rheaps w o)) o). }
  split; [done|..].
  - eapply pids_unique_core; [done|apply Hi].
  - intros y. rewrite (core_field inh_task (tasks w' y) (tasks w y)) by (done || apply He). apply Hi.
  - intros s y Hy. destruct (si_hp _ _ Hi s y Hy) as (Eh & Er & Ed). split_and!; [|..|by rewrite Hho].
    + apply unqueued_heap; [done|]. intros q (q' & Hq & _)%Hat. exact (hp_nowhere _ w s y q' Hi Hy Hq).
    + by rewrite (core_field is_realtime (tasks w' y) (tasks w y)) by (done || apply He).
  - intros y q (q' & Hq & <-)%Hat. rewrite Hho. by apply (si_home _ _ Hi).
Qed.

Lemma member_released hp o w w' s y :
  edom_ok w -> active w o -> released o w w' -> member hp w' s y <-> member hp w s y.
Proof.
  intros Hw Ha Hrl. unfold member. setoid_rewrite (rl_at _ _ _ Hrl). case_decide as Hin; [|done]. apply or_iff_compat_l. split.
  - intros (p & Hp & ->). by exists (PRelease (rh_dom (rheaps w o)) o).
  - intros (p & Hp & Hq). assert (p = PRelease (rh_dom (rheaps w o)) o) as -> by (by eapply released_moves).
    by exists (PReady (rh_dom (rheaps w o))).
Qed.

Lemma npsf_timer o w :
  let s := rh_dom (rheaps w o) in
  npsf_inv w -> in_time w -> active w o ->
  wp (on_release_timer npsf_release_jobs o) (fun _ w' => npsf_inv w' /\ local_to s w w' /\
    (forall y, member (hp_of w') w' s y <-> member (hp_of w) w s y) /\ announced s w w') w.
Proof.
  intros s Hinv Ht Ha. pose proof Hinv as [Hi Hb Hwd Hl].
  assert (at_place w o (PRelease s o)) as Hpo by (split_and!; [done..|by apply (si_dom _ _ Hi)]).
  pose proof (homes_frames _ _ w (fun t d => drift_timer t d edf_ready_order o)
    (edf_timer_spec dummy_resched o w dummy_calm (si_pids _ _ Hi) (si_dom _ _ Hi) Ha)) as HT.
  unfold on_release_timer, default_release_jobs, merge_ready in HT |- *.
  unfold get_rheap, upd_rheap, upd_dom in HT |- *. wp_steps. unfold npsf_release_jobs. wp_step.
  eapply (wp_mono _ (fun _ w' => (released o w w' /\ edom_ok w') /\ homes w w')); [exact HT|].
  intros ? w1 [[Hrl Hw1] Hho]. fold s. pose proof (rl_env _ _ _ Hrl) as He. pose proof (se_plugin _ _ He) as Epl.
  assert (hp_of w1 = hp_of w) as Eh by (unfold hp_of; by rewrite Epl).
  pose proof (sinv_released _ _ _ _ Hi Ha Hrl Hw1 Hho) as Hi1.
  assert (local_to s w w1) as L1.
  { split; rewrite ?Epl; try apply He; try done; [by intros y _; apply He| |intros _; by apply env_timed].
    intros y p Hp. rewrite (rl_at _ _ _ Hrl). case_decide as Hin; [|done]. split; [intros ->; done|].
    intros Hq. by rewrite (released_moves _ _ w o y p (si_dom _ _ Hi) Ha Hin Hq) in Hp. }
  assert (ninv_at (Some s) w1) as Hinv1.
  { split; rewrite ?Eh, ?Epl; try done.
    - intros s' Hs'. apply (best_local (hp_of w) (hp_of w) s s' w w1); [done|done|done|congruence|by apply Hb].
    - intros y q Hq%(rl_at _ _ _ Hrl). case_decide; [subst q; by eapply (Hl o (PRelease s o))|by eapply Hl]. }
  eapply wp_mono; [apply reschedule_spec; [by rewrite Eh|by eapply in_time_env|rewrite Epl; by apply Hwd, (Hl o (PRelease s o))]|].
  intros ? w2 [R2 A2]. split_and!.
  - eapply ninv_rescheduled; [exact Hinv1|rewrite Epl; by apply Hwd, (Hl o (PRelease s o))|done].
  - etransitivity; [exact L1|apply R2].
  - intros y. rewrite (rs_member _ _ _ R2), Eh. exact (member_released _ o w w1 s y (si_dom _ _ Hi) Ha Hrl).
  - unfold announced in *. by rewrite Eh, Epl in A2.
Qed.

(** ** Claims *)

(** A task that wakes up joins its server with a released job; afterwards the
    head of every server is again its best task and runnable, no other task has
    moved, and if the server has got another head, the processor that executes it
    has been asked to reschedule. *)
Theorem npsf_wake_up_correct t w :
  npsf_inv w -> time_ok w -> is_realtime (tasks w t) = true -> outside w t ->
  is_Some (servers (plugin w) !! domain_of (tasks w t)) ->
  wp (npsf_task_wake_up t) (fun _ w' => joined t (domain_of (tasks w t)) w w') w.
Proof. apply serv_wake_up. Qed.

(** A task that blocks or exits leaves its server; the server goes on with
    its best task, and the processor that executes it is told. *)
Theorem npsf_leave_correct t w :
  npsf_inv w -> in_time w -> is_realtime (tasks w t) = true -> is_Some (servers (plugin w) !! domain_of (tasks w t)) ->
  (forall d o, ~ at_place w t (PRelease d o)) ->
  wp (npsf_task_block t) (fun _ w' => departed t (domain_of (tasks w t)) w w') w /\
  wp (npsf_task_exit t) (fun _ w' => departed t (domain_of (tasks w t)) w w') w.
Proof.
  intros Hi Ht Hr Hs Hno. unfold npsf_task_block, npsf_task_exit, get_task.
  split; (wp_steps; [by rewrite Hr|by apply depart_spec]).
Qed.

(** When the timer of a release heap fires, its tasks become ready in their
    server, whose head is the best task again; no task is lost or changes its
    server, and the processor that executes it is told. *)
Theorem npsf_release_correct o w :
  npsf_inv w -> in_time w -> active w o ->
  wp (on_release_timer npsf_release_jobs o) (fun _ w' => npsf_inv w' /\ local_to (rh_dom (rheaps w o)) w w' /\
    (forall y, member (hp_of w') w' (rh_dom (rheaps w o)) y <-> member (hp_of w) w (rh_dom (rheaps w o)) y) /\
    announced (rh_dom (rheaps w o)) w w') w.
Proof. apply npsf_timer. Qed.

End Tasks.
