(* ===== verification/NpsSched.v ===== *)
(** * NPS-F: the scheduler

    [npsf_schedule_server] completes the job of the task that ran, and
    [npsf_schedule] picks the head of the server whose reserve is eligible
    (src/litmus2010/litmus/sched_npsf.c). *)

From stdpp Require Import sorting.
From S2P Require Import Prelude Task Edf PrioQueue Kernel RtDomain RtInv EdfDomain Partitioned Frames.
From S2P Require Import NpsF NpsInv NpsServer NpsTask.
Open Scope Z_scope.

(** A task whose deadline is put off beats no task it did not beat before. *)
Lemma edf_later T T' a b :
  pids_unique T -> pids_unique T' -> no_inheritance T -> no_inheritance T' ->
  edf_ok T a -> edf_ok T b -> edf_ok T' a -> edf_ok T' b -> pid (T' a) = pid (T a) -> same_prio (T' b) (T b) ->
  get_deadline (T a) <= get_deadline (T' a) -> edf_ready_order T a b = false -> edf_ready_order T' a b = false.
Proof.
  intros Hu Hu' Hn Hn' Oa Ob Oa' Ob' Hp (_ & Ep & _ & Ed) Hd. rewrite !(edf_ready_order_key _ 0) by done.
  unfold edf_key, eff. rewrite !Hn, !Hn'. simpl. change (deadline (job_params (T' b)) = deadline (job_params (T b))) in Ed.
  unfold get_deadline in *. rewrite Hp, Ep, Ed.
  rewrite !orb_false_iff, !andb_false_iff, !orb_false_iff, !Z.ltb_ge, !Z.eqb_neq. intuition lia.
Qed.

Section Change.
Context {Q : Type -> Type} `{PrioQueueLaws Q} {P : Type}.
Implicit Types (w : world Q P) (t : tid) (d : Z).

(** A ready task changes while it is queued and is then removed: the heap need
    not compare it any more. *)
Lemma remove_changed t f d w :
  edom_ok w -> pids_unique (tasks w) -> no_inheritance (tasks w) -> at_place w t (PReady d) ->
  inh_task (f (tasks w t)) = None ->
  wp (upd_task t f;; remove edf_ready_order d t)
    (fun _ w' => moves t (f (tasks w t)) None w w' /\ edom_ok w') w.
Proof.
  intros Hw Hu Hni Hin Hinh. pose proof (edf_remove_spec d t w Hu Hw Hin) as Hrm.
  unfold remove, get_dom, upd_dom, upd_task in *.
  autorewrite with wp in Hrm. destruct Hrm as (q & Eq & Hrm). autorewrite with wp in Hrm. destruct Hrm as [Hm Hw1].
  set (T1 := upd (tasks w) t (f (tasks w t))). wp_steps. simpl. exists q. split.
  - rewrite <- Eq. pose proof (qo_nodup_ready _ _ _ Hw d) as Hnd. unfold ready_elems in Hnd.
    assert (exists r, pq_elems (ready_queue (doms w d)) ≡ₚ t :: r) as [r Er] by (by apply elem_of_Permutation).
    rewrite Er in Hnd. apply NoDup_cons in Hnd as [Hnt _].
    eapply pq_delete_ext; [exact Er|by apply bool_decide_eq_true|..].
    + apply Forall_forall. intros e He. apply bool_decide_false. by intros ->.
    + intros a b Ha Hb. assert (no_inheritance T1) as Hni1 by (intros y; unfold T1, upd; by case_decide).
      apply edf_order_local; [done|done|..]; unfold T1; apply upd_ne; by intros ->.
  - wp_steps. simpl. set (w1 := set_tasks _ (set_doms _ w)) in *. set (w2 := set_tasks _ _).
    assert (moves t (tasks w t) None w w1) as M1 by exact (moves_of_moved _ _ _ _ Hm).
    assert (in_heap (tasks w1 t) = false) as Hh by (simpl; by rewrite upd_eq).
    set (x := set_in_heap false (f (tasks w t))).
    assert (tasks w1 t = set_in_heap false (tasks w t)) as Ex by (simpl; by rewrite upd_eq).
    assert (no_inheritance (tasks w1)) as Hni1 by (intros y; simpl; unfold upd; case_decide; [subst; exact (Hni t)|apply Hni]).
    destruct (edom_ok_upd w1 t x Hw1 Hh) as [Hw3 _]; [done|done|by destruct (f (tasks w t))|].
    assert (forall y, tasks w2 y = upd (tasks w1) t x y) as Et.
    { intros y. simpl. unfold upd, x, T1, upd. by repeat case_decide. }
    set (w3 := set_tasks (upd (tasks w1) t x) w1) in *.
    destruct (dom_ok_ext edf_ready_order edf_ok edf_order_core edf_ok_core w3 w2 Hw3) as [Hq Hw2]; [|done|done|by intros y; rewrite Et|].
    { split; try done. intros y. by rewrite Et. }
    split; [|done]. eapply moves_quiet; [|exact Hq]. eapply moves_core_eq; [|eapply (moves_trans t); [exact M1|]].
    + instantiate (1 := x). by destruct (f (tasks w t)).
    + apply moves_upd. intros p Hp%(ms_at _ _ _ _ _ M1). by rewrite decide_True in Hp.
Qed.

End Change.

Section Sched.
Context {Q : Type -> Type} `{PrioQueueLaws Q}.
Abbreviation world := (world Q nstate).
Abbreviation K := (M world).
Implicit Types (w : world) (t y prev : tid) (s : Z) (hp : Z -> option tid) (v : npsf_server).

(** ** The job of the task that ran completes *)

(** The task after [job_completion] *)
Definition next_job (x : task_struct) : task_struct := prepare_for_next_period (set_rt_flags RT_F_SLEEP x).

Lemma next_job_times w t :
  time_ok w -> is_realtime (tasks w t) = true ->
  get_release (next_job (tasks w t)) = get_deadline (tasks w t) /\
  get_deadline (next_job (tasks w t)) = get_deadline (tasks w t) + get_rt_period (tasks w t) /\
  0 <= get_release (next_job (tasks w t)) < two63 /\ 0 <= get_deadline (next_job (tasks w t)) < two63.
Proof.
  intros Ht Hr. destruct (to_task _ Ht t Hr) as (_ & Hd & Hp & Hdp & _).
  destruct (next_job_window (set_rt_flags RT_F_SLEEP (tasks w t)) Hd Hp Hdp) as (Er & Ed & _).
  change (get_release (next_job (tasks w t)) = get_deadline (tasks w t)) in Er.
  change (get_deadline (next_job (tasks w t)) = get_deadline (tasks w t) + get_rt_period (tasks w t)) in Ed.
  rewrite Er, Ed. split_and!; lia.
Qed.

(** It was the head: the next task takes its place. *)
Lemma complete_head prev s w :
  npsf_inv w -> time_ok w -> hp_of w s = Some prev ->
  wp (npsf_job_completion prev;; npsf_requeue prev s;; n ← __take_ready edf_ready_order s; upd_server s (set_highest_prio n))
    (fun _ w' => rescheduled s w w') w.
Proof.
  intros Hinv Ht Hs. pose proof Hinv as [Hi _ _ _]. destruct (si_hp _ _ Hi s prev Hs) as (Hh & Hr & Hd).
  destruct (next_job_times w prev Ht Hr) as (_ & _ & Hrel & Hdl).
  assert (forall p, ~ at_place w prev p) as Hno by (intros p; exact (hp_nowhere _ w s prev p Hi Hs)).
  unfold npsf_job_completion, upd_task. wp_steps. set (w1 := set_tasks _ w).
  destruct (edom_ok_upd w prev (next_job (tasks w prev)) (si_dom _ _ Hi) Hh Hh (si_inh _ _ Hi) (si_inh _ _ Hi prev)) as [Hw1 _].
  assert (moves prev (next_job (tasks w prev)) None w w1) as M1 by (by apply moves_upd).
  assert (homes w w1) as Hho by (intros y; simpl; unfold upd; case_decide; by subst).
  assert (sinv (hp_of w) w1) as Hi1 by (eapply sinv_moves; try done; apply Hi).
  assert (tasks w1 prev = next_job (tasks w prev)) as Ex by (simpl; by rewrite upd_eq).
  pose proof (serv_requeue (upd (hp_of w) s None) prev w1) as HR. cbn zeta in HR. rewrite Hho, Hd in HR.
  eapply wp_mono; [apply HR; [by apply sinv_drop|apply Ht|by split; rewrite ?Ex|]|]; clear HR.
  { intros s'. unfold upd. case_decide; [done|]. intros E. by destruct (hp_once _ w s s' prev Hi Hs E). }
  intros _ w2 (Hi2 & L2 & p & Hp & M2). unfold hp_of in Hs. destruct (servers (plugin w) !! s) as [v|] eqn:Hv; [|done].
  assert (plugin w2 = plugin w) as Epl by exact (ms_plugin _ _ _ _ _ M2).
  eapply wp_mono; [apply (take_hp_spec _ s v w2 Hi2); [by rewrite upd_eq| |by rewrite Epl]|].
  { intros s' Hs'. rewrite upd_ne by done. unfold hp_of. by rewrite Epl. }
  intros _ w3 [n [Hi3 Hhp3 Hb3 L3 _ _ _ Hm3]]. split; [done|by rewrite Hhp3, upd_eq| |].
  - transitivity w1; [|by transitivity w2]. rewrite <- Hd. eapply (local_moves (hp_of w) prev); [done|exact M1| |done].
    split; [intros y; left; apply Hho|]. intros _. by apply timed_same.
  - intros y. rewrite Hm3. pose proof (member_queued (upd (hp_of w) s None) _ _ _ _ _ y M2) as E. rewrite Hp in E. rewrite E.
    unfold member. rewrite upd_eq. setoid_rewrite (ms_at _ _ _ _ _ M1). unfold hp_of. rewrite Hv. simpl in *. rewrite Hs.
    destruct (decide (y = prev)) as [->|Hne]; [|naive_solver]. split; [by left|by left].
Qed.

(** A ready task whose deadline is put off does not displace the head. *)
Lemma late_best prev x p s w w' :
  npsf_inv w -> in_time w -> at_place w prev (PReady s) -> sinv (hp_of w) w' -> moves prev x (Some p) w w' ->
  pid x = pid (tasks w prev) -> is_realtime x = true ->
  get_deadline (tasks w prev) <= get_deadline x < two63 -> best w' s (hp_of w s).
Proof.
  intros [Hi Hb _ _] Ht Hin Hi' M Hpid Hr Hd. specialize (Hb s ltac:(done)). destruct (hp_of w s) as [h|] eqn:Es; simpl in *.
  2: { rewrite Hb in Hin. by apply elem_of_nil in Hin. }
  assert (h <> prev) as Hne by (intros ->; exact (hp_nowhere _ w s prev (PReady s) Hi Es Hin)).
  assert (forall y, y <> prev -> core (tasks w' y) = core (tasks w y)) as Hc.
  { intros y Hy. rewrite (ms_core _ _ _ _ _ M). by rewrite decide_False. }
  pose proof (ms_core _ _ _ _ _ M prev) as Ec. rewrite decide_True in Ec by done.
  pose proof (core_field get_deadline _ _ (fun _ => eq_refl) Ec) as Ed.
  destruct (si_hp _ _ Hi s h Es) as (_ & Hrh & _). pose proof (ready_realtime _ _ _ _ Hi Hin) as Hrp.
  destruct (it_task _ Ht h Hrh) as (_ & Hdh & _). destruct (it_task _ Ht prev Hrp) as (_ & Hdp & _).
  rewrite !Forall_forall in *. intros e He. apply (ms_at _ _ _ _ _ M e (PReady s)) in He. case_decide as E.
  - subst e. apply (edf_later (tasks w)); try apply Hi; try apply Hi'; auto using core_same_prio.
    + apply edf_ok_intro; [apply Hi|done|done].
    + apply edf_ok_intro; [apply Hi|done|done].
    + apply edf_ok_intro; [apply Hi'| |rewrite Ed; lia]. by rewrite (core_field is_realtime _ _ (fun _ => eq_refl) Ec).
    + apply edf_ok_intro; [apply Hi'|..].
      * by rewrite (core_field is_realtime _ _ (fun _ => eq_refl) (Hc h Hne)).
      * by rewrite (core_field get_deadline _ _ (fun _ => eq_refl) (Hc h Hne)).
    + by rewrite (core_field pid _ _ (fun _ => eq_refl) Ec).
    + rewrite Ed. lia.
  - rewrite (edf_order_same (tasks w)); [by apply Hb|apply Hi|apply Hi'|..]; apply core_same_prio; auto.
Qed.

Lemma drift_complete prev s t d :
  frames (drift t d) (npsf_job_completion (Q:=Q) prev;; remove edf_ready_order s prev).
Proof. unfold npsf_job_completion. frames_tac. Qed.

(** It was preempted: it stays behind the head. *)
Lemma complete_ready prev s w :
  npsf_inv w -> time_ok w -> at_place w prev (PReady s) ->
  wp (npsf_job_completion prev;; remove edf_ready_order s prev;; npsf_requeue prev s) (fun _ w' => rescheduled s w w') w.
Proof.
  intros Hinv Ht Hin. pose proof Hinv as [Hi Hb _ _]. pose proof (ready_realtime _ _ _ _ Hi Hin) as Hr.
  assert (domain_of (tasks w prev) = s) as Hd by exact (si_home _ _ Hi prev (PReady s) Hin).
  destruct (next_job_times w prev Ht Hr) as (_ & Ed & Hrel & Hdl).
  assert (forall s', hp_of w s' <> Some prev) as Hnh by (intros s' E; exact (hp_nowhere _ w s' prev (PReady s) Hi E Hin)).
  pose proof (still_frames _ _ w (drift_complete prev s)
    (remove_changed prev next_job s w (si_dom _ _ Hi) (si_pids _ _ Hi) (si_inh _ _ Hi) Hin (si_inh _ _ Hi prev))) as HC.
  wp_steps. apply wp_bind in HC. eapply wp_mono; [exact HC|]. clear HC. intros ? w0 HC. wp_steps.
  eapply wp_mono; [exact HC|]. clear HC w0. intros ? w1 ([M1 Hw1] & Hho & Htm).
  assert (sinv (hp_of w) w1) as Hi1 by (eapply sinv_moves; try done; apply Hi).
  pose proof (ms_core _ _ _ _ _ M1 prev) as Ec. rewrite decide_True in Ec by done.
  assert (queueable w1 prev) as Hq1.
  { split; [apply unqueued_heap; [done|]; intros p Hp%(ms_at _ _ _ _ _ M1); by rewrite decide_True in Hp|..].
    - by rewrite (core_field is_realtime _ _ (fun _ => eq_refl) Ec).
    - by rewrite (core_field get_deadline _ _ (fun _ => eq_refl) Ec).
    - by rewrite (core_field get_release _ _ (fun _ => eq_refl) Ec). }
  pose proof (serv_requeue (hp_of w) prev w1) as HR. cbn zeta in HR. rewrite Hho, Hd in HR.
  destruct (Htm (to_clock _ Ht)) as (_ & Hck & _).
  eapply wp_mono; [apply HR; [done|apply Hck, Ht|done|done]|]. clear HR. intros _ w2 (Hi2 & L2 & p & Hp & M2).
  assert (moves prev (set_rt_flags RT_F_RUNNING (next_job (tasks w prev))) (Some p) w w2) as M.
  { eapply moves_core_eq; [|eapply moves_trans; [exact M1|exact M2]].
    apply (core_congr (set_rt_flags RT_F_RUNNING)); [core_tac|done]. }
  assert (hp_of w2 = hp_of w) as Eh by (unfold hp_of; by rewrite (ms_plugin _ _ _ _ _ M)). split; rewrite ?Eh; [done|..].
  - eapply (late_best prev _ p s w w2); try done; [by apply time_ok_in_time|].
    destruct (to_task _ Ht prev Hr) as (_ & _ & ? & ? & _).
    change (get_deadline (tasks w prev) <= get_deadline (next_job (tasks w prev)) < two63). lia.
  - transitivity w1; [|done]. rewrite <- Hd. eapply (local_moves (hp_of w) prev); [done|exact M1| |done].
    split; [intros y; left; apply Hho|done].
  - intros y. pose proof (member_queued (hp_of w) _ _ _ _ _ y M) as E. rewrite Hp in E. rewrite E.
    split; [|by right]. intros [->|?]; [|done]. right. by exists (PReady s).
Qed.

(** ** npsf_schedule_server *)

(** What the scheduler expects of the task that ran in the server: it is the
    head, or was preempted and is ready; a task that has blocked has left. *)
Record ran_in s prev w : Prop := {
  ri_running : is_running (tasks w prev) = true -> hp_of w s = Some prev \/ at_place w prev (PReady s);
  ri_blocked : is_running (tasks w prev) = false -> hp_of w s <> Some prev
}.

Lemma rescheduled_refl s w : npsf_inv w -> rescheduled s w w.
Proof. intros [Hi Hb _ _]. split; [done|by apply Hb|done|done]. Qed.

Lemma serv_schedule prev s w :
  npsf_inv w -> time_ok w -> is_Some (servers (plugin w) !! s) -> (is_realtime (tasks w prev) = true -> ran_in s prev w) ->
  wp (npsf_schedule_server prev s) (fun _ w' => rescheduled s w w') w.
Proof.
  intros Hinv Ht [v Hv] Hran. unfold npsf_schedule_server, get_task, get_server. wp_steps.
  assert (highest_prio v = hp_of w s) as Ehp by (unfold hp_of; by rewrite Hv).
  set (x := tasks w prev). set (blocks := is_realtime x && negb (is_running x)).
  apply (wp_mono _ (fun _ w' => rescheduled s w w' /\ (blocks = true -> w' = w))).
  - apply wp_when. destruct (_ && negb blocks) eqn:Ec; [|split; [by apply rescheduled_refl|done]].
    apply andb_true_iff in Ec as [Ec Eb%negb_true_iff].
    assert (is_realtime x = true) as Hr by (by destruct (is_realtime x)).
    assert (is_running x = true) as Hrun by (unfold blocks in Eb; rewrite Hr in Eb; by destruct (is_running x)).
    destruct (decide (hp_of w s = Some prev)) as [Hs|Hs].
    + pose proof (complete_head prev s w Hinv Ht Hs) as HC. unfold npsf_job_completion, upd_task in *.
      apply wp_bind in HC. apply wp_modify in HC. wp_steps. exists v. split; [done|].
      rewrite Ehp, (bool_decide_false (hp_of w s <> Some prev)), (bool_decide_true (hp_of w s = Some prev)) by (done || by intros Hn; apply Hn). wp_steps. apply wp_when. wp_steps.
      apply wp_bind in HC. eapply wp_mono; [exact HC|]. intros ? w1 HC1. apply wp_when. eapply wp_mono; [exact HC1|].
      intros ? w2 R. split; [done|]. rewrite Eb. done.
    + destruct (ri_running _ _ _ (Hran Hr) Hrun) as [?|Hin]; [done|].
      pose proof (complete_ready prev s w Hinv Ht Hin) as HC. unfold npsf_job_completion, upd_task in *.
      apply wp_bind in HC. apply wp_modify in HC. wp_steps. exists v. split; [done|].
      rewrite Ehp, (bool_decide_true (hp_of w s <> Some prev)), (bool_decide_false (hp_of w s = Some prev)) by done. wp_steps. apply wp_when. wp_steps.
      { simpl. rewrite upd_eq. apply negb_false_iff. change (in_heap (tasks w prev) = true).
        apply (qo_heap _ _ _ (si_dom _ _ (ni_serv _ _ Hinv))). eauto. }
      apply wp_bind in HC. eapply wp_mono; [exact HC|]. intros ? w1 HC1. wp_steps. eapply wp_mono; [exact HC1|].
      intros ? w2 R. apply wp_when. split; [done|]. rewrite Eb. done.
  - intros _ w1 [R1 Hbl]. wp_steps.
    assert (is_Some (servers (plugin w1) !! s)) as [v1 Hv1].
    { eapply wiring_live; [symmetry; apply (lc_wiring _ _ _ (rs_local _ _ _ R1))|eauto]. }
    exists v1. split; [done|]. wp_steps; [|done]. unfold blocks in *.
    destruct (is_realtime x && negb (is_running x)) eqn:Eb; [|done]. rewrite (Hbl eq_refl) in Hv1. simplify_eq.
    simpl. apply bool_decide_false. rewrite Ehp. apply andb_true_iff in Eb as [Hr Hnr%negb_true_iff].
    by apply (ri_blocked _ _ _ (Hran Hr)).
Qed.

End Sched.
