(* ===== verification/NpsTime.v ===== *)
(** * NPS-F: slots, reserves and the switching timer

    The time arithmetic of src/litmus2010/litmus/sched_npsf.c: which reserve of
    a processor is eligible at a given time, and when the next switch is.  The
    specification is the position of the time in its slot,
    [(now - time_origin) mod npsf_slot_length]. *)

From stdpp Require Import sorting.
From S2P Require Import Prelude Task Edf PrioQueue Kernel RtDomain RtInv EdfDomain Partitioned NpsF.
Open Scope Z_scope.

(** ** The slot *)

Definition slot_offset (g : nstate) (now : Z) : Z := (now - time_origin g) `mod` npsf_slot_length g.

(** Time has not wrapped since the plugin was activated. *)
Definition since_origin (g : nstate) (now : Z) : Prop := 0 <= time_origin g <= now /\ now < two64.

Lemma slot_begin_spec g now :
  0 < npsf_slot_length g -> since_origin g now ->
  slot_begin g now = Some (now - slot_offset g now) /\ 0 <= slot_offset g now < npsf_slot_length g /\
  time_origin g <= now - slot_offset g now.
Proof.
  intros HL [Ho Hn]. unfold slot_begin, slot_offset. destruct (Z.eqb_spec (npsf_slot_length g) 0); [lia|].
  pose proof (Z.mod_pos_bound (now - time_origin g) (npsf_slot_length g) HL) as Hb.
  pose proof (Z.div_mod (now - time_origin g) (npsf_slot_length g)) as Hdm.
  pose proof (Z.div_pos (now - time_origin g) (npsf_slot_length g)) as Hdp.
  set (q := (now - time_origin g) / npsf_slot_length g) in *. set (r := (now - time_origin g) `mod` npsf_slot_length g) in *.
  assert (0 <= q) by (apply Hdp; lia). assert (0 <= q * npsf_slot_length g) by nia.
  rewrite (u64_id (now - time_origin g)) by (unfold is_u64, two64 in *; lia). fold q.
  rewrite (u64_id (q * npsf_slot_length g)) by (unfold is_u64, two64 in *; lia).
  rewrite u64_id by (unfold is_u64, two64 in *; lia). split_and!; [f_equal; lia|lia|lia|lia].
Qed.

Lemma delta_spec g now :
  0 < npsf_slot_length g -> since_origin g now -> delta_from_slot_begin g now = Some (slot_offset g now).
Proof.
  intros HL Hs. destruct (slot_begin_spec g now HL Hs) as (E & Hb & Ho). unfold delta_from_slot_begin. rewrite E. simpl.
  f_equal. destruct Hs. rewrite u64_id; [lia|]. unfold is_u64. lia.
Qed.

(** ** The reserves of a slot *)

(** The reserve [r] has the part of the slot from [from] to [to]. *)
Inductive window (g : nstate) : Z -> list positive -> positive -> Z -> Z -> Prop :=
  | window_here r l from b : budget_of g r = Some b -> window g from (r :: l) r from (from + b)
  | window_later a l r start b from to :
      budget_of g a = Some b -> window g (start + b) l r from to -> window g start (a :: l) r from to.

(** The budgets of the list, none negative, that end before time wraps *)
Inductive budgeted (g : nstate) : list positive -> Z -> Prop :=
  | budgeted_nil : budgeted g [] 0
  | budgeted_cons r l b total :
      budget_of g r = Some b -> 0 <= b -> budgeted g l total -> budgeted g (r :: l) (b + total).

Lemma budgeted_nonneg g l total : budgeted g l total -> 0 <= total.
Proof. induction 1; lia. Qed.

Lemma window_elem g start l r from to : window g start l r from to -> r ∈ l.
Proof. induction 1; [by left|by right]. Qed.

Lemma window_bounds g start l r from to total :
  window g start l r from to -> budgeted g l total -> start <= from /\ from <= to /\ to <= start + total.
Proof.
  intros Hw. revert total. induction Hw as [r l from b Hb|a l r start b from to Hb Hw IH]; intros total Ht;
    inversion Ht as [|? ? b' total' Hb' H0 Hrest]; simplify_eq; pose proof (budgeted_nonneg _ _ _ Hrest).
  - lia.
  - specialize (IH _ Hrest). lia.
Qed.

(** The search finds the reserve whose part of the slot contains the offset, and
    falls off the list exactly when the budgets do not reach that far. *)
Lemma search_spec g l total offset start :
  budgeted g l total -> 0 <= start <= offset -> start + total < two64 ->
  match reserve_for_offset (budget_of g) l offset start with
  | Some (r, to) => exists from, window g start l r from to /\ from <= offset < to
  | None => start + total <= offset
  end.
Proof.
  intros Ht. revert start. induction Ht as [|r l b total Hb H0 Ht IH]; intros start Hs Hw; simpl; [lia|].
  rewrite Hb. simpl. pose proof (budgeted_nonneg _ _ _ Ht). rewrite u64_id by (unfold is_u64; lia).
  destruct (Z.ltb_spec offset (start + b)) as [Hlt|Hge].
  - exists start. split; [by constructor|lia].
  - specialize (IH (start + b) ltac:(lia) ltac:(lia)). destruct (reserve_for_offset _ _ _ _) as [[r' to]|]; [|lia].
    destruct IH as (from & Hwin & Hin). exists from. split; [by econstructor|done].
Qed.

(** At most one reserve is eligible at a time. *)
Lemma window_unique g start l r from to r' from' to' total x :
  window g start l r from to -> window g start l r' from' to' -> budgeted g l total ->
  from <= x < to -> from' <= x < to' -> r = r' /\ from = from' /\ to = to'.
Proof.
  intros Hw. revert r' from' to' total. induction Hw as [r l from b Hb|a l r start b from to Hb Hw IH];
    intros r' from' to' total Hw' Ht Hx Hx'; inversion Ht as [|? ? b0 total' Hb0 H0 Hrest]; subst;
    inversion Hw' as [? ? ? b' Hb'|? ? ? ? b' ? ? Hb' Hw2]; simplify_eq; try done.
  - destruct (window_bounds _ _ _ _ _ _ _ Hw2 Hrest). lia.
  - destruct (window_bounds _ _ _ _ _ _ _ Hw Hrest). lia.
  - by eapply IH.
Qed.

Section Time.
Context {Q : Type -> Type} `{PrioQueueLaws Q}.
Abbreviation world := (world Q nstate).
Implicit Types (w : world) (c : Z).

(** The reserve [r] of the processor [c] is eligible at the time [now]. *)
Definition eligible (g : nstate) c (now : Z) (r : positive) (to : Z) : Prop :=
  exists from, window g 0 (npsf_reserves (npsf_cpu_entries g c)) r from to /\ from <= slot_offset g now < to.

(** The slot is [total] long or shorter, and the clock has not wrapped. *)
Record slotted (g : nstate) c (total lo hi : Z) : Prop := {
  sl_length : 0 < npsf_slot_length g;
  sl_budgets : budgeted g (npsf_reserves (npsf_cpu_entries g c)) total;
  sl_fits : 4 * total < two63;
  sl_origin : 0 <= time_origin g <= lo;
  sl_end : hi < two63
}.

Lemma slotted_since g c total lo hi now : slotted g c total lo hi -> lo <= now <= hi -> since_origin g now.
Proof. intros [] Hn. unfold since_origin, two63, two64 in *. lia. Qed.

Lemma offset_spec g c total lo hi now :
  slotted g c total lo hi -> lo <= now <= hi ->
  match get_reserve_for_offset g (npsf_cpu_entries g c) (slot_offset g now) with
  | Some (r, to) => eligible g c now r to
  | None => total <= slot_offset g now
  end.
Proof.
  intros Hs Hn. destruct (slot_begin_spec g now (sl_length _ _ _ _ _ Hs) (slotted_since _ _ _ _ _ _ Hs Hn)) as (_ & Hb & _).
  pose proof (search_spec g _ total (slot_offset g now) 0 (sl_budgets _ _ _ _ _ Hs)) as HS. unfold get_reserve_for_offset, eligible.
  destruct Hs as [_ _ Hf _ _]. unfold two63, two64 in *. apply HS; lia.
Qed.

(** ** The eligible reserve *)

Lemma current_reserve_spec c total w :
  slotted (plugin w) c total (clock w) (time_end w) -> clock_ok w -> npsf_slot_length (plugin w) <= total ->
  wp (get_current_reserve c) (fun r w' => exists now ds to,
    w' = clock_to now ds w /\ clock w <= now <= time_end w /\ clock_ok w' /\ time_end w' = time_end w /\
    eligible (plugin w) c now r to) w.
Proof.
  intros Hs Hc Hl. unfold get_current_reserve. wp_steps. apply clock_spec; [done|]. intros now ds Hn Hck Hte. wp_steps.
  change (plugin (clock_to now ds w)) with (plugin w). set (g := plugin w) in *.
  pose proof (slotted_since _ _ _ _ _ _ Hs Hn) as Hso. destruct (slot_begin_spec g now (sl_length _ _ _ _ _ Hs) Hso) as (_ & Hb & _).
  exists (slot_offset g now). split; [by apply delta_spec; [apply Hs|]|]. wp_steps.
  pose proof (offset_spec g c total _ _ now Hs Hn) as HS. destruct (get_reserve_for_offset _ _ _) as [[r to]|]; [|lia].
  exists (r, to). split; [done|]. wp_steps. exists now, ds, to. split_and!; try done; lia.
Qed.

(** Budgets that do not fill the slot stop the machine. *)
Lemma current_reserve_bug c total w :
  slotted (plugin w) c total (clock w) (clock w) -> elapse w = [] -> total <= slot_offset (plugin w) (clock w) ->
  get_current_reserve c w = None.
Proof.
  intros Hs He Ht. unfold get_current_reserve, litmus_clock. unfold mbind, M_bind at 1. rewrite He. cbn -[u64].
  assert (clock w <= clock w <= clock w) as Hn by lia. pose proof (slotted_since _ _ _ _ _ _ Hs Hn) as Hso.
  rewrite (delta_spec (plugin w) (clock w)); [|apply Hs|done]. cbn -[u64].
  pose proof (search_spec (plugin w) _ total (slot_offset (plugin w) (clock w)) 0 (sl_budgets _ _ _ _ _ Hs)) as HS.
  destruct (slot_begin_spec _ _ (sl_length _ _ _ _ _ Hs) Hso) as (_ & Hb & _). destruct Hs as [_ Hbud Hf _ _]. unfold two63, two64 in *.
  unfold get_reserve_for_offset. destruct (reserve_for_offset _ _ _ _) as [[r to]|]; [|done].
  destruct HS as (from & Hw & Hin); [lia|lia|]. destruct (window_bounds _ _ _ _ _ _ _ Hw Hbud). lia.
Qed.

(** ** The next switch *)

(** The reserves of the processor exist, and their servers do. *)
Definition hosted (g : nstate) c : Prop :=
  forall r, r ∈ npsf_reserves (npsf_cpu_entries g c) ->
    exists x s v, reserves g !! r = Some x /\ r_server x = Some s /\ servers g !! s = Some v.

Lemma node_after_some first r l : r ∈ l -> exists n, node_after first r l = Some n /\ (n = first \/ n ∈ l).
Proof.
  induction l as [|a l IH]; [by intros ?%elem_of_nil|]. simpl. intros Hr. case_decide as E.
  - destruct l as [|b l]; eexists; (split; [done|]); [by left|right; right; by left].
  - apply elem_of_cons in Hr as [?|Hr]; [congruence|]. destruct (IH Hr) as (n & -> & Hn). exists n. split; [done|].
    destruct Hn; [by left|right; by right].
Qed.

Lemma next_reserve_some r e : r ∈ npsf_reserves e -> exists n, local_next_reserve r e = Some n /\ n ∈ npsf_reserves e.
Proof.
  intros Hr. unfold local_next_reserve. destruct (npsf_reserves e) as [|f l] eqn:E; [by apply elem_of_nil in Hr|]. simpl head.
  destruct (node_after_some f r (f :: l) Hr) as (n & En & Hn). exists n. split; [exact En|]. destruct Hn; [subst; by left|done].
Qed.

(** The time by which the timer of the processor is set, when [r] is eligible at
    [now]: the end of [r], or of the reserve after it if that one is a later part
    of a migrating server. *)
Definition switch_time (g : nstate) c (now next : Z) : Prop :=
  exists r to n x s v, eligible g c now r to /\ local_next_reserve r (npsf_cpu_entries g c) = Some n /\
    reserves g !! n = Some x /\ r_server x = Some s /\ servers g !! s = Some v /\
    next = now - slot_offset g now + to + (if decide (first_reserve v = Some n) then 0 else budget x).

Lemma budgeted_elem g l total r b : budgeted g l total -> r ∈ l -> budget_of g r = Some b -> 0 <= b <= total.
Proof.
  induction 1 as [|r' l b' total Hb H0' Ht IH]; [by intros ?%elem_of_nil|]. intros Hr Hbr. pose proof (budgeted_nonneg _ _ _ Ht).
  apply elem_of_cons in Hr as [->|Hr]; [simplify_eq; lia|]. specialize (IH Hr Hbr). lia.
Qed.

Lemma next_switch_spec total w :
  let c := this_cpu w in
  slotted (plugin w) c total (clock w) (time_end w) -> clock_ok w -> npsf_slot_length (plugin w) <= total -> hosted (plugin w) c ->
  wp get_next_reserve_switch_time (fun next w' => exists now ds, w' = clock_to now ds w /\ clock w <= now <= time_end w /\
    clock_ok w' /\ time_end w' = time_end w /\ switch_time (plugin w) c now next /\ now < next < two64) w.
Proof.
  intros c Hs Hc Hl Hh. unfold get_next_reserve_switch_time, get_entry, get_reserve, server_of, get_reserve, get_server.
  wp_steps. apply clock_spec; [done|]. intros now ds Hn Hck Hte. wp_steps. fold c.
  change (plugin (clock_to now ds w)) with (plugin w). set (g := plugin w) in *. set (e := npsf_cpu_entries g c).
  pose proof (slotted_since _ _ _ _ _ _ Hs Hn) as Hso.
  destruct (slot_begin_spec g now (sl_length _ _ _ _ _ Hs) Hso) as (Eb & Hb & Ho).
  exists (now - slot_offset g now). split; [done|]. wp_steps.
  replace (u64 (now - (now - slot_offset g now))) with (slot_offset g now).
  2: { destruct Hso. rewrite u64_id; [lia|]. unfold is_u64. lia. }
  pose proof (offset_spec g c total _ _ now Hs Hn) as HS. fold e in HS.
  destruct (get_reserve_for_offset g e (slot_offset g now)) as [[r to]|] eqn:Er; [|lia]. exists (r, to). split; [done|].
  pose proof HS as (from & Hw & Hin). destruct (window_bounds _ _ _ _ _ _ _ Hw (sl_budgets _ _ _ _ _ Hs)) as (_ & _ & Hto).
  destruct (next_reserve_some r e (window_elem _ _ _ _ _ _ Hw)) as (n & En & Hne).
  destruct (Hh n Hne) as (x & s & v & Hx & Hsx & Hv).
  assert (budget_of g n = Some (budget x)) as Hbn by (unfold budget_of; by rewrite Hx).
  pose proof (budgeted_elem _ _ _ _ _ (sl_budgets _ _ _ _ _ Hs) Hne Hbn) as Hbx.
  wp_steps. exists n. split; [done|]. wp_steps. exists x. split; [done|]. wp_steps. exists x. split; [done|]. wp_steps.
  exists s. split; [done|]. wp_steps. exists v. split; [done|]. wp_steps. exists now, ds. simpl fst. simpl snd.
  assert (0 <= total /\ 4 * total < two63 /\ 0 <= time_origin g /\ time_end w < two63) as (? & ? & ? & ?).
  { split; [by eapply budgeted_nonneg, Hs|]. destruct Hs as [_ _ ? ? ?]. lia. }
  unfold two63, two64 in *. rewrite (u64_id (to + _)) by (unfold is_u64, two64; lia).
  split_and!; try done; try lia.
  - exists r, to, n, x, s, v. split_and!; try done. case_bool_decide as E; [rewrite decide_False by done|rewrite decide_True by (by destruct (decide (first_reserve v = Some n)))].
    + rewrite u64_id by (unfold is_u64, two64; lia). lia.
    + lia.
  - case_bool_decide; [rewrite u64_id by (unfold is_u64, two64; lia)|]; lia.
  - case_bool_decide; [rewrite u64_id by (unfold is_u64, two64; lia)|]; lia.
Qed.

(** ** The timer *)

(** Time goes on, nothing else happens. *)
Definition later w w' : Prop :=
  exists now ds, w' = clock_to now ds w /\ clock w <= now <= time_end w /\ clock_ok w' /\ time_end w' = time_end w.

Lemma later_refl w : clock_ok w -> later w w.
Proof.
  intros [Hc He]. exists (clock w), (elapse w). pose proof (sum_Z_nonneg _ He). unfold time_end.
  split_and!; [by destruct w|lia|lia|done|done].
Qed.

Lemma later_trans w1 w2 w3 : later w1 w2 -> later w2 w3 -> later w1 w3.
Proof.
  intros (n1 & d1 & -> & H1 & K1 & E1) (n2 & d2 & -> & H2 & K2 & E2). exists n2, d2. simpl in H2. rewrite E1 in H2, E2.
  split_and!; [done|lia|lia|done|done].
Qed.

Lemma clock_read w (Φ : Z -> world -> Prop) :
  clock_ok w ->
  (forall w', later w w' -> (length (elapse w') = pred (length (elapse w)))%nat -> (elapse w' = [] -> clock w' = time_end w) ->
     Φ (clock w') w') ->
  wp litmus_clock Φ w.
Proof.
  intros [Hc He] HΦ. unfold wp, litmus_clock. destruct (elapse w) as [|d ds] eqn:E.
  - apply HΦ; [by apply later_refl; split; rewrite ?E|by rewrite E|]. intros _. unfold time_end. rewrite E. simpl. lia.
  - apply Forall_cons in He as [Hd He]. pose proof (sum_Z_nonneg _ He) as Hsum.
    change (clock w + d) with (clock (set_elapse ds (set_clock (clock w + d) w))) at 1. apply HΦ.
    + exists (clock w + d), ds. unfold clock_ok, time_end. simpl. rewrite E. simpl. split_and!; (done || lia).
    + done.
    + simpl. intros ->. unfold time_end. rewrite E. simpl. lia.
Qed.

(** The wait for the switch boundary ends, since the clock reaches it: one round
    more than the reads for which the clock still advances is enough. *)
Lemma catchup_spec fuel from target w :
  clock_ok w -> 0 <= from <= time_end w -> 0 <= target <= time_end w -> time_end w < two63 -> (length (elapse w) < fuel)%nat ->
  (from <= clock w) ->
  wp (catchup_time fuel from target) (fun r w' => target <= r <= clock w' /\ later w w') w.
Proof.
  revert from w. induction fuel as [|fuel IH]; intros from w Hc Hf Ht Hw Hlen Hfc; [lia|]. simpl.
  rewrite lt_before_window by (unfold two63 in *; lia). destruct (Z.ltb_spec from target) as [Hlt|Hge].
  2: { wp_steps. split; [lia|by apply later_refl]. }
  wp_steps. apply clock_read; [done|]. intros w1 L1 Hlen1 Hend. pose proof L1 as (now & ds & E1 & Hn & Hc1 & He1).
  assert (clock w1 = now) as Ec by (by rewrite E1). destruct (decide (target <= clock w1)) as [Hok|Hno].
  - apply (wp_mono _ (fun r w' => r = clock w1 /\ w' = w1)); [|intros r w' [-> ->]; split; [lia|done]].
    destruct fuel; simpl; rewrite lt_before_window by (unfold two63 in *; lia);
      (destruct (Z.ltb_spec (clock w1) target); [lia|done]).
  - destruct (elapse w1) as [|d' ds'] eqn:El; [specialize (Hend eq_refl); lia|]. destruct Hc as [Hc0 _].
    eapply wp_mono; [apply IH; rewrite ?He1; try done; try lia; rewrite El; simpl in *; lia|].
    intros r w2 [Hr L2]. split; [done|by eapply later_trans].
Qed.

(** [container_of(timer)] is the entry of the processor the timer runs on. *)
Lemma tick_spec fuel total w :
  let c := this_cpu w in
  let e := npsf_cpu_entries (plugin w) c in
  slotted (plugin w) c total (clock w) (time_end w) -> clock_ok w -> npsf_slot_length (plugin w) <= total -> hosted (plugin w) c ->
  all_servers_added (plugin w) = true -> 0 <= should_expire e <= time_end w -> (length (elapse w) < fuel)%nat ->
  wp (reserve_switch_tick fuel c) (fun _ w' => exists now next,
    should_expire e <= now <= time_end w /\ switch_time (plugin w) c now next /\ now < next /\
    plugin w' = set_npsf_cpu_entries (upd (npsf_cpu_entries (plugin w)) c (set_n_timer (Some next) (set_should_expire next e))) (plugin w) /\
    need_resched (tasks w' (curr w c)) = true) w.
Proof.
  intros c e Hs Hc Hl Hh Ha He Hfuel. unfold reserve_switch_tick, get_entry. wp_steps. apply clock_read; [done|].
  intros w1 L1 Hlen1 _. pose proof L1 as (n1 & d1 & E1 & Hn1 & Hc1 & Hte1). wp_steps.
  assert (plugin w1 = plugin w) as Ep1 by (by rewrite E1). rewrite Ep1. fold e.
  assert (clock w1 = n1) as Ec1 by (by rewrite E1). pose proof (sl_end _ _ _ _ _ Hs) as Hend. destruct Hc as [Hc0 Hc'].
  apply (wp_mono _ (fun _ w' => later w w' /\ should_expire e <= clock w')).
  - rewrite s64_small by (unfold two63 in *; lia). destruct (Z.leb_spec 0 (clock w1 - should_expire e)).
    + wp_steps. split; [done|lia].
    + eapply wp_mono; [apply catchup_spec; [done|rewrite ?Hte1; lia..| |done]|].
      * rewrite Hlen1. lia.
      * intros r w2 [Hr L2]. split; [by eapply later_trans|lia].
  - intros r w2 [L2 Hexp]. pose proof L2 as (n2 & d2 & E2 & Hn2 & Hc2 & Hte2). wp_steps.
    { by rewrite E2; simpl; rewrite Ha. }
    { unfold no_reserves. case_bool_decide as El; [|done]. exfalso. pose proof (sl_budgets _ _ _ _ _ Hs) as Hb. fold e in Hb.
      rewrite El in Hb. inversion Hb; subst. pose proof (sl_length _ _ _ _ _ Hs). lia. }
    pose proof (next_switch_spec total w2) as HN. cbn zeta in HN.
    assert (plugin w2 = plugin w /\ this_cpu w2 = c /\ curr w2 = curr w /\ clock w2 = n2) as (Ep2 & Ecpu & Ecur & Ecl) by (by rewrite E2).
    rewrite Ep2, Ecpu in HN. eapply wp_mono; [apply HN; try done|].
    { destruct Hs. split; try done; rewrite ?Hte2; lia. }
    intros next w3 (now & ds & E3 & Hn3 & _ & _ & Hsw & Hlt). unfold upd_entry, get_current, set_tsk_need_resched, upd_task. wp_steps.
    exists now, next. rewrite E3. simpl. rewrite Ep2, Ecpu, Ecur. rewrite Hte2 in Hn3. split_and!; [lia|lia|done|lia|done|by rewrite upd_eq].
Qed.

(** ** Claims *)

(** C30: The search through the reserves of a processor finds the one whose part
    of the slot contains the present time, which is the only one, and falls off
    the list (a [BUG()]) exactly when the budgets do not reach that far. *)
Theorem eligible_reserve_correct (g : nstate) c total lo hi now :
  slotted g c total lo hi -> lo <= now <= hi ->
  (forall r to, get_reserve_for_offset g (npsf_cpu_entries g c) (slot_offset g now) = Some (r, to) <-> eligible g c now r to) /\
  (get_reserve_for_offset g (npsf_cpu_entries g c) (slot_offset g now) = None <-> total <= slot_offset g now).
Proof.
  intros Hs Hn. pose proof (offset_spec g c total lo hi now Hs Hn) as HS. pose proof (sl_budgets _ _ _ _ _ Hs) as Hb.
  destruct (get_reserve_for_offset _ _ _) as [[r' to']|].
  - pose proof HS as (from' & Hw' & Hin'). destruct (window_bounds _ _ _ _ _ _ _ Hw' Hb) as (_ & _ & Hto). split; [|by split; [|lia]].
    intros r to. split; [intros [= <- <-]; done|]. intros (from & Hw & Hin).
    by destruct (window_unique _ _ _ _ _ _ _ _ _ _ _ Hw Hw' Hb Hin Hin') as (-> & _ & ->).
  - split; [|done]. intros r to. split; [done|]. intros (from & Hw & Hin).
    destruct (window_bounds _ _ _ _ _ _ _ Hw Hb) as (_ & _ & Hto). lia.
Qed.

(** The switching timer never acts before the time it was set for (it waits
    for the clock if it fired early, and that wait ends), sets itself to the end
    of the eligible reserve, or of the next one if that is a later part of a
    migrating server, which lies in the future, and has the processor reschedule. *)
Theorem reserve_switch_tick_correct fuel total w :
  slotted (plugin w) (this_cpu w) total (clock w) (time_end w) -> clock_ok w -> npsf_slot_length (plugin w) <= total ->
  hosted (plugin w) (this_cpu w) -> all_servers_added (plugin w) = true ->
  0 <= should_expire (npsf_cpu_entries (plugin w) (this_cpu w)) <= time_end w -> (length (elapse w) < fuel)%nat ->
  wp (reserve_switch_tick fuel (this_cpu w)) (fun _ w' => exists now next,
    should_expire (npsf_cpu_entries (plugin w) (this_cpu w)) <= now <= time_end w /\
    switch_time (plugin w) (this_cpu w) now next /\ now < next /\
    plugin w' = set_npsf_cpu_entries (upd (npsf_cpu_entries (plugin w)) (this_cpu w)
      (set_n_timer (Some next) (set_should_expire next (npsf_cpu_entries (plugin w) (this_cpu w))))) (plugin w) /\
    need_resched (tasks w' (curr w (this_cpu w))) = true) w.
Proof. apply tick_spec. Qed.

End Time.
