(* ===== verification/NpsOwner.v ===== *)
(** * NPS-F: which processor executes a server

    The reserves of a migrating server are on different processors; the server
    is executed by one of them at a time ("make sure we are owner of a server",
    src/litmus2010/litmus/sched_npsf.c).  [npsf_schedule] takes and releases the
    lock of one server after the other, so that the parts of concurrent calls
    interleave with each other and with the other handlers.  In every reachable
    state no two processors execute the same server. *)

From stdpp Require Import sorting.
From S2P Require Import Prelude Task Edf PrioQueue Kernel RtDomain RtInv EdfDomain Partitioned Frames NpsF.
Open Scope Z_scope.

(** ** The chains of reserves *)

Definition static (x : npsf_reserve) : npsf_reserve := set_is_currently_scheduled false x.

(** What the ownership of servers depends on is the same. *)
Record same_chain (g g' : nstate) : Prop := {
  sc_reserve r : static <$> reserves g' !! r = static <$> reserves g !! r;
  sc_curr s : curr_reserve <$> servers g' !! s = curr_reserve <$> servers g !! s;
  sc_first s : first_reserve <$> servers g' !! s = first_reserve <$> servers g !! s;
  sc_list c : npsf_reserves (npsf_cpu_entries g' c) = npsf_reserves (npsf_cpu_entries g c);
  sc_here c : cpu_reserve (npsf_cpu_entries g' c) = cpu_reserve (npsf_cpu_entries g c)
}.

#[global] Instance same_chain_preorder : PreOrder same_chain.
Proof.
  split; [by intros g|]. intros g1 g2 g3 [] []. split; intros; etransitivity; eauto.
Qed.

Lemma same_chain_sym g g' : same_chain g g' -> same_chain g' g.
Proof. intros []. by split. Qed.

Lemma chain_reserve g g' r x :
  same_chain g g' -> reserves g !! r = Some x -> exists x', reserves g' !! r = Some x' /\ static x' = static x.
Proof.
  intros C Hx. pose proof (sc_reserve _ _ C r) as E. rewrite Hx in E. destruct (reserves g' !! r) as [x'|]; [|done].
  apply (inj Some) in E. eauto.
Qed.

Lemma chain_server g g' s v :
  same_chain g g' -> servers g !! s = Some v ->
  exists v', servers g' !! s = Some v' /\ curr_reserve v' = curr_reserve v /\ first_reserve v' = first_reserve v.
Proof.
  intros C Hv. pose proof (sc_curr _ _ C s) as E. pose proof (sc_first _ _ C s) as E'. rewrite Hv in E, E'.
  destruct (servers g' !! s) as [v'|]; [|done]. apply (inj Some) in E, E'. eauto.
Qed.

(** [r] belongs to the server [s]. *)
Definition belongs (g : nstate) (r : positive) (s : Z) : Prop := exists x, reserves g !! r = Some x /\ r_server x = Some s.

Lemma belongs_chain g g' r s : same_chain g g' -> belongs g r s -> belongs g' r s.
Proof.
  intros C (x & Hx & Hs). destruct (chain_reserve _ _ _ _ C Hx) as (x' & Hx' & E). exists x'. split; [done|].
  rewrite <- Hs. exact (f_equal r_server E).
Qed.

Lemma belongs_once g r s s' : belongs g r s -> belongs g r s' -> s = s'.
Proof. intros (x & Hx & Hs) (x' & Hx' & Hs'). simplify_eq. congruence. Qed.

(** [srv->curr_reserve == npsf] *)
Definition owner (g : nstate) (r : positive) : Prop :=
  exists s v, belongs g r s /\ servers g !! s = Some v /\ curr_reserve v = Some r.

Lemma owner_chain g g' r : same_chain g g' -> owner g r -> owner g' r.
Proof.
  intros C (s & v & Hb & Hv & Hc). destruct (chain_server _ _ _ _ C Hv) as (v' & Hv' & E & _).
  exists s, v'. split_and!; [by eapply belongs_chain|done|congruence].
Qed.

(** A server has one owner. *)
Lemma owner_once g r r' s : owner g r -> owner g r' -> belongs g r s -> belongs g r' s -> r = r'.
Proof.
  intros (s1 & v1 & Hb1 & Hv1 & Hc1) (s2 & v2 & Hb2 & Hv2 & Hc2) Hs Hs'.
  rewrite (belongs_once _ _ _ _ Hb1 Hs) in Hv1. rewrite (belongs_once _ _ _ _ Hb2 Hs') in Hv2. simplify_eq. congruence.
Qed.

(** The servers have been set up. *)
Record config (g : nstate) : Prop := {
  cf_list c r : r ∈ npsf_reserves (npsf_cpu_entries g c) -> exists x, reserves g !! r = Some x /\ r_cpu x = c;
  cf_server r x : reserves g !! r = Some x -> exists s, r_server x = Some s /\ is_Some (servers g !! s);
  cf_next r x s : reserves g !! r = Some x -> r_server x = Some s -> exists n, next_npsf x = Some n /\ belongs g n s;
  cf_curr s v : servers g !! s = Some v -> exists r, curr_reserve v = Some r /\ belongs g r s;
  cf_here c r : cpu_reserve (npsf_cpu_entries g c) = Some r -> r ∈ npsf_reserves (npsf_cpu_entries g c)
}.

Lemma config_chain g g' : same_chain g g' -> config g -> config g'.
Proof.
  intros C [Hl Hs Hn Hc Hh]. pose proof (same_chain_sym _ _ C) as C'. split.
  - intros c r. rewrite (sc_list _ _ C). intros (x & Hx & E)%Hl. destruct (chain_reserve _ _ _ _ C Hx) as (x' & Hx' & Ex).
    exists x'. split; [done|]. rewrite <- E. exact (f_equal r_cpu Ex).
  - intros r x Hx. destruct (chain_reserve _ _ _ _ C' Hx) as (x0 & Hx0 & Ex). destruct (Hs r x0 Hx0) as (s & Es & [v Hv]).
    destruct (chain_server _ _ _ _ C Hv) as (v' & Hv' & _). exists s. split; [|eauto]. rewrite <- Es. exact (f_equal r_server (eq_sym Ex)).
  - intros r x s Hx Es. destruct (chain_reserve _ _ _ _ C' Hx) as (x0 & Hx0 & Ex).
    destruct (Hn r x0 s Hx0) as (n & En & Hb); [rewrite <- Es; exact (f_equal r_server Ex)|].
    exists n. split; [rewrite <- En; exact (f_equal next_npsf (eq_sym Ex))|by eapply belongs_chain].
  - intros s v Hv. destruct (chain_server _ _ _ _ C' Hv) as (v0 & Hv0 & E & _). destruct (Hc s v0 Hv0) as (r & Er & Hb).
    exists r. split; [congruence|by eapply belongs_chain].
  - intros c r. rewrite (sc_here _ _ C), (sc_list _ _ C). apply Hh.
Qed.

(** The lists of two processors share no reserve. *)
Lemma config_disjoint g c c' r :
  config g -> r ∈ npsf_reserves (npsf_cpu_entries g c) -> r ∈ npsf_reserves (npsf_cpu_entries g c') -> c = c'.
Proof. intros C (x & Hx & <-)%(cf_list _ C) (x' & Hx' & <-)%(cf_list _ C). by simplify_eq. Qed.

Lemma config_belongs g c r : config g -> r ∈ npsf_reserves (npsf_cpu_entries g c) -> exists s, belongs g r s /\ is_Some (servers g !! s).
Proof. intros C (x & Hx & _)%(cf_list _ C). destruct (cf_server _ C r x Hx) as (s & Es & Hs). exists s. split; [by exists x|done]. Qed.

(** ** The two steps that change ownership *)

(** [entry->cpu_reserve = npsf_next] *)
Definition with_here (c : Z) (r : positive) (g : nstate) : nstate :=
  set_npsf_cpu_entries (upd (npsf_cpu_entries g) c (set_cpu_reserve (Some r) (npsf_cpu_entries g c))) g.

(** [srv->curr_reserve = npsf_prev->next_npsf] *)
Definition with_curr (s : Z) (r : option positive) (g : nstate) : nstate :=
  set_servers (alter (set_curr_reserve r) s (servers g)) g.

Lemma config_here c r g : config g -> r ∈ npsf_reserves (npsf_cpu_entries g c) -> config (with_here c r g).
Proof.
  intros [Hl Hs Hn Hc Hh] Hr. split; try done.
  - intros c' r'. simpl. unfold upd. case_decide; [subst|]; apply Hl.
  - intros c' r'. simpl. unfold upd. case_decide; [subst|apply Hh]. by intros [= <-].
Qed.

Lemma config_curr s n g : config g -> belongs g n s -> config (with_curr s (Some n) g).
Proof.
  intros [Hl Hs Hn Hc Hh] Hb. split; try done.
  - intros r x Hx. destruct (Hs r x Hx) as (s' & Es & Hv). exists s'. split; [done|]. simpl. by apply lookup_alter_is_Some.
  - intros s' v Hv. simpl in Hv. destruct (decide (s' = s)) as [->|Hne].
    + rewrite lookup_alter_eq in Hv. apply fmap_Some in Hv as (v0 & _ & ->). by exists n.
    + rewrite lookup_alter_ne in Hv by done. by apply Hc.
Qed.

Lemma owner_curr_other s n g r s' : belongs g r s' -> s' <> s -> owner g r -> owner (with_curr s n g) r.
Proof.
  intros Hb Hne (s1 & v & Hb1 & Hv & Hc). rewrite (belongs_once _ _ _ _ Hb1 Hb) in *. exists s', v.
  split_and!; [done| |done]. simpl. by rewrite lookup_alter_ne.
Qed.

(** ** Frames of the handlers *)
Section Chains.
Context {Q : Type -> Type} `{PrioQueue Q}.
Abbreviation world := (world Q nstate).
Abbreviation K := (M world).
Abbreviation chained := (frames (on_plugin (Q:=Q) same_chain)).
Implicit Types (w : world).

Lemma chain_upd_server s f :
  (forall v, curr_reserve (f v) = curr_reserve v /\ first_reserve (f v) = first_reserve v) -> chained (upd_server s f).
Proof.
  intros Hf. intros w a w'. unfold upd_server, get_server. intros (v & w1 & E1 & E2)%bind_inv.
  apply bind_inv in E1 as (S & w2 & [= <- <-] & E1). destruct (servers (plugin w) !! s) as [v'|] eqn:Hv; [|done].
  injection E1 as <- <-. injection E2 as _ <-. split; try done; intros s'; simpl;
    (destruct (decide (s' = s)) as [->|Hne]; [rewrite lookup_insert_eq, Hv; simpl; f_equal; apply Hf|by rewrite lookup_insert_ne]).
Qed.

Lemma chain_upd_reserve r f : (forall x, static (f x) = static x) -> chained (upd_reserve r f).
Proof.
  intros Hf. intros w a w'. unfold upd_reserve, get_reserve. intros (v & w1 & E1 & E2)%bind_inv.
  apply bind_inv in E1 as (R & w2 & [= <- <-] & E1). destruct (reserves (plugin w) !! r) as [x|] eqn:Hx; [|done].
  injection E1 as <- <-. injection E2 as _ <-. split; try done. intros r'. simpl.
  destruct (decide (r' = r)) as [->|Hne]; [rewrite lookup_insert_eq, Hx; simpl; f_equal; apply Hf|by rewrite lookup_insert_ne].
Qed.

Lemma chain_upd_entry c f :
  (forall e, npsf_reserves (f e) = npsf_reserves e /\ cpu_reserve (f e) = cpu_reserve e) -> chained (upd_entry c f).
Proof.
  intros Hf. unfold upd_entry. apply frames_modify. intros w. split; try done; intros c'; simpl; unfold upd; case_decide; subst; (done || apply Hf).
Qed.

#[local] Hint Extern 1 (frames (on_plugin same_chain) (upd_server _ _)) => apply chain_upd_server; by intros [] : litmus.
#[local] Hint Extern 1 (frames (on_plugin same_chain) (upd_reserve _ _)) => apply chain_upd_reserve; by intros [] : litmus.
#[local] Hint Extern 1 (frames (on_plugin same_chain) (upd_entry _ _)) => apply chain_upd_entry; by intros [] : litmus.

Lemma chain_requeue t s : chained (npsf_requeue t s).
Proof. unfold npsf_requeue, get_task, add_release. frames_tac. Qed.
#[local] Hint Resolve chain_requeue : litmus.

Lemma chain_preempt r : chained (npsf_preempt r).
Proof. unfold npsf_preempt, get_reserve, get_entry. frames_tac. Qed.
#[local] Hint Resolve chain_preempt : litmus.

Lemma chain_reschedule s : chained (npsf_reschedule_server s).
Proof. unfold npsf_reschedule_server, npsf_preempt_if_server_is_scheduled, get_server, get_reserve. frames_tac. Qed.
#[local] Hint Resolve chain_reschedule : litmus.

Lemma chain_release o : chained (on_release_timer npsf_release_jobs o).
Proof. unfold on_release_timer, npsf_release_jobs, get_rheap. frames_tac. Qed.

Lemma chain_catchup fuel from target : chained (catchup_time fuel from target).
Proof. revert from. induction fuel as [|fuel IH]; intros from; simpl; frames_tac; apply IH. Qed.
#[local] Hint Resolve chain_catchup : litmus.

Lemma chain_timer fuel c : chained (reserve_switch_tick fuel c).
Proof.
  unfold reserve_switch_tick, get_next_reserve_switch_time, server_of, get_reserve, get_server, get_entry, get_current. frames_tac.
Qed.

Lemma chain_tick t : chained (npsf_scheduler_tick t).
Proof. unfold npsf_scheduler_tick, get_task. frames_tac. Qed.

Lemma chain_schedule_server t s : chained (npsf_schedule_server t s).
Proof. unfold npsf_schedule_server, npsf_job_completion, get_task, get_server. frames_tac. Qed.
#[local] Hint Resolve chain_schedule_server : litmus.

Lemma chain_new t a b : chained (npsf_task_new t a b).
Proof. unfold npsf_task_new, server_of, get_reserve, get_task, get_entry. frames_tac. Qed.

Lemma chain_wake_up t : chained (npsf_task_wake_up t).
Proof. unfold npsf_task_wake_up, get_task, get_server. frames_tac. Qed.

Lemma chain_remove t s : chained (remove_from_server t s).
Proof. unfold remove_from_server, get_task, get_server. frames_tac. Qed.
#[local] Hint Resolve chain_remove : litmus.

Lemma chain_block t : chained (npsf_task_block t).
Proof. unfold npsf_task_block, get_task. frames_tac. Qed.

Lemma chain_exit t : chained (npsf_task_exit t).
Proof. unfold npsf_task_exit, get_task. frames_tac. Qed.

Lemma chain_serve t : chained (npsf_serve t).
Proof. unfold npsf_serve, get_current_reserve, server_of, get_reserve, get_server, get_task, get_entry. frames_tac. Qed.

Lemma chain_keep r : chained (npsf_keep r).
Proof. unfold npsf_keep, server_of, get_reserve, get_server. frames_tac. Qed.

Lemma chain_enact n : chained (npsf_enact n).
Proof. unfold npsf_enact. frames_tac. Qed.

End Chains.

(** ** The parts of [npsf_schedule] *)

(** Takes a run of a computation apart. *)
Ltac run_step :=
  match goal with
  | E : (_ ≫= _) _ = Some _ |- _ => apply bind_inv in E as (? & ? & ? & E)
  | E : gets _ _ = Some _ |- _ => injection E as <- <-
  | E : mret _ _ = Some _ |- _ => first [injection E as <- <-|injection E as <-]
  | E : of_option ?o _ = Some _ |- _ => destruct o eqn:?; [injection E as <- <-|discriminate E]
  | E : BUG_ON ?b _ = Some _ |- _ => destruct b eqn:?; [discriminate E|first [injection E as <- <-|injection E as <-]]
  end.

Section Parts.
Context {Q : Type -> Type} `{PrioQueue Q}.
Abbreviation world := (world Q nstate).
Abbreviation K := (M world).
Implicit Types (w : world).

Lemma search_elem B l offset start r to : reserve_for_offset B l offset start = Some (r, to) -> r ∈ l.
Proof.
  revert start. induction l as [|a l IH]; intros start; [done|]. simpl. destruct (B a) as [b|]; [|done]. simpl.
  destruct (_ <? _); [intros [= <- _]; by left|]. intros E. right. by eapply IH.
Qed.

Lemma current_elem c w r w' : get_current_reserve c w = Some (r, w') -> r ∈ npsf_reserves (npsf_cpu_entries (plugin w) c).
Proof.
  unfold get_current_reserve. intros E. apply bind_inv in E as (now & w1 & E1 & E).
  assert (plugin w1 = plugin w) as <- by (unfold litmus_clock in E1; destruct (elapse w); by injection E1 as _ <-).
  repeat run_step. destruct p as [r to]. by eapply search_elem.
Qed.

Lemma serve_switch prev w p n w' :
  npsf_serve prev w = Some (Switch p n, w') ->
  let e := npsf_cpu_entries (plugin w) (this_cpu w) in cpu_reserve e = Some p /\ p <> n /\ n ∈ npsf_reserves e.
Proof.
  unfold npsf_serve, server_of, get_reserve, get_entry, get_task. intros E.
  apply bind_inv in E as (me & w1 & [= <- <-] & E). apply bind_inv in E as (e & w2 & [= <- <-] & E).
  apply bind_inv in E as ([] & w3 & E3 & E). destruct (no_reserves _); [done|]. injection E3 as <-.
  apply bind_inv in E as (p' & w4 & E4 & E). destruct (cpu_reserve _) as [q|] eqn:Hq; [|done]. injection E4 as <- <-.
  apply bind_inv in E as (s & w5 & E5 & E). assert (w5 = w) as -> by (by repeat run_step).
  apply bind_inv in E as (n' & w6 & E6 & E). pose proof (current_elem _ _ _ _ E6) as Hn.
  apply bind_inv in E as (x & w7 & E7 & E). apply bind_inv in E as (y & w8 & E8 & E). apply bind_inv in E as ([] & w9 & E9 & E).
  case_decide as Hne; apply bind_inv in E as (? & w10 & E10 & E); injection E as ? ?; [congruence|]. simplify_eq. done.
Qed.

Lemma get_server_inv s w v w' : get_server s w = Some (v, w') -> servers (plugin w) !! s = Some v /\ w' = w.
Proof. unfold get_server. intros E. by repeat run_step. Qed.

Lemma get_reserve_inv r w x w' : get_reserve r w = Some (x, w') -> reserves (plugin w) !! r = Some x /\ w' = w.
Proof. unfold get_reserve. intros E. by repeat run_step. Qed.

Lemma server_of_inv r w s w' : server_of r w = Some (s, w') -> belongs (plugin w) r s /\ w' = w.
Proof.
  unfold server_of, get_reserve. intros E. repeat run_step. split; [|done]. by eexists.
Qed.

Lemma claim_result n w o w' :
  npsf_claim n w = Some (o, w') ->
  match o with
  | Some _ => owner (plugin w) n /\ same_chain (with_here (this_cpu w) n (plugin w)) (plugin w')
  | None => same_chain (plugin w) (plugin w')
  end.
Proof.
  unfold npsf_claim. intros E. apply bind_inv in E as (me & w1 & [= <- <-] & E).
  apply bind_inv in E as (s & w2 & [Hb ->]%server_of_inv & E). apply bind_inv in E as ([] & w3 & E3 & E).
  apply chain_upd_reserve in E3; [|by intros []]. unfold on_plugin in E3.
  apply bind_inv in E as (v & w4 & [Hv ->]%get_server_inv & E). case_decide as Hc.
  - apply bind_inv in E as ([] & w5 & [= <-] & E). injection E as <- <-. split.
    + apply (owner_chain (plugin w3)); [by apply same_chain_sym|]. exists s, v. split_and!; [|done|done].
      by eapply belongs_chain.
    + destruct E3 as [R3 C3 F3 L3 H3]. split; try done; intros c; simpl; unfold upd; case_decide; subst; simpl; auto.
  - apply bind_inv in E as ([] & w5 & E5 & E). apply bind_inv in E as ([] & w6 & E6 & E). injection E as <- <-.
    apply chain_upd_reserve in E6; [|by intros []]. unfold on_plugin in E6. etransitivity; [exact E3|]. etransitivity; [|exact E6].
    assert (frames (on_plugin same_chain) (when (bool_decide (first_reserve v = Some n))
      (upd_server (Q:=Q) s (set_first_cpu_wants_ipi true)))) as Hf.
    { apply frames_when; [apply _|]. apply chain_upd_server. by intros []. }
    exact (Hf _ _ _ E5).
Qed.

Lemma notify_result p w w' :
  npsf_notify_next_cpu p w = Some (tt, w') ->
  exists x, reserves (plugin w) !! p = Some x /\
    (next_npsf x = Some p /\ w' = w \/
     exists s, r_server x = Some s /\ next_npsf x <> Some p /\
       same_chain (with_curr s (next_npsf x) (plugin w)) (plugin w')).
Proof.
  unfold npsf_notify_next_cpu. intros E. apply bind_inv in E as (x & w1 & [Hx ->]%get_reserve_inv & E).
  exists x. split; [done|]. case_bool_decide as Hne; simpl in E.
  2: { injection E as <-. left. split; [|done]. by destruct (decide (next_npsf x = Some p)). }
  right. destruct (r_server x) as [s|] eqn:Hs; [|done]. exists s. split_and!; [done..|].
  apply bind_inv in E as (? & w1 & [= <- <-] & E).
  apply bind_inv in E as ([] & w2 & E2 & E).
  assert (same_chain (with_curr s (next_npsf x) (plugin w)) (plugin w2)) as C2.
  { clear E. unfold upd_server in E2. apply bind_inv in E2 as (v & w3 & [Hv ->]%get_server_inv & E2).
    injection E2 as <-. unfold with_curr. simpl. split; try done; intros s'; simpl;
      (destruct (decide (s' = s)) as [->|Hns]; [rewrite lookup_insert_eq, lookup_alter_eq, Hv|rewrite lookup_insert_ne, lookup_alter_ne]; done). }
  etransitivity; [exact C2|]. clear C2.
  assert (frames (on_plugin (Q:=Q) same_chain) (s0 ← get_server s; when (bool_decide (first_reserve s0 <> curr_reserve s0) || first_cpu_wants_ipi s0)
    (upd_server s (set_first_cpu_wants_ipi false);; n ← of_option (curr_reserve s0); npsf_preempt n))) as Hf.
  { unfold get_server. apply frames_bind; [apply _|frames_tac|]. intros v. apply frames_when; [apply _|].
    apply frames_bind; [apply _|apply chain_upd_server; by intros []|]. intros []. apply frames_bind; [apply _|frames_tac|]. apply chain_preempt. }
  exact (Hf _ _ _ E).
Qed.

End Parts.

(** ** Interleaving

    Each processor is outside [npsf_schedule] or between two of its parts.  A
    part runs under the lock of a server and is one step, and so is a handler. *)
Inductive pc : Type :=
  | Idle
  | Claiming (npsf_prev npsf_next : positive)   (* has left [npsf_prev] *)
  | Keeping (npsf_prev : positive)              (* raced with the previous owner *)
  | Handing (npsf_prev : positive).             (* has to notify the next processor *)

Section Interleaving.
Context {Q : Type -> Type} `{PrioQueue Q}.
Abbreviation world := (world Q nstate).
Abbreviation K := (M world).
Abbreviation system := (world * (Z -> pc))%type.
Implicit Types (w : world) (P : Z -> pc).

Definition on_cpu (c : Z) w : world := set_this_cpu c w.

Inductive handler : K unit -> Prop :=
  | h_release o : handler (on_release_timer npsf_release_jobs o)
  | h_wake_up t : handler (npsf_task_wake_up t)
  | h_block t : handler (npsf_task_block t)
  | h_exit t : handler (npsf_task_exit t)
  | h_new t on_rq running : handler (npsf_task_new t on_rq running)
  | h_tick t : handler (npsf_scheduler_tick t)
  | h_timer fuel c : handler (reserve_switch_tick fuel c).

Inductive nstep : system -> system -> Prop :=
  | st_stay c prev next w w' P :
      P c = Idle -> npsf_serve prev (on_cpu c w) = Some (Stay next, w') -> nstep (w, P) (w', P)
  | st_switch c prev p n w w' P :
      P c = Idle -> npsf_serve prev (on_cpu c w) = Some (Switch p n, w') -> nstep (w, P) (w', upd P c (Claiming p n))
  | st_claim c p n next w w' P :
      P c = Claiming p n -> npsf_claim n (on_cpu c w) = Some (Some next, w') -> nstep (w, P) (w', upd P c (Handing p))
  | st_race c p n w w' P :
      P c = Claiming p n -> npsf_claim n (on_cpu c w) = Some (None, w') -> nstep (w, P) (w', upd P c (Keeping p))
  | st_keep c p next w w' P :
      P c = Keeping p -> npsf_keep p (on_cpu c w) = Some (next, w') -> nstep (w, P) (w', upd P c Idle)
  | st_hand c p w w' P :
      P c = Handing p -> npsf_notify_next_cpu p (on_cpu c w) = Some (tt, w') -> nstep (w, P) (w', upd P c Idle)
  | st_handler c h w w' P :
      handler h -> h (on_cpu c w) = Some (tt, w') -> nstep (w, P) (w', P)
  (* the rest of the kernel does not touch the state of the plugin *)
  | st_kernel w w' P : plugin w' = plugin w -> nstep (w, P) (w', P).

Lemma handler_chain h : handler h -> frames (on_plugin same_chain) h.
Proof.
  destruct 1; [apply chain_release|apply chain_wake_up|apply chain_block|apply chain_exit|apply chain_new|apply chain_tick|apply chain_timer].
Qed.

Abbreviation here g c := (cpu_reserve (npsf_cpu_entries g c)).
Abbreviation list_of g c := (npsf_reserves (npsf_cpu_entries g c)).

(** A processor owns the reserve it executes, and the one it is about to hand
    over. *)
Record owned (g : nstate) P : Prop := {
  ow_config : config g;
  ow_here c r : here g c = Some r -> owner g r;
  ow_claiming c p n : P c = Claiming p n -> here g c = Some p /\ p <> n /\ n ∈ list_of g c;
  ow_keeping c p : P c = Keeping p -> here g c = Some p;
  ow_handing c p : P c = Handing p -> owner g p /\ p ∈ list_of g c /\ here g c <> Some p
}.

Lemma owned_chain g g' P : same_chain g g' -> owned g P -> owned g' P.
Proof.
  intros C [Hc Hh Hcl Hk Hha]. split.
  - by eapply config_chain.
  - intros c r. rewrite (sc_here _ _ C). intros E. eapply owner_chain; [done|by eapply Hh].
  - intros c p n. rewrite (sc_here _ _ C), (sc_list _ _ C). apply Hcl.
  - intros c p. rewrite (sc_here _ _ C). apply Hk.
  - intros c p E. rewrite (sc_here _ _ C), (sc_list _ _ C). destruct (Hha c p E) as (? & ? & ?).
    split_and!; [by eapply owner_chain|done|done].
Qed.

(** The processor [c] goes on to [k]. *)
Lemma owned_pc g P c k :
  owned g P -> (forall p n, k = Claiming p n -> here g c = Some p /\ p <> n /\ n ∈ list_of g c) ->
  (forall p, k = Keeping p -> here g c = Some p) ->
  (forall p, k = Handing p -> owner g p /\ p ∈ list_of g c /\ here g c <> Some p) -> owned g (upd P c k).
Proof.
  intros [Hc Hh Hcl Hk Hha] H1 H2 H3.
  split; [done|done|..]; intros c'; unfold upd; case_decide; subst; auto.
Qed.

Lemma owned_claim g P c p n : owned g P -> P c = Claiming p n -> owner g n -> owned (with_here c n g) (upd P c (Handing p)).
Proof.
  intros [Hc Hh Hcl Hk Hha] E Hn. destruct (Hcl c p n E) as (Hp & Hne & Hin). pose proof (Hh c p Hp) as Hop.
  assert (forall c', npsf_reserves (npsf_cpu_entries (with_here c n g) c') = list_of g c') as El.
  { intros c'. simpl. unfold upd. by case_decide; subst. }
  assert (forall c', here (with_here c n g) c' = if decide (c' = c) then Some n else here g c') as Eh.
  { intros c'. simpl. unfold upd. by case_decide. }
  split.
  - by apply config_here.
  - intros c' r. rewrite Eh. case_decide; [by intros [= <-]|]. apply Hh.
  - intros c' p' n'. rewrite Eh, El. unfold upd. case_decide; [done|]. apply Hcl.
  - intros c' p'. rewrite Eh. unfold upd. case_decide; [done|]. apply Hk.
  - intros c' p'. rewrite Eh, El. unfold upd. case_decide; [|apply Hha]. intros [= <-]. subst c'.
    split_and!; [done|by apply (cf_here _ Hc)|congruence].
Qed.

Lemma owned_hand g P c p x s n :
  owned g P -> P c = Handing p -> reserves g !! p = Some x -> r_server x = Some s -> next_npsf x = Some n -> n <> p ->
  owned (with_curr s (Some n) g) (upd P c Idle).
Proof.
  intros [Hc Hh Hcl Hk Hha] E Hx Hs Hn Hnp. destruct (Hha c p E) as (Hop & Hpl & Hph).
  assert (belongs g p s) as Hbp by (by exists x). destruct (cf_next _ Hc p x s Hx Hs) as (n' & En & Hbn). simplify_eq.
  assert (forall c' r, owner g r -> r ∈ list_of g c' -> (c' <> c \/ r <> p) -> owner (with_curr s (Some n) g) r) as Hother.
  { intros c' r Hor Hrl Hne. pose proof Hor as (s' & v & Hb & _). apply (owner_curr_other s (Some n) g r s'); [done| |done].
    intros ->. assert (r = p) as -> by (by eapply owner_once). destruct Hne as [Hne|]; [|done]. by apply Hne, (config_disjoint g c' c p). }
  split.
  - by apply config_curr.
  - intros c' r Hr. apply (Hother c' r); [by eapply Hh|by apply (cf_here _ Hc)|].
    destruct (decide (c' = c)) as [->|]; [right; intros ->; done|by left].
  - intros c' p' n'. unfold upd. case_decide; [done|]. apply Hcl.
  - intros c' p'. unfold upd. case_decide; [done|]. apply Hk.
  - intros c' p'. unfold upd. case_decide as Ec; [done|]. intros E'. destruct (Hha c' p' E') as (Ho' & Hl' & Hh').
    split_and!; [|done|done]. apply (Hother c' p'); auto.
Qed.

Lemma nstep_owned S S' : nstep S S' -> owned (plugin S.1) S.2 -> owned (plugin S'.1) S'.2.
Proof.
  intros HS Ho. destruct HS as [c prev next w w' P HP E|c prev p n w w' P HP E|c p n next w w' P HP E|c p n w w' P HP E
    |c p next w w' P HP E|c p w w' P HP E|c h w w' P Hh E|w w' P E]; simpl in *.
  - eapply owned_chain; [|exact Ho]. exact (chain_serve _ _ _ _ E).
  - pose proof (chain_serve _ _ _ _ E) as C. apply serve_switch in E. destruct E as (Hp & Hne & Hn). unfold on_plugin in C. simpl in *.
    pose proof (owned_chain _ _ _ C Ho) as Ho'. apply owned_pc; try done.
    intros p' n' [= <- <-]. by rewrite (sc_here _ _ C), (sc_list _ _ C).
  - apply claim_result in E as [Hn C]. simpl in *. eapply owned_chain; [exact C|]. by apply owned_claim with (n := n).
  - apply claim_result in E. simpl in *. pose proof (owned_chain _ _ _ E Ho) as Ho'. apply owned_pc; try done.
    intros p' [= <-]. by apply (ow_claiming _ _ Ho') in HP as (? & _).
  - eapply owned_chain; [exact (chain_keep _ _ _ _ E)|]. by apply owned_pc.
  - apply notify_result in E as (x & Hx & [[Hn ->]|(s & Hs & Hn & C)]); simpl in *.
    + by apply owned_pc.
    + destruct (cf_next _ (ow_config _ _ Ho) p x s Hx Hs) as (n & En & _). rewrite En in *.
      eapply owned_chain; [exact C|]. eapply owned_hand; try done. congruence.
  - eapply owned_chain; [exact (handler_chain h Hh _ _ _ E)|done].
  - by rewrite E.
Qed.

Lemma owned_exclusive g P c c' r r' s :
  owned g P -> here g c = Some r -> here g c' = Some r' -> belongs g r s -> belongs g r' s -> c = c'.
Proof.
  intros Ho Hr Hr' Hb Hb'. assert (r = r') as <- by (eapply owner_once; try done; by eapply ow_here).
  eapply config_disjoint; [apply Ho|by eapply cf_here; [apply Ho|]..].
Qed.

Lemma nsteps_owned S S' : rtc nstep S S' -> owned (plugin S.1) S.2 -> owned (plugin S'.1) S'.2.
Proof. induction 1; eauto using nstep_owned. Qed.

(** C6: However the parts of concurrent calls of [npsf_schedule] interleave with
    each other and with the other handlers, no two processors execute the same
    server: a processor executes only reserves it owns, and gives a server up
    only after it has moved on to another one. *)
Theorem server_on_one_cpu w w' P P' c c' r r' s :
  owned (plugin w) P -> rtc nstep (w, P) (w', P') ->
  cpu_reserve (npsf_cpu_entries (plugin w') c) = Some r -> cpu_reserve (npsf_cpu_entries (plugin w') c') = Some r' ->
  belongs (plugin w') r s -> belongs (plugin w') r' s -> c = c' /\ r = r' /\ owner (plugin w') r.
Proof.
  intros Ho HS%nsteps_owned Hr Hr' Hb Hb'; [|done]. simpl in HS.
  assert (c = c') as <- by (by eapply owned_exclusive). split_and!; [done|congruence|by eapply ow_here].
Qed.

End Interleaving.
