(* ===== verification/NpsMain.v ===== *)
(** * NPS-F: the schedule function as a whole

    [npsf_schedule] (src/litmus2010/litmus/sched_npsf.c) run without
    interruption: it executes the eligible reserve if the processor owns its
    server and stays on the previous one otherwise, picks the highest-priority
    task of that server, and loses no task. *)

From stdpp Require Import sorting.
From S2P Require Import Prelude Task Edf PrioQueue Kernel RtDomain RtInv EdfDomain Partitioned Frames.
From S2P Require Import NpsF NpsInv NpsServer NpsTask NpsSched NpsTime NpsOwner.
Open Scope Z_scope.

(** The servers have the same heads. *)
Definition same_heads (g g' : nstate) : Prop :=
  forall s, highest_prio <$> servers g' !! s = highest_prio <$> servers g !! s.

Section Main.
Context {Q : Type -> Type} `{PrioQueueLaws Q}.
Abbreviation world := (world Q nstate).
Abbreviation K := (M world).
Implicit Types (w : world) (t y prev : tid) (s : Z).

Definition same_members w w' : Prop := forall s y, member (hp_of w') w' s y <-> member (hp_of w) w s y.

#[global] Instance same_members_preorder : PreOrder same_members.
Proof. split; [by intros w s y|]. intros w1 w2 w3 H1 H2 s y. by rewrite (H2 s y), (H1 s y). Qed.

Lemma config_wired g s : config g -> is_Some (servers g !! s) -> wired g s.
Proof. intros C [v Hv]. destruct (cf_curr _ C s v Hv) as (r & Er & x & Hx & _). by exists v, r, x. Qed.

(** The reserves and servers change, but not the tasks at their head. *)
Lemma npsf_rewire g w :
  npsf_inv w -> config g -> same_heads (plugin w) g ->
  npsf_inv (set_plugin g w) /\ same_members w (set_plugin g w) /\ forall s, hp_of (set_plugin g w) s = hp_of w s.
Proof.
  intros [Hi Hb Hwd Hl] C Hh.
  assert (forall s, hp_of (set_plugin g w) s = hp_of w s) as E.
  { intros s. specialize (Hh s). unfold hp_of. simpl. destruct (servers g !! s), (servers (plugin w) !! s); simpl in *; congruence. }
  assert (forall s, is_Some (servers (plugin w) !! s) -> is_Some (servers g !! s)) as Hlive.
  { intros s [v Hv]. specialize (Hh s). rewrite Hv in Hh. destruct (servers g !! s); [eauto|done]. }
  split_and!; [split|intros s y; unfold member; by rewrite E|done].
  - eapply sinv_ext; [exact E|]. destruct Hi. split; try done. by apply edom_ok_plugin.
  - intros s _. rewrite E. by apply Hb.
  - intros s Hs. by apply config_wired.
  - intros t p Hp. apply Hlive. by eapply Hl.
Qed.

Lemma npsf_quiet w w' : npsf_inv w -> quiet w w' -> edom_ok w' -> homes w w' -> npsf_inv w' /\ same_members w w'.
Proof.
  intros [Hi Hb Hwd Hl] Hq Hw' Hho. pose proof (fun s => hp_of_quiet w w' s Hq) as E.
  pose proof (se_plugin _ _ (qt_env _ _ Hq)) as Epl. split; [split; rewrite ?Epl; try done|].
  - eapply sinv_ext; [exact E|]. by eapply sinv_quiet.
  - intros s Hs. rewrite E. eapply best_quiet; [done|by apply Hb].
  - intros t p Hp%(qt_at _ _ Hq). by eapply Hl.
  - intros s y. rewrite (member_quiet _ w w') by done. by apply member_ext.
Qed.

(** The head of a server is marked, as running or as having completed its job. *)
Lemma npsf_mark f n s w :
  npsf_inv w -> hp_of w s = Some n ->
  wp (upd_task n (set_rt_flags f)) (fun _ w' => npsf_inv w' /\ same_members w w' /\ plugin w' = plugin w /\ this_cpu w' = this_cpu w) w.
Proof.
  intros [Hi Hb Hwd Hl] Hs. destruct (si_hp _ _ Hi s n Hs) as (Hh & Hr & Hd). unfold upd_task. wp_steps.
  set (x := set_rt_flags f (tasks w n)). set (w' := set_tasks _ w).
  assert (forall p, ~ at_place w n p) as Hno by (intros p; exact (hp_nowhere _ w s n p Hi Hs)).
  pose proof (moves_upd n x w Hno) as M. fold w' in M.
  destruct (edom_ok_upd w n x (si_dom _ _ Hi) Hh Hh (si_inh _ _ Hi) (si_inh _ _ Hi n)) as [Hw' _].
  assert (homes w w') as Hho by (intros y; simpl; unfold upd; case_decide; by subst).
  assert (sinv (hp_of w) w') as Hi' by (eapply sinv_moves; try done; apply Hi).
  split_and!; [split; try done| |done|done].
  - intros s' Hs'. eapply (best_frame w); [apply Hi|apply Hi'|done| |by apply Hb].
    intros e _. exact (moves_same_prio n x None w w' M ltac:(done) e).
  - intros s' y. done.
Qed.

Lemma enact_spec s w :
  npsf_inv w -> wp (npsf_enact (hp_of w s)) (fun next w' =>
    next = hp_of w s /\ npsf_inv w' /\ same_members w w' /\ plugin w' = plugin w /\ this_cpu w' = this_cpu w) w.
Proof.
  intros Hi. unfold npsf_enact. destruct (hp_of w s) as [n|] eqn:E; wp_steps.
  - eapply wp_mono; [by eapply npsf_mark|]. intros _ w' (? & ? & ? & ?). by wp_steps.
  - done.
Qed.

(** ** The server being left *)

Lemma rescheduled_members s w w' : rescheduled s w w' -> same_members w w'.
Proof.
  intros [_ _ L Hm] s' y. destruct (decide (s' = s)) as [->|Hne]; [apply Hm|]. unfold member.
  assert (hp_of w' s' = hp_of w s') as -> by (unfold hp_of; by rewrite (lc_srv _ _ _ L)).
  apply or_iff_compat_l. split; intros (p & <- & Hp); exists p; (split; [done|]); by apply (lc_at _ _ _ L).
Qed.

Lemma time_ok_clock c ds w : time_ok w -> clock_ok (clock_to c ds w) -> time_end (clock_to c ds w) = time_end w -> time_ok (clock_to c ds w).
Proof. intros [Hc Ht] Hck He. split; [done|]. intros t. rewrite He. apply Ht. Qed.

(** The state in which the scheduler is called. *)
Record serving prev (p : positive) s total w : Prop := {
  sv_inv : npsf_inv w;
  sv_time : time_ok w;
  sv_config : config (plugin w);
  sv_added : all_servers_added (plugin w) = true;
  sv_here : cpu_reserve (npsf_cpu_entries (plugin w) (this_cpu w)) = Some p;
  sv_belongs : belongs (plugin w) p s;
  sv_slot : slotted (plugin w) (this_cpu w) total (clock w) (time_end w);
  sv_full : npsf_slot_length (plugin w) <= total;
  (* a real-time task of this server has run here *)
  sv_prev x : reserves (plugin w) !! p = Some x -> is_realtime (tasks w prev) = true ->
    task_npsfid (tasks w prev) = r_id x -> ran_in s prev w
}.

Lemma flag_spec r b w (Φ : unit -> world -> Prop) x :
  reserves (plugin w) !! r = Some x ->
  (forall g, same_chain (plugin w) g -> same_heads (plugin w) g -> Φ tt (set_plugin g w)) ->
  wp (upd_reserve r (set_is_currently_scheduled b)) Φ w.
Proof.
  intros Hx HΦ. unfold upd_reserve, get_reserve. wp_steps. exists x. split; [done|]. wp_steps. apply HΦ; [|done].
  split; try done. intros r'. simpl. destruct (decide (r' = r)) as [->|]; [rewrite lookup_insert_eq, Hx; by destruct x|by rewrite lookup_insert_ne].
Qed.

Lemma server_of_spec r s w (Φ : Z -> world -> Prop) : belongs (plugin w) r s -> Φ s w -> wp (server_of r) Φ w.
Proof.
  intros (x & Hx & Hs) HΦ. unfold server_of, get_reserve. wp_steps. exists x. split; [done|]. wp_steps. by exists s.
Qed.

Lemma get_server_spec s v w (Φ : npsf_server -> world -> Prop) : servers (plugin w) !! s = Some v -> Φ v w -> wp (get_server s) Φ w.
Proof. intros Hv HΦ. unfold get_server. wp_steps. by exists v. Qed.

(** Step 3: the server of the task that ran is updated. *)
Lemma serve_prev prev s (x : npsf_reserve) w :
  npsf_inv w -> time_ok w -> is_Some (servers (plugin w) !! s) ->
  (is_realtime (tasks w prev) = true -> task_npsfid (tasks w prev) = r_id x -> ran_in s prev w) ->
  wp (when (is_realtime (tasks w prev) && (task_npsfid (tasks w prev) =? r_id x)) (npsf_schedule_server prev s))
    (fun _ w' => rescheduled s w w' /\ same_chain (plugin w) (plugin w')) w.
Proof.
  intros Hi Ht Hlive Hran. apply (wp_frames (on_plugin same_chain)).
  - apply wp_when. destruct (_ && _) eqn:E; [|by apply rescheduled_refl]. apply andb_true_iff in E as [Hr Hid%Z.eqb_eq].
    apply serv_schedule; auto.
  - apply frames_when; [apply _|apply chain_schedule_server].
Qed.

Lemma serve_spec prev p s total w :
  serving prev p s total w ->
  wp (npsf_serve prev) (fun v w' => npsf_inv w' /\ same_members w w' /\ same_chain (plugin w) (plugin w') /\ this_cpu w' = this_cpu w /\
    exists now to n, clock w <= now <= time_end w /\ eligible (plugin w) (this_cpu w) now n to /\
      match v with Stay next => n = p /\ next = hp_of w' s | Switch p' n' => p' = p /\ n' = n /\ n <> p end) w.
Proof.
  intros [Hi Ht C Ha Hh Hb Hsl Hf Hpr]. pose proof Hb as (x & Hx & Hs). set (me := this_cpu w) in *.
  destruct (cf_server _ C p x Hx) as (s' & Es & Hlive). assert (s' = s) as -> by congruence.
  unfold npsf_serve, get_entry, get_task, get_reserve. wp_steps.
  { fold me. unfold no_reserves. case_bool_decide as El; [|done]. apply (cf_here _ C) in Hh. rewrite El in Hh. by apply elem_of_nil in Hh. }
  fold me. exists p. split; [done|]. wp_steps. apply (server_of_spec p s); [done|].
  wp_steps. eapply wp_mono; [eapply current_reserve_spec; [exact Hsl|apply Ht|done]|].
  intros n w1 (now & ds & to & -> & Hn & Hck & Hte & He). wp_steps. exists x. split; [done|]. wp_steps.
  pose proof (npsf_clock now ds w Hi) as Hi1. set (w1 := clock_to now ds w) in *.
  eapply wp_mono; [apply (serve_prev prev s x w1); [done|by apply time_ok_clock|done|]|].
  { intros Hr Hid. destruct (Hpr x Hx Hr Hid) as [Hrun Hbl]. by split. }
  intros ? w2 [R2 C2].
  pose proof (ninv_rescheduled s w1 w2 (ninv_weaken s w1 Hi1) (config_wired _ _ C Hlive) R2) as Hi2.
  pose proof (rescheduled_members s w1 w2 R2) as Hm2. pose proof (lc_cpu _ _ _ (rs_local _ _ _ R2)) as Ecpu.
  case_decide as Epn; wp_steps.
  - destruct Hlive as [v Hv]. destruct (chain_server _ _ _ _ C2 Hv) as (v' & Hv' & _).
    apply (get_server_spec s v'); [done|]. wp_steps. split_and!; try done. exists now, to, n. split; [done|]. split_and!; try done.
    unfold hp_of. by rewrite Hv'.
  - destruct (chain_reserve _ _ _ _ C2 Hx) as (x' & Hx' & _). apply (flag_spec p false _ _ x'); [done|]. intros g Cg Hg. wp_steps.
    assert (config g) as Hcg by (eapply config_chain; [exact Cg|]; eapply config_chain; [exact C2|done]).
    destruct (npsf_rewire g w2 Hi2 Hcg Hg) as (Hi3 & Hm3 & _).
    split_and!; [done|by transitivity w2|by transitivity (plugin w2)|done|]. exists now, to, n. by split; [|split_and!].
Qed.

(** ** The server being entered *)

Lemma with_result {A} (c : K A) (Φ Ψ : A -> world -> Prop) w :
  wp c Φ w -> (forall a w', c w = Some (a, w') -> Ψ a w') -> wp c (fun a w' => Φ a w' /\ Ψ a w') w.
Proof. intros (a & w' & E & HΦ)%wp_run HΨ. apply wp_run. exists a, w'. split; [done|]. split; [done|by apply HΨ]. Qed.

(** Only the state of the plugin changes, and no head. *)
Definition rewired w w' : Prop := exists g, w' = set_plugin g w /\ same_heads (plugin w) g.

Lemma rewired_trans w1 w2 w3 : rewired w1 w2 -> rewired w2 w3 -> rewired w1 w3.
Proof.
  intros (g & -> & Hg) (g' & -> & Hg'). exists g'. split; [done|]. intros s. rewrite (Hg' s). apply Hg.
Qed.

Lemma rewired_inv w w' : npsf_inv w -> rewired w w' -> config (plugin w') ->
  npsf_inv w' /\ same_members w w' /\ (forall s, hp_of w' s = hp_of w s) /\ this_cpu w' = this_cpu w.
Proof. intros Hi (g & -> & Hg) C. destruct (npsf_rewire g w Hi C Hg) as (? & ? & ?). done. Qed.

Lemma rewire_server s v f w (Φ : unit -> world -> Prop) :
  servers (plugin w) !! s = Some v -> highest_prio (f v) = highest_prio v ->
  (rewired w (set_plugin (set_servers (<[s := f v]> (servers (plugin w))) (plugin w)) w) ->
   Φ tt (set_plugin (set_servers (<[s := f v]> (servers (plugin w))) (plugin w)) w)) ->
  wp (upd_server s f) Φ w.
Proof.
  intros Hv Hf HΦ. unfold upd_server. wp_steps. apply (get_server_spec s v); [done|]. wp_steps. apply HΦ.
  eexists. split; [done|]. intros s'. simpl. destruct (decide (s' = s)) as [->|]; [|by rewrite lookup_insert_ne].
  rewrite lookup_insert_eq, Hv. simpl. by rewrite Hf.
Qed.

Lemma flag_rewired r b w (Φ : unit -> world -> Prop) x :
  reserves (plugin w) !! r = Some x ->
  (forall w', rewired w w' -> same_chain (plugin w) (plugin w') -> Φ tt w') -> wp (upd_reserve r (set_is_currently_scheduled b)) Φ w.
Proof. intros Hx HΦ. apply (flag_spec r b w Φ x Hx). intros g Cg Hg. apply HΦ; [by exists g|done]. Qed.

Lemma claim_spec n s w :
  config (plugin w) -> belongs (plugin w) n s ->
  wp (npsf_claim n) (fun o w' => rewired w w' /\
    match o with Some next => next = hp_of w s | None => ~ owner (plugin w) n end) w.
Proof.
  intros C Hb. pose proof Hb as (x & Hx & Hs). destruct (cf_server _ C n x Hx) as (s' & Es & [v Hv]). assert (s' = s) as -> by congruence.
  unfold npsf_claim. wp_steps. apply (server_of_spec n s); [done|]. wp_steps. apply (flag_rewired n true w _ x); [done|].
  intros w1 Rw1 C1. destruct (chain_server _ _ _ _ C1 Hv) as (v1 & Hv1 & Ec1 & _). wp_steps. apply (get_server_spec s v1); [done|].
  case_decide as Hc; wp_steps.
  - unfold upd_entry. wp_steps. destruct Rw1 as (g & -> & Hg). split; [by eexists|]. specialize (Hg s). unfold hp_of. simpl in Hv1.
    rewrite Hv, Hv1 in Hg. rewrite Hv. simpl in *. congruence.
  - apply (wp_mono _ (fun _ w' => rewired w w' /\ reserves (plugin w') = reserves (plugin w1))).
    + apply wp_when. destruct (bool_decide _); [|done]. apply (rewire_server s v1); [done|by destruct v1|].
      intros Rw. split; [by eapply rewired_trans|done].
    + intros _ w2 [Rw2 Er]. wp_steps. destruct (chain_reserve _ _ _ _ C1 Hx) as (x1 & Hx1 & _). rewrite <- Er in Hx1.
      apply (flag_rewired n false w2 _ x1); [done|]. intros w3 Rw3 _. wp_steps. split; [by eapply rewired_trans|].
      intros (s2 & v2 & Hb2 & Hv2 & Hc2). rewrite (belongs_once _ _ _ _ Hb2 Hb) in Hv2. simplify_eq. congruence.
Qed.

Lemma keep_spec p s w :
  config (plugin w) -> belongs (plugin w) p s -> wp (npsf_keep p) (fun next w' => rewired w w' /\ next = hp_of w s) w.
Proof.
  intros C Hb. pose proof Hb as (x & Hx & Hs). destruct (cf_server _ C p x Hx) as (s' & Es & [v Hv]). assert (s' = s) as -> by congruence.
  unfold npsf_keep. wp_steps. apply (server_of_spec p s); [done|]. wp_steps. apply (flag_rewired p true w _ x); [done|].
  intros w1 Rw1 C1. destruct (chain_server _ _ _ _ C1 Hv) as (v1 & Hv1 & _). wp_steps. apply (get_server_spec s v1); [done|]. wp_steps.
  split; [done|]. destruct Rw1 as (g & -> & Hg). specialize (Hg s). unfold hp_of. simpl in Hv1. rewrite Hv, Hv1 in Hg. rewrite Hv.
  simpl in *. congruence.
Qed.

(** The next processor is asked to reschedule, unless it is the first one of the
    chain and has not asked to be notified. *)
Lemma notify_spec p x s v w :
  npsf_inv w -> config (plugin w) -> reserves (plugin w) !! p = Some x -> r_server x = Some s -> servers (plugin w) !! s = Some v ->
  next_npsf x <> Some p ->
  wp (npsf_notify_next_cpu p) (fun _ w' => npsf_inv w' /\ same_members w w' /\ (forall s, hp_of w' s = hp_of w s) /\
    this_cpu w' = this_cpu w /\ exists n xn, next_npsf x = Some n /\ reserves (plugin w) !! n = Some xn /\
      (first_reserve v <> Some n \/ first_cpu_wants_ipi v = true -> asked w' (n_cpu (npsf_cpu_entries (plugin w) (r_cpu xn))))) w.
Proof.
  intros Hi C Hx Hs Hv Hne. destruct (cf_next _ C p x s Hx Hs) as (n & En & xn & Hxn & Hsn).
  unfold npsf_notify_next_cpu, get_reserve. wp_steps. exists x. split; [done|]. apply wp_when. rewrite bool_decide_true by done.
  wp_steps. exists s. split; [done|]. wp_steps. rewrite En. apply (rewire_server s v); [done|by destruct v|]. set (w1 := set_plugin _ w).
  intros Rw1. wp_steps. set (v1 := set_curr_reserve (Some n) v).
  assert (servers (plugin w1) !! s = Some v1) as Hv1 by (simpl; apply lookup_insert_eq).
  assert (config (plugin w1)) as C1.
  { change (plugin w1) with (set_servers (<[s:=v1]> (servers (plugin w))) (plugin w)).
    eapply config_chain; [|apply (config_curr s n (plugin w) C); by exists xn]. split; try done; intros s'; simpl;
      (destruct (decide (s' = s)) as [->|]; [rewrite lookup_insert_eq, lookup_alter_eq, Hv|rewrite lookup_insert_ne, lookup_alter_ne]; done). }
  apply (get_server_spec s v1); [done|]. apply wp_when.
  destruct (bool_decide (first_reserve v1 <> curr_reserve v1) || first_cpu_wants_ipi v1) eqn:Enot.
  2: { destruct (rewired_inv w w1 Hi Rw1 C1) as (? & ? & ? & ?). split_and!; try done. exists n, xn. split_and!; try done.
       apply orb_false_iff in Enot as [E1%bool_decide_eq_false E2]. intros [E|E]; [by destruct E1|]. simpl in E2. congruence. }
  wp_steps. apply (rewire_server s v1); [done|by destruct v1|]. set (w2 := set_plugin _ w1). intros Rw2.
  assert (config (plugin w2)) as C2.
  { eapply config_chain; [|exact C1]. split; try done; intros s'; simpl;
      (destruct (decide (s' = s)) as [->|]; [by rewrite !lookup_insert_eq|by rewrite !lookup_insert_ne]). }
  destruct (rewired_inv w w2 Hi (rewired_trans _ _ _ Rw1 Rw2) C2) as (Hi2 & Hm2 & Eh2 & Ecpu2). wp_steps. exists n. split; [done|].
  unfold npsf_preempt, get_reserve, get_entry. wp_steps. exists xn. split; [done|]. wp_steps.
  eapply wp_mono; [apply homes_frames; [eauto with litmus|apply preempt_asks, Hi2]|].
  intros _ w3 [[[Hq3 Hw3] Ha3] Hh3]. destruct (npsf_quiet w2 w3 Hi2 Hq3 Hw3 Hh3) as [Hi3 Hm3].
  split_and!; [done|by transitivity w2|intros s'; by rewrite (hp_of_quiet w2 w3)|by rewrite (se_cpu _ _ (qt_env _ _ Hq3))|]. exists n, xn. split_and!; try done.
Qed.

(** ** npsf_schedule *)

(** The processor executes the reserve [r] of the server [s] and runs its head. *)
Record executes (r : positive) s (next : option tid) w' : Prop := {
  ex_inv : npsf_inv w';
  ex_here : cpu_reserve (npsf_cpu_entries (plugin w') (this_cpu w')) = Some r;
  ex_belongs : belongs (plugin w') r s;
  ex_next : next = hp_of w' s
}.

Lemma enact_executes r s w (next : option tid) :
  executes r s next w -> wp (npsf_enact next) (fun next w' => executes r s next w' /\ same_members w w') w.
Proof.
  intros [Hi Hh Hb ->]. eapply wp_mono; [by apply enact_spec|].
  intros next w' (-> & Hi' & Hm & Epl & Ecpu). split; [|done]. split; [done|by rewrite Ecpu, Epl|by rewrite Epl|].
  unfold hp_of. by rewrite Epl.
Qed.

(** After the server has been claimed. *)
Lemma handover_spec p n s sn w :
  npsf_inv w -> config (plugin w) -> cpu_reserve (npsf_cpu_entries (plugin w) (this_cpu w)) = Some n ->
  belongs (plugin w) n sn -> belongs (plugin w) p s ->
  wp (npsf_notify_next_cpu p;; mret (hp_of w sn)) (fun next w' => executes n sn next w' /\ same_members w w') w.
Proof.
  intros Hi C Hh Hbn Hbp. pose proof Hbp as (x & Hx & Hs). wp_steps.
  destruct (cf_server _ C p x Hx) as (s' & Es & [v Hv]). assert (s' = s) as -> by congruence.
  destruct (decide (next_npsf x = Some p)) as [En|En].
  - unfold npsf_notify_next_cpu, get_reserve. wp_steps. exists x. split; [done|]. apply wp_when.
    rewrite bool_decide_false by (intros Hn; by apply Hn). wp_steps. by split.
  - assert (forall (a : unit) w', npsf_notify_next_cpu p w = Some (a, w') ->
      same_chain (with_curr s (next_npsf x) (plugin w)) (plugin w')) as HC.
    { intros [] w' (x' & Hx' & [[E _]|(s' & Es' & _ & C')])%notify_result; simplify_eq. exact C'. }
    eapply wp_mono; [exact (with_result _ _ _ _ (notify_spec p x s v w Hi C Hx Hs Hv En) HC)|].
    intros _ w' [(Hi' & Hm & Eh & Ecpu & _) C']. wp_steps. split; [|done]. split; [done| | |by rewrite Eh].
    + by rewrite Ecpu, (sc_here _ _ C').
    + eapply belongs_chain; [exact C'|done].
Qed.

(** What [npsf_schedule] establishes, when [p] was executed before. *)
Definition scheduled_server (p : positive) w (next : option tid) w' : Prop :=
  let c := this_cpu w in
  same_members w w' /\ exists now to n r s,
    clock w <= now <= time_end w /\ eligible (plugin w) c now n to /\ executes r s next w' /\
    (r = n \/ r = p /\ ~ owner (plugin w) n).

Lemma schedule_switch p n s w1 :
  npsf_inv w1 -> config (plugin w1) -> cpu_reserve (npsf_cpu_entries (plugin w1) (this_cpu w1)) = Some p ->
  n ∈ npsf_reserves (npsf_cpu_entries (plugin w1) (this_cpu w1)) -> belongs (plugin w1) p s ->
  wp (c ← npsf_claim n;
      match c with
      | Some next => npsf_notify_next_cpu p;; mret next
      | None => npsf_keep p
      end) (fun next w' => same_members w1 w' /\ exists r s', executes r s' next w' /\ (r = n \/ r = p /\ ~ owner (plugin w1) n)) w1.
Proof.
  intros Hi C Hh Hn Hb. destruct (config_belongs _ _ n C Hn) as (sn & Hbn & _). wp_steps.
  eapply wp_mono; [exact (with_result _ _ _ _ (claim_spec n sn w1 C Hbn) (claim_result n w1))|].
  intros [next|] w2 [[Rw Ho] CR].
  - destruct CR as [_ C2]. subst next. pose proof (config_chain _ _ C2 (config_here _ _ _ C Hn)) as Hc2.
    destruct (rewired_inv w1 w2 Hi Rw Hc2) as (Hi2 & Hm2 & Eh2 & Ecpu). rewrite <- Eh2.
    assert (belongs (plugin w2) n sn) as Hbn2 by (eapply belongs_chain; [exact C2|done]).
    eapply wp_mono; [apply (handover_spec p n s sn w2); [done|done| |done|by eapply belongs_chain; [exact C2|]]|].
    { rewrite Ecpu, (sc_here _ _ C2). simpl. by rewrite upd_eq. }
    intros next w3 [Hx Hm3]. split; [by transitivity w2|]. exists n, sn. split; [done|by left].
  - pose proof (config_chain _ _ CR C) as Hc2. destruct (rewired_inv w1 w2 Hi Rw Hc2) as (Hi2 & Hm2 & Eh2 & Ecpu).
    assert (belongs (plugin w2) p s) as Hb2 by (eapply belongs_chain; [exact CR|done]).
    eapply wp_mono; [exact (with_result _ _ _ _ (keep_spec p s w2 Hc2 Hb2) (fun a w' E => chain_keep p w2 a w' E))|].
    intros next w3 [[Rw3 ->] C3]. unfold on_plugin in C3. pose proof (config_chain _ _ C3 Hc2) as Hc3.
    destruct (rewired_inv w2 w3 Hi2 Rw3 Hc3) as (Hi3 & Hm3 & Eh3 & Ecpu3). split; [by transitivity w2|]. exists p, s.
    split; [|by right]. split; [done| |by eapply belongs_chain; [exact C3|]|by rewrite Eh3].
    by rewrite Ecpu3, (sc_here _ _ C3), Ecpu, (sc_here _ _ CR).
Qed.

Lemma schedule_server_spec prev p s total w :
  serving prev p s total w -> wp (npsf_schedule prev) (scheduled_server p w) w.
Proof.
  intros Hsv. pose proof Hsv as [Hi Ht C Ha Hh Hb Hsl Hf Hpr]. unfold npsf_schedule. wp_steps. rewrite Ha. simpl. wp_steps.
  eapply wp_mono; [by eapply serve_spec|]. intros v w1 (Hi1 & Hm1 & C1 & Ecpu & now & to & n & Hn & He & Hv).
  pose proof (config_chain _ _ C1 C) as Hc1. pose proof (belongs_chain _ _ _ _ C1 Hb) as Hb1.
  assert (cpu_reserve (npsf_cpu_entries (plugin w1) (this_cpu w1)) = Some p) as Hh1 by (by rewrite Ecpu, (sc_here _ _ C1)).
  unfold scheduled_server. destruct v as [next|p' n']; wp_steps.
  - destruct Hv as [-> ->]. eapply wp_mono; [by apply enact_executes|]. intros next w2 [Hx Hm2].
    split; [by transitivity w1|]. exists now, to, p, p, s. split_and!; try done; [lia..|by left].
  - destruct Hv as (-> & -> & Hne).
    assert (n ∈ npsf_reserves (npsf_cpu_entries (plugin w1) (this_cpu w1))) as Hnl.
    { rewrite Ecpu, (sc_list _ _ C1). destruct He as (from & Hwin & _). by eapply window_elem. }
    pose proof (schedule_switch p n s w1 Hi1 Hc1 Hh1 Hnl Hb1) as HS. apply wp_bind in HS. eapply wp_mono; [exact HS|]. clear HS.
    intros o w2 HS. eapply wp_mono; [exact HS|]. clear HS.
    intros next w3 (Hm3 & r & s' & Hx & Hr). eapply wp_mono; [by apply enact_executes|]. intros next' w4 [Hx4 Hm4].
    split; [by transitivity w1; [|transitivity w3]|]. exists now, to, n, r, s'. split_and!; try done; [lia..|].
    destruct Hr as [->|[-> Hno]]; [by left|right; split; [done|]]. intros Ho. apply Hno. by eapply owner_chain.
Qed.



End Main.
