(* ===== verification/NpsSetup.v ===== *)
(** * NPS-F: setting up the servers

    The system call [add_server], the activation and deactivation of the plugin
    and the release of its memory (src/litmus2010/litmus/sched_npsf.c), and the
    slot length set through /proc (litmus/litmus.c).

    What [kmalloc] returns is an argument: the address, or [None], and the
    contents the memory happens to have, since several fields are not
    initialised.  The same holds of the array [npsf_reserve_array] on the
    stack.  Pointers and [lt_t] have 64 bits, [int] 32. *)

From stdpp Require Import sorting.
From S2P Require Import Prelude Task Edf PrioQueue Kernel RtDomain EdfDomain Syscalls NpsF.
Open Scope Z_scope.

Section Setup.
Context {Q : Type -> Type} `{PrioQueue Q}.
Abbreviation world := (world Q nstate).
Abbreviation K := (M world).

(** The memory of a new reserve *)
Abbreviation chunk := (option (positive * npsf_reserve)).

(** [inl] is the error. *)
Definition do_add_reserve (new : chunk) (c the_dom npsf_id budget : Z) : K (Z + positive) :=
  e ← get_entry c;
  g ← gets plugin;
  (* the ids of a cpu are given in increasing order *)
  if npsf_id <=? last_seen_npsf_id e then mret (inl (- EINVAL))
  (* no server changes if there are tasks in the system *)
  else if negb (n_rt_tasks g =? 0) then mret (inl (- EACCES))
  else
    match new with
    | None => mret (inl (- ENOMEM))
    | Some (r, mem) =>
        upd_state (fun g => set_reserves
          (<[r := mk_reserve (Some the_dom) budget c npsf_id (next_npsf mem) (is_currently_scheduled mem)]> (reserves g)) g);;
        upd_entry c (fun e =>
          let l := npsf_reserves e ++ [r] in
          mk_nentry (head l) l (n_cpu e) (n_timer e) (should_expire e) npsf_id);;
        mret (inr r)
    end.

(** ** add_server *)

(** [struct npsf_budgets], the CPU as unsigned *)
Abbreviation npsf_budgets := (Z * Z)%type.

(** The array after [copy_from_user(budgets, __budgets, sizeof(budgets) * n)]:
    [sizeof(budgets)] is the size of a pointer, 8, and an element has 16 bytes,
    the CPU in the first 4 and the budget in the last 8. *)
Definition copied_budget (n i : nat) (u : npsf_budgets) : npsf_budgets :=
  (if decide (16 * i + 4 <= 8 * n)%nat then u.1 else NO_CPU,
   if decide (16 * i + 16 <= 8 * n)%nat then u.2 else 0).

Definition copied_budgets (n : nat) (user : nat -> npsf_budgets) : list npsf_budgets :=
  (fun i => copied_budget n i (user i)) <$> seq 0 n.

(** The loops stop at the first entry without a CPU; the condition reads an
    entry before it compares the index, and a read beyond the array faults. *)
Fixpoint add_reserves (bs : list npsf_budgets) (news : list chunk) (srv id : Z) : K (Z + list positive) :=
  match bs with
  | [] => fault
  | (c, b) :: bs =>
      if c =? NO_CPU then mret (inr [])
      else
        new ← of_option (head news);
        a ← do_add_reserve new c srv id b;
        match a with
        | inl err => mret (inl err)
        | inr r =>
            l ← add_reserves bs (tail news) srv id;
            mret (match l with inl err => inl err | inr l => inr (r :: l) end)
        end
  end.

(** [npsf_reserve_array]: the reserves added, and what the stack holds beyond. *)
Definition reserve_array (added : list positive) (stack : nat -> option positive) (i : nat) : option positive :=
  match added !! i with Some r => Some r | None => stack i end.

Fixpoint link_reserves (n i : nat) (bs : list npsf_budgets) (arr : nat -> option positive) : K unit :=
  match bs with
  | [] => fault
  | (c, _) :: bs =>
      if c =? NO_CPU then mret tt
      else
        let last := (fun b => b.1 =? NO_CPU) <$> head bs in
        nxt ← (if decide (i = 0)%nat then
                 (* a fixed reserve always has itself as next *)
                 l ← of_option last;
                 mret (if (l : bool) then arr i else arr (S i))
               else if bool_decide (S i < n)%nat && default false last then
                 (* the last reserve in the chain has the first reserve as next *)
                 mret (arr O)
               else (* normal continuing reserve *) mret (arr (S i)));
        r ← of_option (arr i);
        upd_reserve r (set_next_npsf nxt);;
        link_reserves n (S i) bs arr
  end.

Fixpoint print_reserves (l : list positive) : K unit :=
  match l with
  | [] => mret tt
  | r :: l =>
      x ← get_reserve r;
      srv ← of_option (r_server x);
      s ← get_server srv;
      BUG_ON (bool_decide (highest_prio s <> None));;
      print_reserves l
  end.

Definition print_reserve (c : Z) : K unit := e ← get_entry c; print_reserves (npsf_reserves e).

Fixpoint print_all (bs : list npsf_budgets) : K unit :=
  match bs with
  | [] => fault
  | (c, _) :: bs => if c =? NO_CPU then mret tt else print_reserve c;; print_all bs
  end.

Fixpoint for_each_cpu (f : Z -> K unit) (l : list Z) : K unit :=
  match l with
  | [] => mret tt
  | c :: l => f c;; for_each_cpu f l
  end.
Definition for_each_online_cpu (f : Z -> K unit) : K unit :=
  g ← gets plugin; for_each_cpu f (cpu_online g).

(** The first reserve of a processor becomes the current one; the processor
    must have one. *)
Definition start_cpu (c : Z) : K unit :=
  e ← get_entry c;
  first ← of_option (head (npsf_reserves e));
  srv ← server_of first;
  upd_server srv (set_curr_reserve (Some first));;
  upd_entry c (set_cpu_reserve (Some first)).

Definition kickoff_timers : K unit :=
  now ← litmus_clock;
  g ← gets plugin;
  kickoff ← of_option (slot_begin g (u64 (now + u64 (npsf_slot_length g * 2))));
  for_each_online_cpu (fun c => upd_entry c (fun e => set_should_expire kickoff (set_n_timer (Some kickoff) e)));;
  upd_state (set_timers_activated true).

(** [budgets_ok], [srv_mem], [news]: what the allocations return; the address of
    a server comes with what its memory holds.  [id_ok], [copy_ok]: whether the
    arguments could be copied. *)
Definition sys_add_server (id_ok budgets_ok copy_ok : bool) (id : Z) (user : nat -> npsf_budgets)
    (srv_mem : option (Z * npsf_server)) (news : list chunk) (stack : nat -> option positive) (last : bool) : K Z :=
  g ← gets plugin;
  let n := Z.to_nat (_online_cpus g) in
  if negb (_online_cpus g =? Z.of_nat (length (cpu_online g))) then mret (- EFAULT)
  else if negb id_ok then mret (- EFAULT)
  else
    (* the result of kmalloc is not checked *)
    BUG_ON (negb budgets_ok && negb (_online_cpus g =? 0));;
    if negb copy_ok then mret (- EFAULT)
    else
      let budgets := copied_budgets n user in
      match srv_mem with
      | None => mret (- ENOMEM)
      | Some (srv, mem) =>
          edf_domain_init srv;;
          upd_state (fun g => set_servers (<[srv := set_highest_prio None mem]> (servers g)) g);;
          l ← add_reserves budgets news srv id;
          match l with
          | inl err => mret err
          | inr added =>
              let arr := reserve_array added stack in
              upd_server srv (fun s => mk_server (highest_prio s) (arr O) (arr O) false);;
              link_reserves n 0 budgets arr;;
              print_all budgets;;
              when last
                (for_each_online_cpu start_cpu;;
                 kickoff_timers;;
                 (* real plugin enable *)
                 upd_state (set_all_servers_added true));;
              (* at least one server was initialized and may need deletion *)
              upd_state (set_reserves_allocated true);;
              mret (match added with [] => - EFAULT | _ => 0 end)
          end
      end.

(** ** Removing the servers *)

(** [rounds] gives the results of [hrtimer_try_to_cancel] for each round of the
    loop: -1 while the callback is running. *)
Fixpoint cancel_timers (rounds : list (Z -> Z)) : K unit :=
  match rounds with
  | [] => fault
  | try :: rounds =>
      g ← gets plugin;
      for_each_cpu (fun c => when (negb (try c =? -1)) (upd_entry c (set_n_timer None))) (cpu_online g);;
      when (existsb (fun c => try c =? -1) (cpu_online g)) (cancel_timers rounds)
  end.

Definition npsf_hrtimers_cleanup (rounds : list (Z -> Z)) : K unit :=
  g ← gets plugin;
  when (timers_activated g)
    (upd_state (set_timers_activated false);;
     cancel_timers rounds).

(** The reserves of the chain after [tmp] forget the server. *)
Fixpoint unlink_chain (fuel : nat) (tmp save : positive) : K unit :=
  match fuel with
  | O => fault
  | S fuel =>
      r ← get_reserve save;
      match next_npsf r with
      | Some nx =>
          if decide (nx = tmp) then mret tt
          else
            upd_reserve nx (set_r_server None);;
            unlink_chain fuel tmp nx
      | None => mret tt
      end
  end.

Definition free_server (srv : Z) : K unit :=
  _ ← get_server srv;
  upd_state (fun g => set_servers (delete srv (servers g)) g).
Definition free_reserve (r : positive) : K unit :=
  _ ← get_reserve r;
  upd_state (fun g => set_reserves (delete r (reserves g)) g).

Fixpoint cleanup_reserves (l : list positive) : K unit :=
  match l with
  | [] => mret tt
  | tmp :: l =>
      r ← get_reserve tmp;
      g ← gets plugin;
      match r_server r with
      | Some srv => unlink_chain (S (size (reserves g))) tmp tmp;; free_server srv
      | None => mret tt
      end;;
      free_reserve tmp;;
      cleanup_reserves l
  end.

Definition cleanup_npsf : K unit :=
  for_each_online_cpu (fun c =>
    e ← get_entry c;
    cleanup_reserves (npsf_reserves e);;
    upd_entry c (set_npsf_reserves [])).

Definition npsf_deactivate_plugin (g : nstate) : Z := if timers_activated g then -1 else 0.

Definition npsf_activate_plugin : K Z :=
  now ← litmus_clock;
  g ← gets plugin;
  if timers_activated g then mret (-1)
  else
    upd_state (set_all_servers_added false);;
    (* de-allocate old servers (if any) *)
    when (reserves_allocated g) cleanup_npsf;;
    upd_state (set__online_cpus (Z.of_nat (length (cpu_online g))));;
    for_each_online_cpu (fun c => upd_entry c (fun e => mk_nentry None [] c None (should_expire e) (-1)));;
    (* time starts now! *)
    upd_state (set_time_origin now);;
    mret 0.

Definition exit_npsf : K unit :=
  g ← gets plugin;
  if timers_activated g then upd_state (set_timers_activated false)
  else when (reserves_allocated g) cleanup_npsf.

(** ** /proc/litmus/npsf_slot_length *)

(** [count] bytes are written; [scanned] is the number [sscanf] finds. *)
Definition proc_write_npsf_slot_length (count : Z) (copy_ok : bool) (scanned : option Z) (rounds : list (Z -> Z)) : K Z :=
  if 63 <? count then mret (- EINVAL)
  else if negb copy_ok then mret (- EFAULT)
  else
    match scanned with
    | None => mret (- EINVAL)
    | Some slot_length =>
        slot_length ← (if slot_length =? 0 then npsf_hrtimers_cleanup rounds;; mret 5000 (* default *)
                       else mret slot_length);
        upd_state (set_npsf_slot_length (u64 (u64 slot_length * 1000)));;
        mret count
    end.

End Setup.
