(* ===== verification/NpsStart.v ===== *)
(** * NPS-F: the servers after they have been set up

    What the system call [add_server] (src/litmus2010/litmus/sched_npsf.c)
    establishes: a successful call adds a closed chain of reserves, and the last
    call makes every processor the owner of its first reserve, if no two of
    these belong to the same server. *)

From stdpp Require Import sorting.
From S2P Require Import Prelude Task Edf PrioQueue Kernel RtDomain RtInv EdfDomain Partitioned Frames Syscalls.
From S2P Require Import NpsF NpsSetup NpsOwner.
Open Scope Z_scope.

(** ** The copied budgets *)

Lemma copied_lookup n user i : (i < n)%nat -> copied_budgets n user !! i = Some (copied_budget n i (user i)).
Proof. intros Hi. unfold copied_budgets. rewrite list_lookup_fmap, lookup_seq_lt by done. done. Qed.

(** Half of the array is copied: later entries name no processor. *)
Lemma copied_beyond n user i : (n <= 2 * i)%nat -> (i < n)%nat -> copied_budgets n user !! i = Some (NO_CPU, 0).
Proof. intros Hn Hi. rewrite copied_lookup by done. unfold copied_budget. repeat case_decide; (done || lia). Qed.

Section Start.
Context {Q : Type -> Type} `{PrioQueue Q}.
Abbreviation world := (world Q nstate).
Abbreviation K := (M world).
Implicit Types (w : world).

(** ** A chain under construction *)

(** The reserves [A] have been added to the new server [s] and those in [L] have
    been linked. *)
Record building s (A L : list positive) (g : nstate) : Prop := {
  bd_list c r : r ∈ npsf_reserves (npsf_cpu_entries g c) -> exists x, reserves g !! r = Some x /\ r_cpu x = c;
  bd_server r x : reserves g !! r = Some x -> exists s', r_server x = Some s' /\ is_Some (servers g !! s');
  bd_next r x s' : (r ∈ A -> r ∈ L) -> reserves g !! r = Some x -> r_server x = Some s' ->
    exists n, next_npsf x = Some n /\ belongs g n s';
  bd_curr s' v : s' <> s -> servers g !! s' = Some v -> exists r, curr_reserve v = Some r /\ belongs g r s';
  bd_here c r : cpu_reserve (npsf_cpu_entries g c) = Some r -> r ∈ npsf_reserves (npsf_cpu_entries g c);
  bd_new r : r ∈ A -> belongs g r s;
  bd_live : is_Some (servers g !! s)
}.

(** The new server, before it has any reserves *)
Lemma building_begin s v g :
  config g -> servers g !! s = None -> building s [] [] (set_servers (<[s := v]> (servers g)) g).
Proof.
  intros [Hl Hs Hn Hc Hh] Hf. split; try done.
  - intros r x Hx. destruct (Hs r x Hx) as (s' & Es & [v' Hv]). exists s'. split; [done|]. simpl.
    destruct (decide (s' = s)) as [->|]; [rewrite lookup_insert_eq; eauto|rewrite lookup_insert_ne; eauto].
  - intros r x s' _. apply Hn.
  - intros s' v' Hne. simpl. rewrite lookup_insert_ne by done. apply Hc.
  - by intros r ?%elem_of_nil.
  - simpl. rewrite lookup_insert_eq. eauto.
Qed.

(** [do_add_reserve] *)
Lemma building_add s A g c r id b mem :
  building s A [] g -> reserves g !! r = None ->
  let e := npsf_cpu_entries g c in
  let g1 := set_reserves (<[r := mk_reserve (Some s) b c id (next_npsf mem) (is_currently_scheduled mem)]> (reserves g)) g in
  building s (A ++ [r]) [] (set_npsf_cpu_entries (upd (npsf_cpu_entries g1) c
    (mk_nentry (head (npsf_reserves e ++ [r])) (npsf_reserves e ++ [r]) (n_cpu e) (n_timer e) (should_expire e) id)) g1).
Proof.
  intros [Hl Hs Hn Hc Hh Hw Hv] Hf e g1.
  assert (forall r' s', belongs g r' s' -> belongs g1 r' s') as Hbel.
  { intros r' s' (x & Hx & Es). exists x. split; [|done]. simpl. rewrite lookup_insert_ne; [done|]. intros ->. congruence. }
  assert (belongs g1 r s) as Hnew by (eexists; simpl; rewrite lookup_insert_eq; done).
  split; try done.
  - intros c' r'. simpl. unfold upd. case_decide; simpl.
    + subst c'. rewrite elem_of_app, list_elem_of_singleton. intros [Hr| ->].
      * destruct (Hl c r' Hr) as (x & Hx & Ex). exists x. split; [|done]. rewrite lookup_insert_ne; [done|]. intros ->. congruence.
      * eexists. rewrite lookup_insert_eq. done.
    + intros Hr. destruct (Hl c' r' Hr) as (x & Hx & Ex). exists x. split; [|done]. rewrite lookup_insert_ne; [done|]. intros ->. congruence.
  - intros r' x. simpl. destruct (decide (r' = r)) as [->|Hne]; [rewrite lookup_insert_eq; intros [= <-]; by exists s|].
    rewrite lookup_insert_ne by done. apply Hs.
  - intros r' x s' HA. simpl. destruct (decide (r' = r)) as [->|Hne].
    + exfalso. destruct (not_elem_of_nil r). apply HA. apply elem_of_app. right. by apply list_elem_of_singleton.
    + rewrite lookup_insert_ne by done. intros Hx Es. destruct (Hn r' x s') as (n & En & Hb); [|done|done|].
      * intros Hr. apply HA, elem_of_app. by left.
      * exists n. split; [done|by apply Hbel].
  - intros s' v Hne E. destruct (Hc s' v Hne E) as (r' & Er & Hb). exists r'. split; [done|by apply Hbel].
  - intros c' r'. simpl. unfold upd. case_decide; simpl; [|apply Hh]. intros E. by apply list_elem_of_lookup_2 with (i := 0%nat); destruct (_ ++ _).
  - intros r'. rewrite elem_of_app, list_elem_of_singleton. intros [Hr| ->]; [by apply Hbel, Hw|done].
Qed.

(** [npsf_reserve_array[i]->next_npsf = ...] *)
Lemma building_link s A L g r x n :
  building s A L g -> reserves g !! r = Some x -> r ∈ A -> belongs g n s ->
  building s A (r :: L) (set_reserves (<[r := set_next_npsf (Some n) x]> (reserves g)) g).
Proof.
  intros [Hl Hs Hn Hc Hh Hw Hv] Hx HrA Hb. set (g1 := set_reserves _ g).
  assert (forall r' s', belongs g r' s' -> belongs g1 r' s') as Hbel.
  { intros r' s' (x' & Hx' & Es). destruct (decide (r' = r)) as [->|Hne].
    - assert (x' = x) as -> by congruence. exists (set_next_npsf (Some n) x). simpl. by rewrite lookup_insert_eq.
    - exists x'. simpl. by rewrite lookup_insert_ne. }
  split; try done.
  - intros c r' Hr. destruct (Hl c r' Hr) as (x' & Hx' & Ex). simpl. destruct (decide (r' = r)) as [->|Hne].
    + assert (x' = x) as -> by congruence. eexists. by rewrite lookup_insert_eq.
    + exists x'. by rewrite lookup_insert_ne.
  - intros r' x'. simpl. destruct (decide (r' = r)) as [->|Hne]; [rewrite lookup_insert_eq; intros [= <-]; by apply (Hs r x)|].
    rewrite lookup_insert_ne by done. apply Hs.
  - intros r' x' s' HA. simpl. destruct (decide (r' = r)) as [->|Hne].
    + rewrite lookup_insert_eq. intros [= <-] Es. exists n. split; [done|]. simpl in Es.
      assert (s' = s) as -> by (eapply belongs_once; [by exists x|by apply Hw]). by apply Hbel.
    + rewrite lookup_insert_ne by done. intros Hx' Es. destruct (Hn r' x' s') as (n' & En & Hb'); [|done|done|].
      * intros Hr. by apply HA, elem_of_cons in Hr as [?|?].
      * exists n'. split; [done|by apply Hbel].
  - intros s' v Hne E. destruct (Hc s' v Hne E) as (r' & Er & Hb'). exists r'. split; [done|by apply Hbel].
  - intros r' Hr. by apply Hbel, Hw.
Qed.

Lemma building_curr s A L g v :
  building s A L g -> is_Some (servers g !! s) -> building s A L (set_servers (<[s := v]> (servers g)) g).
Proof.
  intros [Hl Hs Hn Hc Hh Hw Hv] _. split; try done.
  - intros r x Hx. destruct (Hs r x Hx) as (s' & Es & [v' Hv']). exists s'. split; [done|]. simpl.
    destruct (decide (s' = s)) as [->|]; [rewrite lookup_insert_eq; eauto|rewrite lookup_insert_ne; eauto].
  - intros s' v' Hne. simpl. rewrite lookup_insert_ne by done. by apply Hc.
  - simpl. rewrite lookup_insert_eq. eauto.
Qed.

(** The chain is complete. *)
Lemma building_end s A g v r :
  building s A A g -> servers g !! s = Some v -> curr_reserve v = Some r -> r ∈ A -> config g.
Proof.
  intros [Hl Hs Hn Hc Hh Hw Hv] Hsv Hr HA. split; try done.
  - intros r' x s'. by apply Hn.
  - intros s' v' Hv'. destruct (decide (s' = s)) as [->|Hne]; [|by apply Hc]. simplify_eq. exists r. split; [done|by apply Hw].
Qed.

(** ** The loops of [add_server] *)

(** The allocator returns new addresses. *)
Record fresh_chunks (g : nstate) (news : list (option (positive * npsf_reserve))) : Prop := {
  fc_nodup : NoDup (fst <$> omap id news);
  fc_new r : r ∈ (fst <$> omap id news) -> reserves g !! r = None
}.

(** The entries the loops see: those before the first without a processor. *)
Definition seen (bs : list (Z * Z)) (k : nat) : Prop :=
  exists b1 c b2, bs = b1 ++ (NO_CPU, c) :: b2 /\ length b1 = k /\ Forall (fun b => b.1 <> NO_CPU) b1.

Lemma do_add_result new c s id b w a w' :
  do_add_reserve new c s id b w = Some (a, w') ->
  match a with
  | inl _ => w' = w
  | inr r => exists mem, new = Some (r, mem) /\
      (forall A, building s A [] (plugin w) -> reserves (plugin w) !! r = None -> building s (A ++ [r]) [] (plugin w')) /\
      servers (plugin w') = servers (plugin w) /\
      exists x, reserves (plugin w') = <[r := x]> (reserves (plugin w))
  end.
Proof.
  unfold do_add_reserve, get_entry, upd_state, upd_entry. intros E.
  apply bind_inv in E as (e & w1 & [= <- <-] & E). apply bind_inv in E as (g & w2 & [= <- <-] & E).
  destruct (id <=? _); [by injection E as <- <-|]. destruct (negb _); [by injection E as <- <-|].
  destruct new as [[r mem]|]; [|by injection E as <- <-].
  apply bind_inv in E as ([] & w3 & [= <-] & E). apply bind_inv in E as ([] & w4 & [= <-] & E). injection E as <- <-.
  exists mem. split; [done|]. split; [|split; [done|by eexists]]. intros A Hb Hf. exact (building_add s A (plugin w) c r id b mem Hb Hf).
Qed.

Lemma add_reserves_result bs news s id A w l w' :
  add_reserves bs news s id w = Some (inr l, w') -> building s A [] (plugin w) -> fresh_chunks (plugin w) news ->
  building s (A ++ l) [] (plugin w') /\ servers (plugin w') = servers (plugin w) /\ seen bs (length l).
Proof.
  revert news A w l. induction bs as [|[c b] bs IH]; intros news A w l; [done|]. simpl. destruct (Z.eqb_spec c NO_CPU) as [->|Hc].
  { intros [= <- <-] Hb _. rewrite app_nil_r. split_and!; [done..|]. by exists [], b, bs. }
  intros E Hb [Hnd Hfr]. apply bind_inv in E as (new & w1 & E1 & E).
  destruct news as [|new' news]; [done|]. simpl in E1. injection E1 as <- <-. apply bind_inv in E as (a & w2 & E2 & E).
  apply do_add_result in E2. destruct a as [err|r]; [by injection E|]. destruct E2 as (mem & -> & Hadd & Es & x & Er).
  apply bind_inv in E as (l' & w3 & E3 & E). destruct l' as [err|l']; [by injection E|]. injection E as <- <-. simpl in *.
  apply NoDup_cons in Hnd as [Hnin Hnd].
  destruct (IH news (A ++ [r]) w2 l' E3) as (Hb3 & Es3 & b1 & c1 & b2 & -> & Hlen & Hall).
  - apply Hadd; [done|]. apply Hfr. by left.
  - split; [done|]. intros r' Hr'. rewrite Er, lookup_insert_ne; [apply Hfr; by right|]. by intros ->.
  - rewrite <- (assoc_L (++)) in Hb3. split_and!; [done|congruence|]. exists ((c, b) :: b1), c1, b2. simpl. split_and!; [done|lia|by constructor].
Qed.

(** The next reserve is one of the chain. *)
Lemma link_next n i k b1 c b2 (arr : nat -> option positive) w nxt w' (l : list positive) :
  (i + length b1 = k)%nat -> (k <= length l)%nat -> (S i <= k)%nat -> (k < n)%nat ->
  Forall (fun b : Z * Z => b.1 <> NO_CPU) b1 -> (forall j, (j < k)%nat -> exists r, arr j = Some r /\ r ∈ l) ->
  (if decide (i = 0)%nat then
     la ← of_option ((fun b : Z * Z => b.1 =? NO_CPU) <$> head (tail b1 ++ (NO_CPU, c) :: b2)); mret (if (la : bool) then arr i else arr (S i))
   else if bool_decide (S i < n)%nat && default false ((fun b : Z * Z => b.1 =? NO_CPU) <$> head (tail b1 ++ (NO_CPU, c) :: b2)) then
     mret (arr O)
   else mret (arr (S i))) w = Some (nxt, w') -> w' = w /\ exists r, nxt = Some r /\ r ∈ l.
Proof.
  intros Hk Hl Hi Hn Hall Harr. destruct b1 as [|b [|b' b1]]; simpl in *; [lia|..].
  - assert (S i = k) by lia. case_decide; simpl.
    + intros [= <- <-]. split; [done|]. apply Harr. lia.
    + rewrite bool_decide_true by lia. simpl. intros [= <- <-]. split; [done|]. apply Harr. lia.
  - apply Forall_cons in Hall as [_ [Hb' _]%Forall_cons]. apply Z.eqb_neq in Hb'. rewrite Hb'. simpl. rewrite andb_false_r.
    case_decide; intros [= <- <-]; (split; [done|]); apply Harr; lia.
Qed.

Lemma link_result n i b1 c b2 arr s l L w w' :
  link_reserves n i (b1 ++ (NO_CPU, c) :: b2) arr w = Some (tt, w') ->
  Forall (fun b : Z * Z => b.1 <> NO_CPU) b1 -> (i + length b1 = length l)%nat -> (length l < n)%nat ->
  (forall j, (j < length l)%nat -> arr j = l !! j) -> building s l L (plugin w) ->
  (forall j r, l !! j = Some r -> (j < i)%nat -> r ∈ L) ->
  building s l l (plugin w') /\ servers (plugin w') = servers (plugin w).
Proof.
  revert i L w. induction b1 as [|[c1 d1] b1 IH]; intros i L w E Hall Hk Hn Harr Hb HL.
  - simpl in E. injection E as <-. split; [|done]. destruct Hb as [H1 H2 H3 H4 H5 H6 H7]. split; try done.
    intros r x s' _ Hx Es. apply (H3 r x s'); [|done|done]. intros [j Hj]%list_elem_of_lookup_1. apply (HL j r Hj).
    apply lookup_lt_Some in Hj. simpl in Hk. lia.
  - simpl in E. apply Forall_cons in Hall as [Hc1 Hall]. simpl in Hc1. apply Z.eqb_neq in Hc1. rewrite Hc1 in E. simpl in Hk.
    apply bind_inv in E as (nxt & w1 & E1 & E).
    destruct (link_next n i (length l) ((c1, d1) :: b1) c b2 arr w nxt w1 l) as [-> (m & -> & Hm)]; try done; try (simpl; lia).
    { constructor; [by apply Z.eqb_neq|done]. }
    { intros j Hj. rewrite Harr by done. destruct (lookup_lt_is_Some_2 l j Hj) as [r Hr]. exists r. split; [done|].
      by eapply list_elem_of_lookup_2. }
    destruct (lookup_lt_is_Some_2 l i ltac:(lia)) as [r Hr]. rewrite (Harr i) in E by lia. rewrite Hr in E.
    apply bind_inv in E as (r' & w2 & [= <- <-] & E). apply bind_inv in E as ([] & w2 & E2 & E).
    unfold upd_reserve in E2. apply bind_inv in E2 as (x & w3 & [Hx ->]%get_reserve_inv & [= <-]).
    destruct (IH (S i) (r :: L) _ E) as [Hb' Es']; try done; try lia.
    + eapply building_link; [done|done|by eapply list_elem_of_lookup_2|by apply (bd_new _ _ _ _ Hb)].
    + intros j r' Hj Hlt. destruct (decide (j = i)) as [->|]; [simplify_eq; by left|]. right. apply (HL j r' Hj). lia.
Qed.

Lemma print_all_same bs w w' : print_all bs w = Some (tt, w') -> w' = w.
Proof.
  assert (forall l w w', print_reserves l w = Some (tt, w') -> w' = w) as Hp.
  { induction l as [|r l IH]; intros w0 w1; simpl; [by intros [= <-]|]. unfold get_reserve, get_server.
    intros E. repeat run_step. by apply IH. }
  revert w w'. induction bs as [|[c b] bs IH]; intros w w'; simpl; [done|]. destruct (c =? NO_CPU); [by intros [= <-]|].
  intros ([] & w1 & E1 & E2)%bind_inv. unfold print_reserve, get_entry in E1. apply bind_inv in E1 as (e & w2 & [= <- <-] & E1).
  apply Hp in E1. subst. by apply IH.
Qed.

(** The calls of [add_server] up to the place where the last one starts the
    plugin. *)
Lemma chain_added s mem id n bs news stack w w1 w2 w3 w4 w5 l :
  config (plugin w) -> servers (plugin w) !! s = None -> fresh_chunks (plugin w) news -> length bs = n -> l <> [] ->
  upd_state (fun g => set_servers (<[s := set_highest_prio None mem]> (servers g)) g) w = Some (tt, w1) ->
  add_reserves bs news s id w1 = Some (inr l, w2) ->
  upd_server s (fun v => mk_server (highest_prio v) (reserve_array l stack O) (reserve_array l stack O) false) w2 = Some (tt, w3) ->
  link_reserves n 0 bs (reserve_array l stack) w3 = Some (tt, w4) -> print_all bs w4 = Some (tt, w5) -> config (plugin w5).
Proof.
  intros C Hs Hfr Hlen Hne [= <-] E2 E3 E4 E5%print_all_same. subst w5.
  destruct (add_reserves_result bs news s id [] _ l w2 E2) as (Hb2 & Es2 & b1 & c1 & b2 & -> & Hk & Hall); [by apply building_begin|by destruct Hfr; split|].
  simpl in Hb2. unfold upd_server in E3. apply bind_inv in E3 as (v & w6 & [Hv ->]%get_server_inv & [= <-]).
  set (v' := mk_server (highest_prio v) _ _ _) in *. set (w3 := set_plugin _ w2) in *.
  rewrite length_app in Hlen. simpl in Hlen.
  destruct (link_result n 0 b1 c1 b2 _ s l [] w3 w4 E4) as [Hb4 Es4]; [done|simpl; lia|lia| | |by intros j r _ ?; lia|].
  { intros j Hj. unfold reserve_array. destruct (lookup_lt_is_Some_2 l j Hj) as [r Hr]. by rewrite Hr. }
  { apply building_curr; [done|eauto]. }
  destruct l as [|r l]; [done|]. eapply (building_end s (r :: l) _ v' r); [done| |done|by left]. rewrite Es4. simpl. apply lookup_insert_eq.
Qed.

Lemma add_reserves_seen bs news s id w l w' : add_reserves bs news s id w = Some (inr l, w') -> seen bs (length l).
Proof.
  revert news w l. induction bs as [|[c b] bs IH]; intros news w l; [done|]. simpl. destruct (Z.eqb_spec c NO_CPU) as [->|Hc].
  { intros [= <- <-]. by exists [], b, bs. }
  intros E. apply bind_inv in E as (new & w1 & E1 & E). apply bind_inv in E as (a & w2 & E2 & E). destruct a as [e|r]; [done|].
  apply bind_inv in E as (l' & w3 & E3 & E). destruct l' as [e|l']; [done|]. injection E as <- <-.
  apply IH in E3 as (b1 & c1 & b2 & -> & Hlen & Hall). exists ((c, b) :: b1), c1, b2. simpl. split_and!; [done|lia|by constructor].
Qed.

Lemma add_reserves_error bs news s id w err w' : add_reserves bs news s id w = Some (inl err, w') -> err <> 0.
Proof.
  revert news w. induction bs as [|[c b] bs IH]; intros news w; [done|]. simpl. destruct (c =? NO_CPU); [done|].
  intros E. apply bind_inv in E as (new & w1 & E1 & E). apply bind_inv in E as (a & w2 & E2 & E). destruct a as [e|r].
  - injection E as -> _. unfold do_add_reserve, get_entry in E2. apply bind_inv in E2 as (? & w3 & [= <- <-] & E2).
    apply bind_inv in E2 as (? & w3 & [= <- <-] & E2). destruct (id <=? _); [by injection E2 as <- _|].
    destruct (negb _); [by injection E2 as <- _|]. destruct new as [[r mem]|]; [|by injection E2 as <- _].
    apply bind_inv in E2 as (? & w3 & _ & E2). by apply bind_inv in E2 as (? & w4 & _ & E2).
  - apply bind_inv in E as (l & w3 & E3 & E). destruct l; [|done]. injection E as -> ->. by eapply IH.
Qed.

Lemma domain_init_plugin d w w' : edf_domain_init d w = Some (tt, w') -> plugin w' = plugin w.
Proof. by intros [= <-]. Qed.

(** The call up to there, and what follows. *)
Lemma add_server_parts id_ok budgets_ok copy_ok id user s mem news stack (last : bool) w w' :
  config (plugin w) -> servers (plugin w) !! s = None -> fresh_chunks (plugin w) news ->
  sys_add_server id_ok budgets_ok copy_ok id user (Some (s, mem)) news stack last w = Some (0, w') ->
  exists w1 w2, config (plugin w1) /\
    when last (for_each_online_cpu start_cpu;; kickoff_timers;; upd_state (set_all_servers_added true)) w1 = Some (tt, w2) /\
    w' = set_plugin (set_reserves_allocated true (plugin w2)) w2.
Proof.
  intros C Hs Hfr E. unfold sys_add_server in E. apply bind_inv in E as (g & w0 & [= <- <-] & E).
  destruct (negb (_online_cpus _ =? _)) eqn:En; [done|]. destruct (negb id_ok); [done|].
  apply bind_inv in E as ([] & w1 & E1 & E). destruct (negb budgets_ok && _); [done|]. injection E1 as <-.
  destruct (negb copy_ok); [done|]. apply bind_inv in E as ([] & w2 & E2%domain_init_plugin & E).
  apply bind_inv in E as ([] & w3 & E3 & E). apply bind_inv in E as (l & w4 & E4 & E). destruct l as [err|l].
  - exfalso. injection E as -> _. by apply add_reserves_error in E4.
  - apply bind_inv in E as ([] & w5 & E5 & E). apply bind_inv in E as ([] & w6 & E6 & E). apply bind_inv in E as ([] & w7 & E7 & E).
    apply bind_inv in E as ([] & w8 & E8 & E). apply bind_inv in E as ([] & w9 & [= <-] & E). injection E as El <-.
    exists w7, w8. split_and!; [|done|done].
    eapply (chain_added s mem id (Z.to_nat (_online_cpus (plugin w))) (copied_budgets _ user) news stack w2 w3 w4 w5 w6 w7 l); try done; rewrite ?E2; try done.
    + unfold copied_budgets. by rewrite length_fmap, length_seq.
    + by intros ->.
Qed.

(** ** Starting the processors *)

Abbreviation list_of g c := (npsf_reserves (npsf_cpu_entries g c)).
Abbreviation here g c := (cpu_reserve (npsf_cpu_entries g c)).

(** No two processors start with the same server. *)
Definition distinct_firsts (g : nstate) (online : list Z) : Prop :=
  forall c c' r r' s, c ∈ online -> c' ∈ online -> head (list_of g c) = Some r -> head (list_of g c') = Some r' ->
    belongs g r s -> belongs g r' s -> c = c'.

(** The processors in [D] have been started. *)
Record starting (g0 : nstate) (D : list Z) (g : nstate) : Prop := {
  sg_config : config g;
  sg_list c : list_of g c = list_of g0 c;
  sg_belongs r s : belongs g r s <-> belongs g0 r s;
  sg_here c r : c ∈ D -> here g c = Some r -> head (list_of g c) = Some r /\ owner g r;
  sg_others c : c ∉ D -> here g c = here g0 c
}.

Lemma start_cpu_result c w w' :
  start_cpu c w = Some (tt, w') -> exists r s v, head (list_of (plugin w) c) = Some r /\ belongs (plugin w) r s /\
    servers (plugin w) !! s = Some v /\ same_chain (with_here c r (with_curr s (Some r) (plugin w))) (plugin w').
Proof.
  unfold start_cpu, get_entry. intros E. apply bind_inv in E as (e & w1 & [= <- <-] & E).
  apply bind_inv in E as (r & w2 & E2 & E). destruct (head _) as [r'|] eqn:Hr; [|done]. injection E2 as <- <-.
  apply bind_inv in E as (s & w3 & [Hb ->]%server_of_inv & E). apply bind_inv in E as ([] & w4 & E4 & [= <-]).
  unfold upd_server in E4. apply bind_inv in E4 as (v & w5 & [Hv ->]%get_server_inv & [= <-]).
  exists r', s, v. split_and!; try done. split; try done; intros s'; simpl;
    (destruct (decide (s' = s)) as [->|]; [rewrite lookup_insert_eq, lookup_alter_eq, Hv|rewrite lookup_insert_ne, lookup_alter_ne]; done).
Qed.

Lemma starting_step g0 online D c w w' :
  distinct_firsts g0 online -> c ∈ online -> (forall c', c' ∈ D -> c' ∈ online) ->
  starting g0 D (plugin w) -> start_cpu c w = Some (tt, w') -> starting g0 (c :: D) (plugin w').
Proof.
  intros Hd Hc HD [C Hl Hb Hh Ho] (r & s & v & Hr & Hbr & Hv & Ch)%start_cpu_result. set (g := plugin w) in *.
  set (g1 := with_here c r (with_curr s (Some r) g)) in *.
  assert (r ∈ list_of g c) as Hrl by (destruct (list_of g c); [done|]; injection Hr as ->; by left).
  assert (config g1) as C1 by (apply config_here; [by apply config_curr|done]).
  assert (forall c', list_of g1 c' = list_of g c') as Hl1 by (intros c'; simpl; unfold upd; by case_decide; subst).
  assert (forall c', here g1 c' = if decide (c' = c) then Some r else here g c') as Hh1 by (intros c'; simpl; unfold upd; by case_decide).
  assert (owner g1 r) as Hor.
  { exists s, (set_curr_reserve (Some r) v). split_and!; [done| |done]. simpl. by rewrite lookup_alter_eq, Hv. }
  assert (forall r' s', belongs (plugin w') r' s' <-> belongs g r' s') as Hbel.
  { intros r' s'. split; [intros Hb'; exact (belongs_chain _ _ _ _ (same_chain_sym _ _ Ch) Hb')|]. intros Hb'. by eapply belongs_chain; [exact Ch|]. }
  split.
  - by eapply config_chain.
  - intros c'. by rewrite (sc_list _ _ Ch), Hl1.
  - intros r' s'. rewrite Hbel. apply Hb.
  - intros c' r'. rewrite (sc_here _ _ Ch), (sc_list _ _ Ch), Hh1, Hl1. intros HcD. case_decide as Ec.
    + intros [= <-]. subst c'. split; [done|by eapply owner_chain].
    + intros E. apply elem_of_cons in HcD as [?|HcD]; [done|]. destruct (Hh c' r' HcD E) as [Hr' Ho']. split; [done|].
      pose proof Ho' as (s' & v' & Hb' & _). eapply owner_chain; [exact Ch|].
      apply (owner_curr_other s (Some r) g r' s' Hb'); [|done]. intros ->. apply Ec.
      eapply (Hd c' c r' r s); [by apply HD|done|by rewrite <- Hl|by rewrite <- Hl|by apply Hb|by apply Hb].
  - intros c' HcD. apply not_elem_of_cons in HcD as [Hne HcD]. rewrite (sc_here _ _ Ch), Hh1, decide_False by done. by apply Ho.
Qed.

Lemma starting_all g0 (online l D : list Z) w w' :
  distinct_firsts g0 online -> (forall c, c ∈ l -> c ∈ online) -> (forall c, c ∈ D -> c ∈ online) ->
  starting g0 D (plugin w) -> for_each_cpu start_cpu l w = Some (tt, w') -> starting g0 (reverse l ++ D) (plugin w').
Proof.
  intros Hd. revert D w. induction l as [|c l IH]; intros D w Hl HD Hs E; simpl in E; [by injection E as <-|].
  apply bind_inv in E as ([] & w1 & E1 & E). rewrite reverse_cons, <- (assoc_L (++)). simpl. eapply (IH (c :: D) w1); [|..|done].
  - intros c' Hc'. apply Hl. by right.
  - intros c' [->|Hc']%elem_of_cons; [apply Hl; by left|by apply HD].
  - eapply starting_step; [exact Hd|apply Hl; by left|done..].
Qed.

Lemma starting_owned g0 (online D : list Z) g :
  starting g0 D g -> (forall c, c ∈ online -> c ∈ D) -> (forall c, c ∉ online -> here g c = None) -> owned g (fun _ => Idle).
Proof.
  intros [C Hl Hb Hh Ho] HD Hoff. split; try done. intros c r E. destruct (decide (c ∈ online)) as [Hc|Hc].
  - by apply (Hh c r (HD c Hc)).
  - rewrite (Hoff c Hc) in E. done.
Qed.

Lemma chain_kickoff : frames (on_plugin same_chain) (kickoff_timers (Q:=Q)).
Proof.
  assert (forall k l, frames (on_plugin same_chain)
    (for_each_cpu (Q:=Q) (fun c => upd_entry c (fun e => set_should_expire k (set_n_timer (Some k) e))) l)) as Hf.
  { intros k l. induction l as [|c l IH]; simpl; [frames_tac|]. apply frames_bind; [apply _|apply chain_upd_entry; by intros []|done]. }
  unfold kickoff_timers, for_each_online_cpu. frames_tac. apply frames_modify. by intros w.
Qed.

(** ** The processors that are online stay the same *)

Definition same_online (g g' : nstate) : Prop := cpu_online g' = cpu_online g.
#[local] Instance same_online_preorder : PreOrder same_online.
Proof. split; [by intros g|]. intros g1 g2 g3 H1 H2. unfold same_online in *. congruence. Qed.
Abbreviation keeps_online := (frames (on_plugin (Q:=Q) same_online)).

Lemma online_upd_state f : (forall g, cpu_online (f g) = cpu_online g) -> keeps_online (upd_state f).
Proof. intros Hf. apply frames_modify. intros w. apply Hf. Qed.
Lemma online_upd_entry c f : keeps_online (upd_entry c f).
Proof. by apply frames_modify. Qed.
Lemma online_upd_server s f : keeps_online (upd_server s f).
Proof. unfold upd_server, get_server. frames_tac. by apply frames_modify. Qed.
Lemma online_upd_reserve r f : keeps_online (upd_reserve r f).
Proof. unfold upd_reserve, get_reserve. frames_tac. by apply frames_modify. Qed.
#[local] Hint Resolve online_upd_entry online_upd_server online_upd_reserve : litmus.
#[local] Hint Extern 1 (frames (on_plugin same_online) (upd_state _)) => apply online_upd_state; by intros [] : litmus.

Lemma online_each f l : (forall c, keeps_online (f c)) -> keeps_online (for_each_cpu f l).
Proof. intros Hf. induction l; simpl; frames_tac; apply Hf. Qed.

Lemma online_start : keeps_online (for_each_online_cpu start_cpu;; kickoff_timers;; upd_state (set_all_servers_added true)).
Proof.
  unfold for_each_online_cpu, kickoff_timers, for_each_online_cpu.
  frames_tac; apply online_each; unfold start_cpu, server_of, get_entry, get_reserve; frames_tac.
Qed.

(** Starting moves no reserve to another processor or server. *)
Lemma start_lists l w w' :
  for_each_cpu start_cpu l w = Some (tt, w') ->
  (forall c, list_of (plugin w') c = list_of (plugin w) c) /\ (forall r s, belongs (plugin w') r s <-> belongs (plugin w) r s).
Proof.
  revert w. induction l as [|c l IH]; intros w; simpl; [by intros [= <-]|]. intros ([] & w1 & E1 & E)%bind_inv.
  destruct (IH w1 E) as [Hl Hb]. apply start_cpu_result in E1 as (r & s & v & _ & _ & _ & C). split.
  - intros c'. rewrite Hl, (sc_list _ _ C). simpl. unfold upd. by case_decide; subst.
  - intros r' s'. rewrite Hb. split; intros Hb'.
    + exact (belongs_chain _ _ _ _ (same_chain_sym _ _ C) Hb').
    + by eapply belongs_chain; [exact C|].
Qed.

Lemma start_owned w w' :
  config (plugin w) -> distinct_firsts (plugin w') (cpu_online (plugin w')) ->
  (for_each_online_cpu start_cpu;; kickoff_timers;; upd_state (set_all_servers_added true)) w = Some (tt, w') ->
  (forall c, c ∉ cpu_online (plugin w') -> here (plugin w') c = None) -> owned (plugin w') (fun _ => Idle).
Proof.
  intros C Hd E Hoff. pose proof (online_start _ _ _ E) as Eon. unfold on_plugin, same_online in Eon. rewrite Eon in Hd, Hoff.
  apply bind_inv in E as ([] & w1 & E1 & E). apply bind_inv in E as ([] & w2 & E2 & [= <-]).
  unfold for_each_online_cpu in E1. apply bind_inv in E1 as (g & w0 & [= <- <-] & E1).
  pose proof (chain_kickoff _ _ _ E2) as Ck. unfold on_plugin in Ck.
  assert (same_chain (plugin w1) (set_all_servers_added true (plugin w2))) as C2 by (etransitivity; [exact Ck|by split]).
  destruct (start_lists _ _ _ E1) as [Hl Hb].
  assert (starting (plugin w) (reverse (cpu_online (plugin w)) ++ []) (plugin w1)) as Hs.
  { eapply (starting_all _ (cpu_online (plugin w))); [|done|by intros c ?%elem_of_nil| |exact E1].
    - intros c c' r r' s Hc Hc' Hr Hr' Hbr Hbr'. apply (Hd c c' r r' s); try done.
      + change (head (list_of (set_all_servers_added true (plugin w2)) c) = Some r). by rewrite (sc_list _ _ C2), Hl.
      + change (head (list_of (set_all_servers_added true (plugin w2)) c') = Some r'). by rewrite (sc_list _ _ C2), Hl.
      + apply (belongs_chain _ _ _ _ C2). by apply Hb.
      + apply (belongs_chain _ _ _ _ C2). by apply Hb.
    - split; try done. by intros c r ?%elem_of_nil. }
  eapply owned_chain; [exact C2|]. eapply (starting_owned _ (cpu_online (plugin w))); [exact Hs|..].
  - intros c Hc. rewrite app_nil_r. by apply elem_of_reverse.
  - intros c Hc. rewrite <- (sc_here _ _ C2). by apply Hoff.
Qed.

(** ** How many reserves there are *)

Lemma seen_half n user k : seen (copied_budgets n user) k -> (k <= (n + 1) / 2)%nat.
Proof.
  intros (b1 & c & b2 & E & Hlen & Hall). destruct (decide (k <= (n + 1) / 2)%nat) as [|Hgt]; [done|]. exfalso.
  set (i := ((n + 1) / 2)%nat) in *. assert (length (copied_budgets n user) = n) as Hn by (unfold copied_budgets; by rewrite length_fmap, length_seq).
  rewrite E, length_app in Hn. simpl in Hn. pose proof (Nat.div_mod_eq (n + 1) 2) as Hdm. pose proof (Nat.mod_upper_bound (n + 1) 2 ltac:(lia)).
  fold i in Hdm. destruct (lookup_lt_is_Some_2 b1 i ltac:(lia)) as [b Hb].
  pose proof (copied_beyond n user i ltac:(lia) ltac:(lia)) as Hcb. rewrite E, lookup_app_l in Hcb by lia.
  rewrite Forall_lookup in Hall. specialize (Hall i b Hb). by simplify_eq.
Qed.

Lemma add_reserves_size bs news s id w l w' :
  add_reserves bs news s id w = Some (inr l, w') -> (size (reserves (plugin w')) <= size (reserves (plugin w)) + length l)%nat.
Proof.
  revert news w l. induction bs as [|[c b] bs IH]; intros news w l; [done|]. simpl. destruct (c =? NO_CPU); [intros [= <- <-]; simpl; lia|].
  intros E. apply bind_inv in E as (new & w1 & E1 & E). destruct news as [|new' news]; [done|]. injection E1 as <- <-.
  apply bind_inv in E as (a & w2 & E2%do_add_result & E). destruct a as [e|r]; [done|]. destruct E2 as (mem & _ & _ & _ & x & Er).
  apply bind_inv in E as (l' & w3 & E3 & E). destruct l' as [e|l']; [done|]. injection E as <- <-. simpl in E3. apply IH in E3. simpl.
  rewrite Er in E3. destruct (reserves (plugin w) !! r) as [y|] eqn:Hy.
  - rewrite map_size_insert_Some in E3 by eauto. lia.
  - rewrite map_size_insert_None in E3 by done. lia.
Qed.

Lemma link_size n i bs arr w w' :
  link_reserves n i bs arr w = Some (tt, w') -> size (reserves (plugin w')) = size (reserves (plugin w)).
Proof.
  revert i w. induction bs as [|[c b] bs IH]; intros i w; [done|]. simpl. destruct (c =? NO_CPU); [by intros [= <-]|].
  intros E. apply bind_inv in E as (nxt & w1 & E1 & E). assert (w1 = w) as ->.
  { case_decide; [|by destruct (_ && _); injection E1]. apply bind_inv in E1 as (la & w2 & E2 & E1).
    destruct (_ <$> _); [|done]. injection E2 as <- <-. by injection E1. }
  apply bind_inv in E as (r & w2 & E2 & E). destruct (arr i); [|done]. injection E2 as <- <-. apply bind_inv in E as ([] & w3 & E3 & E).
  unfold upd_reserve in E3. apply bind_inv in E3 as (x & w4 & [Hx ->]%get_reserve_inv & [= <-]). apply IH in E. rewrite E. simpl.
  apply map_size_insert_Some. eauto.
Qed.

Lemma chain_size g g' : same_chain g g' -> size (reserves g') = size (reserves g).
Proof.
  intros C. rewrite <- (map_size_fmap static (reserves g')), <- (map_size_fmap static (reserves g)). f_equal.
  apply map_eq. intros r. rewrite !lookup_fmap. apply (sc_reserve _ _ C).
Qed.

Lemma start_size l w w' : for_each_cpu start_cpu l w = Some (tt, w') -> size (reserves (plugin w')) = size (reserves (plugin w)).
Proof.
  revert w. induction l as [|c l IH]; intros w; simpl; [by intros [= <-]|]. intros ([] & w1 & E1 & E)%bind_inv.
  apply start_cpu_result in E1 as (r & s & v & _ & _ & _ & C). apply chain_size in C. rewrite (IH w1 E). exact C.
Qed.

Lemma last_size (last : bool) w w' :
  when last (for_each_online_cpu start_cpu;; kickoff_timers;; upd_state (set_all_servers_added true)) w = Some (tt, w') ->
  size (reserves (plugin w')) = size (reserves (plugin w)).
Proof.
  destruct last; [|by intros [= <-]]. simpl. intros E. apply bind_inv in E as ([] & w1 & E1 & E).
  apply bind_inv in E as ([] & w2 & E2 & [= <-]). unfold for_each_online_cpu in E1. apply bind_inv in E1 as (g & w0 & [= <- <-] & E1).
  apply start_size in E1. pose proof (chain_size _ _ (chain_kickoff _ _ _ E2)) as Ek. simpl. congruence.
Qed.

Lemma last_owned id_ok budgets_ok copy_ok id user s mem news stack w w' :
  config (plugin w) -> servers (plugin w) !! s = None -> fresh_chunks (plugin w) news ->
  sys_add_server id_ok budgets_ok copy_ok id user (Some (s, mem)) news stack true w = Some (0, w') ->
  distinct_firsts (plugin w') (cpu_online (plugin w')) ->
  (forall c, c ∉ cpu_online (plugin w') -> cpu_reserve (npsf_cpu_entries (plugin w') c) = None) ->
  owned (plugin w') (fun _ => Idle).
Proof.
  intros C Hs Hf E Hd Hoff. destruct (add_server_parts _ _ _ _ _ _ _ _ _ _ _ _ C Hs Hf E) as (w1 & w2 & C1 & E1 & ->).
  apply (owned_chain (plugin w2)); [by split|]. by apply (start_owned w1).
Qed.

Lemma not_last_config id_ok budgets_ok copy_ok id user s mem news stack w w' :
  config (plugin w) -> servers (plugin w) !! s = None -> fresh_chunks (plugin w) news ->
  sys_add_server id_ok budgets_ok copy_ok id user (Some (s, mem)) news stack false w = Some (0, w') -> config (plugin w').
Proof.
  intros C Hs Hf E. destruct (add_server_parts _ _ _ _ _ _ _ _ _ _ _ _ C Hs Hf E) as (w1 & w2 & C1 & [= <-] & ->).
  eapply config_chain; [|exact C1]. by split.
Qed.

(** ** Claims *)

(** The last [add_server] call, if it succeeds, leaves every processor the
    owner of the reserve it starts with, provided that no two processors start
    with the same server and the reserves are on processors that are online. *)
Theorem add_server_owned id_ok budgets_ok copy_ok id user s mem news stack w w' :
  config (plugin w) -> servers (plugin w) !! s = None -> fresh_chunks (plugin w) news ->
  sys_add_server id_ok budgets_ok copy_ok id user (Some (s, mem)) news stack true w = Some (0, w') ->
  distinct_firsts (plugin w') (cpu_online (plugin w')) ->
  (forall c, c ∉ cpu_online (plugin w') -> cpu_reserve (npsf_cpu_entries (plugin w') c) = None) ->
  owned (plugin w') (fun _ => Idle).
Proof. apply last_owned. Qed.

(** However long the array of budgets is, a call of [add_server] adds at most
    one reserve for every two processors: the size passed to [copy_from_user] is
    that of a pointer times the number of processors, half of the array. *)
Theorem add_server_half id_ok budgets_ok copy_ok id user srv news stack last w w' :
  sys_add_server id_ok budgets_ok copy_ok id user srv news stack last w = Some (0, w') ->
  (size (reserves (plugin w')) <= size (reserves (plugin w)) + (Z.to_nat (_online_cpus (plugin w)) + 1) / 2)%nat.
Proof.
  intros E. unfold sys_add_server in E. apply bind_inv in E as (g & w0 & [= <- <-] & E).
  destruct (negb (_online_cpus _ =? _)) eqn:En; [done|]. destruct (negb id_ok); [done|].
  apply bind_inv in E as ([] & w1 & E1 & E). destruct (negb budgets_ok && _); [done|]. injection E1 as <-.
  destruct (negb copy_ok); [done|]. destruct srv as [[s mem]|]; [|done].
  apply bind_inv in E as ([] & w2 & E2%domain_init_plugin & E).
  apply bind_inv in E as ([] & w3 & [= <-] & E). apply bind_inv in E as (l & w4 & E4 & E). destruct l as [err|l].
  { injection E as -> _. by apply add_reserves_error in E4. }
  apply bind_inv in E as ([] & w5 & E5 & E). apply bind_inv in E as ([] & w6 & E6 & E). apply bind_inv in E as ([] & w7 & E7 & E).
  apply bind_inv in E as ([] & w8 & E8 & E). apply bind_inv in E as ([] & w9 & [= <-] & E). injection E as El <-.
  change (reserves (plugin (set_plugin _ w8))) with (reserves (plugin w8)). apply last_size in E8. apply print_all_same in E7. apply link_size in E6.
  unfold upd_server in E5. apply bind_inv in E5 as (v & w10 & [Hv ->]%get_server_inv & [= <-]). simpl in E6.
  pose proof (add_reserves_size _ _ _ _ _ _ _ E4) as Hs. simpl in Hs. rewrite E2 in Hs.
  assert (length l <= (Z.to_nat (_online_cpus (plugin w)) + 1) / 2)%nat as Hl by (eapply seen_half, add_reserves_seen, E4).
  subst w7. lia.
Qed.

End Start.
