(* ===== verification/NpsExamples.v ===== *)
(** * Concrete states of NPS-F

    A machine with four processors.  The server of id 1 migrates between
    processors 0 and 1, which it shares with servers of their own; the theorems
    of the NPS-F files are instantiated on the states that the system calls and
    handlers produce. *)

From stdpp Require Import sorting.
From S2P Require Import Prelude BinForest PrioQueue Task Edf Kernel RtDomain RtInv EdfDomain Partitioned Frames.
From S2P Require Import Syscalls NpsF NpsInv NpsServer NpsTask NpsSched NpsTime NpsOwner NpsMain NpsSetup NpsStart.
Open Scope Z_scope.

Abbreviation nworld := (world fheap nstate).

Definition reached {A} (c : M nworld A) (w : nworld) : nworld := match c w with Some (_, w') => w' | None => w end.

Lemma reached_ok {A} (c : M nworld A) (Φ : A -> nworld -> Prop) w : wp c Φ w -> exists a, Φ a (reached c w).
Proof. unfold wp, reached. destruct (c w) as [[a w']|]; [by exists a|done]. Qed.

Lemma reached_run {A} (c : M nworld A) w a : fst <$> c w = Some a -> c w = Some (a, reached c w).
Proof. unfold reached. destruct (c w) as [[b w']|]; [|done]. by intros [= ->]. Qed.

(** ** Setting up the servers *)

(** Tasks 1 and 2 belong to the server of id 1, task 3 to that of id 3. *)
Definition nx_params (t : tid) : rt_task :=
  mk_rt_task 1000000 (match t with 1%positive => 20000000 | 2%positive => 10000000 | _ => 40000000 end) 0
    (match t with 2%positive => 1 | 3%positive => 2 | _ => 0 end) RT_CLASS_HARD PRECISE_ENFORCEMENT (mk_fm (0, 0) 0 ((0, 0), (0, 0)))
    (match t with 3%positive => 3 | _ => 1 end) (mk_wm [] 0) (mk_hime [] 0) (mk_cd [] 0).

Definition nx_tasks (t : tid) : task_struct :=
  mk_task (Zpos t) false true false false 0 0 0 false false (nx_params t) (mk_rt_job 0 0 0 0) None 0 NO_CPU NO_CPU 0 false None
    (mk_semi 0 0 0 0 0 0).

Definition nx_boot : nworld :=
  mk_world nx_tasks (fun _ => mk_rt_domain pq_init (fun _ => []) [] NO_CPU) (fun _ => mk_release_heap 0 pq_init None 0)
    1000 [] 0 (fun c => Pos.of_succ_nat (10 + Z.to_nat c)) [] (fun _ => mk_et false 0) 1000000
    (mk_nstate ∅ ∅ (fun c => mk_nentry None [] c None 0 (-1)) false false 0 5000000 1 false [0; 1; 2; 3] 0).

Definition junk_reserve : npsf_reserve := mk_reserve None 0 0 0 None false.
Definition junk_server : npsf_server := mk_server None None None false.

(** The user passes an array that ends with an entry without a processor. *)
Definition user_array (l : list (Z * Z)) (i : nat) : Z * Z := default (NO_CPU, 0) (l !! i).

Abbreviation add_server id budgets srv rs last :=
  (sys_add_server true true true id (user_array budgets) (Some (srv, junk_server)) ((fun r => Some (r, junk_reserve)) <$> rs)
    (fun _ => None) last).

Definition nx0 : nworld := reached npsf_activate_plugin nx_boot.
Definition nx1 : nworld := reached (add_server 0 [(0, 3000000)] 1 [1%positive] false) nx0.
Definition nx2 : nworld := reached (add_server 1 [(0, 2000000); (1, 2000000)] 2 [2%positive; 3%positive] false) nx1.
Definition nx3 : nworld := reached (add_server 2 [(1, 3000000)] 3 [4%positive] false) nx2.
Definition nx4 : nworld := reached (add_server 3 [(2, 5000000)] 4 [5%positive] false) nx3.
Definition nx5 : nworld := reached (add_server 4 [(3, 5000000)] 5 [6%positive] true) nx4.

Lemma config_none (w : nworld) : reserves (plugin w) = ∅ -> servers (plugin w) = ∅ ->
  (forall c, npsf_reserves (npsf_cpu_entries (plugin w) c) = []) -> (forall c, cpu_reserve (npsf_cpu_entries (plugin w) c) = None) -> config (plugin w).
Proof.
  intros Hr Hs Hl Hh. split.
  - intros c r. rewrite Hl. by intros ?%elem_of_nil.
  - intros r x. by rewrite Hr, lookup_empty.
  - intros r x s. by rewrite Hr, lookup_empty.
  - intros s v. by rewrite Hs, lookup_empty.
  - intros c r. by rewrite Hh.
Qed.

Lemma junk_fresh (g : nstate) rs : NoDup rs -> Forall (fun r => reserves g !! r = None) rs ->
  fresh_chunks g ((fun r => Some (r, junk_reserve)) <$> rs).
Proof.
  intros Hnd Hf. assert (fst <$> omap id ((fun r => Some (r, junk_reserve)) <$> rs) = rs) as E.
  { clear. induction rs as [|r rs IH]; [done|]. simpl. by f_equal. }
  split; rewrite E; [done|]. intros r Hr. rewrite Forall_forall in Hf. by apply Hf.
Qed.

Lemma nx0_config : config (plugin nx0).
Proof. apply config_none; [by vm_compute|by vm_compute|..]; intros [|[[p|p|]|[p|p|]|]|p]; by vm_compute. Qed.

Lemma nx_add id budgets s rs w :
  config (plugin w) -> servers (plugin w) !! s = None -> NoDup rs -> Forall (fun r => reserves (plugin w) !! r = None) rs ->
  fst <$> add_server id budgets s rs false w = Some 0 -> config (plugin (reached (add_server id budgets s rs false) w)).
Proof.
  intros C Hs Hnd Hf E%reached_run.  eapply not_last_config; [exact C|exact Hs|by apply junk_fresh|exact E].
Qed.

Ltac nodup := apply (bool_decide_unpack _); by vm_compute.

Lemma nx1_config : config (plugin nx1).
Proof. apply nx_add; [apply nx0_config|by vm_compute|nodup|repeat constructor; by vm_compute|by vm_compute]. Qed.
Lemma nx2_config : config (plugin nx2).
Proof. apply nx_add; [apply nx1_config|by vm_compute|nodup|repeat constructor; by vm_compute|by vm_compute]. Qed.
Lemma nx3_config : config (plugin nx3).
Proof. apply nx_add; [apply nx2_config|by vm_compute|nodup|repeat constructor; by vm_compute|by vm_compute]. Qed.
Lemma nx4_config : config (plugin nx4).
Proof. apply nx_add; [apply nx3_config|by vm_compute|nodup|repeat constructor; by vm_compute|by vm_compute]. Qed.

Lemma nx5_run : add_server 4 [(3, 5000000)] 5 [6%positive] true nx4 = Some (0, nx5).
Proof. unfold nx5. apply reached_run. by vm_compute. Qed.

Lemma nx_online c : c ∈ cpu_online (plugin nx5) -> c = 0 \/ c = 1 \/ c = 2 \/ c = 3.
Proof. replace (cpu_online (plugin nx5)) with [0; 1; 2; 3] by (by vm_compute). set_solver. Qed.

Lemma nx5_offline c : c ∉ cpu_online (plugin nx5) -> cpu_reserve (npsf_cpu_entries (plugin nx5) c) = None.
Proof.
  replace (cpu_online (plugin nx5)) with [0; 1; 2; 3] by (by vm_compute). intros Hc.
  destruct c as [|[[p|p|]|[p|p|]|]|p]; first [vm_compute; reflexivity|destruct Hc; set_solver].
Qed.

Lemma nx5_distinct : distinct_firsts (plugin nx5) (cpu_online (plugin nx5)).
Proof.
  intros c c' r r' s [->|[->|[->| ->]]]%nx_online [->|[->|[->| ->]]]%nx_online; try reflexivity;
    vm_compute; intros [= <-] [= <-] (x & [= <-] & [= <-]) (x' & [= <-] & [=]).
Qed.

(** [add_server_owned] at the last call *)
Lemma add_server_owned_witness : owned (plugin nx5) (fun _ => Idle).
Proof.
  eapply (add_server_owned true true true 4 (user_array [(3, 5000000)]) 5 junk_server ((fun r => Some (r, junk_reserve)) <$> [6%positive])
    (fun _ => None) nx4 nx5).
  - apply nx4_config.
  - by vm_compute.
  - apply (junk_fresh _ [6%positive]); [nodup|repeat constructor; by vm_compute].
  - exact nx5_run.
  - exact nx5_distinct.
  - exact nx5_offline.
Defined.

Lemma nx5_owned : owned (plugin nx5) (fun _ => Idle).
Proof.
  eapply last_owned; [apply nx4_config| |apply (junk_fresh _ [6%positive])|exact nx5_run|exact nx5_distinct|exact nx5_offline].
  - by vm_compute.
  - nodup.
  - repeat constructor; by vm_compute.
Qed.

(** A call with three budgets: the last one is not copied. *)
Definition three : nworld := reached (add_server 7 [(0, 1000000); (1, 1000000); (2, 1000000)] 7 [1; 2; 3]%positive false) nx0.

Lemma add_server_half_witness : (size (reserves (plugin three)) <= 2)%nat /\ size (reserves (plugin three)) = 2%nat.
Proof.
  split; [|by vm_compute].
  change 2%nat with (size (reserves (plugin nx0)) + (Z.to_nat (_online_cpus (plugin nx0)) + 1) / 2)%nat.
  eapply (add_server_half true true true 7 (user_array [(0, 1000000); (1, 1000000); (2, 1000000)]) (Some (7, junk_server))
    ((fun r => Some (r, junk_reserve)) <$> [1; 2; 3]%positive) (fun _ => None) false).
  unfold three. apply reached_run. by vm_compute.
Defined.

(** ** Tasks enter *)

Lemma npsf_none (w : nworld) :
  (forall d, doms w d = mk_rt_domain pq_init (fun _ => []) [] NO_CPU) -> (forall o, rh_timer (rheaps w o) = None) ->
  (forall x, in_heap (tasks w x) = false) -> pids_unique (tasks w) -> no_inheritance (tasks w) ->
  (forall s, hp_of w s = None) -> config (plugin w) -> npsf_inv w.
Proof.
  intros Hd Ht Hh Hp Hn Hs C. destruct (blank_domains w Hd Ht Hh) as [Hok Hno]. split; [split|..].
  - done.
  - done.
  - done.
  - intros s t. by rewrite Hs.
  - intros t p Hat. by destruct (Hno t p).
  - intros s _. rewrite Hs. unfold best, ready_elems. rewrite Hd. apply pq_init_elems.
  - intros s [v Hv]. destruct (cf_curr _ C s v Hv) as (r & Hr & x & Hx & _). by exists v, r, x.
  - intros t p Hat. by destruct (Hno t p).
Qed.

Definition enter_realtime (w : nworld) : nworld :=
  set_tasks (fun t => if decide (t ∈ [1; 2; 3]%positive) then set_policy_litmus true (tasks w t) else tasks w t) w.

Definition nx6 : nworld := enter_realtime nx5.

Lemma enter_inv w :
  (forall d, doms w d = mk_rt_domain pq_init (fun _ => []) [] NO_CPU) -> (forall o, rh_timer (rheaps w o) = None) -> tasks w = nx_tasks ->
  (forall s, hp_of w s = None) -> config (plugin w) -> npsf_inv (enter_realtime w).
Proof.
  intros Hd Ht E Hs C. assert (forall x, exists b, tasks (enter_realtime w) x = set_policy_litmus b (nx_tasks x)) as Hx.
  { intros x. simpl. rewrite E. case_decide; [by exists true|by exists false]. }
  apply npsf_none; try done.
  - intros x. by destruct (Hx x) as [b ->].
  - intros x y. destruct (Hx x) as [b ->], (Hx y) as [b' ->]. by intros [= ->].
  - intros x. by destruct (Hx x) as [b ->].
Qed.

Lemma nx6_inv : npsf_inv nx6.
Proof.
  apply enter_inv.
  - intros [|[[p|[p|p|]|]|[p|[p|p|]|]|]|p]; by vm_compute.
  - by vm_compute.
  - by vm_compute.
  - intros [|[[p|[p|p|]|]|[p|[p|p|]|]|]|p]; by vm_compute.
  - apply (ow_config _ _ nx5_owned).
Qed.

(** Times are in range for tasks 1 to 3. *)
Ltac ntime_tac :=
  split; [split; [by vm_compute|vm_compute; repeat constructor; discriminate]|];
  intros [[p|p|]|[p|[p|p|]|]|]; vm_compute; intros Hrt; first [discriminate Hrt|repeat split; discriminate].

Lemma outside_check (w : nworld) t :
  in_heap (tasks w t) = false -> map_Forall (fun _ v => highest_prio v <> Some t) (servers (plugin w)) -> outside w t.
Proof.
  intros Hh Hm. split; [done|]. intros s. unfold hp_of. destruct (servers (plugin w) !! s) as [v|] eqn:E; [|done]. exact (Hm s v E).
Qed.

Ltac outside_tac := apply outside_check; [by vm_compute|apply (bool_decide_unpack _); by vm_compute].

Definition nx7 : nworld := reached (npsf_task_new 1%positive true true) nx6.

Lemma nx7_inv : npsf_inv nx7.
Proof.
  assert (time_ok nx6) as Ht by ntime_tac. assert (outside nx6 1%positive) as Ho by outside_tac.
  destruct (reached_ok _ _ _ (serv_task_new 1%positive true true 2%positive (mk_reserve (Some 2) 2000000 0 1 (Some 3%positive) false) 2 nx6
    nx6_inv Ht ltac:(by vm_compute) Ho ltac:(by vm_compute) ltac:(by vm_compute) ltac:(by vm_compute) ltac:(by vm_compute; eauto))) as [_ [J _]].
  exact (jn_inv _ _ _ _ J).
Qed.

(** Processor [c] runs at time [now]; [es] is how much time will pass between
    the clock readings to come. *)
Definition runs_at (c now : Z) (es : list Z) (w : nworld) : nworld := set_this_cpu c (set_elapse es (set_clock now w)).

Lemma runs_at_inv c now es w : npsf_inv w -> npsf_inv (runs_at c now es w).
Proof.
  intros Hi%(npsf_clock now es). destruct Hi as [[] Hb Hw Hl]. split; [split|..]; try assumption.
  destruct si_dom. split; assumption.
Qed.

(** Task 2 has the earlier deadline and takes the place of task 1. *)
Definition nx7' : nworld := runs_at 1 2000 [] nx7.
Definition nx8 : nworld := reached (npsf_task_new 2%positive true true) nx7'.

Lemma nx8_inv : npsf_inv nx8.
Proof.
  assert (time_ok nx7') as Ht by ntime_tac. assert (outside nx7' 2%positive) as Ho by outside_tac.
  destruct (reached_ok _ _ _ (serv_task_new 2%positive true true 3%positive (mk_reserve (Some 2) 2000000 1 1 (Some 2%positive) false) 2 nx7'
    (runs_at_inv _ _ _ _ nx7_inv) Ht ltac:(by vm_compute) Ho ltac:(by vm_compute) ltac:(by vm_compute) ltac:(by vm_compute)
    ltac:(by vm_compute; eauto))) as [_ [J _]].
  exact (jn_inv _ _ _ _ J).
Qed.

Lemma owned_reached {A} (c : M nworld A) w P :
  frames (on_plugin same_chain) c -> owned (plugin w) P -> owned (plugin (reached c w)) P.
Proof.
  intros F C. unfold reached. destruct (c w) as [[a w']|] eqn:E; [|done]. eapply owned_chain; [|exact C]. exact (F w a w' E).
Qed.

Lemma runs_at_plugin c now es w : plugin (runs_at c now es w) = plugin w.
Proof. done. Qed.
Lemma enter_plugin w : plugin (enter_realtime w) = plugin w.
Proof. done. Qed.

Lemma nx8_owned : owned (plugin nx8) (fun _ => Idle).
Proof.
  unfold nx8, nx7', nx7, nx6. apply owned_reached; [apply chain_new|]. rewrite runs_at_plugin.
  apply owned_reached; [apply chain_new|]. rewrite enter_plugin. exact nx5_owned.
Qed.

(** ** Scheduling *)

(** Task 2 completes its first job; its reserve on processor 1 has ended, and
    that of the server of id 2 begins. *)
Definition completes (t : tid) (w : nworld) : nworld := set_tasks (upd (tasks w) t (complete_job (tasks w t))) w.

Lemma completes_inv t s w : npsf_inv w -> hp_of w s = Some t -> npsf_inv (completes t w).
Proof. intros Hi Hs. by destruct (npsf_mark RT_F_SLEEP t s w Hi Hs) as (Hi' & _). Qed.
Lemma completes_plugin t w : plugin (completes t w) = plugin w.
Proof. done. Qed.

Definition nx9 : nworld := completes 2%positive (runs_at 1 7501000 [] nx8).

Lemma nx9_inv : npsf_inv nx9.
Proof. apply (completes_inv _ 2); [apply runs_at_inv, nx8_inv|by vm_compute]. Qed.

Lemma nx9_owned : owned (plugin nx9) (fun _ => Idle).
Proof. unfold nx9. rewrite completes_plugin, runs_at_plugin. exact nx8_owned. Qed.

Definition budgets_ok (g : nstate) (l : list positive) : bool :=
  forallb (fun r => match budget_of g r with Some b => 0 <=? b | None => false end) l.
Definition budgets_sum (g : nstate) (l : list positive) : Z := foldr (fun r z => default 0 (budget_of g r) + z) 0 l.

Lemma budgets_check g l : budgets_ok g l = true -> budgeted g l (budgets_sum g l).
Proof.
  induction l as [|r l IH]; [constructor|]. simpl. intros [Hb Hl]%andb_true_iff. destruct (budget_of g r) as [b|] eqn:E; [|done].
  constructor; [done|by apply Z.leb_le|by apply IH].
Qed.

Lemma slotted_check g c total lo hi :
  budgets_ok g (npsf_reserves (npsf_cpu_entries g c)) = true -> budgets_sum g (npsf_reserves (npsf_cpu_entries g c)) = total ->
  0 < npsf_slot_length g -> 4 * total < two63 -> 0 <= time_origin g <= lo -> hi < two63 -> slotted g c total lo hi.
Proof. intros Hb <- ? ? ? ?. split; try done. by apply budgets_check. Qed.

Ltac slot_tac := apply slotted_check; [by vm_compute|by vm_compute|by vm_compute|by vm_compute|vm_compute; split; discriminate|by vm_compute].

Lemma nx9_serving : serving 2%positive 3%positive 2 5000000 nx9.
Proof.
  split.
  - exact nx9_inv.
  - ntime_tac.
  - exact (ow_config _ _ nx9_owned).
  - by vm_compute.
  - by vm_compute.
  - vm_compute. by eexists.
  - slot_tac.
  - by vm_compute.
  - intros x _ _ _. split; vm_compute; [by left|done].
Qed.


Definition nx10 : nworld := reached (npsf_schedule 2%positive) nx9.

Lemma nx10_inv : npsf_inv nx10.
Proof.
  destruct (reached_ok _ _ _ (schedule_server_spec _ _ _ _ _ nx9_serving)) as (next & _ & now & to & n & r & s & _ & _ & X & _).
  exact (ex_inv _ _ _ _ X).
Qed.

(** ** Interleavings

    A processor starts a call of [npsf_schedule] or continues it, or time
    passes. *)
Inductive move : Type := MServe (c : Z) (prev : tid) | MNext (c : Z) | MWait (now : Z).

Definition move_step (m : move) (S : nworld * (Z -> pc)) : option (nworld * (Z -> pc)) :=
  let '(w, P) := S in
  match m with
  | MServe c prev =>
      match P c, npsf_serve prev (on_cpu c w) with
      | Idle, Some (Stay _, w') => Some (w', P)
      | Idle, Some (Switch p n, w') => Some (w', upd P c (Claiming p n))
      | _, _ => None
      end
  | MNext c =>
      match P c with
      | Idle => None
      | Claiming p n =>
          '(next, w') ← npsf_claim n (on_cpu c w); Some (w', upd P c (match next with Some _ => Handing p | None => Keeping p end))
      | Keeping p => '(_, w') ← npsf_keep p (on_cpu c w); Some (w', upd P c Idle)
      | Handing p => '(_, w') ← npsf_notify_next_cpu p (on_cpu c w); Some (w', upd P c Idle)
      end
  | MWait now => Some (set_clock now w, P)
  end.

Lemma move_nstep m S S' : move_step m S = Some S' -> nstep S S'.
Proof.
  destruct S as [w P], m as [c prev|c|now]; simpl.
  - destruct (P c) eqn:EP; try done. destruct (npsf_serve prev (on_cpu c w)) as [[[next|p n] w']|] eqn:E; try done; intros [= <-].
    + by eapply st_stay.
    + by eapply st_switch.
  - destruct (P c) as [|p n|p|p] eqn:EP; try done; intros ([a w'] & E & [= <-])%bind_Some.
    + destruct a; [by eapply st_claim|by eapply st_race].
    + by eapply st_keep.
    + destruct a. by eapply st_hand.
  - intros [= <-]. by apply st_kernel.
Qed.

Definition moves_of (l : list move) (S : nworld * (Z -> pc)) : option (nworld * (Z -> pc)) :=
  foldl (fun o m => o ≫= move_step m) (Some S) l.
Definition final (l : list move) (S : nworld * (Z -> pc)) : nworld * (Z -> pc) := default S (moves_of l S).

Lemma final_rtc l S : bool_decide (is_Some (moves_of l S)) = true -> rtc nstep S (final l S).
Proof.
  rewrite bool_decide_eq_true. unfold final. intros [S' E]. rewrite E. simpl. revert S' E. unfold moves_of.
  induction l as [|m l IH] using rev_ind; intros S'; [by intros [= ->]|]. rewrite foldl_app. simpl.
  intros (S1 & E1 & E2)%bind_Some. eapply rtc_r; [exact (IH S1 E1)|by apply move_nstep in E2].
Qed.

Definition idle_pc : Z -> pc := fun _ => Idle.

Lemma final_owned l w P : bool_decide (is_Some (moves_of l (w, P))) = true -> owned (plugin w) P ->
  owned (plugin (final l (w, P)).1) (final l (w, P)).2.
Proof. intros Hl%final_rtc. exact (nsteps_owned _ _ Hl). Qed.

(** The same call in its parts *)
Definition sx3 : nworld * (Z -> pc) := final [MServe 1 2%positive; MNext 1; MNext 1] (nx9, idle_pc).

Lemma nx10_plugin : plugin nx10 = plugin sx3.1.
Proof. by vm_compute. Qed.

Lemma nx10_config : config (plugin nx10).
Proof.
  rewrite nx10_plugin. unfold sx3. refine (ow_config _ _ (final_owned _ _ _ _ nx9_owned)). by vm_compute.
Qed.

(** Before processor 1 has handed the server of id 1 over, processor 0 asks for
    it in vain; it is told and gets it then. *)
Definition race : list move :=
  [MServe 1 2%positive; MNext 1; MWait 8501000; MServe 0 11%positive; MNext 0; MNext 1; MNext 0; MServe 0 11%positive; MNext 0].
Definition sx10 : nworld * (Z -> pc) := final race (nx9, idle_pc).

Lemma sx10_reached : rtc nstep (nx9, idle_pc) (sx10.1, sx10.2).
Proof. rewrite <- surjective_pairing. unfold sx10. apply final_rtc. by vm_compute. Qed.

Lemma server_on_one_cpu_witness : 0 = 0 /\ 2%positive = 2%positive /\ owner (plugin sx10.1) 2%positive.
Proof.
  apply (server_on_one_cpu nx9 sx10.1 idle_pc sx10.2 0 0 2%positive 2%positive 2).
  - exact nx9_owned.
  - exact sx10_reached.
  - by vm_compute.
  - by vm_compute.
  - vm_compute. by eexists.
  - vm_compute. by eexists.
Defined.


(** ** The other handlers *)

Lemma nx10_time : time_ok nx10.
Proof. ntime_tac. Qed.

Lemma head_not_waiting (w : nworld) s t : npsf_inv w -> hp_of w s = Some t -> forall d o, ~ at_place w t (PRelease d o).
Proof. intros Hi Hs d o. exact (hp_nowhere _ w s t _ (ni_serv _ _ Hi) Hs). Qed.

Lemma npsf_leave_witness :
  wp (npsf_task_block 1%positive) (fun _ w' => departed 1%positive (domain_of (tasks nx10 1%positive)) nx10 w') nx10 /\
  wp (npsf_task_exit 1%positive) (fun _ w' => departed 1%positive (domain_of (tasks nx10 1%positive)) nx10 w') nx10.
Proof.
  apply (npsf_leave_correct 1%positive nx10 nx10_inv (time_ok_in_time _ nx10_time)).
  - by vm_compute.
  - vm_compute. by eexists.
  - apply (head_not_waiting _ 2); [exact nx10_inv|by vm_compute].
Defined.

(** Task 1 blocks. *)
Definition nx11 : nworld := reached (remove_from_server 1%positive 2) nx10.

Lemma nx11_inv : npsf_inv nx11.
Proof.
  destruct (reached_ok _ _ _ (depart_spec 1%positive nx10 nx10_inv (time_ok_in_time _ nx10_time) ltac:(vm_compute; by eexists)
    (head_not_waiting _ 2 _ nx10_inv ltac:(by vm_compute)))) as [_ D]. exact (dp_inv _ _ _ _ D).
Qed.

Lemma npsf_wake_up_witness : wp (npsf_task_wake_up 1%positive) (fun _ w' => joined 1%positive (domain_of (tasks nx11 1%positive)) nx11 w') nx11.
Proof.
  apply (npsf_wake_up_correct 1%positive nx11 nx11_inv).
  - ntime_tac.
  - by vm_compute.
  - outside_tac.
  - vm_compute. by eexists.
Defined.

(** The timer for the next job of task 2 fires. *)
Definition nx12 : nworld := runs_at 1 10002500 [] nx11.

Lemma npsf_release_witness :
  wp (on_release_timer npsf_release_jobs 2%positive) (fun _ w' => npsf_inv w' /\ local_to (rh_dom (rheaps nx12 2%positive)) nx12 w' /\
    (forall y, member (hp_of w') w' (rh_dom (rheaps nx12 2%positive)) y <-> member (hp_of nx12) nx12 (rh_dom (rheaps nx12 2%positive)) y) /\
    announced (rh_dom (rheaps nx12 2%positive)) nx12 w') nx12.
Proof.
  apply (npsf_release_correct 2%positive nx12 (runs_at_inv _ _ _ _ nx11_inv)).
  - apply time_ok_in_time. ntime_tac.
  - vm_compute. by eexists.
Defined.

(** ** Time *)

Lemma eligible_reserve_witness :
  (forall r to, get_reserve_for_offset (plugin nx10) (npsf_cpu_entries (plugin nx10) 1) (slot_offset (plugin nx10) 7501000) = Some (r, to) <->
     eligible (plugin nx10) 1 7501000 r to) /\
  (get_reserve_for_offset (plugin nx10) (npsf_cpu_entries (plugin nx10) 1) (slot_offset (plugin nx10) 7501000) = None <->
     5000000 <= slot_offset (plugin nx10) 7501000).
Proof.
  apply (eligible_reserve_correct (plugin nx10) 1 5000000 1000 9000000 7501000).
  - slot_tac.
  - lia.
Defined.

(** The switching timer of processor 1 fires a little early. *)
Definition nx13 : nworld := runs_at 1 9999500 [1000; 1000; 1000; 1000] nx10.

Lemma hosted_check (g : nstate) c :
  Forall (fun r => is_Some (x ← reserves g !! r; s ← r_server x; servers g !! s)) (npsf_reserves (npsf_cpu_entries g c)) -> hosted g c.
Proof.
  rewrite Forall_forall. intros Hf r Hr. specialize (Hf r Hr). destruct Hf as [v Hv].
  destruct (reserves g !! r) as [x|] eqn:Ex; [|done]. simpl in Hv. destruct (r_server x) as [s|] eqn:Es; [|done]. by exists x, s, v.
Qed.

Lemma reserve_switch_tick_witness :
  wp (reserve_switch_tick 10 1) (fun _ w' => exists now next,
    10001000 <= now <= time_end nx13 /\ switch_time (plugin nx13) 1 now next /\ now < next /\
    plugin w' = set_npsf_cpu_entries (upd (npsf_cpu_entries (plugin nx13)) 1
      (set_n_timer (Some next) (set_should_expire next (npsf_cpu_entries (plugin nx13) 1)))) (plugin nx13) /\
    need_resched (tasks w' (curr nx13 1)) = true) nx13.
Proof.
  refine (reserve_switch_tick_correct 10 5000000 nx13 _ _ _ _ _ _ _).
  - slot_tac.
  - split; [by vm_compute|vm_compute; repeat constructor; discriminate].
  - by vm_compute.
  - apply hosted_check. vm_compute. repeat constructor; by eexists.
  - by vm_compute.
  - vm_compute. split; discriminate.
  - vm_compute. lia.
Defined.
