(* ===== verification/NpsScenarios.v ===== *)
(** * Scenarios of NPS-F that go wrong

    Two runs of the scheduler in which a processor is not told what it has to
    know: one in which the request of the first processor of a chain of three
    reserves is dropped, and one in which a task wakes up on a processor that
    has a single reserve. *)

From S2P Require Import Prelude BinForest PrioQueue Task Edf Kernel RtDomain EdfDomain Partitioned.
From S2P Require Import Syscalls NpsF NpsInv NpsOwner NpsTime NpsMain NpsSetup NpsStart NpsExamples.
Open Scope Z_scope.

(** ** A chain of three reserves

    Six processors and slots of 6 ms.  The server of id 3 runs on processor 0
    (reserve 1), then on processor 1 (reserve 2), then on processor 2 (reserve
    3), 2 ms each. *)
Definition nl_boot : nworld :=
  set_plugin (mk_nstate ∅ ∅ (fun c => mk_nentry None [] c None 0 (-1)) false false 0 6000000 1 false [0; 1; 2; 3; 4; 5] 0) nx_boot.

Definition nl_adds : list (M nworld Z) :=
  [npsf_activate_plugin;
   add_server 1 [(1, 2000000)] 2 [4%positive] false;
   add_server 2 [(2, 4000000)] 3 [5%positive] false;
   add_server 3 [(0, 2000000); (1, 2000000); (2, 2000000)] 1 [1; 2; 3]%positive false;
   add_server 4 [(0, 4000000)] 4 [6%positive] false;
   add_server 5 [(1, 2000000)] 5 [7%positive] false;
   add_server 6 [(3, 6000000)] 6 [8%positive] false;
   add_server 7 [(4, 6000000)] 7 [9%positive] false;
   add_server 8 [(5, 6000000)] 8 [10%positive] true].

Definition nl0 : nworld := foldl (fun w c => reached c w) nl_boot nl_adds.
Definition in_slot (off : Z) : Z := time_origin (plugin nl0) + off.

(** The three reserves are executed in turn, but processor 1 is late to hand
    the server over and processor 2 to claim it, so that processor 0 asks to be
    told at the beginning of the next slot. *)
Definition asks : list move :=
  [MWait (in_slot 2100000); MServe 0 11%positive; MNext 0; MNext 0; MServe 1 12%positive; MNext 1; MNext 1;
   MWait (in_slot 4100000); MServe 1 12%positive; MNext 1;
   MWait (in_slot 5900000); MServe 2 13%positive;
   MWait (in_slot 6050000); MServe 0 11%positive; MNext 0; MNext 0].
Definition nl1 : nworld * (Z -> pc) := final asks (nl0, idle_pc).

(** Processor 1 hands over, processor 2 claims its reserve and hands it over. *)
Definition forgets : list move := [MNext 1; MNext 2; MNext 2; MServe 2 13%positive; MNext 2; MNext 2].
Definition nl2 : nworld * (Z -> pc) := final forgets nl1.

(** Every call returns 0. *)
Lemma nl_added : (fun i => fst <$> (default npsf_activate_plugin (nl_adds !! i) (foldl (fun w c => reached c w) nl_boot (take i nl_adds)))) <$> seq 0 9
  = replicate 9 (Some 0).
Proof. by vm_compute. Qed.

(** With three reserves in a chain the request of the first processor can be
    lost: it has asked to be told when its server is handed over; the processor
    before the last one clears the request when it notifies the last one; then
    the server is handed over to the first processor, which is not told and goes
    on with another server although its reserve is eligible. *)
Theorem notification_lost :
  rtc nstep (nl0, idle_pc) nl1 /\ first_cpu_wants_ipi <$> servers (plugin nl1.1) !! 1 = Some true /\
  rtc nstep nl1 nl2 /\ Forall (fun c => nl2.2 c = Idle) [0; 1; 2; 3; 4; 5] /\
  owner (plugin nl2.1) 1%positive /\ eligible (plugin nl2.1) 0 (clock nl2.1) 1%positive 2000000 /\
  cpu_reserve (npsf_cpu_entries (plugin nl2.1) 0) = Some 6%positive /\
  0 ∉ ipis nl2.1 /\ need_resched (tasks nl2.1 (curr nl2.1 0)) = false.
Proof.
  split_and!.
  - unfold nl1. apply final_rtc. by vm_compute.
  - by vm_compute.
  - unfold nl2. apply final_rtc. by vm_compute.
  - repeat constructor.
  - exists 1. vm_compute. by repeat eexists.
  - exists 0. split; [|vm_compute; split; [discriminate|done]]. by apply (window_here _ 1%positive [6%positive] 0 2000000).
  - by vm_compute.
  - apply (bool_decide_unpack _). by vm_compute.
  - by vm_compute.
Qed.

(** ** A processor with a single reserve

    Task 3 is the only task of the server of id 3, which alone fills the slot of
    processor 2.  It enters, is scheduled, and blocks. *)
Definition switches (c : Z) (t : tid) (w : nworld) : nworld := set_curr (upd (curr w) c t) w.
Definition blocks (t : tid) (b : bool) (w : nworld) : nworld := set_tasks (upd (tasks w) t (set_state_running (negb b) (tasks w t))) w.

Definition nw1 : nworld := reached (npsf_task_new 3%positive true true) (runs_at 0 3000 [] nx8).
Definition nw2 : nworld := switches 2 3%positive (reached (npsf_schedule 13%positive) (runs_at 2 4000 [] nw1)).
Definition nw3 : nworld := reached (npsf_task_block 3%positive) (blocks 3%positive true nw2).
Definition nw4 : nworld := switches 2 13%positive (reached (npsf_schedule 3%positive) nw3).
(** Processor 0 wakes it up. *)
Definition nw5 : nworld := blocks 3%positive false (runs_at 0 5000 [] nw4).
Definition nw6 : nworld := reached (npsf_task_wake_up 3%positive) nw5.

(** A processor with a single reserve never marks it as scheduled, since the
    mark is made when it switches between reserves.  If the memory of the reserve
    held zeroes, a task that wakes up there does not cause a preemption: it is
    the head of the server the processor executes, the processor idles, and
    nothing makes it reschedule. *)
Theorem wake_up_unannounced :
  fst <$> npsf_schedule 13%positive (runs_at 2 4000 [] nw1) = Some (Some 3%positive) /\
  fst <$> npsf_schedule 3%positive nw3 = Some None /\ npsf_task_wake_up 3%positive nw5 = Some (tt, nw6) /\
  hp_of nw6 4 = Some 3%positive /\ belongs (plugin nw6) 5%positive 4 /\
  cpu_reserve (npsf_cpu_entries (plugin nw6) 2) = Some 5%positive /\ eligible (plugin nw6) 2 (clock nw6) 5%positive 5000000 /\
  curr nw6 2 = 13%positive /\ 2 ∉ ipis nw6 /\ need_resched (tasks nw6 13%positive) = false.
Proof.
  split_and!; try by vm_compute.
  - vm_compute. by eexists.
  - exists 0. split; [by apply (window_here _ 5%positive [] 0 5000000)|]. vm_compute. split; [discriminate|done].
  - apply (bool_decide_unpack _). by vm_compute.
Qed.
