(* ===== verification/Pfair.v ===== *)
(** * PD^2, the global Pfair scheduler

    src/litmus2010/litmus/sched_pfair.c.  Time is divided into quanta and a job
    into subtasks, one for each quantum of its budget, each with a window of
    quanta in which it is to be executed.  At the beginning of a quantum one of
    the processors moves every task that was linked to its next subtask, makes
    the tasks ready whose next window opens, and links the ready tasks with the
    highest priorities to the processors.

    The heaps of the plugin are addressed by numbers: [PFAIR] is the ready queue
    of the domain [pfair], and [relq] gives the numbers of the heaps of the
    release wheel, each of which is kept as the ready queue of a domain of its
    own.  The processors that are online are 0, 1, ..., as the plugin assumes
    when it allocates [pstate].  [EARLY_RELEASE] is defined nowhere. *)

From S2P Require Import Prelude Task PrioQueue Kernel RtDomain.
Open Scope Z_scope.

(** ** Data *)

Record subtask : Type := mk_subtask {
  s_release : Z;       (* in quanta, relative to the release of the job *)
  s_deadline : Z;
  overlap : Z;         (* called b bit by PD^2 *)
  group_deadline : Z
}.

Record pfair_param : Type := mk_pparam {
  quanta : Z;          (* number of subtasks *)
  cur : Z;             (* index of current subtask *)
  p_release : Z;       (* in quanta *)
  p_period : Z;        (* in quanta *)
  last_quantum : Z;    (* when scheduled last *)
  last_cpu : Z;        (* where scheduled last *)
  sporadic_release : bool;
  subtasks : list subtask
}.

Record pfair_state : Type := mk_pfstate {
  s_cpu : Z;
  cur_tick : Z;
  local_tick : Z;
  p_linked : option tid;   (* the task that should be executing *)
  local : option tid;      (* the local copy of linked *)
  p_scheduled : option tid;
  missed_quanta : Z;
  offset : Z               (* stagger offset *)
}.

Inductive quanta_policy : Type := LITMUS_ALIGNED_TICKS | LITMUS_STAGGERED_TICKS | LITMUS_DEFAULT_TICKS.

Record fstate : Type := mk_fstate {
  params : tid -> option pfair_param;   (* rt_param.pfair *)
  pstate : Z -> pfair_state;
  pfair_time : Z;                       (* the official PFAIR clock *)
  merge_time : Z;                       (* updated after the release queue has been merged *)
  num_online_cpus : nat;
  num_possible_cpus : Z;
  quanta_type : quanta_policy
}.

Definition set_cur (v : Z) (p : pfair_param) : pfair_param :=
  mk_pparam (quanta p) v (p_release p) (p_period p) (last_quantum p) (last_cpu p) (sporadic_release p) (subtasks p).
Definition set_p_release (v : Z) (p : pfair_param) : pfair_param :=
  mk_pparam (quanta p) (cur p) v (p_period p) (last_quantum p) (last_cpu p) (sporadic_release p) (subtasks p).
Definition set_last (q c : Z) (p : pfair_param) : pfair_param :=
  mk_pparam (quanta p) (cur p) (p_release p) (p_period p) q c (sporadic_release p) (subtasks p).
Definition set_sporadic_release (v : bool) (p : pfair_param) : pfair_param :=
  mk_pparam (quanta p) (cur p) (p_release p) (p_period p) (last_quantum p) (last_cpu p) v (subtasks p).
Definition set_p_linked (v : option tid) (s : pfair_state) : pfair_state :=
  mk_pfstate (s_cpu s) (cur_tick s) (local_tick s) v (local s) (p_scheduled s) (missed_quanta s) (offset s).
Definition set_local (v : option tid) (s : pfair_state) : pfair_state :=
  mk_pfstate (s_cpu s) (cur_tick s) (local_tick s) (p_linked s) v (p_scheduled s) (missed_quanta s) (offset s).
Definition set_p_scheduled (v : option tid) (s : pfair_state) : pfair_state :=
  mk_pfstate (s_cpu s) (cur_tick s) (local_tick s) (p_linked s) (local s) v (missed_quanta s) (offset s).
Definition set_cur_tick (v : Z) (s : pfair_state) : pfair_state :=
  mk_pfstate (s_cpu s) v (local_tick s) (p_linked s) (local s) (p_scheduled s) (missed_quanta s) (offset s).
Definition set_local_tick (v : Z) (s : pfair_state) : pfair_state :=
  mk_pfstate (s_cpu s) (cur_tick s) v (p_linked s) (local s) (p_scheduled s) (missed_quanta s) (offset s).
Definition set_missed_quanta (v : Z) (s : pfair_state) : pfair_state :=
  mk_pfstate (s_cpu s) (cur_tick s) (local_tick s) (p_linked s) (local s) (p_scheduled s) v (offset s).
Definition set_params (v : tid -> option pfair_param) (g : fstate) : fstate :=
  mk_fstate v (pstate g) (pfair_time g) (merge_time g) (num_online_cpus g) (num_possible_cpus g) (quanta_type g).
Definition set_pstate (v : Z -> pfair_state) (g : fstate) : fstate :=
  mk_fstate (params g) v (pfair_time g) (merge_time g) (num_online_cpus g) (num_possible_cpus g) (quanta_type g).
Definition set_pfair_time (v : Z) (g : fstate) : fstate :=
  mk_fstate (params g) (pstate g) v (merge_time g) (num_online_cpus g) (num_possible_cpus g) (quanta_type g).
Definition set_merge_time (v : Z) (g : fstate) : fstate :=
  mk_fstate (params g) (pstate g) (pfair_time g) v (num_online_cpus g) (num_possible_cpus g) (quanta_type g).

Definition PFAIR_MAX_PERIOD : Z := 2000.

(** [unsigned long] has 64 bits: the macros of jiffies.h are those for [lt_t]. *)
Definition time_after : Z -> Z -> bool := lt_after.
Definition time_before (a b : Z) : bool := time_after b a.
Definition time_before_eq : Z -> Z -> bool := lt_before_eq.

(** ** Priorities *)

(** A task in a comparison has parameters and a current subtask. *)
Definition param_of (f : tid -> option pfair_param) (t : tid) : pfair_param :=
  default (mk_pparam 0 0 0 0 0 0 false []) (f t).
Definition cur_subtask (p : pfair_param) : subtask :=
  default (mk_subtask 0 0 0 0) (subtasks p !! Z.to_nat (cur p)).

Definition cur_deadline (p : pfair_param) : Z := u64 (s_deadline (cur_subtask p) + p_release p).
Definition cur_sub_release (p : pfair_param) : Z := u64 (s_release (cur_subtask p) + p_release p).
Definition cur_release : pfair_param -> Z := cur_sub_release.
Definition cur_overlap (p : pfair_param) : Z := overlap (cur_subtask p).
Definition cur_group_deadline (p : pfair_param) : Z :=
  let gdl := group_deadline (cur_subtask p) in
  if gdl =? 0 then gdl else u64 (gdl + p_release p).

Definition pfair_higher_prio (f : tid -> option pfair_param) (T : tid -> task_struct) (first second : option tid) : bool :=
  match first with
  | None => false  (* first task must exist *)
  | Some a =>
      match second with
      | None => true
      | Some b =>
          let p := param_of f a in
          let q := param_of f b in
          negb (is_realtime (T b)) ||
          (* an earlier (subtask) deadline *)
          time_before (cur_deadline p) (cur_deadline q) ||
          (* deadline tie: break by B-bit *)
          (cur_deadline p =? cur_deadline q) &&
          ((cur_overlap q <? cur_overlap p) ||
           (* B-bit tie: break by group deadline *)
           (cur_overlap p =? cur_overlap q) &&
           (time_after (cur_group_deadline p) (cur_group_deadline q) ||
            (* group deadline tie: break by PID *)
            (cur_group_deadline p =? cur_group_deadline q) && (pid (T a) <? pid (T b))))
      end
  end.

Definition pfair_ready_order (f : tid -> option pfair_param) (T : tid -> task_struct) (a b : tid) : bool :=
  pfair_higher_prio f T (Some a) (Some b).

(** ** The heaps *)

Definition PFAIR : Z := 0.
(** The release queue for time [t] *)
Definition relq (t : Z) : Z := 1 + t `mod` PFAIR_MAX_PERIOD.

Section Pfair.
Context {Q : Type -> Type} `{PrioQueue Q}.
Abbreviation world := (world Q fstate).
Abbreviation K := (M world).

Definition upd_state (f : fstate -> fstate) : K unit := modify (fun w => set_plugin (f (plugin w)) w).
Definition tsk_pfair (t : tid) : K pfair_param := g ← gets plugin; of_option (params g t).
Definition upd_param (t : tid) (f : pfair_param -> pfair_param) : K unit :=
  p ← tsk_pfair t;
  upd_state (fun g => set_params (upd (params g) t (Some (f p))) g).

(** [pstate] has an entry for each processor. *)
Definition cpu_ok (g : fstate) (c : Z) : bool := (0 <=? c) && (c <? Z.of_nat (num_online_cpus g)).
Definition get_pstate (c : Z) : K pfair_state :=
  g ← gets plugin;
  if cpu_ok g c then mret (pstate g c) else fault.
Definition upd_pstate (c : Z) (f : pfair_state -> pfair_state) : K unit :=
  s ← get_pstate c;
  upd_state (fun g => set_pstate (upd (pstate g) c (f s)) g).

Definition cpus (g : fstate) : list Z := Z.of_nat <$> seq 0 (num_online_cpus g).
Fixpoint each_cpu (f : Z -> K unit) (l : list Z) : K unit :=
  match l with
  | [] => mret tt
  | c :: l => f c;; each_cpu f l
  end.
Definition for_each_online_cpu (f : Z -> K unit) : K unit := g ← gets plugin; each_cpu f (cpus g).

(** The ready queue of the domain *)
Definition pf_add_ready (t : tid) : K unit := f ← gets (fun w => params (plugin w)); __add_ready (pfair_ready_order f) dummy_resched PFAIR t.
Definition pf_take_ready : K (option tid) := f ← gets (fun w => params (plugin w)); __take_ready (pfair_ready_order f) PFAIR.
Definition pf_peek_ready : K (option tid) := f ← gets (fun w => params (plugin w)); __peek_ready (pfair_ready_order f) PFAIR.

(** [__merge_ready(&pfair, relq(time))] *)
Definition merge_queue (q : Z) : K unit :=
  f ← gets (fun w => params (plugin w));
  T ← gets tasks;
  h ← get_dom q;
  upd_dom PFAIR (fun r => set_ready_queue (pq_union (pfair_ready_order f T) (ready_queue r) (ready_queue h)) r);;
  upd_dom q (set_ready_queue pq_init).

Definition prepare_release (t : tid) (at_ : Z) : K unit := upd_param t (fun p => set_cur 0 (set_p_release at_ p)).

Definition __pfair_add_release (t : tid) (queue : Z) : K unit :=
  f ← gets (fun w => params (plugin w));
  ready_insert (pfair_ready_order f) queue t.

Definition pfair_add_release (t : tid) : K unit :=
  x ← get_task t;
  BUG_ON (in_heap x);;
  p ← tsk_pfair t;
  __pfair_add_release t (relq (cur_release p)).

(** Pull released tasks from the release queue. *)
Definition poll_releases (time : Z) : K unit :=
  merge_queue (relq time);;
  upd_state (set_merge_time time).

Definition check_preempt (t : tid) : K unit :=
  x ← get_task t;
  when (negb (linked_on x =? scheduled_on x) && present x)
    (* the task can be scheduled and is not scheduled where it ought to be scheduled *)
    (let cpu := if linked_on x =? NO_CPU then scheduled_on x else linked_on x in
     me ← gets this_cpu;
     if cpu =? me then (c ← gets curr; set_tsk_need_resched (c me)) else smp_send_reschedule cpu).

Definition forget (t : tid) (o : option tid) : option tid := if decide (o = Some t) then None else o.

Definition drop_all_references (t : tid) : K unit :=
  x ← get_task t;
  when (in_heap x)
    (* figure out what queue the node is in *)
    (p ← tsk_pfair t;
     g ← gets plugin;
     let q := if time_before_eq (cur_release p) (merge_time g) then PFAIR else relq (cur_release p) in
     remove (pfair_ready_order (params g)) q t);;
  g ← gets plugin;
  each_cpu (fun c => upd_pstate c (fun s =>
    set_p_scheduled (forget t (p_scheduled s)) (set_local (forget t (local s)) (set_p_linked (forget t (p_linked s)) s)))) (cpus g).

(** ** The next quantum *)

(** Returns true if the task needs to go to the release queue. *)
Definition advance_subtask (time : Z) (t : tid) (c : Z) : K bool :=
  p ← tsk_pfair t;
  (if quanta p =? 0 then fault else mret tt);;  (* division by zero *)
  let cur' := u64 (cur p + 1) `mod` quanta p in
  upd_param t (set_cur cur');;
  x ← get_task t;
  if (cur' =? 0) && negb (present x) then
    (* remove task from system until it wakes *)
    drop_all_references t;;
    upd_param t (set_sporadic_release true);;
    mret false
  else
    when (cur' =? 0)
      (* we start a new job *)
      (upd_task t (fun x => set_rt_flags RT_F_RUNNING (prepare_for_next_period x));;
       upd_param t (fun p => set_p_release (u64 (p_release p + p_period p)) p));;
    p ← tsk_pfair t;
    mret (time_after (cur_release p) time).

Definition advance_linked (time c : Z) : K unit :=
  s ← get_pstate c;
  match p_linked s with
  | None => mret tt
  | Some l =>
      upd_param l (set_last time c);;
      to_relq ← advance_subtask time l c;
      when to_relq
        (upd_pstate c (set_p_linked None);;
         pfair_add_release l)
  end.

Definition advance_subtasks (time : Z) : K unit := for_each_online_cpu (advance_linked time).

Definition target_cpu (time : Z) (t : tid) (default_cpu : Z) : K Z :=
  x ← get_task t;
  if negb (scheduled_on x =? NO_CPU) then mret (scheduled_on x)  (* always observe scheduled_on linkage *)
  else
    p ← tsk_pfair t;
    if last_quantum p =? u64 (time - 1) then
      (* back2back quanta *)
      let c := last_cpu p in
      s ← get_pstate c;
      match p_linked s with
      | None => mret c
      | Some l => y ← get_task l; mret (if scheduled_on y =? c then default_cpu else c)
      end
    else mret default_cpu.

(** A task that loses its link is pushed back into the ready queue. *)
Definition push_back (o : option tid) : K unit :=
  match o with
  | None => mret tt
  | Some t => upd_task t (set_linked_on NO_CPU);; pf_add_ready t
  end.

(** Returns true if linking was redirected. *)
Definition pfair_link (time c : Z) (t : tid) : K bool :=
  target ← target_cpu time t c;
  s ← get_pstate c;
  let prev := p_linked s in
  if negb (target =? c) then
    s' ← get_pstate target;
    upd_pstate target (set_p_linked (Some t));;
    upd_task t (set_linked_on target);;
    match p_linked s' with
    | None => mret true  (* linked ok, but reschedule this CPU *)
    | Some other =>
        if target <? c then
          (* link other to cpu instead *)
          upd_task other (set_linked_on c);;
          upd_pstate c (set_p_linked (Some other));;
          push_back prev;;
          mret false
        else
          (* re-add other, its original CPU was not considered yet *)
          push_back (Some other);;
          mret true
    end
  else
    upd_pstate c (set_p_linked (Some t));;
    upd_task t (set_linked_on c);;
    push_back prev;;
    mret false.

(** The loop for one processor; [fuel] bounds its rounds. *)
Fixpoint schedule_cpu (fuel : nat) (time c : Z) : K unit :=
  match fuel with
  | O => fault
  | S fuel =>
      top ← pf_peek_ready;
      s ← get_pstate c;
      f ← gets (fun w => params (plugin w));
      T ← gets tasks;
      if pfair_higher_prio f T top (p_linked s) then
        t ← pf_take_ready;
        t ← of_option t;
        retry ← pfair_link time c t;
        match retry with true => schedule_cpu fuel time c | false => mret tt end
      else mret tt
  end.

Definition rounds (g : fstate) : nat := S (2 * num_online_cpus g).
Definition schedule_subtasks (time : Z) : K unit :=
  g ← gets plugin;
  for_each_online_cpu (schedule_cpu (rounds g) time).

Definition ack_quantum (time c : Z) : K unit :=
  s ← get_pstate c;
  when (negb (local_tick s =? cur_tick s)) (upd_pstate c (set_missed_quanta (u64 (missed_quanta s + 1))));;
  upd_pstate c (set_cur_tick time).

Definition schedule_next_quantum (time : Z) : K unit :=
  advance_subtasks time;;
  poll_releases time;;
  schedule_subtasks time;;
  (* we are done: advance time *)
  for_each_online_cpu (ack_quantum time).

(** ** Ticks *)

Definition current_quantum (c : Z) : K Z :=
  now ← litmus_clock;
  s ← get_pstate c;
  tick ← gets tick_period;
  mret (time2quanta tick (u64 (now - offset s)) FLOOR).

(** [cmpxchg(&pfair_time, expected, next)] *)
Definition cmpxchg_time (expected next : Z) : K Z :=
  g ← gets plugin;
  when (pfair_time g =? expected) (upd_state (set_pfair_time next));;
  mret (pfair_time g).

(** Whether the loop of [wait_for_quantum] ends *)
Definition quantum_reached (q : Z) (g : fstate) (c : Z) : bool := negb (time_before (cur_tick (pstate g c)) q).

(** What [pfair_tick] does after it has attempted to advance time *)
Inductive tick_case : Type :=
  | TickFirst           (* this processor has to prepare the quantum *)
  | TickMissed (time : Z)  (* the whole system missed a tick *)
  | TickLate            (* our timer is lagging behind *)
  | TickOther.          (* some other processor prepares the quantum *)

Definition tick_attempt (cur : Z) : K tick_case :=
  time ← cmpxchg_time (u64 (cur - 1)) cur;
  mret (if time =? u64 (cur - 1) then TickFirst
        else if time_before time (u64 (cur - 1)) then TickMissed time
        else if time_after time cur then TickLate
        else TickOther).

(** Copy the assignment. *)
Definition tick_copy (c : Z) : K unit :=
  s ← get_pstate c;
  upd_pstate c (set_local (p_linked s)).

(** Signal that we are done, and preempt the current task if another one should
    execute. *)
Definition tick_signal (c : Z) : K unit :=
  s ← get_pstate c;
  upd_pstate c (set_local_tick (cur_tick s));;
  me ← gets (fun w => curr w c);
  x ← get_task me;
  y ← match local s with Some l => y ← get_task l; mret (present y) | None => mret false end;
  when (bool_decide (local s <> Some me) && (is_realtime x || y)) (set_tsk_need_resched me).

(** ** The scheduler callbacks *)

Definition safe_to_schedule (x : task_struct) (c : Z) : bool :=
  let where_ := scheduled_on x in
  if negb (where_ =? NO_CPU) && negb (where_ =? c) then false
  else present x && (get_rt_flags x =? RT_F_RUNNING).

Definition pfair_schedule (prev : tid) : K (option tid) :=
  me ← gets this_cpu;
  s ← get_pstate me;
  next ← match local s with
         | Some l => x ← get_task l; mret (if safe_to_schedule x (s_cpu s) then Some l else None)
         | None => mret None
         end;
  when (bool_decide (next <> Some prev))
    (upd_task prev (set_scheduled_on NO_CPU);;
     match next with Some n => upd_task n (set_scheduled_on (s_cpu s)) | None => mret tt end);;
  mret next.

Definition pfair_task_new (t : tid) (on_rq running : bool) : K unit :=
  upd_task t (fun x => set_scheduled_on (if running then task_cpu x else NO_CPU) x);;
  g ← gets plugin;
  prepare_release t (u64 (pfair_time g + 1));;
  upd_param t (set_sporadic_release false);;
  pfair_add_release t;;
  check_preempt t.

Definition pfair_task_wake_up (t : tid) : K unit :=
  p ← tsk_pfair t;
  when (sporadic_release p)
    (now ← litmus_clock;
     upd_task t (release_at now);;
     tick ← gets tick_period;
     prepare_release t (time2quanta tick now CEIL);;
     pfair_add_release t;;
     upd_param t (set_sporadic_release false));;
  check_preempt t.

Definition pfair_task_block (t : tid) : K unit := x ← get_task t; BUG_ON (negb (is_realtime x)).

Definition pfair_task_exit (t : tid) : K unit :=
  x ← get_task t;
  BUG_ON (negb (is_realtime x));;
  drop_all_references t;;
  upd_state (fun g => set_params (upd (params g) t None) g).

Definition pfair_release_at (t : tid) (start : Z) : K unit :=
  x ← get_task t;
  BUG_ON (negb (is_realtime x));;
  upd_task t (release_at start);;
  tick ← gets tick_period;
  g ← gets plugin;
  let release := time2quanta tick start CEIL in
  let release := if PFAIR_MAX_PERIOD <=? u64 (release - pfair_time g) then u64 (pfair_time g + PFAIR_MAX_PERIOD) else release in
  drop_all_references t;;
  prepare_release t release;;
  pfair_add_release t;;
  upd_param t (set_sporadic_release false).

(** ** Admission *)

(** [i] is zero-based; [do_div] divides and returns the remainder. *)
Definition init_subtask (i quanta period : Z) : subtask :=
  let rel := u64 (period * i) / quanta in
  let next := u64 (period * (i + 1)) in
  let deadline := if next `mod` quanta =? 0 then next / quanta else u64 (next / quanta + 1) in
  let ov := u64 (deadline - next / quanta) in
  let gd :=
    if period <=? u64 (2 * quanta) then
      (* heavy *)
      let tmp := u64 (u64 (deadline - (i + 1)) * period) in
      if quanta <? period then
        if tmp `mod` (period - quanta) =? 0 then tmp / (period - quanta) else u64 (tmp / (period - quanta) + 1)
      else tmp
    else 0 in
  mk_subtask rel deadline ov gd.

Definition init_subtasks (quanta period : Z) : list subtask :=
  (fun i => init_subtask (Z.of_nat i) quanta period) <$> seq 0 (Z.to_nat quanta).

(** [mem] is what the allocated memory holds in the fields that are not
    initialised, the last two of [set_last] and [sporadic_release]; [None] if the
    allocation fails. *)
Definition pfair_admit_task (mem : option (Z * Z * bool)) (t : tid) : K Z :=
  x ← get_task t;
  tick ← gets tick_period;
  let quanta := time2quanta tick (get_exec_cost x) CEIL in
  let period := get_rt_period x / tick in
  if PFAIR_MAX_PERIOD <=? period then mret (- EINVAL)
  else
    (* special case: task has weight 1.0 *)
    let '(quanta, period) := if quanta =? period then (1, 1) else (quanta, period) in
    match mem with
    | None => mret (- ENOMEM)
    | Some (lq, lc, sr) =>
        (* a stale allocation is freed *)
        upd_state (fun g => set_params (upd (params g) t (Some (mk_pparam quanta 0 0 period lq lc sr (init_subtasks quanta period)))) g);;
        mret 0
    end.

(** ** Activation *)

(** kernel/time/tick-sched.c *)
Definition cpu_stagger_offset (g : fstate) (tick c : Z) : Z :=
  match quanta_type g with
  | LITMUS_ALIGNED_TICKS => 0
  | LITMUS_STAGGERED_TICKS => u64 (tick / num_possible_cpus g * c)
  | LITMUS_DEFAULT_TICKS => u64 (Z.shiftr tick 1 / num_possible_cpus g * c)
  end.

Definition pfair_activate_plugin : K Z :=
  me ← gets this_cpu;
  now ← current_quantum me;
  upd_state (set_pfair_time now);;
  for_each_online_cpu (fun c =>
    g ← gets plugin;
    tick ← gets tick_period;
    upd_pstate c (fun s => mk_pfstate (s_cpu s) now now (p_linked s) (local s) (p_scheduled s) 0 (cpu_stagger_offset g tick c)));;
  mret 0.

(** The heaps are empty and no task is linked. *)
Definition init_pfair : K unit :=
  modify (fun w => set_doms (fun d =>
    if (0 <=? d) && (d <=? PFAIR_MAX_PERIOD) then mk_rt_domain pq_init (fun _ => []) [] NO_CPU else doms w d) w);;
  for_each_online_cpu (fun c =>
    g ← gets plugin;
    tick ← gets tick_period;
    upd_pstate c (fun _ => mk_pfstate c 0 0 None None None 0 (cpu_stagger_offset g tick c))).

End Pfair.
