(* ===== verification/PfairSub.v ===== *)
(** * PD^2: windows of subtasks and priorities

    The parameters [init_subtask] computes are those of the literature: the
    windows of subtasks, the b bit, and the group deadline, the time by which a
    cascade of forced decisions ends.  [pfair_higher_prio] is a strict total
    order on tasks whose parameters are in range. *)

From S2P Require Import Prelude Task Edf PrioQueue Kernel RtInv Pfair.
Open Scope Z_scope.

(** ** Windows *)

(** [d] is [n / e], rounded up. *)
Definition is_ceil (n e d : Z) : Prop := n <= d * e < n + e.

Lemma ceil_unique n e d d' : is_ceil n e d -> is_ceil n e d' -> d = d'.
Proof. unfold is_ceil. nia. Qed.

Lemma ceil_floor n e :
  0 < e -> is_ceil n e (if n `mod` e =? 0 then n / e else n / e + 1).
Proof.
  intros He. pose proof (Z.div_mod n e ltac:(lia)) as E. pose proof (Z.mod_pos_bound n e He) as B.
  unfold is_ceil. destruct (Z.eqb_spec (n `mod` e) 0); nia.
Qed.

Lemma u64_small x : 0 <= x < two64 -> u64 x = x.
Proof. apply u64_id. Qed.

(** What [init_subtask] stores for the subtask with index [i]. *)
Record window (e p i : Z) (s : subtask) : Prop := {
  wi_release : s_release s = i * p / e;
  wi_deadline : is_ceil ((i + 1) * p) e (s_deadline s);
  wi_overlap : overlap s = s_deadline s - (i + 1) * p / e;
  wi_light : 2 * e < p -> group_deadline s = 0;
  wi_heavy : p <= 2 * e -> e < p -> is_ceil ((s_deadline s - (i + 1)) * p) (p - e) (group_deadline s);
  wi_full : p = e -> group_deadline s = 0
}.

Lemma init_window e p i : 0 < e <= p -> p < 2000 -> 0 <= i < e -> window e p i (init_subtask i e p).
Proof.
  intros He Hp Hi. unfold init_subtask.
  rewrite (u64_small (p * i)), (u64_small (p * (i + 1))), (u64_small (2 * e)) by (unfold two64; nia).
  rewrite (Z.mul_comm p i), (Z.mul_comm p (i + 1)).
  assert (0 <= (i + 1) * p / e <= p) as Hq.
  { split; [apply Z.div_pos; nia|]. apply Z.div_le_upper_bound; nia. }
  rewrite (u64_small ((i + 1) * p / e + 1)) by (unfold two64; lia).
  set (d := if ((i + 1) * p) `mod` e =? 0 then ((i + 1) * p) / e else ((i + 1) * p) / e + 1). pose proof (ceil_floor ((i + 1) * p) e ltac:(lia)) as Hd. fold d in Hd.
  assert (i + 1 <= d <= p) as Hdp by (unfold is_ceil in Hd; nia).
  assert (0 <= d - (i + 1) * p / e <= 1) as Ho by (unfold d; destruct (_ =? 0); lia).
  rewrite (u64_small (d - (i + 1) * p / e)), (u64_small (d - (i + 1))) by (unfold two64; lia).
  rewrite (u64_small ((d - (i + 1)) * p)) by (unfold two64; nia).
  assert (0 <= (d - (i + 1)) * p < 4000000) as Hm by nia. set (m := (d - (i + 1)) * p) in *.
  split; simpl.
  - done.
  - exact Hd.
  - done.
  - intros Hl. destruct (Z.leb_spec p (2 * e)); [lia|done].
  - intros Hl Hlt. destruct (Z.leb_spec p (2 * e)); [|lia]. destruct (Z.ltb_spec e p); [|lia].
    rewrite (u64_small (m / (p - e) + 1)); [by apply ceil_floor; lia|].
    assert (0 <= m / (p - e)) by (apply Z.div_pos; lia). assert (m / (p - e) <= m) by (apply Z.div_le_upper_bound; nia). unfold two64. lia.
  - intros ->. destruct (Z.leb_spec e (2 * e)); [|lia]. destruct (Z.ltb_spec e e); [lia|].
    assert (d = i + 1) as Ed by (unfold is_ceil in Hd; nia). unfold m. rewrite Ed. lia.
Qed.

Lemma subtask_bounds e p i s :
  window e p i s -> 0 < e <= p -> 0 <= i < e ->
  0 <= s_release s < s_deadline s /\ s_deadline s <= p /\ 0 <= overlap s <= 1 /\ 0 <= group_deadline s <= p /\ i + 1 <= s_deadline s.
Proof.
  intros [Hr Hd Ho Hl Hh Hf] He Hi. unfold is_ceil in *.
  pose proof (Z.div_mod (i * p) e ltac:(lia)) as E1. pose proof (Z.mod_pos_bound (i * p) e ltac:(lia)) as B1.
  pose proof (Z.div_mod ((i + 1) * p) e ltac:(lia)) as E2. pose proof (Z.mod_pos_bound ((i + 1) * p) e ltac:(lia)) as B2.
  rewrite Hr, Ho. set (x := i * p / e) in *. set (y := (i + 1) * p / e) in *. set (d := s_deadline s) in *.
  assert (i + 1 <= d <= p) as Hdp by nia.
  assert (0 <= group_deadline s <= p) as Hg.
  { destruct (Z.le_gt_cases p (2 * e)) as [Hle|Hgt]; [|rewrite (Hl Hgt); lia]. destruct (Z.eq_dec p e) as [Epe|Hne]; [rewrite (Hf Epe); lia|].
    specialize (Hh Hle ltac:(lia)). assert (d - (i + 1) <= p - e) by nia. split; nia. }
  assert (0 <= x < d) by nia. assert (0 <= d - y <= 1) by nia. lia.
Qed.

(** The b bit says whether the window of the next subtask begins before the
    deadline. *)
Lemma window_next e p i s s' : window e p i s -> window e p (i + 1) s' -> overlap s = s_deadline s - s_release s'.
Proof. intros [_ _ Ho _ _ _] [Hr _ _ _ _ _]. by rewrite Ho, Hr. Qed.

Lemma window_zero e p i s : 0 < e -> window e p i s -> overlap s = 0 <-> s_deadline s * e = (i + 1) * p.
Proof.
  intros He [_ Hd Ho _ _ _]. unfold is_ceil in Hd. rewrite Ho.
  pose proof (Z.div_mod ((i + 1) * p) e ltac:(lia)) as E2. pose proof (Z.mod_pos_bound ((i + 1) * p) e ltac:(lia)) as B2.
  set (y := (i + 1) * p / e) in *. split; intros; nia.
Qed.

(** A cascade from subtask [i]: its deadline and those up to subtask [k] follow
    each other directly and all their windows but the last overlap with the next,
    so that executing one in its last quantum forces the next into its last. *)
Definition cascade (sub : Z -> subtask) (i k : Z) : Prop :=
  i <= k /\ (forall j, i <= j <= k -> s_deadline (sub j) = s_deadline (sub i) + (j - i)) /\
  (forall j, i <= j < k -> overlap (sub j) = 1).

Section Cascade.
Variables (e p i : Z) (sub : Z -> subtask).
Hypothesis Hw : forall j, 0 <= j < e -> window e p j (sub j).
Hypothesis He : 0 < e < p.
Hypothesis Hheavy : p <= 2 * e.
Hypothesis Hi : 0 <= i < e.

(** The quanta the cascade cannot use, and the number of its last subtask *)
Let c : Z := s_deadline (sub i) - (i + 1).
Let k : Z := c * e / (p - e) - 1.

Lemma cascade_last : i <= k < e /\ (k + 1) * (p - e) <= c * e < (k + 2) * (p - e).
Proof.
  pose proof (wi_deadline _ _ _ _ (Hw i Hi)) as Hd. unfold is_ceil in Hd.
  pose proof (Z.div_mod (c * e) (p - e) ltac:(lia)) as E. pose proof (Z.mod_pos_bound (c * e) (p - e) ltac:(lia)) as B.
  assert ((k + 1) * (p - e) <= c * e < (k + 2) * (p - e)) as Hk by (unfold k; nia). split; [|done].
  assert (s_deadline (sub i) <= p) by (apply (subtask_bounds e p i); [auto|lia|lia]).
  assert ((i + 1) * (p - e) <= c * e) by (unfold c; nia).
  assert (c <= p - e) by (unfold c; nia). split; nia.
Qed.

Lemma cascade_deadline j : i <= j <= k -> s_deadline (sub j) = c + (j + 1).
Proof.
  intros Hj. destruct cascade_last as [Hk Hc]. pose proof (wi_deadline _ _ _ _ (Hw i Hi)) as Hd.
  apply (ceil_unique ((j + 1) * p) e); [apply (wi_deadline e p j), Hw; lia|].
  assert ((j + 1) * (p - e) <= c * e) by nia. unfold is_ceil in *. unfold c in *. split; nia.
Qed.

Lemma group_deadline_cascade :
  exists k, k < e /\ cascade sub i k /\
    (overlap (sub k) = 0 /\ group_deadline (sub i) = s_deadline (sub k) \/
     overlap (sub k) = 1 /\ k + 1 < e /\ s_deadline (sub (k + 1)) = s_deadline (sub k) + 2 /\
     group_deadline (sub i) = s_deadline (sub k) + 1).
Proof.
  destruct cascade_last as [Hk Hc]. pose proof cascade_deadline as Hdl. pose proof (Hdl k ltac:(lia)) as Hdk.
  pose proof (wi_heavy _ _ _ _ (Hw i Hi) Hheavy ltac:(lia)) as Hg. fold c in Hg.
  assert (forall j, i <= j <= k -> overlap (sub j) = 0 -> (j + 1) * (p - e) = c * e) as Hz.
  { intros j Hj E. apply (window_zero e p j) in E; [|lia|apply Hw; lia]. rewrite Hdl in E by lia. nia. }
  assert (forall j, i <= j <= k -> overlap (sub j) = 0 \/ overlap (sub j) = 1) as H01.
  { intros j Hj. pose proof (subtask_bounds e p j (sub j) (Hw j ltac:(lia)) ltac:(lia) ltac:(lia)). lia. }
  exists k. split_and!; [lia|split_and!; [lia| |]|].
  - intros j Hj. rewrite !Hdl by lia. lia.
  - intros j Hj. destruct (H01 j ltac:(lia)) as [E|E]; [|done]. apply Hz in E; [|lia]. nia.
  - destruct (H01 k ltac:(lia)) as [E|E].
    + left. split; [done|]. apply (ceil_unique (c * p) (p - e)); [done|]. rewrite Hdk. apply Hz in E; [|lia]. unfold is_ceil. nia.
    + right. assert ((k + 1) * (p - e) < c * e) as Hlt.
      { destruct (Z.eq_dec ((k + 1) * (p - e)) (c * e)) as [Ez|]; [|lia]. exfalso.
        assert (overlap (sub k) = 0); [|lia]. apply (window_zero e p k); [lia|apply Hw; lia|]. rewrite Hdk. nia. }
      assert (s_deadline (sub i) <= p) by (apply (subtask_bounds e p i); [auto|lia|lia]).
      assert (c <= p - e) by (pose proof (wi_deadline _ _ _ _ (Hw i Hi)) as Hd; unfold is_ceil in Hd; unfold c; nia).
      assert (k + 1 < e) by nia. split_and!; [done|done| |].
      * apply (ceil_unique ((k + 1 + 1) * p) e); [apply (wi_deadline e p (k + 1)), Hw; lia|]. rewrite Hdk. unfold is_ceil. split; nia.
      * apply (ceil_unique (c * p) (p - e)); [done|]. rewrite Hdk. unfold is_ceil. split; nia.
Qed.
End Cascade.


(** ** Priorities *)

Definition two62 : Z := 4611686018427387904.

(** Parameters as [pfair_admit_task] leaves them for a task of weight at most
    one, with a release time that has not wrapped. *)
Record good_param (p : pfair_param) : Prop := {
  gp_weight : 0 < quanta p <= p_period p;
  gp_period : p_period p < PFAIR_MAX_PERIOD;
  gp_subtasks : subtasks p = init_subtasks (quanta p) (p_period p);
  gp_cur : 0 <= cur p < quanta p;
  gp_release : 0 <= p_release p < two62
}.

Lemma init_subtasks_lookup e p i : 0 <= i < e -> init_subtasks e p !! Z.to_nat i = Some (init_subtask i e p).
Proof.
  intros Hi. unfold init_subtasks. rewrite list_lookup_fmap, lookup_seq_lt by lia. simpl. by rewrite Z2Nat.id by lia.
Qed.

Lemma cur_subtask_good p : good_param p -> cur_subtask p = init_subtask (cur p) (quanta p) (p_period p).
Proof. intros [He Hp Hs Hc Hr]. unfold cur_subtask. by rewrite Hs, init_subtasks_lookup. Qed.

(** Without wrap-around *)
Definition deadline_of (p : pfair_param) : Z := p_release p + s_deadline (cur_subtask p).
Definition release_of (p : pfair_param) : Z := p_release p + s_release (cur_subtask p).
Definition group_of (p : pfair_param) : Z :=
  if group_deadline (cur_subtask p) =? 0 then 0 else p_release p + group_deadline (cur_subtask p).

Lemma cur_window p : good_param p -> window (quanta p) (p_period p) (cur p) (cur_subtask p).
Proof. intros Hp. rewrite cur_subtask_good by done. destruct Hp. by apply init_window. Qed.

Lemma cur_bounds p : good_param p ->
  0 <= s_release (cur_subtask p) < s_deadline (cur_subtask p) /\ s_deadline (cur_subtask p) <= p_period p /\
  0 <= group_deadline (cur_subtask p) <= p_period p.
Proof.
  intros Hp. pose proof (cur_window p Hp) as Hw. destruct Hp as [He Hpp Hs Hc Hr].
  pose proof (subtask_bounds _ _ _ _ Hw He Hc). lia.
Qed.

Lemma cur_values p : good_param p ->
  cur_deadline p = deadline_of p /\ cur_release p = release_of p /\ cur_group_deadline p = group_of p /\
  0 <= release_of p < deadline_of p /\ deadline_of p < two63 /\ 0 <= group_of p < two63.
Proof.
  intros Hp. pose proof (cur_bounds p Hp) as (Hr & Hd & Hg). destruct Hp as [He Hpp Hs Hc Hpr].
  unfold cur_deadline, cur_release, cur_sub_release, cur_group_deadline, deadline_of, release_of, group_of, two62, two63, PFAIR_MAX_PERIOD in *.
  rewrite !u64_small by (unfold two64; lia). destruct (Z.eqb_spec (group_deadline (cur_subtask p)) 0) as [E|E]; split_and!; lia.
Qed.

(** An earlier deadline, then the larger b bit, then the later group deadline,
    then the smaller pid *)
Definition pd2_before (p q : pfair_param) (n m : Z) : Prop :=
  deadline_of p < deadline_of q \/ deadline_of p = deadline_of q /\
  (cur_overlap q < cur_overlap p \/ cur_overlap p = cur_overlap q /\
  (group_of q < group_of p \/ group_of p = group_of q /\ n < m)).

Definition pfair_ok (f : tid -> option pfair_param) (T : tid -> task_struct) (t : tid) : Prop :=
  is_realtime (T t) = true /\ exists p, f t = Some p /\ good_param p.

Lemma pfair_ok_param f T t : pfair_ok f T t -> good_param (param_of f t).
Proof. intros (_ & p & Hp & Hg). unfold param_of. by rewrite Hp. Qed.

Lemma pfair_order_spec f T a b :
  pfair_ok f T a -> pfair_ok f T b ->
  pfair_ready_order f T a b = true <-> pd2_before (param_of f a) (param_of f b) (pid (T a)) (pid (T b)).
Proof.
  intros Ha Hb. pose proof (proj1 Hb) as Hr. apply pfair_ok_param in Ha, Hb.
  destruct (cur_values _ Ha) as (Ed & _ & Eg & B1 & B2 & B3), (cur_values _ Hb) as (Ed' & _ & Eg' & B1' & B2' & B3').
  unfold pfair_ready_order, pfair_higher_prio, pd2_before. rewrite Hr, Ed, Ed', Eg, Eg'. simpl.
  unfold time_before, time_after. fold (lt_before (deadline_of (param_of f a)) (deadline_of (param_of f b))).
  fold (lt_before (group_of (param_of f b)) (group_of (param_of f a))).
  rewrite !lt_before_window by (unfold two63 in *; lia).
  rewrite !orb_true_iff, !andb_true_iff, !orb_true_iff, !andb_true_iff, !orb_true_iff, !andb_true_iff, !Z.ltb_lt, !Z.eqb_eq. done.
Qed.

Lemma pfair_swo f T : swo_on (pfair_ok f T) (pfair_ready_order f T).
Proof.
  assert (forall a b, pfair_ok f T a -> pfair_ok f T b -> pfair_ready_order f T a b = false <->
    ~ pd2_before (param_of f a) (param_of f b) (pid (T a)) (pid (T b))) as Hf.
  { intros a b Ha Hb. rewrite <- (pfair_order_spec f T) by done. by destruct (pfair_ready_order f T a b). }
  split.
  - intros a Ha. apply Hf; [done..|]. unfold pd2_before. lia.
  - intros a b c Ha Hb Hc. rewrite !pfair_order_spec by done. unfold pd2_before. lia.
  - intros a b c Ha Hb Hc. rewrite !Hf by done. unfold pd2_before. lia.
Qed.

(** Two tasks never have the same priority. *)
Lemma pfair_total f T a b :
  pids_unique T -> pfair_ok f T a -> pfair_ok f T b -> a <> b ->
  pfair_ready_order f T a b = false -> pfair_ready_order f T b a = true.
Proof.
  intros Hu Ha Hb Hne Hf. apply pfair_order_spec; [done..|].
  assert (~ pd2_before (param_of f a) (param_of f b) (pid (T a)) (pid (T b))) as Hn.
  { rewrite <- (pfair_order_spec f T) by done. by rewrite Hf. }
  assert (pid (T a) <> pid (T b)) by (intros E; by apply Hne, Hu). unfold pd2_before in *. lia.
Qed.

Lemma pfair_order_core f T T' a b : (forall x, core (T x) = core (T' x)) -> pfair_ready_order f T a b = pfair_ready_order f T' a b.
Proof.
  intros E. unfold pfair_ready_order, pfair_higher_prio.
  by rewrite (core_field is_realtime (T b) (T' b)), (core_field pid (T a) (T' a)), (core_field pid (T b) (T' b)).
Qed.

Lemma pfair_ok_core f T T' a : (forall x, core (T x) = core (T' x)) -> pfair_ok f T a -> pfair_ok f T' a.
Proof. intros E [Hr Hp]. split; [|done]. rewrite <- Hr. symmetry. by apply core_field. Qed.
