(* ===== verification/PfairInv.v ===== *)
(** * PD^2: the queues and the links

    A task of the plugin is linked to one processor, ready, or in the release
    wheel, in the heap for the time at which the window of its current subtask
    opens.  Here is the invariant, and the effect of the operations on the
    queues and links. *)

From S2P Require Import Prelude Task Edf PrioQueue Kernel RtDomain RtInv EdfDomain Pfair PfairSub.
Open Scope Z_scope.

Section Reorder.
Context {Q : Type -> Type} `{PrioQueueLaws Q} {P : Type}.

(** The queues stay in order when what changes about the tasks does not concern
    those that are queued. *)
Lemma dom_ok_reorder o D o' D' (w w' : world Q P) :
  dom_ok o D w -> doms w' = doms w -> rheaps w' = rheaps w -> tick_period w' = tick_period w ->
  (forall x, in_heap (tasks w' x) = in_heap (tasks w x)) ->
  (forall x d h, at_place w x (PRelease d h) -> get_release (tasks w' x) = get_release (tasks w x)) ->
  (forall x p, at_place w x p -> D (tasks w) x -> D' (tasks w') x) ->
  (forall a b p q, at_place w a p -> at_place w b q -> o' (tasks w') a b = o (tasks w) a b) -> dom_ok o' D' w'.
Proof.
  intros Hw Ed Er Et Hh Hrel HD Ho.
  assert (forall x p, at_place w' x p <-> at_place w x p) as Ha.
  { intros x [d|d h]; simpl; unfold ready_elems, active, rel_elems; by rewrite ?Ed, ?Er. }
  assert (forall q : Q tid, (forall y, y ∈ pq_elems q -> exists p, at_place w y p) ->
    pq_wf (D (tasks w)) (o (tasks w)) q -> pq_wf (D' (tasks w')) (o' (tasks w')) q) as Hwf.
  { intros q Hq Hwf. eapply pq_wf_ext; [exact Hwf| |].
    - pose proof (pq_wf_D _ _ _ Hwf) as HDq. rewrite Forall_forall in *. intros y Hy. destruct (Hq y Hy) as [p Hp]. eauto.
    - intros a b Hia Hib. destruct (Hq a Hia), (Hq b Hib). eauto. }
  destruct Hw. split; unfold ready_elems, rel_elems, active, slot_of in *; rewrite ?Ed, ?Er, ?Et; try done.
  - intros t p p'. rewrite !Ha. apply qo_unique.
  - intros t. rewrite Hh, qo_heap. split; intros [p Hp]; exists p; by apply Ha.
  - intros h t Hact Hin. rewrite (Hrel t (rh_dom (rheaps w h)) h); [by apply qo_time|by split_and!].
  - intros d. apply Hwf; [|apply qo_ready_wf]. intros y Hy. by exists (PReady d).
  - intros h Hact. apply Hwf; [|by apply qo_rel_wf]. intros y Hy. by exists (PRelease (rh_dom (rheaps w h)) h).
Qed.
End Reorder.

Section Inv.
Context {Q : Type -> Type} `{PrioQueueLaws Q}.
Abbreviation world := (world Q fstate).
Abbreviation K := (M world).
Implicit Types (w : world) (t : tid) (c d : Z).

Abbreviation pars w := (params (plugin w)).
Definition fdom w : Prop := dom_ok (pfair_ready_order (pars w)) (pfair_ok (pars w)) w.
Definition lk w c : option tid := p_linked (pstate (plugin w) c).
Definition rel w t : Z := release_of (param_of (pars w) t).
Abbreviation ok w t := (pfair_ok (pars w) (tasks w) t).
Abbreviation beats w := (pfair_ready_order (pars w) (tasks w)).
Abbreviation cpu w c := (cpu_ok (plugin w) c = true).

(** The tasks that are linked may have windows that have been open up to [time]. *)
Record finv_at (time : Z) w : Prop := {
  fi_dom : fdom w;
  fi_pids : pids_unique (tasks w);
  fi_queue t p : at_place w t p ->
    p = PReady PFAIR /\ rel w t <= merge_time (plugin w) \/
    p = PReady (relq (rel w t)) /\ merge_time (plugin w) < rel w t <= merge_time (plugin w) + PFAIR_MAX_PERIOD;
  fi_link c t : cpu w c -> lk w c = Some t ->
    in_heap (tasks w t) = false /\ ok w t /\ linked_on (tasks w t) = c /\ rel w t <= time;
  fi_merge : 0 <= merge_time (plugin w) <= time /\ time < two62
}.
Definition finv w : Prop := finv_at (merge_time (plugin w)) w.

(** The task is known to the scheduler. *)
Definition fmember w t : Prop := (exists c, cpu w c /\ lk w c = Some t) \/ exists p, at_place w t p.

Lemma pf_linked_once time w c c' t : finv_at time w -> cpu w c -> cpu w c' -> lk w c = Some t -> lk w c' = Some t -> c = c'.
Proof. intros Hi Hc Hc' E E'. destruct (fi_link _ _ Hi c t Hc E) as (_ & _ & <- & _). by destruct (fi_link _ _ Hi c' t Hc' E') as (_ & _ & <- & _). Qed.

Lemma linked_unqueued time w c t p : finv_at time w -> cpu w c -> lk w c = Some t -> ~ at_place w t p.
Proof.
  intros Hi Hc E. destruct (fi_link _ _ Hi c t Hc E) as (Hh & _). by eapply unqueued_nowhere; [exact (fi_dom _ _ Hi)|].
Qed.

Lemma nowhere w t p : fdom w -> in_heap (tasks w t) = false -> ~ at_place w t p.
Proof. intros Hd Hh. by eapply unqueued_nowhere; [exact Hd|]. Qed.

Lemma queued_ok w t p : fdom w -> at_place w t p -> ok w t.
Proof.
  intros Hw. destruct p as [d|d o]; simpl.
  - intros Hin. pose proof (pq_wf_D _ _ _ (qo_ready_wf _ _ _ Hw d)) as HD. rewrite Forall_forall in HD. by apply HD.
  - intros (Ha & _ & Hin). pose proof (pq_wf_D _ _ _ (qo_rel_wf _ _ _ Hw o Ha)) as HD. rewrite Forall_forall in HD. by apply HD.
Qed.

(** ** Only links and the ready queue change *)

Record same_sched w w' : Prop := {
  ss_plugin : set_pstate (pstate (plugin w)) (plugin w') = plugin w;
  ss_state c : set_p_linked None (pstate (plugin w') c) = set_p_linked None (pstate (plugin w) c);
  ss_task x : set_linked_on 0 (core (tasks w' x)) = set_linked_on 0 (core (tasks w x));
  ss_wheel x p : p <> PReady PFAIR -> at_place w' x p <-> at_place w x p;
  ss_clock : clock w' = clock w;
  ss_elapse : elapse w' = elapse w;
  ss_cpu : this_cpu w' = this_cpu w;
  ss_curr : curr w' = curr w;
  ss_tick : tick_period w' = tick_period w
}.

#[export] Instance same_sched_preorder : PreOrder same_sched.
Proof.
  split; [intros w; split; try done; by destruct (plugin w)|].
  intros w1 w2 w3 [P1 S1 T1 W1 ? ? ? ? ?] [P2 S2 T2 W2 ? ? ? ? ?]. split; try congruence.
  - rewrite <- P1, <- P2. by destruct (plugin w3).
  - intros x p Hp. by rewrite W2, W1.
Qed.

Lemma ss_field {A} (f : fstate -> A) w w' :
  same_sched w w' -> (forall g s, f (set_pstate s g) = f g) -> f (plugin w') = f (plugin w).
Proof. intros S Hf. by rewrite <- (ss_plugin _ _ S), Hf. Qed.

Lemma ss_params w w' : same_sched w w' -> pars w' = pars w.
Proof. intros S. by apply (ss_field params). Qed.
Lemma ss_merge w w' : same_sched w w' -> merge_time (plugin w') = merge_time (plugin w).
Proof. intros S. by apply (ss_field merge_time). Qed.
Lemma ss_online w w' c : same_sched w w' -> cpu_ok (plugin w') c = cpu_ok (plugin w) c.
Proof. intros S. by apply (ss_field (fun g => cpu_ok g c)). Qed.
Lemma ss_rel w w' t : same_sched w w' -> rel w' t = rel w t.
Proof. intros S. unfold rel. by rewrite (ss_params _ _ S). Qed.

Lemma ss_get {A} (f : task_struct -> A) w w' x :
  same_sched w w' -> (forall y, f (set_linked_on 0 (core y)) = f y) -> f (tasks w' x) = f (tasks w x).
Proof. intros S Hf. by rewrite <- (Hf (tasks w' x)), (ss_task _ _ S), Hf. Qed.

Lemma ss_ok w w' t : same_sched w w' -> ok w t -> ok w' t.
Proof. intros S [Hr Hp]. split; [by rewrite (ss_get is_realtime w w')|by rewrite (ss_params _ _ S)]. Qed.

Lemma ss_beats w w' a b : same_sched w w' -> beats w' a b = beats w a b.
Proof.
  intros S. unfold pfair_ready_order, pfair_higher_prio.
  by rewrite (ss_params _ _ S), (ss_get is_realtime w w'), !(ss_get pid w w').
Qed.

Lemma ss_pids w w' : same_sched w w' -> pids_unique (tasks w) -> pids_unique (tasks w').
Proof. intros S Hu a b. rewrite !(ss_get pid w w') by done. apply Hu. Qed.

(** The part of the invariant about the queues *)
Record qinv w : Prop := {
  qi_dom : fdom w;
  qi_pids : pids_unique (tasks w);
  qi_queue t p : at_place w t p ->
    p = PReady PFAIR /\ rel w t <= merge_time (plugin w) \/
    p = PReady (relq (rel w t)) /\ merge_time (plugin w) < rel w t <= merge_time (plugin w) + PFAIR_MAX_PERIOD
}.

Lemma finv_qinv time w : finv_at time w -> qinv w.
Proof. by intros []. Qed.

(** [w'] has the links [L], the fields [linked_on] are [N], and the tasks [B] are
    ready as well. *)
Record relinked (L : Z -> option tid) (N : tid -> Z) (B : tid -> Prop) w w' : Prop := {
  rl_qinv : qinv w';
  rl_same : same_sched w w';
  rl_lk c : lk w' c = L c;
  rl_on x : linked_on (tasks w' x) = N x;
  rl_ready x : at_place w' x (PReady PFAIR) <-> at_place w x (PReady PFAIR) \/ B x
}.

Definition link_to c (o : option tid) w : world :=
  set_plugin (set_pstate (upd (pstate (plugin w)) c (set_p_linked o (pstate (plugin w) c))) (plugin w)) w.
Definition linked_to t c w : world := set_tasks (upd (tasks w) t (set_linked_on c (tasks w t))) w.

Lemma qinv_same w w' :
  qinv w -> same_sched w w' -> doms w' = doms w -> rheaps w' = rheaps w -> (forall x, in_heap (tasks w' x) = in_heap (tasks w x)) -> qinv w'.
Proof.
  intros [Hd Hp Hq] S Ed Er Hh.
  assert (forall x p, at_place w' x p <-> at_place w x p) as Ha.
  { intros x [d|d h]; simpl; unfold ready_elems, active, rel_elems; by rewrite ?Ed, ?Er. }
  split.
  - unfold fdom. eapply (dom_ok_reorder _ _ _ _ w); [exact Hd|done|done|apply S|done|..].
    + intros x d h _. by apply (ss_get get_release).
    + intros x p _. by apply ss_ok.
    + intros a b p q _ _. by apply ss_beats.
  - by eapply ss_pids.
  - intros t p. rewrite Ha, (ss_rel _ _ _ S), (ss_merge _ _ S). apply Hq.
Qed.

Lemma get_pstate_spec c w (Φ : pfair_state -> world -> Prop) : cpu w c -> Φ (pstate (plugin w) c) w -> wp (get_pstate c) Φ w.
Proof. intros Hc HΦ. unfold get_pstate. wp_steps. rewrite Hc. by wp_steps. Qed.

Lemma link_to_spec c o w (Φ : unit -> world -> Prop) :
  cpu w c -> Φ tt (link_to c o w) -> wp (upd_pstate c (set_p_linked o)) Φ w.
Proof. intros Hc HΦ. unfold upd_pstate, get_pstate, upd_state. wp_steps. rewrite Hc. by wp_steps. Qed.

Lemma link_to_same c o w : same_sched w (link_to c o w).
Proof.
  split; try done; [by destruct w as [? ? ? ? ? ? ? ? ? ? []]|]. intros c'. simpl. unfold upd. by case_decide; subst.
Qed.

Lemma linked_to_same t c w : same_sched w (linked_to t c w).
Proof. split; try done; [simpl; by destruct (plugin w)|]. intros x. simpl. unfold upd. by case_decide; subst. Qed.

Lemma link_to_qinv c o w : qinv w -> qinv (link_to c o w).
Proof. intros Hi. apply (qinv_same w); try done. apply link_to_same. Qed.
Lemma linked_to_qinv t c w : qinv w -> qinv (linked_to t c w).
Proof. intros Hi. apply (qinv_same w); try done; [apply linked_to_same|]. intros x. simpl. unfold upd. by case_decide; subst. Qed.

Lemma relinked_link L N B c o w w' : relinked L N B w w' -> relinked (upd L c o) N B w (link_to c o w').
Proof.
  intros [Hi S Hl Hn Hr]. split; [by apply link_to_qinv|etransitivity; [exact S|apply link_to_same]| |done|done].
  intros c'. unfold lk. simpl. unfold upd. case_decide; subst; [done|apply Hl].
Qed.

Lemma relinked_on L N B t c w w' : relinked L N B w w' -> relinked L (upd N t c) B w (linked_to t c w').
Proof.
  intros [Hi S Hl Hn Hr]. split; [by apply linked_to_qinv|etransitivity; [exact S|apply linked_to_same]|done| |done].
  intros x. simpl. unfold upd. case_decide; subst; [done|apply Hn].
Qed.

(** ** The ready queue *)

Lemma moved_same t (p : option place) w w' :
  moved t p w w' -> p = None \/ p = Some (PReady PFAIR) -> (forall q, q <> PReady PFAIR -> ~ at_place w t q) -> same_sched w w'.
Proof.
  intros [E A] Hp Hno. split; try apply E.
  - rewrite (se_plugin _ _ E). by destruct (plugin w).
  - intros c. by rewrite (se_plugin _ _ E).
  - intros x. by rewrite (se_core _ _ E).
  - intros x q Hq. rewrite A. case_decide as Ex; [subst x|done]. split; [|intros Hat; by destruct (Hno q Hq)].
    intros ->. destruct Hp as [|[= ->]]; congruence.
Qed.

Lemma moved_linked_on t p w w' x : moved t p w w' -> linked_on (tasks w' x) = linked_on (tasks w x).
Proof. intros M. exact (core_field linked_on _ _ (fun _ => eq_refl) (se_core _ _ (mv_env _ _ _ _ M) x)). Qed.

Lemma moved_fdom t p w w' :
  moved t p w w' -> dom_ok (pfair_ready_order (pars w)) (pfair_ok (pars w)) w' -> fdom w'.
Proof. intros M. unfold fdom. by rewrite (se_plugin _ _ (mv_env _ _ _ _ M)). Qed.

Lemma pf_dummy_calm (f : tid -> option pfair_param) : calm (Q:=Q) (P:=fstate) (pfair_ready_order f) (pfair_ok f) dummy_resched.
Proof. intros d w _ Hw. unfold dummy_resched. wp_steps. by split. Qed.

Lemma add_ready_f t w (Φ : unit -> world -> Prop) :
  fdom w -> in_heap (tasks w t) = false -> ok w t ->
  (forall w', moved t (Some (PReady PFAIR)) w w' -> fdom w' -> Φ tt w') -> wp (pf_add_ready t) Φ w.
Proof.
  intros Hd Hh Hok HΦ. unfold pf_add_ready. wp_steps. eapply wp_mono.
  - exact (add_ready_spec _ _ (pfair_order_core _) (pfair_ok_core _) _ (pf_dummy_calm _) PFAIR t w (pfair_swo _ _) Hd Hh Hok).
  - intros [] w' [M Hd']. apply HΦ; [done|by eapply moved_fdom].
Qed.

Lemma peek_ready_f w (Φ : option tid -> world -> Prop) :
  fdom w -> (forall hn w', quiet w w' -> fdom w' -> tasks w' = tasks w ->
    match hn with
    | None => ready_elems w PFAIR = []
    | Some t => t ∈ ready_elems w PFAIR /\ Forall (fun e => beats w e t = false) (ready_elems w PFAIR)
    end -> Φ hn w') -> wp pf_peek_ready Φ w.
Proof.
  intros Hd HΦ. unfold pf_peek_ready. wp_steps. eapply wp_mono.
  - exact (next_ready_spec _ _ PFAIR w (pfair_swo _ _) Hd).
  - intros hn w' (Hq & Hd' & Et & Hh). apply HΦ; [done| |done|done].
    unfold fdom. by rewrite (se_plugin _ _ (qt_env _ _ Hq)).
Qed.

Lemma take_ready_f w (Φ : option tid -> world -> Prop) :
  fdom w -> (forall hn w', fdom w' ->
    match hn with
    | None => ready_elems w PFAIR = [] /\ quiet w w'
    | Some t => t ∈ ready_elems w PFAIR /\ moved t None w w' /\ Forall (fun e => beats w e t = false) (ready_elems w PFAIR)
    end -> Φ hn w') -> wp pf_take_ready Φ w.
Proof.
  intros Hd HΦ. unfold pf_take_ready. wp_steps. eapply wp_mono.
  - exact (take_ready_spec _ _ (pfair_order_core _) (pfair_ok_core _) PFAIR w (pfair_swo _ _) Hd).
  - intros hn w' (Hd' & Hh). apply HΦ; [|done]. destruct hn as [t|].
    + destruct Hh as (_ & M & _). by eapply moved_fdom.
    + destruct Hh as (_ & Hq). unfold fdom. by rewrite (se_plugin _ _ (qt_env _ _ Hq)).
Qed.

Lemma qinv_moved t p w w' : qinv w -> same_sched w w' -> fdom w' ->
  (forall x q, at_place w' x q -> at_place w x q \/ x = t /\ q = PReady PFAIR /\ rel w t <= merge_time (plugin w)) ->
  moved t p w w' -> qinv w'.
Proof.
  intros [Hd Hp Hq] S Hd' Hat M. split; [done|by eapply ss_pids|].
  intros x q Hx. rewrite (ss_rel _ _ _ S), (ss_merge _ _ S). destruct (Hat x q Hx) as [Hx0|(-> & -> & Hr)]; [by apply Hq|by left].
Qed.

Lemma push_back_spec L N B o w0 w (Φ : unit -> world -> Prop) :
  relinked L N B w0 w -> in_heap (tasks w o) = false -> ok w o -> rel w o <= merge_time (plugin w) ->
  (forall w', relinked L (upd N o NO_CPU) (fun x => B x \/ x = o) w0 w' -> Φ tt w') -> wp (push_back (Some o)) Φ w.
Proof.
  intros R Hh Hok Hr HΦ. unfold push_back, upd_task. wp_steps. pose proof (relinked_on L N B o NO_CPU w0 w R) as R1.
  fold (linked_to o NO_CPU w). set (w1 := linked_to o NO_CPU w) in *. pose proof (linked_to_same o NO_CPU w) as S1. fold w1 in S1.
  assert (in_heap (tasks w1 o) = false) as Hh1 by (simpl; by rewrite upd_eq).
  destruct R1 as [Hi1 S01 Hl1 Hn1 Hr1]. apply add_ready_f; [apply Hi1|done|by eapply ss_ok|].
  intros w2 M Hd2.
  assert (same_sched w1 w2) as S2.
  { eapply moved_same; [exact M|by right|]. intros q _. by apply nowhere; [apply Hi1|]. }
  apply HΦ. split.
  - eapply (qinv_moved o); [exact Hi1|done|done| |exact M]. intros x q Hx. apply (mv_at _ _ _ _ M) in Hx. case_decide as E; [|by left].
    right. subst x. injection Hx as <-. by rewrite (ss_rel _ _ _ S1), (ss_merge _ _ S1).
  - by transitivity w1.
  - intros c. unfold lk. rewrite (se_plugin _ _ (mv_env _ _ _ _ M)). apply Hl1.
  - intros x. rewrite (moved_linked_on _ _ _ _ _ M). apply Hn1.
  - intros x. rewrite (mv_at _ _ _ _ M). case_decide as E; [subst x; split; [auto|done]|]. rewrite Hr1. naive_solver.
Qed.
End Inv.
