(* ===== verification/PfairLink.v ===== *)
(** * PD^2: linking the tasks with the highest priorities

    [schedule_subtasks] goes through the processors; for each it links the best
    ready task if that beats the task linked there.  A task prefers the processor
    it is still scheduled on, so that linking may be redirected and repeated.
    The loop ends, and in the end no ready task beats a linked one. *)

From S2P Require Import Prelude Task Edf PrioQueue Kernel RtDomain RtInv EdfDomain Pfair PfairSub PfairInv.
Open Scope Z_scope.

(** What linking [t] on behalf of processor [c] does when it prefers [tgt]:
    whether to consider [c] again, the new links, and the task that is pushed
    back. *)
Definition link_result (c tgt : Z) (t : tid) (L : Z -> option tid) : bool * (Z -> option tid) * option tid :=
  if decide (tgt = c) then (false, upd L c (Some t), L c)
  else
    match L tgt with
    | None => (true, upd L tgt (Some t), None)
    | Some o =>
        if decide (tgt < c) then (false, upd (upd L tgt (Some t)) c (Some o), L c)
        else (true, upd L tgt (Some t), Some o)
    end.

Section Link.
Context {Q : Type -> Type} `{PrioQueueLaws Q}.
Abbreviation world := (world Q fstate).
Abbreviation K := (M world).
Implicit Types (w : world) (t : tid) (c d : Z).
Abbreviation pars w := (params (plugin w)).
Abbreviation ok w t := (pfair_ok (pars w) (tasks w) t).
Abbreviation beats w := (pfair_ready_order (pars w) (tasks w)).
Abbreviation cpu w c := (cpu_ok (plugin w) c = true).
Abbreviation prm w t := (param_of (pars w) t).
Abbreviation sched_on w t := (scheduled_on (tasks w t)).
Definition ready w t : Prop := at_place w t (PReady PFAIR).

(** The processor [t] is linked to *)
Definition aims (time : Z) w t c tgt : Prop :=
  tgt = c \/ (sched_on w t <> NO_CPU /\ tgt = sched_on w t) \/
  (sched_on w t = NO_CPU /\ last_quantum (prm w t) = u64 (time - 1) /\ tgt = last_cpu (prm w t) /\
   forall l, lk w tgt = Some l -> sched_on w l <> tgt).

(** The processors tasks want to stay on are different. *)
Record homes (D : tid -> Prop) (time : Z) w : Prop := {
  ho_cpu t : D t -> sched_on w t = NO_CPU \/ cpu w (sched_on w t);
  ho_sched t t' : D t -> D t' -> sched_on w t = sched_on w t' -> sched_on w t <> NO_CPU -> t = t';
  ho_last_cpu t : D t -> last_quantum (prm w t) = u64 (time - 1) -> cpu w (last_cpu (prm w t));
  ho_last t t' : D t -> D t' -> last_quantum (prm w t) = u64 (time - 1) -> last_quantum (prm w t') = u64 (time - 1) ->
    last_cpu (prm w t) = last_cpu (prm w t') -> t = t'
}.

Lemma homes_same D time w w' : same_sched w w' -> homes D time w -> homes D time w'.
Proof.
  intros S [H1 H2 H3 H4]. pose proof (fun x => ss_get scheduled_on w w' x S (fun _ => eq_refl)) as Es.
  split; intros *; rewrite ?Es, ?(ss_params _ _ S), ?(ss_online _ _ _ S); auto.
Qed.

Lemma target_spec D time t c w (Φ : Z -> world -> Prop) :
  ok w t -> D t -> homes D time w -> cpu w c -> (forall tgt, cpu w tgt -> aims time w t c tgt -> Φ tgt w) -> wp (target_cpu time t c) Φ w.
Proof.
  intros (_ & p & Hp & Hg) HD Ho Hc HΦ. unfold target_cpu, get_task, tsk_pfair, get_pstate.
  assert (prm w t = p) as Ep by (unfold param_of; by rewrite Hp). wp_steps. destruct (Z.eqb_spec (sched_on w t) NO_CPU) as [E|E]; simpl; wp_steps.
  - exists p. split; [done|]. wp_steps. destruct (Z.eqb_spec (last_quantum p) (u64 (time - 1))) as [El|El]; wp_steps; [|apply HΦ; [done|by left]].
    assert (cpu w (last_cpu p)) as Hl by (rewrite <- Ep; eapply ho_last_cpu; [exact Ho|done|by rewrite Ep]). rewrite Hl. wp_steps.
    destruct (p_linked (pstate (plugin w) (last_cpu p))) as [l|] eqn:Ek; wp_steps.
    + destruct (Z.eqb_spec (sched_on w l) (last_cpu p)) as [Es|Es]; [apply HΦ; [done|by left]|].
      apply HΦ; [done|]. right. right. rewrite Ep. split_and!; try done. intros l' El'. unfold lk in El'. congruence.
    + apply HΦ; [done|]. right. right. rewrite Ep. split_and!; try done. intros l' El'. unfold lk in El'. congruence.
  - apply HΦ; [|right; by left]. by destruct (ho_cpu _ _ _ Ho t HD).
Qed.

Lemma relinked_refl w : qinv w -> relinked (lk w) (fun x => linked_on (tasks w x)) (fun _ => False) w w.
Proof. intros Hi. split; try done. intros x. split; [auto|by intros [|]]. Qed.

Lemma relinked_finv L N B w w' :
  finv w -> relinked L N B w w' ->
  (forall c x, cpu w c -> L c = Some x -> N x = c /\ ok w x /\ rel w x <= merge_time (plugin w) /\ in_heap (tasks w x) = false /\ ~ B x) ->
  finv w'.
Proof.
  intros Hi [Hq S Hl Hn Hr] HL. pose proof (finv_qinv _ _ Hi) as Hq0. unfold finv. rewrite (ss_merge _ _ S). split.
  - apply (qi_dom _ Hq).
  - apply (qi_pids _ Hq).
  - apply (qi_queue _ Hq).
  - intros c x. rewrite (ss_online _ _ _ S), Hl. intros Hc Ex. destruct (HL c x Hc Ex) as (En & Hok & Hrel & Hh & HB).
    split_and!; [|by eapply ss_ok|by rewrite Hn|by rewrite (ss_rel _ _ _ S)].
    destruct (in_heap (tasks w' x)) eqn:Eh; [|done]. apply (qo_heap _ _ _ (qi_dom _ Hq)) in Eh as [p Hp]. exfalso.
    assert (forall q, ~ at_place w x q) as Hno by (intros q; apply nowhere; [apply Hq0|done]).
    destruct (decide (p = PReady PFAIR)) as [->|Hne]; [|apply (ss_wheel _ _ S) in Hp; [by eapply Hno|done]].
    apply Hr in Hp as [Hp|Hp]; [by eapply Hno|done].
  - rewrite (ss_merge _ _ S). apply (fi_merge _ _ Hi).
Qed.

(** A task that has just been taken from the ready queue *)
Record spare w t : Prop := {
  sp_heap : in_heap (tasks w t) = false;
  sp_ok : ok w t;
  sp_rel : rel w t <= merge_time (plugin w);
  sp_lk c : cpu w c -> lk w c <> Some t
}.

(** What linking did *)
Definition linking (time : Z) c t w (r : bool) w' : Prop :=
  exists tgt, cpu w tgt /\ aims time w t c tgt /\
    let '(r', L', b) := link_result c tgt t (lk w) in
    r = r' /\ finv w' /\ same_sched w w' /\ (forall c', lk w' c' = L' c') /\ forall x, ready w' x <-> ready w x \/ b = Some x.

Lemma push_back_opt L N B (o : option tid) w0 w (Φ : unit -> world -> Prop) :
  relinked L N B w0 w ->
  (forall x, o = Some x -> in_heap (tasks w x) = false /\ ok w x /\ rel w x <= merge_time (plugin w)) ->
  (forall w', relinked L (fun x => if decide (o = Some x) then NO_CPU else N x) (fun x => B x \/ o = Some x) w0 w' -> Φ tt w') ->
  wp (push_back o) Φ w.
Proof.
  intros R Ho HΦ. destruct o as [x|].
  - destruct (Ho x eq_refl) as (Hh & Hok & Hr). eapply push_back_spec; [exact R|done..|]. intros w' [Hi S Hl Hn Hrd]. apply HΦ. split; try done.
    + intros y. rewrite Hn. unfold upd. destruct (decide (y = x)) as [->|]; [by rewrite decide_True|by rewrite decide_False by congruence].
    + intros y. rewrite Hrd. naive_solver.
  - simpl. wp_steps. apply HΦ. destruct R as [Hi S Hl Hn Hrd]. split; try done.
    intros y. rewrite Hrd. naive_solver.
Qed.

Lemma linked_to_heap t c w x : in_heap (tasks (linked_to t c w) x) = in_heap (tasks w x).
Proof. simpl. unfold upd. by case_decide; subst. Qed.

(** What holds of a linked task still holds after links have changed. *)
Lemma relinked_pushable L N B w w' c x :
  finv w -> relinked L N B w w' -> (forall y, in_heap (tasks w' y) = in_heap (tasks w y)) -> cpu w c -> lk w c = Some x ->
  in_heap (tasks w' x) = false /\ ok w' x /\ rel w' x <= merge_time (plugin w').
Proof.
  intros Hi [_ S _ _ _] Eh Hc Ex. destruct (fi_link _ _ Hi c x Hc Ex) as (Hh & Hok & _ & Hr).
  split_and!; [by rewrite Eh|by eapply ss_ok|by rewrite (ss_rel _ _ _ S), (ss_merge _ _ S)].
Qed.

(** [t] gets the place of the task that is linked to [c]. *)
Lemma pf_link_here time c t w :
  finv w -> spare w t -> cpu w c ->
  wp (upd_pstate c (set_p_linked (Some t));; upd_task t (set_linked_on c);; push_back (lk w c);; mret false) (linking time c t w) w.
Proof.
  intros Hi Hs Hc. pose proof (relinked_refl w (finv_qinv _ _ Hi)) as R0. wp_steps. apply link_to_spec; [done|]. unfold upd_task. wp_steps.
  apply (relinked_link _ _ _ c (Some t)) in R0. apply (relinked_on _ _ _ t c) in R0.
  fold (linked_to t c (link_to c (Some t) w)). set (w1 := linked_to t c (link_to c (Some t) w)) in *.
  assert (forall y, in_heap (tasks w1 y) = in_heap (tasks w y)) as Eh by (intros y; apply (linked_to_heap t c (link_to c (Some t) w))).
  eapply push_back_opt; [exact R0|intros x Ex; by eapply relinked_pushable|]. intros w' R. wp_steps.
  exists c. split_and!; [done|by left|]. unfold link_result. rewrite decide_True by done. split_and!; [done| |apply R|apply R|].
  - eapply relinked_finv; [exact Hi|exact R|]. intros c' x Hc' Ex. unfold upd in Ex |- *. case_decide as E.
    + subst c'. injection Ex as <-. rewrite decide_False by (by apply (sp_lk _ _ Hs)). rewrite decide_True by done.
      destruct Hs as [Hh Hok Hr Hl]. split_and!; try done. intros [[]|Hx]. by apply (Hl c).
    + destruct (fi_link _ _ Hi c' x Hc' Ex) as (Hh & Hok & Hon & Hr).
      assert (lk w c <> Some x) as Hne by (intros E'; apply E; by eapply pf_linked_once).
      rewrite decide_False by done. rewrite decide_False by (intros ->; by eapply (sp_lk _ _ Hs)). split_and!; try done. naive_solver.
  - intros x. unfold ready. rewrite (rl_ready _ _ _ _ _ R). naive_solver.
Qed.

(** The links when [t] is linked to [tgt] instead: each linked task is where its
    [linked_on] says, except that the task that was there has lost its place. *)
Lemma away_links c tgt t w x c' :
  finv w -> spare w t -> tgt <> c -> cpu w c' -> upd (lk w) tgt (Some t) c' = Some x ->
  upd (fun y => linked_on (tasks w y)) t tgt x = c' /\ ok w x /\ rel w x <= merge_time (plugin w) /\ in_heap (tasks w x) = false /\
  (cpu w tgt -> lk w tgt <> Some x).
Proof.
  intros Hi Hs Hne Hc' Ex. unfold upd in Ex |- *. case_decide as E.
  - subst c'. injection Ex as <-. rewrite decide_True by done. destruct Hs as [Hh Hok Hr Hl]. split_and!; auto.
  - destruct (fi_link _ _ Hi c' x Hc' Ex) as (Hh & Hok & Hon & Hr).
    rewrite decide_False by (intros ->; by eapply (sp_lk _ _ Hs)). split_and!; try done. intros Ht Ex'. apply E. by eapply pf_linked_once.
Qed.

(** Nobody was linked there, or the task that was is considered again. *)
Lemma link_retry time c tgt t w w1 :
  finv w -> spare w t -> tgt <> c -> cpu w tgt -> aims time w t c tgt -> c < tgt \/ lk w tgt = None ->
  relinked (upd (lk w) tgt (Some t)) (upd (fun y => linked_on (tasks w y)) t tgt) (fun _ => False) w w1 ->
  (forall y, in_heap (tasks w1 y) = in_heap (tasks w y)) ->
  wp (push_back (lk w tgt);; mret true) (linking time c t w) w1.
Proof.
  intros Hi Hs Hne Ht Ha Hlt R0 Eh. wp_steps. eapply push_back_opt; [exact R0|intros x Ex; by eapply relinked_pushable|].
  intros w' R. wp_steps. exists tgt. split_and!; [done|done|]. unfold link_result. rewrite decide_False by done.
  assert (finv w') as Hi'.
  { eapply relinked_finv; [exact Hi|exact R|]. intros c' x Hc' Ex.
    destruct (away_links c tgt t w x c' Hi Hs Hne Hc' Ex) as (En & Hok & Hr & Hh & Hn).
    rewrite decide_False by auto. split_and!; try done. naive_solver. }
  assert (forall x, ready w' x <-> ready w x \/ lk w tgt = Some x) as Hrd.
  { intros x. unfold ready. rewrite (rl_ready _ _ _ _ _ R). naive_solver. }
  destruct (lk w tgt) as [o|] eqn:Eo.
  - rewrite decide_False by (destruct Hlt; [lia|done]). split_and!; [done|done|apply R|apply R|done].
  - split_and!; [done|done|apply R|apply R|done].
Qed.

(** The task that was linked there is linked to [c] instead. *)
Lemma link_swap time c tgt t o w w1 :
  finv w -> spare w t -> tgt < c -> cpu w tgt -> cpu w c -> aims time w t c tgt -> lk w tgt = Some o ->
  relinked (upd (lk w) tgt (Some t)) (upd (fun y => linked_on (tasks w y)) t tgt) (fun _ => False) w w1 ->
  (forall y, in_heap (tasks w1 y) = in_heap (tasks w y)) ->
  wp (upd_task o (set_linked_on c);; upd_pstate c (set_p_linked (Some o));; push_back (lk w c);; mret false) (linking time c t w) w1.
Proof.
  intros Hi Hs Hlt Ht Hc Ha Eo R0 Eh. wp_steps. unfold upd_task. wp_steps. fold (linked_to o c w1).
  apply (relinked_on _ _ _ o c) in R0. apply link_to_spec; [by rewrite (ss_online _ _ _ (rl_same _ _ _ _ _ R0))|].
  apply (relinked_link _ _ _ c (Some o)) in R0. set (w2 := link_to c (Some o) (linked_to o c w1)) in *.
  assert (forall y, in_heap (tasks w2 y) = in_heap (tasks w y)) as Eh2.
  { intros y. rewrite <- Eh. exact (linked_to_heap o c w1 y). }
  wp_steps. eapply push_back_opt; [exact R0|intros x Ex; by eapply relinked_pushable|]. intros w' R. wp_steps.
  exists tgt. split_and!; [done|done|]. unfold link_result. rewrite decide_False by lia. rewrite Eo, decide_True by done.
  split_and!; [done| |apply R|apply R|].
  - eapply relinked_finv; [exact Hi|exact R|]. intros c' x Hc' Ex. unfold upd at 1 in Ex.
    destruct (fi_link _ _ Hi tgt o Ht Eo) as (Hho & Hoko & Hono & Hro). case_decide as E.
    + subst c'. injection Ex as <-. assert (lk w c <> Some o) as Hco by (intros E'; assert (tgt = c) by (by eapply pf_linked_once); lia).
      rewrite decide_False by done. rewrite upd_eq. split_and!; try done. naive_solver.
    + destruct (away_links c tgt t w x c' Hi Hs ltac:(lia) Hc' Ex) as (En & Hok & Hr & Hh & Hn). specialize (Hn Ht).
      assert (lk w c <> Some x) as Hcx.
      { intros E'. unfold upd in Ex. case_decide as Et; [injection Ex as <-; by apply (sp_lk _ _ Hs c)|]. apply E. by eapply pf_linked_once. }
      rewrite decide_False by done. rewrite upd_ne by congruence. split_and!; try done. naive_solver.
  - intros x. unfold ready. rewrite (rl_ready _ _ _ _ _ R). naive_solver.
Qed.

Lemma pf_link_spec D time c t w :
  finv w -> spare w t -> D t -> homes D time w -> cpu w c -> wp (pfair_link time c t) (linking time c t w) w.
Proof.
  intros Hi Hs HD Ho Hc. unfold pfair_link. wp_steps. eapply target_spec; [apply Hs|done|done|done|]. intros tgt Ht Ha.
  wp_steps. apply get_pstate_spec; [done|]. fold (lk w c). destruct (Z.eqb_spec tgt c) as [->|Hne]; simpl.
  - by apply pf_link_here.
  - wp_steps. apply get_pstate_spec; [done|]. fold (lk w tgt). wp_steps. apply link_to_spec; [done|]. unfold upd_task at 1. wp_steps.
    fold (linked_to t tgt (link_to tgt (Some t) w)). set (w1 := linked_to t tgt (link_to tgt (Some t) w)).
    pose proof (relinked_on _ _ _ t tgt _ _ (relinked_link _ _ _ tgt (Some t) _ _ (relinked_refl w (finv_qinv _ _ Hi)))) as R0. fold w1 in R0.
    assert (forall y, in_heap (tasks w1 y) = in_heap (tasks w y)) as Eh by (intros y; apply (linked_to_heap t tgt (link_to tgt (Some t) w))).
    destruct (lk w tgt) as [o|] eqn:Eo.
    + destruct (Z.ltb_spec tgt c); [by apply (link_swap time c tgt)|]. assert (c < tgt) as Hlt by lia.
      pose proof (link_retry time c tgt t w w1 Hi Hs Hne Ht Ha (or_introl Hlt) R0 Eh) as J. rewrite Eo in J. exact J.
    + pose proof (link_retry time c tgt t w w1 Hi Hs Hne Ht Ha (or_intror Eo) R0 Eh) as J. rewrite Eo in J. exact J.
Qed.
End Link.
