(* ===== verification/PfairTop.v ===== *)
(** * PD^2: the tasks with the highest priorities are linked

    The order of priorities through the rounds of [schedule_cpu], first on the
    links and the set of ready tasks alone, and why the rounds end. *)

From S2P Require Import Prelude Task Edf PrioQueue Kernel RtDomain RtInv EdfDomain Pfair PfairSub PfairInv PfairLink.
Open Scope Z_scope.

Section Order.
Variables (lt : tid -> tid -> bool) (Dm : tid -> Prop) (C : Z -> Prop).
Hypothesis Hswo : swo_on Dm lt.
Hypothesis Htotal : forall a b, Dm a -> Dm b -> a <> b -> lt a b = false -> lt b a = true.

Definition over (x : tid) (o : option tid) : bool := match o with None => true | Some y => lt x y end.

(** The processors before [c] have been considered: no ready task beats what is
    linked there. *)
Definition settled (L : Z -> option tid) (R : tid -> Prop) (c : Z) : Prop :=
  forall c', C c' -> c' < c -> forall x, R x -> over x (L c') = false.

(** In between, one task may do so, and the tasks linked before [c] beat the one
    linked to [c]. *)
Definition unsettled (L : Z -> option tid) (R : tid -> Prop) (c : Z) : Prop :=
  (exists e, forall c', C c' -> c' < c -> forall x, R x -> x <> e -> over x (L c') = false) /\
  forall c', C c' -> c' < c -> exists l, L c' = Some l /\ forall p, L c = Some p -> lt l p = true.

Record proper (L : Z -> option tid) (R : tid -> Prop) : Prop := {
  pr_ready x : R x -> Dm x;
  pr_linked c x : C c -> L c = Some x -> Dm x;
  pr_apart c x : C c -> L c = Some x -> ~ R x
}.

Lemma proper_total L R c x y : proper L R -> C c -> R x -> L c = Some y -> lt x y = false -> lt y x = true.
Proof.
  intros HP Hc HR Ey. apply Htotal; [by eapply pr_ready|by eapply pr_linked|]. intros ->. by eapply pr_apart.
Qed.

Section Round.
Variables (L : Z -> option tid) (R : tid -> Prop) (c : Z).
Hypothesis HP : proper L R.
Hypothesis Hc : C c.
Hypothesis Hst : settled L R c \/ unsettled L R c.

(** No more rounds. *)
Lemma round_none : (forall x, R x -> over x (L c) = false) -> settled L R (c + 1).
Proof.
  intros Hx c' Hc' Hlt x HR. destruct (decide (c' = c)) as [->|Hne]; [by apply Hx|].
  destruct Hst as [HA|[_ HB]]; [apply HA; [done|lia|done]|]. destruct (HB c' Hc' ltac:(lia)) as (l & El & Hl).
  specialize (Hx x HR). rewrite El. simpl. destruct (L c) as [p|] eqn:Ep; [|done]. simpl in Hx. specialize (Hl p eq_refl).
  destruct (lt x l) eqn:E; [|done]. rewrite <- Hx. symmetry.
  eapply (swo_trans _ _ Hswo x l p); try done; [by eapply pr_ready|by eapply (pr_linked _ _ HP c')|by eapply (pr_linked _ _ HP c)].
Qed.

Variable t : tid.
Hypothesis Ht : R t.
Hypothesis Hbest : forall x, R x -> lt x t = false.
Hypothesis Hover : over t (L c) = true.

(** The best task has been taken. *)
Lemma round_taken :
  (forall c', C c' -> c' < c -> forall x, R x -> x <> t -> over x (L c') = false) /\
  (forall c', C c' -> c' < c -> exists l, L c' = Some l /\ forall p, L c = Some p -> lt l p = true).
Proof.
  assert (forall c', C c' -> c' < c -> forall l, L c' = Some l -> lt t l = false -> forall x, R x -> lt x l = false) as Hneg.
  { intros c' Hc' Hlt l El Htl x HR. eapply (swo_neg_trans _ _ Hswo x t l); auto; [by eapply pr_ready|by eapply pr_ready|by eapply (pr_linked _ _ HP c')]. }
  destruct Hst as [HA|[[e HE] HB]].
  - split; [intros c' Hc' Hlt x HR _; by apply HA|]. intros c' Hc' Hlt. pose proof (HA c' Hc' Hlt t Ht) as Ho.
    destruct (L c') as [l|] eqn:El; [|done]. exists l. split; [done|]. intros p Ep. rewrite Ep in Hover. simpl in Ho, Hover.
    assert (Dm t) by (by eapply pr_ready). assert (Dm l) by (by eapply (pr_linked _ _ HP c')). assert (Dm p) by (by eapply (pr_linked _ _ HP c)).
    eapply (swo_trans _ _ Hswo l t p); try done. by eapply (proper_total L R c').
  - split; [|done]. intros c' Hc' Hlt x HR Hne. destruct (decide (x = e)) as [->|Hxe]; [|by apply HE].
    destruct (HB c' Hc' Hlt) as (l & El & _). rewrite El. simpl. eapply Hneg; [exact Hc'|done..| |done].
    specialize (HE c' Hc' Hlt t Ht ltac:(congruence)). by rewrite El in HE.
Qed.

Let R' (b : option tid) (x : tid) : Prop := R x /\ x <> t \/ b = Some x.

(** [c] is considered again. *)
Lemma round_again tgt o L' : C tgt -> link_result c tgt t L = (true, L', o) -> unsettled L' (R' o) c.
Proof.
  intros Htg E. destruct round_taken as [H1 H2]. unfold link_result in E. destruct (decide (tgt = c)) as [|Hne]; [done|].
  assert (c < tgt) as Hlt.
  { destruct (L tgt) as [l|] eqn:El; [destruct (decide (tgt < c)); [done|lia]|].
    destruct (Z.lt_trichotomy tgt c) as [Hl|[|]]; [|done|done]. destruct (H2 tgt Htg Hl) as (l & El' & _). congruence. }
  assert (L' = upd L tgt (Some t)) as ->.
  { destruct (L tgt); [destruct (decide (tgt < c)); [done|]|]; by injection E. }
  assert (forall c', c' <= c -> upd L tgt (Some t) c' = L c') as Eq by (intros; apply upd_ne; lia). split.
  - exists (default t o). intros c' Hc' Hl x [[HR Hx]|Eo] Hxe; [rewrite Eq by lia; by apply H1|by rewrite Eo in Hxe].
  - intros c' Hc' Hl. rewrite !Eq by lia. by apply H2.
Qed.

(** [c] is done. *)
Lemma round_done tgt o L' : C tgt -> link_result c tgt t L = (false, L', o) -> settled L' (R' o) (c + 1).
Proof.
  intros Htg E. destruct round_taken as [H1 H2].
  assert (Dm t) as Hdt by (by eapply pr_ready).
  assert (forall p, L c = Some p -> lt p t = false) as Hpt.
  { intros p Ep. rewrite Ep in Hover. simpl in Hover. apply (swo_asym Hswo t p); [done|by eapply (pr_linked _ _ HP c)|done]. }
  assert (forall c' p, C c' -> c' < c -> L c = Some p -> over p (L c') = false) as Hpl.
  { intros c' p Hc' Hl Ep. destruct (H2 c' Hc' Hl) as (l & El & Hlp). rewrite El. simpl.
    apply (swo_asym Hswo l p); [by eapply (pr_linked _ _ HP c')|by eapply (pr_linked _ _ HP c)|by apply Hlp]. }
  unfold link_result in E. destruct (decide (tgt = c)) as [->|Hne].
  - injection E as <- <-. intros c' Hc' Hl x HR. unfold upd. case_decide as Ec.
    + simpl. destruct HR as [[HR _]|HR]; auto.
    + destruct HR as [[HR Hx]|HR]; [apply H1; auto; lia|apply Hpl; auto; lia].
  - destruct (L tgt) as [l|] eqn:El; [|done]. destruct (decide (tgt < c)) as [Hlt|]; [|done]. injection E as <- <-.
    intros c' Hc' Hl x HR. unfold upd. case_decide as Ec; [|case_decide as Et].
    + change (over x (Some l) = false). rewrite <- El. destruct HR as [[HR Hx]|HR]; auto.
    + simpl. destruct HR as [[HR _]|HR]; auto.
    + destruct HR as [[HR Hx]|HR]; [apply H1; auto; lia|apply Hpl; auto; lia].
Qed.
End Round.
End Order.

(** Both depend only on the links, the ready tasks and the order of both. *)
Section Ext.
Variables (lt lt' : tid -> tid -> bool) (C C' : Z -> Prop) (L L' : Z -> option tid) (R R' : tid -> Prop).
Hypothesis Hlt : forall a b, lt' a b = lt a b.
Hypothesis HC : forall c, C' c <-> C c.
Hypothesis HL : forall c, L' c = L c.
Hypothesis HR : forall x, R' x <-> R x.

Lemma over_ext x o : over lt' x o = over lt x o.
Proof. destruct o; [apply Hlt|done]. Qed.

Lemma settled_ext c : settled lt C L R c -> settled lt' C' L' R' c.
Proof. intros HA c' Hc' Hl x Hx. rewrite over_ext, HL. apply HA; [by apply HC|done|by apply HR]. Qed.

Lemma unsettled_ext c : unsettled lt C L R c -> unsettled lt' C' L' R' c.
Proof.
  intros [[e HE] HB]. split.
  - exists e. intros c' Hc' Hl x Hx Hne. rewrite over_ext, HL. apply HE; [by apply HC|done|by apply HR|done].
  - intros c' Hc' Hl. rewrite !HL. destruct (HB c') as (l & El & Hp); [by apply HC|done|]. exists l. split; [done|].
    intros p Ep. rewrite Hlt. by apply Hp.
Qed.
End Ext.

(** Linking loses no task. *)
Lemma link_members (C : Z -> Prop) c tgt t L r L' b x :
  C c -> C tgt -> link_result c tgt t L = (r, L', b) ->
  (exists c', C c' /\ L' c' = Some x) \/ b = Some x <-> (exists c', C c' /\ L c' = Some x) \/ x = t.
Proof.
  intros Hc Ht E. unfold link_result in E. destruct (decide (tgt = c)) as [->|Hne]; [|destruct (L tgt) as [o|] eqn:Eo; [destruct (decide (tgt < c))|]];
    injection E as <- <- <-; unfold upd; split.
  - intros [(c' & Hc' & E)|E]; [case_decide|]; naive_solver.
  - intros [(c' & Hc' & E)| ->]; [|left; exists c; by rewrite decide_True].
    destruct (decide (c' = c)) as [->|]; [by right|]. left. exists c'. by rewrite decide_False.
  - intros [(c' & Hc' & E)|E]; [repeat case_decide|]; naive_solver.
  - intros [(c' & Hc' & E)| ->]; [|left; exists tgt; by rewrite decide_False, decide_True].
    destruct (decide (c' = c)) as [->|]; [by right|]. left. destruct (decide (c' = tgt)) as [->|].
    + exists c. rewrite decide_True by done. split; congruence.
    + exists c'. by rewrite !decide_False.
  - intros [(c' & Hc' & E)|E]; [repeat case_decide|]; naive_solver.
  - intros [(c' & Hc' & E)| ->]; [|left; exists tgt; by rewrite decide_True].
    destruct (decide (c' = tgt)) as [->|]; [right; congruence|]. left. exists c'. by rewrite decide_False.
  - intros [(c' & Hc' & E)|E]; [repeat case_decide|]; naive_solver.
  - intros [(c' & Hc' & E)| ->]; [|left; exists tgt; by rewrite decide_True].
    destruct (decide (c' = tgt)) as [->|]; [congruence|]. left. exists c'. by rewrite decide_False.
Qed.

(** ** Why the rounds end *)

Lemma sum_grows {A} `{EqDecision A} (f g : A -> nat) (l : list A) a :
  (forall x, x ∈ l -> x <> a -> f x = g x) -> NoDup l -> a ∈ l -> (f a < g a)%nat -> (sum_list (f <$> l) < sum_list (g <$> l))%nat.
Proof.
  intros Hfg Hnd Ha Hlt. induction l as [|x l IH]; [by apply elem_of_nil in Ha|]. apply NoDup_cons in Hnd as [Hx Hnd].
  change (f x + sum_list (f <$> l) < g x + sum_list (g <$> l))%nat.
  destruct (decide (x = a)) as [->|Hne].
  - assert (sum_list (f <$> l) = sum_list (g <$> l)); [|lia]. f_equal. apply list_fmap_ext. intros i y Hy%list_elem_of_lookup_2.
    apply Hfg; [by right|]. by intros ->.
  - rewrite (Hfg x) by (done || by left). assert (sum_list (f <$> l) < sum_list (g <$> l))%nat; [|lia].
    apply IH; [|done|]; [intros y Hy; apply Hfg; by right|]. by apply elem_of_cons in Ha as [->|].
Qed.

Lemma elem_cpus g c : c ∈ cpus g <-> cpu_ok g c = true.
Proof.
  unfold cpus, cpu_ok. rewrite list_elem_of_fmap, andb_true_iff, Z.leb_le, Z.ltb_lt. split.
  - intros (i & -> & Hi%elem_of_seq). lia.
  - intros Hc. exists (Z.to_nat c). rewrite Z2Nat.id by lia. split; [done|]. apply elem_of_seq. lia.
Qed.

Lemma cpus_nodup g : NoDup (cpus g).
Proof. unfold cpus. apply NoDup_fmap_2; [intros a b; lia|apply NoDup_seq]. Qed.

Section Top.
Context {Q : Type -> Type} `{PrioQueueLaws Q}.
Abbreviation world := (world Q fstate).
Abbreviation K := (M world).
Implicit Types (w : world) (t : tid) (c d : Z).
Abbreviation pars w := (params (plugin w)).
Abbreviation ok w t := (pfair_ok (pars w) (tasks w) t).
Abbreviation beats w := (pfair_ready_order (pars w) (tasks w)).
Abbreviation cpu w c := (cpu_ok (plugin w) c = true).
Abbreviation prm w t := (param_of (pars w) t).
Abbreviation sched_on w t := (scheduled_on (tasks w t)).

(** How well a processor suits the task linked to it *)
Definition suits (time : Z) w c (o : option tid) : nat :=
  match o with
  | None => 0
  | Some t =>
      if sched_on w t =? c then 2
      else if (sched_on w t =? NO_CPU) && (last_quantum (prm w t) =? u64 (time - 1)) && (last_cpu (prm w t) =? c) then 1 else 0
  end.
Definition suited (time : Z) w : nat := sum_list ((fun c => suits time w c (lk w c)) <$> cpus (plugin w)).

Lemma suits_bound time w c o : (suits time w c o <= 2)%nat.
Proof. unfold suits. destruct o; [|lia]. repeat case_match; lia. Qed.

Lemma suited_bound time w : (suited time w <= 2 * num_online_cpus (plugin w))%nat.
Proof.
  unfold suited. assert (length (cpus (plugin w)) = num_online_cpus (plugin w)) as <- by (unfold cpus; by rewrite length_fmap, length_seq).
  induction (cpus (plugin w)) as [|c l IH]; [done|]. rewrite fmap_cons. change (sum_list (?x :: ?l)) with (x + sum_list l)%nat.
  pose proof (suits_bound time w c (lk w c)). simpl length. lia.
Qed.

Lemma suits_same time w w' c o : same_sched w w' -> suits time w' c o = suits time w c o.
Proof.
  intros S. unfold suits. destruct o as [t|]; [|done]. by rewrite (ss_get scheduled_on w w'), (ss_params _ _ S).
Qed.

Lemma again_suits D time c t w w' :
  homes D time w -> D t -> (forall c x, cpu w c -> lk w c = Some x -> D x) -> spare w t -> cpu_ok (plugin w) NO_CPU = false ->
  linking time c t w true w' -> (suited time w < suited time w')%nat.
Proof.
  intros Ho HD HDl Hs Hnc (tgt & Htg & Ha & E). destruct (link_result c tgt t (lk w)) as [[r L'] b] eqn:Er.
  destruct E as (<- & Hi' & S & HL & _). unfold suited. assert (cpus (plugin w') = cpus (plugin w)) as Ec by exact (ss_field cpus w w' S (fun _ _ => eq_refl)).
  rewrite Ec. assert (tgt <> c /\ L' = upd (lk w) tgt (Some t)) as [Hne ->].
  { unfold link_result in Er. destruct (decide (tgt = c)); [done|]. split; [done|].
    destruct (lk w tgt); [destruct (decide (tgt < c)); [done|]|]; by injection Er. }
  apply (sum_grows _ _ _ tgt); [|apply cpus_nodup|by apply elem_cpus|].
  - intros x _ Hx. by rewrite (suits_same _ _ _ _ _ S), HL, upd_ne.
  - rewrite (suits_same _ _ _ _ _ S), HL, upd_eq. assert (tgt <> NO_CPU) as Htn by congruence.
    destruct Ha as [|[[Hn Et]|(En & Elq & Elc & Hl)]]; [done|..]; simpl.
    + rewrite (proj2 (Z.eqb_eq (sched_on w t) tgt)) by done. destruct (lk w tgt) as [o|] eqn:Eo; simpl; [|lia].
      destruct (Z.eqb_spec (sched_on w o) tgt) as [E'|]; [|case_match; lia]. exfalso. apply (sp_lk _ _ Hs tgt Htg). rewrite Eo. f_equal.
      eapply (ho_sched _ _ _ Ho); [by eapply HDl|done|congruence|congruence].
    + subst tgt. rewrite En. rewrite (proj2 (Z.eqb_neq NO_CPU (last_cpu (prm w t)))) by done. rewrite Elq, !Z.eqb_refl. simpl.
      destruct (lk w (last_cpu (prm w t))) as [o|] eqn:Eo; simpl; [|lia].
      destruct (Z.eqb_spec (sched_on w o) (last_cpu (prm w t))) as [E'|]; [by destruct (Hl o)|].
      destruct (_ && _) eqn:Ea; [|lia]. apply andb_true_iff in Ea as [[_ Elq']%andb_true_iff Elc']. rewrite Z.eqb_eq in *.
      exfalso. apply (sp_lk _ _ Hs (last_cpu (prm w t)) Htg). rewrite Eo. f_equal.
      eapply (ho_last _ _ _ Ho); [by eapply HDl|done|done|done|done].
Qed.

(** ** The rounds *)

(** The state of the scheduler while it links tasks, from [w0] on *)
Record looping w0 w : Prop := {
  lo_inv : finv w;
  lo_same : same_sched w0 w;
  lo_members x : fmember w x <-> fmember w0 x
}.

Lemma looping_trans w0 w1 w2 : looping w0 w1 -> looping w1 w2 -> looping w0 w2.
Proof. intros [_ S1 M1] [I2 S2 M2]. split; [done|by transitivity w1|]. intros x. by rewrite M2, M1. Qed.

Lemma quiet_same w w' : quiet w w' -> same_sched w w'.
Proof.
  intros [E A]. split; try apply E.
  - rewrite (se_plugin _ _ E). by destruct (plugin w).
  - intros c. by rewrite (se_plugin _ _ E).
  - intros x. by rewrite (se_core _ _ E).
  - intros x p _. apply A.
Qed.

Lemma quiet_looping w w' : finv w -> quiet w w' -> fdom w' -> tasks w' = tasks w -> looping w w'.
Proof.
  intros Hi Hq Hd Et. pose proof (se_plugin _ _ (qt_env _ _ Hq)) as Ep.
  split; [|by apply quiet_same|].
  - unfold finv. rewrite Ep. split; unfold lk, rel; rewrite ?Ep, ?Et; try apply Hi; [done|]. intros t p Hp. apply (qt_at _ _ Hq) in Hp. by apply (fi_queue _ _ Hi).
  - intros x. unfold fmember, lk. rewrite Ep. split; (intros [?|[p Hp]]; [by left|right; exists p; by apply (qt_at _ _ Hq)]).
Qed.

Lemma finv_proper w : finv w -> proper (fun t => ok w t) (fun c => cpu w c) (lk w) (ready w).
Proof.
  intros Hi. split.
  - intros x Hx. exact (queued_ok w x (PReady PFAIR) (fi_dom _ _ Hi) Hx).
  - intros c x Hc Ex. destruct (fi_link _ _ Hi c x Hc Ex) as (_ & Hok & _). exact Hok.
  - intros c x Hc Ex. by eapply linked_unqueued.
Qed.

(** The best ready task is taken. *)
Lemma taken_finv w t w' :
  finv w -> ready w t -> moved t None w w' -> fdom w' ->
  finv w' /\ same_sched w w' /\ spare w' t /\ lk w' = lk w /\ forall x, ready w' x <-> ready w x /\ x <> t.
Proof.
  intros Hi Ht M Hd. pose proof (se_plugin _ _ (mv_env _ _ _ _ M)) as Ep.
  assert (forall q, q <> PReady PFAIR -> ~ at_place w t q) as Hq.
  { intros q Hne Hq. apply Hne. by eapply (qo_unique _ _ _ (fi_dom _ _ Hi) t). }
  assert (same_sched w w') as S by (eapply moved_same; [exact M|by left|done]).
  assert (forall x p, at_place w' x p <-> at_place w x p /\ x <> t) as Ha.
  { intros x p. rewrite (mv_at _ _ _ _ M). case_decide; naive_solver. }
  assert (lk w' = lk w) as El by (unfold lk; by rewrite Ep).
  assert (forall x, ~ (exists p, at_place w' x p) -> in_heap (tasks w' x) = false) as Hh.
  { intros x Hx. destruct (in_heap (tasks w' x)) eqn:E; [|done]. by apply (qo_heap _ _ _ Hd) in E. }
  split_and!; [|done| |done|].
  - unfold finv. rewrite (ss_merge _ _ S). split.
    + done.
    + by eapply ss_pids, Hi.
    + intros x p [Hx _]%Ha. rewrite (ss_rel _ _ _ S), (ss_merge _ _ S). by apply (fi_queue _ _ Hi).
    + intros c x. rewrite (ss_online _ _ _ S), El. intros Hc Ex. destruct (fi_link _ _ Hi c x Hc Ex) as (_ & Hok & Hon & Hr).
      split_and!; [|by eapply ss_ok|by rewrite (moved_linked_on _ _ _ _ _ M)|by rewrite (ss_rel _ _ _ S)].
      apply Hh. intros (p & [Hp _]%Ha). by eapply linked_unqueued.
    + rewrite (ss_merge _ _ S). apply (fi_merge _ _ Hi).
  - split.
    + apply Hh. intros (p & [_ Hp]%Ha). done.
    + eapply ss_ok; [done|]. exact (queued_ok w t (PReady PFAIR) (fi_dom _ _ Hi) Ht).
    + rewrite (ss_rel _ _ _ S), (ss_merge _ _ S). destruct (fi_queue _ _ Hi t _ Ht) as [[_ ?]|[E _]]; [done|].
      injection E as E. unfold relq, PFAIR, PFAIR_MAX_PERIOD in E. pose proof (Z.mod_pos_bound (rel w t) 2000 ltac:(lia)). lia.
    + intros c. rewrite (ss_online _ _ _ S), El. intros Hc Ex. exact (linked_unqueued _ w c t _ Hi Hc Ex Ht).
  - intros x. apply Ha.
Qed.

(** Tasks in the ready queue, and in the wheel *)
Lemma places_split w x : (exists p, at_place w x p) <-> ready w x \/ exists p, p <> PReady PFAIR /\ at_place w x p.
Proof.
  split; [|intros [Hx|(p & _ & Hp)]; [by exists (PReady PFAIR)|by exists p]]. intros [p Hp]. destruct (decide (p = PReady PFAIR)) as [->|]; [by left|right; eauto].
Qed.

Lemma link_keeps c tgt t w w2 L' b (r : bool) x :
  cpu w c -> cpu w tgt -> link_result c tgt t (lk w) = (r, L', b) -> ready w t -> same_sched w w2 ->
  (forall c', lk w2 c' = L' c') -> (forall x, ready w2 x <-> ready w x /\ x <> t \/ b = Some x) -> fmember w2 x <-> fmember w x.
Proof.
  intros Hc Htg Er Ht S HL Hr. unfold fmember. rewrite !places_split, Hr.
  assert ((exists p, p <> PReady PFAIR /\ at_place w2 x p) <-> exists p, p <> PReady PFAIR /\ at_place w x p) as ->.
  { split; intros (p & Hp & Hat); exists p; (split; [done|]); by apply (ss_wheel _ _ S). }
  pose proof (link_members (fun c => cpu w c) c tgt t (lk w) r L' b x Hc Htg Er) as Hm.
  assert ((exists c, cpu w2 c /\ lk w2 c = Some x) <-> exists c', cpu w c' /\ L' c' = Some x) as ->.
  { split; intros (c' & Hc' & Ex); exists c'; (split; [by rewrite (ss_online _ _ _ S) in *|by rewrite HL in *]). }
  assert (x = t -> ready w x) by (by intros ->). destruct (decide (x = t)); tauto.
Qed.

(** One round: the best ready task [t] is linked on behalf of [c]. *)
Lemma link_round D time c t w w1 w2 (r : bool) :
  finv w -> cpu w c -> settled (beats w) (fun c => cpu w c) (lk w) (ready w) c \/ unsettled (beats w) (fun c => cpu w c) (lk w) (ready w) c ->
  ready w t -> (forall x, ready w x -> beats w x t = false) -> over (beats w) t (lk w c) = true ->
  moved t None w w1 -> fdom w1 -> homes D time w -> (forall x, fmember w x -> D x) -> cpu_ok (plugin w) NO_CPU = false ->
  linking time c t w1 r w2 ->
  looping w w2 /\
  if r then unsettled (beats w2) (fun c => cpu w2 c) (lk w2) (ready w2) c /\ (suited time w < suited time w2)%nat
  else settled (beats w2) (fun c => cpu w2 c) (lk w2) (ready w2) (c + 1).
Proof.
  intros Hi Hc Hst Ht Hbest Hov M Hd Ho HD Hnc HL.
  destruct (taken_finv w t w1 Hi Ht M Hd) as (Hi1 & S1 & Hs & El & Hr1). pose proof HL as (tgt & Htg & _ & E).
  destruct (link_result c tgt t (lk w1)) as [[r' L'] b] eqn:Er. destruct E as (<- & Hi2 & S2 & HL2 & Hr2).
  assert (same_sched w w2) as S by (by transitivity w1). rewrite (ss_online _ _ _ S1) in Htg. rewrite El in Er.
  assert (forall x, ready w2 x <-> ready w x /\ x <> t \/ b = Some x) as Hr by (intros x; by rewrite Hr2, Hr1).
  assert (looping w w2) as Hl by (split; [done|done|]; intros x; exact (link_keeps c tgt t w w2 L' b r x Hc Htg Er Ht S HL2 Hr)).
  split; [done|]. pose proof (finv_proper w Hi) as HP. pose proof (pfair_swo (pars w) (tasks w)) as Hswo.
  assert (forall a b, ok w a -> ok w b -> a <> b -> beats w a b = false -> beats w b a = true) as Htot.
  { intros. eapply pfair_total; try done. apply (fi_pids _ _ Hi). }
  assert (forall a b, beats w2 a b = beats w a b) as Hb by (intros; by apply ss_beats).
  assert (forall c, cpu w2 c <-> cpu w c) as HC by (intros c'; by rewrite (ss_online _ _ _ S)).
  destruct r.
  - split.
    + eapply unsettled_ext; [exact Hb|exact HC|exact HL2|exact Hr|]. by eapply round_again.
    + assert (suited time w = suited time w1) as ->.
      { unfold suited. rewrite El, (se_plugin _ _ (mv_env _ _ _ _ M)). f_equal. apply list_fmap_ext. intros i c' _. symmetry. by apply suits_same. }
      eapply (again_suits D); [by eapply homes_same|apply HD; right; by exists (PReady PFAIR)| |done| |exact HL].
      * intros c' x. rewrite (ss_online _ _ _ S1), El. intros Hc' Ex. apply HD. left. by exists c'.
      * by rewrite (ss_online _ _ _ S1).
  - eapply settled_ext; [exact Hb|exact HC|exact HL2|exact Hr|]. by eapply round_done.
Qed.

Definition stable w c : Prop := settled (beats w) (fun c => cpu w c) (lk w) (ready w) c.
Definition unstable w c : Prop := unsettled (beats w) (fun c => cpu w c) (lk w) (ready w) c.

Lemma stable_quiet w w' c : quiet w w' -> tasks w' = tasks w -> stable w c \/ unstable w c -> stable w' c \/ unstable w' c.
Proof.
  intros Hq Et. pose proof (se_plugin _ _ (qt_env _ _ Hq)) as Ep. unfold stable, unstable, lk. rewrite Ep, Et.
  assert (forall x, ready w' x <-> ready w x) as Hr by (intros x; apply (qt_at _ _ Hq)).
  intros [Hs|Hs]; [left; eapply settled_ext|right; eapply unsettled_ext]; try exact Hs; done.
Qed.

Lemma higher_over (f : tid -> option pfair_param) T t o : pfair_higher_prio f T (Some t) o = over (pfair_ready_order f T) t o.
Proof. by destruct o. Qed.

(** The best task is the one that is taken. *)
Lemma take_top t w (Φ : option tid -> world -> Prop) :
  finv w -> ready w t -> (forall x, ready w x -> beats w x t = false) ->
  (forall w', fdom w' -> moved t None w w' -> Φ (Some t) w') -> wp pf_take_ready Φ w.
Proof.
  intros Hi Ht Hb HΦ. apply take_ready_f; [apply (fi_dom _ _ Hi)|]. intros hn w' Hd Hh. destruct hn as [t'|].
  - destruct Hh as (Hin & M & HF). rewrite Forall_forall in HF. destruct (decide (t' = t)) as [->|Hne]; [by apply HΦ|].
    assert (ok w t) by exact (queued_ok w t (PReady PFAIR) (fi_dom _ _ Hi) Ht).
    assert (ok w t') by exact (queued_ok w t' (PReady PFAIR) (fi_dom _ _ Hi) Hin).
    pose proof (pfair_total _ _ t' t (fi_pids _ _ Hi) ltac:(done) ltac:(done) Hne (Hb t' Hin)). by rewrite (HF t) in *.
  - destruct Hh as [E _]. unfold ready in Ht. simpl in Ht. rewrite E in Ht. by apply elem_of_nil in Ht.
Qed.

Lemma schedule_cpu_spec D time c fuel w0 w :
  homes D time w0 -> (forall x, fmember w0 x -> D x) -> cpu_ok (plugin w0) NO_CPU = false -> cpu w0 c ->
  looping w0 w -> stable w c \/ unstable w c -> (2 * num_online_cpus (plugin w) < fuel + suited time w)%nat ->
  wp (schedule_cpu fuel time c) (fun _ w' => looping w0 w' /\ stable w' (c + 1)) w.
Proof.
  intros Ho HD Hnc Hc. revert w. induction fuel as [|fuel IH]; intros w Hl Hst Hf.
  { pose proof (suited_bound time w). lia. }
  simpl. wp_steps. apply peek_ready_f; [apply (fi_dom _ _ (lo_inv _ _ Hl))|]. intros hn w1 Hq Hd1 Et Hh.
  pose proof (quiet_looping w w1 (lo_inv _ _ Hl) Hq Hd1 Et) as Hl1. apply (looping_trans w0) in Hl1; [|done].
  apply (stable_quiet w w1) in Hst; [|done|done].
  assert (suited time w1 = suited time w) as Es by (unfold suited, suits, lk; by rewrite (se_plugin _ _ (qt_env _ _ Hq)), Et).
  rewrite <- Es, <- (se_plugin _ _ (qt_env _ _ Hq)) in Hf. clear Es.
  assert (cpu w1 c) as Hc1 by (by rewrite (ss_online _ _ _ (lo_same _ _ Hl1))). pose proof (lo_inv _ _ Hl1) as Hi1.
  assert (forall x, ready w1 x <-> x ∈ ready_elems w PFAIR) as Hr by (intros x; apply (qt_at _ _ Hq)).
  wp_steps. apply get_pstate_spec; [done|]. wp_steps. fold (lk w1 c).
  destruct (pfair_higher_prio (pars w1) (tasks w1) hn (lk w1 c)) eqn:Ep; wp_steps.
  - destruct hn as [t|]; [|done]. rewrite higher_over in Ep. destruct Hh as [Hin HF]. rewrite Forall_forall in HF.
    assert (forall x, ready w1 x -> beats w1 x t = false) as Hb.
    { intros x Hx%Hr. rewrite (se_plugin _ _ (qt_env _ _ Hq)), Et. by apply HF. }
    apply (take_top t); [done|by apply Hr|done|]. intros w2 Hd2 M. wp_steps. exists t. split; [done|]. wp_steps.
    destruct (taken_finv w1 t w2 Hi1 (proj2 (Hr t) Hin) M Hd2) as (Hi2 & S2 & Hs & _).
    pose proof (homes_same _ _ _ _ (lo_same _ _ Hl1) Ho) as Ho1.
    assert (forall x, fmember w1 x -> D x) as HD1 by (intros x Hx; by apply HD, (lo_members _ _ Hl1)).
    assert (cpu_ok (plugin w1) NO_CPU = false) as Hnc1 by (by rewrite (ss_online _ _ _ (lo_same _ _ Hl1))).
    eapply wp_mono; [apply (pf_link_spec D); [done|done| |by eapply homes_same|by rewrite (ss_online _ _ _ S2)]|].
    { apply HD1. right. exists (PReady PFAIR). by apply Hr. }
    intros r w3 HL. destruct (link_round D time c t w1 w2 w3 r Hi1 Hc1 Hst (proj2 (Hr t) Hin) Hb Ep M Hd2 Ho1 HD1 Hnc1 HL) as [Hl3 Hres].
    apply (looping_trans w0) in Hl3; [|done]. destruct r; wp_steps.
    + destruct Hres as [Hu Hsu]. apply IH; [done|by right|].
      assert (num_online_cpus (plugin w3) = num_online_cpus (plugin w1)) as ->; [|lia].
      rewrite (ss_field num_online_cpus w0 w3 (lo_same _ _ Hl3) (fun _ _ => eq_refl)). symmetry. exact (ss_field num_online_cpus w0 w1 (lo_same _ _ Hl1) (fun _ _ => eq_refl)).
    + done.
  - split; [done|]. eapply (round_none (beats w1) (fun t => ok w1 t)); [apply pfair_swo|by apply finv_proper|done|done|].
    intros x Hx%Hr. destruct hn as [t|]; [|rewrite Hh in Hx; by apply elem_of_nil in Hx]. rewrite higher_over in Ep.
    destruct Hh as [Hin HF]. rewrite Forall_forall in HF. destruct (lk w1 c) as [l|] eqn:El; [|done]. simpl in Ep |- *.
    pose proof (finv_proper w1 Hi1) as HP.
    apply (swo_neg_trans _ _ (pfair_swo (pars w1) (tasks w1)) x t l); [by apply (pr_ready _ _ _ _ HP), Hr|by apply (pr_ready _ _ _ _ HP), Hr|by eapply (pr_linked _ _ _ _ HP c)| |done].
    rewrite (se_plugin _ _ (qt_env _ _ Hq)), Et. by apply HF.
Qed.

Lemma schedule_all_spec D time fuel w0 k m w :
  homes D time w0 -> (forall x, fmember w0 x -> D x) -> cpu_ok (plugin w0) NO_CPU = false -> (k + m = num_online_cpus (plugin w0))%nat ->
  (2 * num_online_cpus (plugin w0) < fuel)%nat -> looping w0 w -> stable w (Z.of_nat k) ->
  wp (each_cpu (schedule_cpu fuel time) (Z.of_nat <$> seq k m)) (fun _ w' => looping w0 w' /\ stable w' (Z.of_nat (k + m))) w.
Proof.
  intros Ho HD Hnc. revert k w. induction m as [|m IH]; intros k w Hkm Hf Hl Hs; [rewrite Nat.add_0_r; simpl; by wp_steps|].
  simpl. wp_steps. eapply wp_mono.
  - apply (schedule_cpu_spec D time (Z.of_nat k) fuel w0 w); try done; [|by left|].
    + unfold cpu_ok. apply andb_true_iff. rewrite Z.leb_le, Z.ltb_lt. lia.
    + rewrite (ss_field num_online_cpus w0 w (lo_same _ _ Hl) (fun _ _ => eq_refl)). lia.
  - intros _ w1 [Hl1 Hs1]. replace (k + S m)%nat with (S k + m)%nat by lia. apply IH; [lia|done|done|].
    by replace (Z.of_nat (S k)) with (Z.of_nat k + 1) by lia.
Qed.

(** The tasks that are linked beat those that are not, and no processor idles
    while a task is ready. *)
Definition highest_linked w : Prop :=
  forall c x, cpu w c -> ready w x -> exists l, lk w c = Some l /\ beats w l x = true.

Lemma stable_highest w : finv w -> stable w (Z.of_nat (num_online_cpus (plugin w))) -> highest_linked w.
Proof.
  intros Hi Hs c x Hc Hx. assert (c < Z.of_nat (num_online_cpus (plugin w))) as Hlt.
  { unfold cpu_ok in Hc. apply andb_true_iff in Hc as [_ Hc]. by apply Z.ltb_lt. }
  specialize (Hs c Hc Hlt x Hx). destruct (lk w c) as [l|] eqn:El; [|done]. exists l. split; [done|]. simpl in Hs.
  pose proof (finv_proper w Hi) as HP. apply pfair_total; [apply (fi_pids _ _ Hi)|by apply (pr_ready _ _ _ _ HP)|by eapply (pr_linked _ _ _ _ HP c)| |done].
  intros ->. by eapply (pr_apart _ _ _ _ HP c).
Qed.

Lemma schedule_subtasks_spec time w :
  finv w -> homes (fmember w) time w -> cpu_ok (plugin w) NO_CPU = false ->
  wp (schedule_subtasks time) (fun _ w' => looping w w' /\ highest_linked w') w.
Proof.
  intros Hi Ho Hnc. unfold schedule_subtasks, for_each_online_cpu. wp_steps. unfold cpus.
  assert (looping w w) as Hl by (by split).
  eapply wp_mono; [apply (schedule_all_spec (fmember w) time (rounds (plugin w)) w 0 (num_online_cpus (plugin w)) w Ho); try done|].
  - unfold rounds. lia.
  - intros c' Hc' Hlt. unfold cpu_ok in Hc'. apply andb_true_iff in Hc' as [Hc' _]. apply Z.leb_le in Hc'. lia.
  - intros _ w' [Hl' Hs]. split; [done|]. apply stable_highest; [apply Hl'|].
    by rewrite (ss_field num_online_cpus w w' (lo_same _ _ Hl') (fun _ _ => eq_refl)).
Qed.
End Top.
