(* ===== verification/PfairQuantum.v ===== *)
(** * PD^2: the beginning of a quantum

    [schedule_next_quantum] moves the tasks that were linked to their next
    subtask, makes the tasks ready whose windows open, and links the tasks with
    the highest priorities. *)

From S2P Require Import Prelude Task Edf PrioQueue Kernel RtDomain RtInv EdfDomain Pfair PfairSub PfairInv PfairLink PfairTop.
Open Scope Z_scope.

(** ** The next subtask *)

Definition next_cur (p : pfair_param) : Z := u64 (cur p + 1) `mod` quanta p.

(** The parameters after a quantum in which the task was linked to [c]; a task
    that is not present leaves after its last subtask. *)
Definition advanced (time c : Z) (present : bool) (p : pfair_param) : pfair_param :=
  let p1 := set_cur (next_cur p) (set_last time c p) in
  if next_cur p =? 0 then
    if present then set_p_release (u64 (p_release p + p_period p)) p1 else set_sporadic_release true p1
  else p1.

Lemma next_cur_spec p : good_param p ->
  next_cur p = cur p + 1 /\ cur p + 1 < quanta p \/ next_cur p = 0 /\ cur p + 1 = quanta p.
Proof.
  intros [He Hp Hs Hc Hr]. unfold next_cur, PFAIR_MAX_PERIOD in *. rewrite u64_small by (unfold two64; lia).
  destruct (Z.eq_dec (cur p + 1) (quanta p)) as [E|E]; [right; split; [rewrite E; apply Z.mod_same; lia|done]|left].
  rewrite Z.mod_small by lia. lia.
Qed.

(** The window of the next subtask opens later, by less than a period and a
    quantum. *)
Lemma advanced_good time c b p :
  good_param p -> p_release p + p_period p < two62 -> good_param (advanced time c b p).
Proof.
  intros Hp Hb. pose proof (next_cur_spec p Hp) as Hn. destruct Hp as [He Hpp Hs Hc Hr]. unfold advanced.
  assert (0 <= p_release p + p_period p < two62) as Hr' by lia. rewrite u64_small by (unfold two62, two64 in *; lia).
  destruct (Z.eqb_spec (next_cur p) 0) as [E|E]; [destruct b|]; split; simpl; try done; lia.
Qed.

Lemma advanced_release time c p :
  good_param p -> p_release p + p_period p < two62 ->
  release_of p <= release_of (advanced time c true p) <= release_of p + p_period p.
Proof.
  intros Hp Hb. pose proof (advanced_good time c true p Hp Hb) as Ha. pose proof (next_cur_spec p Hp) as Hn.
  pose proof (wi_release _ _ _ _ (cur_window p Hp)) as E1. pose proof (wi_release _ _ _ _ (cur_window _ Ha)) as E2.
  destruct Hp as [He Hpp Hs Hc Hr]. unfold release_of. rewrite E1, E2. unfold advanced.
  rewrite u64_small by (unfold two62, two64 in *; lia).
  pose proof (Z.div_mod (cur p * p_period p) (quanta p) ltac:(lia)) as D1. pose proof (Z.mod_pos_bound (cur p * p_period p) (quanta p) ltac:(lia)) as B1.
  destruct Hn as [[En Hn]|[En Hn]]; rewrite En.
  - rewrite (proj2 (Z.eqb_neq (cur p + 1) 0)) by lia. simpl.
    pose proof (Z.div_mod ((cur p + 1) * p_period p) (quanta p) ltac:(lia)) as D2.
    pose proof (Z.mod_pos_bound ((cur p + 1) * p_period p) (quanta p) ltac:(lia)) as B2.
    set (x := cur p * p_period p / quanta p) in *. set (y := (cur p + 1) * p_period p / quanta p) in *.
    assert (x <= y) by nia. assert (y <= x + p_period p) by nia. lia.
  - simpl. rewrite Z.div_0_l by lia. set (x := cur p * p_period p / quanta p) in *. assert (0 <= x) by nia. assert (x <= p_period p) by nia. lia.
Qed.

Section Quantum.
Context {Q : Type -> Type} `{PrioQueueLaws Q}.
Abbreviation world := (world Q fstate).
Abbreviation K := (M world).
Implicit Types (w : world) (t : tid) (c d : Z).
Abbreviation pars w := (params (plugin w)).
Abbreviation ok w t := (pfair_ok (pars w) (tasks w) t).
Abbreviation cpu w c := (cpu_ok (plugin w) c = true).
Abbreviation prm w t := (param_of (pars w) t).

(** Only the parameters and the job of [t] change. *)
Record touched t w w' : Prop := {
  tc_param x : x <> t -> pars w' x = pars w x;
  tc_task x : x <> t -> tasks w' x = tasks w x;
  tc_fields : pid (tasks w' t) = pid (tasks w t) /\ is_realtime (tasks w' t) = is_realtime (tasks w t) /\
    in_heap (tasks w' t) = in_heap (tasks w t) /\ linked_on (tasks w' t) = linked_on (tasks w t) /\
    scheduled_on (tasks w' t) = scheduled_on (tasks w t) /\ present (tasks w' t) = present (tasks w t);
  tc_doms : doms w' = doms w;
  tc_rheaps : rheaps w' = rheaps w;
  tc_tick : tick_period w' = tick_period w;
  tc_curr : curr w' = curr w /\ this_cpu w' = this_cpu w;
  tc_plugin : set_params (pars w) (plugin w') = plugin w
}.

#[export] Instance touched_preorder t : PreOrder (touched t).
Proof.
  split; [intros w; split; try done; by destruct (plugin w)|].
  intros w1 w2 w3 [P1 T1 F1 ? ? ? C1 G1] [P2 T2 F2 ? ? ? C2 G2]. split; try congruence.
  - intros x Hx. by rewrite P2, P1.
  - intros x Hx. by rewrite T2, T1.
  - destruct F1 as (? & ? & ? & ? & ? & ?), F2 as (? & ? & ? & ? & ? & ?). split_and!; congruence.
  - destruct C1 as [<- <-]. done.
  - rewrite <- G1, <- G2. by destruct (plugin w3).
Qed.

Lemma tc_field {A} (f : fstate -> A) t w w' :
  touched t w w' -> (forall g s, f (set_params s g) = f g) -> f (plugin w') = f (plugin w).
Proof. intros T Hf. by rewrite <- (tc_plugin _ _ _ T), Hf. Qed.

Lemma tc_at t w w' x p : touched t w w' -> at_place w' x p <-> at_place w x p.
Proof. intros T. destruct p as [d|d o]; simpl; unfold ready_elems, active, rel_elems; by rewrite ?(tc_doms _ _ _ T), ?(tc_rheaps _ _ _ T). Qed.

Lemma tc_lk t w w' c : touched t w w' -> lk w' c = lk w c.
Proof. intros T. unfold lk. by rewrite (tc_field pstate t w w'). Qed.

Lemma tc_heap t w w' x : touched t w w' -> in_heap (tasks w' x) = in_heap (tasks w x).
Proof. intros T. destruct (decide (x = t)) as [->|Hx]; [apply (tc_fields _ _ _ T)|by rewrite (tc_task _ _ _ T)]. Qed.

Lemma tc_rel t w w' x : touched t w w' -> x <> t -> rel w' x = rel w x.
Proof. intros T Hx. unfold rel, param_of. by rewrite (tc_param _ _ _ T). Qed.

Lemma tc_ok t w w' x : touched t w w' -> x <> t -> ok w x -> ok w' x.
Proof. intros T Hx [Hr Hp]. split; [by rewrite (tc_task _ _ _ T)|by rewrite (tc_param _ _ _ T)]. Qed.

Lemma touched_dom t w w' : fdom w -> in_heap (tasks w t) = false -> touched t w w' -> fdom w'.
Proof.
  intros Hd Hh T. assert (forall x p, at_place w x p -> x <> t) as Hne by (intros x p Hp ->; by eapply nowhere).
  unfold fdom. eapply (dom_ok_reorder _ _ _ _ w); [exact Hd|apply T|apply T|apply T|intros x; by apply (tc_heap t)|..].
  - intros x d h Hp. by rewrite (tc_task _ _ _ T) by eauto.
  - intros x p Hp. apply (tc_ok t); eauto.
  - intros a b p q Hpa Hpb. unfold pfair_ready_order, pfair_higher_prio, param_of.
    by rewrite !(tc_param _ _ _ T), !(tc_task _ _ _ T) by eauto.
Qed.

Lemma touched_qinv t w w' : qinv w -> in_heap (tasks w t) = false -> touched t w w' -> qinv w'.
Proof.
  intros [Hd Hp Hq] Hh T. assert (forall x, pid (tasks w' x) = pid (tasks w x)) as Ep.
  { intros x. destruct (decide (x = t)) as [->|Hx]; [apply (tc_fields _ _ _ T)|by rewrite (tc_task _ _ _ T)]. }
  split; [by eapply touched_dom|intros a b; rewrite !Ep; apply Hp|].
  intros x p Hx%(tc_at t w). 2: done. assert (x <> t) as Hne by (intros ->; by eapply nowhere).
  rewrite (tc_rel t w w'), (tc_field merge_time t w w') by done. by apply Hq.
Qed.

(** [t] is linked and keeps its link. *)
Lemma touched_finv time t w w' :
  finv_at time w -> in_heap (tasks w t) = false -> touched t w w' -> (ok w t -> ok w' t /\ rel w' t <= time) -> finv_at time w'.
Proof.
  intros Hi Hh T Ht. destruct (touched_qinv t w w' (finv_qinv _ _ Hi) Hh T) as [Hd Hp Hq]. split; [done..| |].
  - intros c x. rewrite (tc_lk _ _ _ c T), (tc_field (fun g => cpu_ok g c) t w w') by done. intros Hc Ex.
    destruct (fi_link _ _ Hi c x Hc Ex) as (Hx & Hok & Hon & Hr). rewrite (tc_heap t w w') by done. split; [done|].
    destruct (decide (x = t)) as [->|Hne].
    + destruct (Ht Hok) as [? ?]. split_and!; try done. by destruct (tc_fields _ _ _ T) as (_ & _ & _ & -> & _).
    + split_and!; [by eapply tc_ok|by rewrite (tc_task _ _ _ T)|by rewrite (tc_rel t w w')].
  - rewrite (tc_field merge_time t w w') by done. apply (fi_merge _ _ Hi).
Qed.

Lemma param_spec t f p w (Φ : unit -> world -> Prop) :
  pars w t = Some p -> (forall w', touched t w w' -> pars w' t = Some (f p) -> tasks w' = tasks w -> Φ tt w') -> wp (upd_param t f) Φ w.
Proof.
  intros Hp HΦ. unfold upd_param, tsk_pfair, upd_state. wp_steps. exists p. split; [done|]. wp_steps. apply HΦ; [|by simpl; rewrite upd_eq|done].
  split; try done; [|by destruct w as [? ? ? ? ? ? ? ? ? ? []]]. intros x Hx. simpl. by rewrite upd_ne.
Qed.

(** A change of the job of [t] *)
Lemma job_spec t f w (Φ : unit -> world -> Prop) :
  (let x := tasks w t in pid (f x) = pid x /\ is_realtime (f x) = is_realtime x /\ in_heap (f x) = in_heap x /\
    linked_on (f x) = linked_on x /\ scheduled_on (f x) = scheduled_on x /\ present (f x) = present x) ->
  (forall w', touched t w w' -> plugin w' = plugin w -> tasks w' t = f (tasks w t) -> Φ tt w') -> wp (upd_task t f) Φ w.
Proof.
  intros Hf HΦ. unfold upd_task. wp_steps. apply HΦ; [|done|by simpl; rewrite upd_eq].
  split; try done; [|simpl; by rewrite upd_eq|simpl; by destruct (plugin w)]. intros x Hx. simpl. by rewrite upd_ne.
Qed.

(** ** Dropping a task *)

Definition forget_state t (s : pfair_state) : pfair_state :=
  set_p_scheduled (forget t (p_scheduled s)) (set_local (forget t (local s)) (set_p_linked (forget t (p_linked s)) s)).

Lemma forget_loop t l w (Φ : unit -> world -> Prop) :
  NoDup l -> (forall c, c ∈ l -> cpu w c) ->
  (forall ps, (forall c, ps c = if decide (c ∈ l) then forget_state t (pstate (plugin w) c) else pstate (plugin w) c) ->
     Φ tt (set_plugin (set_pstate ps (plugin w)) w)) ->
  wp (each_cpu (fun c => upd_pstate c (forget_state t)) l) Φ w.
Proof.
  revert w. induction l as [|c l IH]; intros w Hnd Hl HΦ; simpl.
  - wp_steps. replace w with (set_plugin (set_pstate (pstate (plugin w)) (plugin w)) w) by (by destruct w as [? ? ? ? ? ? ? ? ? ? []]).
    apply HΦ. intros c. by rewrite decide_False by apply not_elem_of_nil.
  - apply NoDup_cons in Hnd as [Hc Hnd]. wp_steps. unfold upd_pstate at 1. wp_steps. apply get_pstate_spec; [apply Hl; by left|].
    unfold upd_state. wp_steps. apply IH; [done|intros c' Hc'; apply Hl; by right|]. intros ps Hps. simpl.
    apply HΦ. intros c'. rewrite Hps. simpl. unfold upd. destruct (decide (c' = c)) as [->|Hne].
    + rewrite decide_False by done. rewrite (decide_True (P := c ∈ c :: l)) by (by left). done.
    + destruct (decide (c' ∈ l)); [rewrite decide_True by (by right)|rewrite decide_False by (by intros [?|?]%elem_of_cons)]; done.
Qed.

Record dropped t w w' : Prop := {
  dr_plugin : set_pstate (pstate (plugin w)) (plugin w') = plugin w;
  dr_state c : pstate (plugin w') c = if cpu_ok (plugin w) c then forget_state t (pstate (plugin w) c) else pstate (plugin w) c;
  dr_core x : core (tasks w' x) = core (tasks w x);
  dr_at x p : at_place w' x p <-> at_place w x p /\ x <> t;
  dr_dom : fdom w';
  dr_tick : tick_period w' = tick_period w;
  dr_clock : clock w' = clock w /\ elapse w' = elapse w;
  dr_curr : curr w' = curr w /\ this_cpu w' = this_cpu w
}.

Lemma drop_links t w w1 :
  same_env w w1 -> fdom w1 -> (forall x p, at_place w1 x p <-> at_place w x p /\ x <> t) ->
  wp (g ← gets plugin; each_cpu (fun c => upd_pstate c (forget_state t)) (cpus g)) (fun _ w' => dropped t w w') w1.
Proof.
  intros E Hd Ha. wp_steps. apply forget_loop; [apply cpus_nodup|intros c; apply elem_cpus|]. intros ps Hps.
  pose proof (se_plugin _ _ E) as Ep. rewrite Ep in *. split; simpl; try apply E; try done.
  - by destruct (plugin w).
  - intros c. rewrite Hps. destruct (cpu_ok (plugin w) c) eqn:Ec; [by rewrite decide_True by (by apply elem_cpus)|].
    rewrite decide_False; [done|]. rewrite elem_cpus. congruence.
  - unfold fdom in *. simpl. rewrite Ep in Hd. destruct Hd. split; assumption.
  - split; apply E.
  - split; apply E.
Qed.

Lemma drop_spec time t w :
  finv_at time w -> wp (drop_all_references t) (fun _ w' => dropped t w w') w.
Proof.
  intros Hi. unfold drop_all_references, get_task. wp_steps. apply wp_when. destruct (in_heap (tasks w t)) eqn:Eh.
  - apply (qo_heap _ _ _ (fi_dom _ _ Hi)) in Eh as [p Hp]. destruct (queued_ok w t p (fi_dom _ _ Hi) Hp) as (_ & pa & Epa & Hg).
    unfold tsk_pfair. wp_steps. exists pa. split; [done|]. wp_steps.
    assert (rel w t = release_of pa) as Er by (unfold rel, param_of; by rewrite Epa). destruct (cur_values pa Hg) as (_ & -> & _ & Hb & Hb2 & _).
    destruct (fi_merge _ _ Hi) as [Hm Ht]. unfold time_before_eq. rewrite lt_before_eq_window by (unfold two62, two63 in *; lia). rewrite <- Er.
    assert (at_place w t (PReady (if rel w t <=? merge_time (plugin w) then PFAIR else relq (rel w t)))) as Hat.
    { destruct (fi_queue _ _ Hi t p Hp) as [[-> Hle]|[-> Hlt]]; [by rewrite (proj2 (Z.leb_le _ _)) by done|].
      by rewrite (proj2 (Z.leb_gt _ _)) by lia. }
    eapply wp_mono; [exact (remove_spec _ _ (pfair_order_core _) (pfair_ok_core _) _ t w (pfair_swo _ _) (fi_dom _ _ Hi) Hat)|].
    intros _ w1 [M Hd1]. apply drop_links; [apply M|by eapply moved_fdom|]. intros x q. rewrite (mv_at _ _ _ _ M). case_decide; naive_solver.
  - apply (drop_links t w w); [done|apply (fi_dom _ _ Hi)|]. intros x q. split; [|by intros [? _]].
    intros Hx. split; [done|]. intros ->. by eapply nowhere; [apply (fi_dom _ _ Hi)| |].
Qed.

Lemma dropped_lk t w w' c : dropped t w w' -> cpu w c -> lk w' c = forget t (lk w c).
Proof. intros D Hc. unfold lk. by rewrite (dr_state _ _ _ D), Hc. Qed.

Lemma dropped_field {A} (f : fstate -> A) t w w' :
  dropped t w w' -> (forall g s, f (set_pstate s g) = f g) -> f (plugin w') = f (plugin w).
Proof. intros D Hf. by rewrite <- (dr_plugin _ _ _ D), Hf. Qed.

Lemma forget_some t (o : option tid) x : forget t o = Some x -> o = Some x /\ x <> t.
Proof. unfold forget. case_decide as E; [done|]. intros ->. split; [done|]. by intros ->. Qed.

Lemma dropped_finv time t w w' :
  finv_at time w -> dropped t w w' -> finv_at time w' /\ in_heap (tasks w' t) = false /\ forall c, cpu w' c -> lk w' c <> Some t.
Proof.
  intros Hi D. pose proof (dropped_field params t w w' D (fun _ _ => eq_refl)) as Ep.
  pose proof (dropped_field merge_time t w w' D (fun _ _ => eq_refl)) as Em.
  assert (forall c, cpu_ok (plugin w') c = cpu_ok (plugin w) c) as Ec by (intros c; exact (dropped_field (fun g => cpu_ok g c) t w w' D (fun _ _ => eq_refl))).
  assert (forall x, rel w' x = rel w x) as Er by (intros x; unfold rel; by rewrite Ep).
  assert (forall x, ~ (exists p, at_place w' x p) -> in_heap (tasks w' x) = false) as Hh.
  { intros x Hx. destruct (in_heap (tasks w' x)) eqn:E; [|done]. by apply (qo_heap _ _ _ (dr_dom _ _ _ D)) in E. }
  split; [split|split].
  - apply D.
  - intros a b. rewrite !(core_field pid _ _ (fun _ => eq_refl) (dr_core _ _ _ D _)). apply (fi_pids _ _ Hi).
  - intros x p [Hx _]%(dr_at _ _ _ D). rewrite Er, Em. by apply (fi_queue _ _ Hi).
  - intros c x. rewrite Ec. intros Hc. rewrite (dropped_lk _ _ _ _ D Hc). intros [Ex Hne]%forget_some.
    destruct (fi_link _ _ Hi c x Hc Ex) as (Hx & Hok & Hon & Hr). split_and!.
    + apply Hh. intros (p & [Hp _]%(dr_at _ _ _ D)). by eapply nowhere; [apply (fi_dom _ _ Hi)| |].
    + rewrite Ep. eapply pfair_ok_core; [|exact Hok]. intros y. symmetry. apply D.
    + by rewrite (core_field linked_on _ _ (fun _ => eq_refl) (dr_core _ _ _ D _)).
    + by rewrite Er.
  - rewrite Em. apply (fi_merge _ _ Hi).
  - apply Hh. by intros (p & [_ Hp]%(dr_at _ _ _ D)).
  - intros c. rewrite Ec. intros Hc. rewrite (dropped_lk _ _ _ _ D Hc). by intros [_ ?]%forget_some.
Qed.

(** ** The release wheel *)

Lemma relq_not_ready r : relq r <> PFAIR.
Proof. unfold relq, PFAIR, PFAIR_MAX_PERIOD. pose proof (Z.mod_pos_bound r 2000 ltac:(lia)). lia. Qed.

Lemma finv_moved time t d w w' :
  finv_at time w -> moved t (Some (PReady d)) w w' -> fdom w' -> (forall c, cpu w c -> lk w c <> Some t) ->
  d = PFAIR /\ rel w t <= merge_time (plugin w) \/
  d = relq (rel w t) /\ merge_time (plugin w) < rel w t <= merge_time (plugin w) + PFAIR_MAX_PERIOD -> finv_at time w'.
Proof.
  intros Hi M Hd Hno Hp. pose proof (se_plugin _ _ (mv_env _ _ _ _ M)) as Ep. pose proof (se_core _ _ (mv_env _ _ _ _ M)) as Ec.
  assert (forall x, rel w' x = rel w x) as Er by (intros x; unfold rel; by rewrite Ep). split.
  - done.
  - intros a b. rewrite !(core_field pid _ _ (fun _ => eq_refl) (Ec _)). apply (fi_pids _ _ Hi).
  - intros x p Hx. rewrite Er, Ep. apply (mv_at _ _ _ _ M) in Hx. case_decide as E; [|by apply (fi_queue _ _ Hi)].
    injection Hx as <-. subst x. destruct Hp as [[-> ?]|[-> ?]]; [by left|by right].
  - intros c x. unfold lk. rewrite Ep. intros Hc Ex. destruct (fi_link _ _ Hi c x Hc Ex) as (Hh & Hok & Hon & Hr).
    assert (x <> t) as Hne by (intros ->; by eapply Hno). split_and!; [| |by rewrite (core_field linked_on _ _ (fun _ => eq_refl) (Ec x))|by rewrite Er].
    + destruct (in_heap (tasks w' x)) eqn:E; [|done]. apply (qo_heap _ _ _ Hd) in E as [p Hat]. apply (mv_at _ _ _ _ M) in Hat.
      rewrite decide_False in Hat by done. by destruct (nowhere w x p (fi_dom _ _ Hi) Hh).
    + eapply pfair_ok_core; [|exact Hok]. intros y. by rewrite Ec.
  - rewrite Ep. apply (fi_merge _ _ Hi).
Qed.

Lemma add_release_f time t w :
  finv_at time w -> in_heap (tasks w t) = false -> ok w t ->
  merge_time (plugin w) < rel w t <= merge_time (plugin w) + PFAIR_MAX_PERIOD -> (forall c, cpu w c -> lk w c <> Some t) ->
  wp (pfair_add_release t) (fun _ w' => finv_at time w' /\ moved t (Some (PReady (relq (rel w t)))) w w') w.
Proof.
  intros Hi Hh Hok Hr Hno. pose proof Hok as (Hrt & p & Hp & Hg). assert (rel w t = release_of p) as Er by (unfold rel, param_of; by rewrite Hp).
  unfold pfair_add_release, __pfair_add_release, get_task, tsk_pfair. wp_steps; [done|]. exists p. split; [done|]. wp_steps.
  destruct (cur_values p Hg) as (_ & -> & _). rewrite <- Er.
  eapply wp_mono; [exact (ready_insert_spec _ _ (pfair_order_core _) (pfair_ok_core _) _ t w (pfair_swo _ _) (fi_dom _ _ Hi) Hh Hok)|].
  intros _ w' [M Hd]. split; [|done]. eapply finv_moved; [exact Hi|exact M|by eapply moved_fdom|done|by right].
Qed.
End Quantum.
