(* ===== verification/PfairAdvance.v ===== *)
(** * PD^2: from one quantum to the next

    [advance_subtasks], [poll_releases] and [schedule_next_quantum] as a whole. *)

From S2P Require Import Prelude Task Edf PrioQueue Kernel RtDomain RtInv EdfDomain Pfair PfairSub PfairInv PfairLink PfairTop PfairQuantum.
Open Scope Z_scope.

(** What handlers leave alone *)
Definition vitals (x : task_struct) := (pid x, is_realtime x, linked_on x, scheduled_on x, present x).
Definition globals (g : fstate) := (merge_time g, num_online_cpus g, pfair_time g).
Definition identity (s : pfair_state) := (s_cpu s, offset s).

Section Advance.
Context {Q : Type -> Type} `{PrioQueueLaws Q}.
Abbreviation world := (world Q fstate).
Abbreviation K := (M world).
Implicit Types (w : world) (t : tid) (c d : Z).
Abbreviation pars w := (params (plugin w)).
Abbreviation ok w t := (pfair_ok (pars w) (tasks w) t).
Abbreviation cpu w c := (cpu_ok (plugin w) c = true).
Abbreviation prm w t := (param_of (pars w) t).

Record kept w w' : Prop := {
  kp_vitals x : vitals (tasks w' x) = vitals (tasks w x);
  kp_globals : globals (plugin w') = globals (plugin w);
  kp_identity c : identity (pstate (plugin w') c) = identity (pstate (plugin w) c);
  kp_curr : curr w' = curr w /\ this_cpu w' = this_cpu w;
  kp_period : tick_period w' = tick_period w
}.

#[export] Instance kept_preorder : PreOrder kept.
Proof.
  split; [done|]. intros w1 w2 w3 [H1 G1 I1 [C1 M1] ?] [H2 G2 I2 [C2 M2] ?].
  split; [intros x; by rewrite H2|by rewrite G2|intros c; by rewrite I2|split; congruence|congruence].
Qed.

Lemma kept_merge w w' : kept w w' -> merge_time (plugin w') = merge_time (plugin w).
Proof. intros Kw. by injection (kp_globals _ _ Kw). Qed.
Lemma kept_cpu w w' c : kept w w' -> cpu_ok (plugin w') c = cpu_ok (plugin w) c.
Proof. intros Kw. injection (kp_globals _ _ Kw) as _ E _. unfold cpu_ok. by rewrite E. Qed.
Lemma kept_present w w' x : kept w w' -> present (tasks w' x) = present (tasks w x).
Proof. intros Kw. pose proof (kp_vitals _ _ Kw x) as V. unfold vitals in V. congruence. Qed.
Lemma kept_sched w w' x : kept w w' -> scheduled_on (tasks w' x) = scheduled_on (tasks w x).
Proof. intros Kw. pose proof (kp_vitals _ _ Kw x) as V. unfold vitals in V. congruence. Qed.

Lemma touched_kept t w w' : touched t w w' -> kept w w'.
Proof.
  intros T. split; [|by apply (tc_field globals t)|intros c; by rewrite (tc_field pstate t w w')|apply T|apply T].
  intros x. destruct (decide (x = t)) as [->|Hx]; [|by rewrite (tc_task _ _ _ T)].
  unfold vitals. by destruct (tc_fields _ _ _ T) as (-> & -> & _ & -> & -> & ->).
Qed.

Lemma core_vitals x y : core x = core y -> vitals x = vitals y.
Proof. by apply (core_field vitals). Qed.

Lemma dropped_kept t w w' : dropped t w w' -> kept w w'.
Proof.
  intros D. split; [intros x; apply core_vitals, D|by apply (dropped_field globals t)| |apply D|apply D].
  intros c. rewrite (dr_state _ _ _ D). by case_match.
Qed.

Lemma env_kept w w' : same_env w w' -> kept w w'.
Proof. intros E. split; [intros x; apply core_vitals, E|by rewrite (se_plugin _ _ E)|by rewrite (se_plugin _ _ E)|split; apply E|apply E]. Qed.
Lemma moved_kept t p w w' : moved t p w w' -> kept w w'.
Proof. intros M. apply env_kept, M. Qed.

(** [x] completes its last subtask and is not present. *)
Definition leaves w x : Prop := next_cur (prm w x) = 0 /\ present (tasks w x) = false.

(** What [advance_linked] does about the task [l] linked to [c] *)
Record moved_on (time : Z) c l w w' : Prop := {
  mo_inv : finv_at time w';
  mo_kept : kept w w';
  mo_lk c' : cpu w c' -> c' <> c -> lk w' c' = lk w c';
  mo_param : pars w' l = advanced time c (present (tasks w l)) <$> pars w l;
  mo_other x : x <> l -> pars w' x = pars w x;
  mo_members x : fmember w' x <-> fmember w x /\ (x = l -> ~ leaves w l)
}.

(** ** A task that stays *)

Lemma past_window time p : good_param p -> 0 <= time < two62 -> time_after (cur_release p) time = (time <? release_of p).
Proof.
  intros Hg Ht. destruct (cur_values p Hg) as (_ & -> & _ & Hb & Hb2 & _). unfold time_after.
  fold (lt_before time (release_of p)). apply lt_before_window. unfold two62, two63 in *. lia.
Qed.

(** The new job, if there is one *)
Lemma new_job_spec time c l p w (Φ : unit -> world -> Prop) :
  pars w l = Some (set_cur (next_cur p) (set_last time c p)) -> (next_cur p = 0 -> present (tasks w l) = true) ->
  (forall w', touched l w w' -> pars w' l = Some (advanced time c (present (tasks w l)) p) -> Φ tt w') ->
  wp (when (next_cur p =? 0)
       (upd_task l (fun x => set_rt_flags RT_F_RUNNING (prepare_for_next_period x));;
        upd_param l (fun p => set_p_release (u64 (p_release p + p_period p)) p))) Φ w.
Proof.
  intros Hp Hpr HΦ. apply wp_when. unfold advanced in HΦ. destruct (Z.eqb_spec (next_cur p) 0) as [E|E].
  - rewrite (Hpr E) in HΦ. wp_steps. apply job_spec; [done|]. intros w1 T1 Eg1 _. eapply param_spec; [by rewrite Eg1|].
    intros w2 T2 E2 _. apply HΦ; [by transitivity w1|done].
  - by apply HΦ.
Qed.

Lemma advance_stays time c l p w (Φ : bool -> world -> Prop) :
  pars w l = Some p -> good_param p -> p_release p + p_period p < two62 -> 0 <= time < two62 -> ~ leaves w l ->
  (forall w', touched l w w' -> pars w' l = Some (advanced time c (present (tasks w l)) p) ->
     Φ (time <? release_of (advanced time c (present (tasks w l)) p)) w') ->
  wp (upd_param l (set_last time c)) (fun _ => wp (advance_subtask time l c) Φ) w.
Proof.
  intros Hp Hg Hb Ht Hl HΦ. assert (prm w l = p) as Ep by (unfold param_of; by rewrite Hp).
  eapply param_spec; [exact Hp|]. intros w1 T1 E1 Et1. unfold advance_subtask. wp_steps. unfold tsk_pfair at 1. wp_steps.
  exists (set_last time c p). split; [done|]. pose proof (gp_weight _ Hg) as He. change (quanta (set_last time c p)) with (quanta p).
  rewrite (proj2 (Z.eqb_neq (quanta p) 0)) by lia. wp_steps. eapply param_spec; [exact E1|]. intros w2 T2 E2 Et2. unfold get_task. wp_steps.
  change (u64 (cur (set_last time c p) + 1) `mod` quanta p) with (next_cur p) in *.
  assert (present (tasks w2 l) = present (tasks w l)) as Epr by (by rewrite Et2, Et1). rewrite <- Epr in HΦ.
  assert (next_cur p = 0 -> present (tasks w2 l) = true) as Hpr.
  { intros E. rewrite Epr. destruct (present (tasks w l)) eqn:E'; [done|]. destruct Hl. unfold leaves. by rewrite Ep. }
  assert ((next_cur p =? 0) && negb (present (tasks w2 l)) = false) as ->.
  { destruct (Z.eqb_spec (next_cur p) 0); [by rewrite Hpr|done]. }
  wp_steps. eapply new_job_spec; [exact E2|exact Hpr|]. intros w3 T3 E3. unfold tsk_pfair. wp_steps. exists (advanced time c (present (tasks w2 l)) p).
  split; [done|]. wp_steps. rewrite past_window by (done || by apply advanced_good). apply HΦ; [|done]. transitivity w1; [done|by transitivity w2].
Qed.

(** ** A task that leaves *)

Lemma advance_leaves time c l p w (Φ : bool -> world -> Prop) :
  finv_at time w -> cpu w c -> lk w c = Some l -> pars w l = Some p -> leaves w l ->
  (forall w1 w2 w', touched l w w1 -> dropped l w1 w2 -> touched l w2 w' -> pars w' l = Some (advanced time c (present (tasks w l)) p) ->
     finv_at time w2 -> in_heap (tasks w2 l) = false -> (forall c, cpu w2 c -> lk w2 c <> Some l) -> Φ false w') ->
  wp (upd_param l (set_last time c)) (fun _ => wp (advance_subtask time l c) Φ) w.
Proof.
  intros Hi Hc Hlk Hp [Hn Hpr] HΦ. assert (prm w l = p) as Ep by (unfold param_of; by rewrite Hp). rewrite Ep in Hn.
  destruct (fi_link _ _ Hi c l Hc Hlk) as (Hh & (Hrt & p' & Hp' & Hg) & _ & Hr).
  assert (p' = p) as -> by congruence. unfold rel in Hr. rewrite Ep in Hr.
  eapply param_spec; [exact Hp|]. intros w1 T1 E1 Et1. unfold advance_subtask. wp_steps. unfold tsk_pfair at 1. wp_steps.
  exists (set_last time c p). split; [done|]. pose proof (gp_weight _ Hg) as He. change (quanta (set_last time c p)) with (quanta p).
  rewrite (proj2 (Z.eqb_neq (quanta p) 0)) by lia. wp_steps. eapply param_spec; [exact E1|]. intros w2 T2 E2 Et2. unfold get_task. wp_steps.
  change (u64 (cur (set_last time c p) + 1) `mod` quanta p) with (next_cur p) in *. rewrite Et2, Et1, Hpr, Hn. simpl. wp_steps.
  rewrite Hn in E2. assert (touched l w w2) as T by (by transitivity w1). set (p2 := set_cur 0 (set_last time c p)) in *.
  assert (good_param p2) as Hg2 by (destruct Hg; split; try done; simpl; lia).
  assert (release_of p2 <= release_of p) as Hr2.
  { pose proof (wi_release _ _ _ _ (cur_window p2 Hg2)) as Er2. pose proof (cur_bounds p Hg) as Hb. unfold release_of. rewrite Er2.
    simpl. rewrite Z.div_0_l by lia. lia. }
  assert (finv_at time w2) as Hi2.
  { eapply touched_finv; [exact Hi|done|exact T|]. intros _. split; [split; [by rewrite Et2, Et1|by exists p2]|].
    unfold rel, param_of. rewrite E2. simpl. lia. }
  eapply wp_mono; [exact (drop_spec time l w2 Hi2)|]. intros [] w3 D. cbv beta in D. destruct (dropped_finv time l w2 w3 Hi2 D) as (Hi3 & Hh3 & Hno3).
  wp_steps. eapply param_spec; [by rewrite (dropped_field params l w2 w3 D)|]. intros w4 T4 E4 _. wp_steps.
  apply (HΦ w2 w3 w4); try done. rewrite E4. unfold advanced. by rewrite Hpr, Hn.
Qed.

(** ** One processor *)

Lemma left_moved_on time c l p w w1 w2 w' :
  finv_at time w -> cpu w c -> lk w c = Some l -> pars w l = Some p -> leaves w l ->
  touched l w w1 -> dropped l w1 w2 -> touched l w2 w' -> pars w' l = Some (advanced time c (present (tasks w l)) p) ->
  finv_at time w2 -> in_heap (tasks w2 l) = false -> (forall c, cpu w2 c -> lk w2 c <> Some l) -> moved_on time c l w w'.
Proof.
  intros Hi Hc Hlk Hp Hl T1 D T2 E Hi2 Hh2 Hno. pose proof (touched_kept _ _ _ T1) as K1. pose proof (dropped_kept _ _ _ D) as KD.
  assert (kept w w2) as K2 by (by transitivity w1). assert (kept w w') as Kw by (transitivity w2; [done|by eapply touched_kept]).
  assert (forall c', cpu w c' -> lk w' c' = forget l (lk w c')) as El.
  { intros c' Hc'. rewrite (tc_lk _ _ _ c' T2), (dropped_lk _ _ _ c' D), (tc_lk _ _ _ c' T1); [done|]. by rewrite (kept_cpu _ _ _ K1). }
  assert (forall x q, at_place w' x q <-> at_place w x q /\ x <> l) as Ea.
  { intros x q. rewrite (tc_at l w2 w') by done. rewrite (dr_at _ _ _ D), (tc_at l w w1) by done. done. }
  split.
  - destruct (touched_qinv l w2 w' (finv_qinv _ _ Hi2) Hh2 T2) as [Hd Hpi Hq]. split; [done..| |].
    + intros c' x. rewrite (tc_lk _ _ _ c' T2), (tc_field (fun g => cpu_ok g c') l w2 w') by done. intros Hc' Ex.
      assert (x <> l) as Hne by (intros ->; by eapply Hno). destruct (fi_link _ _ Hi2 c' x Hc' Ex) as (Hx & Hok & Hon & Hr).
      rewrite (tc_heap l w2 w'), (tc_task _ _ _ T2), (tc_rel l w2 w') by done. split_and!; [done|by eapply tc_ok|done|done].
    + rewrite (tc_field merge_time l w2 w') by done. apply (fi_merge _ _ Hi2).
  - done.
  - intros c' Hc' Hne. rewrite (El c' Hc'). unfold forget. rewrite decide_False; [done|]. intros Ex. apply Hne. by eapply (pf_linked_once time w c' c l).
  - by rewrite E, Hp.
  - intros x Hx. by rewrite (tc_param _ _ _ T2), (dropped_field params l w1 w2 D), (tc_param _ _ _ T1).
  - intros x. unfold fmember. split.
    + intros [(c' & Hc' & Ex)|[q Hq]].
      * rewrite (kept_cpu _ _ _ Kw) in Hc'. rewrite (El c' Hc') in Ex. apply forget_some in Ex as [Ex Hne]. split; [left; by exists c'|done].
      * apply Ea in Hq as [Hq Hne]. split; [right; by exists q|done].
    + intros [Hm Hne]. assert (x <> l) as Hx by (intros ->; by apply Hne). destruct Hm as [(c' & Hc' & Ex)|[q Hq]].
      * left. exists c'. rewrite (kept_cpu _ _ _ Kw), (El c' Hc'). split; [done|]. unfold forget. by rewrite decide_False by congruence.
      * right. exists q. by apply Ea.
Qed.

(** [l] goes to the release wheel. *)
Lemma wheel_moved_on time c l p w w1 w' :
  finv_at time w -> cpu w c -> lk w c = Some l -> pars w l = Some p -> ~ leaves w l -> touched l w w1 ->
  pars w1 l = Some (advanced time c (present (tasks w l)) p) -> finv_at time w' ->
  moved l (Some (PReady (relq (rel (link_to c None w1) l)))) (link_to c None w1) w' -> moved_on time c l w w'.
Proof.
  intros Hi Hc Hlk Hp Hl T E Hi' M. pose proof (touched_kept _ _ _ T) as K1. pose proof (se_plugin _ _ (mv_env _ _ _ _ M)) as Epl.
  assert (kept w w') as Kw.
  { transitivity w1; [done|]. transitivity (link_to c None w1); [split; try done; intros c'; simpl; unfold upd; case_decide; by subst|]. by eapply moved_kept. }
  assert (forall c', lk w' c' = upd (lk w) c None c') as El.
  { intros c'. unfold lk. rewrite Epl. simpl. unfold upd. case_decide; [done|]. apply (tc_lk l w w1 c' T). }
  split; [done|done|..].
  - intros c' Hc' Hne. by rewrite El, upd_ne.
  - rewrite Epl. simpl. by rewrite E, Hp.
  - intros x Hx. rewrite Epl. simpl. by rewrite (tc_param _ _ _ T).
  - intros x. unfold fmember. assert (forall q, at_place w' x q <-> if decide (x = l) then q = PReady (relq (rel (link_to c None w1) l)) else at_place w x q) as Ea.
    { intros q. rewrite (mv_at _ _ _ _ M). case_decide; [naive_solver|]. change (at_place (link_to c None w1) x q) with (at_place w1 x q). by apply (tc_at l). }
    destruct (decide (x = l)) as [->|Hne].
    + split; [intros _; split; [left; by exists c|done]|]. intros _. right. eexists. by apply Ea.
    + split; [intros Hm; split; [|done]|intros [Hm _]]; (destruct Hm as [(c' & Hc' & Ex)|[q Hq]]; [left|right; exists q; by apply Ea]).
      * exists c'. rewrite (kept_cpu _ _ _ Kw) in Hc'. rewrite El in Ex. unfold upd in Ex. case_decide; done.
      * exists c'. rewrite (kept_cpu _ _ _ Kw), El, upd_ne by congruence. done.
Qed.

(** [l] stays linked. *)
Lemma stay_moved_on time c l p w w' :
  finv_at time w' -> pars w l = Some p -> ~ leaves w l -> touched l w w' ->
  pars w' l = Some (advanced time c (present (tasks w l)) p) -> moved_on time c l w w'.
Proof.
  intros Hi' Hp Hl T E. pose proof (touched_kept _ _ _ T) as Kw. split; [done|done|..].
  - intros c' _ _. by apply (tc_lk l).
  - by rewrite E, Hp.
  - apply T.
  - intros x. unfold fmember. split.
    + intros Hm. split; [|done]. destruct Hm as [(c' & Hc' & Ex)|[q Hq]]; [left; exists c'|right; exists q; by apply (tc_at l w w')].
      by rewrite (kept_cpu _ _ _ Kw) in Hc'; rewrite (tc_lk _ _ _ c' T) in Ex.
    + intros [Hm _]. destruct Hm as [(c' & Hc' & Ex)|[q Hq]]; [left; exists c'|right; exists q; by apply (tc_at l w w')].
      by rewrite (kept_cpu _ _ _ Kw), (tc_lk _ _ _ c' T).
Qed.

(** [l] has lost its link and its window is still to come. *)
Lemma unlinked_finv time c l w w1 :
  finv_at time w -> cpu w c -> lk w c = Some l -> touched l w w1 ->
  finv_at time (link_to c None w1) /\ forall c', cpu (link_to c None w1) c' -> lk (link_to c None w1) c' <> Some l.
Proof.
  intros Hi Hc Hlk T. destruct (fi_link _ _ Hi c l Hc Hlk) as (Hh & _). pose proof (touched_qinv l w w1 (finv_qinv _ _ Hi) Hh T) as Hq1.
  destruct (link_to_qinv c None w1 Hq1) as [Hd Hp Hq].
  assert (forall c', lk (link_to c None w1) c' = upd (lk w) c None c') as El.
  { intros c'. unfold lk. simpl. unfold upd. case_decide; [done|]. apply (tc_lk l w w1 c' T). }
  assert (forall c', cpu_ok (plugin (link_to c None w1)) c' = cpu_ok (plugin w) c') as Ec.
  { intros c'. exact (tc_field (fun g => cpu_ok g c') l w w1 T (fun _ _ => eq_refl)). }
  assert (forall c' x, cpu w c' -> upd (lk w) c None c' = Some x -> lk w c' = Some x /\ x <> l) as Hu.
  { intros c' x Hc' Ex. unfold upd in Ex. case_decide as E; [done|]. split; [done|]. intros ->. apply E. by eapply pf_linked_once. }
  split; [split; [done..| |]|].
  - intros c' x. rewrite El, Ec. intros Hc' Ex. destruct (Hu c' x Hc' Ex) as [Ex' Hne]. destruct (fi_link _ _ Hi c' x Hc' Ex') as (Hx & Hok & Hon & Hr).
    change (tasks (link_to c None w1)) with (tasks w1). change (rel (link_to c None w1) x) with (rel w1 x).
    rewrite (tc_heap l w w1), (tc_task _ _ _ T), (tc_rel l w w1) by done. split_and!; [done|exact (tc_ok l w w1 x T Hne Hok)|done|done].
  - change (merge_time (plugin (link_to c None w1))) with (merge_time (plugin w1)). rewrite (tc_field merge_time l w w1) by done. apply (fi_merge _ _ Hi).
  - intros c'. rewrite El, Ec. intros Hc' Ex. by destruct (Hu c' l Hc' Ex).
Qed.

Lemma advanced_present time c b p : (next_cur p = 0 -> b = true) -> advanced time c b p = advanced time c true p.
Proof. intros Hb. unfold advanced. destruct (Z.eqb_spec (next_cur p) 0); [by rewrite Hb|done]. Qed.

Lemma advance_linked_spec time c l w :
  finv_at time w -> time = merge_time (plugin w) + 1 -> time + PFAIR_MAX_PERIOD < two62 -> cpu w c -> lk w c = Some l ->
  rel w l <= merge_time (plugin w) -> wp (advance_linked time c) (fun _ w' => moved_on time c l w w') w.
Proof.
  intros Hi Ht Hb Hc Hlk Hr. destruct (fi_link _ _ Hi c l Hc Hlk) as (Hh & (Hrt & p & Hp & Hg) & Hon & _).
  assert (rel w l = release_of p) as Er by (unfold rel, param_of; by rewrite Hp). pose proof (cur_bounds p Hg) as Hcb.
  assert (p_release p + p_period p < two62 /\ p_period p < PFAIR_MAX_PERIOD) as [Hpb Hper].
  { destruct Hg as [? Hpp ? ? ?]. unfold release_of in Er. split; [lia|done]. }
  destruct (fi_merge _ _ Hi) as [Hm Htb].
  unfold advance_linked. wp_steps. apply get_pstate_spec; [done|]. fold (lk w c). rewrite Hlk. wp_steps.
  eapply (wp_mono _ (fun _ => wp (advance_subtask time l c) (fun b => wp (when b (upd_pstate c (set_p_linked None);; pfair_add_release l))
    (fun _ w' => moved_on time c l w w')))); [|by intros [] w1 Hw1; wp_steps].
  assert (leaves w l \/ ~ leaves w l) as [Hl|Hl].
  { unfold leaves. destruct (Z.eq_dec (next_cur (prm w l)) 0), (present (tasks w l)); naive_solver. }
  - eapply advance_leaves; [exact Hi|exact Hc|exact Hlk|exact Hp|done|]. intros w1 w2 w' T1 D T2 E Hi2 Hh2 Hno. apply wp_when.
    by eapply left_moved_on.
  - eapply advance_stays; [exact Hp|done|done|lia|done|]. intros w1 T E. apply wp_when.
    assert (next_cur p = 0 -> present (tasks w l) = true) as Hpr.
    { intros En. destruct (present (tasks w l)) eqn:E'; [done|]. destruct Hl. unfold leaves, param_of. by rewrite Hp. }
    pose proof (advanced_release time c p Hg Hpb) as Hadv. pose proof (advanced_good time c (present (tasks w l)) p Hg Hpb) as Hga.
    rewrite (advanced_present time c _ p Hpr) in *. set (p' := advanced time c true p) in *.
    assert (rel w1 l = release_of p') as Er1 by (unfold rel, param_of; by rewrite E).
    assert (ok w1 l) as Hok1.
    { split; [destruct (tc_fields _ _ _ T) as (_ & -> & _); done|by exists p']. }
    destruct (Z.ltb_spec time (release_of p')) as [Hlt|Hle].
    + destruct (unlinked_finv time c l w w1 Hi Hc Hlk T) as [Hi2 Hno2]. wp_steps.
      apply link_to_spec; [by rewrite (tc_field (fun g => cpu_ok g c) l w w1)|].
      eapply wp_mono; [apply (add_release_f time l (link_to c None w1)); try done|].
      * change (in_heap (tasks w1 l) = false). by rewrite (tc_heap l w w1).
      * change (merge_time (plugin w1) < rel w1 l <= merge_time (plugin w1) + PFAIR_MAX_PERIOD). rewrite (tc_field merge_time l w w1) by done. lia.
      * intros _ w2 [Hi3 M]. eapply (wheel_moved_on time c l p w w1); try done. by rewrite (advanced_present time c _ p Hpr).
    + apply (stay_moved_on time c l p); try done; [|by rewrite (advanced_present time c _ p Hpr)].
      eapply touched_finv; [exact Hi|done|exact T|]. intros _. split; [done|]. lia.
Qed.

(** ** All processors *)

(** The processors below [k] have been considered. *)
Record adv (time k : Z) w0 w : Prop := {
  ad_inv : finv_at time w;
  ad_kept : kept w0 w;
  ad_lk c : cpu w0 c -> k <= c -> lk w c = lk w0 c;
  ad_param c x : cpu w0 c -> c < k -> lk w0 c = Some x -> pars w x = advanced time c (present (tasks w0 x)) <$> pars w0 x;
  ad_other x : (forall c, cpu w0 c -> c < k -> lk w0 c <> Some x) -> pars w x = pars w0 x;
  ad_members x : fmember w x <-> fmember w0 x /\ ~ exists c, cpu w0 c /\ c < k /\ lk w0 c = Some x /\ leaves w0 x
}.

Lemma adv_skip time k w0 w : lk w0 k = None -> adv time k w0 w -> adv time (k + 1) w0 w.
Proof.
  intros En [Hi Kw Hlk Hpa Hot Hm]. assert (forall c x, c < k + 1 -> lk w0 c = Some x -> c < k) as Hlt.
  { intros c x Hc Ex. destruct (decide (c = k)); [congruence|lia]. }
  split; try done.
  - intros c Hc Hk. apply Hlk; [done|lia].
  - intros c x Hc Hk Ex. eapply Hpa; eauto.
  - intros x Hx. apply Hot. intros c Hc Hk. apply Hx; [done|lia].
  - intros x. rewrite Hm. apply and_iff_compat_l. split; intros Hn (c & Hc & Hk & Ex & Hl); apply Hn; exists c; split_and!; eauto; lia.
Qed.

Lemma adv_step time k l w0 w w' :
  finv_at time w0 -> cpu w0 k -> lk w0 k = Some l -> adv time k w0 w -> moved_on time k l w w' -> adv time (k + 1) w0 w'.
Proof.
  intros Hi0 Hk Hl A Mo. pose proof A as [Hi Kw Hlk Hpa Hot Hm]. destruct Mo as [Hi' Kw' Hlk' Hpa' Hot' Hm'].
  assert (forall c, cpu w0 c -> lk w0 c = Some l -> c = k) as Honce by (intros c Hc Ex; exact (pf_linked_once time w0 c k l Hi0 Hc Hk Ex Hl)).
  assert (pars w l = pars w0 l) as El by (apply Hot; intros c Hc Hlt Ex; specialize (Honce c Hc Ex); lia).
  assert (leaves w l <-> leaves w0 l) as Hlv by (unfold leaves, param_of; by rewrite El, (kept_present w0 w)).
  split.
  - done.
  - by transitivity w.
  - intros c Hc Hk'. rewrite Hlk', Hlk; [done|done|lia|by rewrite (kept_cpu _ _ _ Kw)|lia].
  - intros c x Hc Hlt Ex. destruct (decide (x = l)) as [->|Hne].
    + rewrite (Honce c Hc Ex). by rewrite Hpa', El, (kept_present w0 w).
    + rewrite Hot' by done. apply Hpa; [done| |done]. destruct (decide (c = k)); [congruence|lia].
  - intros x Hx. assert (x <> l) as Hne by (intros ->; apply (Hx k); [done|lia|done]). rewrite Hot' by done. apply Hot. intros c Hc Hlt. apply Hx; [done|lia].
  - intros x. rewrite Hm', Hm. split.
    + intros [[Hx Hn] Hxl]. split; [done|]. intros (c & Hc & Hlt & Ex & Hlx). destruct (decide (c = k)) as [->|Hne].
      * assert (x = l) as -> by congruence. apply Hxl; [done|]. by apply Hlv.
      * apply Hn. exists c. split_and!; try done. lia.
    + intros [Hx Hn]. split_and!; [done| |].
      * intros (c & Hc & Hlt & Ex & Hlx). apply Hn. exists c. split_and!; try done. lia.
      * intros ->. rewrite Hlv. intros Hlx. apply Hn. exists k. split_and!; try done. lia.
Qed.

Lemma adv_spec time k m w0 w :
  finv w0 -> time = merge_time (plugin w0) + 1 -> time + PFAIR_MAX_PERIOD < two62 -> (k + m = num_online_cpus (plugin w0))%nat ->
  adv time (Z.of_nat k) w0 w ->
  wp (each_cpu (advance_linked time) (Z.of_nat <$> seq k m)) (fun _ w' => adv time (Z.of_nat (k + m)) w0 w') w.
Proof.
  intros Hi0 Ht Hb. assert (finv_at time w0) as Hi0'.
  { destruct Hi0 as [? ? ? Hl [? ?]]. split; try done; [|unfold PFAIR_MAX_PERIOD in *; lia]. intros c t Hc Ex. destruct (Hl c t Hc Ex) as (? & ? & ? & ?). split_and!; [done..|lia]. }
  revert k w. induction m as [|m IH]; intros k w Hkm A; [rewrite Nat.add_0_r; simpl; by wp_steps|]. simpl. wp_steps.
  assert (cpu w0 (Z.of_nat k)) as Hc by (unfold cpu_ok; apply andb_true_iff; rewrite Z.leb_le, Z.ltb_lt; lia).
  eapply (wp_mono _ (fun _ w1 => adv time (Z.of_nat k + 1) w0 w1)).
  - destruct (lk w0 (Z.of_nat k)) as [l|] eqn:El.
    + destruct (fi_link _ _ Hi0 (Z.of_nat k) l Hc El) as (_ & _ & _ & Hr).
      assert (pars w l = pars w0 l) as Epa.
      { apply (ad_other _ _ _ _ A). intros c Hc' Hlt Ex. assert (c = Z.of_nat k) by exact (pf_linked_once time w0 c _ l Hi0' Hc' Hc Ex El). lia. }
      eapply wp_mono; [apply (advance_linked_spec time (Z.of_nat k) l w)|intros [] w1 Hmo; exact (adv_step time _ l w0 w w1 Hi0' Hc El A Hmo)].
      * apply A.
      * by rewrite (kept_merge _ _ (ad_kept _ _ _ _ A)).
      * done.
      * by rewrite (kept_cpu _ _ _ (ad_kept _ _ _ _ A)).
      * by rewrite (ad_lk _ _ _ _ A).
      * unfold rel, param_of. rewrite Epa, (kept_merge _ _ (ad_kept _ _ _ _ A)). exact Hr.
    + unfold advance_linked. wp_steps. apply get_pstate_spec; [by rewrite (kept_cpu _ _ _ (ad_kept _ _ _ _ A))|].
      fold (lk w (Z.of_nat k)). rewrite (ad_lk _ _ _ _ A), El by (done || lia). wp_steps. by apply adv_skip.
  - intros _ w1 A1. replace (k + S m)%nat with (S k + m)%nat by lia. apply IH; [lia|]. by replace (Z.of_nat (S k)) with (Z.of_nat k + 1) by lia.
Qed.
End Advance.
