(* ===== verification/PfairNext.v ===== *)
(** * PD^2: [schedule_next_quantum] *)

From S2P Require Import Prelude Task Edf PrioQueue Kernel RtDomain RtInv EdfDomain.
From S2P Require Import Pfair PfairSub PfairInv PfairLink PfairTop PfairQuantum PfairAdvance.
Open Scope Z_scope.

Section Next.
Context {Q : Type -> Type} `{PrioQueueLaws Q}.
Abbreviation world := (world Q fstate).
Abbreviation K := (M world).
Implicit Types (w : world) (t : tid) (c d : Z).
Abbreviation pars w := (params (plugin w)).
Abbreviation ok w t := (pfair_ok (pars w) (tasks w) t).
Abbreviation cpu w c := (cpu_ok (plugin w) c = true).
Abbreviation prm w t := (param_of (pars w) t).

(** ** Merging a heap of the wheel into the ready queue *)

Definition merged (q : Z) w : world :=
  set_doms (upd (upd (doms w) PFAIR (set_ready_queue (pq_union (pfair_ready_order (pars w) (tasks w)) (ready_queue (doms w PFAIR)) (ready_queue (doms w q))) (doms w PFAIR)))
    q (set_ready_queue pq_init (doms w q))) w.

Lemma merge_queue_spec q w (Φ : unit -> world -> Prop) : q <> PFAIR -> Φ tt (merged q w) -> wp (merge_queue q) Φ w.
Proof.
  intros Hq HΦ. unfold merge_queue, get_dom, upd_dom. wp_steps. unfold merged in HΦ.
  match goal with |- Φ _ (set_doms (upd _ _ (set_ready_queue _ ?r)) _) => replace r with (doms w q) by (simpl; by rewrite upd_ne) end. exact HΦ.
Qed.

Lemma merged_ready q w d : q <> PFAIR ->
  ready_elems (merged q w) d ≡ₚ if decide (d = q) then [] else if decide (d = PFAIR) then ready_elems w PFAIR ++ ready_elems w q else ready_elems w d.
Proof.
  intros Hq. unfold ready_elems. simpl. unfold upd. case_decide as E1; [simpl; by rewrite pq_init_elems|]. case_decide as E2; [|done].
  simpl. apply pq_union_elems.
Qed.

Lemma merged_at q w x p : q <> PFAIR ->
  at_place (merged q w) x p <-> p <> PReady q /\ (at_place w x p \/ p = PReady PFAIR /\ at_place w x (PReady q)).
Proof.
  intros Hq. destruct p as [d|d o]; [|simpl; naive_solver]. unfold at_place. rewrite (merged_ready q w d Hq). case_decide as E1; [|case_decide as E2].
  - subst. split; [by intros ?%elem_of_nil|by intros [? _]].
  - subst. rewrite elem_of_app. split; [intros Hx; split; [congruence|]|intros [_ Hx]]; naive_solver.
  - split; [intros Hx; split; [congruence|by left]|]. intros [_ [Hx|[E _]]]; [done|congruence].
Qed.

Lemma merged_dom q w : fdom w -> q <> PFAIR -> fdom (merged q w).
Proof.
  intros Hd Hq. pose proof (merged_at q w) as Ha. pose proof (pfair_swo (pars w) (tasks w)) as Hswo. pose proof Hd as [U Hh N1 N2 Sl So Ow Ti Wi Tb W1 W2].
  assert (forall d, release_queue (doms (merged q w) d) = release_queue (doms w d) /\ tobe_released (doms (merged q w) d) = tobe_released (doms w d)) as Hr.
  { intros d. simpl. unfold upd. case_decide; [subst; done|]. case_decide; subst; done. }
  split; try done.
  - intros t p p'. rewrite !Ha by done. intros [Hp1 [Hp|[-> Hp]]] [Hp2 [Hp'|[-> Hp']]]; [by eapply U| | |done];
      exfalso; [apply Hp1|apply Hp2]; by eapply U.
  - intros t. change (tasks (merged q w) t) with (tasks w t). rewrite Hh. split.
    + intros [p Hp]. destruct (decide (p = PReady q)) as [->|]; [exists (PReady PFAIR); apply Ha; [done|]; split; [congruence|by right]|].
      exists p. apply Ha; auto.
    + intros (p & [_ [Hp|[_ Hp]]]%Ha); eauto.
  - intros d. rewrite (merged_ready q w d Hq). case_decide; [constructor|]. case_decide; [|apply N1]. apply NoDup_app. split_and!; [apply N1| |apply N1].
    intros x Hx Hx'. assert (PReady PFAIR = PReady q) as E by (by eapply (U x)). congruence.
  - intros d i o. destruct (Hr d) as [-> _]. apply Sl.
  - intros d i. destruct (Hr d) as [-> _]. apply So.
  - intros d. destruct (Hr d) as [_ ->]. apply Tb.
  - intros d. simpl. unfold upd. case_decide; [simpl; apply pq_init_wf|]. case_decide; [|apply W1]. simpl. by apply pq_union_wf.
Qed.

(** Only tasks with this release time are in the heap. *)
Lemma relq_time m r time : m < r <= m + PFAIR_MAX_PERIOD -> m < time <= m + PFAIR_MAX_PERIOD -> relq r = relq time -> r = time.
Proof.
  unfold relq, PFAIR_MAX_PERIOD. intros Hr Ht E.
  pose proof (Z.div_mod r 2000 ltac:(lia)). pose proof (Z.div_mod time 2000 ltac:(lia)). nia.
Qed.

Lemma poll_spec time w (Φ : unit -> world -> Prop) :
  finv_at time w -> time = merge_time (plugin w) + 1 ->
  (forall w', finv w' -> (forall x, fmember w' x <-> fmember w x) -> tasks w' = tasks w -> plugin w' = set_merge_time time (plugin w) -> curr w' = curr w -> tick_period w' = tick_period w -> Φ tt w') ->
  wp (poll_releases time) Φ w.
Proof.
  intros Hi Ht HΦ. unfold poll_releases, upd_state. wp_steps. apply merge_queue_spec; [apply relq_not_ready|]. wp_steps.
  set (q := relq time). set (w' := set_plugin _ (merged q w)). assert (q <> PFAIR) as Hq by apply relq_not_ready.
  assert (forall x p, at_place w' x p <-> p <> PReady q /\ (at_place w x p \/ p = PReady PFAIR /\ at_place w x (PReady q))) as Ha.
  { intros x p. change (at_place w' x p) with (at_place (merged q w) x p). by apply merged_at. }
  apply HΦ; [|..|done|done|done|done].
  - unfold finv. change (merge_time (plugin w')) with time. split.
    + pose proof (merged_dom q w (fi_dom _ _ Hi) Hq) as Hd. destruct Hd. split; assumption.
    + apply (fi_pids _ _ Hi).
    + intros x p [Hp Hx]%Ha. change (rel w' x) with (rel w x). change (merge_time (plugin w')) with time.
      assert (forall p, at_place w x p -> p = PReady PFAIR /\ rel w x <= time \/ p = PReady (relq (rel w x)) /\
        (time < rel w x <= time + PFAIR_MAX_PERIOD \/ rel w x = time)) as Hc.
      { intros p' [[-> ?]|[-> ?]]%(fi_queue _ _ Hi); [left; split; [done|lia]|right; split; [done|lia]]. }
      destruct Hx as [Hx|[-> Hx]].
      * destruct (Hc p Hx) as [?|[-> [?|E]]]; [by left|by right|]. by rewrite E in Hp.
      * left. split; [done|]. destruct (fi_queue _ _ Hi x _ Hx) as [[E _]|[E Hr]]; [congruence|]. injection E as E.
        assert (rel w x = time); [|lia]. eapply (relq_time (merge_time (plugin w))); [done|unfold PFAIR_MAX_PERIOD; lia|done].
    + apply (fi_link _ _ Hi).
    + change (merge_time (plugin w')) with time. destruct (fi_merge _ _ Hi). lia.
  - intros x. unfold fmember. change (lk w') with (lk w). apply or_iff_compat_l. split.
    + intros (p & [_ [Hp|[_ Hp]]]%Ha); eauto.
    + intros [p Hp]. destruct (decide (p = PReady q)) as [->|]; [exists (PReady PFAIR); apply Ha; split; [congruence|by right]|]. exists p. apply Ha; auto.
Qed.

(** ** Announcing the quantum *)

(** The processors below [k] have been told about the quantum [time]. *)
Record acked (time k : Z) w0 w : Prop := {
  ak_world : exists s, w = set_plugin (set_pstate s (plugin w0)) w0;
  ak_state c : set_missed_quanta 0 (set_cur_tick 0 (pstate (plugin w) c)) = set_missed_quanta 0 (set_cur_tick 0 (pstate (plugin w0) c));
  ak_tick c : cpu w0 c -> c < k -> cur_tick (pstate (plugin w) c) = time
}.

Lemma ack_step time k w0 w (Φ : unit -> world -> Prop) :
  cpu w0 k -> acked time k w0 w -> (forall w', acked time (k + 1) w0 w' -> Φ tt w') -> wp (ack_quantum time k) Φ w.
Proof.
  intros Hk [[s ->] Hs Ht] HΦ. unfold ack_quantum, upd_pstate, upd_state. wp_steps. apply get_pstate_spec; [done|].
  assert (forall m s', (forall c, s' c = if decide (c = k) then set_cur_tick time (set_missed_quanta m (s k)) else s c) ->
    Φ tt (set_plugin (set_pstate s' (plugin w0)) w0)) as Hend.
  { intros m s' Es. apply HΦ. split; [by eexists| |]; intros c; simpl in *; rewrite Es; case_decide as E; subst; simpl; try done; [by rewrite <- (Hs k)|].
    intros Hc Hlt. apply Ht; [done|lia]. }
  wp_steps. apply wp_when. case_match; wp_steps; repeat (apply get_pstate_spec; [done|]; wp_steps).
  - eapply (Hend _ (upd _ _ _)). intros c. simpl. unfold upd. by repeat case_decide.
  - apply (Hend (missed_quanta (s k)) (upd _ _ _)). intros c. simpl. unfold upd. case_decide; [|done]. by destruct (s k).
Qed.

Lemma ack_spec time k m w0 w :
  (k + m = num_online_cpus (plugin w0))%nat -> acked time (Z.of_nat k) w0 w ->
  wp (each_cpu (ack_quantum time) (Z.of_nat <$> seq k m)) (fun _ w' => acked time (Z.of_nat (k + m)) w0 w') w.
Proof.
  revert k w. induction m as [|m IH]; intros k w Hkm A; [rewrite Nat.add_0_r; simpl; by wp_steps|]. simpl. wp_steps.
  apply (ack_step time _ w0); [unfold cpu_ok; apply andb_true_iff; rewrite Z.leb_le, Z.ltb_lt; lia|done|].
  intros w1 A1. replace (k + S m)%nat with (S k + m)%nat by lia. apply IH; [lia|]. by replace (Z.of_nat (S k)) with (Z.of_nat k + 1) by lia.
Qed.

Lemma acked_lk time k w0 w c : acked time k w0 w -> lk w c = lk w0 c.
Proof. intros [_ Hs _]. specialize (Hs c). unfold lk. by injection Hs. Qed.

Lemma acked_finv time k w0 w : acked time k w0 w -> finv w0 -> finv w.
Proof.
  intros A Hi. pose proof (fun c => acked_lk _ _ _ _ c A) as El. destruct (ak_world _ _ _ _ A) as [s ->].
  split; try apply Hi; [destruct (fi_dom _ _ Hi); by split|]. intros c t Hc. rewrite El. by apply (fi_link _ _ Hi).
Qed.
Lemma acked_member time k w0 w x : acked time k w0 w -> fmember w x <-> fmember w0 x.
Proof.
  intros A. pose proof (fun c => acked_lk _ _ _ _ c A) as El. destruct (ak_world _ _ _ _ A) as [s ->].
  unfold fmember. apply or_iff_compat_r. by setoid_rewrite El.
Qed.

(** ** The quantum as a whole *)

(** Between quanta.  A task has parameters from its admission to its exit; a
    task that waits for a sporadic release is in no queue and not linked.  A
    task that is scheduled is the current task of its processor.  Where a task
    ran last is known of the tasks that ran in the last quantum. *)
Definition enrolled w x : Prop := pars w x <> None.

Record quantum_ok w : Prop := {
  qk_inv : finv w;
  qk_good x p : pars w x = Some p -> good_param p;
  qk_sporadic x p : pars w x = Some p -> sporadic_release p = true -> ~ fmember w x;
  qk_runs x : enrolled w x ->
    scheduled_on (tasks w x) = NO_CPU \/ cpu w (scheduled_on (tasks w x)) /\ curr w (scheduled_on (tasks w x)) = x;
  qk_last x p : pars w x = Some p -> 0 <= last_quantum p <= merge_time (plugin w);
  qk_last_cpu x p : pars w x = Some p -> last_quantum p = merge_time (plugin w) -> cpu w (last_cpu p);
  qk_last_once x p x' p' : pars w x = Some p -> pars w x' = Some p' ->
    last_quantum p = merge_time (plugin w) -> last_quantum p' = merge_time (plugin w) -> last_cpu p = last_cpu p' -> x = x';
  qk_self c : cpu w c -> s_cpu (pstate (plugin w) c) = c;
  qk_cpus : cpu_ok (plugin w) NO_CPU = false
}.

Lemma member_param time w x : finv_at time w -> fmember w x -> exists p, pars w x = Some p.
Proof.
  intros Hi [(c & Hc & El)|[p Hp]].
  - destruct (fi_link _ _ Hi c x Hc El) as (_ & (_ & q & Hq & _) & _). eauto.
  - destruct (queued_ok w x p (fi_dom _ _ Hi) Hp) as (_ & q & Hq & _). eauto.
Qed.

Lemma linked_dec w x : {exists c, cpu w c /\ lk w c = Some x} + {forall c, cpu w c -> lk w c <> Some x}.
Proof.
  destruct (decide (Some x ∈ (lk w <$> cpus (plugin w)))) as [E|E]; [left|right].
  - apply list_elem_of_fmap in E as (c & E & Hc). exists c. split; [by apply elem_cpus|done].
  - intros c Hc El. apply E, list_elem_of_fmap. exists c. split; [done|by apply elem_cpus].
Qed.

(** The parameters after the tasks that were linked have been advanced *)
Lemma adv_cases time k w0 w x p :
  (forall c, cpu w0 c -> c < k) -> adv time k w0 w -> pars w x = Some p ->
  (exists c p0, cpu w0 c /\ lk w0 c = Some x /\ pars w0 x = Some p0 /\ p = advanced time c (present (tasks w0 x)) p0) \/
  (forall c, cpu w0 c -> lk w0 c <> Some x) /\ pars w0 x = Some p.
Proof.
  intros Hk A Hp. destruct (linked_dec w0 x) as [(c & Hc & El)|Hn]; [left|right].
  - rewrite (ad_param _ _ _ _ A c x Hc (Hk c Hc) El) in Hp. destruct (pars w0 x) as [p0|] eqn:E; [|done]. exists c, p0. simpl in Hp. by simplify_eq.
  - split; [done|]. by rewrite (ad_other _ _ _ _ A) in Hp by auto.
Qed.

Lemma advanced_last time c b p : last_quantum (advanced time c b p) = time /\ last_cpu (advanced time c b p) = c.
Proof. unfold advanced. by repeat case_match. Qed.

Lemma adv_start time w : finv w -> time = merge_time (plugin w) + 1 -> time < two62 -> adv time 0 w w.
Proof.
  intros [Hd Hp Hq Hl Hm] Et Hb. assert (forall c, cpu w c -> ~ c < 0) as Hc by (intros c [Hc _]%andb_true_iff; apply Z.leb_le in Hc; lia).
  split; try done; [split; try done; [|lia]|..].
  - intros c t Hc' El. destruct (Hl c t Hc' El) as (? & ? & ? & ?). split_and!; [done..|lia].
  - intros c x Hc' Hlt. by destruct (Hc c).
  - intros x. split; [intros Hx; split; [done|]; intros (c & Hc' & Hlt & _); by destruct (Hc c)|by intros [? _]].
Qed.

Lemma homes_ext (D D' : tid -> Prop) time w w' :
  (forall x, D' x -> D x) -> (forall x, scheduled_on (tasks w' x) = scheduled_on (tasks w x)) -> pars w' = pars w ->
  num_online_cpus (plugin w') = num_online_cpus (plugin w) -> homes D time w -> homes D' time w'.
Proof.
  intros HD Es Ep En [H1 H2 H3 H4]. assert (forall c, cpu_ok (plugin w') c = cpu_ok (plugin w) c) as Ec by (intros c; unfold cpu_ok; by rewrite En).
  split; intros *; rewrite ?Es, ?Ep, ?Ec; [auto|intros; by apply H2; auto|auto|intros; by apply H4; auto].
Qed.

Lemma adv_homes time k w0 w :
  quantum_ok w0 -> time = merge_time (plugin w0) + 1 -> (forall c, cpu w0 c -> c < k) -> adv time k w0 w -> homes (fmember w) time w.
Proof.
  intros Hq Et Hk A. pose proof (fi_merge _ _ (qk_inv _ Hq)) as Hm. pose proof (ad_kept _ _ _ _ A) as Kw.
  assert (forall x, fmember w x -> enrolled w0 x) as HD.
  { intros x [Hx _]%(ad_members _ _ _ _ A). apply (member_param _ _ _ (qk_inv _ Hq)) in Hx as [p Hp]. unfold enrolled. congruence. }
  assert (u64 (time - 1) = merge_time (plugin w0)) as E1 by (rewrite u64_small; unfold two62, two64 in *; lia).
  assert (forall x, fmember w x -> last_quantum (prm w x) = u64 (time - 1) -> exists p, pars w0 x = Some p /\ prm w x = p /\ last_quantum p = merge_time (plugin w0)) as HL.
  { intros x Hx El. destruct (member_param _ _ _ (ad_inv _ _ _ _ A) Hx) as [p Hp]. unfold param_of in *. rewrite Hp in *. simpl in *.
    destruct (adv_cases time k w0 w x p Hk A Hp) as [(c & p0 & _ & _ & _ & ->)|[_ ?]]; [|exists p; split_and!; [done|done|congruence]].
    rewrite (proj1 (advanced_last _ _ _ _)) in El. lia. }
  split; intros *; rewrite ?(kept_sched _ _ _ Kw), ?(kept_cpu _ _ _ Kw).
  - intros Hx%HD. destruct (qk_runs _ Hq t Hx) as [?|[? _]]; auto.
  - intros Hx%HD Hx'%HD Es Hn. destruct (qk_runs _ Hq t Hx) as [?|[_ Ec]]; [done|]. destruct (qk_runs _ Hq t' Hx') as [?|[_ Ec']]; congruence.
  - intros Hx El. destruct (HL t Hx El) as (p & Hp & -> & Hl). by eapply (qk_last_cpu _ Hq).
  - intros Hx Hx' El El'. destruct (HL t Hx El) as (p & Hp & -> & Hl). destruct (HL t' Hx' El') as (p' & Hp' & -> & Hl'). by eapply (qk_last_once _ Hq).
Qed.

(** After the linked tasks have been advanced *)
Record opened (time : Z) w w' : Prop := {
  on_inv : finv w';
  on_merge : merge_time (plugin w') = time;
  on_best : highest_linked w';
  on_tick c : cpu w c -> cur_tick (pstate (plugin w') c) = time;
  on_params : pars w' = pars w;
  on_sched x : scheduled_on (tasks w' x) = scheduled_on (tasks w x);
  on_cpus : num_online_cpus (plugin w') = num_online_cpus (plugin w);
  on_members x : fmember w' x <-> fmember w x;
  on_time : pfair_time (plugin w') = pfair_time (plugin w);
  on_identity c : identity (pstate (plugin w') c) = identity (pstate (plugin w) c);
  on_curr : curr w' = curr w;
  on_period : tick_period w' = tick_period w
}.

Lemma acked_start time w : acked time 0 w w.
Proof. split; [exists (pstate (plugin w)); by destruct w as [? ? ? ? ? ? ? ? ? ? []]|done|]. intros c [Hc _]%andb_true_iff. apply Z.leb_le in Hc. lia. Qed.

Lemma linked_spec time w :
  finv w -> merge_time (plugin w) = time -> homes (fmember w) time w -> cpu_ok (plugin w) NO_CPU = false ->
  wp (schedule_subtasks time;; for_each_online_cpu (ack_quantum time)) (fun _ w' => opened time w w') w.
Proof.
  intros Hi Et Ho Hnc. wp_steps. eapply wp_mono; [by apply (schedule_subtasks_spec time w)|].
  intros [] w3 [Hl3 Hbest]. pose proof (lo_same _ _ Hl3) as S3. unfold for_each_online_cpu. wp_steps.
  assert (num_online_cpus (plugin w3) = num_online_cpus (plugin w)) as En3 by (by rewrite (ss_field num_online_cpus w w3 S3 (fun _ _ => eq_refl))).
  unfold cpus. eapply wp_mono; [apply (ack_spec time 0 (num_online_cpus (plugin w3)) w3 w3); [done|apply acked_start]|].
  intros [] w4 A4. cbv beta in A4. simpl in A4. pose proof (acked_finv _ _ _ _ A4 (lo_inv _ _ Hl3)) as Hi4.
  pose proof (fun c => acked_lk _ _ _ _ c A4) as El4. pose proof (fun x => acked_member _ _ _ _ x A4) as Hm4. pose proof (ak_tick _ _ _ _ A4) as Ht4.
  pose proof (ak_state _ _ _ _ A4) as E4. destruct (ak_world _ _ _ _ A4) as [s ->]. clear A4. split; try done; simpl.
  - by rewrite (ss_field merge_time w w3 S3 (fun _ _ => eq_refl)).
  - intros c x Hc Hx. rewrite El4. exact (Hbest c x Hc Hx).
  - intros c Hc. apply Ht4; [unfold cpu_ok in *; by rewrite En3|]. rewrite En3. apply andb_true_iff in Hc as [_ Hc]. by apply Z.ltb_lt.
  - by rewrite (ss_params _ _ S3).
  - intros x. by rewrite (ss_get scheduled_on w w3 x S3 (fun _ => eq_refl)).
  - intros x. by rewrite Hm4, (lo_members _ _ Hl3).
  - by rewrite (ss_field pfair_time w w3 S3 (fun _ _ => eq_refl)).
  - intros c. specialize (E4 c). pose proof (ss_state _ _ S3 c) as E3. simpl in E4. unfold identity. injection E4. injection E3. simpl. congruence.
  - by rewrite (ss_curr _ _ S3).
  - by rewrite (ss_tick _ _ S3).
Qed.

Lemma opened_spec time w :
  finv_at time w -> time = merge_time (plugin w) + 1 -> homes (fmember w) time w -> cpu_ok (plugin w) NO_CPU = false ->
  wp (poll_releases time;; schedule_subtasks time;; for_each_online_cpu (ack_quantum time)) (fun _ w' => opened time w w') w.
Proof.
  intros Hi Et Ho Hnc. apply wp_bind, poll_spec; [done|done|]. intros w2 Hi2 Hm2 Et2 Ep2 Ec2 Etk2.
  assert (num_online_cpus (plugin w2) = num_online_cpus (plugin w)) as En2 by (by rewrite Ep2).
  assert (forall c, cpu_ok (plugin w2) c = cpu_ok (plugin w) c) as Hc2 by (intros c; unfold cpu_ok; by rewrite En2).
  eapply wp_mono; [apply (linked_spec time w2); [done|by rewrite Ep2| |by rewrite Hc2]|].
  { eapply homes_ext; [intros x; apply Hm2|by rewrite Et2|by rewrite Ep2|done|done]. }
  intros [] w' O. cbv beta in O. split; try apply O.
  - intros c Hc. apply (on_tick _ _ _ O). by rewrite Hc2.
  - by rewrite (on_params _ _ _ O), Ep2.
  - intros x. by rewrite (on_sched _ _ _ O), Et2.
  - by rewrite (on_cpus _ _ _ O).
  - intros x. by rewrite (on_members _ _ _ O).
  - by rewrite (on_time _ _ _ O), Ep2.
  - intros c. by rewrite (on_identity _ _ _ O), Ep2.
  - by rewrite (on_curr _ _ _ O).
  - by rewrite (on_period _ _ _ O).
Qed.

Lemma release_after p : good_param p -> p_release p <= release_of p.
Proof. intros Hp. destruct (cur_bounds p Hp) as (? & _). unfold release_of. lia. Qed.

Lemma adv_good time k w0 w x p :
  quantum_ok w0 -> time = merge_time (plugin w0) + 1 -> time + PFAIR_MAX_PERIOD < two62 -> (forall c, cpu w0 c -> c < k) -> adv time k w0 w ->
  pars w x = Some p -> good_param p.
Proof.
  intros Hq Et Hb Hk A Hp. destruct (adv_cases time k w0 w x p Hk A Hp) as [(c & p0 & Hc & El & E & ->)|[_ E]]; [|by eapply (qk_good _ Hq)].
  pose proof (qk_good _ Hq x p0 E) as Hg. apply advanced_good; [done|]. destruct (fi_link _ _ (qk_inv _ Hq) c x Hc El) as (_ & _ & _ & Hr).
  unfold rel, param_of in Hr. rewrite E in Hr. simpl in Hr. pose proof (release_after p0 Hg). destruct Hg. lia.
Qed.

(** A task that leaves waits for a sporadic release. *)
Lemma adv_sporadic time k w0 w x p :
  quantum_ok w0 -> (forall c, cpu w0 c -> c < k) -> adv time k w0 w -> pars w x = Some p -> sporadic_release p = true -> ~ fmember w x.
Proof.
  intros Hq Hk A Hp Hs. rewrite (ad_members _ _ _ _ A). intros [Hx Hn].
  destruct (adv_cases time k w0 w x p Hk A Hp) as [(c & p0 & Hc & El & E & ->)|[_ E]]; [|by eapply (qk_sporadic _ Hq)].
  assert (sporadic_release p0 <> true) as Hs0 by (intros Hs0; by eapply (qk_sporadic _ Hq x p0)). apply Hn. exists c. split_and!; [done|auto|done|].
  unfold leaves, param_of. rewrite E. simpl. unfold advanced in Hs. destruct (Z.eqb_spec (next_cur p0) 0); [|done].
  by destruct (present (tasks w0 x)).
Qed.

(** What the quantum [time] does: the linked tasks have executed their subtask
    and go on to the next, or leave if there is none; the tasks whose windows
    open become ready; and the tasks with the highest priorities are linked. *)
Record next_quantum (time : Z) w w' : Prop := {
  nq_ok : quantum_ok w';
  nq_merge : merge_time (plugin w') = time;
  nq_best : highest_linked w';
  nq_tick c : cpu w c -> cur_tick (pstate (plugin w') c) = time;
  nq_param c x : cpu w c -> lk w c = Some x -> pars w' x = advanced time c (present (tasks w x)) <$> pars w x;
  nq_other x : (forall c, cpu w c -> lk w c <> Some x) -> pars w' x = pars w x;
  nq_members x : fmember w' x <-> fmember w x /\ ~ exists c, cpu w c /\ lk w c = Some x /\ leaves w x;
  nq_time : pfair_time (plugin w') = pfair_time (plugin w);
  nq_cpus : num_online_cpus (plugin w') = num_online_cpus (plugin w);
  nq_curr : curr w' = curr w;
  nq_period : tick_period w' = tick_period w
}.

Lemma opened_ok time k w0 w w' :
  quantum_ok w0 -> time = merge_time (plugin w0) + 1 -> time + PFAIR_MAX_PERIOD < two62 -> (forall c, cpu w0 c -> c < k) -> adv time k w0 w ->
  opened time w w' -> quantum_ok w'.
Proof.
  intros Hq Et Hb Hk A O. pose proof (on_params _ _ _ O) as Ep. pose proof (ad_kept _ _ _ _ A) as Kw.
  assert (forall c, cpu_ok (plugin w') c = cpu_ok (plugin w0) c) as Ec.
  { intros c. rewrite <- (kept_cpu _ _ c Kw). unfold cpu_ok. by rewrite (on_cpus _ _ _ O). }
  assert (forall x p, pars w' x = Some p -> (exists c, cpu w0 c /\ lk w0 c = Some x /\ last_quantum p = time /\ last_cpu p = c) \/ 0 <= last_quantum p < time) as HL.
  { intros x p. rewrite Ep. intros Hp. destruct (adv_cases time k w0 w x p Hk A Hp) as [(c & p0 & Hc & El & E & ->)|[_ E]].
    - left. exists c. by destruct (advanced_last time c (present (tasks w0 x)) p0) as [-> ->].
    - right. pose proof (qk_last _ Hq x p E). lia. }
  split.
  - apply O.
  - intros x p. rewrite Ep. by eapply adv_good.
  - intros x p. rewrite Ep, (on_members _ _ _ O). by eapply adv_sporadic.
  - intros x Hx. rewrite Ec, (on_sched _ _ _ O), (on_curr _ _ _ O), (kept_sched _ _ _ Kw). rewrite (proj1 (kp_curr _ _ Kw)). apply (qk_runs _ Hq).
    unfold enrolled in *. intros E0. apply Hx. rewrite Ep. rewrite (ad_other _ _ _ _ A); [done|]. intros c Hc _ El.
    destruct (fi_link _ _ (qk_inv _ Hq) c x Hc El) as (_ & (_ & q & ? & _) & _). congruence.
  - intros x p Hp. rewrite (on_merge _ _ _ O). destruct (HL x p Hp) as [(c & _ & _ & -> & _)|?]; [|lia]. pose proof (fi_merge _ _ (qk_inv _ Hq)). lia.
  - intros x p Hp. rewrite (on_merge _ _ _ O), Ec. destruct (HL x p Hp) as [(c & ? & _ & _ & ->)|?]; [done|lia].
  - intros x p x' p' Hp Hp'. rewrite (on_merge _ _ _ O). destruct (HL x p Hp) as [(c & ? & ? & _ & ->)|?]; [|lia].
    destruct (HL x' p' Hp') as [(c' & ? & ? & _ & ->)|?]; [|lia]. intros _ _ ->. congruence.
  - intros c. rewrite Ec. intros Hc. transitivity (s_cpu (pstate (plugin w0) c)); [|by apply (qk_self _ Hq)]. pose proof (on_identity _ _ _ O c) as E1. pose proof (kp_identity _ _ Kw c) as E2.
    unfold identity in *. congruence.
  - rewrite Ec. apply Hq.
Qed.

Lemma next_quantum_spec time w :
  quantum_ok w -> time = merge_time (plugin w) + 1 -> time + PFAIR_MAX_PERIOD < two62 ->
  wp (schedule_next_quantum time) (fun _ w' => next_quantum time w w') w.
Proof.
  intros Hq Et Hb. set (n := num_online_cpus (plugin w)). assert (forall c, cpu w c -> c < Z.of_nat n) as Hn.
  { intros c [_ Hc]%andb_true_iff. by apply Z.ltb_lt. }
  unfold schedule_next_quantum, advance_subtasks, for_each_online_cpu at 1. apply wp_bind. wp_steps.
  eapply wp_mono; [apply (adv_spec time 0 n w w); try done; [by apply (qk_inv _ Hq)|apply adv_start; [apply Hq|done|unfold PFAIR_MAX_PERIOD in *; lia]]|].
  intros [] w1 A. cbv beta in A. simpl in A.
  pose proof (adv_homes time (Z.of_nat n) w w1 Hq Et Hn A) as Ho. pose proof (ad_kept _ _ _ _ A) as Kw.
  eapply wp_mono; [apply opened_spec; [apply A|by rewrite (kept_merge _ _ Kw)|done|by rewrite (kept_cpu _ _ _ Kw); apply Hq]|].
  intros [] w2 O. cbv beta in O. pose proof (on_params _ _ _ O) as Ep. split; try apply O.
  - by eapply (opened_ok time (Z.of_nat n) w w1).
  - intros c Hc. apply (on_tick _ _ _ O). by rewrite (kept_cpu _ _ _ Kw).
  - intros c x Hc El. rewrite Ep. apply (ad_param _ _ _ _ A); auto.
  - intros x Hx. rewrite Ep. apply (ad_other _ _ _ _ A). auto.
  - intros x. rewrite (on_members _ _ _ O), (ad_members _ _ _ _ A). naive_solver.
  - rewrite (on_time _ _ _ O). by injection (kp_globals _ _ Kw).
  - rewrite (on_cpus _ _ _ O). by injection (kp_globals _ _ Kw).
  - rewrite (on_curr _ _ _ O). apply Kw.
  - rewrite (on_period _ _ _ O). apply Kw.
Qed.

(** C7: [schedule_next_quantum], called between quanta with the number of the next
    one, ends without a fault.  Afterwards every linked task has executed its
    subtask and goes on to the next one, or has left if its job is complete and
    it is not present; no other task has changed its parameters; the tasks whose
    windows have opened by now, and no others, are ready or linked, and a task
    is linked to one processor at most; no processor is left idle while a task
    is ready, and every linked task beats every ready one by the rules of PD^2;
    all processors are told the quantum. *)
Theorem schedule_next_quantum_correct time w :
  quantum_ok w -> time = merge_time (plugin w) + 1 -> time + PFAIR_MAX_PERIOD < two62 ->
  exists w', schedule_next_quantum time w = Some (tt, w') /\ next_quantum time w w'.
Proof.
  intros Hq Et Hb. pose proof (next_quantum_spec time w Hq Et Hb) as Hw. unfold wp in Hw.
  destruct (schedule_next_quantum time w) as [[[] w']|]; [eauto|done].
Qed.
End Next.
