(* ===== verification/PfairTask.v ===== *)
(** * PD^2: the callbacks for tasks

    New, waking, released and exiting tasks, and [pfair_schedule], keep the
    invariant [quantum_ok] of the state between quanta. *)

From S2P Require Import Prelude Task Edf PrioQueue Kernel RtDomain RtInv EdfDomain.
From S2P Require Import Pfair PfairSub PfairInv PfairLink PfairTop PfairQuantum PfairAdvance PfairNext.
Open Scope Z_scope.

(** A task without where it is scheduled and whether it can run *)
Definition unmarked (x : task_struct) : task_struct := set_present false (set_rt_flags 0 (set_scheduled_on 0 (core x))).

Section Tasks.
Context {Q : Type -> Type} `{PrioQueueLaws Q}.
Abbreviation world := (world Q fstate).
Abbreviation K := (M world).
Implicit Types (w : world) (t : tid) (c d : Z).
Abbreviation pars w := (params (plugin w)).
Abbreviation ok w t := (pfair_ok (pars w) (tasks w) t).
Abbreviation cpu w c := (cpu_ok (plugin w) c = true).
Abbreviation prm w t := (param_of (pars w) t).

(** ** Where tasks are scheduled and flags change *)

Record marks w w' : Prop := {
  ma_task x : unmarked (tasks w' x) = unmarked (tasks w x);
  ma_heap x : in_heap (tasks w' x) = in_heap (tasks w x);
  ma_doms : doms w' = doms w;
  ma_rheaps : rheaps w' = rheaps w;
  ma_tick : tick_period w' = tick_period w;
  ma_plugin : plugin w' = plugin w;
  ma_curr : curr w' = curr w
}.

#[export] Instance marks_preorder : PreOrder marks.
Proof.
  split; [done|]. intros w1 w2 w3 [T1 I1 ? ? ? ? ?] [T2 I2 ? ? ? ? ?].
  split; [intros x; by rewrite T2|intros x; by rewrite I2|congruence..].
Qed.

Lemma ma_get {A} (f : task_struct -> A) w w' x :
  marks w w' -> (forall y, f (unmarked y) = f y) -> f (tasks w' x) = f (tasks w x).
Proof. intros S Hf. by rewrite <- (Hf (tasks w' x)), (ma_task _ _ S), Hf. Qed.

Lemma ma_at w w' x p : marks w w' -> at_place w' x p <-> at_place w x p.
Proof. intros S. destruct p as [d|d o]; simpl; unfold ready_elems, active, rel_elems; by rewrite ?(ma_doms _ _ S), ?(ma_rheaps _ _ S). Qed.
Lemma ma_lk w w' c : marks w w' -> lk w' c = lk w c.
Proof. intros S. unfold lk. by rewrite (ma_plugin _ _ S). Qed.
Lemma ma_member w w' x : marks w w' -> fmember w' x <-> fmember w x.
Proof.
  intros S. unfold fmember, lk. rewrite (ma_plugin _ _ S). apply or_iff_compat_l. split; intros [p Hp]; exists p; by apply (ma_at w w').
Qed.

Lemma marks_finv time w w' : marks w w' -> finv_at time w -> finv_at time w'.
Proof.
  intros S Hi. pose proof (ma_plugin _ _ S) as Ep. pose proof (fun x => ma_get pid w w' x S (fun _ => eq_refl)) as Epi.
  pose proof (fun x => ma_get is_realtime w w' x S (fun _ => eq_refl)) as Ert.
  assert (forall x, ok w x -> ok w' x) as Hok by (intros x [Hr Hp]; split; [by rewrite Ert|by rewrite Ep]).
  split.
  - unfold fdom. eapply (dom_ok_reorder _ _ _ _ w); [apply (fi_dom _ _ Hi)|apply S|apply S|apply S|apply S|..].
    + intros x d h _. by apply (ma_get get_release).
    + intros x p _. apply Hok.
    + intros a b p q _ _. unfold pfair_ready_order, pfair_higher_prio. by rewrite Ep, Ert, !Epi.
  - intros a b. rewrite !Epi. apply (fi_pids _ _ Hi).
  - intros x p Hx%(ma_at w w'); [|done]. unfold rel. rewrite Ep. by apply (fi_queue _ _ Hi).
  - intros c x. unfold lk, rel. rewrite Ep, (ma_heap _ _ S), (ma_get linked_on w w') by done. intros Hc El.
    rewrite Ep in Hok. destruct (fi_link _ _ Hi c x Hc El) as (? & ? & ? & ?). auto.
  - rewrite Ep. apply Hi.
Qed.

Lemma check_preempt_spec t w :
  wp (check_preempt t) (fun _ w' => marks w w' /\ forall x, scheduled_on (tasks w' x) = scheduled_on (tasks w x)) w.
Proof.
  unfold check_preempt, get_task. wp_steps. apply wp_when. destruct (_ && _); [|done]. wp_steps. destruct (_ =? this_cpu w).
  - unfold set_tsk_need_resched, upd_task. wp_steps. split; [split; try done|]; intros x; simpl; unfold upd; case_decide; by subst.
  - unfold smp_send_reschedule. by wp_steps.
Qed.

(** ** The effect of a callback for [t] *)

(** What stays when only [t] is concerned *)
Record about t w w' : Prop := {
  ab_param x : x <> t -> pars w' x = pars w x;
  ab_members x : x <> t -> fmember w' x <-> fmember w x;
  ab_sched x : x <> t -> scheduled_on (tasks w' x) = scheduled_on (tasks w x);
  ab_globals : globals (plugin w') = globals (plugin w);
  ab_ticks c : (identity (pstate (plugin w') c), cur_tick (pstate (plugin w') c)) = (identity (pstate (plugin w) c), cur_tick (pstate (plugin w) c));
  ab_curr : curr w' = curr w
}.

#[export] Instance about_preorder t : PreOrder (about t).
Proof.
  split; [done|]. intros w1 w2 w3 [P1 M1 S1 G1 T1 C1] [P2 M2 S2 G2 T2 C2]. split; [intros x Hx..| |intros c|].
  - by rewrite P2, P1.
  - by rewrite M2, M1.
  - by rewrite S2, S1.
  - by rewrite G2.
  - by rewrite T2.
  - by rewrite C2.
Qed.

Lemma touched_about t w w' : touched t w w' -> about t w w'.
Proof.
  intros T. split; [apply T| |intros x Hx; by rewrite (tc_task _ _ _ T x Hx)|by apply (tc_field globals t)|intros c; by rewrite (tc_field pstate t w w')|apply T].
  intros x _. unfold fmember. setoid_rewrite (fun c => tc_lk t w w' c T). setoid_rewrite (fun c => tc_field (fun g => cpu_ok g c) t w w' T (fun _ _ => eq_refl)).
  apply or_iff_compat_l. split; intros [p Hp]; exists p; by apply (tc_at t w w').
Qed.

Lemma dropped_about t w w' : dropped t w w' -> about t w w'.
Proof.
  intros D. assert (forall c, cpu_ok (plugin w') c = cpu_ok (plugin w) c) as Ec by (intros c; exact (dropped_field (fun g => cpu_ok g c) t w w' D (fun _ _ => eq_refl))).
  split.
  - intros x _. by rewrite (dropped_field params t w w' D).
  - intros x Hx. unfold fmember. split; (intros [(c & Hc & El)|[p Hp]]; [left; exists c|right; exists p]).
    + rewrite Ec in Hc. rewrite (dropped_lk _ _ _ c D Hc) in El. by apply forget_some in El as [El _].
    + by apply (dr_at _ _ _ D) in Hp as [Hp _].
    + rewrite Ec, (dropped_lk _ _ _ c D Hc), El. split; [done|]. unfold forget. by rewrite decide_False by congruence.
    + by apply (dr_at _ _ _ D).
  - intros x _. by apply (core_field scheduled_on), (dr_core _ _ _ D).
  - by apply (dropped_field globals t).
  - intros c. rewrite (dr_state _ _ _ D). by case_match.
  - apply D.
Qed.

Lemma moved_about t p w w' : moved t p w w' -> about t w w'.
Proof.
  intros M. pose proof (se_plugin _ _ (mv_env _ _ _ _ M)) as Ep. split; rewrite ?Ep; try done.
  - intros x Hx. unfold fmember, lk. rewrite Ep. apply or_iff_compat_l. apply exist_proper. intros q. by rewrite (mv_at _ _ _ _ M), decide_False.
  - intros x _. by apply (core_field scheduled_on), (se_core _ _ (mv_env _ _ _ _ M)).
  - apply M.
Qed.

Lemma marks_about t w w' : marks w w' -> (forall x, x <> t -> scheduled_on (tasks w' x) = scheduled_on (tasks w x)) -> about t w w'.
Proof.
  intros S Hs. split; rewrite ?(ma_plugin _ _ S); try done; [|apply S]. intros x _. by apply ma_member.
Qed.

(** Only [t] may change its parameters, join or leave, or be scheduled elsewhere;
    what is known about where it ran last stays. *)
Record callback t w w' : Prop := {
  cb_inv : finv w';
  cb_about : about t w w';
  cb_self : pars w' t = None \/ exists p p', pars w t = Some p /\ pars w' t = Some p' /\ good_param p' /\
    (last_quantum p', last_cpu p') = (last_quantum p, last_cpu p) /\ (sporadic_release p' = true -> ~ fmember w' t);
  cb_runs : scheduled_on (tasks w' t) = scheduled_on (tasks w t) \/ scheduled_on (tasks w' t) = NO_CPU \/
    cpu w (scheduled_on (tasks w' t)) /\ curr w (scheduled_on (tasks w' t)) = t
}.

Lemma callback_ok t w w' : quantum_ok w -> callback t w w' -> quantum_ok w'.
Proof.
  intros Hq C. pose proof (cb_about _ _ _ C) as A. assert (merge_time (plugin w') = merge_time (plugin w)) as Em by (by injection (ab_globals _ _ _ A)).
  assert (forall c, cpu_ok (plugin w') c = cpu_ok (plugin w) c) as Ec.
  { intros c. injection (ab_globals _ _ _ A) as _ E _. unfold cpu_ok. by rewrite E. }
  assert (forall x p', pars w' x = Some p' -> exists p, pars w x = Some p /\ good_param p' /\ (last_quantum p', last_cpu p') = (last_quantum p, last_cpu p) /\
    (sporadic_release p' = true -> ~ fmember w' x)) as Hp.
  { intros x p' E. destruct (decide (x = t)) as [->|Hne].
    - destruct (cb_self _ _ _ C) as [?|(p & q & Ep & Eq & ? & ? & ?)]; [congruence|]. exists p. assert (q = p') as -> by congruence. done.
    - rewrite (ab_param _ _ _ A x Hne) in E. exists p'. split_and!; [done|by eapply (qk_good _ Hq)|done|]. rewrite (ab_members _ _ _ A x Hne). by eapply (qk_sporadic _ Hq). }
  split; rewrite ?Em, ?Ec; try apply (qk_cpus _ Hq).
  - apply C.
  - intros x p' E. by destruct (Hp x p' E) as (p & _ & ? & _).
  - intros x p' E. by destruct (Hp x p' E) as (p & _ & _ & _ & ?).
  - intros x Hx. rewrite Ec, (ab_curr _ _ _ A). assert (enrolled w x) as Hx'.
    { unfold enrolled in *. destruct (pars w' x) as [p'|] eqn:E; [|done]. destruct (Hp x p' E) as (p & ? & _). congruence. }
    destruct (decide (x = t)) as [->|Hne]; [|rewrite (ab_sched _ _ _ A x Hne); by apply (qk_runs _ Hq)].
    destruct (cb_runs _ _ _ C) as [->|?]; [by apply (qk_runs _ Hq)|done].
  - intros x p' E. destruct (Hp x p' E) as (p & Ep & _ & El & _). injection El as -> _. by apply (qk_last _ Hq x).
  - intros x p' E. rewrite Ec. destruct (Hp x p' E) as (p & Ep & _ & El & _). injection El as -> ->. by apply (qk_last_cpu _ Hq x).
  - intros x p' y q' E E'. destruct (Hp x p' E) as (p & Ep & _ & El & _). injection El as -> ->. destruct (Hp y q' E') as (q & Eq & _ & El & _). injection El as -> ->.
    by apply (qk_last_once _ Hq).
  - intros c. rewrite Ec. intros Hc. transitivity (s_cpu (pstate (plugin w) c)); [|by apply (qk_self _ Hq)]. pose proof (ab_ticks _ _ _ A c) as E.
    unfold identity in E. congruence.
Qed.

(** ** A task joins *)

(** The flag [sporadic_release] has no effect on the queues. *)
Lemma sporadic_spec time t p b w (Φ : unit -> world -> Prop) :
  finv_at time w -> pars w t = Some p ->
  (forall w', finv_at time w' -> touched t w w' -> pars w' t = Some (set_sporadic_release b p) -> tasks w' = tasks w -> Φ tt w') ->
  wp (upd_param t (set_sporadic_release b)) Φ w.
Proof.
  intros Hi Hp HΦ. apply (param_spec t _ p); [done|]. intros w' T Ep Et. apply HΦ; try done.
  assert (forall x, prm w' x = if decide (x = t) then set_sporadic_release b (prm w x) else prm w x) as Epx.
  { intros x. unfold param_of. case_decide as E; [subst; by rewrite Ep, Hp|by rewrite (tc_param _ _ _ T)]. }
  assert (forall {A} (f : pfair_param -> A), (forall q, f (set_sporadic_release b q) = f q) -> forall x, f (prm w' x) = f (prm w x)) as Ef.
  { intros A f Hf x. rewrite Epx. case_decide; [apply Hf|done]. }
  assert (forall x, ok w x -> ok w' x) as Hok.
  { intros x (Hr & q & Hq & Hg). split; [by rewrite Et|]. destruct (decide (x = t)) as [->|Hx]; [|rewrite (tc_param _ _ _ T) by done; eauto].
    exists (set_sporadic_release b p). split; [done|]. assert (q = p) as -> by congruence. by destruct Hg. }
  assert (merge_time (plugin w') = merge_time (plugin w)) as Em by (by apply (tc_field merge_time t)). split.
  - unfold fdom. eapply (dom_ok_reorder _ _ _ _ w); [apply (fi_dom _ _ Hi)|apply T|apply T|apply T|by rewrite Et|by rewrite Et|auto|].
    intros x y _ _ _ _. unfold pfair_ready_order, pfair_higher_prio, cur_group_deadline, cur_deadline, cur_overlap.
    rewrite Et, !(Ef _ cur_subtask), !(Ef _ p_release) by done. done.
  - rewrite Et. apply Hi.
  - intros x q Hx%(tc_at t w w'); [|done]. unfold rel. rewrite Em, (Ef _ release_of) by done. by apply (fi_queue _ _ Hi).
  - intros c x. rewrite (tc_lk t w w'), (tc_field (fun g => cpu_ok g c) t w w'), Et by done. intros Hc El. unfold rel. rewrite (Ef _ release_of) by done.
    rewrite Et in Hok. destruct (fi_link _ _ Hi c x Hc El) as (? & ? & ? & ?). auto.
  - rewrite Em. apply Hi.
Qed.

Lemma prepared_good r p : good_param p -> 0 <= r < two62 -> good_param (set_cur 0 (set_p_release r p)).
Proof. intros [He Hp Hs Hc Hr] Hb. split; simpl; try done. lia. Qed.

Lemma prepared_release_of r p : good_param p -> 0 <= r < two62 -> release_of (set_cur 0 (set_p_release r p)) = r.
Proof.
  intros Hg Hb. pose proof (prepared_good r p Hg Hb) as Hg'. pose proof (wi_release _ _ _ _ (cur_window _ Hg')) as E. unfold release_of. rewrite E. simpl. rewrite Z.div_0_l; [lia|]. destruct Hg. lia.
Qed.

(** The task waits in the release queue for its job released at [r]. *)
Record joined t (r : Z) w w' : Prop := {
  jo_inv : finv w';
  jo_about : about t w w';
  jo_sched : scheduled_on (tasks w' t) = scheduled_on (tasks w t);
  jo_at : at_place w' t (PReady (relq r));
  jo_param : pars w' t = (fun p => set_sporadic_release false (set_cur 0 (set_p_release r p))) <$> pars w t
}.

Lemma not_member_out w t : finv w -> ~ fmember w t -> in_heap (tasks w t) = false /\ forall c, cpu w c -> lk w c <> Some t.
Proof.
  intros Hi Hn. split; [|intros c Hc El; apply Hn; left; eauto]. destruct (in_heap (tasks w t)) eqn:E; [|done]. exfalso. apply Hn. right.
  by apply (qo_heap _ _ _ (fi_dom _ _ Hi)).
Qed.

(** Preparing the release and entering the release queue *)
Record entering t (r : Z) p w w' : Prop := {
  en_inv : finv w';
  en_about : about t w w';
  en_sched : scheduled_on (tasks w' t) = scheduled_on (tasks w t);
  en_at : at_place w' t (PReady (relq r));
  en_param : pars w' t = Some p
}.

Lemma enter_spec t r p w :
  finv w -> is_realtime (tasks w t) = true -> in_heap (tasks w t) = false -> (forall c, cpu w c -> lk w c <> Some t) ->
  pars w t = Some p -> good_param p -> release_of p = r -> merge_time (plugin w) < r <= merge_time (plugin w) + PFAIR_MAX_PERIOD ->
  wp (pfair_add_release t) (fun _ w' => entering t r p w w') w.
Proof.
  intros Hi Hrt Hh Hno Hp Hg Er Hr. assert (rel w t = r) as Erl by (unfold rel, param_of; by rewrite Hp).
  eapply wp_mono; [apply (add_release_f (merge_time (plugin w)) t w); [done|done| |by rewrite Erl|done]|].
  { split; [done|eauto]. }
  intros [] w' [Hi' M]. cbv beta in Hi'. rewrite Erl in M. pose proof (se_plugin _ _ (mv_env _ _ _ _ M)) as Ep. split.
  - unfold finv. by rewrite Ep.
  - by eapply moved_about.
  - by apply (core_field scheduled_on), (se_core _ _ (mv_env _ _ _ _ M)).
  - apply (mv_at _ _ _ _ M). by rewrite decide_True.
  - by rewrite Ep.
Qed.

Lemma touched_finv_out t w w' :
  finv w -> in_heap (tasks w t) = false -> (forall c, cpu w c -> lk w c <> Some t) -> touched t w w' ->
  finv w' /\ in_heap (tasks w' t) = false /\ (forall c, cpu w' c -> lk w' c <> Some t).
Proof.
  intros Hi Hh Hno T. pose proof (tc_field merge_time t w w' T (fun _ _ => eq_refl)) as Em.
  assert (forall c, cpu_ok (plugin w') c = cpu_ok (plugin w) c) as Ec by (intros c; exact (tc_field (fun g => cpu_ok g c) t w w' T (fun _ _ => eq_refl))).
  split_and!; [|by rewrite (tc_heap t w w')|intros c; rewrite Ec, (tc_lk t w w') by done; apply Hno].
  unfold finv. rewrite Em. destruct (touched_qinv t w w' (finv_qinv _ _ Hi) Hh T) as [Hd Hp Hq]. split; [done..| |rewrite Em; apply Hi].
  intros c x. rewrite Ec, (tc_lk t w w') by done. intros Hc El. assert (x <> t) as Hne by (intros ->; by eapply Hno).
  destruct (fi_link _ _ Hi c x Hc El) as (? & ? & ? & ?). rewrite (tc_heap t w w'), (tc_task _ _ _ T), (tc_rel t w w') by done. split_and!; try done. by eapply tc_ok.
Qed.

Lemma joined_callback t r w w' :
  quantum_ok w -> enrolled w t -> 0 <= r < two62 -> joined t r w w' -> callback t w w'.
Proof.
  intros Hq Ht Hb J. split; [apply J|apply J| |left; apply (jo_sched _ _ _ _ J)]. right. unfold enrolled in Ht. pose proof (jo_param _ _ _ _ J) as Ep.
  destruct (pars w t) as [p|] eqn:E; [|done]. simpl in Ep. eexists _, _. split_and!; [done|exact Ep| |done|done].
  pose proof (prepared_good r p (qk_good _ Hq t p E) Hb) as Hg. by destruct Hg.
Qed.

(** Both orders in which the callbacks prepare a release *)
Section Release.
Context (t : tid) (r : Z) (p : pfair_param) (w : world).
Hypotheses (Hi : finv w) (Hrt : is_realtime (tasks w t) = true) (Hn : ~ fmember w t) (Hp : pars w t = Some p) (Hg : good_param p)
  (Hr : merge_time (plugin w) < r <= merge_time (plugin w) + PFAIR_MAX_PERIOD) (Hb : r < two62).

Lemma release_range : 0 <= r < two62.
Proof. pose proof (fi_merge _ _ Hi). lia. Qed.

Lemma new_release_spec (k : K unit) (Φ : unit -> world -> Prop) :
  (forall w', joined t r w w' -> wp k Φ w') ->
  wp (prepare_release t r) (fun _ => wp (upd_param t (set_sporadic_release false);; pfair_add_release t;; k) Φ) w.
Proof using Hi Hrt Hn Hp Hg Hr Hb.
  intros HΦ. pose proof release_range as Hb'. destruct (not_member_out w t Hi Hn) as [Hh Hno]. unfold prepare_release. wp_steps.
  apply (param_spec t _ p); [done|]. intros w2 T2 Ep2 Et2. wp_steps.
  apply (param_spec t _ _ _ _ Ep2). intros w3 T3 Ep3 Et3. wp_steps. assert (touched t w w3) as T by (by transitivity w2).
  destruct (touched_finv_out t w w3 Hi Hh Hno T) as (Hi3 & Hh3 & Hno3).
  assert (merge_time (plugin w3) = merge_time (plugin w)) as Em by exact (tc_field merge_time t w w3 T (fun _ _ => eq_refl)).
  eapply wp_mono; [apply (enter_spec t r (set_sporadic_release false (set_cur 0 (set_p_release r p))) w3 Hi3); [by rewrite Et3, Et2|done|done|exact Ep3| | |by rewrite Em]|].
  - by destruct (prepared_good r p Hg Hb').
  - by apply (prepared_release_of r p).
  - intros [] w4 E4. apply HΦ. split; [apply E4| | |apply E4|by rewrite (en_param _ _ _ _ _ E4), Hp].
    + transitivity w3; [by apply touched_about|apply E4].
    + rewrite (en_sched _ _ _ _ _ E4). by rewrite Et3, Et2.
Qed.

Lemma late_release_spec (Φ : unit -> world -> Prop) :
  (forall w', joined t r w w' -> Φ tt w') ->
  wp (prepare_release t r) (fun _ => wp (pfair_add_release t;; upd_param t (set_sporadic_release false)) Φ) w.
Proof using Hi Hrt Hn Hp Hg Hr Hb.
  intros HΦ. pose proof release_range as Hb'. destruct (not_member_out w t Hi Hn) as [Hh Hno]. unfold prepare_release. wp_steps.
  apply (param_spec t _ p); [done|]. intros w2 T2 Ep2 Et2. wp_steps. destruct (touched_finv_out t w w2 Hi Hh Hno T2) as (Hi2 & Hh2 & Hno2).
  assert (merge_time (plugin w2) = merge_time (plugin w)) as Em by exact (tc_field merge_time t w w2 T2 (fun _ _ => eq_refl)).
  eapply wp_mono; [apply (enter_spec t r (set_cur 0 (set_p_release r p)) w2 Hi2); [by rewrite Et2|done|done|exact Ep2| | |by rewrite Em]|].
  - by apply prepared_good.
  - by apply (prepared_release_of r p).
  - intros [] w3 E3. cbv beta in E3. wp_steps. apply (sporadic_spec (merge_time (plugin w3)) t (set_cur 0 (set_p_release r p)) false w3); [apply (en_inv _ _ _ _ _ E3)|apply (en_param _ _ _ _ _ E3)|].
    intros w4 Hi4 T4 Ep4 Et4. apply HΦ. split.
    + unfold finv. by rewrite (tc_field merge_time t w3 w4 T4).
    + transitivity w2; [by apply touched_about|]. transitivity w3; [apply E3|by apply touched_about].
    + rewrite Et4, (en_sched _ _ _ _ _ E3). by rewrite Et2.
    + apply (tc_at t w3 w4); [done|apply E3].
    + by rewrite Ep4, Hp.
Qed.
End Release.

(** *** [pfair_task_new] *)

Lemma upd_sched_marks t c w : marks w (set_tasks (upd (tasks w) t (set_scheduled_on c (tasks w t))) w).
Proof. split; try done; intros x; simpl; unfold upd; case_decide; by subst. Qed.

Lemma joined_marks t r w w' w'' :
  joined t r w w' -> marks w' w'' -> (forall x, scheduled_on (tasks w'' x) = scheduled_on (tasks w' x)) -> joined t r w w''.
Proof.
  intros J S Es. split.
  - unfold finv. rewrite (ma_plugin _ _ S). by eapply marks_finv, J.
  - transitivity w'; [apply J|]. by apply marks_about.
  - by rewrite Es, (jo_sched _ _ _ _ J).
  - apply (ma_at w' w''); [done|apply J].
  - rewrite (ma_plugin _ _ S). apply J.
Qed.

(** The task has entered the release queue for a job released at [r]. *)
Definition released t (r : Z) w w' : Prop :=
  callback t w w' /\ at_place w' t (PReady (relq r)) /\
  pars w' t = (fun p => set_sporadic_release false (set_cur 0 (set_p_release r p))) <$> pars w t.

Lemma pf_task_new_spec t p on_rq running w :
  quantum_ok w -> pars w t = Some p -> is_realtime (tasks w t) = true -> ~ fmember w t ->
  let r := pfair_time (plugin w) + 1 in
  merge_time (plugin w) < r <= merge_time (plugin w) + PFAIR_MAX_PERIOD -> r < two62 ->
  (running = true -> cpu w (task_cpu (tasks w t)) /\ curr w (task_cpu (tasks w t)) = t) ->
  wp (pfair_task_new t on_rq running)
    (fun _ w' => released t r w w' /\ scheduled_on (tasks w' t) = if running then task_cpu (tasks w t) else NO_CPU) w.
Proof.
  intros Hq Hp Hrt Hn r Hr Hb Hrun. pose proof (release_range r w (qk_inv _ Hq) Hr Hb) as Hb'. pose proof (qk_good _ Hq t p Hp) as Hg.
  assert (u64 r = r) as Er by (apply u64_small; unfold two62, two64 in *; lia).
  unfold pfair_task_new, upd_task. wp_steps. set (c := if running then _ else NO_CPU). set (w1 := set_tasks _ w).
  assert (marks w w1) as S1 by apply upd_sched_marks.
  assert (finv w1) as Hi1 by exact (marks_finv _ w w1 S1 (qk_inv _ Hq)).
  change (u64 (pfair_time (plugin w1) + 1)) with (u64 r). rewrite Er.
  apply (new_release_spec t r p w1 Hi1); [by rewrite (ma_get is_realtime w w1)|by intros Hx%(ma_member w w1)|done..|].
  intros w2 J2. eapply wp_mono; [apply check_preempt_spec|]. intros [] w3 [S3 Es3]. pose proof (joined_marks _ _ _ _ _ J2 S3 Es3) as J.
  assert (scheduled_on (tasks w3 t) = c) as Es by (rewrite (jo_sched _ _ _ _ J); simpl; by rewrite upd_eq).
  split; [|done]. split; [|split; [apply J|by rewrite (jo_param _ _ _ _ J)]]. split.
  - apply J.
  - transitivity w1; [|apply J]. apply marks_about; [done|]. intros x Hx. simpl. by rewrite upd_ne.
  - right. exists p. eexists. split_and!; [done|by rewrite (jo_param _ _ _ _ J); simpl; rewrite Hp| |done|done].
    by destruct (prepared_good r p Hg Hb').
  - rewrite Es. right. unfold c. destruct running; [right; by apply Hrun|by left].
Qed.

(** *** [pfair_task_wake_up] *)

Lemma release_at_fields start x : pid (release_at start x) = pid x /\ is_realtime (release_at start x) = is_realtime x /\
  in_heap (release_at start x) = in_heap x /\ linked_on (release_at start x) = linked_on x /\
  scheduled_on (release_at start x) = scheduled_on x /\ present (release_at start x) = present x.
Proof. done. Qed.

(** The job of a task has no effect on the queues. *)
Lemma job_finv time t w w' : finv_at time w -> touched t w w' -> plugin w' = plugin w -> finv_at time w'.
Proof.
  intros Hi T Ep. assert (forall {A} (f : task_struct -> A), f (tasks w' t) = f (tasks w t) -> forall x, f (tasks w' x) = f (tasks w x)) as Ef.
  { intros A f Hf x. destruct (decide (x = t)) as [->|Hx]; [done|by rewrite (tc_task _ _ _ T)]. }
  destruct (tc_fields _ _ _ T) as (Fp & Fr & Fh & Fl & _). pose proof (Ef _ pid Fp) as Epi. pose proof (Ef _ is_realtime Fr) as Ert.
  assert (forall x, ok w x -> ok w' x) as Hok by (intros x [Hr Hp]; split; [by rewrite Ert|by rewrite Ep]). split.
  - unfold fdom. eapply (dom_ok_reorder _ _ _ _ w); [apply (fi_dom _ _ Hi)|apply T|apply T|apply T|by apply Ef|..].
    + intros x d h Hx. by destruct (fi_queue _ _ Hi x _ Hx) as [[? _]|[? _]].
    + intros x p _. apply Hok.
    + intros a b p q _ _. unfold pfair_ready_order, pfair_higher_prio. by rewrite Ep, Ert, !Epi.
  - intros a b. rewrite !Epi. apply (fi_pids _ _ Hi).
  - intros x p Hx%(tc_at t w w'); [|done]. unfold rel. rewrite Ep. by apply (fi_queue _ _ Hi).
  - intros c x. unfold lk, rel. rewrite Ep, (Ef _ in_heap Fh), (Ef _ linked_on Fl). intros Hc El.
    rewrite Ep in Hok. destruct (fi_link _ _ Hi c x Hc El) as (? & ? & ? & ?). auto.
  - rewrite Ep. apply Hi.
Qed.

(** What the next read of the clock returns *)
Definition reading w : Z := clock w + default 0 (head (elapse w)).

Lemma clock_marks w (Φ : Z -> world -> Prop) :
  (forall w', marks w w' -> tasks w' = tasks w -> Φ (reading w) w') -> wp litmus_clock Φ w.
Proof.
  intros HΦ. unfold wp, litmus_clock, reading in *. destruct (elapse w) as [|d ds] eqn:E.
  - replace (clock w) with (clock w + default 0 (head (@nil Z))) by (simpl; lia). by apply HΦ.
  - by apply HΦ.
Qed.

Lemma joined_released t r p w w' :
  quantum_ok w -> pars w t = Some p -> 0 <= r < two62 -> joined t r w w' -> released t r w w'.
Proof. intros Hq Hp Hb J. split; [|split; apply J]. eapply joined_callback; try done. unfold enrolled. congruence. Qed.

Lemma joined_about t r w1 w w' :
  joined t r w w' -> about t w1 w -> scheduled_on (tasks w t) = scheduled_on (tasks w1 t) -> pars w t = pars w1 t -> joined t r w1 w'.
Proof.
  intros J A Es Ep. split; [apply J|transitivity w; [done|apply J]|by rewrite (jo_sched _ _ _ _ J)|apply J|by rewrite (jo_param _ _ _ _ J), Ep].
Qed.

Lemma pf_wake_up_spec t p w :
  quantum_ok w -> pars w t = Some p -> is_realtime (tasks w t) = true ->
  let r := time2quanta (tick_period w) (reading w) CEIL in
  (sporadic_release p = true -> merge_time (plugin w) < r <= merge_time (plugin w) + PFAIR_MAX_PERIOD /\ r < two62) ->
  wp (pfair_task_wake_up t)
    (fun _ w' => if sporadic_release p then released t r w w'
       else marks w w' /\ forall x, scheduled_on (tasks w' x) = scheduled_on (tasks w x)) w.
Proof.
  intros Hq Hp Hrt r Hr. unfold pfair_task_wake_up, tsk_pfair. wp_steps. exists p. split; [done|]. wp_steps. apply wp_when.
  destruct (sporadic_release p) eqn:Esp; [|apply check_preempt_spec]. destruct (Hr eq_refl) as [Hr1 Hb].
  pose proof (qk_good _ Hq t p Hp) as Hg. pose proof (release_range r w (qk_inv _ Hq) Hr1 Hb) as Hb'. wp_steps.
  apply clock_marks. intros w1 S1 Et1. wp_steps. apply job_spec; [apply (release_at_fields (reading w))|]. intros w2 T2 Ep2 Et2. wp_steps.
  pose proof (marks_finv _ w w1 S1 (qk_inv _ Hq)) as Hi1. pose proof (job_finv _ t w1 w2 Hi1 T2 Ep2) as Hi2.
  assert (plugin w2 = plugin w) as Epl by (by rewrite Ep2, (ma_plugin _ _ S1)).
  assert (about t w w2) as A2 by (transitivity w1; [apply marks_about; [done|by rewrite Et1]|by apply touched_about]).
  assert (is_realtime (tasks w2 t) = true) as Hrt2.
  { destruct (tc_fields _ _ _ T2) as (_ & -> & _). by rewrite Et1. }
  assert (~ fmember w2 t) as Hn2.
  { intros Hm. apply (qk_sporadic _ Hq t p Hp Esp), (ma_member w w1); [done|]. destruct Hm as [(c & Hc & El)|[q Hx]]; [left; exists c|right; exists q].
    - by rewrite Ep2 in Hc; rewrite (tc_lk t w1 w2) in El.
    - by apply (tc_at t w1 w2). }
  assert (tick_period w2 = tick_period w) as Etk by (by rewrite (tc_tick _ _ _ T2), (ma_tick _ _ S1)). rewrite Etk.
  apply (late_release_spec t r p w2); try done; [unfold finv; by rewrite Epl|by rewrite Epl|by rewrite Epl|]. intros w3 J3. wp_steps.
  eapply wp_mono; [apply check_preempt_spec|]. intros [] w4 [S4 Es4].
  eapply joined_released; try done. eapply joined_marks; try done. eapply joined_about; [done|done| |by rewrite Epl].
  destruct (tc_fields _ _ _ T2) as (_ & _ & _ & _ & -> & _). by rewrite Et1.
Qed.

(** *** [pfair_release_at] *)

(** The quantum of the release; releases too far away, and those in the past,
    happen one turn of the release queue from now. *)
Definition release_quantum (start : Z) w : Z :=
  let r := time2quanta (tick_period w) start CEIL in
  let now := pfair_time (plugin w) in
  if PFAIR_MAX_PERIOD <=? u64 (r - now) then u64 (now + PFAIR_MAX_PERIOD) else r.

Lemma release_quantum_range start w :
  let r := time2quanta (tick_period w) start CEIL in
  let now := pfair_time (plugin w) in
  0 <= now -> now + PFAIR_MAX_PERIOD < two62 -> 0 <= r < two64 -> r <> now ->
  now < release_quantum start w <= now + PFAIR_MAX_PERIOD /\
  (now < r < now + PFAIR_MAX_PERIOD -> release_quantum start w = r).
Proof.
  intros r now Hn Hb Hr Hne. unfold release_quantum. fold r now. unfold PFAIR_MAX_PERIOD, two62, two64 in *.
  rewrite (u64_small (now + 2000)) by (unfold two64; lia). destruct (Z.le_gt_cases now r).
  - rewrite u64_small by (unfold two64; lia). destruct (Z.leb_spec 2000 (r - now)); lia.
  - replace (u64 (r - now)) with (r - now + two64) by (unfold u64, two64; apply (Z.mod_unique _ _ (-1)); lia).
    unfold two64. destruct (Z.leb_spec 2000 (r - now + 18446744073709551616)); lia.
Qed.

Lemma dropped_out t w w' : finv w -> dropped t w w' -> finv w' /\ ~ fmember w' t.
Proof.
  intros Hi D. destruct (dropped_finv _ t w w' Hi D) as (Hi' & Hh & Hno). rewrite <- (dropped_field merge_time t w w' D (fun _ _ => eq_refl)) in Hi'.
  split; [done|]. intros [(c & Hc & El)|[p Hp]]; [by eapply Hno|]. by apply (dr_at _ _ _ D) in Hp as [_ ?].
Qed.

Lemma release_at_spec t p start w :
  quantum_ok w -> pars w t = Some p -> is_realtime (tasks w t) = true ->
  let r := release_quantum start w in
  merge_time (plugin w) < r <= merge_time (plugin w) + PFAIR_MAX_PERIOD -> r < two62 ->
  wp (pfair_release_at t start) (fun _ w' => released t r w w') w.
Proof.
  intros Hq Hp Hrt r Hr Hb. pose proof (qk_good _ Hq t p Hp) as Hg. pose proof (release_range r w (qk_inv _ Hq) Hr Hb) as Hb'.
  unfold pfair_release_at, get_task. wp_steps; [by rewrite Hrt|]. apply job_spec; [apply (release_at_fields start)|]. intros w1 T1 Ep1 Et1. wp_steps.
  pose proof (job_finv _ t w w1 (qk_inv _ Hq) T1 Ep1) as Hi1. assert (finv w1) as Hi1' by (unfold finv; by rewrite Ep1).
  eapply wp_mono; [exact (drop_spec _ t w1 Hi1)|]. intros [] w2 D. cbv beta in D. wp_steps. rewrite (tc_tick _ _ _ T1), Ep1.
  destruct (dropped_out t w1 w2 Hi1' D) as [Hi2 Hn2].
  assert (pars w2 = pars w) as Epa by (rewrite (dropped_field params t w1 w2 D), Ep1; done).
  assert (merge_time (plugin w2) = merge_time (plugin w)) as Em by (rewrite (dropped_field merge_time t w1 w2 D), Ep1; done).
  assert (forall {A} (f : task_struct -> A), (forall y, f (core y) = f y) -> f (tasks w1 t) = f (tasks w t) -> f (tasks w2 t) = f (tasks w t)) as Ef.
  { intros A f Hf E. by rewrite <- Hf, (dr_core _ _ _ D), Hf. }
  apply (late_release_spec t r p w2); try done; [by rewrite (Ef _ is_realtime) by (done || apply (tc_fields _ _ _ T1))|by rewrite Epa|by rewrite Em|].
  intros w3 J3. eapply joined_released; try done. eapply joined_about; [done| | |by rewrite Epa].
  - transitivity w1; [by apply touched_about|by apply dropped_about].
  - apply (Ef _ scheduled_on); [done|apply (tc_fields _ _ _ T1)].
Qed.

(** *** [pfair_task_exit] *)

(** No processor refers to [t]. *)
Definition unreferenced t w : Prop :=
  forall c, cpu w c -> let s := pstate (plugin w) c in p_linked s <> Some t /\ local s <> Some t /\ p_scheduled s <> Some t.

Lemma forget_not t (o : option tid) : forget t o <> Some t.
Proof. unfold forget. by case_decide. Qed.

Lemma pf_exit_spec t w :
  quantum_ok w -> is_realtime (tasks w t) = true ->
  wp (pfair_task_exit t) (fun _ w' => callback t w w' /\ ~ fmember w' t /\ pars w' t = None /\ unreferenced t w') w.
Proof.
  intros Hq Hrt. unfold pfair_task_exit, get_task, upd_state. wp_steps; [by rewrite Hrt|].
  eapply wp_mono; [exact (drop_spec _ t w (qk_inv _ Hq))|]. intros [] w1 D. cbv beta in D. wp_steps.
  destruct (dropped_out t w w1 (qk_inv _ Hq) D) as [Hi1 Hn1]. destruct (not_member_out w1 t Hi1 Hn1) as [Hh1 Hno1].
  set (w2 := set_plugin _ w1). assert (touched t w1 w2) as T.
  { split; try done; [intros x Hx; simpl; by rewrite upd_ne|simpl; by destruct (plugin w1)]. }
  destruct (touched_finv_out t w1 w2 Hi1 Hh1 Hno1 T) as (Hi2 & Hh2 & Hno2).
  assert (~ fmember w2 t) as Hn2.
  { intros [(c & Hc & El)|Hp]; [by eapply Hno2|]. apply (qo_heap _ _ _ (fi_dom _ _ Hi2)) in Hp. congruence. }
  assert (pars w2 t = None) as Ep by (simpl; by rewrite upd_eq).
  split_and!; [|done|done|].
  - split; [done|transitivity w1; [by apply dropped_about|by apply touched_about]|by left|left].
    by apply (core_field scheduled_on), (dr_core _ _ _ D).
  - intros c Hc. change (pstate (plugin w2) c) with (pstate (plugin w1) c). change (cpu_ok (plugin w2) c) with (cpu_ok (plugin w1) c) in Hc.
    rewrite (dropped_field (fun g => cpu_ok g c) t w w1 D) in Hc by done. rewrite (dr_state _ _ _ D), Hc. split_and!; apply forget_not.
Qed.

(** *** [pfair_schedule] *)

(** The task the processor should run: the local copy of the link, if it can run *)
Definition pick (me : Z) w : option tid :=
  match local (pstate (plugin w) me) with
  | Some l => if safe_to_schedule (tasks w l) me then Some l else None
  | None => None
  end.

(** The context switch that follows [schedule] *)
Definition switched (c : Z) (n : tid) w : world := set_curr (upd (curr w) c n) w.

Lemma schedule_marks prev w :
  quantum_ok w -> cpu w (this_cpu w) ->
  wp (pfair_schedule prev) (fun next w' => next = pick (this_cpu w) w /\ marks w w' /\
    forall x, scheduled_on (tasks w' x) =
      if decide (next = Some prev) then scheduled_on (tasks w x)
      else if decide (next = Some x) then this_cpu w else if decide (x = prev) then NO_CPU else scheduled_on (tasks w x)) w.
Proof.
  intros Hq Hc. unfold pfair_schedule. wp_steps. apply get_pstate_spec; [done|]. wp_steps. rewrite (qk_self _ Hq _ Hc).
  eapply (wp_mono _ (fun next w' => next = pick (this_cpu w) w /\ w' = w)).
  { unfold pick. destruct (local _) as [l|]; unfold get_task; by wp_steps. }
  intros next ? [-> ->]. wp_steps. apply wp_when. set (next := pick (this_cpu w) w). case_bool_decide as En; wp_steps.
  - destruct next as [n|]; unfold upd_task; wp_steps.
    + split; [done|]. split; [etransitivity; [apply upd_sched_marks|]; apply (upd_sched_marks n _ (set_tasks _ _))|].
      intros x. rewrite (decide_False (P:=_ = Some prev)) by done. simpl. unfold upd. by repeat case_decide; simplify_eq.
    + split; [done|]. split; [apply upd_sched_marks|]. intros x. rewrite (decide_False (P:=_ = Some prev)) by done. simpl. unfold upd. by repeat case_decide; simplify_eq.
  - split; [done|]. split; [done|]. intros x. by rewrite decide_True.
Qed.

Lemma switched_ok me next idle w w' :
  quantum_ok w -> marks w w' -> cpu w me ->
  (forall x, scheduled_on (tasks w' x) =
     if decide (next = Some (curr w me)) then scheduled_on (tasks w x)
     else if decide (next = Some x) then me else if decide (x = curr w me) then NO_CPU else scheduled_on (tasks w x)) ->
  quantum_ok (switched me (default idle next) w').
Proof.
  intros Hq S Hc Es. pose proof (ma_plugin _ _ S) as Ep. pose proof (marks_finv _ w w' S (qk_inv _ Hq)) as Hi.
  set (w2 := switched _ _ w').
  assert (forall x, fmember w2 x <-> fmember w x) as Hm by (intros x; change (fmember w2 x) with (fmember w' x); by apply ma_member).
  assert (finv w2) as Hi2 by (unfold finv; change (plugin w2) with (plugin w'); rewrite Ep; destruct Hi as [Hd ? ? ? ?]; split; [destruct Hd; by split|done..]).
  split; try done; change (plugin w2) with (plugin w'); rewrite ?Ep; try apply Hq.
  - intros x p Hp Hs. rewrite Hm. by eapply (qk_sporadic _ Hq).
  - intros x Hx. unfold enrolled in Hx. change (plugin w2) with (plugin w') in *. rewrite Ep in *. simpl. rewrite Es, (ma_curr _ _ S). unfold upd.
    pose proof (qk_runs _ Hq x Hx) as Hr. pose proof (qk_cpus _ Hq) as Hnc.
    assert (me <> NO_CPU) as Hne by congruence. repeat case_decide; simplify_eq; simpl; auto; destruct Hr as [?|[? ?]]; simplify_eq; auto; try congruence.
Qed.

(** C27: [pfair_schedule] executes the local copy of the processor's link if that
    task can run and is not scheduled elsewhere, and no task otherwise; it never
    faults.  The task it returns is the only one scheduled on this processor, no
    task is scheduled on two, and the state is again one between quanta once the
    processor has switched to that task. *)
Theorem pfair_schedule_correct idle w :
  quantum_ok w -> cpu w (this_cpu w) ->
  exists next w', pfair_schedule (curr w (this_cpu w)) w = Some (next, w') /\ next = pick (this_cpu w) w /\
    quantum_ok (switched (this_cpu w) (default idle next) w') /\
    (forall n, next = Some n -> n <> curr w (this_cpu w) -> scheduled_on (tasks w' n) = this_cpu w) /\
    (forall x, enrolled w x -> scheduled_on (tasks w' x) = this_cpu w -> next = Some x).
Proof.
  intros Hq Hc. pose proof (schedule_marks (curr w (this_cpu w)) w Hq Hc) as Hw. unfold wp in Hw.
  destruct (pfair_schedule _ w) as [[next w']|]; [|done]. destruct Hw as (En & S & Es). exists next, w'. split_and!; [done|done| | |].
  - by eapply switched_ok.
  - intros n -> Hn. rewrite Es, decide_False by congruence. by rewrite decide_True.
  - intros x Hx. rewrite Es. pose proof (qk_runs _ Hq x Hx) as Hr. pose proof (qk_cpus _ Hq) as Hnc. assert (this_cpu w <> NO_CPU) as Hne by congruence.
    repeat case_decide; intros E; destruct Hr as [Hr|[_ Hr]]; rewrite ?E in Hr; congruence.
Qed.

(** [pfair_release_at] never faults, wherever the task is: it takes the task
    out of its queue and from all processors, and queues it for a job that is
    released in the quantum in which [start] lies, rounded up, if that is later
    than the present one and less than a turn of the release queue away.  The
    other tasks stay where they are. *)
Theorem pfair_release_at_correct t p start w :
  quantum_ok w -> params (plugin w) t = Some p -> is_realtime (tasks w t) = true ->
  let now := pfair_time (plugin w) in
  let r := time2quanta (tick_period w) start CEIL in
  merge_time (plugin w) = now -> now < r < now + PFAIR_MAX_PERIOD -> now + PFAIR_MAX_PERIOD < two62 ->
  exists w', pfair_release_at t start w = Some (tt, w') /\ quantum_ok w' /\ released t r w w'.
Proof.
  intros Hq Hp Hrt now r Em Hr Hb. pose proof (fi_merge _ _ (qk_inv _ Hq)) as [Hm _].
  destruct (release_quantum_range start w) as [_ Er]; fold now r; [lia|done|unfold PFAIR_MAX_PERIOD, two62, two64 in *; lia|lia|]. fold now r in Er.
  specialize (Er Hr). pose proof (release_at_spec t p start w Hq Hp Hrt) as Hw. rewrite Er in Hw.
  specialize (Hw ltac:(lia) ltac:(lia)). unfold wp in Hw. destruct (pfair_release_at t start w) as [[[] w']|]; [|done].
  exists w'. split_and!; [done| |done]. apply (callback_ok t w); [done|]. apply Hw.
Qed.
End Tasks.
