(* ===== verification/PfairTick.v ===== *)
(** * PD^2: ticks, and the plugin as a whole

    Every processor calls [pfair_tick]; the first to reach a new quantum claims
    it by advancing [pfair_time] and schedules it for all processors.  Processors
    are interleaved at their accesses to shared memory.  However they
    interleave, and whatever the other callbacks do in between, the quanta are
    scheduled one after the other and each once. *)

From S2P Require Import Prelude Task Edf PrioQueue Kernel RtDomain RtInv EdfDomain.
From S2P Require Import Pfair PfairSub PfairInv PfairLink PfairTop PfairQuantum PfairAdvance PfairNext PfairTask.
Open Scope Z_scope.

(** Where a processor is in [pfair_tick].  [retry] counts the attempts that are
    left; [cur] is the quantum it has read. *)
Inductive tick_pc : Type :=
  | TIdle
  | TStart (retry : nat)                    (* the head of the loop *)
  | TRead (retry : nat) (cur : Z)           (* before [cmpxchg] *)
  | TClaimed (cur : Z)                      (* waits for the quantum before [cur], which it schedules then *)
  | TCatch (retry : nat) (target cur : Z)   (* the head of the loop of [catchup_quanta] *)
  | TCatchClaim (retry : nat) (target cur : Z)   (* has seen [cur], before [cmpxchg] *)
  | TCatchSched (retry : nat) (target cur : Z)   (* has claimed [cur] *)
  | TWait (cur : Z)                         (* spins until [cur] has been scheduled *)
  | TCopied.                                (* has copied its link *)

(** [retry--; while (retry)] *)
Definition again (retry : nat) (cur : Z) : tick_pc :=
  match pred retry with O => TWait cur | S r => TStart (S r) end.

Definition after_attempt (retry : nat) (cur : Z) (r : tick_case) : tick_pc :=
  match r with
  | TickFirst => TClaimed cur
  | TickMissed time => TCatch retry cur time
  | TickLate => again retry cur
  | TickOther => TWait cur
  end.

(** ** Claims on quanta *)

(** The quantum the processor has to schedule *)
Definition claim (p : tick_pc) : option Z :=
  match p with TClaimed q | TCatchSched _ _ q => Some q | _ => None end.

(** [m] is the last quantum that has been scheduled, [P] the last one claimed. *)
Definition pc_ok (m P : Z) (p : tick_pc) : Prop :=
  match p with
  | TRead _ cur => is_u64 cur
  | TCatch _ _ q => 0 <= q <= P
  | TCatchClaim _ _ q => 0 <= q <= m
  | TCatchSched _ _ q => q = m + 1
  | _ => True
  end.

Record claims (C : Z -> Prop) (m P : Z) (pc : Z -> tick_pc) : Prop := {
  cl_range c q : C c -> claim (pc c) = Some q -> m < q <= P;
  cl_held q : m < q <= P -> exists c, C c /\ claim (pc c) = Some q;
  cl_once c c' q : C c -> C c' -> claim (pc c) = Some q -> claim (pc c') = Some q -> c = c';
  cl_pc c : C c -> pc_ok m P (pc c)
}.

Section Claims.
Context (C : Z -> Prop) (m P : Z) (pc : Z -> tick_pc) (Hc : claims C m P pc).

Lemma claims_goto c p : claim (pc c) = None -> claim p = None -> pc_ok m P p -> claims C m P (upd pc c p).
Proof using Hc.
  intros E Ep Hp. split.
  - intros c' q H'. unfold upd. case_decide; [by rewrite Ep|by apply (cl_range _ _ _ _ Hc)].
  - intros q Hq. destruct (cl_held _ _ _ _ Hc q Hq) as (c' & H' & E'). exists c'. split; [done|]. rewrite upd_ne; [done|]. intros ->. congruence.
  - intros c1 c2 q H1 H2. unfold upd. repeat case_decide; rewrite ?Ep; try done. by apply (cl_once _ _ _ _ Hc).
  - intros c' H'. unfold upd. case_decide; [done|by apply (cl_pc _ _ _ _ Hc)].
Qed.

Lemma pc_ok_next c : C c -> claim (pc c) <> Some (m + 1) -> pc_ok (m + 1) P (pc c).
Proof using Hc. intros H Hn. pose proof (cl_pc _ _ _ _ Hc c H) as Hp. destruct (pc c); simpl in *; try done; [lia|]. subst. congruence. Qed.

Lemma pc_ok_claimed c : C c -> pc_ok m (P + 1) (pc c).
Proof using Hc. intros H. pose proof (cl_pc _ _ _ _ Hc c H) as Hp. destruct (pc c); simpl in *; try done. lia. Qed.

Lemma claims_claim c p : C c -> m <= P -> claim (pc c) = None -> claim p = Some (P + 1) -> pc_ok m (P + 1) p -> claims C m (P + 1) (upd pc c p).
Proof using Hc.
  intros HC Hm E Ep Hp. assert (forall c' q, C c' -> claim (pc c') = Some q -> q <> P + 1) as Hne.
  { intros c' q H' E'. pose proof (cl_range _ _ _ _ Hc c' q H' E'). lia. }
  split.
  - intros c' q H'. unfold upd. case_decide; [rewrite Ep; intros [= <-]; lia|]. intros E'. pose proof (cl_range _ _ _ _ Hc c' q H' E'). lia.
  - intros q Hq. destruct (decide (q = P + 1)) as [->|Hq']; [exists c; by rewrite upd_eq|].
    destruct (cl_held _ _ _ _ Hc q ltac:(lia)) as (c' & H' & E'). exists c'. split; [done|]. rewrite upd_ne; [done|]. intros ->. congruence.
  - intros c1 c2 q H1 H2. unfold upd. repeat case_decide; subst; rewrite ?Ep; try done.
    + intros [= <-] E2. by destruct (Hne c2 _ H2 E2).
    + intros E1 [= <-]. by destruct (Hne c1 _ H1 E1).
    + by apply (cl_once _ _ _ _ Hc).
  - intros c' H'. unfold upd. case_decide; [done|by apply pc_ok_claimed].
Qed.

Lemma claims_done c p : C c -> claim (pc c) = Some (m + 1) -> claim p = None -> pc_ok (m + 1) P p -> claims C (m + 1) P (upd pc c p).
Proof using Hc.
  intros HC E Ep Hp. assert (forall c', C c' -> c' <> c -> claim (pc c') <> Some (m + 1)) as Hne.
  { intros c' H' Hn E'. by apply Hn, (cl_once _ _ _ _ Hc _ _ (m + 1)). }
  split.
  - intros c' q H'. unfold upd. case_decide as Ec; [by rewrite Ep|]. intros E'. pose proof (cl_range _ _ _ _ Hc c' q H' E').
    assert (q <> m + 1) by (intros ->; by eapply Hne). lia.
  - intros q Hq. destruct (cl_held _ _ _ _ Hc q ltac:(lia)) as (c' & H' & E'). exists c'. split; [done|]. rewrite upd_ne; [done|].
    intros ->. assert (q = m + 1) by congruence. lia.
  - intros c1 c2 q H1 H2. unfold upd. repeat case_decide; rewrite ?Ep; try done. by apply (cl_once _ _ _ _ Hc).
  - intros c' H'. unfold upd. case_decide; [done|]. apply pc_ok_next; auto.
Qed.
End Claims.

Section Tick.
Context {Q : Type -> Type} `{PrioQueueLaws Q}.
Abbreviation world := (world Q fstate).
Abbreviation K := (M world).
Implicit Types (w : world) (t : tid) (c d : Z).
Abbreviation pars w := (params (plugin w)).
Abbreviation cpu w c := (cpu_ok (plugin w) c = true).

(** The machine: its state, where the processors are, and the quanta that have
    been scheduled *)
Record conf : Type := mk_conf { cw : world; pc : Z -> tick_pc; sched : list Z }.

(** The next step of processor [c] in [pfair_tick]; [None] while it spins *)
Definition tick_next (c : Z) (s : conf) : option conf :=
  let w := cw s in
  let goto w' p := mk_conf w' (upd (pc s) c p) (sched s) in
  let prepare q p := '(_, w') ← schedule_next_quantum q w; Some (mk_conf w' (upd (pc s) c p) (sched s ++ [q])) in
  match pc s c with
  | TIdle => Some (goto w (TStart 10))
  | TStart r => '(cur, w') ← current_quantum c w; Some (goto w' (TRead r cur))
  | TRead r cur => '(case, w') ← tick_attempt cur w; Some (goto w' (after_attempt r cur case))
  | TClaimed cur => if quantum_reached (u64 (cur - 1)) (plugin w) c then prepare cur (TWait cur) else None
  | TCatch r target cur =>
      if time_before cur target then
        if quantum_reached cur (plugin w) c then Some (goto w (TCatchClaim r target cur)) else None
      else Some (goto w (again r target))
  | TCatchClaim r target cur =>
      let cur := u64 (cur + 1) in
      '(time, w') ← cmpxchg_time (u64 (cur - 1)) cur w;
      Some (goto w' (if time =? u64 (cur - 1) then TCatchSched r target cur else TCatch r target cur))
  | TCatchSched r target cur => prepare cur (TCatch r target cur)
  | TWait cur => if quantum_reached cur (plugin w) c then '(_, w') ← tick_copy c w; Some (goto w' TCopied) else None
  | TCopied => '(_, w') ← tick_signal c w; Some (goto w' TIdle)
  end.

(** The other callbacks, called as the kernel calls them; a task that is
    admitted finds zero in the fields that are not initialised and weighs at
    most one; a waking or released task is released after the quanta whose
    releases have been polled. *)
Inductive event : world -> world -> Prop :=
  | ev_cpu c w : event w (set_this_cpu c w)
  | ev_flags t (b : bool) (f : Z) w : event w (set_tasks (upd (tasks w) t (set_present b (set_rt_flags f (tasks w t)))) w)
  | ev_schedule idle next w w' :
      cpu w (this_cpu w) -> pfair_schedule (curr w (this_cpu w)) w = Some (next, w') ->
      event w (switched (this_cpu w) (default idle next) w')
  | ev_admit t sr r w w' :
      ~ enrolled w t -> scheduled_on (tasks w t) = NO_CPU -> 0 < merge_time (plugin w) ->
      0 < time2quanta (tick_period w) (get_exec_cost (tasks w t)) CEIL <= get_rt_period (tasks w t) / tick_period w ->
      pfair_admit_task (Some (0, 0, sr)) t w = Some (r, w') -> event w w'
  | ev_new t p on_rq running w w' :
      pars w t = Some p -> is_realtime (tasks w t) = true -> ~ fmember w t ->
      (running = true -> cpu w (task_cpu (tasks w t)) /\ curr w (task_cpu (tasks w t)) = t) ->
      pfair_task_new t on_rq running w = Some (tt, w') -> event w w'
  | ev_wake_up t p w w' :
      pars w t = Some p -> is_realtime (tasks w t) = true ->
      (let r := time2quanta (tick_period w) (reading w) CEIL in
       sporadic_release p = true -> merge_time (plugin w) < r <= merge_time (plugin w) + PFAIR_MAX_PERIOD /\ r < two62) ->
      pfair_task_wake_up t w = Some (tt, w') -> event w w'
  | ev_release_at t p start w w' :
      pars w t = Some p -> is_realtime (tasks w t) = true ->
      merge_time (plugin w) < release_quantum start w <= merge_time (plugin w) + PFAIR_MAX_PERIOD -> release_quantum start w < two62 ->
      pfair_release_at t start w = Some (tt, w') -> event w w'
  | ev_exit t w w' : is_realtime (tasks w t) = true -> pfair_task_exit t w = Some (tt, w') -> event w w'.

(** Quanta can be compared until 2^62 of them have passed. *)
Definition in_horizon w : Prop := 0 < tick_period w /\ pfair_time (plugin w) + 2 * PFAIR_MAX_PERIOD < two62.

Inductive machine_step : conf -> conf -> Prop :=
  | step_tick c s s' : cpu (cw s) c -> tick_next c s = Some s' -> in_horizon (cw s') -> machine_step s s'
  | step_event s w' : event (cw s) w' -> in_horizon w' -> machine_step s (mk_conf w' (pc s) (sched s)).

(** ** The callbacks keep the invariant *)

(** From what a computation guarantees to its result in a run *)
Local Ltac of_run Hw := unfold wp in Hw; match goal with E : _ = Some (_, _) |- _ => rewrite E in Hw end.

Record undisturbed w w' : Prop := {
  un_ok : quantum_ok w';
  un_globals : globals (plugin w') = globals (plugin w);
  un_tick c : cur_tick (pstate (plugin w') c) = cur_tick (pstate (plugin w) c)
}.

Lemma marks_ok w w' :
  quantum_ok w -> marks w w' -> (forall x, scheduled_on (tasks w' x) = scheduled_on (tasks w x)) -> undisturbed w w'.
Proof.
  intros Hq S Es. pose proof (ma_plugin _ _ S) as Ep. split; rewrite ?Ep; try done.
  pose proof (marks_finv _ w w' S (qk_inv _ Hq)) as Hi. split; unfold finv, enrolled; rewrite ?Ep; try apply Hq; [done|..].
  - intros x p Hp Hs Hm. apply (qk_sporadic _ Hq x p Hp Hs). by apply (ma_member w w').
  - intros x Hx. rewrite Es, (ma_curr _ _ S). by apply (qk_runs _ Hq).
Qed.

Lemma callback_undisturbed t w w' : quantum_ok w -> callback t w w' -> undisturbed w w'.
Proof.
  intros Hq C. split; [by eapply callback_ok|apply (cb_about _ _ _ C)|]. intros c. pose proof (ab_ticks _ _ _ (cb_about _ _ _ C) c) as E. congruence.
Qed.

Lemma schedule_undisturbed idle next w w' :
  quantum_ok w -> cpu w (this_cpu w) -> pfair_schedule (curr w (this_cpu w)) w = Some (next, w') ->
  undisturbed w (switched (this_cpu w) (default idle next) w').
Proof.
  intros Hq Hc E. pose proof (schedule_marks (curr w (this_cpu w)) w Hq Hc) as Hw. unfold wp in Hw. rewrite E in Hw. destruct Hw as (-> & S & Es).
  split; [by eapply switched_ok|..]; simpl; by rewrite (ma_plugin _ _ S).
Qed.

(** A task that weighs at most one *)
Lemma admitted_good (e p lq lc : Z) (sr : bool) :
  0 < e <= p -> p < PFAIR_MAX_PERIOD ->
  let '(e, p) := if e =? p then (1, 1) else (e, p) in good_param (mk_pparam e 0 0 p lq lc sr (init_subtasks e p)).
Proof. intros He Hp. destruct (Z.eqb_spec e p); split; simpl; unfold PFAIR_MAX_PERIOD, two62 in *; try done; lia. Qed.

Lemma enroll_ok t p w :
  quantum_ok w -> ~ enrolled w t -> scheduled_on (tasks w t) = NO_CPU -> 0 <= last_quantum p < merge_time (plugin w) -> good_param p ->
  undisturbed w (set_plugin (set_params (upd (pars w) t (Some p)) (plugin w)) w).
Proof.
  intros Hq Hn Hs Hl Hg. assert (pars w t = None) as Et by (unfold enrolled in Hn; destruct (pars w t); [|done]; by destruct Hn).
  assert (~ fmember w t) as Hm by (intros [q Hp]%(member_param _ _ _ (qk_inv _ Hq)); congruence).
  destruct (not_member_out w t (qk_inv _ Hq) Hm) as [Hh Hno]. set (w' := set_plugin _ w).
  assert (touched t w w') as T by (split; try done; [intros x Hx; simpl; by rewrite upd_ne|simpl; by destruct (plugin w)]).
  destruct (touched_finv_out t w w' (qk_inv _ Hq) Hh Hno T) as (Hi' & Hh' & Hno').
  assert (forall x, fmember w' x <-> fmember w x) as Hme.
  { intros x. destruct (decide (x = t)) as [->|Hx]; [|by apply (ab_members _ _ _ (touched_about t w w' T))]. split; [|done].
    intros [(c & Hc & El)|Hp]; [by destruct (Hno' c)|]. apply (qo_heap _ _ _ (fi_dom _ _ Hi')) in Hp. congruence. }
  assert (forall x q, pars w' x = Some q -> x = t /\ q = p \/ pars w x = Some q) as Hc.
  { intros x q. simpl. unfold upd. case_decide; [intros [= <-]; by left|by right]. }
  split; [|done|done]. split; try apply Hq; try done.
  - intros x q [[-> ->]|E]%Hc; [done|by eapply (qk_good _ Hq)].
  - intros x q [[-> ->]|E]%Hc Hsp; rewrite Hme; [done|by eapply (qk_sporadic _ Hq)].
  - intros x Hx. destruct (decide (x = t)) as [->|Hne]; [by left|]. apply (qk_runs _ Hq). unfold enrolled in *. simpl in Hx. by rewrite upd_ne in Hx.
  - intros x q [[-> ->]|E]%Hc; [simpl; lia|by eapply (qk_last _ Hq)].
  - intros x q [[-> ->]|E]%Hc; [simpl; lia|by eapply (qk_last_cpu _ Hq)].
  - intros x q x' q' [[-> ->]|E]%Hc [[-> ->]|E']%Hc; simpl; [lia..|]. by eapply (qk_last_once _ Hq).
Qed.

Lemma admit_undisturbed t sr r w w' :
  quantum_ok w -> ~ enrolled w t -> scheduled_on (tasks w t) = NO_CPU -> 0 < merge_time (plugin w) ->
  0 < time2quanta (tick_period w) (get_exec_cost (tasks w t)) CEIL <= get_rt_period (tasks w t) / tick_period w ->
  pfair_admit_task (Some (0, 0, sr)) t w = Some (r, w') -> undisturbed w w'.
Proof.
  intros Hq Hn Hs Hm Hw. pose proof (admitted_good _ _ 0 0 sr Hw) as Hg. revert Hg. unfold pfair_admit_task, mbind, M_bind, get_task, gets. simpl.
  destruct (Z.leb_spec PFAIR_MAX_PERIOD (get_rt_period (tasks w t) / tick_period w)) as [Hp|Hp]; [intros _ [= <- <-]; by split|].
  intros Hg. specialize (Hg ltac:(lia)). destruct (_ =? _); intros [= <- <-]; by apply enroll_ok.
Qed.

Lemma event_ok w w' :
  quantum_ok w -> merge_time (plugin w) <= pfair_time (plugin w) < merge_time (plugin w) + PFAIR_MAX_PERIOD -> in_horizon w ->
  event w w' -> undisturbed w w'.
Proof.
  intros Hq Ht [_ Hb] Ev. destruct Ev.
  - apply marks_ok; [done|by split|done].
  - apply marks_ok; [done|split; try done|]; intros x; simpl; unfold upd; case_decide; by subst.
  - by apply schedule_undisturbed.
  - by eapply admit_undisturbed.
  - pose proof (pf_task_new_spec t p on_rq running w Hq) as Hw. of_run Hw. apply (callback_undisturbed t); [done|]. apply Hw; try done.
    + lia.
    + unfold PFAIR_MAX_PERIOD in *. lia.
  - pose proof (pf_wake_up_spec t p w Hq) as Hw. of_run Hw. specialize (Hw ltac:(done) ltac:(done) ltac:(done)).
    destruct (sporadic_release p); [apply (callback_undisturbed t); [done|apply Hw]|]. by destruct Hw as [? ?]; apply marks_ok.
  - pose proof (release_at_spec t p start w Hq) as Hw. of_run Hw. apply (callback_undisturbed t); [done|]. by apply Hw.
  - pose proof (pf_exit_spec t w Hq) as Hw. of_run Hw. apply (callback_undisturbed t); [done|]. by apply Hw.
Qed.
End Tick.
