(* ===== verification/PfairMachine.v ===== *)
(** * PD^2: every quantum is scheduled once, in order *)

From S2P Require Import Prelude Task Edf PrioQueue Kernel RtDomain RtInv EdfDomain.
From S2P Require Import Pfair PfairSub PfairInv PfairLink PfairTop PfairQuantum PfairAdvance PfairNext PfairTask PfairTick.
Open Scope Z_scope.

Section Machine.
Context {Q : Type -> Type} `{PrioQueueLaws Q}.
Abbreviation world := (world Q fstate).
Abbreviation K := (M world).
Abbreviation conf := (conf (Q:=Q)).
Implicit Types (w : world) (t : tid) (c d : Z) (s : conf).
Abbreviation pars w := (params (plugin w)).
Abbreviation cpu w c := (cpu_ok (plugin w) c = true).

(** ** The steps of a tick *)

(** The links and the number of a processor are all the invariant needs of its
    state. *)
Lemma state_ok (ps : Z -> pfair_state) w :
  quantum_ok w -> (forall c, p_linked (ps c) = lk w c /\ s_cpu (ps c) = s_cpu (pstate (plugin w) c)) ->
  quantum_ok (set_plugin (set_pstate ps (plugin w)) w).
Proof.
  intros Hq Hps. set (w' := set_plugin _ w). assert (forall c, lk w' c = lk w c) as El by (intros c; apply Hps).
  assert (forall x, fmember w' x <-> fmember w x) as Hm by (intros x; unfold fmember; apply or_iff_compat_r; by setoid_rewrite El).
  pose proof (qk_inv _ Hq) as Hi. split; try apply Hq.
  - destruct Hi as [Hd ? ? Hl ?]. split; try done; [destruct Hd; by split|]. intros c x Hc. rewrite El. by apply Hl.
  - intros x p Hp Hs. rewrite Hm. by eapply (qk_sporadic _ Hq).
  - intros c Hc. simpl. rewrite (proj2 (Hps c)). by apply (qk_self _ Hq).
Qed.

Lemma pfair_time_ok v w : quantum_ok w -> quantum_ok (set_plugin (set_pfair_time v (plugin w)) w).
Proof.
  intros Hq. pose proof (qk_inv _ Hq) as Hi. split; try apply Hq. destruct Hi as [Hd ? ? ? ?]. split; try done. destruct Hd; by split.
Qed.

Lemma current_quantum_spec c w :
  quantum_ok w -> cpu w c -> 0 < tick_period w ->
  wp (current_quantum c) (fun q w' => is_u64 q /\ undisturbed w w' /\ tick_period w' = tick_period w) w.
Proof.
  intros Hq Hc Ht. unfold current_quantum. wp_steps. apply clock_marks. intros w1 S1 Et1. wp_steps. apply get_pstate_spec; [by rewrite (ma_plugin _ _ S1)|].
  wp_steps. rewrite (ma_tick _ _ S1). split_and!; [|apply marks_ok; [done|done|by rewrite Et1]|done].
  unfold time2quanta. set (x := u64 _). assert (is_u64 x) as Hx by (apply Z.mod_pos_bound; done). unfold is_u64 in *.
  split; [apply Z.div_pos; lia|]. apply Z.div_lt_upper_bound; [done|]. nia.
Qed.

Lemma tick_copy_spec c w :
  quantum_ok w -> cpu w c -> wp (tick_copy c) (fun _ w' => undisturbed w w' /\ local (pstate (plugin w') c) = lk w c) w.
Proof.
  intros Hq Hc. unfold tick_copy, upd_pstate, upd_state. wp_steps. repeat (apply get_pstate_spec; [done|]; wp_steps).
  match goal with |- context [undisturbed w ?x] => set (w1 := x) end. split; [|simpl; by rewrite upd_eq]. split; [|done|]; simpl.
  - apply (state_ok (pstate (plugin w1)) w); [done|]. intros c'. simpl. unfold upd. case_decide; by subst.
  - intros c'. unfold upd. case_decide; by subst.
Qed.

Lemma tick_signal_spec c w : quantum_ok w -> cpu w c -> wp (tick_signal c) (fun _ w' => undisturbed w w') w.
Proof.
  intros Hq Hc. unfold tick_signal, upd_pstate, upd_state, get_task. wp_steps. repeat (apply get_pstate_spec; [done|]; wp_steps).
  match goal with |- wp _ _ ?x => set (w1 := x) end. assert (undisturbed w w1) as [V1 V2 V3].
  { split; [|done|]; simpl.
    - apply (state_ok (pstate (plugin w1)) w); [done|]. intros c'. simpl. unfold upd. case_decide; by subst.
    - intros c'. unfold upd. case_decide; by subst. }
  eapply (wp_mono _ (fun _ w' => w' = w1)); [destruct (local _); unfold get_task; by wp_steps|]. intros y ? ->. wp_steps. apply wp_when.
  destruct (_ && _); [|done]. unfold set_tsk_need_resched, upd_task. wp_steps.
  set (w2 := set_tasks _ w1). assert (undisturbed w1 w2) as [U1 U2 U3].
  { apply marks_ok; [done|split; try done|]; intros x; simpl; unfold upd; case_decide; by subst. }
  split; [done|by rewrite U2|intros c'; by rewrite U3].
Qed.

(** ** The invariant of the machine *)

(** The quanta after [m0] up to [m] *)
Definition quanta_after (m0 m : Z) : list Z := (fun i => m0 + 1 + Z.of_nat i) <$> seq 0 (Z.to_nat (m - m0)).

Lemma quanta_after_next m0 m : m0 <= m -> quanta_after m0 (m + 1) = quanta_after m0 m ++ [m + 1].
Proof.
  intros Hm. unfold quanta_after. replace (Z.to_nat (m + 1 - m0)) with (S (Z.to_nat (m - m0))) by lia.
  rewrite seq_S, fmap_app. simpl. do 2 f_equal. lia.
Qed.

Lemma elem_quanta m0 m q : q ∈ quanta_after m0 m <-> m0 < q <= m.
Proof.
  unfold quanta_after. rewrite list_elem_of_fmap. split.
  - intros (i & -> & Hi). rewrite elem_of_seq in Hi. lia.
  - intros Hq. exists (Z.to_nat (q - m0 - 1)). rewrite elem_of_seq. lia.
Qed.

Record tick_inv (m0 : Z) s : Prop := {
  ti_ok : quantum_ok (cw s);
  ti_tick c : cpu (cw s) c -> cur_tick (pstate (plugin (cw s)) c) = merge_time (plugin (cw s));
  ti_order : m0 <= merge_time (plugin (cw s)) <= pfair_time (plugin (cw s));
  ti_horizon : in_horizon (cw s);
  ti_few : Z.of_nat (num_online_cpus (plugin (cw s))) < PFAIR_MAX_PERIOD;
  ti_claims : claims (fun c => cpu (cw s) c) (merge_time (plugin (cw s))) (pfair_time (plugin (cw s))) (pc s);
  ti_sched : sched s = quanta_after m0 (merge_time (plugin (cw s)))
}.

(** A processor claims one quantum at a time. *)
Lemma claims_few w m pc :
  claims (fun c => cpu w c) m (pfair_time (plugin w)) pc -> m <= pfair_time (plugin w) -> pfair_time (plugin w) <= m + Z.of_nat (num_online_cpus (plugin w)).
Proof.
  intros Hc Hm. assert (length (quanta_after m (pfair_time (plugin w))) <= length (cpus (plugin w)))%nat as Hl.
  { rewrite <- (length_fmap (fun c => claim (pc c)) (cpus _)), <- (length_fmap Some (quanta_after _ _)). apply submseteq_length, NoDup_submseteq.
    - apply NoDup_fmap_2; [apply _|]. unfold quanta_after. apply NoDup_fmap_2; [intros i j E; lia|apply NoDup_seq].
    - intros x (q & -> & Hq)%list_elem_of_fmap. apply elem_quanta in Hq. destruct (cl_held _ _ _ _ Hc q Hq) as (c & H' & E).
      apply list_elem_of_fmap. exists c. split; [done|by apply elem_cpus]. }
  unfold quanta_after, cpus in Hl. rewrite !length_fmap, !length_seq in Hl. lia.
Qed.

(** What leaves the times alone keeps the rest of the invariant. *)
Lemma tick_inv_undisturbed m0 s w' pc' :
  tick_inv m0 s -> undisturbed (cw s) w' -> in_horizon w' ->
  claims (fun c => cpu (cw s) c) (merge_time (plugin (cw s))) (pfair_time (plugin (cw s))) pc' -> tick_inv m0 (mk_conf w' pc' (sched s)).
Proof.
  intros I [U1 U2 U3] Hh Hc. injection U2 as Em En Et.
  assert (forall c, cpu_ok (plugin w') c = cpu_ok (plugin (cw s)) c) as Ec by (intros c; unfold cpu_ok; by rewrite En).
  split; simpl; rewrite ?Em, ?En, ?Et; try apply I; try done.
  - intros c. rewrite Ec, U3. apply (ti_tick _ _ I).
  - destruct Hc as [R1 R2 R3 R4]. split; setoid_rewrite Ec; done.
Qed.

Lemma time_before_range a b : 0 <= a < two62 -> 0 <= b < two62 -> time_before a b = (a <? b).
Proof.
  intros Ha Hb. unfold time_before. fold (lt_before a b). apply lt_before_window. unfold two62, two63 in *. lia.
Qed.

Lemma reached_merge m0 s c q :
  tick_inv m0 s -> cpu (cw s) c -> 0 <= q <= pfair_time (plugin (cw s)) -> quantum_reached q (plugin (cw s)) c = (q <=? merge_time (plugin (cw s))).
Proof.
  intros I Hc Hq. destruct (ti_horizon _ _ I) as [_ Hb]. pose proof (ti_order _ _ I) as Ho. pose proof (fi_merge _ _ (qk_inv _ (ti_ok _ _ I))) as [? _].
  unfold quantum_reached. rewrite (ti_tick _ _ I c Hc), time_before_range by (unfold PFAIR_MAX_PERIOD in *; lia). lia.
Qed.

Lemma prepare_inv m0 s c q p (u : unit) w' :
  tick_inv m0 s -> cpu (cw s) c -> claim (pc s c) = Some q -> q = merge_time (plugin (cw s)) + 1 ->
  claim p = None -> pc_ok q (pfair_time (plugin (cw s))) p ->
  schedule_next_quantum q (cw s) = Some (u, w') -> in_horizon w' -> tick_inv m0 (mk_conf w' (upd (pc s) c p) (sched s ++ [q])).
Proof.
  intros I Hc Hq Eq Ep Hp E Hh. pose proof (cl_range _ _ _ _ (ti_claims _ _ I) c q Hc Hq) as Hr. destruct (ti_horizon _ _ I) as [_ Hb].
  pose proof (next_quantum_spec q (cw s) (ti_ok _ _ I) Eq ltac:(unfold PFAIR_MAX_PERIOD in *; lia)) as Hw. unfold wp in Hw. rewrite E in Hw.
  assert (forall c, cpu_ok (plugin w') c = cpu_ok (plugin (cw s)) c) as Ec by (intros c'; unfold cpu_ok; by rewrite (nq_cpus _ _ _ Hw)).
  pose proof (ti_order _ _ I) as Ho. split; simpl; rewrite ?(nq_merge _ _ _ Hw), ?(nq_time _ _ _ Hw), ?(nq_cpus _ _ _ Hw); try apply I; try done.
  - apply Hw.
  - intros c'. rewrite Ec. apply (nq_tick _ _ _ Hw).
  - lia.
  - rewrite Eq in *. destruct (claims_done _ _ _ _ (ti_claims _ _ I) c p Hc Hq Ep Hp) as [R1 R2 R3 R4]. split; setoid_rewrite Ec; done.
  - rewrite Eq, quanta_after_next by lia. by rewrite (ti_sched _ _ I).
Qed.

Lemma claim_inv m0 s c p :
  tick_inv m0 s -> cpu (cw s) c -> claim (pc s c) = None ->
  let P := pfair_time (plugin (cw s)) + 1 in
  claim p = Some P -> pc_ok (merge_time (plugin (cw s))) P p ->
  let w' := set_plugin (set_pfair_time P (plugin (cw s))) (cw s) in
  in_horizon w' -> tick_inv m0 (mk_conf w' (upd (pc s) c p) (sched s)).
Proof.
  intros I Hc Hn P Ep Hp w' Hh. pose proof (ti_order _ _ I) as Ho. split; try apply I; try done; [by apply pfair_time_ok, I|simpl; lia|].
  apply claims_claim; [apply I|done|apply Ho|done|done|done].
Qed.

Lemma goto_inv m0 s c w' p :
  tick_inv m0 s -> claim (pc s c) = None -> claim p = None -> pc_ok (merge_time (plugin (cw s))) (pfair_time (plugin (cw s))) p ->
  undisturbed (cw s) w' -> in_horizon w' -> tick_inv m0 (mk_conf w' (upd (pc s) c p) (sched s)).
Proof. intros I Hn Ep Hp U Hh. apply tick_inv_undisturbed; [done..|]. apply claims_goto; [apply I|done..]. Qed.

Lemma undisturbed_refl w : quantum_ok w -> undisturbed w w.
Proof. by split. Qed.

Lemma again_quiet r q : claim (again r q) = None /\ forall m P, pc_ok m P (again r q).
Proof. unfold again. by destruct (pred r). Qed.

(** [cmpxchg] *)
Lemma cmpxchg_run expected next w :
  cmpxchg_time expected next w =
    Some (pfair_time (plugin w), if pfair_time (plugin w) =? expected then set_plugin (set_pfair_time next (plugin w)) w else w).
Proof. unfold cmpxchg_time, when, upd_state, mbind, M_bind, gets, modify. simpl. by destruct (_ =? expected). Qed.

Lemma read_inv m0 s c r cur s' :
  tick_inv m0 s -> cpu (cw s) c -> pc s c = TRead r cur -> tick_next c s = Some s' -> in_horizon (cw s') -> tick_inv m0 s'.
Proof.
  intros I Hc Epc. unfold tick_next. rewrite Epc. pose proof (cl_pc _ _ _ _ (ti_claims _ _ I) c Hc) as Hu. rewrite Epc in Hu. simpl in Hu.
  pose proof (ti_order _ _ I) as Ho. pose proof (fi_merge _ _ (qk_inv _ (ti_ok _ _ I))) as [Hm _]. destruct (ti_horizon _ _ I) as [_ Hb].
  unfold tick_attempt. simpl. unfold mbind at 1, option_bind. unfold mbind, M_bind. rewrite cmpxchg_run.
  assert (claim (pc s c) = None) as En by (by rewrite Epc). set (P := pfair_time (plugin (cw s))) in *.
  destruct (Z.eqb_spec P (u64 (cur - 1))) as [E|E]; simpl; intros [= <-] Hh; simpl in Hh.
  - assert (cur = P + 1) as ->.
    { unfold is_u64 in Hu. destruct (Z.eq_dec cur 0) as [->|Hne]; [|rewrite u64_small in E; lia].
      exfalso. change (u64 (0 - 1)) with 18446744073709551615 in E. unfold two62, PFAIR_MAX_PERIOD in *. lia. }
    by apply claim_inv.
  - destruct (again_quiet r cur) as [Ea Hpa].
    apply goto_inv; try done; [|..|by apply undisturbed_refl, I]; repeat case_match; simpl; try done; apply Hpa || (unfold P in *; lia).
Qed.

Lemma catch_claim_inv m0 s c r target q s' :
  tick_inv m0 s -> cpu (cw s) c -> pc s c = TCatchClaim r target q -> tick_next c s = Some s' -> in_horizon (cw s') -> tick_inv m0 s'.
Proof.
  intros I Hc Epc. unfold tick_next. rewrite Epc. pose proof (cl_pc _ _ _ _ (ti_claims _ _ I) c Hc) as Hu. rewrite Epc in Hu. simpl in Hu.
  pose proof (ti_order _ _ I) as Ho. destruct (ti_horizon _ _ I) as [_ Hb]. unfold PFAIR_MAX_PERIOD in Hb.
  rewrite (u64_small (q + 1)) by (unfold two62, two64 in *; lia). replace (q + 1 - 1) with q by lia. rewrite (u64_small q) by (unfold two62, two64 in *; lia).
  unfold mbind at 1, option_bind. rewrite cmpxchg_run. assert (claim (pc s c) = None) as En by (by rewrite Epc).
  destruct (Z.eqb_spec (pfair_time (plugin (cw s))) q) as [E|E]; intros [= <-] Hh; simpl in Hh.
  - replace (q + 1) with (pfair_time (plugin (cw s)) + 1) in * by lia. apply claim_inv; try done. simpl. lia.
  - apply goto_inv; try done; [simpl; lia|apply undisturbed_refl, I].
Qed.

Lemma prepare_next_inv m0 s c q p s' :
  tick_inv m0 s -> cpu (cw s) c -> claim (pc s c) = Some q -> q = merge_time (plugin (cw s)) + 1 -> claim p = None ->
  pc_ok q (pfair_time (plugin (cw s))) p ->
  ('(_, w') ← schedule_next_quantum q (cw s); Some (mk_conf w' (upd (pc s) c p) (sched s ++ [q]))) = Some s' ->
  in_horizon (cw s') -> tick_inv m0 s'.
Proof.
  intros I Hc Hq Eq Ep Hp E Hh. apply bind_Some in E as ([u w'] & E & [= <-]). by eapply prepare_inv.
Qed.

Lemma tick_keeps m0 s c s' :
  tick_inv m0 s -> cpu (cw s) c -> tick_next c s = Some s' -> in_horizon (cw s') -> tick_inv m0 s'.
Proof.
  intros I Hc E Hh. pose proof (cl_pc _ _ _ _ (ti_claims _ _ I) c Hc) as Hu. pose proof (ti_order _ _ I) as Ho.
  pose proof (fi_merge _ _ (qk_inv _ (ti_ok _ _ I))) as [Hm _].
  destruct (pc s c) as [|r|r cur|cur|r target cur|r target cur|r target cur|cur|] eqn:Epc; simpl in Hu;
    [|..|by eapply catch_claim_inv| | |]; try (by eapply read_inv); unfold tick_next in E; rewrite Epc in E;
    try (assert (claim (pc s c) = None) as En by (by rewrite Epc)).
  - injection E as <-. apply goto_inv; try done. apply undisturbed_refl, I.
  - pose proof (current_quantum_spec c (cw s) (ti_ok _ _ I) Hc (proj1 (ti_horizon _ _ I))) as Hw. unfold wp in Hw.
    apply bind_Some in E as ([q w'] & E & [= <-]). rewrite E in Hw. destruct Hw as (Hq & U & _). by apply goto_inv.
  - assert (claim (pc s c) = Some cur) as Eq by (by rewrite Epc). pose proof (cl_range _ _ _ _ (ti_claims _ _ I) c cur Hc Eq) as Hr.
    destruct (ti_horizon _ _ I) as [_ Hb]. rewrite (u64_small (cur - 1)) in E by (unfold PFAIR_MAX_PERIOD, two62, two64 in *; lia).
    rewrite (reached_merge m0) in E by (done || lia). destruct (Z.leb_spec (cur - 1) (merge_time (plugin (cw s)))); [|done].
    eapply (prepare_next_inv m0 s c cur (TWait cur)); try done. lia.
  - destruct (again_quiet r target) as [Ea Hpa]. destruct (time_before cur target); [|injection E as <-; apply goto_inv; try done; apply undisturbed_refl, I].
    rewrite (reached_merge m0) in E by (done || lia). destruct (Z.leb_spec cur (merge_time (plugin (cw s)))); [|done].
    injection E as <-. apply goto_inv; try done; [simpl; lia|apply undisturbed_refl, I].
  - assert (claim (pc s c) = Some cur) as Eq by (by rewrite Epc). pose proof (cl_range _ _ _ _ (ti_claims _ _ I) c cur Hc Eq) as Hr.
    eapply (prepare_next_inv m0 s c cur (TCatch r target cur)); try done. simpl. lia.
  - destruct (quantum_reached cur (plugin (cw s)) c); [|done]. pose proof (tick_copy_spec c (cw s) (ti_ok _ _ I) Hc) as Hw. unfold wp in Hw.
    apply bind_Some in E as ([u w'] & E & [= <-]). rewrite E in Hw. destruct Hw as [U _]. by apply goto_inv.
  - pose proof (tick_signal_spec c (cw s) (ti_ok _ _ I) Hc) as Hw. unfold wp in Hw.
    apply bind_Some in E as ([u w'] & E & [= <-]). rewrite E in Hw. by apply goto_inv.
Qed.

Lemma step_keeps m0 s s' : tick_inv m0 s -> machine_step s s' -> tick_inv m0 s'.
Proof.
  intros I Hs. destruct Hs as [c s s' Hc E Hh|s w' Ev Hh]; [by eapply tick_keeps|].
  pose proof (claims_few _ _ _ (ti_claims _ _ I) ltac:(apply (ti_order _ _ I))) as Hf. pose proof (ti_few _ _ I). pose proof (ti_order _ _ I).
  apply tick_inv_undisturbed; [done| |done|apply I]. apply event_ok; [apply I| |apply I|done]. lia.
Qed.

Lemma steps_keep m0 s s' : tick_inv m0 s -> rtc machine_step s s' -> tick_inv m0 s'.
Proof. intros I R. induction R as [|s s1 s' Hs R IH]; [done|]. by apply IH, (step_keeps m0 s). Qed.

(** No processor is in a tick; all quanta that were claimed have been scheduled. *)
Record started (m0 : Z) s : Prop := {
  st_ok : quantum_ok (cw s);
  st_times : merge_time (plugin (cw s)) = m0 /\ pfair_time (plugin (cw s)) = m0;
  st_tick c : cpu (cw s) c -> cur_tick (pstate (plugin (cw s)) c) = m0;
  st_idle c : cpu (cw s) c -> pc s c = TIdle;
  st_sched : sched s = [];
  st_horizon : in_horizon (cw s);
  st_few : Z.of_nat (num_online_cpus (plugin (cw s))) < PFAIR_MAX_PERIOD
}.

Lemma started_inv m0 s : started m0 s -> tick_inv m0 s.
Proof.
  intros [Hq [Em Ep] Ht Hi Hs Hh Hf]. split; rewrite ?Em, ?Ep; try done; [|unfold quanta_after; by rewrite Z.sub_diag]. split.
  - intros c q Hc. by rewrite Hi.
  - intros q Hr. lia.
  - intros c c' q Hc _. by rewrite Hi.
  - intros c Hc. by rewrite Hi.
Qed.

(** ** The next quantum is never stuck *)

Lemma prepare_progress m0 s c q p :
  tick_inv m0 s -> cpu (cw s) c -> claim (pc s c) = Some q -> q = merge_time (plugin (cw s)) + 1 ->
  tick_next c s = ('(_, w') ← schedule_next_quantum q (cw s); Some (mk_conf w' (upd (pc s) c p) (sched s ++ [q]))) ->
  exists s', machine_step s s' /\ merge_time (plugin (cw s')) = q /\ pfair_time (plugin (cw s')) = pfair_time (plugin (cw s)).
Proof.
  intros I Hc Hq Eq E. pose proof (cl_range _ _ _ _ (ti_claims _ _ I) c q Hc Hq) as Hr. destruct (ti_horizon _ _ I) as [Hp Hb].
  pose proof (next_quantum_spec q (cw s) (ti_ok _ _ I) Eq ltac:(unfold PFAIR_MAX_PERIOD in *; lia)) as Hw. unfold wp in Hw.
  destruct (schedule_next_quantum q (cw s)) as [[u w']|]; [|done]. exists (mk_conf w' (upd (pc s) c p) (sched s ++ [q])). split; [|split; apply Hw].
  apply (step_tick c); [done|exact E|]. split; simpl; [by rewrite (nq_period _ _ _ Hw)|by rewrite (nq_time _ _ _ Hw)].
Qed.

Lemma next_enabled m0 s :
  tick_inv m0 s -> merge_time (plugin (cw s)) < pfair_time (plugin (cw s)) ->
  exists s', machine_step s s' /\ merge_time (plugin (cw s')) = merge_time (plugin (cw s)) + 1 /\ pfair_time (plugin (cw s')) = pfair_time (plugin (cw s)).
Proof.
  intros I Hlt. set (q := merge_time (plugin (cw s)) + 1). pose proof (fi_merge _ _ (qk_inv _ (ti_ok _ _ I))) as [Hm _].
  destruct (cl_held _ _ _ _ (ti_claims _ _ I) q ltac:(lia)) as (c & Hc & Hq).
  destruct (pc s c) as [|r|r cur|cur|r target cur|r target cur|r target cur|cur|] eqn:Epc; try done; injection Hq as Eq.
  - eapply (prepare_progress m0 s c q (TWait q)); [done|done|by rewrite Epc, Eq|done|]. unfold tick_next. rewrite Epc, Eq.
    destruct (ti_horizon _ _ I) as [_ Hb]. rewrite (u64_small (q - 1)) by (unfold PFAIR_MAX_PERIOD, two62, two64 in *; lia).
    rewrite (reached_merge m0) by (done || lia). by destruct (Z.leb_spec (q - 1) (merge_time (plugin (cw s)))); [|lia].
  - eapply (prepare_progress m0 s c q (TCatch r target q)); [done|done|by rewrite Epc, Eq|done|]. unfold tick_next. by rewrite Epc, Eq.
Qed.

Lemma all_scheduled m0 n s :
  tick_inv m0 s -> Z.to_nat (pfair_time (plugin (cw s)) - merge_time (plugin (cw s))) = n ->
  exists s', rtc machine_step s s' /\ merge_time (plugin (cw s')) = pfair_time (plugin (cw s)) /\ pfair_time (plugin (cw s')) = pfair_time (plugin (cw s)).
Proof.
  revert s. induction n as [|n IH]; intros s I Hn; pose proof (ti_order _ _ I) as Ho.
  - exists s. split_and!; [done|lia|done].
  - destruct (next_enabled m0 s I ltac:(lia)) as (s1 & Hs & Em & Ep).
    destruct (IH s1 (step_keeps m0 s s1 I Hs)) as (s' & R & Em' & Ep'); [rewrite Em, Ep; lia|].
    exists s'. split_and!; [by eapply rtc_l|congruence|congruence].
Qed.


End Machine.
