(* ===== verification/PfairStart.v ===== *)
(** * PD^2: starting the plugin

    [init_pfair] and [pfair_activate_plugin] leave a state without tasks.  The
    activation does not set [merge_time]; the first quantum does, and from then
    on the state is one between quanta. *)

From S2P Require Import Prelude Task Edf PrioQueue Kernel RtDomain RtInv EdfDomain.
From S2P Require Import Pfair PfairSub PfairInv PfairLink PfairTop PfairQuantum PfairAdvance PfairNext PfairTask PfairTick PfairMachine.
Open Scope Z_scope.

Section Start.
Context {Q : Type -> Type} `{PrioQueueLaws Q}.
Abbreviation world := (world Q fstate).
Abbreviation K := (M world).
Implicit Types (w : world) (t : tid) (c d : Z).
Abbreviation pars w := (params (plugin w)).
Abbreviation cpu w c := (cpu_ok (plugin w) c = true).

(** No task is known to the plugin. *)
Record idle w : Prop := {
  id_ready d : ready_elems w d = [] /\ pq_wf (pfair_ok (pars w) (tasks w)) (pfair_ready_order (pars w) (tasks w)) (ready_queue (doms w d));
  id_release d : (forall i, release_queue (doms w d) i = []) /\ tobe_released (doms w d) = [];
  id_active o : ~ active w o;
  id_heap x : in_heap (tasks w x) = false;
  id_pids : pids_unique (tasks w);
  id_params x : pars w x = None;
  id_linked c : cpu w c -> lk w c = None;
  id_self c : cpu w c -> s_cpu (pstate (plugin w) c) = c;
  id_cpus : cpu_ok (plugin w) NO_CPU = false
}.

Lemma idle_nowhere w x p : idle w -> ~ at_place w x p.
Proof.
  intros I. destruct p as [d|d o]; simpl.
  - rewrite (proj1 (id_ready _ I d)). apply not_elem_of_nil.
  - intros (Ha & _). by apply (id_active _ I o).
Qed.

Lemma idle_dom w : idle w -> fdom w.
Proof.
  intros I. pose proof (fun x p => idle_nowhere w x p I) as Hn. split.
  - intros t p p' Hp. by destruct (Hn t p).
  - intros t. rewrite (id_heap _ I). split; [done|]. intros [p Hp]. by destruct (Hn t p).
  - intros d. rewrite (proj1 (id_ready _ I d)). constructor.
  - intros o Ha. by destruct (id_active _ I o).
  - intros d i o. rewrite (proj1 (id_release _ I d)). split; [by intros ?%elem_of_nil|]. intros (Ha & _). by destruct (id_active _ I o).
  - intros d i. rewrite (proj1 (id_release _ I d)). constructor.
  - intros o Ha. by destruct (id_active _ I o).
  - intros o t Ha. by destruct (id_active _ I o).
  - intros o Ha. by destruct (id_active _ I o).
  - intros d. apply (id_release _ I d).
  - intros d. apply (id_ready _ I d).
  - intros o Ha. by destruct (id_active _ I o).
Qed.

Lemma idle_ok w : idle w -> 0 <= merge_time (plugin w) < two62 -> quantum_ok w.
Proof.
  intros I Hm. assert (finv w) as Hi.
  { split; [by apply idle_dom|apply (id_pids _ I)| | |lia].
    - intros t p Hp. by destruct (idle_nowhere w t p I).
    - intros c t Hc. by rewrite (id_linked _ I). }
  assert (forall x p, pars w x <> Some p) as Hp by (intros x p; by rewrite (id_params _ I)).
  split; try apply I; try done.
  - intros x p E. by apply Hp in E.
  - intros x p E. by apply Hp in E.
  - intros x Hx. unfold enrolled in Hx. by rewrite (id_params _ I) in Hx.
  - intros x p E. by apply Hp in E.
  - intros x p E. by apply Hp in E.
  - intros x p x' p' E. by apply Hp in E.
Qed.

(** ** The first quantum *)

Lemma advance_idle time l w : idle w -> (forall c, c ∈ l -> cpu w c) -> wp (each_cpu (advance_linked time) l) (fun _ w' => w' = w) w.
Proof.
  intros I. induction l as [|c l IH]; intros Hl; simpl; [by wp_steps|]. wp_steps. unfold advance_linked at 1. wp_steps.
  apply get_pstate_spec; [apply Hl; set_solver|]. fold (lk w c). rewrite (id_linked _ I) by (apply Hl; set_solver). wp_steps.
  apply IH. intros c' Hc'. apply Hl. set_solver.
Qed.

Lemma idle_polled time w : idle w -> idle (set_plugin (set_merge_time time (plugin w)) (merged (relq time) w)).
Proof.
  intros I. set (w' := set_plugin _ _). pose proof (relq_not_ready time) as Hq.
  assert (forall d, release_queue (doms w' d) = release_queue (doms w d) /\ tobe_released (doms w' d) = tobe_released (doms w d)) as Hr.
  { intros d. simpl. unfold upd. case_decide; [subst; done|]. case_decide; subst; done. }
  split; try apply I.
  - intros d. split.
    + apply Permutation_nil_r. change (ready_elems w' d) with (ready_elems (merged (relq time) w) d). rewrite (merged_ready _ w d Hq), !(proj1 (id_ready _ I _)).
      by repeat case_decide.
    + simpl. unfold upd. case_decide; [simpl; apply pq_init_wf|]. case_decide; [|apply (id_ready _ I d)].
      simpl. apply pq_union_wf; [apply pfair_swo|apply (id_ready _ I)..].
  - intros d. destruct (Hr d) as [-> ->]. apply (id_release _ I d).
Qed.

Lemma first_quantum_spec time w :
  idle w -> 0 <= time < two62 ->
  wp (schedule_next_quantum time) (fun _ w' => quantum_ok w' /\ merge_time (plugin w') = time /\ globals (set_merge_time (merge_time (plugin w)) (plugin w')) = globals (plugin w) /\
    (forall c, cpu w c -> cur_tick (pstate (plugin w') c) = time) /\ (forall x, ~ fmember w' x) /\ tick_period w' = tick_period w) w.
Proof.
  intros I Ht. unfold schedule_next_quantum, advance_subtasks, for_each_online_cpu at 1. apply wp_bind. wp_steps.
  eapply wp_mono; [apply (advance_idle time); [done|intros c; apply elem_cpus]|]. intros [] ? ->.
  unfold poll_releases at 1, upd_state. wp_steps. apply merge_queue_spec; [apply relq_not_ready|]. wp_steps.
  pose proof (idle_polled time w I) as I2. set (w2 := set_plugin _ (merged _ w)) in *.
  pose proof (idle_ok w2 I2 Ht) as Hq2. assert (forall x, ~ fmember w2 x) as Hn2.
  { intros x [(c & Hc & El)|[p Hp]]; [by rewrite (id_linked _ I2) in El|by apply (idle_nowhere w2 x p I2)]. }
  apply (proj1 (wp_bind _ (fun _ => for_each_online_cpu (ack_quantum time)) _ _)).
  eapply wp_mono; [apply (linked_spec time w2); [apply Hq2|done| |apply I2]|].
  { split; intros x *; intros Hx; by destruct (Hn2 x). }
  intros [] w' O. cbv beta in O. assert (forall x, ~ fmember w' x) as Hn by (intros x; by rewrite (on_members _ _ _ O)).
  assert (forall x p, pars w' x <> Some p) as Hp by (intros x p; by rewrite (on_params _ _ _ O), (id_params _ I2)).
  split_and!; [|apply O| |apply O|done|by rewrite (on_period _ _ _ O)].
  - split; try (intros x p E; by apply Hp in E); try (intros x p x' p' E; by apply Hp in E).
    + apply O.
    + intros x Hx. unfold enrolled in Hx. by rewrite (on_params _ _ _ O), (id_params _ I2) in Hx.
    + intros c. unfold cpu_ok. rewrite (on_cpus _ _ _ O). intros Hc. pose proof (on_identity _ _ _ O c) as E. pose proof (id_self _ I2 c Hc) as Es.
      unfold identity in E. congruence.
    + unfold cpu_ok. rewrite (on_cpus _ _ _ O). apply I2.
  - unfold globals. simpl. by rewrite (on_cpus _ _ _ O), (on_time _ _ _ O).
Qed.

(** ** Initialisation and activation *)

Lemma state_loop (f : fstate -> Z -> Z -> pfair_state -> pfair_state) l w (Φ : unit -> world -> Prop) :
  (forall g ps, f (set_pstate ps g) = f g) -> NoDup l -> (forall c, c ∈ l -> cpu w c) ->
  (forall ps, (forall c, ps c = if decide (c ∈ l) then f (plugin w) (tick_period w) c (pstate (plugin w) c) else pstate (plugin w) c) ->
     Φ tt (set_plugin (set_pstate ps (plugin w)) w)) ->
  wp (each_cpu (fun c => g ← gets plugin; tick ← gets tick_period; upd_pstate c (f g tick c)) l) Φ w.
Proof.
  intros Hf. revert w. induction l as [|c l IH]; intros w Hnd Hl HΦ; simpl.
  - wp_steps. specialize (HΦ (pstate (plugin w)) ltac:(intros c; by rewrite decide_False by apply not_elem_of_nil)).
    by destruct w as [? ? ? ? ? ? ? ? ? ? []].
  - wp_steps. unfold upd_pstate, upd_state. wp_steps. apply get_pstate_spec; [apply Hl; set_solver|]. wp_steps. apply NoDup_cons in Hnd as [Hc Hnd].
    apply IH; [done|intros c' Hc'; apply Hl; set_solver|]. intros ps Hps. simpl in Hps. rewrite Hf in Hps.
    apply (HΦ ps). intros c'. rewrite Hps. unfold upd. destruct (decide (c' = c)) as [->|Hne]; [rewrite decide_False, decide_True by set_solver; done|].
    apply decide_ext. set_solver.
Qed.

(** The state at boot: no real-time tasks; only the heaps of the plugin are
    domains. *)
Record booted w : Prop := {
  bo_doms d : ~ 0 <= d <= PFAIR_MAX_PERIOD -> ready_queue (doms w d) = pq_init /\ (forall i, release_queue (doms w d) i = []) /\ tobe_released (doms w d) = [];
  bo_active o : ~ active w o;
  bo_heap x : in_heap (tasks w x) = false;
  bo_pids : pids_unique (tasks w);
  bo_params x : pars w x = None;
  bo_cpus : cpu_ok (plugin w) NO_CPU = false
}.

Lemma init_spec w : booted w -> wp init_pfair (fun _ w' => idle w' /\ (exists D, w' = set_plugin (plugin w') (set_doms D w)) /\
  set_pstate (pstate (plugin w)) (plugin w') = plugin w /\
  forall c, cpu w c -> pstate (plugin w') c = mk_pfstate c 0 0 None None None 0 (cpu_stagger_offset (plugin w) (tick_period w) c)) w.
Proof.
  intros B. unfold init_pfair, for_each_online_cpu. wp_steps. set (w1 := set_doms _ w).
  apply (state_loop (fun g tick c _ => mk_pfstate c 0 0 None None None 0 (cpu_stagger_offset g tick c)));
    [done|apply cpus_nodup|intros c; apply elem_cpus|]. intros ps Hps.
  assert (forall c, cpu w c -> ps c = mk_pfstate c 0 0 None None None 0 (cpu_stagger_offset (plugin w) (tick_period w) c)) as Hp.
  { intros c Hc. rewrite Hps, decide_True by (by apply elem_cpus). done. }
  assert (forall d, ready_queue (doms w1 d) = pq_init /\ (forall i, release_queue (doms w1 d) i = []) /\ tobe_released (doms w1 d) = []) as Hd.
  { intros d. simpl. destruct ((0 <=? d) && (d <=? PFAIR_MAX_PERIOD)) eqn:E; [done|]. apply (bo_doms _ B). lia. }
  split_and!; [|by exists (doms w1)|simpl; by destruct (plugin w)|done]. split; try apply B.
  - intros d. destruct (Hd d) as [E _]. unfold ready_elems. change (doms (set_plugin _ w1) d) with (doms w1 d). rewrite E.
    split; [apply pq_init_elems|apply pq_init_wf].
  - intros d. apply (Hd d).
  - intros c Hc. unfold lk. simpl. by rewrite Hp.
  - intros c Hc. simpl. by rewrite Hp.
Qed.

Lemma idle_ext w w' :
  idle w -> doms w' = doms w -> rheaps w' = rheaps w -> tasks w' = tasks w -> pars w' = pars w ->
  num_online_cpus (plugin w') = num_online_cpus (plugin w) ->
  (forall c, p_linked (pstate (plugin w') c) = p_linked (pstate (plugin w) c) /\ s_cpu (pstate (plugin w') c) = s_cpu (pstate (plugin w) c)) -> idle w'.
Proof.
  intros I Ed Er Et Ep En Hs. assert (forall c, cpu_ok (plugin w') c = cpu_ok (plugin w) c) as Ec by (intros c; unfold cpu_ok; by rewrite En).
  split; unfold ready_elems, active, lk in *; rewrite ?Ed, ?Er, ?Et, ?Ep, ?Ec; try apply I.
  - intros c. rewrite Ec, (proj1 (Hs c)). apply (id_linked _ I).
  - intros c. rewrite Ec, (proj2 (Hs c)). apply (id_self _ I).
Qed.

Lemma pf_activate_spec w : idle w -> cpu w (this_cpu w) -> 0 < tick_period w ->
  wp pfair_activate_plugin (fun r w' => r = 0 /\ idle w' /\ tick_period w' = tick_period w /\ num_online_cpus (plugin w') = num_online_cpus (plugin w) /\
    merge_time (plugin w') = merge_time (plugin w) /\
    let q := time2quanta (tick_period w) (u64 (reading w - offset (pstate (plugin w) (this_cpu w)))) FLOOR in
    pfair_time (plugin w') = q /\
    forall c, cpu w c -> cur_tick (pstate (plugin w') c) = q /\ local_tick (pstate (plugin w') c) = q /\
      offset (pstate (plugin w') c) = cpu_stagger_offset (plugin w) (tick_period w) c) w.
Proof.
  intros I Hme Ht. unfold pfair_activate_plugin, current_quantum, for_each_online_cpu, upd_state. wp_steps. apply clock_marks. intros w1 S1 Et1. wp_steps.
  pose proof (ma_plugin _ _ S1) as Ep1. apply get_pstate_spec; [by rewrite Ep1|]. wp_steps. rewrite Ep1, (ma_tick _ _ S1). set (q := time2quanta _ _ FLOOR).
  apply (state_loop (fun g tick c s => mk_pfstate (s_cpu s) q q (p_linked s) (local s) (p_scheduled s) 0 (cpu_stagger_offset g tick c)));
    [done|apply cpus_nodup|intros c; apply elem_cpus|]. intros ps Hps. wp_steps. simpl in Hps. rewrite (ma_tick _ _ S1) in Hps.
  split_and!; [done| |by apply S1|done|done|done|].
  - apply (idle_ext w); [done|apply S1|apply S1|done|done|done|]. intros c. simpl. rewrite Hps. by case_decide.
  - intros c Hc. simpl. rewrite Hps, decide_True by (by apply elem_cpus). done.
Qed.

(** C28: Initialised and activated, the plugin knows no task and has set its clock
    and that of every processor to the present quantum; it has not set
    [merge_time], but scheduling the first quantum that is claimed does, and
    the state then is one from which ticks keep the quanta in order. *)
Theorem pfair_start_correct w :
  booted w -> cpu w (this_cpu w) -> 0 < tick_period w -> Z.of_nat (num_online_cpus (plugin w)) < PFAIR_MAX_PERIOD ->
  let q := time2quanta (tick_period w) (u64 (reading w - cpu_stagger_offset (plugin w) (tick_period w) (this_cpu w))) FLOOR in
  q + 1 + 2 * PFAIR_MAX_PERIOD < two62 ->
  exists w1 w2 w3, init_pfair w = Some (tt, w1) /\ pfair_activate_plugin w1 = Some (0, w2) /\ idle w2 /\
    pfair_time (plugin w2) = q /\ (forall c, cpu w c -> cur_tick (pstate (plugin w2) c) = q) /\
    schedule_next_quantum (q + 1) (set_plugin (set_pfair_time (q + 1) (plugin w2)) w2) = Some (tt, w3) /\
    started (q + 1) (mk_conf w3 (fun _ => TIdle) []).
Proof.
  intros B Hme Htk Hf q Hb. pose proof (init_spec w B) as H1. unfold wp in H1. destruct (init_pfair w) as [[[] w1]|] eqn:E1; [|done].
  destruct H1 as (I1 & [D Ew1] & Eg & Hps).
  assert (this_cpu w1 = this_cpu w /\ tick_period w1 = tick_period w /\ reading w1 = reading w) as (Em & Et & Er) by (by rewrite Ew1).
  assert (num_online_cpus (plugin w1) = num_online_cpus (plugin w)) as En by (by rewrite <- Eg).
  assert (forall c, cpu_ok (plugin w1) c = cpu_ok (plugin w) c) as Ec by (intros c; unfold cpu_ok; by rewrite En).
  pose proof (pf_activate_spec w1 I1 ltac:(by rewrite Em, Ec) ltac:(by rewrite Et)) as H2. unfold wp in H2.
  destruct (pfair_activate_plugin w1) as [[r w2]|] eqn:E2; [|done]. destruct H2 as (-> & I2 & Et2 & En2 & _ & Hq & Hct).
  rewrite Em, Et, Er, Hps in Hq, Hct by done. change (pfair_time (plugin w2) = q) in Hq.
  assert (0 <= q) as H0q by (apply Z.div_pos; [apply Z.mod_pos_bound|]; done).
  set (w2' := set_plugin (set_pfair_time (q + 1) (plugin w2)) w2). assert (idle w2') as I2' by (by apply (idle_ext w2)).
  pose proof (first_quantum_spec (q + 1) w2' I2' ltac:(unfold PFAIR_MAX_PERIOD in *; lia)) as H3. unfold wp in H3.
  destruct (schedule_next_quantum (q + 1) w2') as [[[] w3]|] eqn:E3; [|done]. destruct H3 as (Hok & Hm & Hg & Ht3 & _ & Etp).
  injection Hg as En3 Ep3. exists w1, w2, w3. split_and!; [done|done|done|done| |done|].
  { intros c Hc. apply Hct. by rewrite Ec. }
  assert (forall c, cpu_ok (plugin w3) c = cpu_ok (plugin w2') c) as Ec3 by (intros c; unfold cpu_ok; by rewrite En3).
  split; simpl; try done.
  - intros c. rewrite Ec3. apply Ht3.
  - unfold in_horizon. rewrite Etp, Ep3. simpl. rewrite Et2, Et. done.
  - rewrite En3. simpl. by rewrite En2, En.
Qed.
End Start.
