(* ===== verification/PfairExamples.v ===== *)
(** * Concrete states of PD^2

    A machine with two processors and a tick of a millisecond, and three tasks
    that each need two of every three quanta.  Runs of the machine are computed,
    and the theorems are instantiated on the states they reach. *)

From S2P Require Import Prelude BinForest PrioQueue Task Edf Kernel RtDomain RtInv EdfDomain.
From S2P Require Import Pfair PfairSub PfairInv PfairLink PfairTop PfairQuantum PfairAdvance PfairNext PfairTask PfairTick PfairMachine PfairStart.
Open Scope Z_scope.

Abbreviation fworld := (world fheap fstate).
Abbreviation fconf := (conf (Q:=fheap)).


(** ** The machine as a function *)

Inductive fmove : Type := MTick (c : Z) | MAdmit (t : tid) | MNew (t : tid).

Definition in_horizonb (w : fworld) : bool :=
  (0 <? tick_period w) && (pfair_time (plugin w) + 2 * PFAIR_MAX_PERIOD <? two62).

Definition outb (t : tid) (w : fworld) : bool :=
  negb (in_heap (tasks w t)) && forallb (fun c => bool_decide (lk w c <> Some t)) (cpus (plugin w)).

Definition with_world (s : fconf) (o : option (unit * fworld)) : option fconf :=
  '(_, w') ← o; if in_horizonb w' then Some (mk_conf w' (pc s) (sched s)) else None.

Definition frun (m : fmove) (s : fconf) : option fconf :=
  let w := cw s in
  match m with
  | MTick c =>
      if cpu_ok (plugin w) c then s' ← tick_next c s; if in_horizonb (cw s') then Some s' else None else None
  | MAdmit t =>
      let e := time2quanta (tick_period w) (get_exec_cost (tasks w t)) CEIL in
      if bool_decide (params (plugin w) t = None) && (scheduled_on (tasks w t) =? NO_CPU) && (0 <? merge_time (plugin w)) &&
         (0 <? e) && (e <=? get_rt_period (tasks w t) / tick_period w)
      then with_world s ('(_, w') ← pfair_admit_task (Some (0, 0, false)) t w; Some (tt, w')) else None
  | MNew t =>
      if bool_decide (params (plugin w) t <> None) && is_realtime (tasks w t) && outb t w
      then with_world s (pfair_task_new t true false w) else None
  end.

Fixpoint fruns (l : list fmove) (s : fconf) : option fconf :=
  match l with [] => Some s | m :: l => s' ← frun m s; fruns l s' end.

Definition final (l : list fmove) (s : fconf) : fconf := default s (fruns l s).

Lemma in_horizonb_ok (w : fworld) : in_horizonb w = true -> in_horizon w.
Proof. unfold in_horizonb, in_horizon. intros [? ?]%andb_true_iff. lia. Qed.

Lemma outb_ok t w : quantum_ok w -> outb t w = true -> ~ fmember w t.
Proof.
  unfold outb. intros Hq [Hh Hl]%andb_true_iff [(c & Hc & El)|Hp].
  - rewrite forallb_forall in Hl. apply elem_cpus, list_elem_of_In in Hc. specialize (Hl c Hc). by apply bool_decide_eq_true in Hl.
  - apply (qo_heap _ _ _ (fi_dom _ _ (qk_inv _ Hq))) in Hp. by rewrite Hp in Hh.
Qed.

Lemma with_world_ok s o s' : with_world s o = Some s' -> exists w', o = Some (tt, w') /\ in_horizon w' /\ s' = mk_conf w' (pc s) (sched s).
Proof.
  unfold with_world. intros ([[] w'] & -> & E)%bind_Some. destruct (in_horizonb w') eqn:Eh; [|done]. injection E as <-. exists w'. split_and!; [done|by apply in_horizonb_ok|done].
Qed.

Lemma frun_step m0 m s s' : tick_inv m0 s -> frun m s = Some s' -> machine_step s s'.
Proof.
  intros I. destruct m as [c|t|t]; unfold frun.
  - destruct (cpu_ok _ c) eqn:Hc; [|done]. intros (s1 & E & E')%bind_Some. destruct (in_horizonb (cw s1)) eqn:Eh; [|done]. injection E' as <-.
    apply (step_tick c); [done|done|by apply in_horizonb_ok].
  - destruct (_ && _) eqn:Eg; [|done]. intros (w' & E & Hh & ->)%with_world_ok. apply bind_Some in E as ([r w1] & E & [= <-]).
    rewrite !andb_true_iff, bool_decide_eq_true in Eg. destruct Eg as ((((Hn & Hs) & Hm) & He) & Hp).
    apply step_event; [|done]. eapply (ev_admit t false r); [|lia|lia|lia|done]. intros Hx. by apply Hx.
  - destruct (_ && _) eqn:Eg; [|done]. intros (w' & E & Hh & ->)%with_world_ok.
    rewrite !andb_true_iff, bool_decide_eq_true in Eg. destruct Eg as ((Hn & Hr) & Ho). destruct (params (plugin (cw s)) t) as [p|] eqn:Ep; [|done].
    apply step_event; [|done]. eapply (ev_new t p true false); [done|done|by apply outb_ok; [apply I|]|done|done].
Qed.

Lemma fruns_rtc m0 l s s' : tick_inv m0 s -> fruns l s = Some s' -> rtc machine_step s s'.
Proof.
  revert s. induction l as [|m l IH]; intros s I; simpl; [by intros [= <-]|]. intros (s1 & E & E')%bind_Some.
  pose proof (frun_step m0 m s s1 I E) as Hs. eapply rtc_l; [exact Hs|]. apply IH; [by eapply step_keeps|done].
Qed.

Lemma final_steps m0 l s : tick_inv m0 s -> bool_decide (is_Some (fruns l s)) = true -> rtc machine_step s (final l s).
Proof. intros I [s' E]%bool_decide_eq_true. unfold final. rewrite E. by apply (fruns_rtc m0 l). Qed.

(** ** The machine at the start *)

Definition fx_params : rt_task :=
  mk_rt_task 2000000 3000000 0 0 RT_CLASS_HARD PRECISE_ENFORCEMENT (mk_fm (0, 0) 0 ((0, 0), (0, 0))) 0 (mk_wm [] 0) (mk_hime [] 0) (mk_cd [] 0).

Definition fx_tasks (t : tid) : task_struct :=
  mk_task (Zpos t) true true false false 0 0 RT_F_RUNNING false true fx_params (mk_rt_job 0 0 0 0) None 0 NO_CPU NO_CPU 0 false None
    (mk_semi 0 0 0 0 0 0).

(** The clock reads 11.5, 12.5 and so on milliseconds. *)
Definition fx_boot : fworld :=
  mk_world fx_tasks (fun _ => mk_rt_domain pq_init (fun _ => []) [] NO_CPU) (fun _ => mk_release_heap 0 pq_init None 0)
    10500000 [1000000; 1000000; 0; 0; 0; 0; 0] 0 (fun c => Pos.of_succ_nat (10 + Z.to_nat c)) [] (fun _ => mk_et false 0) 1000000
    (mk_fstate (fun _ => None) (fun c => mk_pfstate c 10 10 None None None 0 0) 10 10 2 2 LITMUS_ALIGNED_TICKS).

Lemma fx_pids : pids_unique fx_tasks.
Proof. intros a b E. injection E. done. Qed.

Lemma fx_booted : booted fx_boot.
Proof. split; [done|by intros o [? ?]|done|apply fx_pids|done|done]. Qed.

Lemma fx_idle : idle fx_boot.
Proof.
  split; [|done|by intros o [? ?]|done|apply fx_pids|done..]. intros d. split; [reflexivity|]. apply pq_init_wf.
Qed.

Definition s0 : fconf := mk_conf fx_boot (fun _ => TIdle) [].

Lemma s0_started : started 10 s0.
Proof. split; try done. by apply idle_ok; [apply fx_idle|]. Qed.

Lemma s0_inv : tick_inv 10 s0.
Proof. apply started_inv, s0_started. Qed.

(** Three tasks arrive and wait for quantum 11. *)
Definition s1 : fconf := final ((MAdmit <$> [1; 2; 3]%positive) ++ (MNew <$> [1; 2; 3]%positive)) s0.

Lemma s1_reached : rtc machine_step s0 s1.
Proof. apply (final_steps 10); [apply s0_inv|by vm_compute]. Qed.
Lemma s1_inv : tick_inv 10 s1.
Proof. exact (steps_keep 10 s0 s1 s0_inv s1_reached). Qed.

(** Processor 0 claims quantum 11; processor 1, a millisecond later, quantum 12. *)
Definition s2 : fconf := final [MTick 0; MTick 0; MTick 0; MTick 1; MTick 1; MTick 1] s1.

Lemma s2_reached : rtc machine_step s1 s2.
Proof. apply (final_steps 10); [apply s1_inv|by vm_compute]. Qed.
Lemma s2_inv : tick_inv 10 s2.
Proof. exact (steps_keep 10 s1 s2 s1_inv s2_reached). Qed.

(** They schedule their quanta, and processor 0 takes over its link. *)
Definition s3 : fconf := final [MTick 0; MTick 1; MTick 0] s2.

Lemma s3_reached : rtc machine_step s2 s3.
Proof. apply (final_steps 10); [apply s2_inv|by vm_compute]. Qed.
Lemma s3_inv : tick_inv 10 s3.
Proof. exact (steps_keep 10 s2 s3 s2_inv s3_reached). Qed.

(** The tasks with the smallest pids execute in quantum 11; in quantum 12 the third
    has the earliest deadline. *)
Lemma s3_values :
  sched s3 = [11; 12] /\ local (pstate (plugin (cw s3)) 0) = Some 3%positive /\ lk (cw s3) 0 = Some 3%positive /\ lk (cw s3) 1 = Some 1%positive.
Proof. vm_compute. done. Qed.

(** ** The theorems on these states *)

Lemma schedule_next_quantum_correct_witness : exists w', schedule_next_quantum 11 (cw s1) = Some (tt, w') /\ next_quantum 11 (cw s1) w'.
Proof. apply (schedule_next_quantum_correct 11 (cw s1)); [apply (ti_ok _ _ s1_inv)|by vm_compute|by vm_compute]. Defined.



Lemma pfair_schedule_correct_witness :
  pick 0 (cw s3) = Some 3%positive /\
  exists w', pfair_schedule (curr (cw s3) 0) (cw s3) = Some (Some 3%positive, w') /\ scheduled_on (tasks w' 3%positive) = 0.
Proof.
  split; [by vm_compute|]. destruct (pfair_schedule_correct 20%positive (cw s3)) as (next & w' & E & En & _ & Hs & _).
  - apply (ti_ok _ _ s3_inv).
  - by vm_compute.
  - assert (next = Some 3%positive) as Ev by (rewrite En; by vm_compute). subst next. exists w'. split; [exact E|].
    apply (Hs 3%positive Ev). by vm_compute.
Defined.

Lemma pfair_release_at_correct_witness :
  exists w', pfair_release_at 1%positive 12500000 (cw s1) = Some (tt, w') /\ quantum_ok w' /\ released 1%positive 13 (cw s1) w'.
Proof.
  apply (pfair_release_at_correct 1%positive (param_of (params (plugin (cw s1))) 1%positive) 12500000 (cw s1)).
  - apply (ti_ok _ _ s1_inv).
  - by vm_compute.
  - by vm_compute.
  - by vm_compute.
  - by vm_compute.
  - by vm_compute.
Defined.

Lemma pfair_start_correct_witness :
  exists w1 w2 w3, init_pfair fx_boot = Some (tt, w1) /\ pfair_activate_plugin w1 = Some (0, w2) /\
    schedule_next_quantum 12 (set_plugin (set_pfair_time 12 (plugin w2)) w2) = Some (tt, w3) /\ started 12 (mk_conf w3 (fun _ => TIdle) []).
Proof.
  destruct (pfair_start_correct fx_boot) as (w1 & w2 & w3 & E1 & E2 & _ & _ & _ & E3 & Hs).
  - apply fx_booted.
  - by vm_compute.
  - by vm_compute.
  - by vm_compute.
  - by vm_compute.
  - exists w1, w2, w3. split; [exact E1|]. split; [exact E2|]. split; [exact E3|exact Hs].
Defined.

(** ** A release that is missed *)

(** Only the first task has arrived. *)
Definition sa : fconf := final [MAdmit 1%positive; MNew 1%positive] s0.

Definition three_quanta : M fworld unit :=
  schedule_next_quantum 11;; schedule_next_quantum 12;; schedule_next_quantum 13.

Definition missed : option (unit * fworld) := (pfair_release_at 1%positive 9700000;; three_quanta) (cw sa).

Lemma run_with (o : option (unit * fworld)) (b : fworld -> bool) :
  match o with Some (_, w) => b w | None => false end = true -> exists w, o = Some (tt, w) /\ b w = true.
Proof. destruct o as [[[] w]|]; [eauto|done]. Qed.

