(* ===== verification/Fmlp.v ===== *)
(** * FMLP semaphores (litmus/fmlp.c)

    Counting semaphores with a FIFO wait queue and priority inheritance.  A task
    that finds the semaphore taken queues up and suspends; a release hands the
    semaphore to the head of the queue.  What it means to inherit a priority is
    up to the plugin: [PiPlugin] has its three callbacks and [PiPluginLaws] what
    the protocol relies on.

    The tasks that use the semaphores run interleaved with each other and with
    the rest of the kernel ([fstep]).  Each semaphore behaves like the abstract
    lock [lock_next], which has one owner and a queue; mutual exclusion, FIFO
    hand-over and the absence of lost wake-ups are read off that lock. *)
From S2P Require Import Prelude Task Edf PrioQueue Kernel.
Open Scope Z_scope.

(** [wait->private]: the [wq_pair] of the waiter and, once [rt_pi_wake_up] has
    redirected it for [default_wake_function], the task itself. *)
Inductive wq_entry : Type :=
  | WPair (t : tid)
  | WTask (t : tid).

Definition wq_task (e : wq_entry) : tid := match e with WPair t | WTask t => t end.

#[global] Instance wq_entry_eq_dec : EqDecision wq_entry.
Proof. solve_decision. Defined.

Record pi_semaphore : Type := mk_psem {
  count : Z;
  sleepers : Z;
  wait : list wq_entry;
  hp_task : option tid;               (* hp.task *)
  hp_cpu_task : Z -> option tid;      (* hp.cpu_task[NR_CPUS] *)
  holder : option tid
}.

Definition set_count (v : Z) (s : pi_semaphore) : pi_semaphore :=
  mk_psem v (sleepers s) (wait s) (hp_task s) (hp_cpu_task s) (holder s).
Definition set_wait (v : list wq_entry) (s : pi_semaphore) : pi_semaphore :=
  mk_psem (count s) (sleepers s) v (hp_task s) (hp_cpu_task s) (holder s).
Definition set_hp_task (v : option tid) (s : pi_semaphore) : pi_semaphore :=
  mk_psem (count s) (sleepers s) (wait s) v (hp_cpu_task s) (holder s).
Definition set_hp_cpu_task (v : Z -> option tid) (s : pi_semaphore) : pi_semaphore :=
  mk_psem (count s) (sleepers s) (wait s) (hp_task s) v (holder s).
Definition set_holder (v : option tid) (s : pi_semaphore) : pi_semaphore :=
  mk_psem (count s) (sleepers s) (wait s) (hp_task s) (hp_cpu_task s) v.

(** The semaphores, by address, and the kernel.  [awake] lists the tasks that
    [default_wake_function] was called for and that have not run since. *)
Record fmlp (Q : Type -> Type) (P : Type) : Type := mk_fmlp {
  psems : gmap positive pi_semaphore;
  awake : list tid;
  kern : world Q P
}.
Arguments mk_fmlp {Q} {P}.
Arguments psems {Q} {P}.
Arguments awake {Q} {P}.
Arguments kern {Q} {P}.

Section State.
Context {Q : Type -> Type} {P : Type}.
Abbreviation fmlp := (fmlp Q P).
Abbreviation F := (M fmlp).

Definition set_psems (v : gmap positive pi_semaphore) (s : fmlp) : fmlp := mk_fmlp v (awake s) (kern s).
Definition set_awake (v : list tid) (s : fmlp) : fmlp := mk_fmlp (psems s) v (kern s).
Definition set_kern (v : world Q P) (s : fmlp) : fmlp := mk_fmlp (psems s) (awake s) v.

(** A kernel operation, run in the larger state. *)
Definition kernel {A} (c : M (world Q P) A) : F A := fun s =>
  match c (kern s) with Some (a, w) => Some (a, set_kern w s) | None => None end.

Definition get_psem (p : positive) : F pi_semaphore :=
  s ← gets (fun st => psems st !! p); of_option s.
Definition put_psem (p : positive) (s : pi_semaphore) : F unit :=
  modify (fun st => set_psems (<[p := s]> (psems st)) st).
Definition upd_psem (p : positive) (f : pi_semaphore -> pi_semaphore) : F unit :=
  s ← get_psem p; put_psem p (f s).

(** [mem] is the result of [kmalloc]. *)
Definition create_fmlp_semaphore (mem : option positive) : F (option positive) :=
  match mem with
  | None => mret None
  | Some p => put_psem p (mk_psem 1 0 [] None (fun _ => None) None);; mret (Some p)
  end.

Definition open_fmlp_semaphore (fmlp_active : bool) : Z := if negb fmlp_active then - EBUSY else 0.

Definition destroy_fmlp_semaphore (p : positive) : F unit :=
  modify (fun st => set_psems (delete p (psems st)) st).

(** [((struct wq_pair* ) wait->private)->tsk]: an entry whose pointer was
    redirected is not a [wq_pair] any more. *)
Definition queued_task (e : wq_entry) : F tid :=
  match e with WPair t => mret t | WTask _ => fault end.

Fixpoint hp_loop (T : tid -> task_struct) (ok : tid -> bool) (l : list wq_entry) (hp : option tid) (ret : Z)
  : F (option tid * Z) :=
  match l with
  | [] => mret (hp, ret)
  | e :: l =>
      queued ← queued_task e;
      if ok queued && edf_higher_prio T (Some queued) hp then hp_loop T ok l (Some queued) 1
      else hp_loop T ok l hp ret
  end.

Definition edf_set_hp_task (p : positive) : F Z :=
  s ← get_psem p;
  T ← gets (fun st => tasks (kern st));
  '(hp, ret) ← hp_loop T (fun _ => true) (wait s) None 0;
  upd_psem p (set_hp_task hp);;
  mret ret.

Definition edf_set_hp_cpu_task (p : positive) (cpu : Z) : F Z :=
  s ← get_psem p;
  T ← gets (fun st => tasks (kern st));
  '(hp, ret) ← hp_loop T (fun t => get_partition (T t) =? cpu) (wait s) None 0;
  upd_psem p (fun s => set_hp_cpu_task (upd (hp_cpu_task s) cpu hp) s);;
  mret ret.

End State.

(** ** The highest-priority waiter *)

(** [o] has the highest priority among [l], if there is any task. *)
Definition best_of (T : tid -> task_struct) (l : list tid) (o : option tid) : Prop :=
  match o with
  | None => l = []
  | Some h => h ∈ l /\ forall x, x ∈ l -> edf_higher_prio T (Some x) (Some h) = false
  end.

Section Best.
Context {Q : Type -> Type} {P : Type} (T : tid -> task_struct) (ok : tid -> bool).
Implicit Types (l : list tid) (s : fmlp Q P).

Definition found (o : option tid) : Z := match o with Some _ => 1 | None => 0 end.

Lemma hp_loop_cons x l o r s :
  hp_loop T ok (WPair <$> x :: l) o r s =
  if ok x && edf_higher_prio T (Some x) o then hp_loop T ok (WPair <$> l) (Some x) 1 s
  else hp_loop T ok (WPair <$> l) o r s.
Proof. rewrite fmap_cons. cbn [hp_loop queued_task]. unfold mbind, M_bind. cbn [mret M_ret]. by destruct (ok x && _). Qed.

(** The loop returns when no entry has been redirected. *)
Lemma hp_loop_runs l o r s : exists o' r', hp_loop T ok (WPair <$> l) o r s = Some ((o', r'), s).
Proof.
  revert o r. induction l as [|x l IH]; intros o r; [by eexists _, _|].
  rewrite hp_loop_cons. destruct (ok x && edf_higher_prio T (Some x) o); apply IH.
Qed.

Lemma hp_loop_best l pre o s :
  pids_unique T -> Forall (edf_dom T 0) (pre ++ l) -> best_of T (filter (fun t => ok t) pre) o ->
  exists o', hp_loop T ok (WPair <$> l) o (found o) s = Some ((o', found o'), s) /\
    best_of T (filter (fun t => ok t) (pre ++ l)) o'.
Proof.
  intros Hu. pose proof (edf_swo T 0 Hu) as Ho. revert pre o. induction l as [|x l IH]; intros pre o HD Hb.
  { exists o. by rewrite app_nil_r. }
  replace (pre ++ x :: l) with ((pre ++ [x]) ++ l) in * by (by rewrite <- app_assoc).
  assert (forall y, y ∈ pre ++ [x] -> edf_dom T 0 y) as HDy by (intros y Hy; rewrite Forall_forall in HD; set_solver).
  assert (Hpre : forall y, y ∈ filter (fun t => ok t) (pre ++ [x]) <-> (y ∈ filter (fun t => ok t) pre \/ (y = x /\ ok x = true))).
  { intros y. rewrite !list_elem_of_filter, Is_true_true. set_solver. }
  rewrite hp_loop_cons. destruct (ok x && edf_higher_prio T (Some x) o) eqn:E.
  - apply andb_true_iff in E as [Eo Eh]. apply (IH (pre ++ [x]) (Some x)); [done|]. split; [apply Hpre; by right|].
    intros y [Hy|[-> _]]%Hpre; [|by apply (swo_irrefl _ _ Ho), HDy; set_solver].
    destruct o as [h|]; [|by rewrite Hb in Hy; set_solver]. destruct Hb as [Hh Hb].
    apply not_true_iff_false. intros Eyx. specialize (Hb y Hy). apply list_elem_of_filter in Hy as [_ Hy], Hh as [_ Hh].
    assert (edf_ready_order T y h = true); [|unfold edf_ready_order in *; congruence].
    apply (swo_trans _ _ Ho y x h); try done; apply HDy; set_solver.
  - apply (IH (pre ++ [x]) o); [done|]. destruct o as [h|]; cbn in *.
    + destruct Hb as [Hh Hb]. split; [apply Hpre; by left|]. intros y [Hy|[-> Ex]]%Hpre; [by apply Hb|]. by rewrite Ex in E.
    + rewrite andb_true_r in E. apply elem_of_nil_inv. intros y [Hy|[_ Ex]]%Hpre; [rewrite Hb in Hy; set_solver|congruence].
Qed.

End Best.

(** ** The callbacks of the plugins *)
Class PiPlugin (Q : Type -> Type) (P : Type) : Type := {
  fmlp_active : bool;
  pi_block : positive -> tid -> M (fmlp Q P) Z;
  inherit_priority : positive -> tid -> M (fmlp Q P) Z;
  return_priority : positive -> tid -> M (fmlp Q P) Z   (* of the current task *)
}.

Section Operations.
Context {Q : Type -> Type} {P : Type} `{PiPlugin Q P}.
Abbreviation fmlp := (fmlp Q P).
Abbreviation F := (M fmlp).

Definition default_wake_function (t : tid) : F unit :=
  modify (fun st => set_awake (awake st ++ [t]) st).

(** The wake function of the entry [e]; returns the entry it leaves behind. *)
Definition rt_pi_wake_up (p : positive) (e : wq_entry) : F wq_entry :=
  tsk ← queued_task e;
  kernel (upd_task tsk (set_rt_flags RT_F_EXIT_SEM));;
  _ ← inherit_priority p tsk;
  default_wake_function tsk;;
  mret (WTask tsk).

(** All waiters are exclusive and [rt_pi_wake_up] always returns true, so only
    the first entry is woken. *)
Definition wake_up_locked (p : positive) : F unit :=
  s ← get_psem p;
  match wait s with
  | [] => mret tt
  | e :: _ =>
      e' ← rt_pi_wake_up p e;
      upd_psem p (fun s => set_wait (e' :: tail (wait s)) s)
  end.

(** [do_fmlp_down] up to [schedule()]; returns whether the task has to
    suspend. *)
Definition do_fmlp_down (tsk : tid) (p : positive) : F bool :=
  s ← get_psem p;
  let s := set_count (count s - 1) s in
  put_psem p s;;
  if (count s <? 0) || negb (bool_decide (wait s = [])) then
    (* we need to suspend *)
    kernel (upd_task tsk (set_state_running false));;
    upd_psem p (fun s => set_wait (wait s ++ [WPair tsk]) s);;
    _ ← pi_block p tsk;
    mret true
  else
    upd_psem p (set_holder (Some tsk));;
    (* don't know if we're global or partitioned. *)
    upd_psem p (set_hp_task (Some tsk));;
    x ← kernel (get_task tsk);
    upd_psem p (fun s => set_hp_cpu_task (upd (hp_cpu_task s) (get_partition x) (Some tsk)) s);;
    _ ← inherit_priority p tsk;
    mret false.

(** The rest of [do_fmlp_down], when [schedule()] has returned. *)
Definition do_fmlp_down_woken (tsk : tid) (p : positive) : F unit :=
  upd_psem p (fun s => set_wait (filter (fun e => wq_task e <> tsk) (wait s)) s).

Definition do_fmlp_up (current : tid) (p : positive) : F unit :=
  _ ← return_priority p current;
  upd_psem p (set_holder None);;
  s ← get_psem p;
  let s := set_count (count s + 1) s in
  put_psem p s;;
  (* there is a task queued *)
  when (count s <? 1) (wake_up_locked p).

(** [sem] is the result of [lookup_fmlp_sem]. *)
Definition sys_fmlp_down (current : tid) (sem : option positive) : F (Z * bool) :=
  match sem with
  | Some p => suspended ← do_fmlp_down current p; mret (0, suspended)
  | None => mret (- EINVAL, false)
  end.

Definition sys_fmlp_up (current : tid) (sem : option positive) : F Z :=
  match sem with
  | Some p => do_fmlp_up current p;; mret 0
  | None => mret (- EINVAL)
  end.

End Operations.

(** ** What the protocol relies on *)

(** A real-time task that is in no queue: it runs or is suspended. *)
Definition unqueued {Q P} (w : world Q P) (t : tid) : Prop :=
  in_heap (tasks w t) = false /\ is_realtime (tasks w t) = true.

(** The part of a semaphore that belongs to the protocol. *)
Definition sem_core (s : pi_semaphore) : Z * list wq_entry * option tid := (count s, wait s, holder s).

(** A callback leaves the protocol alone and neither queues nor dequeues. *)
Record kept {Q P} (s s' : fmlp Q P) : Prop := {
  kp_awake : awake s' = awake s;
  kp_sem p : sem_core <$> psems s' !! p = sem_core <$> psems s !! p;
  kp_heap x : in_heap (tasks (kern s') x) = in_heap (tasks (kern s) x);
  kp_rt x : is_realtime (tasks (kern s') x) = is_realtime (tasks (kern s) x)
}.

(** [pi_inv O] is what the plugin maintains while the tasks in [O] own a
    semaphore. *)
Class PiPluginLaws (Q : Type -> Type) (P : Type) `{PiPlugin Q P} : Type := {
  pi_inv : (tid -> bool) -> world Q P -> Prop;
  pi_inv_ext O O' w : (forall t, O' t = O t) -> pi_inv O w -> pi_inv O' w;
  pi_inv_state O t b w : pi_inv O w -> unqueued w t ->
    pi_inv O (set_tasks (upd (tasks w) t (set_state_running b (tasks w t))) w);
  pi_inv_flags O t v w : pi_inv O w -> unqueued w t ->
    pi_inv O (set_tasks (upd (tasks w) t (set_rt_flags v (tasks w t))) w);
  pi_block_law O p t s sem : psems s !! p = Some sem -> pi_inv O (kern s) -> unqueued (kern s) t ->
    (forall h, holder sem = Some h -> O h = true) ->
    wp (pi_block p t) (fun _ s' => kept s s' /\ pi_inv O (kern s')) s;
  inherit_law O p t s sem : psems s !! p = Some sem -> pi_inv O (kern s) -> unqueued (kern s) t -> O t = false ->
    wp (inherit_priority p t) (fun _ s' => kept s s' /\ pi_inv (upd O t true) (kern s')) s;
  return_law O p t s sem : psems s !! p = Some sem -> pi_inv O (kern s) -> unqueued (kern s) t -> O t = true ->
    Forall (fun e => WPair (wq_task e) = e) (wait sem) ->
    wp (return_priority p t) (fun _ s' => kept s s' /\ pi_inv (upd O t false) (kern s')) s
}.

(** ** The abstract lock *)
Inductive owner_state : Type :=
  | Free
  | Held (t : tid)
  | Handed (t : tid)   (* [t] owns the lock and was woken, but does not run yet *).

#[global] Instance owner_state_eq_dec : EqDecision owner_state.
Proof. solve_decision. Defined.

Record lock : Type := mk_lock { lk : owner_state; lq : list tid }.

Inductive event : Type :=
  | Down (t : tid)
  | Resume (t : tid)
  | Up (t : tid).

Definition lock_next (l : lock) (e : event) : option lock :=
  match e, lk l with
  | Down t, Free => Some (mk_lock (Held t) [])
  | Down t, o => Some (mk_lock o (lq l ++ [t]))
  | Resume t, Handed u => if decide (t = u) then Some (mk_lock (Held t) (lq l)) else None
  | Up t, Held u =>
      if decide (t = u) then
        Some match lq l with [] => mk_lock Free [] | v :: q => mk_lock (Handed v) q end
      else None
  | _, _ => None
  end.

(** How the semaphore represents the lock. *)
Definition handed (l : lock) : list tid := match lk l with Handed u => [u] | _ => [] end.
Definition lock_wait (l : lock) : list wq_entry := (WTask <$> handed l) ++ (WPair <$> lq l).
Definition lock_count (l : lock) : Z := match lk l with Free => 1 | _ => - Z.of_nat (length (lq l)) end.

Record represents (s : pi_semaphore) (l : lock) : Prop := {
  rep_count : count s = lock_count l;
  rep_wait : wait s = lock_wait l;
  rep_holder h : holder s = Some h -> lk l = Held h
}.

(** ** Tasks that use the semaphores *)
Inductive fphase : Type :=
  | Away
  | Waiting (p : positive)
  | Owner (p : positive).

#[global] Instance fphase_eq_dec : EqDecision fphase.
Proof. solve_decision. Defined.

(** [requested] and [granted] record, per semaphore, the order of the calls of
    [sys_fmlp_down] and of their returns. *)
Record fmachine (Q : Type -> Type) (P : Type) : Type := mk_fmachine {
  fs : fmlp Q P;
  phase : tid -> fphase;
  requested : positive -> list tid;
  granted : positive -> list tid
}.
Arguments mk_fmachine {Q} {P}.
Arguments fs {Q} {P}.
Arguments phase {Q} {P}.
Arguments requested {Q} {P}.
Arguments granted {Q} {P}.

Definition push {A} (f : positive -> list A) (p : positive) (a : A) : positive -> list A := upd f p (f p ++ [a]).

Section Machine.
Context {Q : Type -> Type} {P : Type} `{PiPluginLaws Q P}.
Abbreviation fmachine := (fmachine Q P).
Implicit Types (m : fmachine) (t u : tid) (p q : positive) (w : world Q P) (s : fmlp Q P).

(** The task owns a semaphore, whether it runs already or was just woken. *)
Definition owns m t : bool :=
  match phase m t with
  | Away => false
  | Waiting _ => bool_decide (t ∈ awake (fs m))
  | Owner _ => true
  end.

Definition asleep m t : Prop := (exists p, phase m t = Waiting p) /\ t ∉ awake (fs m).

(** What the rest of the kernel guarantees: the invariant of the plugin, and
    that suspended tasks stay out of the queues. *)
Definition kernel_ok m w : Prop := pi_inv (owns m) w /\ forall t, asleep m t -> unqueued w t.

(** A task uses one semaphore at a time ("we don't nest resources"). *)
Inductive fstep : fmachine -> option (positive * event) -> fmachine -> Prop :=
  | f_create m p s' :
      psems (fs m) !! p = None -> create_fmlp_semaphore (Some p) (fs m) = Some (Some p, s') ->
      fstep m None (mk_fmachine s' (phase m) (requested m) (granted m))
  | f_down m t p r suspended s' :
      phase m t = Away -> unqueued (kern (fs m)) t -> is_Some (psems (fs m) !! p) ->
      sys_fmlp_down t (Some p) (fs m) = Some ((r, suspended), s') ->
      fstep m (Some (p, Down t))
        (mk_fmachine s' (upd (phase m) t (if suspended : bool then Waiting p else Owner p)) (push (requested m) p t)
          (if suspended then granted m else push (granted m) p t))
  | f_resume m t p s' :
      phase m t = Waiting p -> t ∈ awake (fs m) ->
      do_fmlp_down_woken t p (fs m) = Some (tt, s') ->
      fstep m (Some (p, Resume t))
        (mk_fmachine (set_awake (filter (fun x => x <> t) (awake s')) s') (upd (phase m) t (Owner p))
          (requested m) (push (granted m) p t))
  | f_up m t p r s' :
      phase m t = Owner p -> unqueued (kern (fs m)) t ->
      sys_fmlp_up t (Some p) (fs m) = Some (r, s') ->
      fstep m (Some (p, Up t)) (mk_fmachine s' (upd (phase m) t Away) (requested m) (granted m))
  | f_kernel m w' :
      kernel_ok m w' -> fstep m None (mk_fmachine (set_kern w' (fs m)) (phase m) (requested m) (granted m)).

Inductive fsteps : fmachine -> list (positive * event) -> fmachine -> Prop :=
  | fs_refl m : fsteps m [] m
  | fs_step m1 m2 m3 es e : fsteps m1 es m2 -> fstep m2 e m3 -> fsteps m1 (es ++ option_list e) m3.

Definition fm_init w : fmachine := mk_fmachine (mk_fmlp ∅ [] w) (fun _ => Away) (fun _ => []) (fun _ => []).

(** The locks after a sequence of events. *)
Definition locks : Type := positive -> lock.
Definition locks_next (L : locks) (pe : positive * event) : option locks :=
  l ← lock_next (L pe.1) pe.2; Some (upd L pe.1 l).
Definition locks_run (es : list (positive * event)) (L : locks) : option locks :=
  foldl (fun o pe => L ← o; locks_next L pe) (Some L) es.

Definition all_free : locks := fun _ => mk_lock Free [].

(** ** The invariant *)
Record fm_inv m (L : locks) : Prop := {
  fi_sem p sem : psems (fs m) !! p = Some sem -> represents sem (L p);
  fi_none p : psems (fs m) !! p = None -> L p = mk_lock Free [];
  fi_free p : lk (L p) = Free -> lq (L p) = [];
  fi_owner p t : phase m t = Owner p <-> lk (L p) = Held t;
  fi_waiting p t : phase m t = Waiting p <-> t ∈ handed (L p) ++ lq (L p);
  fi_nodup p : NoDup (handed (L p) ++ lq (L p));
  fi_awake t : t ∈ awake (fs m) <-> exists p, lk (L p) = Handed t;
  fi_log p : requested m p = granted m p ++ handed (L p) ++ lq (L p);
  fi_kernel : kernel_ok m (kern (fs m))
}.

Lemma wp_kernel {A} (c : M (world Q P) A) (Φ : A -> fmlp Q P -> Prop) s :
  wp (kernel c) Φ s <-> wp c (fun a w => Φ a (set_kern w s)) (kern s).
Proof. unfold wp, kernel. by destruct (c (kern s)) as [[? ?]|]. Qed.

Lemma wp_get_kernel t (Φ : task_struct -> fmlp Q P -> Prop) s :
  wp (kernel (get_task t)) Φ s <-> Φ (tasks (kern s) t) s.
Proof. by destruct s. Qed.

Lemma wp_get_psem p sem (Φ : pi_semaphore -> fmlp Q P -> Prop) s :
  psems s !! p = Some sem -> Φ sem s -> wp (get_psem p) Φ s.
Proof. intros E HΦ. unfold get_psem. wp_steps. by eauto. Qed.

(** [s'] is [s] but for the semaphore [p], whose protocol part is [c], and for
    the list [a] of woken tasks. *)
Record touched p (c : Z * list wq_entry * option tid) (a : list tid) s s' : Prop := {
  tc_sem : sem_core <$> psems s' !! p = Some c;
  tc_other q : q <> p -> sem_core <$> psems s' !! q = sem_core <$> psems s !! q;
  tc_awake : awake s' = a;
  tc_heap x : in_heap (tasks (kern s') x) = in_heap (tasks (kern s) x);
  tc_rt x : is_realtime (tasks (kern s') x) = is_realtime (tasks (kern s) x)
}.

Lemma touched_refl p sem s : psems s !! p = Some sem -> touched p (sem_core sem) (awake s) s s.
Proof. intros E. split; try done. by rewrite E. Qed.

Lemma sem_touched_kept p c a s s1 s2 : touched p c a s s1 -> kept s1 s2 -> touched p c a s s2.
Proof. intros [] []. split; try congruence. intros q Hq. by rewrite kp_sem0, tc_other0. Qed.

Lemma touched_task p c a t f s s1 :
  touched p c a s s1 -> (forall x, in_heap (f x) = in_heap x) -> (forall x, is_realtime (f x) = is_realtime x) ->
  touched p c a s (set_kern (set_tasks (upd (tasks (kern s1)) t (f (tasks (kern s1) t))) (kern s1)) s1).
Proof.
  intros [] Hh Hr. split; try done; intros x; cbn; unfold upd; case_decide; subst; rewrite ?Hh, ?Hr; auto.
Qed.

Lemma touched_unqueued p c a t s s1 : touched p c a s s1 -> unqueued (kern s) t -> unqueued (kern s1) t.
Proof. intros [] []. split; congruence. Qed.

(** A semaphore with the protocol part that is known. *)
Lemma touched_get p c a (Φ : pi_semaphore -> fmlp Q P -> Prop) s s1 :
  touched p c a s s1 -> (forall sem, psems s1 !! p = Some sem -> sem_core sem = c -> Φ sem s1) ->
  wp (get_psem p) Φ s1.
Proof.
  intros [E _ _ _ _] HΦ. destruct (psems s1 !! p) as [sem|] eqn:Ep; [|done]. injection E as E.
  eapply wp_get_psem; [done|]. by apply HΦ.
Qed.

Lemma touched_put p c a (Φ : unit -> fmlp Q P -> Prop) sem s s1 :
  touched p c a s s1 ->
  (forall s2, touched p (sem_core sem) a s s2 -> kern s2 = kern s1 -> psems s2 !! p = Some sem -> Φ tt s2) ->
  wp (put_psem p sem) Φ s1.
Proof.
  intros [] HΦ. unfold put_psem. wp_steps. apply HΦ; [|done|by cbn; rewrite lookup_insert_eq].
  split; try done; cbn; [by rewrite lookup_insert_eq|]. intros q Hq. rewrite lookup_insert_ne by done. auto.
Qed.

Lemma touched_upd p c a f (Φ : unit -> fmlp Q P -> Prop) s s1 :
  touched p c a s s1 ->
  (forall sem s2, sem_core sem = c -> touched p (sem_core (f sem)) a s s2 -> kern s2 = kern s1 -> Φ tt s2) ->
  wp (upd_psem p f) Φ s1.
Proof.
  intros Ht HΦ. unfold upd_psem. wp_steps. eapply touched_get; [exact Ht|]. intros sem _ Hs.
  eapply touched_put; [exact Ht|]. intros s2 H2 Hk _. by eapply HΦ.
Qed.

(** ** The operations implement the lock *)
Lemma count_taken l : lk l <> Free -> (lock_count l - 1 <? 0) = true.
Proof. unfold lock_count. intros Hl. apply Z.ltb_lt. destruct (lk l); [done|lia..]. Qed.

Lemma down_spec O t p s sem l :
  psems s !! p = Some sem -> represents sem l -> (lk l = Free -> lq l = []) ->
  pi_inv O (kern s) -> unqueued (kern s) t -> O t = false -> (forall h, lk l = Held h -> O h = true) ->
  wp (do_fmlp_down t p) (fun suspended s' => exists sem' l', lock_next l (Down t) = Some l' /\
    represents sem' l' /\ touched p (sem_core sem') (awake s) s s' /\
    suspended = bool_decide (lk l <> Free) /\
    pi_inv (if suspended then O else upd O t true) (kern s')) s.
Proof.
  intros Ep [Rc Rw Rh] Hfree Hi Ht HO Hh. unfold do_fmlp_down. wp_steps.
  eapply wp_get_psem; [done|]. cbn [count set_count wait]. rewrite Rc, Rw. wp_steps.
  eapply touched_put; [by apply touched_refl|]. intros s1 T1 K1 _. cbn in T1.
  destruct (decide (lk l = Free)) as [Hl|Hl].
  - unfold lock_count, lock_wait, handed in *. rewrite Hl, Hfree in * by done. change (_ || _) with false. cbv iota. wp_steps.
    eapply touched_upd; [exact T1|]. intros sem2 s2 E2 T2 K2. injection E2 as E21 E22 _. wp_steps.
    eapply touched_upd; [exact T2|]. intros sem3 s3 E3 T3 K3. injection E3 as E31 E32 E33. wp_steps.
    rewrite wp_get_kernel. wp_steps.
    eapply touched_upd; [exact T3|]. intros sem4 s4 E4 T4 K4. injection E4 as E41 E42 E43. wp_steps.
    destruct (psems s4 !! p) as [sem5|] eqn:E5; [|by destruct T4 as [T4 _ _ _ _]; rewrite E5 in T4].
    eapply wp_mono; [eapply (inherit_law O p t s4 sem5); [done| | |done]|].
    + cbn in K4. congruence.
    + by eapply touched_unqueued.
    + intros r s5 [Hk Hi5]. wp_steps. eexists _, _. split; [unfold lock_next; by rewrite Hl|].
      split; [|split; [by eapply sem_touched_kept|]].
      * cbn in *. split; cbn; [lia|congruence..].
      * split; [by case_bool_decide|done].
  - rewrite count_taken by done. cbn [orb]. wp_steps. rewrite wp_kernel. unfold upd_task. wp_steps.
    eapply (touched_task _ _ _ t (set_state_running false)) in T1 as T2; [|done..].
    eapply touched_upd; [exact T2|]. intros sem3 s3 E3 T3 K3. injection E3 as E31 E32 E33. wp_steps.
    destruct (psems s3 !! p) as [sem4|] eqn:E4; [|by destruct T3 as [T3 _ _ _ _]; rewrite E4 in T3].
    eapply wp_mono; [eapply (pi_block_law O p t s3 sem4); [done|..]|].
    + rewrite K3. cbn. rewrite K1. by apply pi_inv_state.
    + by eapply touched_unqueued.
    + intros h Eh. destruct T3 as [T3 _ _ _ _]. rewrite E4 in T3. injection T3 as _ _ T3. apply Hh, Rh. cbn in *. congruence.
    + intros r s5 [Hk Hi5]. wp_steps. eexists _, (mk_lock (lk l) (lq l ++ [t])). split; [unfold lock_next; by destruct (lk l)|].
      split; [|split; [by eapply sem_touched_kept|]].
      * split; cbn.
        -- rewrite E31. unfold lock_count. cbn. rewrite length_app. cbn. destruct (lk l); [done|lia..].
        -- rewrite E32, Rw. unfold lock_wait, handed. cbn. by rewrite fmap_app, app_assoc.
        -- rewrite E33. apply Rh.
      * split; [by case_bool_decide|done].
Qed.

Lemma fm_wake_up_spec O p c u r h a s0 s :
  touched p (c, WPair u :: r, h) a s0 s -> pi_inv O (kern s) -> unqueued (kern s0) u -> O u = false ->
  wp (wake_up_locked p) (fun _ s' =>
    touched p (c, WTask u :: r, h) (a ++ [u]) s0 s' /\ pi_inv (upd O u true) (kern s')) s.
Proof.
  intros T Hi Hu HO. unfold wake_up_locked. wp_steps. eapply touched_get; [exact T|]. intros sem Ep Es.
  injection Es as Ec -> Eh. unfold rt_pi_wake_up, default_wake_function. cbn [queued_task]. wp_steps. wp_steps. rewrite wp_kernel. unfold upd_task. wp_steps.
  eapply (touched_task _ _ _ u (set_rt_flags RT_F_EXIT_SEM)) in T as T1; [|done..].
  eapply wp_mono; [eapply (inherit_law O p u _ sem); [done|..|done]|].
  - cbn. apply pi_inv_flags; [done|]. by eapply touched_unqueued.
  - by eapply touched_unqueued.
  - intros z s2 [Hk Hi2]. wp_steps. pose proof (sem_touched_kept _ _ _ _ _ _ T1 Hk) as T2.
    assert (touched p (c, WPair u :: r, h) (a ++ [u]) s0 (set_awake (awake s2 ++ [u]) s2)) as T3.
    { destruct T2. split; try done. cbn. by rewrite tc_awake0. }
    eapply touched_upd; [exact T3|]. intros sem3 s3 E3 T4 K4. rewrite K4. split; [|done].
    injection E3 as E31 E32 E33. unfold sem_core in T4. cbn in T4. by rewrite E31, E32, E33 in T4.
Qed.

Lemma up_spec O t p s sem l :
  psems s !! p = Some sem -> represents sem l -> lk l = Held t ->
  pi_inv O (kern s) -> unqueued (kern s) t -> O t = true ->
  (forall u, u ∈ lq l -> unqueued (kern s) u /\ O u = false) ->
  wp (do_fmlp_up t p) (fun _ s' => exists sem' l', lock_next l (Up t) = Some l' /\
    represents sem' l' /\ touched p (sem_core sem') (awake s ++ handed l') s s' /\
    pi_inv (fun x => if decide (x ∈ handed l') then true else upd O t false x) (kern s')) s.
Proof.
  intros Ep [Rc Rw Rh] Hl Hi Ht HO Hq. unfold lock_count, lock_wait, handed in Rc, Rw. rewrite Hl in Rc, Rw. cbn in Rc, Rw.
  unfold do_fmlp_up. wp_steps. eapply wp_mono; [eapply (return_law O p t s sem); [done..|]|].
  { rewrite Rw. by apply Forall_fmap, Forall_true. }
  intros z s1 [Hk Hi1]. wp_steps.
  eapply touched_upd; [eapply sem_touched_kept; [by apply touched_refl|done]|]. intros sem2 s2 E2 T2 K2.
  injection E2 as E21 E22 _. wp_steps. eapply touched_get; [exact T2|]. intros sem3 _ E3. wp_steps.
  eapply touched_put; [exact T2|]. intros s4 T4 K4 _. wp_steps. apply wp_when. injection E3 as E31 E32 E33.
  cbn [count set_count]. rewrite E31, E21, Rc. unfold sem_core in T4. cbn in T4. rewrite E31, E32, E33, E21, E22, Rc, Rw in T4.
  unfold lock_next. rewrite Hl, decide_True by done. destruct (lq l) as [|u q] eqn:El; cbn in T4.
  - simpl. eexists (mk_psem 1 0 [] None (fun _ => None) None), _. split; [done|]. split; [done|].
    cbn. rewrite app_nil_r. split; [done|]. rewrite K4, K2. done.
  - rewrite (proj2 (Z.ltb_lt _ _)) by (cbn; lia). destruct (Hq u) as [Hu HOu]; [by left|].
    eapply wp_mono; [eapply (fm_wake_up_spec (upd O t false)); [exact T4|by rewrite K4, K2|done|]|].
    { unfold upd. by case_decide. }
    intros _ s5 [T5 Hi5]. cbv beta.
    eexists (mk_psem _ 0 _ None (fun _ => None) None), _. split; [done|]. split; [|split; [exact T5|]].
    + split; [|done|done]. cbn. lia.
    + eapply pi_inv_ext; [|exact Hi5]. intros x. cbn. unfold upd.
      destruct (decide (x = u)) as [->|]; [by rewrite decide_True by set_solver|by rewrite decide_False by set_solver].
Qed.

Lemma resume_spec t p s sem l :
  psems s !! p = Some sem -> represents sem l -> lk l = Handed t -> NoDup (handed l ++ lq l) ->
  wp (do_fmlp_down_woken t p) (fun _ s' => exists sem', represents sem' (mk_lock (Held t) (lq l)) /\
    touched p (sem_core sem') (awake s) s s' /\ kern s' = kern s) s.
Proof.
  intros Ep [Rc Rw Rh] Hl Hn. unfold lock_count, lock_wait, handed in Rc, Rw, Hn. rewrite Hl in Rc, Rw, Hn. cbn in Rc, Rw, Hn.
  apply NoDup_cons in Hn as [Hn _]. unfold do_fmlp_down_woken.
  eapply touched_upd; [by apply touched_refl|]. intros sem2 s2 E2 T2 K2. injection E2 as E21 E22 E23.
  eexists _. split; [|split; [exact T2|done]]. split; cbn; [congruence| |].
  - rewrite E22, Rw. unfold lock_wait. cbn. rewrite decide_False by naive_solver. apply filter_id.
    apply Forall_fmap, Forall_forall. intros x Hx Et. simpl in Et. by subst x.
  - intros h Eh. rewrite E23 in Eh. apply Rh in Eh. congruence.
Qed.

(** ** Every step is a step of the locks *)
Lemma represents_core sem sem' l : sem_core sem' = sem_core sem -> represents sem l -> represents sem' l.
Proof. intros E []. injection E as E1 E2 E3. split; [congruence..|]. intros h. rewrite E3. auto. Qed.

(** Another state of one semaphore, its lock at [p] being [l]. *)
Lemma touched_represents p sem l a s s' (L : locks) :
  (forall q x, psems s !! q = Some x -> represents x (L q)) ->
  represents sem l -> touched p (sem_core sem) a s s' ->
  forall q x, psems s' !! q = Some x -> represents x (upd L p l q).
Proof.
  intros HL Hl [Ts To _ _ _] q x Eq. unfold upd. case_decide as Hq; [subst q|].
  - rewrite Eq in Ts. apply (inj Some) in Ts. by apply (represents_core sem).
  - specialize (To q Hq). rewrite Eq in To. destruct (psems s !! q) as [y|] eqn:Ey; [|done].
    apply (inj Some) in To. eapply represents_core; [exact To|by apply HL].
Qed.

Lemma touched_none p c a s s' q : touched p c a s s' -> psems s' !! q = None -> psems s !! q = None /\ q <> p.
Proof.
  intros [Ts To _ _ _] Eq. destruct (decide (q = p)) as [->|Hq]; [by rewrite Eq in Ts|]. split; [|done].
  specialize (To q Hq). rewrite Eq in To. by destruct (psems s !! q).
Qed.

Lemma handed_in l x : x ∈ handed l <-> lk l = Handed x.
Proof. unfold handed. destruct (lk l); set_solver. Qed.

Section Facts.
Context m (L : locks) (I : fm_inv m L).

Lemma handed_waits q x : lk (L q) = Handed x -> phase m x = Waiting q.
Proof. intros E. apply (fi_waiting _ _ I), elem_of_app. left. by apply handed_in. Qed.

Lemma handed_once q p x : lk (L q) = Handed x -> phase m x = Waiting p -> q = p.
Proof. intros E%handed_waits E'. congruence. Qed.

Lemma queued_waits p x : x ∈ lq (L p) -> phase m x = Waiting p /\ x ∉ awake (fs m).
Proof.
  intros Hx. assert (phase m x = Waiting p) as E by (apply (fi_waiting _ _ I), elem_of_app; by right).
  split; [done|]. intros (q & Eq)%(fi_awake _ _ I). pose proof (handed_once q p x Eq E) as ->.
  pose proof (fi_nodup _ _ I p) as N. apply NoDup_app in N as (_ & N & _). apply (N x); [by apply handed_in|done].
Qed.

Lemma queued_owns p x : x ∈ lq (L p) -> unqueued (kern (fs m)) x /\ owns m x = false.
Proof.
  intros Hx. destruct (queued_waits p x Hx) as [E N]. split.
  - apply (fi_kernel _ _ I). split; [by eexists|done].
  - unfold owns. rewrite E. by apply bool_decide_eq_false.
Qed.

Lemma waiting_awake p x : phase m x = Waiting p -> x ∈ awake (fs m) -> lk (L p) = Handed x.
Proof. intros E (q & Eq)%(fi_awake _ _ I). by rewrite <- (handed_once q p x Eq E). Qed.

Lemma held_owns p h : lk (L p) = Held h -> owns m h = true.
Proof. intros E%(fi_owner _ _ I). unfold owns. by rewrite E. Qed.

End Facts.

(** The phases of a task that deals with no semaphore but [p]. *)
Definition only_at p (ph : fphase) : Prop := match ph with Away => True | Waiting q | Owner q => q = p end.

(** A step of the task [t] at the semaphore [p]. *)
Lemma fm_inv_step m L t p l' s' ph' req' gr' :
  let m' := mk_fmachine s' (upd (phase m) t ph') req' gr' in
  fm_inv m L -> only_at p (phase m t) -> only_at p ph' ->
  (forall q x, psems s' !! q = Some x -> represents x (upd L p l' q)) ->
  (forall q, psems s' !! q = None -> psems (fs m) !! q = None /\ q <> p) ->
  (lk l' = Free -> lq l' = []) ->
  (forall x, lk l' = Held x <-> if decide (x = t) then ph' = Owner p else lk (L p) = Held x) ->
  (forall x, x ∈ handed l' ++ lq l' <-> if decide (x = t) then ph' = Waiting p else x ∈ handed (L p) ++ lq (L p)) ->
  NoDup (handed l' ++ lq l') ->
  (forall x, x ∈ awake s' <-> lk l' = Handed x \/ (x ∈ awake (fs m) /\ lk (L p) <> Handed x)) ->
  (forall q, req' q = gr' q ++ if decide (q = p) then handed l' ++ lq l' else handed (L q) ++ lq (L q)) ->
  kernel_ok m' (kern s') -> fm_inv m' (upd L p l').
Proof.
  intros m' I Hph Hph' Hsem Hnone Hfree Hheld Hwait Hnd Haw Hlog Hk. split; try done; cbn.
  - intros q [Eq Hq]%Hnone. rewrite upd_ne by done. by apply (fi_none _ _ I).
  - intros q. unfold upd. case_decide; [done|apply (fi_free _ _ I)].
  - intros q x. unfold upd. destruct (decide (q = p)) as [->|Hq].
    + rewrite Hheld. case_decide; [done|apply (fi_owner _ _ I)].
    + rewrite <- (fi_owner _ _ I). case_decide; [subst x|done].
      split; intros E; [rewrite E in Hph'|rewrite E in Hph]; done.
  - intros q x. unfold upd. destruct (decide (q = p)) as [->|Hq].
    + rewrite Hwait. case_decide; [done|apply (fi_waiting _ _ I)].
    + rewrite <- (fi_waiting _ _ I). case_decide; [subst x|done].
      split; intros E; [rewrite E in Hph'|rewrite E in Hph]; done.
  - intros q. unfold upd. case_decide; [done|apply (fi_nodup _ _ I)].
  - intros x. rewrite Haw. split.
    + intros [E|[Ha Hn]]; [exists p; by rewrite upd_eq|]. apply (fi_awake _ _ I) in Ha as [q Eq].
      exists q. rewrite upd_ne; [done|]. intros ->. done.
    + intros [q Eq]. unfold upd in Eq. case_decide as Hq; [by left|right]. split; [apply (fi_awake _ _ I); by exists q|].
      intros E. by apply Hq, (handed_once m L I q p x Eq), (handed_waits m L I).
  - intros q. rewrite Hlog. unfold upd. by case_decide; subst.
Qed.

(** The states after the three kinds of steps. *)
Definition after_down m t p (suspended : bool) s' : fmachine :=
  mk_fmachine s' (upd (phase m) t (if suspended then Waiting p else Owner p)) (push (requested m) p t)
    (if suspended then granted m else push (granted m) p t).
Definition after_resume m t p s' : fmachine :=
  mk_fmachine (set_awake (filter (fun x => x <> t) (awake s')) s') (upd (phase m) t (Owner p))
    (requested m) (push (granted m) p t).
Definition after_up m t s' : fmachine := mk_fmachine s' (upd (phase m) t Away) (requested m) (granted m).

(** The states an operation at [p] leads to. *)
Definition led m p l' a (O : tid -> bool) s' : Prop :=
  exists sem', represents sem' l' /\ touched p (sem_core sem') a (fs m) s' /\ pi_inv O (kern s').

(** The task finds the semaphore free. *)
Lemma down_free m L t p s' :
  fm_inv m L -> phase m t = Away -> lk (L p) = Free ->
  led m p (mk_lock (Held t) []) (awake (fs m)) (upd (owns m) t true) s' ->
  fm_inv (after_down m t p false s') (upd L p (mk_lock (Held t) [])).
Proof.
  intros I Et El (sem' & R & T & Hi). pose proof (fi_free _ _ I p El) as Eq.
  apply fm_inv_step; [done|by rewrite Et|done|..]; try done.
  - eapply touched_represents; [apply (fi_sem _ _ I)|done|done].
  - intros q. by eapply touched_none.
  - intros x. rewrite El. cbn. case_decide; naive_solver.
  - intros x. unfold handed. rewrite El, Eq. cbn. case_decide; set_solver.
  - constructor.
  - intros x. rewrite (tc_awake _ _ _ _ _ T), El. naive_solver.
  - intros q. pose proof (fi_log _ _ I q) as E. unfold push, upd. case_decide as Hq; [subst q|done].
    unfold handed in E. rewrite El, Eq in E. cbn in *. by rewrite E, !app_nil_r.
  - split.
    + eapply pi_inv_ext; [|exact Hi]. intros x. unfold owns, upd. cbn. rewrite (tc_awake _ _ _ _ _ T). by case_decide.
    + intros x [[q Hx] Hn]. eapply touched_unqueued; [exact T|]. cbn in *. rewrite (tc_awake _ _ _ _ _ T) in Hn.
      unfold upd in Hx. case_decide; [done|]. apply (fi_kernel _ _ I). split; [by exists q|done].
Qed.

(** The task queues up. *)
Lemma down_taken m L t p s' :
  fm_inv m L -> phase m t = Away -> unqueued (kern (fs m)) t -> lk (L p) <> Free ->
  led m p (mk_lock (lk (L p)) (lq (L p) ++ [t])) (awake (fs m)) (owns m) s' ->
  fm_inv (after_down m t p true s') (upd L p (mk_lock (lk (L p)) (lq (L p) ++ [t]))).
Proof.
  intros I Et Ht El (sem' & R & T & Hi).
  assert (forall x, x ∈ handed (L p) ++ lq (L p) -> x <> t) as Hne by (intros x E%(fi_waiting _ _ I) ->; congruence).
  assert (t ∉ awake (fs m)) as Hta by (intros [q E]%(fi_awake _ _ I); apply (handed_waits m L I) in E; congruence).
  apply fm_inv_step; [done|by rewrite Et|done|..]; try done.
  - eapply touched_represents; [apply (fi_sem _ _ I)|done|done].
  - intros q. by eapply touched_none.
  - intros x. cbn. case_decide; [subst|done]. rewrite <- (fi_owner _ _ I), Et. naive_solver.
  - intros x. cbn. case_decide; set_solver.
  - cbn. rewrite (app_assoc _ _ [t]). apply NoDup_app. split; [apply (fi_nodup _ _ I)|]. split; [set_solver|apply NoDup_singleton].
  - intros x. rewrite (tc_awake _ _ _ _ _ T). cbn. split; [|intros [E|[? _]]; [apply (fi_awake _ _ I); by exists p|done]].
    intros Hx. destruct (decide (lk (L p) = Handed x)); auto.
  - intros q. pose proof (fi_log _ _ I q) as E. unfold push, upd. case_decide as Hq; [subst q|done].
    cbn. by rewrite E, <- !app_assoc.
  - split.
    + eapply pi_inv_ext; [|exact Hi]. intros x. unfold owns, upd. cbn. rewrite (tc_awake _ _ _ _ _ T).
      case_decide; [subst x|done]. rewrite Et. by apply bool_decide_eq_false.
    + intros x [[q Hx] Hn]. eapply touched_unqueued; [exact T|]. cbn in *. rewrite (tc_awake _ _ _ _ _ T) in Hn.
      unfold upd in Hx. case_decide; [by subst|]. apply (fi_kernel _ _ I). split; [by exists q|done].
Qed.

Lemma fm_down_inv m L t p sem :
  fm_inv m L -> phase m t = Away -> unqueued (kern (fs m)) t -> psems (fs m) !! p = Some sem ->
  wp (do_fmlp_down t p) (fun suspended s' => exists l', lock_next (L p) (Down t) = Some l' /\
    fm_inv (after_down m t p suspended s') (upd L p l')) (fs m).
Proof.
  intros I Et Ht Ep. assert (owns m t = false) as HO by (unfold owns; by rewrite Et).
  eapply wp_mono; [eapply (down_spec (owns m) t p); [exact Ep|by eapply (fi_sem _ _ I)|apply (fi_free _ _ I)|apply (fi_kernel _ _ I)|done|done|]|].
  { by intros h; eapply held_owns. }
  intros b s' (sem' & l' & En & R & T & -> & Hi). exists l'. split; [done|].
  destruct (decide (lk (L p) = Free)) as [El|El].
  - rewrite bool_decide_eq_false_2 in * by naive_solver. unfold lock_next in En. rewrite El in En. injection En as <-.
    apply down_free; [done..|]. by exists sem'.
  - rewrite bool_decide_eq_true_2 in * by done.
    assert (l' = mk_lock (lk (L p)) (lq (L p) ++ [t])) as -> by (unfold lock_next in En; by destruct (lk (L p)); injection En).
    apply down_taken; [done..|]. by exists sem'.
Qed.

Lemma lock_up l t l' :
  lk l = Held t -> lock_next l (Up t) = Some l' ->
  handed l' ++ lq l' = lq l /\ (forall x, lk l' <> Held x) /\ (lk l' = Free -> lq l' = []).
Proof.
  intros E. unfold lock_next. rewrite E, decide_True by done. destruct (lq l); intros [= <-]; split_and!; done.
Qed.

Lemma fm_up_inv m L t p :
  fm_inv m L -> phase m t = Owner p -> unqueued (kern (fs m)) t ->
  wp (do_fmlp_up t p) (fun _ s' => exists l', lock_next (L p) (Up t) = Some l' /\
    fm_inv (after_up m t s') (upd L p l')) (fs m).
Proof.
  intros I Et Ht. pose proof (proj1 (fi_owner _ _ I p t) Et) as El.
  destruct (psems (fs m) !! p) as [sem|] eqn:Ep; [|apply (fi_none _ _ I) in Ep; rewrite Ep in El; done].
  eapply wp_mono; [eapply (up_spec (owns m) t p); [exact Ep|by eapply (fi_sem _ _ I)|done|apply (fi_kernel _ _ I)|done|by eapply held_owns|]|].
  { by intros u; apply queued_owns. }
  intros ? s' (sem' & l' & En & R & T & Hi). exists l'. split; [done|].
  destruct (lock_up _ _ _ El En) as (Eq & Hnh & Hfree).
  assert (handed (L p) = []) as Eh by (unfold handed; by rewrite El).
  assert (t ∉ lq (L p)) as Hnt by (intros [E _]%(queued_waits m L I); congruence).
  apply fm_inv_step; [done|by rewrite Et|done|..].
  - eapply touched_represents; [apply (fi_sem _ _ I)|done|done].
  - intros q. by eapply touched_none.
  - done.
  - intros x. rewrite El. split; [intros []%Hnh|]. case_decide; naive_solver.
  - intros x. rewrite Eq, Eh. cbn. case_decide; [subst|done]. naive_solver.
  - rewrite Eq. pose proof (fi_nodup _ _ I p) as N. by rewrite Eh in N.
  - intros x. rewrite (tc_awake _ _ _ _ _ T), elem_of_app, handed_in, El. naive_solver.
  - intros q. rewrite (fi_log _ _ I q). case_decide; [subst|done]. by rewrite Eh, Eq.
  - assert (forall x, x ∈ handed l' -> phase m x = Waiting p) as Hh.
    { intros x Hx. apply (queued_waits m L I p). rewrite <- Eq. apply elem_of_app. by left. }
    split.
    + eapply pi_inv_ext; [|exact Hi]. intros x. unfold owns, upd. cbn. rewrite (tc_awake _ _ _ _ _ T).
      destruct (decide (x ∈ handed l')) as [Hx|Hx].
      * rewrite decide_False by (intros ->; apply Hh in Hx; congruence). rewrite (Hh x Hx).
        apply bool_decide_eq_true, elem_of_app. by right.
      * case_decide; [done|]. destruct (phase m x); [done| |done]. apply bool_decide_ext. set_solver.
    + intros x [[q Hx] Hn]. eapply touched_unqueued; [exact T|]. cbn in *. rewrite (tc_awake _ _ _ _ _ T) in Hn.
      unfold upd in Hx. case_decide; [done|]. apply (fi_kernel _ _ I). split; [by exists q|]. set_solver.
Qed.

Lemma resume_inv m L t p :
  fm_inv m L -> phase m t = Waiting p -> t ∈ awake (fs m) ->
  wp (do_fmlp_down_woken t p) (fun _ s' => exists l', lock_next (L p) (Resume t) = Some l' /\
    fm_inv (after_resume m t p s') (upd L p l')) (fs m).
Proof.
  intros I Et Ha. pose proof (waiting_awake m L I p t Et Ha) as El.
  destruct (psems (fs m) !! p) as [sem|] eqn:Ep; [|apply (fi_none _ _ I) in Ep; rewrite Ep in El; done].
  eapply wp_mono; [eapply (resume_spec t p); [exact Ep|by eapply (fi_sem _ _ I)|done|apply (fi_nodup _ _ I)]|].
  intros ? s' (sem' & R & T & Hk). eexists. split; [unfold lock_next; by rewrite El, decide_True|].
  assert (handed (L p) = [t]) as Eh by (unfold handed; by rewrite El).
  pose proof (fi_nodup _ _ I p) as N. rewrite Eh in N. apply NoDup_cons in N as [Hnt N].
  pose proof (tc_awake _ _ _ _ _ T) as Ea.
  apply fm_inv_step; [done|by rewrite Et|done|..].
  - intros q x. cbn. eapply touched_represents; [apply (fi_sem _ _ I)|done|done].
  - intros q. cbn. by eapply touched_none.
  - done.
  - intros x. rewrite El. cbn. case_decide; naive_solver.
  - intros x. rewrite Eh. cbn. case_decide; [subst|set_solver]. naive_solver.
  - done.
  - intros x. cbn. rewrite list_elem_of_filter, Ea, El. naive_solver.
  - intros q. unfold push, upd. rewrite (fi_log _ _ I q). case_decide; [subst|done]. cbn. by rewrite Eh, <- app_assoc.
  - pose proof (fi_kernel _ _ I) as [Hi Hs]. cbn. rewrite Hk. split.
    + eapply pi_inv_ext; [|exact Hi]. intros x. unfold owns, upd. cbn. rewrite Ea. case_decide.
      * subst. rewrite Et. symmetry. by apply bool_decide_eq_true.
      * destruct (phase m x); [done| |done]. apply bool_decide_ext. rewrite list_elem_of_filter. naive_solver.
    + intros x [[q Hx] Hn]. cbn in *. unfold upd in Hx. case_decide; [done|]. apply Hs. split; [by exists q|].
      intros Hx'. apply Hn. rewrite Ea. by apply list_elem_of_filter.
Qed.

Lemma fm_create_inv m L p s' :
  fm_inv m L -> psems (fs m) !! p = None -> create_fmlp_semaphore (Some p) (fs m) = Some (Some p, s') ->
  fm_inv (mk_fmachine s' (phase m) (requested m) (granted m)) L.
Proof.
  intros I Ep E. cbn in E. unfold mret, M_ret in E. injection E as <-.
  destruct I. split; try done; cbn; intros q; [intros sem|].
  - destruct (decide (q = p)) as [->|]; [|rewrite lookup_insert_ne by done; auto].
    rewrite lookup_insert_eq. intros [= <-]. by rewrite fi_none0.
  - destruct (decide (q = p)) as [->|]; [by rewrite lookup_insert_eq|rewrite lookup_insert_ne by done; auto].
Qed.

Lemma kernel_inv m L w' :
  fm_inv m L -> kernel_ok m w' -> fm_inv (mk_fmachine (set_kern w' (fs m)) (phase m) (requested m) (granted m)) L.
Proof. intros [] Hk. by split. Qed.

Lemma locks_next_intro L p e l' : lock_next (L p) e = Some l' -> locks_next L (p, e) = Some (upd L p l').
Proof. intros E. unfold locks_next. cbn [fst snd]. by rewrite E. Qed.

(** Every step of the machine is one of the locks, or none. *)
Lemma fstep_inv m e m' L :
  fm_inv m L -> fstep m e m' ->
  exists L', fm_inv m' L' /\ match e with Some pe => locks_next L pe = Some L' | None => L' = L end.
Proof.
  intros I S. destruct S as [m p s' Ep E|m t p r b s' Et Ht [sem Ep] E|m t p s' Et Ha E|m t p r s' Et Ht E|m w' Hk].
  - exists L. split; [by eapply fm_create_inv|done].
  - apply bind_inv in E as (b' & s1 & E & [= <- <- <-]).
    pose proof (fm_down_inv m L t p sem I Et Ht Ep) as W. unfold wp in W. rewrite E in W. destruct W as (l' & En & I').
    exists (upd L p l'). split; [done|]. by apply locks_next_intro.
  - pose proof (resume_inv m L t p I Et Ha) as W. unfold wp in W. rewrite E in W. destruct W as (l' & En & I').
    exists (upd L p l'). split; [done|]. by apply locks_next_intro.
  - apply bind_inv in E as ([] & s1 & E & [= <- <-]).
    pose proof (fm_up_inv m L t p I Et Ht) as W. unfold wp in W. rewrite E in W. destruct W as (l' & En & I').
    exists (upd L p l'). split; [done|]. by apply locks_next_intro.
  - exists L. split; [by apply kernel_inv|done].
Qed.

Lemma fm_init_inv w : pi_inv (fun _ => false) w -> fm_inv (fm_init w) all_free.
Proof.
  intros Hw. split; try done; cbn.
  - intros p t. set_solver.
  - constructor.
  - intros t. split; [set_solver|]. intros [p E]. done.
  - split; [done|]. intros t [[p E] _]. done.
Qed.

Lemma fsteps_inv w es m :
  pi_inv (fun _ => false) w -> fsteps (fm_init w) es m ->
  exists L, locks_run es all_free = Some L /\ fm_inv m L.
Proof.
  intros Hw S. remember (fm_init w) as m0. induction S as [|m1 m2 m3 es e _ IH S]; subst.
  - exists all_free. split; [done|by apply fm_init_inv].
  - destruct IH as (L & EL & I); [done|]. destruct (fstep_inv m2 e m3 L I S) as (L' & I' & E). exists L'.
    split; [|done]. unfold locks_run in *. rewrite foldl_app, EL. destruct e as [pe|]; cbn; [done|by subst].
Qed.

End Machine.

Section Theorems.
Context {Q : Type -> Type} {P : Type} `{PiPluginLaws Q P}.
Implicit Types (w : world Q P) (m : fmachine Q P).

(** C10: Every semaphore implements a FIFO lock: the events of any run, in their
    order, are a run of the abstract locks, and afterwards the count and the
    wait queue of every semaphore are those of its lock. *)
Theorem fmlp_refines w es m :
  pi_inv (fun _ => false) w -> fsteps (fm_init w) es m ->
  exists L, locks_run es all_free = Some L /\
    forall p sem, psems (fs m) !! p = Some sem -> represents sem (L p).
Proof. intros Hw S. destruct (fsteps_inv w es m Hw S) as (L & E & I). exists L. split; [done|apply I]. Qed.

(** C9: In every run two tasks never own the same semaphore, the calls of
    [sys_fmlp_down] return in the order in which they were made, and while a
    task waits, another one owns the semaphore or a waiting one has been woken. *)
Theorem fmlp_mutual_exclusion w es m :
  pi_inv (fun _ => false) w -> fsteps (fm_init w) es m ->
  (forall p t u, phase m t = Owner p -> phase m u = Owner p -> t = u) /\
  (forall p, granted m p `prefix_of` requested m p) /\
  (forall p t, phase m t = Waiting p ->
    exists u, phase m u = Owner p \/ (phase m u = Waiting p /\ u ∈ awake (fs m))).
Proof.
  intros Hw S. destruct (fsteps_inv w es m Hw S) as (L & _ & I). split_and!.
  - intros p t u Et%(fi_owner _ _ I) Eu%(fi_owner _ _ I). congruence.
  - intros p. rewrite (fi_log _ _ I). by eexists.
  - intros p t Et. destruct (lk (L p)) as [|u|u] eqn:El.
    + apply (fi_waiting _ _ I) in Et. unfold handed in Et. rewrite El, (fi_free _ _ I p El) in Et. set_solver.
    + exists u. left. by apply (fi_owner _ _ I).
    + exists u. right. split; [by apply (handed_waits m L I)|]. apply (fi_awake _ _ I). by exists p.
Qed.


(** [edf_set_hp_cpu_task] finds the waiter of the given CPU that has the
    highest priority, records it and tells whether there is one; nothing else of
    the semaphore changes. *)
Theorem edf_set_hp_cpu_task_best p cpu sem l (s : fmlp Q P) :
  let T := tasks (kern s) in
  psems s !! p = Some sem -> wait sem = WPair <$> l -> pids_unique T -> Forall (edf_dom T 0) l ->
  exists hp, best_of T (filter (fun t => get_partition (T t) =? cpu) l) hp /\
    edf_set_hp_cpu_task p cpu s =
      Some (found hp, set_psems (<[p := set_hp_cpu_task (upd (hp_cpu_task sem) cpu hp) sem]> (psems s)) s).
Proof.
  intros T Ep Ew Hu HD.
  destruct (hp_loop_best T (fun t => get_partition (T t) =? cpu) l [] None s Hu HD eq_refl) as (hp & Eh & Hb).
  exists hp. split; [done|]. unfold edf_set_hp_cpu_task, upd_psem, get_psem, put_psem.
  rewrite (bind_ok _ _ s sem s) by (rewrite (bind_ok _ _ s (Some sem) s); unfold gets; by rewrite ?Ep).
  rewrite (bind_ok _ _ s T s) by done. rewrite Ew. cbn [found] in Eh. rewrite (bind_ok _ _ _ _ _ Eh).
  unfold mbind, M_bind, gets. by rewrite Ep.
Qed.

End Theorems.
