(* ===== verification/FmlpPsn.v ===== *)
(** * The FMLP under PSN-EDF

    The callbacks [pi_block], [inherit_priority] and [return_priority] of
    src/litmus2010/litmus/sched_psn_edf.c.  The owner of a semaphore is not
    preempted and inherits the priority of the highest-priority task of its CPU
    that uses the semaphore.  The callbacks satisfy the laws of Fmlp.v, which
    makes its theorems hold for PSN-EDF. *)

From stdpp Require Import sorting.
From S2P Require Import Prelude Task Edf PrioQueue Kernel RtDomain RtInv EdfDomain Partitioned PsnEdf Fmlp.
Open Scope Z_scope.

Section Callbacks.
Context {Q : Type -> Type} `{PrioQueue Q}.
Abbreviation K := (M (world Q pstate)).
Abbreviation F := (M (fmlp Q pstate)).

(** Let the holder inherit; if it is queued, put it where it now belongs. *)
Definition psnedf_boost (edf : Z) (t new_waiter : tid) : K unit :=
  upd_task t (set_inh_task (Some new_waiter));;
  queued ← is_queued t;
  when queued (
    remove edf_ready_order edf t;;
    now ← litmus_clock;
    x ← get_task t;
    if is_released x now then __add_ready edf_ready_order psnedf_check_resched edf t
    else add_release edf_ready_order edf t).

(** Check if we need to reschedule. *)
Definition psnedf_recheck (edf : Z) (current : tid) : K unit :=
  needed ← edf_preemption_needed edf (Some current);
  when needed (psnedf_preempt edf).

Definition psnedf_pi_block (p : positive) (new_waiter : tid) : F Z :=
  x ← kernel (get_task new_waiter);
  let cpu := get_partition x in
  sem ← get_psem p;
  T ← gets (fun st => tasks (kern st));
  if edf_higher_prio T (Some new_waiter) (hp_cpu_task sem cpu) then
    (* store new highest-priority task *)
    upd_psem p (fun s => set_hp_cpu_task (upd (hp_cpu_task s) cpu (Some new_waiter)) s);;
    match holder sem with
    | Some h => when (get_partition (T h) =? cpu) (kernel (psnedf_boost cpu h new_waiter))
    | None => mret tt
    end;;
    current ← kernel (gets (fun w => curr w (this_cpu w)));
    kernel (psnedf_recheck cpu current);;
    mret 0
  else mret 0.

Definition psnedf_inherit_priority (p : positive) (new_owner : tid) : F Z :=
  x ← kernel (get_task new_owner);
  sem ← get_psem p;
  kernel (upd_task new_owner (set_inh_task (hp_cpu_task sem (get_partition x))));;
  (* make new owner non-preemptable as required by FMLP under PSN-EDF. *)
  kernel (upd_task new_owner make_np);;
  mret 0.

(** Called on a semaphore release by the task [current] that holds it. *)
Definition psnedf_return_priority (p : positive) (current : tid) : F Z :=
  x ← kernel (get_task current);
  let cpu := get_partition x in
  sem ← get_psem p;
  (if bool_decide (hp_cpu_task sem cpu = Some current) then _ ← edf_set_hp_cpu_task p cpu; mret tt
   else mret tt);;
  x ← kernel (get_task current);
  let '(still_np, x) := take_np x in
  kernel (upd_task current (fun _ => x));;
  (* Since we don't nest resources, this should always be zero *)
  BUG_ON (negb (still_np =? 0));;
  (* Reset inh_task to NULL. *)
  kernel (upd_task current (set_inh_task None));;
  kernel (psnedf_recheck cpu current);;
  mret 0.

End Callbacks.

#[global] Instance psn_pi_plugin {Q : Type -> Type} `{PrioQueue Q} : PiPlugin Q pstate := {
  fmlp_active := true;
  pi_block := psnedf_pi_block;
  inherit_priority := psnedf_inherit_priority;
  return_priority := psnedf_return_priority
}.

(** ** The queues while tasks inherit priorities *)
Section Kernel.
Context {Q : Type -> Type} `{PrioQueueLaws Q}.
Abbreviation world := (world Q pstate).
Implicit Types (w : world) (t h : tid) (d : Z) (O : tid -> bool).

(** What the order of other tasks depends on. *)
Definition same_job (x y : task_struct) : Prop :=
  pid x = pid y /\ is_realtime x = is_realtime y /\ get_deadline x = get_deadline y.

(** Only the task [t] changes, in what the order of the others does not see. *)
Definition retouched t (T T' : tid -> task_struct) : Prop :=
  same_job (T' t) (T t) /\ forall y, y <> t -> T' y = T y.

Lemma retouched_upd t x T : same_job x (T t) -> retouched t T (upd T t x).
Proof. intros Hx. split; [by rewrite upd_eq|]. intros y Hy. by apply upd_ne. Qed.

Lemma retouched_job t T T' a : retouched t T T' -> same_job (T' a) (T a).
Proof. intros [Ht Ho]. destruct (decide (a = t)) as [->|Ha]; [done|]. rewrite Ho by done. by split_and!. Qed.

Lemma retouched_pids t T T' : retouched t T T' -> pids_unique T -> pids_unique T'.
Proof.
  intros Ht Hu a b. destruct (retouched_job t T T' a Ht) as [-> _]. destruct (retouched_job t T T' b Ht) as [-> _]. apply Hu.
Qed.

Lemma order_other T t T' a b :
  retouched t T T' -> a <> t -> b <> t -> edf_ready_order T' a b = edf_ready_order T a b.
Proof.
  intros Ht Ha Hb. unfold edf_ready_order, edf_higher_prio. cbn. rewrite (proj2 Ht a), (proj2 Ht b) by done.
  destruct (retouched_job t T T' (default a (inh_task (T a))) Ht) as (P1 & _ & D1).
  destruct (retouched_job t T T' (default b (inh_task (T b))) Ht) as (P2 & R2 & D2).
  unfold earlier_deadline. by rewrite P1, P2, R2, D1, D2.
Qed.

Lemma edf_ok_other T t T' a : retouched t T T' -> a <> t -> edf_ok T a -> edf_ok T' a.
Proof.
  intros Ht Ha. unfold edf_ok, edf_dom, eff. rewrite (proj2 Ht a) by done.
  by destruct (retouched_job t T T' (default a (inh_task (T a))) Ht) as (_ & -> & ->).
Qed.

Lemma edom_ok_inh w t T' :
  edom_ok w -> in_heap (tasks w t) = false -> in_heap (T' t) = false -> retouched t (tasks w) T' ->
  edom_ok (set_tasks T' w).
Proof.
  intros Hw Ht Hh Hx.
  assert (forall y p, at_place w y p -> y <> t) as Hne.
  { intros y p Hp ->. by eapply (unqueued_nowhere edf_ready_order edf_ok) in Hp. }
  assert (forall q : Q tid, (forall y, y ∈ pq_elems q -> y <> t) ->
    pq_wf (edf_ok (tasks w)) (edf_ready_order (tasks w)) q ->
    pq_wf (edf_ok T') (edf_ready_order T') q) as Hwf.
  { intros q Hq Hwf. eapply pq_wf_ext; [exact Hwf| |intros; eapply order_other; eauto].
    pose proof (pq_wf_D _ _ _ Hwf) as HD. rewrite Forall_forall in *. intros y Hy. eapply edf_ok_other; eauto. }
  destruct Hw. split; try done.
  - intros y. cbn. destruct (decide (y = t)) as [->|Hy]; [|rewrite (proj2 Hx) by done; apply qo_heap].
    rewrite Hh. split; [done|]. intros [p Hp]. by destruct (Hne t p Hp).
  - intros o y Ho Hy. cbn. rewrite (proj2 Hx); [by apply qo_time|]. by eapply (Hne y (PRelease (rh_dom (rheaps w o)) o)).
  - intros d. apply Hwf; [|apply qo_ready_wf]. intros y Hy. by eapply (Hne y (PReady d)).
  - intros o Ho. apply Hwf; [|by apply qo_rel_wf].
    intros y Hy. by eapply (Hne y (PRelease (rh_dom (rheaps w o)) o)).
Qed.

(** A ready task can be removed after its priority has changed. *)
Lemma remove_boosted d t x w :
  pids_unique (tasks w) -> edom_ok w -> at_place w t (PReady d) -> same_job x (tasks w t) ->
  wp (remove edf_ready_order d t) (fun _ w' => exists w0 T', moved t None w w0 /\ edom_ok w0 /\
    w' = set_tasks T' w0 /\ T' t = set_in_heap false x /\ forall y, y <> t -> T' y = tasks w0 y)
    (set_tasks (upd (tasks w) t x) w).
Proof.
  intros Hu Hw Hp Hx. pose proof (edf_remove_spec d t w Hu Hw Hp) as ([] & w0 & R & Hm & Hw0)%wp_run.
  set (T' := upd (tasks w) t x). set (del := fun y => bool_decide (y = t)).
  destruct (pq_delete_total (edf_ready_order (tasks w)) del _ t Hp) as [q E]; [by apply bool_decide_eq_true|].
  assert (pq_delete (edf_ready_order T') del (ready_queue (doms w d)) = Some q) as E'.
  { rewrite <- E. destruct (pq_delete_elems _ _ _ _ E) as (v & Hv & Hel). apply bool_decide_eq_true in Hv as ->.
    pose proof (qo_nodup_ready _ _ _ Hw d) as N. unfold ready_elems in N. rewrite Hel in N. apply NoDup_cons in N as [N _].
    eapply pq_delete_ext; [exact Hel|by apply bool_decide_eq_true| |].
    - apply Forall_forall. intros y Hy. apply bool_decide_eq_false. by intros ->.
    - intros a b Ha Hb. apply (order_other _ t); [by apply retouched_upd|by intros ->..]. }
  unfold remove, get_dom, upd_dom, upd_task in R |- *. apply wp_run.
  rewrite !(bind_ok _ _ _ _ _ eq_refl) in R. cbn beta in R. fold del in R. rewrite E in R. injection R as <-.
  eexists tt, _. split; [rewrite !(bind_ok _ _ _ _ _ eq_refl); cbn; fold del; by rewrite E'|].
  eexists _, _. split; [exact Hm|]. split; [exact Hw0|]. split; [done|]. cbn. unfold T'.
  split; [by rewrite !upd_eq|]. intros y Hy. by rewrite !upd_ne.
Qed.

(** ** What PSN-EDF maintains while the tasks in [O] own a semaphore *)
Record psn_pi O w : Prop := {
  pi_dom : edom_ok w;
  pi_pids : pids_unique (tasks w);
  pi_time : in_time w;
  (* owners, and only they, are not preemptable *)
  pi_np t : kernel_np (tasks w t) = if O t then 1 else 0;
  (* a queued owner is ready in its partition *)
  pi_place t p : O t = true -> at_place w t p ->
    p = PReady (get_partition (tasks w t)) /\ is_realtime (tasks w t) = true /\ get_release (tasks w t) <= clock w
}.

(** Nothing is queued or dequeued, no task changes its class. *)
Definition eased w w' : Prop :=
  (forall x, in_heap (tasks w' x) = in_heap (tasks w x)) /\
  (forall x, is_realtime (tasks w' x) = is_realtime (tasks w x)).

Lemma eased_trans w1 w2 w3 : eased w1 w2 -> eased w2 w3 -> eased w1 w3.
Proof. intros [A B] [C D]. split; intros x; [by rewrite C|by rewrite D]. Qed.

(** The same places are taken. *)
Lemma in_heap_same w w' :
  edom_ok w -> edom_ok w' -> (forall x, (exists p, at_place w' x p) <-> (exists p, at_place w x p)) ->
  forall x, in_heap (tasks w' x) = in_heap (tasks w x).
Proof. intros Hw Hw' E x. apply eq_true_iff_eq. rewrite (qo_heap _ _ _ Hw'), (qo_heap _ _ _ Hw). apply E. Qed.

(** A task that is in no queue changes. *)
Lemma psn_pi_task O O' t x w :
  psn_pi O w -> in_heap (tasks w t) = false -> in_heap x = false -> same_job x (tasks w t) ->
  get_release x = get_release (tasks w t) -> kernel_np x = (if O' t then 1 else 0) -> (forall y, y <> t -> O' y = O y) ->
  psn_pi O' (set_tasks (upd (tasks w) t x) w) /\ eased w (set_tasks (upd (tasks w) t x) w).
Proof.
  intros [Hd Hu [Hk Hj] Hn Hp] Ht Hh Hx Hr Hnp HO. pose proof (retouched_upd t x (tasks w) Hx) as Hre. split; [split|split].
  - by apply (edom_ok_inh w t); [|rewrite ?upd_eq..|].
  - by eapply retouched_pids.
  - split; [done|]. intros y. cbn. unfold upd. case_decide; [subst|by apply Hj].
    destruct Hx as (_ & -> & ->). rewrite Hr. apply Hj.
  - intros y. cbn. unfold upd. case_decide as Hy; [by subst|]. by rewrite Hn, HO.
  - intros y p Hy Hpl. assert (y <> t) as Hne by (intros ->; by eapply (unqueued_nowhere edf_ready_order edf_ok)).
    cbn. rewrite upd_ne by done. rewrite HO in Hy by done. by apply Hp.
  - intros y. cbn. unfold upd. case_decide; [by subst; rewrite Hh|done].
  - intros y. cbn. unfold upd. case_decide; [subst|done]. apply Hx.
Qed.

Lemma psn_pi_quiet O w w' : psn_pi O w -> quiet w w' -> edom_ok w' -> psn_pi O w' /\ eased w w'.
Proof.
  intros [Hd Hu [Hk Hj] Hn Hp] [[] A] Hw'.
  assert (forall y, same_prio (tasks w' y) (tasks w y)) as Hs by (intros y; by apply core_same_prio). split; [split|split].
  - done.
  - intros a b. destruct (Hs a) as (_ & -> & _), (Hs b) as (_ & -> & _). apply Hu.
  - destruct (timed_same w w') as (_ & Hck & He); [done..|]. split; [auto|]. intros y.
    unfold get_release, get_deadline. rewrite He. destruct (Hs y) as (_ & _ & -> & _).
    rewrite (core_field job_params _ _ (fun _ => eq_refl) (se_core y)) by done. apply Hj.
  - intros y. rewrite (core_field kernel_np _ _ (fun _ => eq_refl) (se_core y)) by done. apply Hn.
  - intros y p Hy Hpl%A. unfold get_partition, get_release. rewrite se_clock.
    rewrite (core_field job_params _ _ (fun _ => eq_refl) (se_core y)), (core_field task_params _ _ (fun _ => eq_refl) (se_core y)) by done.
    destruct (Hs y) as (_ & _ & -> & _). by apply Hp.
  - apply in_heap_same; [done..|]. intros y. by setoid_rewrite A.
  - intros y. apply Hs.
Qed.

(** A ready owner inherits a priority and is queued where it belongs. *)
Lemma psn_pi_boosted O h n w w' :
  psn_pi O w -> at_place w h (PReady (get_partition (tasks w h))) ->
  moves h (set_inh_task (Some n) (tasks w h)) (Some (PReady (get_partition (tasks w h)))) w w' ->
  edom_ok w' -> timed w w' -> psn_pi O w' /\ eased w w'.
Proof.
  intros [Hd Hu [Hk Hj] Hn Hp] Hh [A C _ _ _ _] Hw' (Hcl & Hck & He).
  assert (forall {B} (f : task_struct -> B), (forall z, f (core z) = f z) -> (forall z, f (set_inh_task (Some n) z) = f z) ->
    forall y, f (tasks w' y) = f (tasks w y)) as Hf.
  { intros B f Hc Hi y. rewrite (core_field f _ _ Hc (C y)). case_decide; [subst; by rewrite Hi|done]. }
  assert (forall y p, at_place w' y p -> at_place w y p) as Hat.
  { intros y p. rewrite A. case_decide; [subst; by intros [= <-]|done]. }
  split; [split|split].
  - done.
  - intros a b. rewrite !(Hf _ pid) by done. apply Hu.
  - split; [auto|]. intros y. unfold get_release, get_deadline. rewrite He, (Hf _ is_realtime), !(Hf _ job_params) by done. apply Hj.
  - intros y. rewrite (Hf _ kernel_np) by done. apply Hn.
  - intros y p Hy Hpl%Hat. unfold get_partition, get_release. rewrite (Hf _ is_realtime), (Hf _ job_params), (Hf _ task_params) by done.
    destruct (Hp y p Hy Hpl) as (? & ? & ?). split_and!; [done|done|]. unfold get_release in *. lia.
  - apply in_heap_same; [done..|]. intros y. split; intros [p Hpl]; [eauto|].
    destruct (decide (y = h)) as [->|Hy]; [|exists p; apply A; by rewrite decide_False].
    eexists. apply A. by rewrite decide_True.
  - intros y. by apply (Hf _ is_realtime).
Qed.

(** The owner between its removal from the ready queue and its return. *)
Record dangling h n w w1 : Prop := {
  dg_dom : edom_ok w1;
  dg_heap : in_heap (tasks w1 h) = false;
  dg_core y : core (tasks w1 y) = core (if decide (y = h) then set_inh_task (Some n) (tasks w h) else tasks w y);
  dg_at y p : y <> h -> at_place w1 y p <-> at_place w y p;
  dg_env : clock w1 = clock w /\ elapse w1 = elapse w /\ this_cpu w1 = this_cpu w /\ curr w1 = curr w /\
    tick_period w1 = tick_period w /\ plugin w1 = plugin w
}.

Lemma dangling_spec O h n d w :
  psn_pi O w -> at_place w h (PReady d) ->
  wp (remove edf_ready_order d h) (fun _ w' => dangling h n w w')
    (set_tasks (upd (tasks w) h (set_inh_task (Some n) (tasks w h))) w).
Proof.
  intros Hi Hp. eapply wp_mono; [eapply remove_boosted; [apply Hi|apply Hi|done|done]|].
  intros ? w1 (w0 & T' & [Hm A] & Hw0 & -> & Eth & Eto).
  assert (in_heap (tasks w0 h) = false) as Hh0.
  { apply not_true_iff_false. intros [q Hq]%(qo_heap _ _ _ Hw0). apply A in Hq. by rewrite decide_True in Hq. }
  destruct (core_same_prio _ _ (se_core _ _ Hm h)) as (_ & Ep & Er & Ed).
  assert (retouched h (tasks w0) T') as Hre.
  { split; [|done]. rewrite Eth. split_and!; [exact (eq_sym Ep)|exact (eq_sym Er)|exact (eq_sym Ed)]. }
  split; cbn.
  - apply (edom_ok_inh w0 h); [done|done|by rewrite Eth|done].
  - by rewrite Eth.
  - intros y. case_decide as Hy; [subst y; rewrite Eth; by destruct (tasks w h)|]. rewrite Eto by done. apply Hm.
  - intros y p Hy. change (at_place w0 y p <-> at_place w y p). by rewrite A, decide_False.
  - split_and!; apply Hm.
Qed.

Lemma dangling_pids h n w w1 : dangling h n w w1 -> pids_unique (tasks w) -> pids_unique (tasks w1).
Proof.
  intros D Hu a b. rewrite !(core_field pid _ _ (fun _ => eq_refl) (dg_core _ _ _ _ D _)).
  intros E. apply Hu. by repeat case_decide; subst.
Qed.

Lemma dangling_ok O h n w w1 :
  psn_pi O w -> dangling h n w w1 -> is_realtime (tasks w n) = true -> edf_ok (tasks w1) h.
Proof.
  intros Hi D Hr. unfold edf_ok, edf_dom, eff, get_deadline.
  rewrite (core_field inh_task _ _ (fun _ => eq_refl) (dg_core _ _ _ _ D h)), decide_True by done. cbn.
  rewrite (core_field is_realtime _ _ (fun _ => eq_refl) (dg_core _ _ _ _ D n)),
    (core_field job_params _ _ (fun _ => eq_refl) (dg_core _ _ _ _ D n)).
  pose proof (it_task _ (pi_time _ _ Hi) n Hr) as (_ & ? & _). by case_decide; subst.
Qed.

Lemma boost_spec O h n w :
  psn_pi O w -> O h = true -> is_realtime (tasks w n) = true ->
  wp (psnedf_boost (get_partition (tasks w h)) h n) (fun _ w' => psn_pi O w' /\ eased w w') w.
Proof.
  intros Hi HO Hr. set (d := get_partition (tasks w h)). unfold psnedf_boost, is_queued, get_task, upd_task. wp_steps. wp_steps. apply wp_when.
  cbn [tasks set_tasks]. rewrite upd_eq. destruct (in_heap (set_inh_task _ _)) eqn:Eh; cbn in Eh.
  2: { eapply psn_pi_task; try done. apply Hi. }
  destruct (proj1 (qo_heap _ _ _ (pi_dom _ _ Hi) h) Eh) as [p Hp].
  destruct (pi_place _ _ Hi h p HO Hp) as (-> & Hrh & Hrel). fold d in Hp. wp_steps.
  eapply wp_mono; [by eapply dangling_spec|]. intros ? w1 D. cbv beta in D. wp_steps.
  destruct (dg_env _ _ _ _ D) as (Ec & Ee & E1 & E2 & E3 & E4). destruct (pi_time _ _ Hi) as [Hck Hj].
  destruct (Hj h Hrh) as (Hj1 & Hj2 & Hj3).
  apply clock_spec; [unfold clock_ok in *; by rewrite Ec, Ee|]. intros c ds Hc Hck' Hte. wp_steps.
  cbn [tasks clock_to set_elapse set_clock].
  assert (time_end w1 = time_end w) as Et by (unfold time_end; by rewrite Ec, Ee).
  assert (is_released (tasks w1 h) c = true) as ->.
  { unfold is_released, get_release. rewrite (core_field job_params _ _ (fun _ => eq_refl) (dg_core _ _ _ _ D h)), decide_True by done.
    change (lt_before_eq (get_release (tasks w h)) c = true). destruct Hck. rewrite lt_before_eq_window by lia. apply Z.leb_le. lia. }
  eapply wp_mono; [apply (edf_add_ready_spec _ d h (clock_to c ds w1)); [apply check_resched_calm| | |apply D|]|].
  - apply (dangling_pids h n w w1 D), Hi.
  - apply edom_ok_clock, D.
  - by apply (dangling_ok O h n w w1).
  - intros ? w3 [[[] A] Hw3]. eapply (psn_pi_boosted O h n); [done|done| |done|].
    + split; try (cbn in *; congruence).
      * intros y q. rewrite A. case_decide; [done|]. by apply (dg_at _ _ _ _ D).
      * intros y. rewrite se_core. apply (dg_core _ _ _ _ D).
    + split_and!; [rewrite se_clock; cbn; lia|intros _; unfold clock_ok in *; by rewrite se_clock, se_elapse|].
      rewrite <- Et, <- Hte. unfold time_end. by rewrite se_clock, se_elapse.
Qed.

Lemma recheck_spec O d t w : psn_pi O w -> wp (psnedf_recheck d t) (fun _ w' => psn_pi O w' /\ eased w w') w.
Proof.
  intros Hi. unfold psnedf_recheck. wp_steps.
  eapply wp_mono; [apply preemption_needed_calm; [apply (edf_swo _ 0), Hi|apply Hi]|]. intros b w1 [Hq Hw1].
  destruct (psn_pi_quiet O w w1 Hi Hq Hw1) as [Hi1 E1]. apply wp_when. destruct b; [|done].
  eapply wp_mono; [by apply preempt_cpu_spec|]. intros ? w2 [Hq2 Hw2].
  destruct (psn_pi_quiet O w1 w2 Hi1 Hq2 Hw2) as [Hi2 E2]. split; [done|by eapply eased_trans].
Qed.

End Kernel.

(** ** The callbacks satisfy the laws *)
Section Laws.
Context {Q : Type -> Type} `{PrioQueueLaws Q}.
Abbreviation fmlp := (fmlp Q pstate).
Implicit Types (s : fmlp) (p : positive) (t h : tid) (O : tid -> bool) (w : world Q pstate).

Lemma pi_kept_trans s1 s2 s3 : kept s1 s2 -> kept s2 s3 -> kept s1 s3.
Proof. intros [] []. split; intros; etransitivity; eauto. Qed.

Lemma kept_kern s w : eased (kern s) w -> kept s (set_kern w s).
Proof. intros []. by split. Qed.

Lemma kept_psem s p sem sem' :
  psems s !! p = Some sem -> sem_core sem' = sem_core sem -> kept s (set_psems (<[p := sem']> (psems s)) s).
Proof.
  intros E Es. split; try done. intros q. cbn. destruct (decide (q = p)) as [->|].
  - rewrite lookup_insert_eq, E. change (Some (sem_core sem') = Some (sem_core sem)). by rewrite Es.
  - by rewrite lookup_insert_ne.
Qed.

(** What a step of a callback guarantees. *)
Definition step_ok O s s' : Prop := kept s s' /\ psn_pi O (kern s').

Lemma step_ok_trans O O' s1 s2 s3 : step_ok O' s1 s2 -> step_ok O s2 s3 -> step_ok O s1 s3.
Proof. intros [K1 _] [K2 ?]. split; [by eapply pi_kept_trans|done]. Qed.

Lemma wp_kernel_ok {A} O (c : M (world Q pstate) A) s :
  wp c (fun _ w' => psn_pi O w' /\ eased (kern s) w') (kern s) -> wp (kernel c) (fun _ s' => step_ok O s s') s.
Proof.
  intros W. apply wp_kernel. eapply wp_mono; [exact W|]. intros a w' [Hi E]. split; [by apply kept_kern|done].
Qed.

Lemma wp_upd_ok O p f sem s :
  psems s !! p = Some sem -> sem_core (f sem) = sem_core sem -> psn_pi O (kern s) ->
  wp (upd_psem p f) (fun _ s' => step_ok O s s' /\ kern s' = kern s) s.
Proof.
  intros E Es Hi. unfold upd_psem, put_psem. wp_steps. eapply wp_get_psem; [done|]. wp_steps.
  split; [|done]. split; [by eapply kept_psem|done].
Qed.

Lemma step_unqueued O s s' t : step_ok O s s' -> unqueued (kern s) t -> unqueued (kern s') t.
Proof. intros [[_ _ Hh Hr] _] []. split; [by rewrite Hh|by rewrite Hr]. Qed.

Lemma psn_pi_block_ok O p t s sem :
  psems s !! p = Some sem -> psn_pi O (kern s) -> unqueued (kern s) t ->
  (forall h, holder sem = Some h -> O h = true) ->
  wp (psnedf_pi_block p t) (fun _ s' => step_ok O s s') s.
Proof.
  intros Ep Hi [Ht Hr] Hh. unfold psnedf_pi_block. wp_steps. rewrite wp_get_kernel. wp_steps.
  eapply wp_get_psem; [done|]. wp_steps. destruct (edf_higher_prio _ _ _); [|by wp_steps]. wp_steps.
  eapply wp_mono; [by eapply (wp_upd_ok O)|]. intros ? s1 [S1 K1]. wp_steps.
  apply (wp_mono _ (fun _ s2 => step_ok O s s2)).
  - destruct (holder sem) as [h|]; [|done]. apply wp_when. destruct (Z.eqb_spec (get_partition (tasks (kern s) h)) (get_partition (tasks (kern s) t))) as [E|]; [|done].
    eapply wp_mono; [apply (wp_kernel_ok O)|intros ? s2; by eapply step_ok_trans].
    rewrite <- E, <- K1. apply boost_spec; [apply S1|by apply Hh|by rewrite K1].
  - intros ? s2 S2. cbv beta in S2. wp_steps. rewrite wp_kernel. wp_steps.
    replace (set_kern (kern s2) s2) with s2 by (by destruct s2).
    eapply wp_mono; [apply (wp_kernel_ok O), recheck_spec, S2|]. intros ? s3 S3. wp_steps. by eapply step_ok_trans.
Qed.

(** Updates of a task that is in no queue. *)
Lemma wp_task_ok O O' t f s :
  psn_pi O (kern s) -> unqueued (kern s) t ->
  (forall x, in_heap (f x) = in_heap x) -> (forall x, same_job (f x) x) -> (forall x, get_release (f x) = get_release x) ->
  kernel_np (f (tasks (kern s) t)) = (if O' t then 1 else 0) -> (forall y, y <> t -> O' y = O y) ->
  wp (kernel (upd_task t f)) (fun _ s' => step_ok O' s s' /\ tasks (kern s') t = f (tasks (kern s) t)) s.
Proof.
  intros Hi [Ht Hr] Hf Hj Hrel Hnp HO. apply wp_kernel. unfold upd_task. wp_steps. split; [|by cbn; rewrite upd_eq].
  destruct (psn_pi_task O O' t (f (tasks (kern s) t)) (kern s)) as [H1 H2]; [done|done|by rewrite Hf|done..|].
  split; [by apply kept_kern|done].
Qed.

Lemma psn_inherit_ok O p t s sem :
  psems s !! p = Some sem -> psn_pi O (kern s) -> unqueued (kern s) t -> O t = false ->
  wp (psnedf_inherit_priority p t) (fun _ s' => step_ok (upd O t true) s s') s.
Proof.
  intros Ep Hi Ht HO. unfold psnedf_inherit_priority. wp_steps. rewrite wp_get_kernel. wp_steps.
  eapply wp_get_psem; [done|]. wp_steps.
  eapply wp_mono; [apply (wp_task_ok O O); try done; apply Hi|]. intros ? s1 [S1 E1]. wp_steps.
  eapply wp_mono; [apply (wp_task_ok O (upd O t true)); try done|].
  - apply S1.
  - by eapply step_unqueued.
  - rewrite E1, upd_eq. unfold make_np. cbn. pose proof (pi_np _ _ Hi t) as E. rewrite HO in E. by rewrite E.
  - intros y Hy. by rewrite upd_ne.
  - intros ? s2 [S2 _]. wp_steps. by eapply step_ok_trans.
Qed.

Lemma set_hp_ok O p cpu sem s :
  psems s !! p = Some sem -> psn_pi O (kern s) -> Forall (fun e => WPair (wq_task e) = e) (wait sem) ->
  wp (edf_set_hp_cpu_task p cpu) (fun _ s' => step_ok O s s' /\ kern s' = kern s) s.
Proof.
  intros Ep Hi Hw. unfold edf_set_hp_cpu_task. wp_steps. eapply wp_get_psem; [done|]. wp_steps.
  assert (wait sem = WPair <$> (wq_task <$> wait sem)) as ->.
  { clear -Hw. induction Hw as [|e l He _ IH]; [done|]. cbn. by rewrite He, <- IH. }
  set (T := tasks (kern s)).
  destruct (hp_loop_runs T (fun t => get_partition (T t) =? cpu) (wq_task <$> wait sem) None 0 s) as (hp & r & E).
  unfold wp at 1. rewrite E. wp_steps. eapply wp_mono; [by eapply (wp_upd_ok O)|]. intros ? s1 HS. by wp_steps.
Qed.

Lemma psn_return_ok O p t s sem :
  psems s !! p = Some sem -> psn_pi O (kern s) -> unqueued (kern s) t -> O t = true ->
  Forall (fun e => WPair (wq_task e) = e) (wait sem) ->
  wp (psnedf_return_priority p t) (fun _ s' => step_ok (upd O t false) s s') s.
Proof.
  intros Ep Hi Ht HO Hw. unfold psnedf_return_priority. wp_steps. rewrite wp_get_kernel. wp_steps.
  eapply wp_get_psem; [done|]. wp_steps. apply (wp_mono _ (fun _ s1 => step_ok O s s1 /\ kern s1 = kern s)).
  { case_bool_decide; [|done]. wp_steps. eapply wp_mono; [by eapply (set_hp_ok O)|]. intros ? s1 HS. by wp_steps. }
  intros ? s1 [S1 K1]. wp_steps. rewrite wp_get_kernel, K1. set (x := tasks (kern s) t) in *.
  assert (take_np x = (0, set_kernel_np 0 x)) as ->.
  { pose proof (pi_np _ _ Hi t) as E. rewrite HO in E. fold x in E. unfold take_np. by rewrite E. }
  wp_steps. eapply wp_mono; [eapply (wp_mono _ (fun _ s' => step_ok (upd O t false) s1 s'))|].
  - rewrite wp_kernel. unfold upd_task. wp_steps.
    destruct (psn_pi_task O (upd O t false) t (set_kernel_np 0 x) (kern s1)) as [H1 H2]; rewrite ?K1; try done; try apply Ht.
    + by rewrite upd_eq.
    + intros y Hy. by rewrite upd_ne.
    + rewrite K1 in H1, H2. split; [apply kept_kern; by rewrite K1|done].
  - intros ? s2 S2. exact S2.
  - intros ? s2 S2. cbv beta in S2. wp_steps; [done|]. eapply wp_mono; [apply (wp_task_ok (upd O t false) (upd O t false)); try done|].
    + apply S2.
    + eapply step_unqueued; [exact S2|]. by rewrite K1.
    + rewrite upd_eq. pose proof (pi_np _ _ (proj2 S2) t) as E. by rewrite upd_eq in E.
    + intros ? s3 [S3 _]. wp_steps. eapply wp_mono; [apply (wp_kernel_ok (upd O t false)), recheck_spec, S3|].
      intros ? s4 S4. wp_steps. eapply step_ok_trans; [exact S1|]. eapply step_ok_trans; [exact S2|]. by eapply step_ok_trans.
Qed.

#[global] Program Instance psn_pi_laws : PiPluginLaws Q pstate := { pi_inv := psn_pi }.
Next Obligation. intros O O' w E []. split; try done; intros t; [by rewrite E|]. intros p. rewrite E. auto. Qed.
Next Obligation. intros O t b w Hi [Ht Hr]. eapply psn_pi_task; try done. apply Hi. Qed.
Next Obligation. intros O t b w Hi [Ht Hr]. eapply psn_pi_task; try done. apply Hi. Qed.
Next Obligation. intros. by eapply psn_pi_block_ok. Qed.
Next Obligation. intros. by eapply psn_inherit_ok. Qed.
Next Obligation. intros. by eapply psn_return_ok. Qed.

End Laws.
