(* ===== verification/FmlpExamples.v ===== *)
(** * FMLP semaphores on a concrete machine

    Three PSN-EDF tasks that share a semaphore: instances of the theorems of
    Fmlp.v, and what happens to the priority of a task that the semaphore was
    handed to. *)

From S2P Require Import Prelude BinForest Task Edf PrioQueue Kernel RtDomain RtInv EdfDomain Partitioned PsnEdf Fmlp FmlpPsn.
Open Scope Z_scope.

(** ** Executing the machine *)
Inductive cmd : Type :=
  | Create (p : positive)
  | Do (p : positive) (e : event).

Definition label (c : cmd) : option (positive * event) :=
  match c with Create _ => None | Do p e => Some (p, e) end.

Section Exec.
Context {Q : Type -> Type} {P : Type} `{PiPluginLaws Q P}.
Implicit Types (m : fmachine Q P).

Definition unqueued_b (w : world Q P) (t : tid) : bool := negb (in_heap (tasks w t)) && is_realtime (tasks w t).

Definition fexec (c : cmd) m : option (fmachine Q P) :=
  match c with
  | Create p =>
      if bool_decide (psems (fs m) !! p = None) then
        match create_fmlp_semaphore (Some p) (fs m) with
        | Some (_, s') => Some (mk_fmachine s' (phase m) (requested m) (granted m))
        | None => None
        end
      else None
  | Do p (Down t) =>
      if bool_decide (phase m t = Away) && unqueued_b (kern (fs m)) t && bool_decide (is_Some (psems (fs m) !! p)) then
        match sys_fmlp_down t (Some p) (fs m) with
        | Some ((_, b), s') => Some (after_down m t p b s')
        | None => None
        end
      else None
  | Do p (Resume t) =>
      if bool_decide (phase m t = Waiting p) && bool_decide (t ∈ awake (fs m)) then
        match do_fmlp_down_woken t p (fs m) with
        | Some (_, s') => Some (after_resume m t p s')
        | None => None
        end
      else None
  | Do p (Up t) =>
      if bool_decide (phase m t = Owner p) && unqueued_b (kern (fs m)) t then
        match sys_fmlp_up t (Some p) (fs m) with
        | Some (_, s') => Some (after_up m t s')
        | None => None
        end
      else None
  end.

Lemma unqueued_dec w t : unqueued_b w t = true -> unqueued w t.
Proof. unfold unqueued_b, unqueued. by intros [?%negb_true_iff ?]%andb_true_iff. Qed.

Lemma fexec_fstep c m m' : fexec c m = Some m' -> fstep m (label c) m'.
Proof.
  destruct c as [p|p [t|t|t]]; cbn [fexec label].
  - case_bool_decide as E; [|done]. intros [= <-]. by eapply (f_create m p).
  - case_bool_decide as E; [|done]. destruct (unqueued_b _ t) eqn:U; [|done]. case_bool_decide; [|done]. cbn [andb].
    destruct (sys_fmlp_down t (Some p) (fs m)) as [[[r b] s']|] eqn:Ed; [|done]. intros [= <-].
    eapply f_down; [done|by apply unqueued_dec|done|exact Ed].
  - case_bool_decide as E; [|done]. case_bool_decide; [|done]. cbn [andb].
    destruct (do_fmlp_down_woken t p (fs m)) as [[[] s']|] eqn:Ed; [|done]. intros [= <-]. by apply f_resume.
  - case_bool_decide as E; [|done]. destruct (unqueued_b _ t) eqn:U; [|done]. cbn [andb].
    destruct (sys_fmlp_up t (Some p) (fs m)) as [[r s']|] eqn:Ed; [|done]. intros [= <-].
    eapply f_up; [done|by apply unqueued_dec|exact Ed].
Qed.

Definition fexecs (cs : list cmd) m : option (fmachine Q P) := foldl (fun o c => m ← o; fexec c m) (Some m) cs.

Lemma fexecs_fsteps cs m m' : fexecs cs m = Some m' -> exists es, fsteps m es m'.
Proof.
  unfold fexecs. revert m'. induction cs as [|c cs IH] using rev_ind; intros m'.
  { intros [= ->]. exists []. constructor. }
  rewrite foldl_app. cbn. destruct (foldl _ _ cs) as [m1|]; [|done]. intros E%fexec_fstep.
  destruct (IH m1 eq_refl) as [es Hs]. eexists. by eapply fs_step.
Qed.

End Exec.

(** ** Three tasks *)

(** Task 1 is of CPU 1, tasks 2 and 3 of CPU 0; task 3 has the earliest
    deadline. *)
Definition fx_params (cpu : Z) : rt_task :=
  mk_rt_task 1000000 10000000 0 cpu RT_CLASS_HARD PRECISE_ENFORCEMENT (mk_fm (0, 0) 0 ((0, 0), (0, 0))) 0
    (mk_wm [] 0) (mk_hime [] 0) (mk_cd [] 0).

Definition fx_task (rt : bool) (pid cpu deadline : Z) : task_struct :=
  mk_task pid rt true false false cpu 0 0 false false
    (fx_params cpu) (mk_rt_job 0 deadline 0 0) None 0 NO_CPU NO_CPU 0 false None (mk_semi 0 0 0 0 0 0).

Definition fx_tasks (t : tid) : task_struct :=
  match t with
  | 1%positive => fx_task true 1 1 5000
  | 2%positive => fx_task true 2 0 9000
  | 3%positive => fx_task true 3 0 4000
  | _ => fx_task false (Zpos t) 0 0
  end.

Definition fx_world : world fheap pstate :=
  mk_world fx_tasks (fun _ => mk_rt_domain pq_init (fun _ => []) [] NO_CPU) (fun _ => mk_release_heap 0 pq_init None 0)
    1000 [] 0 (fun _ => 4%positive) [] (fun _ => mk_et false 0) 1000000 (fun c => mk_pcpu c None).

Lemma fx_pid t : pid (fx_tasks t) = Zpos t.
Proof. by destruct t as [[|[]|]|[]|]. Qed.

Lemma fx_in_heap t : in_heap (fx_tasks t) = false.
Proof. by destruct t as [[|[]|]|[]|]. Qed.

Lemma fx_inv : pi_inv (fun _ => false) fx_world.
Proof.
  destruct (blank_domains fx_world) as [Hd Hno]; [done|done|apply fx_in_heap|]. split.
  - exact Hd.
  - intros a b. cbn. rewrite !fx_pid. congruence.
  - split; [split; [done|constructor]|]. intros [[|[]|]|[]|]; vm_compute; done.
  - intros t. cbn. by destruct t as [[|[]|]|[]|].
  - done.
Qed.

Definition present_b {A} (o : option A) : bool := match o with Some _ => true | None => false end.

Lemma default_present {A} (d : A) o : present_b o = true -> o = Some (default d o).
Proof. by destruct o. Qed.

Definition fx_run (cs : list cmd) : fmachine fheap pstate :=
  default (fm_init fx_world) (fexecs cs (fm_init fx_world)).

Lemma fx_run_steps cs :
  present_b (fexecs cs (fm_init fx_world)) = true -> exists es, fsteps (fm_init fx_world) es (fx_run cs).
Proof. intros E%(default_present (fm_init fx_world)). by apply (fexecs_fsteps cs). Qed.

(** Task 1 takes the semaphore, task 2 queues up, is handed the semaphore and
    runs, and task 3 queues up. *)
Definition fx_contended : list cmd :=
  [Create 1; Do 1 (Down 1%positive); Do 1 (Down 2%positive); Do 1 (Up 1%positive); Do 1 (Resume 2%positive);
   Do 1 (Down 3%positive)].
(** Task 2 finds the semaphore free, and task 3 queues up. *)
Definition fx_uncontended : list cmd := [Create 1; Do 1 (Down 2%positive); Do 1 (Down 3%positive)].

Lemma fx_contended_steps : exists es, fsteps (fm_init fx_world) es (fx_run fx_contended).
Proof. apply fx_run_steps. by vm_compute. Qed.

Lemma fx_uncontended_steps : exists es, fsteps (fm_init fx_world) es (fx_run fx_uncontended).
Proof. apply fx_run_steps. by vm_compute. Qed.

Lemma fmlp_refines_witness :
  exists es L, locks_run es all_free = Some L /\
    forall p sem, psems (fs (fx_run fx_contended)) !! p = Some sem -> represents sem (L p).
Proof.
  destruct fx_contended_steps as [es S]. exists es. exact (fmlp_refines fx_world es (fx_run fx_contended) fx_inv S).
Defined.

Lemma fmlp_mutual_exclusion_witness :
  phase (fx_run fx_contended) 2%positive = Owner 1 /\ phase (fx_run fx_contended) 3%positive = Waiting 1 /\
  granted (fx_run fx_contended) 1%positive `prefix_of` requested (fx_run fx_contended) 1%positive.
Proof.
  split; [by vm_compute|]. split; [by vm_compute|]. destruct fx_contended_steps as [es S].
  exact (proj1 (proj2 (fmlp_mutual_exclusion fx_world es (fx_run fx_contended) fx_inv S)) 1%positive).
Defined.


(** Tasks 1, 2 and 3 wait: task 3 is the best of CPU 0. *)
Definition fx_sem : pi_semaphore :=
  mk_psem (-3) 0 (WPair <$> [1; 2; 3]%positive) None (fun _ => None) None.
Definition fx_waiting : fmlp fheap pstate := mk_fmlp {[1%positive := fx_sem]} [] fx_world.

Lemma edf_set_hp_cpu_task_witness :
  exists hp s', best_of fx_tasks [2; 3]%positive hp /\ edf_set_hp_cpu_task 1 0 fx_waiting = Some (found hp, s').
Proof.
  destruct (edf_set_hp_cpu_task_best 1 0 fx_sem [1; 2; 3]%positive fx_waiting) as (hp & B & R).
  - done.
  - done.
  - intros a b. cbn. rewrite !fx_pid. congruence.
  - repeat constructor; by vm_compute.
  - eexists hp, _. split; [exact B|exact R].
Defined.

