(* ===== verification/Fdso.v ===== *)
(** * Shared objects attached to files (litmus/fdso.c)

    User space names a semaphore by an inode, a type and an id.  The objects of
    an inode are created on demand and are reference counted; a task reaches
    them through its table of object descriptors.  The types of objects are the
    instances of [FdsoOps]; FdsoSem.v has FMLP and SRP semaphores.

    The invariant [fdso_inv]: the count of an object is the number of used
    descriptors that refer to it, an inode is pinned once for every object it
    has, and no descriptor refers to a destroyed object.  It is maintained as
    long as memory does not run out and references are dropped one at a time;
    the error theorems show what happens otherwise. *)
From S2P Require Import Prelude Task Kernel.
Open Scope Z_scope.

Definition MAX_OBJECT_DESCRIPTORS : nat := 32.

(** [obj_type_t] *)
Definition MIN_OBJ_TYPE : Z := 0.
Definition FMLP_SEM : Z := 0.
Definition SRP_SEM : Z := 1.
Definition MAX_OBJ_TYPE : Z := 1.

Record inode_obj_id : Type := mk_obj {
  ocount : Z;
  oinode : positive;
  otype : Z;
  oobj : positive;   (* the object itself *)
  oid : Z
}.

Definition set_ocount (v : Z) (x : inode_obj_id) : inode_obj_id := mk_obj v (oinode x) (otype x) (oobj x) (oid x).

Record od_table_entry : Type := mk_entry { used : bool; eobj : option positive }.

(** [fdso_ops]; no type of object has a [close] operation.  The argument of
    [create] is the result of [kmalloc], the first argument of [open] the
    current task. *)
Class FdsoOps (C : Type) : Type := {
  fdso_ops_create : Z -> option positive -> M C (option positive);
  fdso_ops_open : tid -> Z -> positive -> M C Z;
  fdso_ops_destroy : Z -> positive -> M C unit
}.

(** [i_count] of an inode is its reference count, [i_obj_list] lists its
    objects.  [cls] is the state of the objects themselves. *)
Record fdso (C : Type) : Type := mk_fdso {
  objs : gmap positive inode_obj_id;
  i_obj_list : positive -> list positive;
  i_count : positive -> Z;
  od_tables : gmap tid (list od_table_entry);
  cls : C
}.
Arguments mk_fdso {C}.
Arguments objs {C}.
Arguments i_obj_list {C}.
Arguments i_count {C}.
Arguments od_tables {C}.
Arguments cls {C}.

Definition set_objs {C} (v : gmap positive inode_obj_id) (s : fdso C) : fdso C :=
  mk_fdso v (i_obj_list s) (i_count s) (od_tables s) (cls s).
Definition set_i_obj_list {C} (v : positive -> list positive) (s : fdso C) : fdso C :=
  mk_fdso (objs s) v (i_count s) (od_tables s) (cls s).
Definition set_i_count {C} (v : positive -> Z) (s : fdso C) : fdso C :=
  mk_fdso (objs s) (i_obj_list s) v (od_tables s) (cls s).
Definition set_od_tables {C} (v : gmap tid (list od_table_entry)) (s : fdso C) : fdso C :=
  mk_fdso (objs s) (i_obj_list s) (i_count s) v (cls s).
Definition set_cls {C} (v : C) (s : fdso C) : fdso C :=
  mk_fdso (objs s) (i_obj_list s) (i_count s) (od_tables s) v.

Section Ops.
Context {C : Type} `{FdsoOps C}.
Abbreviation fdso := (fdso C).
Abbreviation F := (M fdso).

Definition in_cls {A} (c : M C A) : F A := fun s =>
  match c (cls s) with Some (a, v) => Some (a, set_cls v s) | None => None end.

(** Access to an object; memory that was freed faults. *)
Definition get_obj (o : positive) : F inode_obj_id := x ← gets (fun s => objs s !! o); of_option x.
Definition put_obj (o : positive) (x : inode_obj_id) : F unit :=
  modify (fun s => set_objs (<[o := x]> (objs s)) s).

Definition fdso_create (type : Z) (mem : option positive) : F (option positive) := in_cls (fdso_ops_create type mem).
Definition fdso_destroy (type : Z) (obj : positive) : F unit := in_cls (fdso_ops_destroy type obj).

(** The entry [i] of the table of [t]. *)
Definition get_entry (t : tid) (i : nat) : F od_table_entry :=
  e ← gets (fun s => l ← od_tables s !! t; l !! i); of_option e.
Definition put_entry (t : tid) (i : nat) (e : od_table_entry) : F unit :=
  modify (fun s => set_od_tables (alter (fun l => <[i := e]> l) t (od_tables s)) s).

Definition fdso_open (t : tid) (i : nat) : F Z :=
  e ← get_entry t i;
  o ← of_option (eobj e);
  x ← get_obj o;
  in_cls (fdso_ops_open t (otype x) (oobj x)).

Definition fdso_close (t : tid) (i : nat) : F Z :=
  e ← get_entry t i;
  o ← of_option (eobj e);
  _ ← get_obj o;
  mret 0.

(** [raw] and [mem] are the results of the two allocations. *)
Definition alloc_inode_obj (inode : positive) (type id : Z) (raw mem : option positive) : F (option positive) :=
  raw_obj ← fdso_create type raw;
  match raw_obj, mem with
  | None, _ => mret None
  | Some _, None => mret None
  | Some raw_obj, Some o =>
      put_obj o (mk_obj 1 inode type raw_obj id);;
      modify (fun s => set_i_obj_list (upd (i_obj_list s) inode (o :: i_obj_list s inode)) s);;
      modify (fun s => set_i_count (upd (i_count s) inode (i_count s inode + 1)) s);;
      mret (Some o)
  end.

(** The first object of the list with that id and type. *)
Fixpoint find_obj (l : list positive) (type id : Z) : F (option positive) :=
  match l with
  | [] => mret None
  | o :: l =>
      x ← get_obj o;
      if (oid x =? id) && (otype x =? type) then mret (Some o) else find_obj l type id
  end.

Definition get_inode_obj (inode : positive) (type id : Z) : F (option positive) :=
  l ← gets (fun s => i_obj_list s inode);
  r ← find_obj l type id;
  match r with
  | Some o => x ← get_obj o; put_obj o (set_ocount (ocount x + 1) x);; mret (Some o)
  | None => mret None
  end.

(** [put_inode_obj] up to the lock of the inode: whether the count fell to 0 ... *)
Definition put_inode_obj_dec (o : positive) : F bool :=
  x ← get_obj o;
  put_obj o (set_ocount (ocount x - 1) x);;
  mret (ocount x - 1 =? 0).

(** ... and under the lock, when it did. *)
Definition put_inode_obj_locked (inode o : positive) : F unit :=
  x ← get_obj o;
  when (ocount x =? 0) (
    modify (fun s => set_i_obj_list (upd (i_obj_list s) inode (filter (fun y => y <> o) (i_obj_list s inode))) s);;
    fdso_destroy (otype x) (oobj x);;
    modify (fun s => set_objs (delete o (objs s)) s);;
    (* iput(inode) *)
    modify (fun s => set_i_count (upd (i_count s) inode (i_count s inode - 1)) s)).

Definition put_inode_obj (o : positive) : F unit :=
  x ← get_obj o;
  last ← put_inode_obj_dec o;
  when last (put_inode_obj_locked (oinode x) o).

(** [mem] tells whether [kzalloc] succeeds.  The entry keeps the object it
    pointed to before. *)
Definition get_od_entry (t : tid) (mem : bool) : F (option nat) :=
  table ← gets (fun s => od_tables s !! t);
  when (mem && bool_decide (table = None))
    (modify (fun s => set_od_tables (<[t := replicate MAX_OBJECT_DESCRIPTORS (mk_entry false None)]> (od_tables s)) s));;
  table ← gets (fun s => od_tables s !! t);
  match l ← table; list_find (fun e => used e = false) l with
  | Some (i, e) => put_entry t i (mk_entry true (eobj e));; mret (Some i)
  | None => mret None
  end.

Definition put_od_entry (t : tid) (i : nat) : F Z :=
  e ← get_entry t i;
  o ← of_option (eobj e);
  put_inode_obj o;;
  put_entry t i (mk_entry false (eobj e));;
  mret 0.

Fixpoint exit_loop (t : tid) (n i : nat) : F unit :=
  match n with
  | O => mret tt
  | S n =>
      e ← get_entry t i;
      (if used e then _ ← put_od_entry t i; mret tt else mret tt);;
      exit_loop t n (S i)
  end.

Definition exit_od_table (t : tid) : F unit :=
  table ← gets (fun s => od_tables s !! t);
  match table with
  | Some _ =>
      exit_loop t MAX_OBJECT_DESCRIPTORS 0;;
      modify (fun s => set_od_tables (delete t (od_tables s)) s)
  | None => mret tt
  end.

(** The memory an open call gets. *)
Record alloc : Type := mk_alloc { al_table : bool; al_raw : option positive; al_obj : option positive }.

Definition do_sys_od_open (current : tid) (inode : positive) (type id : Z) (a : alloc) : F Z :=
  entry ← get_od_entry current (al_table a);
  match entry with
  | None => mret (- ENOMEM)
  | Some i =>
      obj ← get_inode_obj inode type id;
      obj ← match obj with
            | Some o => mret (Some o)
            | None => alloc_inode_obj inode type id (al_raw a) (al_obj a)
            end;
      idx ← match obj with
            | None => e ← get_entry current i; put_entry current i (mk_entry false (eobj e));; mret (- ENOMEM)
            | Some o => put_entry current i (mk_entry true (Some o));; mret (Z.of_nat i)
            end;
      err ← fdso_open current i;
      if err <? 0 then _ ← put_od_entry current i; mret err
      else mret idx
  end.

(** [file] is the inode of the file that [fget] returns. *)
Definition sys_od_open (current : tid) (file : option positive) (type obj_id : Z) (a : alloc) : F Z :=
  if (type <? MIN_OBJ_TYPE) || (MAX_OBJ_TYPE <? type) then mret (- EINVAL)
  else match file with
       | None => mret (- EBADF)
       | Some inode => do_sys_od_open current inode type obj_id a
       end.

Definition __od_lookup (current : tid) (od : Z) : F (option nat) :=
  table ← gets (fun s => od_tables s !! current);
  match table with
  | None => mret None
  | Some _ =>
      if (od <? 0) || (Z.of_nat MAX_OBJECT_DESCRIPTORS <=? od) then mret None
      else
        e ← get_entry current (Z.to_nat od);
        mret (if used e then Some (Z.to_nat od) else None)
  end.

(** [lookup_fmlp_sem] and [lookup_srp_sem] are [od_lookup] at their types. *)
Definition od_lookup (current : tid) (od type : Z) : F (option positive) :=
  e ← __od_lookup current od;
  match e with
  | None => mret None
  | Some i =>
      e ← get_entry current i;
      o ← of_option (eobj e);
      x ← get_obj o;
      mret (if otype x =? type then Some (oobj x) else None)
  end.

Definition sys_od_close (current : tid) (od : Z) : F Z :=
  if (od <? 0) || (Z.of_nat MAX_OBJECT_DESCRIPTORS <=? od) then mret (- EINVAL)
  else
    table ← gets (fun s => od_tables s !! current);
    match table with
    | None => mret (- EINVAL)
    | Some _ =>
        e ← get_entry current (Z.to_nat od);
        if negb (used e) then mret (- EINVAL)
        else
          (* give the class a chance to reject the close *)
          ret ← fdso_close current (Z.to_nat od);
          if ret =? 0 then put_od_entry current (Z.to_nat od) else mret ret
    end.

End Ops.

(** ** What the types of objects promise *)
Definition obj_type (ty : Z) : Prop := MIN_OBJ_TYPE <= ty <= MAX_OBJ_TYPE.

(** [live c ty q]: an object of the type exists at the address. *)
Class FdsoLaws (C : Type) `{FdsoOps C} : Type := {
  live : C -> Z -> positive -> Prop;
  create_law c ty r : obj_type ty -> (forall ty', ~ live c ty' r) ->
    wp (fdso_ops_create ty (Some r)) (fun res c' =>
      res = Some r /\ forall ty' q, live c' ty' q <-> live c ty' q \/ (ty' = ty /\ q = r)) c;
  create_none_law c ty : obj_type ty ->
    wp (fdso_ops_create ty None) (fun res c' => res = None /\ forall ty' q, live c' ty' q <-> live c ty' q) c;
  open_law t c ty r : live c ty r ->
    wp (fdso_ops_open t ty r) (fun _ c' => forall ty' q, live c' ty' q <-> live c ty' q) c;
  destroy_law c ty r : live c ty r ->
    wp (fdso_ops_destroy ty r) (fun _ c' => forall ty' q, live c' ty' q <-> live c ty' q /\ ~ (ty' = ty /\ q = r)) c
}.

(** ** Counting references *)
Section Refs.
Implicit Types (e : od_table_entry) (l : list od_table_entry) (m : gmap tid (list od_table_entry)) (o : positive).

Definition entry_refs o e : nat := if used e && bool_decide (eobj e = Some o) then 1 else 0.
Definition table_refs o l : nat := sum_list_with (entry_refs o) l.
Definition refs o m : nat := map_fold (fun _ l n => (table_refs o l + n)%nat) 0%nat m.

Lemma entry_refs_unused o x : entry_refs o (mk_entry false x) = 0%nat.
Proof. done. Qed.
Lemma entry_refs_used o e o' : used e = true -> eobj e = Some o' -> entry_refs o e = if decide (o = o') then 1%nat else 0%nat.
Proof.
  intros Hu Eo. unfold entry_refs. rewrite Hu, Eo. case_decide; [by rewrite bool_decide_eq_true_2 by congruence|].
  by rewrite bool_decide_eq_false_2 by congruence.
Qed.

Lemma table_refs_cons o e l : table_refs o (e :: l) = (entry_refs o e + table_refs o l)%nat.
Proof. done. Qed.

Lemma refs_insert o m t l : m !! t = None -> refs o (<[t := l]> m) = (table_refs o l + refs o m)%nat.
Proof. intros E. unfold refs. rewrite map_fold_insert_L; [done|intros; lia|done]. Qed.

Lemma refs_delete o m t l : m !! t = Some l -> refs o m = (table_refs o l + refs o (delete t m))%nat.
Proof. intros E. rewrite <- (insert_delete_id m t l E) at 1. apply refs_insert. apply lookup_delete_eq. Qed.

Lemma refs_update o m t l l' :
  m !! t = Some l -> (refs o (<[t := l']> m) + table_refs o l = refs o m + table_refs o l')%nat.
Proof.
  intros E. rewrite <- insert_delete_eq, refs_insert by apply lookup_delete_eq. rewrite (refs_delete o m t l E). lia.
Qed.

Lemma table_refs_insert o l i e e' :
  l !! i = Some e -> (table_refs o (<[i := e']> l) + entry_refs o e = table_refs o l + entry_refs o e')%nat.
Proof.
  revert i. induction l as [|x l IH]; intros [|i] E; [done..| |]; simpl in E.
  - injection E as ->. cbn [insert list_insert]. rewrite !table_refs_cons. lia.
  - specialize (IH i E). change (<[S i := e']> (x :: l)) with (x :: <[i := e']> l). rewrite !table_refs_cons. lia.
Qed.

Lemma entry_refs_le o l i e : l !! i = Some e -> (entry_refs o e <= table_refs o l)%nat.
Proof.
  revert i. induction l as [|x l IH]; intros [|i] E; [done..| |]; simpl in E; rewrite table_refs_cons.
  - injection E as ->. lia.
  - specialize (IH i E). lia.
Qed.

(** One entry of one table changes. *)
Lemma refs_entry o m t l i e e' :
  m !! t = Some l -> l !! i = Some e ->
  (refs o (alter (fun l => <[i := e']> l) t m) + entry_refs o e = refs o m + entry_refs o e')%nat.
Proof.
  intros Em El. pose proof (refs_update o m t l (<[i := e']> l) Em). pose proof (table_refs_insert o l i e e' El).
  replace (alter (fun l => <[i := e']> l) t m) with (<[t := <[i := e']> l]> m); [lia|].
  apply map_eq. intros k. destruct (decide (k = t)) as [->|].
  - by rewrite lookup_insert_eq, lookup_alter_eq, Em.
  - by rewrite lookup_insert_ne, lookup_alter_ne.
Qed.

Lemma refs_le o m t l : m !! t = Some l -> (table_refs o l <= refs o m)%nat.
Proof. intros E. rewrite (refs_delete o m t l E). lia. Qed.

(** A used entry is a reference. *)
Lemma refs_used o m t l i e :
  m !! t = Some l -> l !! i = Some e -> used e = true -> eobj e = Some o -> (0 < refs o m)%nat.
Proof.
  intros Em El Eu Eo. pose proof (refs_le o m t l Em). pose proof (entry_refs_le o l i e El) as L.
  unfold entry_refs in L. rewrite Eu, Eo, bool_decide_eq_true_2 in L by done. cbn in L. lia.
Qed.

(** Tables without used entries do not count. *)
Lemma table_refs_unused o l : Forall (fun e => used e = false) l -> table_refs o l = 0%nat.
Proof. induction 1 as [|e l E _ IH]; [done|]. rewrite table_refs_cons, IH. unfold entry_refs. by rewrite E. Qed.

End Refs.

(** ** The invariant *)
Section Invariant.
Context {C : Type} `{FdsoLaws C} (base : positive -> Z).
Abbreviation fdso := (fdso C).
Implicit Types (s : fdso) (o i : positive) (R : positive -> nat) (t : tid).

(** The objects, when [R] references to each of them exist. *)
Record obj_inv R s : Prop := {
  ob_some o x : objs s !! o = Some x ->
    ocount x = Z.of_nat (R o) /\ (0 < R o)%nat /\ o ∈ i_obj_list s (oinode x) /\ live (cls s) (otype x) (oobj x);
  ob_none o : objs s !! o = None -> R o = 0%nat;
  ob_list i o : o ∈ i_obj_list s i -> exists x, objs s !! o = Some x /\ oinode x = i;
  ob_nodup i : NoDup (i_obj_list s i);
  (* an object is found by inode, type and id, and has an address of its own *)
  ob_key o o' x x' : objs s !! o = Some x -> objs s !! o' = Some x' ->
    oinode x = oinode x' -> otype x = otype x' -> oid x = oid x' -> o = o';
  ob_raw o o' x x' : objs s !! o = Some x -> objs s !! o' = Some x' -> oobj x = oobj x' -> o = o';
  (* [base] are the references to the inode that have nothing to do with objects *)
  ob_pin i : i_count s i = base i + Z.of_nat (length (i_obj_list s i))
}.

Record tables_ok s : Prop := {
  tb_len t l : od_tables s !! t = Some l -> length l = MAX_OBJECT_DESCRIPTORS;
  tb_obj t l n e : od_tables s !! t = Some l -> l !! n = Some e -> used e = true -> is_Some (eobj e)
}.

Definition fdso_inv s : Prop := obj_inv (fun o => refs o (od_tables s)) s /\ tables_ok s.

Lemma obj_inv_ext R R' s : (forall o, R' o = R o) -> obj_inv R s -> obj_inv R' s.
Proof.
  intros E []. split; try done.
  - intros o x Hx. rewrite E. by apply ob_some0.
  - intros o Ho. rewrite E. by apply ob_none0.
Qed.

(** The objects do not depend on the tables. *)
Lemma obj_inv_tables R s m : obj_inv R s -> obj_inv R (set_od_tables m s).
Proof. intros []. by split. Qed.

(** One more and one less reference to [o]. *)
Definition plus R o : positive -> nat := upd R o (S (R o)).
Definition minus R o : positive -> nat := upd R o (pred (R o)).

Lemma wp_in_cls {A} (c : M C A) (Φ : A -> fdso -> Prop) s :
  wp (in_cls c) Φ s <-> wp c (fun a v => Φ a (set_cls v s)) (cls s).
Proof. unfold wp, in_cls. by destruct (c (cls s)) as [[? ?]|]. Qed.

Lemma wp_get_obj o x (Φ : inode_obj_id -> fdso -> Prop) s : objs s !! o = Some x -> Φ x s -> wp (get_obj o) Φ s.
Proof. intros E HΦ. unfold get_obj. wp_steps. by eauto. Qed.

(** *** Objects *)
Lemma find_obj_spec l ty id s :
  (forall o, o ∈ l -> is_Some (objs s !! o)) ->
  wp (find_obj l ty id) (fun r s' => s' = s /\
    match r with
    | Some o => o ∈ l /\ exists x, objs s !! o = Some x /\ oid x = id /\ otype x = ty
    | None => forall o x, o ∈ l -> objs s !! o = Some x -> ~ (oid x = id /\ otype x = ty)
    end) s.
Proof.
  induction l as [|o l IH]; intros Hl; cbn [find_obj]; wp_steps; [by split; [|intros o x ?%elem_of_nil]|].
  destruct (Hl o) as [x Ex]; [by left|]. eapply wp_get_obj; [exact Ex|].
  destruct ((oid x =? id) && (otype x =? ty)) eqn:E.
  - apply andb_true_iff in E as [?%Z.eqb_eq ?%Z.eqb_eq]. wp_steps. split; [done|]. split; [by left|by exists x].
  - eapply wp_mono; [apply IH; intros o' Ho'; apply Hl; by right|]. intros [o'|] s' [-> Hr]; (split; [done|]).
    + destruct Hr as [Ho' Hx]. split; [by right|done].
    + intros o' x' [->|Ho']%elem_of_cons Ex'; [|by eapply Hr]. rewrite Ex in Ex'. injection Ex' as <-.
      intros [E1 E2]. by rewrite E1, E2, !Z.eqb_refl in E.
Qed.

(** What the name of an object says. *)
Definition named (inode : positive) (ty id : Z) (x : inode_obj_id) : Prop :=
  oinode x = inode /\ otype x = ty /\ oid x = id.

Lemma obj_inv_count R s o x n :
  obj_inv R s -> objs s !! o = Some x -> (0 < n)%nat ->
  obj_inv (upd R o n) (set_objs (<[o := set_ocount (Z.of_nat n) x]> (objs s)) s).
Proof.
  intros [] Ex Hn.
  assert (forall o' x', <[o := set_ocount (Z.of_nat n) x]> (objs s) !! o' = Some x' ->
    exists y, objs s !! o' = Some y /\ oinode y = oinode x' /\ otype y = otype x' /\ oobj y = oobj x' /\ oid y = oid x') as Hold.
  { intros o' x'. destruct (decide (o' = o)) as [->|]; [rewrite lookup_insert_eq|rewrite lookup_insert_ne by done].
    - intros [= <-]. exists x. by split_and!.
    - intros E. exists x'. by split_and!. }
  split; cbn; try done.
  - intros o' x' E'. destruct (Hold o' x' E') as (y & Ey & Ei & Et & Eo & _). rewrite <- Ei, <- Et, <- Eo.
    destruct (ob_some0 o' y Ey) as (Hc & Hp & Hl & Hv). unfold upd. case_decide as Ho; [subst o'|].
    + rewrite lookup_insert_eq in E'. injection E' as <-. by split_and!.
    + rewrite lookup_insert_ne in E' by done. rewrite E' in Ey. injection Ey as <-. by split_and!.
  - intros o' E'. apply lookup_insert_None in E' as [E' Ho]. rewrite upd_ne by done. auto.
  - intros i o' Ho'. destruct (ob_list0 i o' Ho') as (y & Ey & Ei). destruct (decide (o' = o)) as [->|].
    + rewrite lookup_insert_eq. eexists. split; [done|]. cbn. congruence.
    + rewrite lookup_insert_ne by done. by exists y.
  - intros o1 o2 x1 x2 (y1 & E1 & ? & ? & ? & ?)%Hold (y2 & E2 & ? & ? & ? & ?)%Hold ? ? ?. eapply ob_key0; eauto; congruence.
  - intros o1 o2 x1 x2 (y1 & E1 & ? & ? & ? & ?)%Hold (y2 & E2 & ? & ? & ? & ?)%Hold ?. eapply ob_raw0; eauto; congruence.
Qed.

Lemma get_inode_obj_spec R inode ty id s :
  obj_inv R s ->
  wp (get_inode_obj inode ty id) (fun r s' =>
    match r with
    | Some o => exists x, objs s !! o = Some x /\ named inode ty id x /\ obj_inv (plus R o) s' /\
        s' = set_objs (<[o := set_ocount (ocount x + 1) x]> (objs s)) s
    | None => s' = s /\ forall o x, objs s !! o = Some x -> ~ named inode ty id x
    end) s.
Proof.
  intros I. unfold get_inode_obj. wp_steps. eapply wp_mono; [apply find_obj_spec|].
  { intros o (x & Ex & _)%(ob_list _ _ I). by rewrite Ex. }
  intros [o|] s' [-> Hr].
  - destruct Hr as [Ho (x & Ex & Ei & Et)]. wp_steps. eapply wp_get_obj; [exact Ex|]. unfold put_obj. wp_steps.
    exists x. split; [done|]. destruct (ob_list _ _ I inode o Ho) as (x' & Ex' & En). rewrite Ex in Ex'. injection Ex' as <-.
    split; [by split_and!|]. split; [|done]. destruct (ob_some _ _ I o x Ex) as (Hc & _).
    replace (ocount x + 1) with (Z.of_nat (S (R o))) by lia. apply obj_inv_count; [done|done|lia].
  - wp_steps. split; [done|]. intros o x Ex (Ei & Et & En). apply (Hr o x); [|done|done].
    rewrite <- Ei. apply (ob_some _ _ I o x Ex).
Qed.

(** A new object. *)
Definition added (o inode : positive) (x : inode_obj_id) (c : C) s : fdso :=
  mk_fdso (<[o := x]> (objs s)) (upd (i_obj_list s) inode (o :: i_obj_list s inode))
    (upd (i_count s) inode (i_count s inode + 1)) (od_tables s) c.

Lemma fresh_unlisted R s o i : obj_inv R s -> objs s !! o = None -> o ∉ i_obj_list s i.
Proof. intros I Eo (x & Ex & _)%(ob_list _ _ I). congruence. Qed.

Lemma added_inv R s o inode ty id r c :
  obj_inv R s -> objs s !! o = None -> (forall ty', ~ live (cls s) ty' r) ->
  (forall o' x', objs s !! o' = Some x' -> ~ named inode ty id x') ->
  (forall ty' q, live c ty' q <-> live (cls s) ty' q \/ (ty' = ty /\ q = r)) ->
  obj_inv (plus R o) (added o inode (mk_obj 1 inode ty r id) c s).
Proof.
  intros I Eo Hr Hn Hc. set (x := mk_obj 1 inode ty r id).
  assert (forall o' x', <[o := x]> (objs s) !! o' = Some x' -> (o' = o /\ x' = x) \/ (o' <> o /\ objs s !! o' = Some x')) as Hcase.
  { intros o' x'. destruct (decide (o' = o)) as [->|]; [rewrite lookup_insert_eq|rewrite lookup_insert_ne by done; auto].
    intros [= <-]. by left. }
  split; cbn.
  - intros o' x' [[-> ->]|[Hne E']]%Hcase; unfold plus.
    + rewrite upd_eq, (ob_none _ _ I o Eo). cbn. rewrite upd_eq. split_and!; [done|lia|by left|]. apply Hc. by right.
    + rewrite upd_ne by done. destruct (ob_some _ _ I o' x' E') as (? & ? & Hl & ?). split_and!; [done|done| |apply Hc; by left].
      unfold upd. case_decide as Ei; [|done]. right. by rewrite <- Ei.
  - intros o' [E' Hne]%lookup_insert_None. unfold plus. rewrite upd_ne by done. by apply (ob_none _ _ I).
  - intros i o'. unfold upd. case_decide as Ei; [subst i|].
    + intros [->|Ho']%elem_of_cons; [exists x; by rewrite lookup_insert_eq|].
      destruct (ob_list _ _ I inode o' Ho') as (y & Ey & En). exists y. rewrite lookup_insert_ne; [done|congruence].
    + intros Ho'. destruct (ob_list _ _ I i o' Ho') as (y & Ey & En). exists y. rewrite lookup_insert_ne; [done|congruence].
  - intros i. unfold upd. case_decide; [subst|apply (ob_nodup _ _ I)].
    constructor; [by eapply fresh_unlisted|apply (ob_nodup _ _ I)].
  - intros o1 o2 x1 x2 [[-> ->]|[N1 E1]]%Hcase [[-> ->]|[N2 E2]]%Hcase; cbn; intros Ei Et Ed; [done|..].
    + destruct (Hn o2 x2 E2). by split_and!.
    + destruct (Hn o1 x1 E1). by split_and!.
    + by eapply (ob_key _ _ I).
  - intros o1 o2 x1 x2 [[-> ->]|[N1 E1]]%Hcase [[-> ->]|[N2 E2]]%Hcase; cbn; intros Er; [done|..].
    + destruct (Hr (otype x2)). rewrite Er. apply (ob_some _ _ I o2 x2 E2).
    + destruct (Hr (otype x1)). rewrite <- Er. apply (ob_some _ _ I o1 x1 E1).
    + by eapply (ob_raw _ _ I).
  - intros i. rewrite (ob_pin _ _ I inode). unfold upd. case_decide; [subst; cbn; lia|apply (ob_pin _ _ I)].
Qed.

Lemma alloc_inode_obj_spec R inode ty id r o s :
  obj_inv R s -> obj_type ty -> objs s !! o = None -> (forall ty', ~ live (cls s) ty' r) ->
  (forall o' x', objs s !! o' = Some x' -> ~ named inode ty id x') ->
  wp (alloc_inode_obj inode ty id (Some r) (Some o)) (fun res s' => res = Some o /\ obj_inv (plus R o) s' /\
    exists c, s' = added o inode (mk_obj 1 inode ty r id) c s) s.
Proof.
  intros I Ht Eo Hr Hn. unfold alloc_inode_obj, fdso_create. wp_steps. rewrite wp_in_cls.
  eapply wp_mono; [by apply create_law|]. intros res c [-> Hc]. cbv beta iota. unfold put_obj. wp_steps.
  split; [done|]. split; [|by exists c]. apply (added_inv R s o inode ty id r c); done.
Qed.

(** The last reference to an object is dropped. *)
Definition dropped (o inode : positive) (c : C) s : fdso :=
  mk_fdso (delete o (objs s)) (upd (i_obj_list s) inode (filter (fun y => y <> o) (i_obj_list s inode)))
    (upd (i_count s) inode (i_count s inode - 1)) (od_tables s) c.

Lemma filter_length_one (l : list positive) o :
  NoDup l -> o ∈ l -> Z.of_nat (length (filter (fun y => y <> o) l)) = Z.of_nat (length l) - 1.
Proof.
  induction 1 as [|a l Ha Hl IH]; [by intros ?%elem_of_nil|]. intros [->|Ho]%elem_of_cons.
  - rewrite filter_cons_False by naive_solver. rewrite filter_id; [cbn; lia|].
    apply Forall_forall. by intros x Hx ->.
  - rewrite filter_cons_True by (intros ->; done). cbn [length]. specialize (IH Ho). lia.
Qed.

Lemma dropped_inv R s o x c :
  obj_inv R s -> objs s !! o = Some x -> R o = 1%nat ->
  (forall ty' q, live c ty' q <-> live (cls s) ty' q /\ ~ (ty' = otype x /\ q = oobj x)) ->
  obj_inv (minus R o) (dropped o (oinode x) c s).
Proof.
  intros I Ex HR Hc. destruct (ob_some _ _ I o x Ex) as (_ & _ & Hlo & _). split; cbn.
  - intros o' x' [Hne E']%lookup_delete_Some. unfold minus. rewrite upd_ne by done.
    destruct (ob_some _ _ I o' x' E') as (? & ? & Hl & Hv). split_and!; [done|done| |].
    + unfold upd. case_decide as Ei; [|done]. rewrite <- Ei. apply list_elem_of_filter. by split.
    + apply Hc. split; [done|]. intros [_ Er]. by apply Hne, (ob_raw _ _ I o o' x x').
  - intros o' E'. unfold minus, upd. case_decide; [by rewrite HR|]. rewrite lookup_delete_ne in E' by done. by apply (ob_none _ _ I).
  - intros i o' Ho'. assert (o' <> o /\ o' ∈ i_obj_list s i) as [Hne Hin].
    { unfold upd in Ho'. case_decide as Ei; [subst i; by apply list_elem_of_filter in Ho'|]. split; [|done].
      intros ->. destruct (ob_list _ _ I i o Ho') as (y & Ey & En). congruence. }
    rewrite lookup_delete_ne by done. by apply (ob_list _ _ I).
  - intros i. unfold upd. case_decide; [apply NoDup_filter|]; apply (ob_nodup _ _ I).
  - intros o1 o2 x1 x2 [_ E1]%lookup_delete_Some [_ E2]%lookup_delete_Some. by apply (ob_key _ _ I).
  - intros o1 o2 x1 x2 [_ E1]%lookup_delete_Some [_ E2]%lookup_delete_Some. by apply (ob_raw _ _ I).
  - intros i. rewrite (ob_pin _ _ I). unfold upd. case_decide; [subst|apply (ob_pin _ _ I)].
    rewrite filter_length_one by (done || apply (ob_nodup _ _ I)). lia.
Qed.

Lemma put_inode_obj_spec R o s :
  obj_inv R s -> (0 < R o)%nat ->
  wp (put_inode_obj o) (fun _ s' => obj_inv (minus R o) s' /\ od_tables s' = od_tables s) s.
Proof.
  intros I HR. destruct (objs s !! o) as [x|] eqn:Ex; [|apply (ob_none _ _ I) in Ex; lia].
  destruct (ob_some _ _ I o x Ex) as (Hc & _ & _ & Hv).
  unfold put_inode_obj, put_inode_obj_dec, put_inode_obj_locked, put_obj. wp_steps.
  eapply wp_get_obj; [exact Ex|]. wp_steps. wp_steps. eapply wp_get_obj; [exact Ex|]. wp_steps. apply wp_when.
  destruct (Z.eqb_spec (ocount x - 1) 0) as [E|E].
  - wp_steps. eapply wp_get_obj; [cbn; by rewrite lookup_insert_eq|]. apply wp_when. cbn [ocount set_ocount].
    rewrite E. change (0 =? 0) with true. cbv iota. wp_steps. unfold fdso_destroy. rewrite wp_in_cls.
    eapply wp_mono; [by apply destroy_law|]. intros ? c Hl. cbv beta in Hl. wp_steps. split; [|done].
    pose proof (dropped_inv R s o x c I Ex ltac:(lia) Hl) as D. unfold dropped in D. cbn. by rewrite delete_insert_eq.
  - split; [|done]. replace (ocount x - 1) with (Z.of_nat (pred (R o))) by lia. apply obj_inv_count; [done|done|lia].
Qed.

(** *** Tables *)
Lemma wp_get_entry t n l e (Φ : od_table_entry -> fdso -> Prop) s :
  od_tables s !! t = Some l -> l !! n = Some e -> Φ e s -> wp (get_entry t n) Φ s.
Proof. intros E1 E2 HΦ. unfold get_entry. wp_steps. rewrite E1. cbn. by eauto. Qed.

(** The tables but for the entry [n] of [t], which is [e]. *)
Definition at_entry t (n : nat) e s : Prop := exists l, od_tables s !! t = Some l /\ l !! n = Some e.

Lemma tables_ok_entry t n e e' s :
  tables_ok s -> at_entry t n e s -> (used e' = true -> is_Some (eobj e')) ->
  tables_ok (set_od_tables (alter (fun l => <[n := e']> l) t (od_tables s)) s) /\
  at_entry t n e' (set_od_tables (alter (fun l => <[n := e']> l) t (od_tables s)) s).
Proof.
  intros [Hlen Hobj] (l & El & Ee) He. pose proof (lookup_lt_Some _ _ _ Ee) as Hn. split; [split; cbn|].
  - intros t' l'. destruct (decide (t' = t)) as [->|]; [rewrite lookup_alter_eq, El; cbn|rewrite lookup_alter_ne by done; apply Hlen].
    intros [= <-]. rewrite length_insert. by eapply Hlen.
  - intros t' l' n' e0. destruct (decide (t' = t)) as [->|]; [rewrite lookup_alter_eq, El; cbn|rewrite lookup_alter_ne by done; apply Hobj].
    intros [= <-]. destruct (decide (n' = n)) as [->|]; [rewrite list_lookup_insert_eq by done; by intros [= <-]|].
    rewrite list_lookup_insert_ne by done. by eapply Hobj.
  - exists (<[n := e']> l). cbn. rewrite lookup_alter_eq, El. split; [done|]. by rewrite list_lookup_insert_eq.
Qed.

(** A used entry refers to an object that exists. *)
Lemma entry_obj t n e s : fdso_inv s -> at_entry t n e s -> used e = true ->
  exists o x, eobj e = Some o /\ objs s !! o = Some x /\ live (cls s) (otype x) (oobj x) /\ (0 < refs o (od_tables s))%nat.
Proof.
  intros [I T] (l & El & Ee) Hu. destruct (tb_obj _ T t l n e El Ee Hu) as [o Eo]. pose proof (refs_used o _ t l n e El Ee Hu Eo) as Hr.
  destruct (objs s !! o) as [x|] eqn:Ex; [|apply (ob_none _ _ I) in Ex; lia]. exists o, x. split_and!; [done|done| |done].
  apply (ob_some _ _ I o x Ex).
Qed.

Lemma put_od_entry_spec t n e s :
  fdso_inv s -> at_entry t n e s -> used e = true ->
  wp (put_od_entry t n) (fun r s' => r = 0 /\ fdso_inv s' /\
    od_tables s' = alter (fun l => <[n := mk_entry false (eobj e)]> l) t (od_tables s)) s.
Proof.
  intros Hi He Hu. destruct (entry_obj t n e s Hi He Hu) as (o & x & Eo & _ & _ & Hr). destruct Hi as [I T].
  destruct He as (l & El & Ee). unfold put_od_entry, put_entry. wp_steps. eapply wp_get_entry; [done..|]. rewrite Eo. wp_steps.
  exists o. split; [done|]. wp_steps. eapply wp_mono; [by eapply put_inode_obj_spec|]. intros ? s1 [I1 E1]. cbv beta in *. wp_steps.
  split; [done|]. rewrite E1. split; [|done].
  destruct (tables_ok_entry t n e (mk_entry false (Some o)) s1) as [T' _].
  { destruct T. split; rewrite E1; done. }
  { exists l. by rewrite E1. }
  { done. }
  split; [|by rewrite E1 in T']. cbn. apply obj_inv_tables. eapply obj_inv_ext; [|exact I1]. intros o'.
  pose proof (refs_entry o' (od_tables s) t l n e (mk_entry false (Some o)) El Ee) as E.
  rewrite entry_refs_unused, (entry_refs_used o' e o Hu Eo) in E. unfold minus, upd.
  destruct (decide (o' = o)) as [->|]; lia.
Qed.

(** *** Dropping references *)
Lemma exit_loop_spec t k n s l :
  fdso_inv s -> od_tables s !! t = Some l -> (k + n = MAX_OBJECT_DESCRIPTORS)%nat ->
  (forall j e, (j < n)%nat -> l !! j = Some e -> used e = false) ->
  wp (exit_loop t k n) (fun _ s' => fdso_inv s' /\ (forall t', t' <> t -> od_tables s' !! t' = od_tables s !! t') /\
    exists l', od_tables s' !! t = Some l' /\ Forall (fun e => used e = false) l') s.
Proof.
  revert n s l. induction k as [|k IH]; intros n s l I El Hn Hl; cbn [exit_loop].
  { wp_steps. split; [done|]. split; [done|]. exists l. split; [done|]. apply Forall_lookup. intros j e Ee.
    eapply Hl; [|exact Ee]. apply lookup_lt_Some in Ee. rewrite (tb_len _ (proj2 I) t l El) in Ee. lia. }
  pose proof (tb_len _ (proj2 I) t l El) as Hlen. destruct (lookup_lt_is_Some_2 l n) as [e Ee]; [lia|].
  wp_steps. eapply wp_get_entry; [done..|]. destruct (used e) eqn:Hu.
  - wp_steps. wp_steps. eapply wp_mono; [eapply put_od_entry_spec; [done|by exists l|done]|].
    intros ? s1 (-> & I1 & E1). wp_steps. eapply wp_mono; [apply (IH (S n) s1 (<[n := mk_entry false (eobj e)]> l)); [done| |lia|]|].
    + by rewrite E1, lookup_alter_eq, El.
    + intros j e' Hj. destruct (decide (j = n)) as [->|]; [rewrite list_lookup_insert_eq by lia; by intros [= <-]|].
      rewrite list_lookup_insert_ne by done. apply Hl. lia.
    + intros ? s2 (I2 & Ho & Hl2). cbv beta. split; [done|]. split; [|done]. intros t' Ht'. by rewrite Ho, E1, lookup_alter_ne by done.
  - wp_steps. eapply wp_mono; [apply (IH (S n) s l); [done|done|lia|]|done].
    intros j e' Hj. destruct (decide (j = n)) as [->|]; [congruence|]. apply Hl. lia.
Qed.

Lemma exit_od_table_spec t s :
  fdso_inv s -> wp (exit_od_table t) (fun _ s' => fdso_inv s' /\ od_tables s' !! t = None) s.
Proof.
  intros I. unfold exit_od_table. wp_steps. destruct (od_tables s !! t) as [l|] eqn:El; [|done]. wp_steps.
  eapply wp_mono; [apply (exit_loop_spec t _ 0 s l); [done|done|lia|lia]|]. intros ? s1 ([I1 T1] & _ & l' & El' & Hl').
  cbv beta. wp_steps. cbn. split; [|apply lookup_delete_eq]. split.
  - apply obj_inv_tables. eapply obj_inv_ext; [|exact I1]. intros o. cbn.
    by rewrite (refs_delete o _ t l' El'), (table_refs_unused o l' Hl').
  - destruct T1. split; cbn; intros t' l0; [|intros n e]; intros [_ E]%lookup_delete_Some; [by eapply tb_len0|by eapply tb_obj0].
Qed.

Lemma sys_od_close_spec t od s :
  fdso_inv s ->
  wp (sys_od_close t od) (fun r s' => fdso_inv s' /\
    ((r = - EINVAL /\ s' = s) \/ (r = 0 /\ exists e, at_entry t (Z.to_nat od) e s /\ used e = true /\
       at_entry t (Z.to_nat od) (mk_entry false (eobj e)) s'))) s.
Proof.
  intros I. unfold sys_od_close. destruct (Z.ltb_spec od 0); cbn [orb]; [wp_steps; by auto|].
  destruct (Z.leb_spec (Z.of_nat MAX_OBJECT_DESCRIPTORS) od); [wp_steps; by auto|]. wp_steps.
  destruct (od_tables s !! t) as [l|] eqn:El; [|wp_steps; by auto].
  pose proof (tb_len _ (proj2 I) t l El) as Hlen. destruct (lookup_lt_is_Some_2 l (Z.to_nat od)) as [e Ee]; [lia|].
  wp_steps. eapply wp_get_entry; [done..|]. destruct (used e) eqn:Hu; cbn [negb]; [|wp_steps; by auto].
  assert (at_entry t (Z.to_nat od) e s) as He by (by exists l).
  destruct (entry_obj t _ e s I He Hu) as (o & x & Eo & Ex & _). unfold fdso_close. wp_steps. wp_steps.
  eapply wp_get_entry; [done..|]. rewrite Eo. wp_steps. exists o. split; [done|]. wp_steps. eapply wp_get_obj; [done|]. wp_steps.
  change (0 =? 0) with true. cbv iota. eapply wp_mono; [by eapply put_od_entry_spec|].
  intros r s' (-> & I' & E'). split; [done|]. right. split; [done|]. exists e. split_and!; [done|done|].
  exists (<[Z.to_nat od := mk_entry false (eobj e)]> l). rewrite E', lookup_alter_eq, El. split; [done|].
  rewrite list_lookup_insert_eq; [done|lia].
Qed.

(** *** Opening *)

(** The descriptor [n] of [t] is set to [e'], all others stay. *)
Definition set_entry t (n : nat) e' s : fdso := set_od_tables (alter (fun l => <[n := e']> l) t (od_tables s)) s.

(** The same state, but for a table that is still blank. *)
Definition blank_added t s s0 : Prop :=
  s0 = s \/ (od_tables s !! t = None /\
    s0 = set_od_tables (<[t := replicate MAX_OBJECT_DESCRIPTORS (mk_entry false None)]> (od_tables s)) s).

Lemma blank_added_inv t s s0 : fdso_inv s -> blank_added t s s0 -> fdso_inv s0.
Proof.
  intros [I T] [->|[Et ->]]; [done|]. split.
  - cbn [od_tables set_od_tables]. apply obj_inv_tables. eapply obj_inv_ext; [|exact I]. intros o. rewrite refs_insert by done.
    by rewrite table_refs_unused by (by apply Forall_replicate).
  - destruct T. split; cbn [od_tables set_od_tables]; intros t' l.
    + intros [[_ <-]|[_ E]]%lookup_insert_Some; [apply length_replicate|by eapply tb_len0].
    + intros n e [[_ <-]|[_ E]]%lookup_insert_Some; [intros [-> _]%lookup_replicate; done|by eapply tb_obj0].
Qed.

Lemma get_od_entry_spec t s :
  fdso_inv s ->
  wp (get_od_entry t true) (fun r s' =>
    match r with
    | None => s' = s
    | Some n => exists s0 e, blank_added t s s0 /\ at_entry t n e s0 /\ used e = false /\
        s' = set_entry t n (mk_entry true (eobj e)) s0
    end) s.
Proof.
  intros I. unfold get_od_entry, put_entry. wp_steps. apply (wp_mono _ (fun _ s0 => blank_added t s s0 /\ is_Some (od_tables s0 !! t))).
  { apply wp_when. destruct (od_tables s !! t) as [l|] eqn:Et; cbn [andb].
    - rewrite bool_decide_eq_false_2 by done. split; [by left|by eexists].
    - rewrite bool_decide_eq_true_2 by done. wp_steps. split; [by right|]. cbn. rewrite lookup_insert_eq. by eexists. }
  intros ? s0 [B [l El]]. wp_steps. rewrite El. cbn. destruct (list_find _ l) as [[n e]|] eqn:Ef.
  - wp_steps. apply list_find_Some in Ef as (Ee & Hu & _). exists s0, e. split_and!; [done|by exists l|done|done].
  - wp_steps. destruct B as [->|[Et ->]]; [done|]. cbn in El. rewrite lookup_insert_eq in El. injection El as <-. done.
Qed.

(** The descriptor is set twice: to the object it kept, and to its new one. *)
Lemma set_entry_twice t n e e' s : set_entry t n e' (set_entry t n e s) = set_entry t n e' s.
Proof.
  unfold set_entry, set_od_tables. cbn. f_equal. apply map_eq. intros k. destruct (decide (k = t)) as [->|].
  - rewrite !lookup_alter_eq. destruct (od_tables s !! t); [|done]. cbn. by rewrite list_insert_insert_eq.
  - by rewrite !lookup_alter_ne.
Qed.

(** The object gets one more reference, and an unused descriptor refers to it. *)
Lemma set_entry_inv t n e o R s :
  obj_inv (plus R o) s -> (forall o', R o' = refs o' (od_tables s)) -> tables_ok s ->
  at_entry t n e s -> used e = false -> fdso_inv (set_entry t n (mk_entry true (Some o)) s).
Proof.
  intros I HR T He Hu. split.
  - apply obj_inv_tables. eapply obj_inv_ext; [|exact I]. intros o'. cbn. destruct He as (l & El & Ee).
    pose proof (refs_entry o' (od_tables s) t l n e (mk_entry true (Some o)) El Ee) as E.
    rewrite (entry_refs_used o' (mk_entry true (Some o)) o) in E by done. unfold plus, upd. rewrite !HR.
    assert (entry_refs o' e = 0%nat) as E0 by (unfold entry_refs; by rewrite Hu).
    destruct (decide (o' = o)) as [->|]; lia.
  - by apply (tables_ok_entry t n e).
Qed.

(** Memory the call gets is not in use. *)
Definition fresh (a : alloc) s : Prop :=
  al_table a = true /\
  (exists r, al_raw a = Some r /\ forall ty, ~ live (cls s) ty r) /\
  (exists o, al_obj a = Some o /\ objs s !! o = None).

(** The object of that name is found or created. *)
Lemma fetch_spec {A} R inode ty id a s (k : option positive -> M fdso A) (Φ : A -> fdso -> Prop) :
  obj_inv R s -> obj_type ty -> fresh a s ->
  (forall o x s', objs s' !! o = Some x -> named inode ty id x -> obj_inv (plus R o) s' -> od_tables s' = od_tables s ->
    (forall o' x', objs s !! o' = Some x' -> named inode ty id x' -> o' = o) -> wp (k (Some o)) Φ s') ->
  wp (get_inode_obj inode ty id) (fun obj => wp
    (match obj with Some o => mret (Some o) | None => alloc_inode_obj inode ty id (al_raw a) (al_obj a) end ≫= k) Φ) s.
Proof.
  intros I Ht (_ & (r & Er & Hr) & (o & Eo & Ho)) HΦ. eapply wp_mono; [by apply get_inode_obj_spec|].
  intros [o'|] s'; rewrite wp_bind.
  - intros (x & Ex & Hx & I' & ->). wp_steps. eapply (HΦ o' (set_ocount (ocount x + 1) x)); [|done|done|done|].
    + cbn. by rewrite lookup_insert_eq.
    + intros o2 x2 E2 (? & ? & ?). destruct Hx as (? & ? & ?). eapply (ob_key _ _ I); eauto; congruence.
  - intros [-> Hn]. rewrite Er, Eo. eapply wp_mono; [by apply (alloc_inode_obj_spec R)|].
    intros ? s' (-> & I' & c & ->). eapply (HΦ o (mk_obj 1 inode ty r id)); [|by split_and!|done|done|].
    + cbn. by rewrite lookup_insert_eq.
    + intros o2 x2 E2 N2. by destruct (Hn o2 x2 E2).
Qed.

Lemma obj_inv_cls R s c :
  obj_inv R s -> (forall ty q, live c ty q <-> live (cls s) ty q) -> obj_inv R (set_cls c s).
Proof.
  intros [] Hc. split; try done. intros o x Ex. destruct (ob_some0 o x Ex) as (? & ? & ? & ?). split_and!; try done. by apply Hc.
Qed.

Lemma fdso_open_spec t n o x s :
  fdso_inv s -> at_entry t n (mk_entry true (Some o)) s -> objs s !! o = Some x ->
  wp (fdso_open t n) (fun _ s' => fdso_inv s' /\ exists c, s' = set_cls c s) s.
Proof.
  intros [I T] (l & El & Ee) Ex. unfold fdso_open. wp_steps. eapply wp_get_entry; [done..|]. wp_steps.
  exists o. split; [done|]. wp_steps. eapply wp_get_obj; [done|]. rewrite wp_in_cls.
  eapply wp_mono; [apply open_law, (ob_some _ _ I o x Ex)|]. intros err c Hc. cbv beta in Hc. split; [|by exists c].
  split; [by apply obj_inv_cls|]. by destruct T.
Qed.

(** Another entry of the table. *)
Lemma set_entry_other t n e' t' n' e s :
  at_entry t' n' e s -> (t', n') <> (t, n) -> at_entry t' n' e (set_entry t n e' s).
Proof.
  intros (l & El & Ee) Hne. unfold at_entry, set_entry. cbn. destruct (decide (t' = t)) as [->|].
  - exists (<[n := e']> l). rewrite lookup_alter_eq, El. split; [done|]. rewrite list_lookup_insert_ne; [done|congruence].
  - exists l. by rewrite lookup_alter_ne.
Qed.

Lemma od_lookup_spec t n o x s :
  tables_ok s -> at_entry t n (mk_entry true (Some o)) s -> objs s !! o = Some x ->
  od_lookup t (Z.of_nat n) (otype x) s = Some (Some (oobj x), s).
Proof.
  intros T (l & El & Ee) Ex. pose proof (lookup_lt_Some _ _ _ Ee) as Hn. rewrite (tb_len _ T t l El) in Hn.
  assert (wp (od_lookup t (Z.of_nat n) (otype x)) (fun r s' => r = Some (oobj x) /\ s' = s) s) as W.
  { unfold od_lookup, __od_lookup. wp_steps. wp_steps. rewrite El.
    destruct (Z.ltb_spec (Z.of_nat n) 0); [lia|]. destruct (Z.leb_spec (Z.of_nat MAX_OBJECT_DESCRIPTORS) (Z.of_nat n)); [lia|].
    cbn [orb]. rewrite Nat2Z.id. wp_steps. eapply wp_get_entry; [done..|]. wp_steps. cbn [used]. cbv iota. wp_steps.
    eapply wp_get_entry; [done..|]. wp_steps. exists o. split; [done|]. wp_steps. eapply wp_get_obj; [done|]. wp_steps.
    by rewrite Z.eqb_refl. }
  apply wp_run in W as (r & s' & E & -> & ->). done.
Qed.

(** The descriptor [n] of [t] was free and now names the object [o]. *)
Record opened t inode ty id (n : nat) (o : positive) (x : inode_obj_id) s s' : Prop := {
  op_free e : at_entry t n e s -> used e = false;
  op_entry : at_entry t n (mk_entry true (Some o)) s';
  op_obj : objs s' !! o = Some x;
  op_named : named inode ty id x;
  (* an object of that name is not created twice *)
  op_same o' x' : objs s !! o' = Some x' -> named inode ty id x' -> o' = o;
  op_other t' n' e : at_entry t' n' e s -> (t', n') <> (t, n) -> at_entry t' n' e s'
}.

Lemma blank_added_entry t s s0 n e t' n' e' :
  blank_added t s s0 -> at_entry t n e s0 -> used e = false ->
  (forall e, at_entry t n e s -> used e = false) /\ (at_entry t' n' e' s -> at_entry t' n' e' s0).
Proof.
  intros [->|[Et ->]] (l & El & Ee) Hu; split.
  - intros e0 (l' & El' & Ee'). congruence.
  - done.
  - intros e0 (l' & El' & _). congruence.
  - intros (l' & El' & Ee'). exists l'. cbn [od_tables set_od_tables]. rewrite lookup_insert_ne by congruence. done.
Qed.

Lemma do_sys_od_open_spec t inode ty id a s :
  fdso_inv s -> obj_type ty -> fresh a s ->
  wp (do_sys_od_open t inode ty id a) (fun r s' => fdso_inv s' /\
    (r < 0 \/ exists n o x, r = Z.of_nat n /\ opened t inode ty id n o x s s')) s.
Proof.
  intros I Ht Ha. unfold do_sys_od_open. pose proof (proj1 Ha) as Em. rewrite Em. wp_steps.
  eapply wp_mono; [by apply get_od_entry_spec|]. intros [n|] s1; [|intros ->; wp_steps; by split; [|left]].
  intros (s0 & e & B & He & Hu & ->). wp_steps. pose proof (blank_added_inv t s s0 I B) as [I0 T0].
  apply (fetch_spec (fun o => refs o (od_tables s0))); [by apply obj_inv_tables|done|by destruct B as [->|[_ ->]]|].
  intros o x s2 Ex Hx I2 E2 Hsame. wp_steps. unfold put_entry. wp_steps. wp_steps.
  set (s3 := set_od_tables _ s2).
  assert (s3 = set_entry t n (mk_entry true (Some o)) (set_od_tables (od_tables s0) s2)) as E3.
  { unfold s3, set_entry, set_od_tables. cbn. rewrite E2. cbn. f_equal.
    pose proof (f_equal od_tables (set_entry_twice t n (mk_entry true (eobj e)) (mk_entry true (Some o)) s0)) as E. exact E. }
  assert (at_entry t n e (set_od_tables (od_tables s0) s2)) as He2 by exact He.
  assert (tables_ok (set_od_tables (od_tables s0) s2)) as T2 by (by destruct T0).
  assert (fdso_inv s3) as I3.
  { rewrite E3. eapply set_entry_inv; [by apply obj_inv_tables|done|done|done|done]. }
  assert (at_entry t n (mk_entry true (Some o)) s3) as He3.
  { rewrite E3. apply (tables_ok_entry t n e); [done|done|by eexists]. }
  eapply wp_mono; [by eapply (fdso_open_spec t n o x)|]. intros err s4 (I4 & c & E4).
  destruct (Z.ltb_spec err 0) as [Hneg|Hpos].
  - wp_steps. eapply wp_mono; [eapply (put_od_entry_spec t n); [done|rewrite E4; exact He3|done]|].
    intros ? s5 (_ & I5 & _). wp_steps. by split; [|left].
  - wp_steps. split; [done|]. right. exists n, o, x. split; [done|]. rewrite E4. split; try done.
    + by eapply (proj1 (blank_added_entry t s s0 n e t n e B He Hu)).
    + intros o' x' Ex'. apply Hsame. by destruct B as [->|[_ ->]].
    + intros t' n' e' He' Hne. change (at_entry t' n' e' s3). rewrite E3. apply set_entry_other; [|done].
      by eapply (proj2 (blank_added_entry t s s0 n e t' n' e' B He Hu)).
Qed.

End Invariant.

(** ** The system calls *)
Inductive fd_call : Type :=
  | COpen (t : tid) (file : option positive) (type id : Z) (a : alloc)
  | CClose (t : tid) (od : Z)
  | CExit (t : tid).

Section Calls.
Context {C : Type} `{FdsoLaws C} (base : positive -> Z).
Abbreviation fdso := (fdso C).
Implicit Types (s : fdso).

Definition fd_exec (c : fd_call) : M fdso Z :=
  match c with
  | COpen t file type id a => sys_od_open t file type id a
  | CClose t od => sys_od_close t od
  | CExit t => exit_od_table t;; mret 0
  end.

(** Open calls get the memory they ask for. *)
Definition fd_pre (c : fd_call) s : Prop := match c with COpen _ _ _ _ a => fresh a s | _ => True end.

Definition fd_init (c : C) : fdso := mk_fdso ∅ (fun _ => []) base ∅ c.

Lemma fd_init_inv c : fdso_inv base (fd_init c).
Proof.
  split; split; cbn; try done.
  - by intros i o ?%elem_of_nil.
  - intros i. constructor.
  - intros i. lia.
Qed.

Lemma sys_od_open_spec t file ty id a s :
  fdso_inv base s -> fresh a s ->
  wp (sys_od_open t file ty id a) (fun r s' => fdso_inv base s' /\
    (r < 0 \/ exists inode n o x, file = Some inode /\ r = Z.of_nat n /\ opened t inode ty id n o x s s')) s.
Proof.
  intros I Ha. unfold sys_od_open. destruct (Z.ltb_spec ty MIN_OBJ_TYPE); [wp_steps; by split; [|left]|].
  destruct (Z.ltb_spec MAX_OBJ_TYPE ty); [wp_steps; by split; [|left]|]. cbn [orb].
  destruct file as [inode|]; [|wp_steps; by split; [|left]].
  eapply wp_mono; [by apply (do_sys_od_open_spec base)|]. intros r s' [I' [Hr|(n & o & x & Er & Ho)]]; (split; [done|]); [by left|].
  right. exists inode, n, o, x. by split_and!.
Qed.


(** C25: A successful open returns a descriptor that was free and through which
    the caller finds a live object of the requested type; if an object of that
    name existed, it is that one.  All other descriptors are as before. *)
Theorem sys_od_open_correct t file ty id a s :
  fdso_inv base s -> fresh a s ->
  wp (sys_od_open t file ty id a) (fun r s' => 0 <= r ->
    exists inode n o x, file = Some inode /\ r = Z.of_nat n /\ opened t inode ty id n o x s s' /\
      od_lookup t r ty s' = Some (Some (oobj x), s') /\ live (cls s') ty (oobj x)) s.
Proof.
  intros I Ha. eapply wp_mono; [by apply sys_od_open_spec|].
  intros r s' ([I' T'] & [Hr|(inode & n & o & x & Ef & -> & Ho)]) Hpos; [lia|].
  exists inode, n, o, x. destruct (op_named _ _ _ _ _ _ _ _ _ Ho) as (_ & Et & _). split_and!; try done.
  - rewrite <- Et. by apply (od_lookup_spec t n o x s'); [done|apply Ho|apply Ho].
  - rewrite <- Et. by apply (ob_some _ _ _ I' o x), Ho.
Qed.

(** [od_lookup] is safe for any number user space passes: it does not fault,
    changes nothing, and what it returns is a live object of the requested
    type. *)
Theorem od_lookup_safe t od ty s :
  fdso_inv base s -> wp (od_lookup t od ty) (fun r s' => s' = s /\ forall p, r = Some p -> live (cls s) ty p) s.
Proof.
  intros I. unfold od_lookup, __od_lookup. wp_steps. wp_steps. destruct (od_tables s !! t) as [l|] eqn:El; [|by wp_steps].
  destruct (Z.ltb_spec od 0); [by wp_steps|]. destruct (Z.leb_spec (Z.of_nat MAX_OBJECT_DESCRIPTORS) od); [by wp_steps|].
  cbn [orb]. pose proof (tb_len _ (proj2 I) t l El) as Hlen. destruct (lookup_lt_is_Some_2 l (Z.to_nat od)) as [e Ee]; [lia|].
  wp_steps. eapply wp_get_entry; [done..|]. destruct (used e) eqn:Hu; wp_steps; [|done].
  assert (at_entry t (Z.to_nat od) e s) as He by (by exists l).
  destruct (entry_obj base t _ e s I He Hu) as (o & x & Eo & Ex & Hv & _).
  eapply wp_get_entry; [done..|]. rewrite Eo. wp_steps. exists o. split; [done|]. wp_steps. eapply wp_get_obj; [done|]. wp_steps.
  split; [done|]. intros p. destruct (Z.eqb_spec (otype x) ty) as [<-|]; [|done]. by intros [= <-].
Qed.

(** A computation that leads to states in which the rest faults. *)
Lemma fault_after {A B} (c : M fdso A) (k : A -> M fdso B) (Φ : A -> fdso -> Prop) s :
  wp c Φ s -> (forall a s', Φ a s' -> k a s' = None) -> (c ≫= k) s = None.
Proof. intros (a & s' & E & HΦ)%wp_run Hk. rewrite (bind_ok _ _ _ _ _ E). by apply Hk. Qed.

(** The first descriptor of a new table. *)
Lemma get_od_entry_first t s :
  od_tables s !! t = None ->
  wp (get_od_entry t true) (fun r s' => r = Some 0%nat /\ at_entry t 0 (mk_entry true None) s' /\
    objs s' = objs s /\ i_obj_list s' = i_obj_list s) s.
Proof.
  intros Et. unfold get_od_entry, put_entry. wp_steps. rewrite Et. change (true && bool_decide _) with true. apply wp_when. wp_steps.
  cbn [od_tables set_od_tables]. rewrite lookup_insert_eq. cbn. wp_steps. split; [done|]. split; [|done].
  eexists. cbn. rewrite lookup_alter_eq, lookup_insert_eq. split; [done|]. done.
Qed.

(** When there is no memory for a new object, [sys_od_open] follows the
    object pointer of the descriptor that it has just given back: in a new
    table that is a NULL pointer. *)
Theorem sys_od_open_no_memory t inode ty id a s :
  fdso_inv base s -> obj_type ty -> od_tables s !! t = None -> al_table a = true -> al_raw a = None ->
  (forall o x, objs s !! o = Some x -> ~ named inode ty id x) ->
  sys_od_open t (Some inode) ty id a s = None.
Proof.
  intros [I T] [Ht1 Ht2] Et Ea Er Hn. unfold sys_od_open, do_sys_od_open.
  rewrite (proj2 (Z.ltb_ge _ _) Ht1), (proj2 (Z.ltb_ge _ _) Ht2), Ea. cbn [orb].
  eapply fault_after; [by apply get_od_entry_first|]. intros ? s1 (-> & (l & El & Ee) & Eo & Eil).
  eapply (fault_after _ _ (fun r s' => r = None /\ s' = s1)).
  { unfold get_inode_obj. wp_steps. rewrite Eil. eapply wp_mono; [apply find_obj_spec|].
    - intros o (x & Ex & _)%(ob_list _ _ _ I). by rewrite Eo, Ex.
    - intros [o|] s' [-> Hr]; [|done]. destruct Hr as (Ho & x & Ex & Ei & Ety). rewrite Eo in Ex.
      destruct (ob_list _ _ _ I inode o Ho) as (x' & Ex' & En). rewrite Ex in Ex'. injection Ex' as <-.
      by destruct (Hn o x Ex). }
  intros ? s' [-> ->]. eapply (fault_after _ _ (fun r s' => r = None /\ od_tables s' = od_tables s1)).
  { unfold alloc_inode_obj, fdso_create. wp_steps. rewrite wp_in_cls, Er. eapply wp_mono; [by apply create_none_law|].
    intros ? c [-> _]. by wp_steps. }
  intros ? s2 [-> E2]. eapply (fault_after _ _ (fun _ s' => at_entry t 0 (mk_entry false None) s')).
  { unfold put_entry. wp_steps. eapply wp_get_entry; [by rewrite E2|done|]. wp_steps. eexists. cbn.
    rewrite lookup_alter_eq, E2, El. split; [done|]. rewrite list_lookup_insert_eq; [done|]. by eapply lookup_lt_Some. }
  intros ? s3 (l3 & El3 & Ee3). apply bind_fault. unfold fdso_open, get_entry.
  eapply (fault_after _ _ (fun e s' => e = mk_entry false None)); [wp_steps; rewrite El3; cbn; by eauto|]. by intros ? ? ->.
Qed.

(** C35: [put_inode_obj] drops the count before it takes the lock of the inode.
    In between another task can find the object, drop its reference in turn and
    destroy the object; the first task then reads freed memory. *)
Theorem put_inode_obj_race R o x s :
  obj_inv base R s -> objs s !! o = Some x -> R o = 1%nat ->
  exists s1 s2 s3,
    put_inode_obj_dec o s = Some (true, s1) /\
    get_inode_obj (oinode x) (otype x) (oid x) s1 = Some (Some o, s2) /\
    put_inode_obj o s2 = Some (tt, s3) /\
    put_inode_obj_locked (oinode x) o s3 = None.
Proof.
  intros I Ex HR. destruct (ob_some _ _ _ I o x Ex) as (Hc & _ & Hl & Hv). rewrite HR in Hc.
  set (s1 := set_objs (<[o := set_ocount 0 x]> (objs s)) s). set (s2 := set_objs (<[o := set_ocount 1 x]> (objs s)) s).
  assert (put_inode_obj_dec o s = Some (true, s1)) as E1.
  { unfold put_inode_obj_dec, get_obj, put_obj, mbind, M_bind, gets. rewrite Ex. cbn. by rewrite Hc. }
  assert (get_inode_obj (oinode x) (otype x) (oid x) s1 = Some (Some o, s2)) as E2.
  { assert (wp (get_inode_obj (oinode x) (otype x) (oid x)) (fun r s' => r = Some o /\ s' = s2) s1) as W;
      [|by apply wp_run in W as (? & ? & E & -> & ->)].
    unfold get_inode_obj, put_obj. wp_steps. eapply wp_mono; [apply find_obj_spec|].
    - intros o' (y & Ey & _)%(ob_list _ _ _ I). cbn. destruct (decide (o' = o)) as [->|]; [by rewrite lookup_insert_eq|].
      by rewrite lookup_insert_ne, Ey.
    - intros r s' [-> Hr]. assert (r = Some o) as ->.
      { destruct r as [o'|]; [|by destruct (Hr o (set_ocount 0 x) Hl); [cbn; by rewrite lookup_insert_eq|]]. f_equal.
        destruct Hr as (Ho' & y & Ey & Ei & Et). cbn in Ey. destruct (decide (o' = o)) as [|Hne]; [done|].
        rewrite lookup_insert_ne in Ey by done. destruct (ob_list _ _ _ I _ o' Ho') as (y' & Ey' & En).
        rewrite Ey in Ey'. injection Ey' as <-. by apply (ob_key _ _ _ I o' o y x). }
      wp_steps. eapply wp_get_obj; [cbn; by rewrite lookup_insert_eq|]. wp_steps. split; [done|]. cbn.
      unfold s2, set_objs. cbn. by rewrite insert_insert_eq. }
  assert (obj_inv base R s2) as I2.
  { eapply obj_inv_ext; [|apply (obj_inv_count base R s o x 1 I Ex); lia]. intros o'. unfold upd. case_decide; by subst. }
  pose proof (put_inode_obj_spec base R o s2 I2 ltac:(lia)) as ([] & s3 & E3 & I3 & _)%wp_run.
  exists s1, s2, s3. split_and!; [done|done|done|]. apply bind_fault. unfold get_obj, mbind, M_bind, gets.
  destruct (objs s3 !! o) as [y|] eqn:Ey; [|done]. apply (ob_some _ _ _ I3) in Ey as (_ & Hm & _).
  unfold minus in Hm. rewrite upd_eq, HR in Hm. cbn in Hm. lia.
Qed.

End Calls.
