(* ===== verification/FdsoSem.v ===== *)
(** * Semaphores as shared objects

    The two types of shared objects of fdso.c, FMLP semaphores (Fmlp.v) and SRP
    semaphores (Srp.v), satisfy the laws of Fdso.v, here under PSN-EDF, which
    supports both.  The theorems of Fdso.v are instantiated on a small system of
    two tasks that share a file. *)

From S2P Require Import Prelude BinForest Task Edf PrioQueue Kernel Partitioned PsnEdf Srp Fdso Fmlp FmlpPsn FmlpExamples.
Open Scope Z_scope.

(** The semaphores of both types. *)
Record semaphores (Q : Type -> Type) : Type := mk_semaphores { fmlps : fmlp Q pstate; srps : srp_state }.
Arguments mk_semaphores {Q}.
Arguments fmlps {Q}.
Arguments srps {Q}.

Section Ops.
Context {Q : Type -> Type} `{PrioQueue Q}.
Abbreviation K := (M (semaphores Q)).

Definition in_fmlp {A} (c : M (fmlp Q pstate) A) : K A := fun s =>
  match c (fmlps s) with Some (a, v) => Some (a, mk_semaphores v (srps s)) | None => None end.
Definition in_srp {A} (c : M srp_state A) : K A := fun s =>
  match c (srps s) with Some (a, v) => Some (a, mk_semaphores (fmlps s) v) | None => None end.

(** [fdso_ops[]]: [fmlp_sem_ops] and [srp_sem_ops] *)
Definition sem_create (type : Z) (mem : option positive) : K (option positive) :=
  if type =? FMLP_SEM then in_fmlp (create_fmlp_semaphore mem) else in_srp (create_srp_semaphore mem).
Definition sem_open (t : tid) (type : Z) (p : positive) : K Z :=
  if type =? FMLP_SEM then mret (open_fmlp_semaphore fmlp_active)
  else
    T ← gets (fun s => tasks (kern (fmlps s)));
    in_srp (open_srp_semaphore T true t p).
Definition sem_destroy (type : Z) (p : positive) : K unit :=
  if type =? FMLP_SEM then in_fmlp (destroy_fmlp_semaphore p) else in_srp (destroy_srp_semaphore p).

#[global] Instance sem_ops : FdsoOps (semaphores Q) := {
  fdso_ops_create := sem_create;
  fdso_ops_open := sem_open;
  fdso_ops_destroy := sem_destroy
}.

End Ops.

Section Laws.
Context {Q : Type -> Type} `{PrioQueue Q}.
Implicit Types (s : semaphores Q) (p q : positive).

Definition sem_live s (ty : Z) q : Prop :=
  (ty = FMLP_SEM /\ is_Some (psems (fmlps s) !! q)) \/ (ty = SRP_SEM /\ is_Some (sems (srps s) !! q)).

Lemma wp_in_fmlp {A} (c : M (fmlp Q pstate) A) (Φ : A -> semaphores Q -> Prop) s :
  wp (in_fmlp c) Φ s <-> wp c (fun a v => Φ a (mk_semaphores v (srps s))) (fmlps s).
Proof. unfold wp, in_fmlp. by destruct (c (fmlps s)) as [[? ?]|]. Qed.

Lemma wp_in_srp {A} (c : M srp_state A) (Φ : A -> semaphores Q -> Prop) s :
  wp (in_srp c) Φ s <-> wp c (fun a v => Φ a (mk_semaphores (fmlps s) v)) (srps s).
Proof. unfold wp, in_srp. by destruct (c (srps s)) as [[? ?]|]. Qed.

Lemma insert_is_Some {A} (m : gmap positive A) p a q : is_Some (<[p := a]> m !! q) <-> is_Some (m !! q) \/ q = p.
Proof.
  destruct (decide (q = p)) as [->|]; [rewrite lookup_insert_eq|rewrite lookup_insert_ne by done]; [|naive_solver].
  split; [by right|by eexists].
Qed.

Lemma delete_is_Some {A} (m : gmap positive A) p q : is_Some (delete p m !! q) <-> is_Some (m !! q) /\ q <> p.
Proof.
  destruct (decide (q = p)) as [->|]; [rewrite lookup_delete_eq|rewrite lookup_delete_ne by done]; [|naive_solver].
  split; [by intros [? ?]|naive_solver].
Qed.

(** Opening an SRP semaphore may change its CPU and its ceiling. *)
Lemma open_srp_domain T t p (st : srp_state) :
  is_Some (sems st !! p) ->
  wp (open_srp_semaphore T true t p) (fun _ st' => forall q, is_Some (sems st' !! q) <-> is_Some (sems st !! q)) st.
Proof.
  intros [x Ex]. unfold open_srp_semaphore, get_sem, put_sem. wp_steps. wp_steps. exists x. split; [done|]. cbn [negb].
  assert (forall q (m : gmap positive srp_semaphore) y, is_Some (m !! p) -> is_Some (<[p := y]> m !! q) <-> is_Some (m !! q)) as Hin.
  { intros q m y Hm. rewrite insert_is_Some. split; [intros [?| ->]|]; auto. }
  wp_steps. apply (wp_mono _ (fun y st1 => is_Some (sems st1 !! p) /\ forall q, is_Some (sems st1 !! q) <-> is_Some (sems st !! q))).
  - destruct (sem_cpu x =? UNDEF_SEM); [|wp_steps; split; [by rewrite Ex|done]]. wp_steps. wp_steps. cbn.
    rewrite lookup_insert_eq. eexists. split; [done|]. split; [by eexists|]. intros q. apply Hin. by rewrite Ex.
  - intros y st1 [Hp Hq]. cbv beta. destruct (negb _); [by wp_steps|]. wp_steps. apply wp_when. destruct (srp_higher_prio _ _).
    + wp_steps. cbn. intros q. rewrite <- Hq. by apply Hin.
    + by wp_steps.
Qed.

Lemma sem_create_ok s ty r :
  obj_type ty ->
  wp (sem_create ty (Some r)) (fun res s' =>
    res = Some r /\ forall ty' q, sem_live s' ty' q <-> sem_live s ty' q \/ (ty' = ty /\ q = r)) s.
Proof.
  intros Ht. unfold obj_type, MIN_OBJ_TYPE, MAX_OBJ_TYPE in Ht. unfold sem_create, sem_live, FMLP_SEM, SRP_SEM.
  destruct (Z.eqb_spec ty 0) as [->|].
  - rewrite wp_in_fmlp. unfold create_fmlp_semaphore, put_psem. wp_steps. split; [done|]. intros ty' q. cbn. rewrite insert_is_Some.
    naive_solver lia.
  - assert (ty = 1) as -> by lia. rewrite wp_in_srp. unfold create_srp_semaphore, put_sem. wp_steps. split; [done|]. intros ty' q. cbn.
    rewrite insert_is_Some. naive_solver lia.
Qed.

Lemma sem_destroy_ok s ty r :
  sem_live s ty r ->
  wp (sem_destroy ty r) (fun _ s' => forall ty' q, sem_live s' ty' q <-> sem_live s ty' q /\ ~ (ty' = ty /\ q = r)) s.
Proof.
  unfold sem_live, FMLP_SEM, SRP_SEM. intros [[-> Hr]|[-> Hr]]; unfold sem_destroy, FMLP_SEM; cbn [Z.eqb].
  - rewrite wp_in_fmlp. unfold destroy_fmlp_semaphore. wp_steps. intros ty' q. cbn. rewrite delete_is_Some. naive_solver lia.
  - rewrite wp_in_srp. unfold destroy_srp_semaphore. wp_steps. intros ty' q. cbn. rewrite delete_is_Some. naive_solver lia.
Qed.

Lemma sem_open_ok t s ty r :
  sem_live s ty r -> wp (sem_open t ty r) (fun _ s' => forall ty' q, sem_live s' ty' q <-> sem_live s ty' q) s.
Proof.
  unfold sem_live, FMLP_SEM, SRP_SEM. intros [[-> Hr]|[-> Hr]]; unfold sem_open, FMLP_SEM; cbn [Z.eqb]; [by wp_steps|].
  wp_steps. rewrite wp_in_srp. eapply wp_mono; [by apply open_srp_domain|]. intros ? st Hst ty' q. cbv beta in Hst. cbn. by rewrite Hst.
Qed.

#[global] Program Instance sem_laws : FdsoLaws (semaphores Q) := { live := sem_live }.
Next Obligation. intros. by apply sem_create_ok. Qed.
Next Obligation. intros c ty Ht. unfold fdso_ops_create, sem_ops, sem_create. by destruct (ty =? FMLP_SEM). Qed.
Next Obligation. intros. by apply sem_open_ok. Qed.
Next Obligation. intros. by apply sem_destroy_ok. Qed.

End Laws.

(** ** Two tasks that share a file *)
Definition dx_init : fdso (semaphores fheap) :=
  fd_init (fun _ => 1) (mk_semaphores (mk_fmlp ∅ [] fx_world) srp_init).

(** Task 2 opens the FMLP semaphore 5 of inode 7. *)
Definition dx_alloc (p : positive) : alloc := mk_alloc true (Some p) (Some p).
Definition dx_open (t : tid) (p : positive) : fd_call := COpen t (Some 7%positive) FMLP_SEM 5 (dx_alloc p).

Definition dx_run (c : fd_call) (s : fdso (semaphores fheap)) : fdso (semaphores fheap) :=
  match fd_exec c s with Some (_, s') => s' | None => s end.
Definition dx_s1 : fdso (semaphores fheap) := dx_run (dx_open 2%positive 1%positive) dx_init.

Lemma dx_fresh : fresh (dx_alloc 1%positive) dx_init.
Proof.
  split; [done|]. split.
  - exists 1%positive. split; [done|]. intros ty [[_ [? E]]|[_ [? E]]]; done.
  - by exists 1%positive.
Qed.

Lemma dx_init_inv : fdso_inv (fun _ => 1) dx_init.
Proof. apply fd_init_inv. Qed.

Lemma dx_s1_inv : fdso_inv (fun _ => 1) dx_s1.
Proof.
  unfold dx_s1, dx_run. cbn [fd_exec dx_open].
  pose proof (sys_od_open_spec (fun _ => 1) 2%positive (Some 7%positive) FMLP_SEM 5 _ dx_init dx_init_inv dx_fresh) as W.
  apply wp_run in W as (r & s' & E & I & _). by rewrite E.
Qed.


Lemma sys_od_open_witness :
  wp (sys_od_open 2%positive (Some 7%positive) FMLP_SEM 5 (dx_alloc 1%positive)) (fun r s' => 0 <= r ->
    exists inode n o x, Some 7%positive = Some inode /\ r = Z.of_nat n /\
      opened 2%positive inode FMLP_SEM 5 n o x dx_init s' /\
      od_lookup 2%positive r FMLP_SEM s' = Some (Some (oobj x), s') /\ live (cls s') FMLP_SEM (oobj x)) dx_init.
Proof.
  exact (sys_od_open_correct (fun _ => 1) 2%positive (Some 7%positive) FMLP_SEM 5 (dx_alloc 1%positive) dx_init dx_init_inv dx_fresh).
Defined.

Lemma od_lookup_safe_witness :
  wp (od_lookup 2%positive 0 FMLP_SEM) (fun r s' => s' = dx_s1 /\ forall p, r = Some p -> live (cls dx_s1) FMLP_SEM p) dx_s1.
Proof. exact (od_lookup_safe (fun _ => 1) 2%positive 0 FMLP_SEM dx_s1 dx_s1_inv). Defined.

Lemma sys_od_open_no_memory_witness :
  sys_od_open 2%positive (Some 7%positive) FMLP_SEM 5 (mk_alloc true None None) dx_init = None.
Proof.
  apply (sys_od_open_no_memory (fun _ => 1) 2%positive 7%positive FMLP_SEM 5 (mk_alloc true None None) dx_init dx_init_inv); done.
Defined.

Definition dx_obj : inode_obj_id := mk_obj 1 7%positive FMLP_SEM 1%positive 5.

Lemma put_inode_obj_race_witness :
  exists s1 s2 s3,
    put_inode_obj_dec 1%positive dx_s1 = Some (true, s1) /\
    get_inode_obj 7%positive FMLP_SEM 5 s1 = Some (Some 1%positive, s2) /\
    put_inode_obj 1%positive s2 = Some (tt, s3) /\
    put_inode_obj_locked 7%positive 1%positive s3 = None.
Proof.
  apply (put_inode_obj_race (fun _ => 1) (fun o => refs o (od_tables dx_s1)) 1%positive dx_obj dx_s1 (proj1 dx_s1_inv)); by vm_compute.
Defined.
