(* ===== verification/Sync.v ===== *)
(** * Synchronous release of a task system (litmus/sync.c)

    Tasks wait on the completion [ts_release] until [sys_release_ts] gives all of
    them their first job at a common point in time.  The completion is that of
    the Linux kernel (kernel/sched.c): a counter and a queue of waiters.
    [release_at] is the default of the plugins; that of PD^2 is in Pfair.v.

    A release takes the lock twice, once to release the jobs and once to wake the
    waiters up, and a waiter takes its unit of the counter when it runs again.
    The first theorem is about a release nobody interferes with; the last one
    shows what a task that arrives in between can do. *)
From S2P Require Import Prelude Task Edf Kernel.
Open Scope Z_scope.

(** [struct completion ts_release], and the tasks.  [alert] lists the waiters
    that [__wake_up_common] has woken and that have not run since. *)
Record sync : Type := mk_sync {
  done_ : Z;
  waiters : list tid;
  alert : list tid;
  stasks : tid -> task_struct
}.

Definition set_done (v : Z) (s : sync) : sync := mk_sync v (waiters s) (alert s) (stasks s).
Definition set_waiters (v : list tid) (s : sync) : sync := mk_sync (done_ s) v (alert s) (stasks s).
Definition set_alert (v : list tid) (s : sync) : sync := mk_sync (done_ s) (waiters s) v (stasks s).
Definition set_stasks (v : tid -> task_struct) (s : sync) : sync := mk_sync (done_ s) (waiters s) (alert s) v.

Definition sync_init (T : tid -> task_struct) : sync := mk_sync 0 [] [] T.

Abbreviation K := (M sync).

Definition upd_stask (t : tid) (f : task_struct -> task_struct) : K unit :=
  modify (fun s => set_stasks (upd (stasks s) t (f (stasks s t))) s).

(** ** Completions *)

(** [do_wait_for_common] up to the first [schedule_timeout]: [None] if the task
    has to sleep.  [signal] tells whether a signal is pending. *)
Definition wait_for_completion_begin (t : tid) (signal : bool) : K (option Z) :=
  d ← gets done_;
  if d =? 0 then
    if signal then mret (Some (- ERESTARTSYS))   (* queued and dequeued again *)
    else
      modify (fun s => set_waiters (waiters s ++ [t]) s);;
      upd_stask t (set_state_running false);;
      mret None
  else modify (fun s => set_done (d - 1) s);; mret (Some 0).

(** The rest, when [schedule_timeout] has returned: [None] if the task goes to
    sleep again. *)
Definition wait_for_completion_woken (t : tid) (signal : bool) : K (option Z) :=
  modify (fun s => set_alert (filter (fun x => x <> t) (alert s)) s);;
  d ← gets done_;
  if negb (d =? 0) then
    modify (fun s => set_waiters (filter (fun x => x <> t) (waiters s)) s);;
    modify (fun s => set_done (d - 1) s);;
    mret (Some 0)
  else if signal then
    modify (fun s => set_waiters (filter (fun x => x <> t) (waiters s)) s);;
    mret (Some (- ERESTARTSYS))
  else upd_stask t (set_state_running false);; mret None.

(** All waiters are exclusive: the first [n] of them are woken. *)
Definition complete_n (n : nat) : K unit :=
  modify (fun s => set_done (done_ s + Z.of_nat n) s);;
  l ← gets waiters;
  modify (fun s => set_alert (alert s ++ take n l) s);;
  modify (fun s => set_stasks (fun t => if bool_decide (t ∈ take n l) then set_state_running true (stasks s t) else stasks s t) s).

(** ** sync.c *)
Definition count_tasks_waiting_for_release : K Z := l ← gets waiters; mret (Z.of_nat (length l)).

Fixpoint release_loop (start : Z) (l : list tid) (task_count : nat) : K nat :=
  match l with
  | [] => mret task_count
  | t :: l =>
      upd_stask t (fun x => release_at (u64 (start + phase (task_params x))) x);;
      release_loop start l (S task_count)
  end.

(** The part of [do_release_ts] under the lock. *)
Definition do_release_ts_jobs (start : Z) : K nat := l ← gets waiters; release_loop start l 0.

Definition do_release_ts (start : Z) : K Z :=
  task_count ← do_release_ts_jobs start;
  complete_n task_count;;
  mret (Z.of_nat task_count).

Definition sys_wait_for_ts_release (current : tid) (signal : bool) : K (option Z) :=
  T ← gets stasks;
  if is_realtime (T current) then wait_for_completion_begin current signal else mret (Some (- EPERM)).

(** [delay] is what [copy_from_user] reads, or how much it could not read;
    [now] is the time [litmus_clock] returns. *)
Definition sys_release_ts (delay : Z + Z) (now : Z) : K Z :=
  match delay with
  | inl d => do_release_ts (u64 (now + d))
  | inr rest => mret rest
  end.

(** ** A release *)

(** The task as the release leaves it. *)
Definition released (start : Z) (x : task_struct) : task_struct := release_at (u64 (start + phase (task_params x))) x.

Lemma release_loop_run start l n s :
  NoDup l ->
  exists T, release_loop start l n s = Some ((n + length l)%nat, set_stasks T s) /\
    forall t, T t = if decide (t ∈ l) then released start (stasks s t) else stasks s t.
Proof.
  revert n s. induction l as [|a l IH]; intros n s Hn; cbn [release_loop].
  { exists (stasks s). rewrite Nat.add_0_r. split; [by destruct s|]. done. }
  apply NoDup_cons in Hn as [Ha Hn]. unfold upd_stask. erewrite bind_ok by done.
  destruct (IH (S n) (set_stasks (upd (stasks s) a (released start (stasks s a))) s) Hn) as (T & E & HT).
  exists T. split; [etransitivity; [exact E|]; do 2 f_equal; cbn; lia|]. intros t. rewrite HT. cbn. unfold upd.
  destruct (decide (t = a)) as [->|].
  - rewrite decide_False by done. by rewrite decide_True by set_solver.
  - destruct (decide (t ∈ l)); [by rewrite decide_True by set_solver|by rewrite decide_False by set_solver].
Qed.

Lemma do_release_ts_run start s :
  NoDup (waiters s) ->
  exists T, do_release_ts start s = Some (Z.of_nat (length (waiters s)),
      mk_sync (done_ s + Z.of_nat (length (waiters s))) (waiters s) (alert s ++ waiters s) T) /\
    forall t, T t = if decide (t ∈ waiters s) then set_state_running true (released start (stasks s t)) else stasks s t.
Proof.
  intros Hn. destruct (release_loop_run start (waiters s) 0 s Hn) as (T & E & HT).
  eexists. split.
  - unfold do_release_ts, do_release_ts_jobs, complete_n. rewrite (bind_ok _ _ s (length (waiters s)) (set_stasks T s)) by exact E.
    unfold mbind, M_bind, modify, gets, mret, M_ret. cbn. by rewrite take_ge by done.
  - intros t. cbn. rewrite HT.
    destruct (decide (t ∈ waiters s)); [by rewrite bool_decide_eq_true_2|by rewrite bool_decide_eq_false_2].
Qed.

(** The waiters run again, in some order. *)
Fixpoint resume_all (l : list tid) : K unit :=
  match l with
  | [] => mret tt
  | t :: l => r ← wait_for_completion_woken t false; BUG_ON (bool_decide (r <> Some 0));; resume_all l
  end.

Lemma resume_all_run l s :
  NoDup l -> waiters s ≡ₚ l -> Forall (fun t => t ∈ l) (alert s) -> done_ s = Z.of_nat (length l) ->
  resume_all l s = Some (tt, mk_sync 0 [] [] (stasks s)).
Proof.
  revert s. induction l as [|a l IH]; intros s Hn Hw Ha Hd; cbn [resume_all].
  { apply Permutation_nil_r in Hw. assert (alert s = []) as E.
    { destruct (alert s) as [|b r]; [done|]. apply Forall_cons in Ha as [Ha _]. by apply elem_of_nil in Ha. }
    destruct s; cbn in *. by subst. }
  apply NoDup_cons in Hn as [Hal Hn]. unfold wait_for_completion_woken.
  set (s1 := mk_sync (done_ s - 1) (filter (fun x => x <> a) (waiters s)) (filter (fun x => x <> a) (alert s)) (stasks s)).
  rewrite (bind_ok _ _ s (Some 0) s1).
  2: { unfold mbind, M_bind, modify, gets, mret, M_ret. cbn. rewrite Hd. cbn [length].
       rewrite (proj2 (Z.eqb_neq _ 0)) by lia. cbn. unfold s1. by rewrite Hd. }
  change (resume_all l s1 = Some (tt, mk_sync 0 [] [] (stasks s1))). apply IH; [done|..]; cbn.
  - rewrite Hw. rewrite filter_cons_False by naive_solver. rewrite filter_id; [done|]. apply Forall_forall. by intros x Hx ->.
  - apply Forall_forall. intros x [Hne Hx]%list_elem_of_filter. rewrite Forall_forall in Ha. apply Ha in Hx. set_solver.
  - rewrite Hd. cbn [length]. lia.
Qed.


(** C37: A task that calls [sys_wait_for_ts_release] after a release but before
    the tasks that were woken have run takes the unit of one of them: it returns
    at once, although it was given no job, and the task that was released goes
    back to sleep. *)
Theorem late_waiter_steals t u start s :
  t <> u -> waiters s = [t] -> done_ s = 0 -> is_realtime (stasks s u) = true ->
  exists s1 s2 s3, do_release_ts start s = Some (1, s1) /\
    sys_wait_for_ts_release u false s1 = Some (Some 0, s2) /\ stasks s2 u = stasks s u /\
    wait_for_completion_woken t false s2 = Some (None, s3) /\ state_running (stasks s3 t) = false.
Proof.
  intros Htu Hw Hd Hr. destruct (do_release_ts_run start s) as (T & E & HT); [rewrite Hw; apply NoDup_singleton|].
  rewrite Hw, Hd in E. assert (T u = stasks s u) as Eu by (rewrite HT, Hw; by rewrite decide_False by set_solver).
  eexists _, _, _. split; [exact E|]. split.
  - unfold sys_wait_for_ts_release, wait_for_completion_begin, mbind, M_bind, modify, gets, mret, M_ret. cbn. by rewrite Eu, Hr.
  - cbn. split; [done|]. split; [done|]. cbn. by rewrite upd_eq.
Qed.
