(* ===== verification/SchedClass.v ===== *)
(** * The scheduling class (litmus/sched_litmus.c)

    What connects the scheduler core of Linux to the plugin: accounting of
    execution time, the scheduling decision with the migration it may require,
    and the class callbacks that tell the plugin of tasks that block and wake
    up.  The plugin is a parameter, [SchedPlugin].

    A migration drops the lock of the run queue, so other processors can act in
    between; what they do is an argument of [litmus_schedule].

    The theorems: the execution time of a job is the time the job ran
    ([run_charged]), the wait for the stack of a migrating task ends after 10 ms
    at the latest ([migration_wait_bounded]), and a task that is switched to is
    prepared for it ([litmus_schedule_next]). *)
From stdpp Require Import sorting.
From S2P Require Import Prelude Task Edf PrioQueue Kernel RtDomain RtInv EdfDomain Partitioned PsnEdf.
Open Scope Z_scope.

(** [p->se] and [rt_param.stack_in_use] *)
Record sched_entity : Type := mk_se { exec_start : Z; sum_exec_runtime : Z; stack_in_use : Z }.

(** [struct rq], with [rq->litmus] *)
Record rq : Type := mk_rq { rq_clock : Z; nr_running : Z; rq_prev : option tid }.

Record sched (Q : Type -> Type) (P : Type) : Type := mk_sched {
  rqs : Z -> rq;
  ses : tid -> sched_entity;
  skern : world Q P
}.
Arguments mk_sched {Q} {P}.
Arguments rqs {Q} {P}.
Arguments ses {Q} {P}.
Arguments skern {Q} {P}.

(** The callbacks of the plugin the class calls. *)
Class SchedPlugin (Q : Type -> Type) (P : Type) : Type := {
  plugin_tick : tid -> M (world Q P) unit;
  plugin_schedule : tid -> M (world Q P) (option tid);
  plugin_task_wake_up : tid -> M (world Q P) unit;
  plugin_task_block : tid -> M (world Q P) unit
}.

#[global] Instance psn_sched_plugin {Q : Type -> Type} `{PrioQueue Q} : SchedPlugin Q pstate := {
  plugin_tick := psnedf_tick;
  plugin_schedule := psnedf_schedule;
  plugin_task_wake_up := psnedf_task_wake_up;
  plugin_task_block := psnedf_task_block
}.

Section SchedClass.
Context {Q : Type -> Type} {P : Type} `{SchedPlugin Q P}.
Abbreviation sched := (sched Q P).
Abbreviation S := (M sched).
Implicit Types (s : sched).

Definition set_rqs (v : Z -> rq) s : sched := mk_sched v (ses s) (skern s).
Definition set_ses (v : tid -> sched_entity) s : sched := mk_sched (rqs s) v (skern s).
Definition set_skern (v : world Q P) s : sched := mk_sched (rqs s) (ses s) v.

Definition in_kernel {A} (c : M (world Q P) A) : S A := fun s =>
  match c (skern s) with Some (a, w) => Some (a, set_skern w s) | None => None end.
Definition upd_rq (c : Z) (f : rq -> rq) : S unit := modify (fun s => set_rqs (upd (rqs s) c (f (rqs s c))) s).
Definition upd_se (t : tid) (f : sched_entity -> sched_entity) : S unit :=
  modify (fun s => set_ses (upd (ses s) t (f (ses s t))) s).

Definition set_exec_start (v : Z) (e : sched_entity) : sched_entity := mk_se v (sum_exec_runtime e) (stack_in_use e).
Definition set_stack_in_use (v : Z) (e : sched_entity) : sched_entity := mk_se (exec_start e) (sum_exec_runtime e) v.

(** The run queue is that of the CPU [c]. *)
Definition update_time_litmus (c : Z) (p : tid) : S unit :=
  r ← gets (fun s => rqs s c);
  e ← gets (fun s => ses s p);
  let delta := u64 (rq_clock r - exec_start e) in
  let delta := if s64 delta <? 0 then 0 else delta in
  (* per job counter *)
  in_kernel (upd_task p (on_job (fun j => set_exec_time (u64 (exec_time j + delta)) j)));;
  (* task counter *)
  upd_se p (fun e => mk_se (exec_start e) (u64 (sum_exec_runtime e + delta)) (stack_in_use e));;
  upd_se p (set_exec_start (rq_clock r)).

Definition litmus_tick (c : Z) (p : tid) : S unit :=
  x ← in_kernel (get_task p);
  when (is_realtime x) (update_time_litmus c p);;
  in_kernel (plugin_tick p).

(** What other processors do while the lock is dropped: when it is dropped,
    before each further look at the stack of the task, and while both locks are
    taken. *)
Record interference : Type := mk_interference {
  on_unlock : sched -> sched;
  on_spin : list (sched -> sched);
  on_relock : sched -> sched
}.

(** The loop that waits until nobody uses the stack of [next]: whether it is free
    before 10 ms have passed since [start]. *)
Fixpoint wait_for_stack (next : tid) (start : Z) (others : list (sched -> sched)) : S bool :=
  e ← gets (fun s => ses s next);
  if stack_in_use e =? NO_CPU then mret true
  else
    match others with
    | [] => fault
    | f :: others =>
        modify f;;
        now ← in_kernel litmus_clock;
        if lt_before (u64 (start + 10000000)) now then mret false   (* bail out *)
        else wait_for_stack next start others
    end.

(** [next] is pulled from another run queue: [None] when the task had to be
    abandoned, else the task to run. *)
Definition litmus_migrate (c : Z) (prev next : tid) (o : interference) : S (option (option tid)) :=
  x ← in_kernel (get_task prev);
  let was_running := is_running x in
  modify (on_unlock o);;
  e ← gets (fun s => ses s next);
  start ← (if stack_in_use e =? NO_CPU then mret 0 else in_kernel litmus_clock);
  free ← wait_for_stack next start (on_spin o);
  if negb free then mret None
  else
    modify (on_relock o);;
    x ← in_kernel (get_task prev);
    when (is_realtime x && (is_running x && negb was_running))
      (* prev task became unblocked: simulate the normal sequence of events *)
      (in_kernel (plugin_task_block prev);; in_kernel (plugin_task_wake_up prev));;
    in_kernel (upd_task next (set_task_cpu c));;
    x ← in_kernel (get_task next);
    mret (Some (if negb (is_realtime x) || negb (is_running x) then None else Some next)).

(** [cancelled] is what [hrtimer_try_to_cancel] returns. *)
Definition litmus_schedule (c : Z) (prev : tid) (o : interference) (cancelled : Z) : S (option tid) :=
  (* let the plugin schedule *)
  next ← in_kernel (plugin_schedule prev);
  r ← match next with
      | None => mret (Some None)
      | Some n =>
          x ← in_kernel (get_task n);
          (* check if a global plugin pulled a task from a different RQ *)
          if task_cpu x =? c then mret (Some (Some n)) else litmus_migrate c prev n o
      end;
  match r with
  | None => mret None
  | Some next =>
      match next with
      | Some n =>
          r ← gets (fun s => rqs s c);
          upd_se n (set_stack_in_use c);;
          upd_se n (set_exec_start (rq_clock r))
      | None => mret tt
      end;;
      in_kernel (update_enforcement_timer cancelled next);;
      mret next
  end.

Definition enqueue_task_litmus (c : Z) (p : tid) (wakeup : bool) : S unit :=
  when wakeup (
    in_kernel (upd_task p (set_present true));;
    in_kernel (upd_task p (set_state_running true));;
    in_kernel (plugin_task_wake_up p);;
    upd_rq c (fun r => mk_rq (rq_clock r) (nr_running r + 1) (rq_prev r))).

Definition dequeue_task_litmus (c : Z) (p : tid) (sleep : bool) : S unit :=
  when sleep (
    in_kernel (plugin_task_block p);;
    in_kernel (upd_task p (set_present false));;
    upd_rq c (fun r => mk_rq (rq_clock r) (nr_running r - 1) (rq_prev r))).

(** [curr] is [rq->curr]. *)
Definition yield_task_litmus (curr current : tid) : S unit :=
  BUG_ON (bool_decide (curr <> current));;
  in_kernel (upd_task current clear_exit_np);;
  in_kernel (set_tsk_need_resched current).

Definition pre_schedule_litmus (c : Z) (prev : tid) : S unit :=
  update_time_litmus c prev;;
  x ← in_kernel (get_task prev);
  when (negb (is_running x)) (in_kernel (upd_task prev (set_present false))).

Definition pick_next_task_litmus (c : Z) (o : interference) (cancelled : Z) : S (option tid) :=
  r ← gets (fun s => rqs s c);
  match rq_prev r with
  | None => mret None
  | Some prev =>
      upd_rq c (fun r => mk_rq (rq_clock r) (nr_running r) None);;
      litmus_schedule c prev o cancelled
  end.

Definition set_curr_task_litmus (c : Z) (curr : tid) : S unit :=
  r ← gets (fun s => rqs s c);
  upd_se curr (set_exec_start (rq_clock r)).

Definition get_rr_interval_litmus : Z := 0.
Definition select_task_rq_litmus (p : task_struct) : Z := task_cpu p.

End SchedClass.

(** ** Accounting *)

(** [ticking t w]: the plugin can handle a tick while [t] runs. *)
Class SchedPluginLaws (Q : Type -> Type) (P : Type) `{SchedPlugin Q P} : Type := {
  ticking : tid -> world Q P -> Prop;
  ticking_task t x w : ticking t w -> ticking t (set_tasks (upd (tasks w) t x) w);
  tick_law t w : ticking t w ->
    wp (plugin_tick t) (fun _ w' => ticking t w' /\ job_params (tasks w' t) = job_params (tasks w t) /\
      is_realtime (tasks w' t) = is_realtime (tasks w t)) w
}.

Section Accounting.
Context {Q : Type -> Type} {P : Type} `{SchedPluginLaws Q P}.
Abbreviation sched := (sched Q P).
Implicit Types (s : sched) (t : tid) (c : Z).

Lemma wp_in_kernel {A} (k : M (world Q P) A) (Φ : A -> sched -> Prop) s :
  wp (in_kernel k) Φ s <-> wp k (fun a w => Φ a (set_skern w s)) (skern s).
Proof. unfold wp, in_kernel. by destruct (k (skern s)) as [[? ?]|]. Qed.

(** The clock of the run queue of [c] advances to [v]. *)
Definition at_clock c (v : Z) : M sched unit := upd_rq c (fun r => mk_rq v (nr_running r) (rq_prev r)).

(** [t] runs on [c]: ticks at the times [l], and the scheduler is called at [e]. *)
Fixpoint run_slice c t (l : list Z) (e : Z) : M sched unit :=
  match l with
  | [] => at_clock c e;; pre_schedule_litmus c t
  | v :: l => at_clock c v;; litmus_tick c t;; run_slice c t l e
  end.

(** The job of [t] was charged up to the time [a], [n] in total. *)
Record charged t (a n : Z) s : Prop := {
  ch_start : exec_start (ses s t) = a;
  ch_exec : get_exec_time (tasks (skern s) t) = n;
  ch_rt : is_realtime (tasks (skern s) t) = true;
  ch_tick : ticking t (skern s)
}.

Lemma update_time_spec c t a n v s :
  charged t a n s -> rq_clock (rqs s c) = v -> 0 <= a <= v -> v < two63 -> 0 <= n -> n + (v - a) < two64 ->
  wp (update_time_litmus c t) (fun _ s' => charged t v (n + (v - a)) s') s.
Proof.
  intros [Ha Hn Hr Ht] Hv Hav Hv2 Hn0 Hb. unfold update_time_litmus, upd_se. wp_steps. rewrite wp_in_kernel. unfold upd_task. wp_steps.
  assert (u64 (v - a) = v - a) as Ed by (apply u64_id; unfold is_u64, two64, two63 in *; lia).
  rewrite Hv, Ha, Ed. assert (s64 (v - a) <? 0 = false) as -> by (apply Z.ltb_ge; rewrite s64_small by (unfold two63 in *; lia); lia).
  split; cbn.
  - by rewrite !upd_eq.
  - rewrite upd_eq. cbn. unfold get_exec_time in *. cbn. rewrite Hn. apply u64_id. unfold is_u64. lia.
  - by rewrite upd_eq.
  - by apply ticking_task.
Qed.

Lemma at_clock_spec c v t a n s (Φ : unit -> sched -> Prop) :
  charged t a n s -> (forall s', charged t a n s' -> rq_clock (rqs s' c) = v -> Φ tt s') -> wp (at_clock c v) Φ s.
Proof.
  intros [] HΦ. unfold at_clock, upd_rq. wp_steps. apply HΦ; [by split|]. cbn. by rewrite upd_eq.
Qed.

Lemma litmus_tick_spec c t a n v s :
  charged t a n s -> rq_clock (rqs s c) = v -> 0 <= a <= v -> v < two63 -> 0 <= n -> n + (v - a) < two64 ->
  wp (litmus_tick c t) (fun _ s' => charged t v (n + (v - a)) s') s.
Proof.
  intros Hc Hv Hav Hv2 Hn0 Hb. unfold litmus_tick. wp_steps. rewrite wp_in_kernel. unfold get_task. wp_steps.
  replace (set_skern (skern s) s) with s by (by destruct s). rewrite (ch_rt _ _ _ _ Hc). apply wp_when.
  eapply wp_mono; [by apply (update_time_spec c t a n v)|]. intros ? s1 H1. cbv beta in H1. wp_steps. rewrite wp_in_kernel.
  eapply wp_mono; [apply tick_law, H1|]. intros ? w' (Ht & Hj & Hr). destruct H1 as [? He ? ?]. split; cbn.
  - done.
  - unfold get_exec_time in *. congruence.
  - congruence.
  - done.
Qed.

Lemma pre_schedule_spec c t a n v s :
  charged t a n s -> rq_clock (rqs s c) = v -> 0 <= a <= v -> v < two63 -> 0 <= n -> n + (v - a) < two64 ->
  wp (pre_schedule_litmus c t) (fun _ s' =>
    get_exec_time (tasks (skern s') t) = n + (v - a) /\ exec_start (ses s' t) = v) s.
Proof.
  intros Hc Hv Hav Hv2 Hn0 Hb. unfold pre_schedule_litmus. wp_steps.
  eapply wp_mono; [by apply (update_time_spec c t a n v)|]. intros ? s1 [Hs1 He1 _ _]. wp_steps. rewrite wp_in_kernel.
  unfold get_task. wp_steps. apply wp_when. destruct (negb _); [|done]. rewrite wp_in_kernel. unfold upd_task. wp_steps.
  split; [|done]. cbn. by rewrite upd_eq.
Qed.

(** C21: A job is charged the time it runs: if it is switched to at time [a], the
    class sees ticks at any times in between and switches it out at [e], its
    execution time has grown by [e - a]. *)
Theorem run_charged c t l a e n s :
  charged t a n s -> StronglySorted Z.le (a :: l ++ [e]) -> 0 <= a -> e < two63 -> 0 <= n -> n + (e - a) < two64 ->
  wp (run_slice c t l e) (fun _ s' => get_exec_time (tasks (skern s') t) = n + (e - a) /\ exec_start (ses s' t) = e) s.
Proof.
  revert a n s. induction l as [|v l IH]; intros a n s Hc Hl Ha He Hn Hb; cbn [run_slice].
  - apply StronglySorted_inv in Hl as [_ Hl]. apply Forall_cons in Hl as [Hae _]. wp_steps.
    eapply at_clock_spec; [exact Hc|]. intros s' Hc' Hv. by apply pre_schedule_spec.
  - apply StronglySorted_inv in Hl as [Hl Hal]. apply Forall_cons in Hal as [Hav _].
    pose proof Hl as [_ Hve]%StronglySorted_inv. rewrite Forall_app, Forall_singleton in Hve. destruct Hve as [_ Hve].
    wp_steps. eapply at_clock_spec; [exact Hc|]. intros s1 Hc1 Hv1. wp_steps.
    eapply wp_mono; [apply (litmus_tick_spec c t a n v); [done|done|lia|lia|done|lia]|]. intros ? s2 Hc2. cbv beta in Hc2.
    eapply wp_mono; [apply (IH v _ s2 Hc2 Hl); lia|]. intros ? s3 [E1 E2]. split; [|done]. rewrite E1. lia.
Qed.

End Accounting.

#[global] Program Instance psn_sched_laws {Q : Type -> Type} `{PrioQueueLaws Q} : SchedPluginLaws Q pstate := {
  ticking t w := sched_of w (this_cpu w) = Some t
}.
Next Obligation. done. Qed.
Next Obligation.
  intros Q HQ HL t w Hs. unfold plugin_tick, psn_sched_plugin, psnedf_tick, get_scheduled, get_task, set_tsk_need_resched, upd_task.
  unfold sched_of in Hs. wp_steps; [rewrite Hs, bool_decide_eq_false_2 by naive_solver; apply andb_false_r|].
  apply wp_when. destruct (_ && _); [|done]. destruct (negb _); wp_steps; [cbn; by rewrite upd_eq|].
  apply wp_when. destruct (is_user_np _); [|done]. wp_steps. cbn. rewrite upd_eq. unfold request_exit_np.
  by repeat case_match.
Qed.

(** ** Migration *)
Section Migration.
Context {Q : Type -> Type} {P : Type} `{SchedPlugin Q P}.
Abbreviation sched := (sched Q P).
Implicit Types (s : sched) (n prev : tid) (c : Z).

(** Other processors do not turn back the clock. *)
Definition honest (f : sched -> sched) : Prop :=
  forall s, clock (skern (f s)) = clock (skern s) /\ elapse (skern (f s)) = elapse (skern s).

Lemma wait_bounded n start others ds ds' s :
  Forall honest others -> elapse (skern s) = ds ++ ds' -> (length ds <= length others)%nat ->
  Forall (fun d => 0 <= d) ds -> 0 <= start <= clock (skern s) -> clock (skern s) + sum_Z ds < two63 ->
  start + 10000000 < clock (skern s) + sum_Z ds -> clock (skern s) <= start + 10000000 ->
  is_Some (wait_for_stack n start others s).
Proof.
  revert ds s. induction others as [|f others IH]; intros ds s Hf Hds Hlen Hpos Hs Hb Hend Hnow; cbn [wait_for_stack];
    rewrite (bind_ok _ _ s (ses s n) s) by done; (destruct (stack_in_use (ses s n) =? NO_CPU); [by eexists|]).
  { destruct ds; [cbn in *; lia|cbn in Hlen; lia]. }
  apply Forall_cons in Hf as [Hf Hfs]. destruct ds as [|d ds]; [cbn in *; lia|].
  destruct (Hf s) as [Ec Ee]. set (w' := set_elapse (ds ++ ds') (set_clock (clock (skern s) + d) (skern (f s)))).
  rewrite (bind_ok _ _ s tt (f s)) by done.
  rewrite (bind_ok _ _ (f s) (clock (skern s) + d) (set_skern w' (f s)))
    by (unfold in_kernel, litmus_clock; by rewrite Ee, Hds, Ec).
  apply Forall_cons in Hpos as [Hd Hpos]. pose proof (sum_Z_nonneg _ Hpos). cbn [sum_Z foldr] in *. fold (sum_Z ds) in *.
  assert (u64 (start + 10000000) = start + 10000000) as -> by (apply u64_id; unfold is_u64, two64, two63 in *; lia).
  rewrite lt_before_window by (unfold two63 in *; lia). destruct (Z.ltb_spec (start + 10000000) (clock (skern s) + d)); [by eexists|].
  apply (IH ds (set_skern w' (f s)) Hfs); cbn; [done|cbn in Hlen; lia|done|lia|lia|lia|lia].
Qed.

(** The wait for the stack of a migrating task ends: whatever the other
    processors do, once the times [ds] that pass before the following reads of
    the clock add up to more than 10 ms, the loop is over. *)
Theorem migration_wait_bounded n others ds ds' s :
  Forall honest others -> elapse (skern s) = ds ++ ds' -> (length ds <= length others)%nat ->
  Forall (fun d => 0 <= d) ds -> 0 <= clock (skern s) -> clock (skern s) + sum_Z ds < two63 ->
  10000000 < sum_Z ds -> is_Some (wait_for_stack n (clock (skern s)) others s).
Proof. intros. eapply wait_bounded; try done; lia. Qed.

(** The enforcement timer is not about tasks. *)
Definition same_tasks (w w' : world Q P) : Prop := tasks w' = tasks w.

#[local] Instance same_tasks_preorder : PreOrder same_tasks.
Proof. split; [done|]. unfold same_tasks. intros w1 w2 w3. congruence. Qed.

Lemma same_tasks_clock : frames same_tasks litmus_clock.
Proof. intros w a w'. unfold litmus_clock. destruct (elapse w); by intros [= <- <-]. Qed.

Lemma same_tasks_et e : frames same_tasks (put_et e).
Proof. by apply frames_modify. Qed.

Lemma enforcement_tasks cancelled next : frames same_tasks (update_enforcement_timer cancelled next).
Proof.
  unfold update_enforcement_timer, arm_enforcement_timer, cancel_enforcement_timer, get_task, get_et.
  frames_tac; auto using same_tasks_clock, same_tasks_et.
Qed.

Lemma in_kernel_inv {A} (k : M (world Q P) A) s a s' :
  in_kernel k s = Some (a, s') -> exists w, k (skern s) = Some (a, w) /\ s' = set_skern w s.
Proof. unfold in_kernel. destruct (k (skern s)) as [[b w]|]; [|done]. intros [= <- <-]. by exists w. Qed.

(** A task that was pulled from another CPU now belongs to this one. *)
Lemma litmus_migrate_next c prev next o n s s' :
  litmus_migrate c prev next o s = Some (Some (Some n), s') ->
  n = next /\ task_cpu (tasks (skern s') n) = c /\ is_realtime (tasks (skern s') n) = true /\
  is_running (tasks (skern s') n) = true.
Proof.
  unfold litmus_migrate. intros (x & s1 & _ & E)%bind_inv. cbv beta zeta in E.
  apply bind_inv in E as (? & s2 & _ & E). apply bind_inv in E as (e & s3 & _ & E). apply bind_inv in E as (st & s4 & _ & E).
  apply bind_inv in E as (free & s5 & _ & E). destruct free; [|done]. cbn [negb] in E.
  apply bind_inv in E as (? & s6 & _ & E). apply bind_inv in E as (x' & s7 & _ & E). apply bind_inv in E as (? & s8 & _ & E).
  apply bind_inv in E as (? & s9 & Eu & E). apply bind_inv in E as (y & s10 & Ey & E).
  apply in_kernel_inv in Eu as (w9 & [= <-] & ->). apply in_kernel_inv in Ey as (w10 & [= <- <-] & ->).
  injection E as E <-. cbn in *. subst w9. cbn in *. rewrite upd_eq in E.
  destruct (is_realtime _) eqn:Er; [|done]. destruct (is_running _) eqn:En; [|done]. cbn in E. injection E as <-. by rewrite upd_eq.
Qed.

(** The task [litmus_schedule] switches to has its stack and its execution
    time assigned to the CPU and belongs to the run queue of the CPU. *)
Theorem litmus_schedule_next c prev o cancelled n s s' :
  litmus_schedule c prev o cancelled s = Some (Some n, s') ->
  stack_in_use (ses s' n) = c /\ exec_start (ses s' n) = rq_clock (rqs s' c) /\
  task_cpu (tasks (skern s') n) = c.
Proof.
  unfold litmus_schedule. intros (next & s1 & _ & E)%bind_inv. apply bind_inv in E as (r & s2 & Er & E).
  assert (forall n, r = Some (Some n) -> task_cpu (tasks (skern s2) n) = c) as Hr.
  { intros n' ->. destruct next as [n0|]; [|done]. apply bind_inv in Er as (x & s3 & Ex & Er).
    apply in_kernel_inv in Ex as (w3 & [= <- <-] & ->). destruct (Z.eqb_spec (task_cpu (tasks (skern s1) n0)) c) as [Ec|].
    - injection Er as <- <-. done.
    - apply litmus_migrate_next in Er as (-> & ? & _). done. }
  destruct r as [next'|]; [|done]. apply bind_inv in E as (? & s3 & Ee & E). apply bind_inv in E as (? & s4 & Et & E).
  injection E as -> <-. apply in_kernel_inv in Et as (w4 & Et & ->). apply enforcement_tasks in Et.
  injection Ee as <- <-. cbn in *. rewrite !upd_eq. cbn. split_and!; [done|done|]. rewrite Et. by apply Hr.
Qed.

End Migration.
