(* ===== verification/JobCalls.v ===== *)
(** * The job system calls (litmus/litmus.c)

    [sys_complete_job], [sys_wait_for_job_release] and [sys_query_job_no], for the
    current task.  The callback [complete_job] of the plugin is a parameter: it
    returns an error or, when the next job of the task has been released, 0. *)
From S2P Require Import Prelude Task Edf.
Open Scope Z_scope.

Section JobCalls.
(** What [litmus->complete_job()] does to the task that calls it. *)
Context (plugin_complete_job : task_struct -> Z * task_struct).
Implicit Types (x : task_struct).

Definition sys_complete_job x : Z * task_struct :=
  if negb (is_realtime x) then (- EINVAL, x)
  (* Task with negative or zero period cannot sleep *)
  else if get_rt_period x <=? 0 then (- EINVAL, x)
  else plugin_complete_job x.

(** [while (!retval && job > job_no) retval = litmus->complete_job();] *)
Fixpoint job_loop (fuel : nat) (job retval : Z) x : option (Z * task_struct) :=
  if (retval =? 0) && (job_no (job_params x) <? job) then
    match fuel with
    | O => None
    | S fuel => let '(retval, x) := plugin_complete_job x in job_loop fuel job retval x
    end
  else Some (retval, x).

Definition sys_wait_for_job_release (fuel : nat) (job : Z) x : option (Z * task_struct) :=
  if negb (is_realtime x) then Some (- EINVAL, x)
  else if get_rt_period x <=? 0 then Some (- EINVAL, x)
  else job_loop fuel job 0 x.

(** [writable]: [put_user] succeeds; the second component is what user space
    reads. *)
Definition sys_query_job_no (writable : bool) x : Z * option Z :=
  if is_realtime x then if writable then (0, Some (job_no (job_params x))) else (- EFAULT, None)
  else (- EPERM, None).

(** A completed job is followed by a later one, until the numbers wrap around. *)
Hypothesis next_job : forall x, let '(ret, x') := plugin_complete_job x in
  0 <= job_no (job_params x) < two32 - 1 -> ret = 0 -> job_no (job_params x) < job_no (job_params x').

Lemma job_loop_ends fuel job x ret :
  job - job_no (job_params x) <= Z.of_nat fuel -> 0 <= job_no (job_params x) -> job < two32 ->
  exists ret' x', job_loop fuel job ret x = Some (ret', x') /\ (ret' = 0 -> ret = 0 -> job <= job_no (job_params x')).
Proof.
  revert x ret. induction fuel as [|fuel IH]; intros x ret Hf H0 Hb; cbn [job_loop];
    destruct (Z.ltb_spec (job_no (job_params x)) job) as [Hj|Hj]; rewrite ?andb_false_r; try (by exists ret, x); [lia|].
  rewrite andb_true_r. destruct (Z.eqb_spec ret 0) as [->|]; [|by exists ret, x].
  pose proof (next_job x) as Hn. destruct (plugin_complete_job x) as [r x1]. destruct (decide (r = 0)) as [->|Hr].
  - destruct (IH x1 0) as (ret' & x' & E & Hx'); [specialize (Hn ltac:(lia) eq_refl); lia|specialize (Hn ltac:(lia) eq_refl); lia|done|]. exists ret', x'. auto.
  - exists r, x1. split; [|done]. destruct fuel; cbn [job_loop]; by rewrite (proj2 (Z.eqb_neq _ _) Hr).
Qed.

(** [sys_wait_for_job_release] returns after at most as many completed jobs
    as the requested job is ahead, and when it returns 0 the task has reached
    that job (or an earlier one overran and the task is past it). *)
Theorem wait_for_job_release_reaches job x :
  is_realtime x = true -> 0 < get_rt_period x -> 0 <= job_no (job_params x) -> job < two32 ->
  exists ret x', sys_wait_for_job_release (Z.to_nat (job - job_no (job_params x))) job x = Some (ret, x') /\
    (ret = 0 -> job <= job_no (job_params x')).
Proof.
  intros Hr Hp Hj Hb. unfold sys_wait_for_job_release. rewrite Hr, (proj2 (Z.leb_gt _ _) Hp). cbn [negb].
  destruct (job_loop_ends (Z.to_nat (job - job_no (job_params x))) job x 0) as (ret & x' & E & H); [lia|done|done|].
  exists ret, x'. auto.
Qed.

End JobCalls.
