(* ===== verification/GlueExamples.v ===== *)
(** * The scheduling class, releases and job calls on concrete states

    Instances of the theorems of SchedClass.v, Sync.v and JobCalls.v for the
    PSN-EDF machine of Examples.v and the tasks of FmlpExamples.v. *)

From stdpp Require Import sorting.
From S2P Require Import Prelude BinForest Task Edf PrioQueue Kernel Partitioned PsnEdf Examples FmlpExamples Sync SchedClass JobCalls.
Open Scope Z_scope.

(** ** A synchronous release: tasks 1 and 2 wait. *)
Definition sx_waiting : sync := mk_sync 0 [1; 2]%positive [] fx_tasks.


Lemma late_waiter_witness :
  exists s1 s2 s3, do_release_ts 1000 (mk_sync 0 [1]%positive [] fx_tasks) = Some (1, s1) /\
    sys_wait_for_ts_release 2%positive false s1 = Some (Some 0, s2) /\ stasks s2 2%positive = fx_tasks 2%positive /\
    wait_for_completion_woken 1%positive false s2 = Some (None, s3) /\ state_running (stasks s3 1%positive) = false.
Proof. exact (late_waiter_steals 1%positive 2%positive 1000 (mk_sync 0 [1]%positive [] fx_tasks) ltac:(done) eq_refl eq_refl eq_refl). Defined.

(** ** The scheduling class: task 1 runs on CPU 0. *)
Definition gx_sched : sched fheap pstate :=
  mk_sched (fun _ => mk_rq 1000 1 (Some 1%positive)) (fun _ => mk_se 1000 0 NO_CPU) ex_w2.

Lemma run_charged_witness :
  wp (run_slice 0 1%positive [1500; 1900] 2500) (fun _ s' =>
    get_exec_time (tasks (skern s') 1%positive) = 1500 /\ exec_start (ses s' 1%positive) = 2500) gx_sched.
Proof.
  apply (run_charged 0 1%positive [1500; 1900] 1000 2500 0 gx_sched).
  - split; by vm_compute.
  - repeat constructor; lia.
  - lia.
  - done.
  - lia.
  - done.
Defined.

(** The clock is read twice, with 6 ms in between. *)
Definition gx_spinning : sched fheap pstate :=
  mk_sched (rqs gx_sched) (fun _ => mk_se 1000 0 1) (set_elapse [6000000; 6000000] ex_w2).

Lemma migration_wait_witness :
  is_Some (wait_for_stack 1%positive (clock (skern gx_spinning)) [id; id] gx_spinning).
Proof.
  apply (migration_wait_bounded 1%positive [id; id] [6000000; 6000000] [] gx_spinning).
  - by repeat constructor.
  - done.
  - done.
  - repeat constructor; lia.
  - by vm_compute.
  - by vm_compute.
  - by vm_compute.
Defined.

(** The state after a computation that returns [n]. *)
Definition end_of {S A} (c : M S A) (s : S) : S := match c s with Some (_, s') => s' | None => s end.
Definition returns {S} (c : M S (option tid)) (n : tid) (s : S) : bool :=
  match c s with Some (Some m, _) => bool_decide (m = n) | _ => false end.

Lemma returns_run {S} (c : M S (option tid)) n s : returns c n s = true -> c s = Some (Some n, end_of c s).
Proof. unfold returns, end_of. destruct (c s) as [[[m|] s']|]; try done. by intros ->%bool_decide_eq_true. Qed.

Definition gx_alone : interference (Q:=fheap) (P:=pstate) := mk_interference id [] id.

Lemma litmus_schedule_next_witness :
  let s' := end_of (litmus_schedule 0 1%positive gx_alone 1) gx_sched in
  stack_in_use (ses s' 1%positive) = 0 /\ exec_start (ses s' 1%positive) = rq_clock (rqs s' 0) /\
  task_cpu (tasks (skern s') 1%positive) = 0.
Proof.
  apply (litmus_schedule_next 0 1%positive gx_alone 1 1%positive gx_sched). apply returns_run. by vm_compute.
Defined.

(** ** Job calls: a plugin that completes jobs at once. *)
Definition jx_complete (x : task_struct) : Z * task_struct := (0, prepare_for_next_period (complete_job x)).

Lemma jx_next x : let '(ret, x') := jx_complete x in
  0 <= job_no (job_params x) < two32 - 1 -> ret = 0 -> job_no (job_params x) < job_no (job_params x').
Proof. cbn. intros Hx _. unfold u32. rewrite Z.mod_small by lia. lia. Qed.

Lemma wait_for_job_release_witness :
  exists ret x', sys_wait_for_job_release jx_complete 3 3 (fx_tasks 1%positive) = Some (ret, x') /\
    (ret = 0 -> 3 <= job_no (job_params x')).
Proof. exact (wait_for_job_release_reaches jx_complete jx_next 3 (fx_tasks 1%positive) eq_refl eq_refl ltac:(done) ltac:(done)). Defined.
